(* ===== verification/_CoqProject ===== *)
-Q . S2P
Prelude.v
Nibbles.v
ProofTree.v
ProofTreeWf.v
ProofTreeOps.v
ProofTreeMap.v
ProofTreeMeta.v
ProofTreeCommit.v
ProofTreeCanon.v
ProofTreeProve.v
ProofTreeProveSpec.v
ProofTreeTraversal.v
ProofTreeSound.v
Wire.v
ProofTreeSerial.v
CanonicalTypes.v
Keys.v
KeyRegistry.v
Global.v
LegacyRequest.v
TraversalWire.v
Frames.v
Hypergraph.v
Token.v
Compute.v
Messages.v
Difficulty.v
FeeManager.v
MinHeap.v
OrderEncoding.v
RdfMultiprover.v
RdfSpec.v
ConsensusMachine.v
ConsensusSpec.v
ConsensusLiveness.v
Critbit.v
CritbitSpec.v
RollingFrecency.v
RewardTrie.v
RewardIssuance.v
Proposer.v
ForkChoice.v
Stateful.v
GlobalTimeReel.v
GlobalTimeReelSpec.v
GlobalTimeReelInsert.v
GlobalTimeReelEffects.v
GlobalTimeReelRestart.v
GlobalTimeReelClaims.v
FrameProver.v
FrameValidator.v
Voting.v
GlobalMessages.v
GlobalMessagesSpec.v
HypergraphState.v
GlobalCollect.v
GlobalIntrinsic.v
GlobalExecution.v
IntrinsicFields.v
GlobalRegistry.v
GlobalRegistryJoin.v
GlobalRegistrySpec.v
GlobalExecutionSpec.v
GlobalProviders.v
GlobalDemo.v
IntrinsicDemo.v
