(* ===== verification/Prelude.v ===== *)
(** * Verification of the Quilibrium monorepo

    Quilibrium is a decentralised compute network written in Go.  Its nodes agree on frames
    (blocks): provers announce themselves, propose, vote on and finalise frames, keep the
    state of the network in committed tries, charge fees, and are rewarded.  This library
    models the deterministic parts of a node from which that behaviour follows, as functions
    of Rocq, and proves them correct; where the code does not do what it means to, it proves
    what the code does instead.

    ** Parts of the program and files

    Commitments (types/tries, types/schema).  The state of an application is a vector
    commitment tree, a 64-ary Patricia trie whose branches commit to their children through
    an inclusion prover.
    - Nibbles: paths of keys (getNextNibble, getFullPath, getNibblesUntilDiverge).
    - ProofTree: VectorCommitmentTree with Insert, Get, Delete, GetMetadata, GetSize
      (proof_tree.go); ProofTreeWf, ProofTreeOps, ProofTreeMap: its invariant and the
      refinement of a finite map; ProofTreeMeta: the counters of the branches.
    - ProofTreeCommit: Commit with its caches; ProofTreeCanon: the root depends on the
      entries only and binds them.
    - ProofTreeProve: Prove, ProveMultiple, GetPolynomial, VerifyTreeTraversalProof;
      ProofTreeProveSpec, ProofTreeTraversal, ProofTreeSound: completeness, soundness, and
      the proofs the verifier takes without asking the prover.
    - ProofTreeSerial: the serialisation of trees; TraversalWire: proofs as bytes and as
      messages (lazy_proof_tree.go, bls48581.go, the conversions of the token and global
      intrinsics).
    - OrderEncoding, RdfMultiprover, RdfSpec: fields of schema classes in a tree
      (order_encoding.go, rdf_multiprover.go).
    Messages (protobufs).  Wire holds the byte buffers, the reader monad and the class of
    canonical codecs with their round-trip laws; each message is a Module with its record, its
    codec and Validate, and an instance of the class:
    - CanonicalTypes, Keys, KeyRegistry, Global, LegacyRequest, Frames, Hypergraph, Token,
      Compute, and Messages for the union of requests, bundles and whole frames.
    Agreement (consensus, node/consensus).
    - ConsensusMachine: the state machine of consensus/state_machine.go as a step relation;
      ConsensusSpec: its invariants and liveness; ConsensusLiveness: a node of its own quorum
      and concrete providers.
    - ForkChoice: scores of branches (time/fork_choice.go); Stateful: the monad of methods
      that change their receiver; GlobalTimeReel: the tree of frames
      (time/global_time_reel.go, utils.go); GlobalTimeReelSpec, GlobalTimeReelInsert: its
      invariants and that every Insert keeps them; GlobalTimeReelEffects,
      GlobalTimeReelRestart: what is done to the store, and how it is read back;
      GlobalTimeReelClaims: the properties and a concrete environment.
    - FrameProver: proofs of time and signatures of frame headers
      (vdf/wesolowski_frame_prover.go); FrameValidator: the two validators of frames
      (node/consensus/validator).
    - Voting: quorum and the finalisation of votes (global/consensus_voting_provider.go);
      GlobalMessages: validation, queues and handlers of the messages of the global engine
      (message_validation.go, message_processors.go, message_subscription.go);
      GlobalMessagesSpec: what its state can be; GlobalCollect: Collect of the liveness
      provider, the costs of the execution manager, and materialize
      (global_consensus_engine.go); GlobalProviders: what a node sends, from ProveNextState to
      SendConfirmation; GlobalDemo: a concrete network.
    - Difficulty, FeeManager, RewardIssuance, Proposer: the difficulty adjuster, the fee
      votes, the rewards of provers and the allocation of workers to shards.
    Execution (node/execution).  Provers register, leave and pause through operations that
    change vertices of a hypergraph.
    - HypergraphState: the pending changes of a hypergraph (state/hypergraph), with the trees
      of the changes in a heap, since the code shares them; the hypergraph is a class.
    - GlobalIntrinsic: Materialize, Verify and Prove of the operations on provers
      (intrinsics/global/global_prover_*.go, global_prover_utils.go); GlobalExecution: their
      conversions, Validate and InvokeStep of the intrinsic, the global execution engine
      (engines/global_execution_engine.go) and the dispatch of the execution manager.
    - IntrinsicFields: the fields of the vertices in RDF trees; GlobalRegistry,
      GlobalRegistryJoin: the registry of provers as an abstract state, the relation to the
      pending changes and the refinement; GlobalRegistrySpec: permissions, invariants;
      GlobalExecutionSpec: the engine; IntrinsicDemo: a concrete hypergraph.
    Containers (types/tries).
    - Critbit, CritbitSpec (critbit_trie.go); RollingFrecency (the provers of a shard by
      distance); RewardTrie; MinHeap.

    The parts meet as in the code: frames carry message bundles (Messages), the reel links
    frames by the hash of their output, chooses between branches with ForkChoice and hands
    the bundles to the store; the global engine validates what peers send with FrameValidator,
    inserts accepted frames into the reel and stores proposals, its providers collect the
    requests that its handlers have queued, commit to the shards with VectorCommitmentTree and
    send what the handlers of a peer receive; Collect and materialize run the requests through the
    execution manager, whose global engine executes operations on a pending state of the
    hypergraph; the vertices of provers are trees that RdfMultiprover reads and writes, on
    VectorCommitmentTree; the two tries of provers are built on, or proved by simulation with,
    the crit-bit tree; Proposer uses the reward basis of RewardIssuance.

    ** Conventions

    A Go function that returns an error is a function to [result], whose values are [Ok],
    [Err] with the innermost message, [Panic] and [Diverge].  Integers are [Z] with
    wrap-around written out where the code computes on them ([u8], [u64], [i64]); bytes are
    lists of [byte]; a nil slice and an empty one are told apart only where the code does.
    Methods that change their receiver return the new state.  Pointers are followed by value
    where nodes have one owner; the time reel, whose nodes are shared and point to their
    parents, and the hypergraph state, whose trees are changed in place, have heaps.  Go maps
    are finite maps; where the code ranges over one the order is an argument or a parameter.
    Memory is unbounded but for the decoder of trees, whose slices are made within a parameter.
    The state machine is a step relation in which messages, events and the critical sections of
    the behaviours interleave, a provider may panic and Synchronize may stay silent, proved by
    a rely-guarantee argument.  sort.Slice is a merge sort, whose result is one of those it may
    leave.  Messages inside slices and unions are not nil.  The engine keeps the readers and
    the writer of its frame store's lock, since a recovered panic can leave it taken; calls
    into the state machine and the time reel are recorded.

    What the sources only call is a parameter with named hypotheses: SHA-512, Poseidon, the
    inclusion prover, signature schemes, verifiable delay functions, the engines of tokens and
    applications, the hypergraph, the prover registry, the seniority of peers, decimal numbers,
    the LRU cache, the clock store, the RDF parser, the providers of the consensus machine.
    Each hypothesis is satisfied by a concrete instance in the witness of the property that
    uses it.

    ** What is proved

    - Trees: histories of insertions and deletions refine a finite map; the commitment is a
      function of the map and binds it; proofs made for stored keys verify; accepted proofs
      with at least two openings describe walks in the tree to the slots that hold their last
      commitments, if these have the lengths they should; one with a single opening
      proves nothing.  Insert panics exactly on keys one of which is a prefix of the other;
      leaf counts are exact; serialised trees are restored, and the decoder returns on any
      input exactly if it has the memory for a slice of 34 gigabytes, which the input can make
      it ask for.
    - Messages: every canonical codec reads back what it wrote for a message that fits its
      length prefixes, whatever follows; a frame is determined by its bytes up to the
      timestamps of its requests, which are not written; no request is taken for one of another kind; the traversal
      proofs that validate are never those that verify; prover kicks lose their proof.
    - Agreement: a counted vote is not replaced; entries are filed under their rank; the
      active rank advances by one; every run of the machine comes to its next transition unless
      it rests in Stopped, Publishing loses the mutex, which it does without a proposal of its
      own, or Synchronize stays silent; a single node finalises every rank.
    - Time reel: after any history of frames, in any order and with any failures of the store,
      Insert returns, lineages are linked by the hash of their outputs, no frame waits for a
      parent that is there, and in archive mode the head is a deepest frame with the best
      score up to the tie margin.  Frames in order are applied one by one; a restart cannot be
      told; a change of branch undoes the common ancestor; frames between late ones are never
      applied.
    - Global engine: the frame of an active leader passes the validation of its peers; a frame
      finalised from valid votes validates; votes and confirmations that are sent are handled
      as such by a peer; whatever arrives, each call the engine makes is justified by a message
      and the registry's answer at its arrival: only frames that validate are inserted and only
      listed provers are heard; the commitments do not depend on the order of the shards, and
      the requests collected are those materialised, if those left out had no effect.  Malformed messages that are let through
      stop the collection, block the frame store or end the process.
    - Execution: sequences of joins, leaves, pauses, resumptions, confirmations, rejections
      and kicks, materialised on a pending state that represents a registry, refine the steps
      of the registry; Verify accepts exactly what the registry permits, and what Validate
      accepts has its effect; the status of a prover stays the aggregate of its allocations; a
      join registers its allocations and no others; operations signed with Prove verify.  A
      bundle without an operation on provers, and a kick with two signed headers, make nodes
      panic; updates are never executed; rejected leaves revive allocations; after a join in
      the same state other operations of the prover are left half done.
    - Economics: the fee multiplier is the average of the votes in the window; difficulty
      follows the exponential schedule where no wrap-around occurs; the cached issuance equals
      the reference; allocation follows the strategy, which for rewards is not the reward.
    - Containers: the crit-bit tree is a sorted map on keys of which none is another one
      followed by zero bytes, and loses keys otherwise; nearest neighbours are sorted by
      modular distance; the reward trie is a map until it is emptied; the heap is a queue.

    ** Fuel and bounds

    Recursion that is not structural carries fuel, and the theorems show that it suffices: the
    walks of the tree use a bound of the length of the path; the decoder of trees one unit more than
    there are bytes, since every node takes one; the loops of the heap its size; the decimal
    digits of a 64-bit number 20; the generation of a difficulty 5, since 10000^5 exceeds
    2^64; the lineage of a node its pointer, since parents are allocated first; waiting frames
    the number of selectors plus one, since each round removes a selector.  Histories are
    bounded by 2^64 insertions where depths are 64-bit counters.

    ** Not modelled

    - The lazy, store-backed tree and the hypergraph that lives in it: their state is in a
      database and its transactions.  What is used of the hypergraph is the class Hypergraph;
      the effect of Commit on it is not specified, so theorems on sequences of operations are
      about the pending state, or about hypergraphs that agree with a registry.
    - The metadata of deployed intrinsics (Init and the Unpack functions of the hypergraph
      state), Deploy, Lock and Unlock of the global intrinsic, and the inclusion proofs of a
      kick, which are an argument; the token, hypergraph and compute intrinsics and their
      engines, whose transactions rest on confidential proofs of external libraries.
    - The time reel of app shards, which repeats the global one for another frame type, the
      prover registry, and the app engine, which repeats the global one for shards.
    - Of the global engine: its start, synchronisation with peers, genesis and coverage checks,
      peer information and the wiring to network and stores.
    - Storage (pebble), networking (the forks of libp2p and its protocols), command line and
      configuration: input and output.
    - The cryptographic libraries, bindings to Rust and C++, and the garbled circuit compiler:
      parameters, or programs of their own.
    - Generated protobuf code and the gob encodings; the messages of channels, dispatch and
      the node service, which no modelled component exchanges; private key messages.
    - Locks (where each method holds one throughout), metrics, logging and texts of messages. *)

From Stdlib Require Export ZArith Lia.
From Stdlib Require Strings.Byte.
From stdpp Require Export strings gmap list_numbers.
From stdpp Require Export prelude.

#[global] Open Scope Z_scope.

(** ** Results of Go functions

    A Go function returning [(T, error)] is modelled by [result T]: [Ok] is a
    nil error, [Err msg] a non-nil one (the innermost message), [Panic] a
    run-time panic such as an index out of range, and [Diverge] a loop that has
    used up the fuel of its model (the theorems show it is not reached, or
    characterise when it is). *)

Inductive result (A : Type) : Type :=
| Ok (a : A)
| Err (msg : string)
| Panic
| Diverge.
Arguments Ok {A} a.
Arguments Err {A} msg.
Arguments Panic {A}.
Arguments Diverge {A}.

#[export] Instance result_ret : MRet result := @Ok.
#[export] Instance result_bind : MBind result := fun A B f m =>
  match m with
  | Ok a => f a
  | Err e => Err e
  | Panic => Panic
  | Diverge => Diverge
  end.
#[export] Instance result_fmap : FMap result := fun A B f m =>
  match m with
  | Ok a => Ok (f a)
  | Err e => Err e
  | Panic => Panic
  | Diverge => Diverge
  end.

Definition is_Ok {A} (r : result A) : Prop := exists a, r = Ok a.

#[export] Instance Ok_inj {A} : Inj (=) (=) (@Ok A).
Proof. congruence. Qed.

Lemma result_bind_Ok {A B} (f : A -> result B) (m : result A) b :
  m ≫= f = Ok b -> exists a, m = Ok a /\ f a = Ok b.
Proof. destruct m; simpl; naive_solver. Qed.

Lemma result_map_Ok {A B} (g : A -> B) (m : result A) b :
  m ≫= (fun a => Ok (g a)) = Ok b -> exists a, m = Ok a /\ b = g a.
Proof. destruct m; simpl; naive_solver. Qed.

(** ** Machine integers

    A w-bit integer is a [Z]; the conversions below are Go's wrap-around. *)

Definition uwrap (w z : Z) : Z := z mod 2 ^ w.
Definition swrap (w z : Z) : Z := (z + 2 ^ (w - 1)) mod 2 ^ w - 2 ^ (w - 1).

Definition u8 : Z -> Z := uwrap 8.
Definition u16 : Z -> Z := uwrap 16.
Definition u32 : Z -> Z := uwrap 32.
Definition u64 : Z -> Z := uwrap 64.
Definition i32 : Z -> Z := swrap 32.
Definition i64 : Z -> Z := swrap 64.

Definition is_u (w z : Z) : Prop := 0 <= z < 2 ^ w.
Definition is_i (w z : Z) : Prop := - 2 ^ (w - 1) <= z < 2 ^ (w - 1).

#[export] Instance is_u_dec w z : Decision (is_u w z).
Proof. unfold is_u. apply _. Defined.
#[export] Instance is_i_dec w z : Decision (is_i w z).
Proof. unfold is_i. apply _. Defined.

Lemma uwrap_small w z : is_u w z -> uwrap w z = z.
Proof. apply Z.mod_small. Qed.

Lemma uwrap_range w z : 0 <= w -> is_u w (uwrap w z).
Proof. intros. apply Z.mod_pos_bound, Z.pow_pos_nonneg; lia. Qed.

Lemma swrap_small w z : 0 < w -> is_i w z -> swrap w z = z.
Proof.
  unfold swrap, is_i. intros Hw Hz.
  assert (2 ^ w = 2 * 2 ^ (w - 1)) as ->.
  { rewrite <- Z.pow_succ_r by lia. f_equal. lia. }
  rewrite Z.mod_small; lia.
Qed.

Lemma swrap_range w z : 0 < w -> is_i w (swrap w z).
Proof.
  unfold swrap, is_i. intros Hw.
  assert (2 ^ w = 2 * 2 ^ (w - 1)) as E.
  { rewrite <- Z.pow_succ_r by lia. f_equal. lia. }
  pose proof (Z.mod_pos_bound (z + 2 ^ (w - 1)) (2 ^ w)
    ltac:(apply Z.pow_pos_nonneg; lia)). lia.
Qed.

(** Quo of big.Int and the integer division of Go: truncation, and a panic on zero. *)
Definition quo (x y : Z) : result Z := if y =? 0 then Panic else Ok (Z.quot x y).

Lemma quo_Ok x y : 0 < y -> quo x y = Ok (Z.quot x y).
Proof. intros. unfold quo. destruct (Z.eqb_spec y 0); [lia|done]. Qed.

(** ** Bytes *)

Abbreviation byte := Corelib.Init.Byte.byte.
Abbreviation bytes := (list Corelib.Init.Byte.byte).

#[export] Instance byte_eq_dec : EqDecision byte.
Proof. intros x y. exact (Stdlib.Strings.Byte.byte_eq_dec x y). Defined.

(** The numeric value of a byte, and the truncating conversion [byte(z)]. *)
Definition byte_Z (b : byte) : Z := Z.of_N (Byte.to_N b).

Definition Z_byte (z : Z) : byte :=
  match Byte.of_N (Z.to_N (z mod 256)) with
  | Some b => b
  | None => Byte.x00
  end.

Lemma byte_Z_range b : 0 <= byte_Z b < 256.
Proof. unfold byte_Z. pose proof (Byte.to_N_bounded b). lia. Qed.

Lemma byte_Z_of z : byte_Z (Z_byte z) = z mod 256.
Proof.
  unfold byte_Z, Z_byte.
  pose proof (Z.mod_pos_bound z 256 ltac:(lia)) as Hb.
  destruct (Byte.of_N (Z.to_N (z mod 256))) as [b|] eqn:E.
  - apply Byte.to_of_N in E. rewrite E. lia.
  - apply Byte.of_N_None_iff in E. lia.
Qed.

Lemma Z_byte_of b : Z_byte (byte_Z b) = b.
Proof.
  unfold Z_byte. pose proof (byte_Z_range b).
  rewrite Z.mod_small by lia. unfold byte_Z.
  rewrite N2Z.id, Byte.of_to_N. reflexivity.
Qed.

#[export] Instance byte_Z_inj : Inj (=) (=) byte_Z.
Proof. intros x y E. rewrite <- (Z_byte_of x), <- (Z_byte_of y), E. reflexivity. Qed.

(** Big-endian encoding on [n] bytes, and its inverse. *)
Fixpoint be (n : nat) (z : Z) : bytes :=
  match n with
  | O => []
  | S m => Z_byte (z / 256 ^ Z.of_nat m) :: be m z
  end.

Fixpoint be_val_acc (acc : Z) (l : bytes) : Z :=
  match l with
  | [] => acc
  | b :: l' => be_val_acc (acc * 256 + byte_Z b) l'
  end.

Definition be_val (l : bytes) : Z := be_val_acc 0 l.

Lemma be_length n z : length (be n z) = n.
Proof. induction n; simpl; congruence. Qed.

Lemma be_val_acc_eq acc l :
  be_val_acc acc l = acc * 256 ^ Z.of_nat (length l) + be_val l.
Proof.
  unfold be_val. revert acc. induction l as [|b l IH]; intros acc; simpl.
  - rewrite Z.pow_0_r. lia.
  - rewrite IH, (IH (0 * 256 + byte_Z b)), Nat2Z.inj_succ, Z.pow_succ_r by lia. lia.
Qed.

Lemma be_val_cons b l :
  be_val (b :: l) = byte_Z b * 256 ^ Z.of_nat (length l) + be_val l.
Proof. unfold be_val at 1. simpl. rewrite be_val_acc_eq. lia. Qed.

Lemma be_val_range l : 0 <= be_val l < 256 ^ Z.of_nat (length l).
Proof.
  induction l as [|b l IH]; [done|].
  rewrite be_val_cons. cbn [length]. rewrite Nat2Z.inj_succ, Z.pow_succ_r by lia.
  pose proof (byte_Z_range b). nia.
Qed.

Lemma be_val_be n z : be_val (be n z) = z mod 256 ^ Z.of_nat n.
Proof.
  induction n as [|n IH]; cbn [be].
  - by rewrite Z.pow_0_r, Z.mod_1_r.
  - rewrite be_val_cons, be_length, IH, byte_Z_of, Nat2Z.inj_succ, Z.pow_succ_r by lia.
    set (p := 256 ^ Z.of_nat n). assert (0 < p) by (apply Z.pow_pos_nonneg; lia).
    rewrite (Z.mul_comm 256 p), Z.rem_mul_r by lia. lia.
Qed.

Lemma be_inj n x y :
  0 <= x < 256 ^ Z.of_nat n -> 0 <= y < 256 ^ Z.of_nat n -> be n x = be n y -> x = y.
Proof.
  intros Hx Hy E. apply (f_equal be_val) in E. rewrite !be_val_be in E.
  by rewrite !Z.mod_small in E.
Qed.

Lemma be_of_val l : be (length l) (be_val l) = l.
Proof.
  assert (G : forall l z, be (length l) (z * 256 ^ Z.of_nat (length l) + be_val l) = l).
  { clear. induction l as [|b l IH]; intros z; [done|].
    cbn [length be]. rewrite be_val_cons, Nat2Z.inj_succ, Z.pow_succ_r by lia.
    pose proof (be_val_range l).
    set (p := 256 ^ Z.of_nat (length l)) in *.
    assert (0 < p) by (apply Z.pow_pos_nonneg; lia).
    replace (z * (256 * p) + (byte_Z b * p + be_val l))
      with ((z * 256 + byte_Z b) * p + be_val l) by lia.
    f_equal; [|apply IH].
    rewrite Z.div_add_l, (Z.div_small (be_val l)) by lia.
    rewrite <- (Z_byte_of b) at 2. apply (inj byte_Z).
    rewrite !byte_Z_of, Z.add_0_r, Z.add_comm, Z.mod_add by lia. done. }
  specialize (G l 0). by rewrite Z.mul_0_l in G.
Qed.

Lemma be_val_inj x y : length x = length y -> be_val x = be_val y -> x = y.
Proof. intros El Ev. rewrite <- (be_of_val x), <- (be_of_val y), El, Ev. done. Qed.

#[global] Arguments be : simpl never.

(** ** Lists as arrays *)

(** Go's [for i := range l { f(i, l[i]) }] with the index at hand is
    stdpp's [imap]; [l[i]] is [l !! i]; [l[i] = x] is [<[i:=x]> l], used only
    after a bounds test. *)

(** Reads [l[z]] at a signed index, panicking out of range. *)
Definition index {A} (l : list A) (z : Z) : result A :=
  if decide (z < 0) then Panic
  else match l !! Z.to_nat z with Some a => Ok a | None => Panic end.

(** Writes [l[z] = x] at a signed index, panicking out of range. *)
Definition set_index {A} (l : list A) (z : Z) (x : A) : result (list A) :=
  if decide (0 <= z < Z.of_nat (length l)) then Ok (<[Z.to_nat z := x]> l) else Panic.

Lemma index_Ok {A} (l : list A) z a :
  index l z = Ok a <-> 0 <= z /\ l !! Z.to_nat z = Some a.
Proof. unfold index. case_decide; [intuition (lia || congruence)|].
  destruct (l !! _); intuition (lia || congruence). Qed.

Lemma set_index_Ok {A} (l : list A) z x :
  0 <= z < Z.of_nat (length l) -> set_index l z x = Ok (<[Z.to_nat z := x]> l).
Proof. intros. unfold set_index. by case_decide. Qed.

(** Applies [f] to the [i]-th element; the recursion is written so that a
    [Fixpoint] over a nested inductive type can call itself through it. *)
Definition nth_with {A B} (f : A -> B) (d : B) : list A -> nat -> B :=
  fix go l i :=
    match l, i with
    | [], _ => d
    | x :: _, O => f x
    | _ :: l', S i' => go l' i'
    end.

Lemma nth_with_lookup {A B} (f : A -> B) d l i :
  nth_with f d l i = match l !! i with Some x => f x | None => d end.
Proof. revert i. induction l as [|x l IH]; intros [|i]; simpl; auto. Qed.

(** ** Automation *)

Create HintDb go discriminated.
#[export] Hint Resolve byte_Z_range be_val_range : go.
Create Rewrite HintDb go.
#[export] Hint Rewrite be_length @length_app @length_insert : go.

(** Splits every conditional the goal or a hypothesis tests. *)
Ltac go_cases :=
  repeat first
    [ case_decide
    | match goal with |- context [if ?b then _ else _] => destruct b eqn:? end
    | match goal with |- context [match ?x with _ => _ end] => destruct x eqn:? end ].

(** Inverts a chain of successful [result] binds. *)
Ltac go_inv :=
  repeat match goal with
  | H : _ ≫= _ = Ok _ |- _ => apply result_bind_Ok in H as (? & ? & ?)
  | H : (?a, ?b) = (?c, ?d) |- _ => injection H as ? ?
  | H : Ok _ = Ok _ |- _ => injection H as ?
  | H : Err _ = Ok _ |- _ => discriminate H
  | H : Panic = Ok _ |- _ => discriminate H
  | H : Diverge = Ok _ |- _ => discriminate H
  end; simplify_eq/=.

#[export] Instance byte_countable : Countable byte :=
  inj_countable' byte_Z Z_byte Z_byte_of.

(** Closes a decidable goal by evaluation. *)
Ltac by_decide := apply (bool_decide_unpack _); vm_compute; exact I.
