(* ===== verification/Nibbles.v ===== *)
(** * Nibble paths of trie keys (types/tries/proof_tree.go)

    A key is read as a big-endian bit stream cut in groups of [BranchBits] = 6
    bits.  This file models [getNextNibble], [getFullPath] and
    [getNibblesUntilDiverge], specifies them against the bit stream of the key,
    and shows that the path of a key determines the key. *)

From S2P Require Import Prelude.

Definition BranchNodes : Z := 64.
Definition BranchBits : Z := 6.
Definition BranchMask : Z := BranchNodes - 1.

(** getNextNibble returns the next BranchBits bits from the key starting at
    [pos], or -1 past the end. *)
Definition getNextNibble (key : bytes) (pos : Z) : Z :=
  let startByte := Z.quot pos 8 in
  match key !! Z.to_nat startByte with
  | None => -1
  | Some cur =>
    let startBit := Z.rem pos 8 in
    let bitsFromCurrentByte := 8 - startBit in
    let result := Z.land (byte_Z cur) (u8 (u8 (Z.shiftl 1 bitsFromCurrentByte) - 1)) in
    if BranchBits <=? bitsFromCurrentByte then
      Z.land (Z.shiftr result (bitsFromCurrentByte - BranchBits)) BranchMask
    else
      let result := Z.shiftl result (BranchBits - bitsFromCurrentByte) in
      let result :=
        match key !! Z.to_nat (startByte + 1) with
        | Some next =>
          let remainingBits := BranchBits - bitsFromCurrentByte in
          Z.lor result (Z.shiftr (byte_Z next) (8 - remainingBits))
        | None => result
        end in
      Z.land result BranchMask
  end.

(** The loop of getFullPath; [fuel] bounds its iterations. *)
Fixpoint getFullPath_loop (fuel : nat) (key : bytes) (nibbles : list Z) (depth : Z)
    : result (list Z) :=
  match fuel with
  | O => Diverge
  | S fuel =>
    let n1 := getNextNibble key depth in
    if n1 =? -1 then Ok nibbles
    else getFullPath_loop fuel key (nibbles ++ [n1]) (depth + BranchBits)
  end.

Definition path_fuel (key : bytes) : nat := S (2 * length key).

Definition getFullPath (key : bytes) : result (list Z) :=
  getFullPath_loop (path_fuel key) key [] 0.

Fixpoint getNibblesUntilDiverge_loop (fuel : nat) (key1 key2 : bytes)
    (nibbles : list Z) (depth : Z) : result (list Z * Z) :=
  match fuel with
  | O => Diverge
  | S fuel =>
    let n1 := getNextNibble key1 depth in
    let n2 := getNextNibble key2 depth in
    if negb (n1 =? n2) then Ok (nibbles, depth)
    else getNibblesUntilDiverge_loop fuel key1 key2 (nibbles ++ [n1]) (depth + BranchBits)
  end.

Definition getNibblesUntilDiverge (key1 key2 : bytes) (startDepth : Z)
    : result (list Z * Z) :=
  getNibblesUntilDiverge_loop (path_fuel key1 + path_fuel key2) key1 key2 [] startDepth.

(** ** The bit stream of a key *)

(** Bit [i] of the key, most significant bit of the first byte first; zero
    past the end. *)
Definition key_bit (key : bytes) (i : Z) : bool :=
  match key !! Z.to_nat (i / 8) with
  | Some b => Z.testbit (byte_Z b) (7 - i mod 8)
  | None => false
  end.

Lemma byte_Z_high b i : 8 <= i -> Z.testbit (byte_Z b) i = false.
Proof.
  intros. pose proof (byte_Z_range b).
  destruct (decide (byte_Z b = 0)) as [->|]; [apply Z.bits_0|].
  apply Z.bits_above_log2; [lia|].
  apply Z.lt_le_trans with 8; [|done]. apply Z.log2_lt_pow2; lia.
Qed.

Lemma byte_ext (a b : byte) :
  (forall i, 0 <= i < 8 -> Z.testbit (byte_Z a) i = Z.testbit (byte_Z b) i) -> a = b.
Proof.
  intros H. apply (inj byte_Z), Z.bits_inj'. intros i Hi.
  destruct (decide (i < 8)); [apply H; lia|]. by rewrite !byte_Z_high by lia.
Qed.

(** The byte mask [(1 << n) - 1], computed on 8 bits. *)
Lemma byte_mask n : 0 <= n <= 8 -> u8 (u8 (Z.shiftl 1 n) - 1) = Z.ones n.
Proof.
  intros Hn.
  assert (n = 0 \/ n = 1 \/ n = 2 \/ n = 3 \/ n = 4 \/ n = 5 \/ n = 6 \/ n = 7 \/ n = 8)
    as Hc by lia.
  destruct_or! Hc; subst; reflexivity.
Qed.

Lemma getNextNibble_range key pos :
  0 <= pos -> pos / 8 < Z.of_nat (length key) -> 0 <= getNextNibble key pos < 64.
Proof.
  intros Hp Hl. pose proof (Z.div_pos pos 8 Hp ltac:(lia)). unfold getNextNibble.
  rewrite Z.quot_div_nonneg, Z.rem_mod_nonneg by lia.
  destruct (lookup_lt_is_Some_2 key (Z.to_nat (pos / 8))) as [cur ->]; [lia|].
  change BranchMask with (Z.ones 6).
  destruct (Z.leb _ _); rewrite Z.land_ones by lia; apply Z.mod_pos_bound; lia.
Qed.

Lemma getNextNibble_end key pos :
  0 <= pos -> Z.of_nat (length key) <= pos / 8 -> getNextNibble key pos = -1.
Proof.
  intros. unfold getNextNibble. rewrite Z.quot_div_nonneg by lia.
  rewrite lookup_ge_None_2; [done|lia].
Qed.

(** Bit [j] of the nibble at [pos] is bit [pos + 5 - j] of the stream. *)
Lemma getNextNibble_bits key pos j :
  0 <= pos -> pos / 8 < Z.of_nat (length key) -> 0 <= j < 6 ->
  Z.testbit (getNextNibble key pos) j = key_bit key (pos + 5 - j).
Proof.
  intros Hp Hl Hj. pose proof (Z.div_pos pos 8 Hp ltac:(lia)).
  unfold getNextNibble, key_bit.
  rewrite Z.quot_div_nonneg, Z.rem_mod_nonneg by lia.
  destruct (lookup_lt_is_Some_2 key (Z.to_nat (pos / 8))) as [cur Hcur]; [lia|].
  rewrite Hcur.
  pose proof (Z.div_mod pos 8 ltac:(lia)) as Hdm.
  pose proof (Z.mod_pos_bound pos 8 ltac:(lia)) as Hs.
  set (q := pos / 8) in *. set (s := pos mod 8) in *.
  change BranchMask with (Z.ones 6). unfold BranchBits.
  rewrite byte_mask by lia.
  destruct (Z.leb_spec 6 (8 - s)).
  - assert ((pos + 5 - j) / 8 = q /\ (pos + 5 - j) mod 8 = s + 5 - j) as [-> ->].
    { split; [symmetry; apply Z.div_unique with (s + 5 - j)
             |symmetry; apply Z.mod_unique with q]; lia. }
    rewrite Hcur, Z.land_spec, Z.shiftr_spec, Z.land_spec by lia.
    rewrite !Z.ones_spec_low by lia. rewrite !andb_true_r. f_equal; lia.
  - rewrite Z.land_spec, Z.ones_spec_low, andb_true_r by lia.
    destruct (decide (j < s - 2)).
    + assert ((pos + 5 - j) / 8 = q + 1 /\ (pos + 5 - j) mod 8 = s - 3 - j) as [-> ->].
      { split; [symmetry; apply Z.div_unique with (s - 3 - j)
               |symmetry; apply Z.mod_unique with (q + 1)]; lia. }
      destruct (key !! Z.to_nat (q + 1)) as [nx|].
      * rewrite Z.lor_spec, Z.shiftl_spec_low, Z.shiftr_spec by lia.
        simpl. f_equal; lia.
      * by rewrite Z.shiftl_spec_low by lia.
    + assert ((pos + 5 - j) / 8 = q /\ (pos + 5 - j) mod 8 = s + 5 - j) as [-> ->].
      { split; [symmetry; apply Z.div_unique with (s + 5 - j)
               |symmetry; apply Z.mod_unique with q]; lia. }
      rewrite Hcur.
      assert (Z.testbit (Z.shiftl (Z.land (byte_Z cur) (Z.ones (8 - s)))
        (6 - (8 - s))) j = Z.testbit (byte_Z cur) (7 - (s + 5 - j))) as Hb.
      { rewrite Z.shiftl_spec, Z.land_spec, Z.ones_spec_low, andb_true_r by lia.
        f_equal; lia. }
      destruct (key !! Z.to_nat (q + 1)) as [nx|]; [|done].
      rewrite Z.lor_spec, Hb, Z.shiftr_spec by lia.
      rewrite (byte_Z_high nx) by lia. by rewrite orb_false_r.
Qed.

(** ** Paths *)

(** The [i]-th nibble of the key, and the list of all of them. *)
Definition nib (key : bytes) (i : nat) : Z := getNextNibble key (BranchBits * Z.of_nat i).

Definition npath (len : nat) : nat := ((4 * len + 2) / 3)%nat.

Definition path (key : bytes) : list Z := nib key <$> seq 0 (npath (length key)).

Lemma npath_spec len i :
  (i < npath len)%nat <-> BranchBits * Z.of_nat i / 8 < Z.of_nat len.
Proof.
  unfold npath, BranchBits. split; intros H.
  - apply Z.div_lt_upper_bound; [lia|].
    pose proof (Nat.Div0.div_mod (4 * len + 2) 3).
    pose proof (Nat.mod_upper_bound (4 * len + 2) 3). lia.
  - pose proof (Z.div_mod (6 * Z.of_nat i) 8 ltac:(lia)).
    pose proof (Z.mod_pos_bound (6 * Z.of_nat i) 8 ltac:(lia)).
    apply Nat.div_le_lower_bound; lia.
Qed.

Lemma npath_inj a b : npath a = npath b -> a = b.
Proof.
  unfold npath. intros E.
  pose proof (Nat.Div0.div_mod (4 * a + 2) 3). pose proof (Nat.Div0.div_mod (4 * b + 2) 3).
  pose proof (Nat.mod_upper_bound (4 * a + 2) 3).
  pose proof (Nat.mod_upper_bound (4 * b + 2) 3). lia.
Qed.

Lemma npath_fuel (key : bytes) : (npath (length key) < path_fuel key)%nat.
Proof.
  unfold npath, path_fuel.
  assert ((4 * length key + 2) / 3 < S (2 * length key))%nat; [|done].
  apply Nat.Div0.div_lt_upper_bound. lia.
Qed.

Lemma path_length key : length (path key) = npath (length key).
Proof. unfold path. by rewrite length_fmap, length_seq. Qed.

Lemma path_lookup key i :
  path key !! i = if decide (i < npath (length key))%nat then Some (nib key i) else None.
Proof.
  unfold path. rewrite list_lookup_fmap. case_decide.
  - by rewrite lookup_seq_lt.
  - rewrite lookup_seq_ge by lia. done.
Qed.

Lemma nib_path key i : nib key i = default (-1) (path key !! i).
Proof.
  rewrite path_lookup. case_decide as Hi; [done|].
  apply getNextNibble_end; unfold BranchBits in *; [lia|].
  rewrite npath_spec in Hi. unfold BranchBits in Hi. lia.
Qed.

Lemma nib_range key i : (i < npath (length key))%nat -> 0 <= nib key i < 64.
Proof. intros Hi. apply getNextNibble_range; [unfold BranchBits; lia|by apply npath_spec]. Qed.

Lemma path_range key x : x ∈ path key -> 0 <= x < 64.
Proof.
  unfold path. rewrite list_elem_of_fmap. intros (i & -> & Hi).
  apply elem_of_seq in Hi. apply nib_range. lia.
Qed.

Lemma nib_nonneg_iff key i : 0 <= nib key i <-> (i < length (path key))%nat.
Proof.
  rewrite path_length. split; intros H.
  - destruct (decide (i < npath (length key))%nat); [done|].
    rewrite nib_path, path_lookup, decide_False in H by done. simpl in H. lia.
  - by apply nib_range.
Qed.

Lemma path_bits key i :
  0 <= i -> i / 8 < Z.of_nat (length key) ->
  key_bit key i = Z.testbit (nib key (Z.to_nat (i / 6))) (5 - i mod 6).
Proof.
  intros Hi Hl. unfold nib, BranchBits.
  pose proof (Z.div_pos i 6 Hi ltac:(lia)). rewrite Z2Nat.id by lia.
  pose proof (Z.div_mod i 6 ltac:(lia)). pose proof (Z.mod_pos_bound i 6 ltac:(lia)).
  rewrite getNextNibble_bits; [f_equal; lia|lia| |lia].
  apply Z.le_lt_trans with (i / 8); [apply Z.div_le_mono; lia|done].
Qed.

(** The path of a key determines the key: no two keys, of whatever lengths,
    share a path. *)
Lemma path_inj k1 k2 : path k1 = path k2 -> k1 = k2.
Proof.
  intros E. assert (length k1 = length k2) as El.
  { apply npath_inj. by rewrite <- !path_length, E. }
  apply list_eq_same_length with (length k2); [done|done|].
  intros n a b Hn Ha Hb. apply byte_ext. intros j Hj.
  assert (forall k c, length k = length k2 -> k !! n = Some c ->
            Z.testbit (byte_Z c) j = key_bit k (8 * Z.of_nat n + 7 - j)) as Hbit.
  { intros k c _ Hk. unfold key_bit.
    assert ((8 * Z.of_nat n + 7 - j) / 8 = Z.of_nat n
            /\ (8 * Z.of_nat n + 7 - j) mod 8 = 7 - j) as [-> ->].
    { split; [symmetry; apply Z.div_unique with (7 - j)
             |symmetry; apply Z.mod_unique with (Z.of_nat n)]; lia. }
    rewrite Nat2Z.id, Hk. f_equal. lia. }
  assert ((8 * Z.of_nat n + 7 - j) / 8 < Z.of_nat (length k2)).
  { apply Z.div_lt_upper_bound; lia. }
  rewrite (Hbit k1 a), (Hbit k2 b), !path_bits, !nib_path, E by (done || lia).
  done.
Qed.

(** ** What the loops compute *)

Lemma getFullPath_loop_spec key fuel i acc :
  (i <= npath (length key))%nat -> (npath (length key) - i < fuel)%nat ->
  getFullPath_loop fuel key acc (BranchBits * Z.of_nat i) = Ok (acc ++ drop i (path key)).
Proof.
  revert i acc. induction fuel as [|fuel IH]; intros i acc Hi Hf; [lia|].
  cbn [getFullPath_loop]. fold (nib key i).
  destruct (Z.eqb_spec (nib key i) (-1)) as [E|E].
  - rewrite drop_ge, app_nil_r; [done|].
    destruct (decide (i < length (path key)))%nat as [Hl|Hl]; [|lia].
    apply nib_nonneg_iff in Hl. lia.
  - assert (i < npath (length key))%nat as Hlt.
    { destruct (decide (i < npath (length key)))%nat; [done|].
      rewrite nib_path, path_lookup, decide_False in E by done. done. }
    replace (BranchBits * Z.of_nat i + BranchBits) with (BranchBits * Z.of_nat (S i)) by lia.
    rewrite IH by lia. rewrite (drop_S (path key) (nib key i) i).
    + by rewrite <- app_assoc.
    + by rewrite path_lookup, decide_True.
Qed.

Lemma getFullPath_path key : getFullPath key = Ok (path key).
Proof.
  unfold getFullPath. rewrite (getFullPath_loop_spec key _ 0 []); [done|lia|].
  pose proof (npath_fuel key). lia.
Qed.

(** Longest common prefix. *)
Fixpoint lcp (p q : list Z) : list Z :=
  match p, q with
  | x :: p, y :: q => if x =? y then x :: lcp p q else []
  | _, _ => []
  end.

Lemma lcp_l p q : lcp p q `prefix_of` p.
Proof.
  revert q. induction p as [|x p IH]; intros [|y q]; simpl; try apply prefix_nil.
  destruct (x =? y); [by apply prefix_cons|apply prefix_nil].
Qed.

Lemma lcp_r p q : lcp p q `prefix_of` q.
Proof.
  revert q. induction p as [|x p IH]; intros [|y q]; simpl; try apply prefix_nil.
  destruct (Z.eqb_spec x y); [subst; by apply prefix_cons|apply prefix_nil].
Qed.

(** Two keys whose paths differ from nibble [d] on: the loop stops at the end
    of the longest common prefix of the two remaining paths. *)
Lemma getNibblesUntilDiverge_loop_spec k1 k2 fuel d acc :
  drop d (path k1) <> drop d (path k2) ->
  (length (path k1) + length (path k2) < fuel + d)%nat ->
  let com := lcp (drop d (path k1)) (drop d (path k2)) in
  getNibblesUntilDiverge_loop fuel k1 k2 acc (BranchBits * Z.of_nat d)
  = Ok (acc ++ com, BranchBits * Z.of_nat (d + length com)).
Proof.
  revert d acc. induction fuel as [|fuel IH]; intros d acc Hne Hf.
  { exfalso. apply Hne. rewrite !drop_ge by lia. done. }
  cbn [getNibblesUntilDiverge_loop]. fold (nib k1 d) (nib k2 d).
  assert (forall k, (exists x, drop d (path k) = x :: drop (S d) (path k) /\ nib k d = x /\ 0 <= x)
                    \/ (drop d (path k) = [] /\ nib k d = -1)) as Hd.
  { intros k. destruct (path k !! d) as [x|] eqn:Ek.
    - left. exists x. rewrite (drop_S _ _ _ Ek), nib_path, Ek. split_and!; try done.
      apply path_range with k. by apply list_elem_of_lookup_2 with d.
    - right. rewrite nib_path, Ek. split; [|done]. apply drop_ge. by apply lookup_ge_None. }
  destruct (Hd k1) as [(x & E1 & -> & Hx)|[E1 ->]], (Hd k2) as [(y & E2 & -> & Hy)|[E2 ->]];
    rewrite E1, E2 in *; cbn [lcp length].
  - destruct (Z.eqb_spec x y) as [->|]; simpl.
    + replace (BranchBits * Z.of_nat d + BranchBits) with (BranchBits * Z.of_nat (S d)) by lia.
      rewrite IH; [|congruence|lia]. rewrite <- app_assoc. simpl.
      do 3 f_equal. lia.
    + by rewrite app_nil_r, Nat.add_0_r.
  - destruct (Z.eqb_spec x (-1)); [lia|]. simpl. by rewrite app_nil_r, Nat.add_0_r.
  - destruct (Z.eqb_spec (-1) y); [lia|]. simpl. by rewrite app_nil_r, Nat.add_0_r.
  - done.
Qed.

Lemma getNibblesUntilDiverge_spec k1 k2 d :
  drop d (path k1) <> drop d (path k2) ->
  let com := lcp (drop d (path k1)) (drop d (path k2)) in
  getNibblesUntilDiverge k1 k2 (BranchBits * Z.of_nat d)
  = Ok (com, BranchBits * Z.of_nat (d + length com)).
Proof.
  intros Hne. unfold getNibblesUntilDiverge.
  rewrite (getNibblesUntilDiverge_loop_spec k1 k2 _ d [] Hne); [done|].
  rewrite !path_length. pose proof (npath_fuel k1). pose proof (npath_fuel k2). lia.
Qed.

(** Neither path is a prefix of the other; for distinct keys of one length this
    always holds. *)
Definition compat (k1 k2 : bytes) : Prop :=
  k1 = k2 \/ (~ path k1 `prefix_of` path k2 /\ ~ path k2 `prefix_of` path k1).

Lemma compat_same_length k1 k2 : length k1 = length k2 -> compat k1 k2.
Proof.
  intros El. destruct (decide (k1 = k2)) as [|Hne]; [by left|right].
  assert (length (path k1) = length (path k2)) as Ep by (rewrite !path_length; congruence).
  split; intros Hp; apply Hne, path_inj; [|symmetry];
    (apply prefix_length_eq; [done|lia]).
Qed.

#[export] Instance compat_dec k1 k2 : Decision (compat k1 k2).
Proof. unfold compat. apply _. Defined.
