(* ===== verification/ProofTree.v ===== *)
(** * The vector commitment tree (types/tries/proof_tree.go)

    Data model and the operations Insert, Get, Delete, GetMetadata and GetSize of
    [VectorCommitmentTree], a 64-ary Patricia trie over nibble paths.

    A Go pointer to a node is the node itself: every node has one parent and the
    operations update it in place, so passing the updated node back is the same
    thing.  A nil interface or pointer is [None].  Sizes are [big.Int], hence
    unbounded; [int] counters and depths are far from their bound (they are
    limited by the memory that holds the tree) and are plain [Z]. *)

From S2P Require Import Prelude Nibbles.

(** ** Data *)

Record VectorCommitmentLeafNode := mkLeaf {
  Key : bytes;
  Value : option bytes;      (* None is a nil slice, which Get tests for *)
  HashTarget : bytes;
  LeafCommitment : bytes;
  LeafSize : Z
}.

Record VectorCommitmentBranchNode (N : Type) := mkBranch {
  Prefix : list Z;
  Children : list (option N);
  BranchCommitment : bytes;
  BranchSize : Z;
  LeafCount : Z;
  LongestBranch : Z
}.
Arguments mkBranch {N}.
Arguments Prefix {N}.
Arguments Children {N}.
Arguments BranchCommitment {N}.
Arguments BranchSize {N}.
Arguments LeafCount {N}.
Arguments LongestBranch {N}.

Inductive VectorCommitmentNode :=
| LeafNode (l : VectorCommitmentLeafNode)
| BranchNode (b : VectorCommitmentBranchNode VectorCommitmentNode).

Record VectorCommitmentTree := mkTree { Root : option VectorCommitmentNode }.

Abbreviation node := VectorCommitmentNode.
Abbreviation leaf := VectorCommitmentLeafNode.
Abbreviation branch := (VectorCommitmentBranchNode VectorCommitmentNode).

(** The zero value of [[BranchNodes]VectorCommitmentNode]. *)
Definition noChildren : list (option node) := replicate (Z.to_nat BranchNodes) None.

Definition errEmptyKey : string := "empty key not allowed".
Definition errKeyNotFound : string := "key not found".

(** The loop [for i, expectedNibble := range n.Prefix] of Insert, Get, Delete
    and Prove: the first position where the key leaves the prefix, with the
    expected and the actual nibble. *)
Fixpoint prefixMismatch (key : bytes) (depth i : Z) (prefix : list Z) : option (Z * Z * Z) :=
  match prefix with
  | [] => None
  | expectedNibble :: rest =>
    let actualNibble := getNextNibble key (depth + i * BranchBits) in
    if negb (actualNibble =? expectedNibble) then Some (i, expectedNibble, actualNibble)
    else prefixMismatch key depth (i + 1) rest
  end.

(** ** Insert *)

Section Insert.
Context (key : bytes) (value : option bytes) (hashTarget : bytes) (size : Z).

Definition newLeaf : leaf := mkLeaf key value hashTarget [] size.

(** Splitting a leaf: the closure's [VectorCommitmentLeafNode] case. *)
Definition insertLeaf (n : leaf) (depth : Z) : result (Z * node) :=
  if decide (Key n = key) then
    Ok (0, LeafNode (mkLeaf (Key n) value hashTarget [] size))
  else
    '(sharedNibbles, divergeDepth) ← getNibblesUntilDiverge (Key n) key depth;
    let finalOldNibble := getNextNibble (Key n) divergeDepth in
    let finalNewNibble := getNextNibble key divergeDepth in
    cs ← set_index noChildren finalOldNibble (Some (LeafNode n));
    cs ← set_index cs finalNewNibble (Some (LeafNode newLeaf));
    Ok (1, BranchNode (mkBranch sharedNibbles cs [] (LeafSize n + size) 2 1)).

(** A new branch above [n] at the [i]-th nibble of its prefix. *)
Definition insertSplit (n : branch) (i expectedNibble actualNibble : Z) : result (Z * node) :=
  let n' := mkBranch (drop (Z.to_nat (i + 1)) (Prefix n)) (Children n)
              (BranchCommitment n) (BranchSize n) (LeafCount n) (LongestBranch n) in
  cs ← set_index noChildren expectedNibble (Some (BranchNode n'));
  cs ← set_index cs actualNibble (Some (LeafNode newLeaf));
  Ok (1, BranchNode (mkBranch (take (Z.to_nat i) (Prefix n)) cs []
           (BranchSize n + size) (LeafCount n + 1) (LongestBranch n + 1))).

(** The update of [n] once its child at [nibble] is [inserted]. *)
Definition insertUpdate (n : branch) (nibble delta : Z) (inserted : node) : result (Z * node) :=
  cs ← set_index (Children n) nibble (Some inserted);
  let longest :=
    match inserted with
    | BranchNode i =>
      if LongestBranch n <=? LongestBranch i then LongestBranch i + 1 else LongestBranch n
    | LeafNode _ => 1
    end in
  let size' := if negb (delta =? 0) then BranchSize n + size else BranchSize n in
  Ok (delta, BranchNode (mkBranch (Prefix n) cs [] size' (LeafCount n + delta) longest)).

(** The recursive closure on a non-nil node.  The source repeats its last case
    for a branch without prefix, where [len(n.Prefix)] is zero. *)
Fixpoint insertNode (n : node) (depth : Z) : result (Z * node) :=
  match n with
  | LeafNode l => insertLeaf l depth
  | BranchNode b =>
    match prefixMismatch key depth 0 (Prefix b) with
    | Some (i, expectedNibble, actualNibble) => insertSplit b i expectedNibble actualNibble
    | None =>
      let finalDepth := depth + Z.of_nat (length (Prefix b)) * BranchBits in
      let finalNibble := getNextNibble key finalDepth in
      if finalNibble <? 0 then Panic else
      r ← nth_with (fun child =>
            match child with
            | None => Ok (1, LeafNode newLeaf)
            | Some c => insertNode c (finalDepth + BranchBits)
            end) Panic (Children b) (Z.to_nat finalNibble);
      insertUpdate b finalNibble r.1 r.2
    end
  end.

Definition insert (n : option node) (depth : Z) : result (Z * node) :=
  match n with
  | None => Ok (1, LeafNode newLeaf)
  | Some n => insertNode n depth
  end.
End Insert.

Definition Insert (t : VectorCommitmentTree) (key : bytes) (value : option bytes)
    (hashTarget : bytes) (size : Z) : result VectorCommitmentTree :=
  if decide (key = []) then Err errEmptyKey
  else r ← insert key value hashTarget size (Root t) 0; Ok (mkTree (Some r.2)).

(** ** Get *)

Fixpoint getNode (key : bytes) (n : node) (depth : Z) : result (option bytes) :=
  match n with
  | LeafNode l => if decide (Key l = key) then Ok (Value l) else Ok None
  | BranchNode b =>
    match prefixMismatch key depth 0 (Prefix b) with
    | Some _ => Ok None
    | None =>
      let finalDepth := depth + Z.of_nat (length (Prefix b)) * BranchBits in
      let finalNibble := getNextNibble key finalDepth in
      if finalNibble <? 0 then Panic else
      nth_with (fun child =>
        match child with
        | None => Ok None
        | Some c => getNode key c (finalDepth + BranchBits)
        end) Panic (Children b) (Z.to_nat finalNibble)
    end
  end.

Definition Get (t : VectorCommitmentTree) (key : bytes) : result bytes :=
  if decide (key = []) then Err errEmptyKey
  else
    value ← match Root t with None => Ok None | Some n => getNode key n 0 end;
    match value with
    | None => Err errKeyNotFound
    | Some v => Ok v
    end.

(** ** Delete *)

(** The counters of the loop over [n.Children]. *)
Record childScan := mkScan {
  childCount : Z;
  lastChild : option node;
  lastChildIndex : Z;
  scanLongest : Z;
  scanLeaves : Z
}.

Fixpoint scanChildren (i : Z) (cs : list (option node)) (s : childScan) : childScan :=
  match cs with
  | [] => s
  | None :: cs => scanChildren (i + 1) cs s
  | Some child :: cs =>
    let '(leaves, longest) :=
      match child with
      | BranchNode c =>
        (scanLeaves s + LeafCount c,
         if scanLongest s <? LongestBranch c + 1 then LongestBranch c + 1 else scanLongest s)
      | LeafNode _ => (scanLeaves s + 1, scanLongest s)
      end in
    scanChildren (i + 1) cs (mkScan (childCount s + 1) (Some child) i longest leaves)
  end.

(** The node that replaces [n] once [cs] are its children and [size] the size
    removed below it. *)
Definition removeCollapse (n : branch) (cs : list (option node)) (size : Z) : option node :=
  let s := scanChildren 0 cs (mkScan 0 None 0 1 0) in
  if childCount s =? 0 then None
  else if childCount s =? 1 then
    match lastChild s with
    | Some (BranchNode childBranch) =>
      let mergedPrefix := Prefix n ++ [lastChildIndex s] ++ Prefix childBranch in
      Some (BranchNode (mkBranch mergedPrefix (Children childBranch) []
              (BranchSize childBranch) (LeafCount childBranch) (LongestBranch childBranch)))
    | c => c
    end
  else
    Some (BranchNode (mkBranch (Prefix n) cs [] (BranchSize n - size)
            (scanLeaves s) (scanLongest s))).

Fixpoint removeNode (key : bytes) (n : node) (depth : Z) : result (Z * option node) :=
  match n with
  | LeafNode l => if decide (Key l = key) then Ok (LeafSize l, None) else Ok (0, Some n)
  | BranchNode b =>
    match prefixMismatch key depth 0 (Prefix b) with
    | Some _ => Ok (0, Some n)
    | None =>
      let finalDepth := depth + Z.of_nat (length (Prefix b)) * BranchBits in
      let finalNibble := getNextNibble key finalDepth in
      if finalNibble <? 0 then Panic else
      r ← nth_with (fun child =>
            match child with
            | None => Ok (0, None)
            | Some c => removeNode key c (finalDepth + BranchBits)
            end) Panic (Children b) (Z.to_nat finalNibble);
      cs ← set_index (Children b) finalNibble r.2;
      Ok (r.1, removeCollapse b cs r.1)
    end
  end.

Definition Delete (t : VectorCommitmentTree) (key : bytes) : result VectorCommitmentTree :=
  if decide (key = []) then Err errEmptyKey
  else
    r ← match Root t with None => Ok (0, None) | Some n => removeNode key n 0 end;
    Ok (mkTree r.2).

(** ** Metadata *)

Definition GetMetadata (t : VectorCommitmentTree) : Z * Z :=
  match Root t with
  | None => (0, 0)
  | Some (LeafNode _) => (1, 0)
  | Some (BranchNode root) => (LeafCount root, LongestBranch root)
  end.

Definition nodeSize (n : node) : Z :=
  match n with LeafNode l => LeafSize l | BranchNode b => BranchSize b end.

Definition GetSize (t : VectorCommitmentTree) : Z :=
  match Root t with None => 0 | Some n => nodeSize n end.
