(* ===== verification/ProofTreeWf.v ===== *)
(** * Well-formed vector commitment trees

    The trie invariant of [VectorCommitmentTree], the abstraction of a tree to
    the finite map it stores, and the functional correctness of Insert, Get and
    Delete against that map. *)

From S2P Require Import Prelude Nibbles ProofTree.

(** ** Induction and leaves *)

Lemma node_induction (P : node -> Prop) :
  (forall l, P (LeafNode l)) ->
  (forall b : branch, (forall i c, Children b !! i = Some (Some c) -> P c) -> P (BranchNode b)) ->
  forall n, P n.
Proof.
  intros Hl Hb. fix IH 1. intros [l|b]; [apply Hl|apply Hb].
  destruct b as [p cs cm sz lc lb]; simpl.
  induction cs as [|oc cs IHcs]; [intros i c E; discriminate E|].
  destruct oc as [c0|].
  - pose proof (IH c0) as Hc0. intros [|i] c E; simpl in E; [congruence|exact (IHcs i c E)].
  - intros [|i] c E; simpl in E; [discriminate E|exact (IHcs i c E)].
Qed.

Fixpoint leaves (n : node) : list leaf :=
  match n with
  | LeafNode l => [l]
  | BranchNode b =>
    Children b ≫= (fun oc => match oc with None => [] | Some c => leaves c end)
  end.

Definition leaves_opt (o : option node) : list leaf :=
  match o with None => [] | Some c => leaves c end.

Lemma leaves_branch b : leaves (BranchNode b) = Children b ≫= leaves_opt.
Proof. done. Qed.

Lemma elem_leaves b l :
  l ∈ leaves (BranchNode b) <-> exists i c, Children b !! i = Some (Some c) /\ l ∈ leaves c.
Proof.
  rewrite leaves_branch, list_elem_of_bind. split.
  - intros (oc & Hl & Hoc). apply list_elem_of_lookup in Hoc as [i Hi].
    destruct oc as [c|]; [eauto|by apply not_elem_of_nil in Hl].
  - intros (i & c & Hi & Hl). exists (Some c). split; [done|].
    by apply list_elem_of_lookup_2 with i.
Qed.

(** ** The invariant *)

(** [wf pre n]: [n] hangs below the nibbles [pre]. Every leaf sits on the path of
    its key and every branch has at least two children. *)
Inductive wf : list Z -> node -> Prop :=
| wf_leaf pre l : pre `prefix_of` path (Key l) -> wf pre (LeafNode l)
| wf_branch pre b :
    length (Children b) = Z.to_nat BranchNodes ->
    (forall i c, Children b !! i = Some (Some c) -> wf (pre ++ Prefix b ++ [Z.of_nat i]) c) ->
    (exists i j c d, i <> j /\ Children b !! i = Some (Some c) /\ Children b !! j = Some (Some d)) ->
    wf pre (BranchNode b).

Definition wf_tree (t : VectorCommitmentTree) : Prop :=
  match Root t with None => True | Some n => wf [] n end.

Lemma wf_branch_inv pre b :
  wf pre (BranchNode b) ->
  length (Children b) = 64%nat
  /\ (forall i c, Children b !! i = Some (Some c) -> wf (pre ++ Prefix b ++ [Z.of_nat i]) c)
  /\ (exists i j c d, i <> j /\ Children b !! i = Some (Some c) /\ Children b !! j = Some (Some d)).
Proof. inversion 1; subst; auto. Qed.

Lemma prefix_app_split {A} (p q r : list A) : p ++ q `prefix_of` r -> p `prefix_of` r.
Proof. intros [k ->]. exists (q ++ k). by rewrite app_assoc. Qed.

Lemma wf_leaves_prefix pre n l : wf pre n -> l ∈ leaves n -> pre `prefix_of` path (Key l).
Proof.
  intros H. revert l. induction H as [pre l0 Hp|pre b Hlen _ IH _]; intros l Hl.
  - simpl in Hl. apply list_elem_of_singleton in Hl as ->. done.
  - apply elem_leaves in Hl as (i & c & Hi & Hc).
    eapply prefix_app_split, IH; eauto.
Qed.

Lemma wf_leaves_child pre b i c l :
  wf pre (BranchNode b) -> Children b !! i = Some (Some c) -> l ∈ leaves c ->
  pre ++ Prefix b ++ [Z.of_nat i] `prefix_of` path (Key l).
Proof.
  intros Hwf Hi Hl. apply wf_branch_inv in Hwf as (_ & Hc & _).
  eapply wf_leaves_prefix; eauto.
Qed.

Lemma wf_nonempty pre n : wf pre n -> exists l, l ∈ leaves n.
Proof.
  induction 1 as [pre l|pre b _ _ IH (i & j & c & d & _ & Hi & _)].
  - exists l. apply list_elem_of_singleton. done.
  - destruct (IH _ _ Hi) as [l Hl]. exists l. apply elem_leaves. eauto.
Qed.

(** The nibble of a leaf below child [i] is [i]. *)
Lemma prefix_snoc_lookup (p : list Z) x q : p ++ [x] `prefix_of` q -> q !! length p = Some x.
Proof. intros [k ->]. rewrite <- app_assoc. by apply list_lookup_middle. Qed.

Lemma wf_leaf_index pre b i c l :
  wf pre (BranchNode b) -> Children b !! i = Some (Some c) -> l ∈ leaves c ->
  path (Key l) !! length (pre ++ Prefix b) = Some (Z.of_nat i).
Proof.
  intros Hwf Hi Hl. apply prefix_snoc_lookup. rewrite <- app_assoc.
  eapply wf_leaves_child; eauto.
Qed.

(** ** The prefix loop *)

Lemma getNextNibble_at key d i :
  getNextNibble key (BranchBits * Z.of_nat d + Z.of_nat i * BranchBits) = nib key (d + i).
Proof. unfold nib. f_equal. unfold BranchBits. lia. Qed.

Lemma prefixMismatch_spec key d i P :
  match prefixMismatch key (BranchBits * Z.of_nat d) (Z.of_nat i) P with
  | None => forall j x, P !! j = Some x -> nib key (d + i + j) = x
  | Some (k, e, a) => exists j : nat, k = Z.of_nat (i + j) /\ P !! j = Some e
      /\ nib key (d + i + j) = a /\ a <> e
      /\ forall m x, (m < j)%nat -> P !! m = Some x -> nib key (d + i + m) = x
  end.
Proof.
  revert i. induction P as [|e P IH]; intros i; cbn [prefixMismatch]; [done|].
  rewrite getNextNibble_at.
  destruct (Z.eqb_spec (nib key (d + i)) e) as [E|E]; cbn [negb].
  - replace (Z.of_nat i + 1) with (Z.of_nat (S i)) by lia. specialize (IH (S i)).
    destruct (prefixMismatch _ _ _ P) as [[[k e'] a]|].
    + destruct IH as (j & -> & HP & Ha & Hne & Hm). exists (S j).
      replace (i + S j)%nat with (S i + j)%nat by lia.
      replace (d + i + S j)%nat with (d + S i + j)%nat by lia.
      split_and!; try done. intros [|m] x Hlt HPm; simpl in HPm.
      * simplify_eq. by rewrite Nat.add_0_r.
      * replace (d + i + S m)%nat with (d + S i + m)%nat by lia. apply Hm; [lia|done].
    + intros [|j] x HP; simpl in HP.
      * simplify_eq. by rewrite Nat.add_0_r.
      * replace (d + i + S j)%nat with (d + S i + j)%nat by lia. by apply IH.
  - exists 0%nat. rewrite !Nat.add_0_r. split_and!; try done. lia.
Qed.

(** Nibbles of the key that agree with a list of non-negative nibbles form a
    prefix of the key's path. *)
Lemma agree_prefix key pre P :
  pre `prefix_of` path key -> Forall (fun x => 0 <= x) P ->
  (forall j x, P !! j = Some x -> nib key (length pre + j) = x) ->
  pre ++ P `prefix_of` path key.
Proof.
  intros [r Hr] HP Hag. rewrite Hr. apply prefix_app.
  revert pre r Hr Hag. induction HP as [|x P Hx HP IH]; intros pre r Hr Hag; [apply prefix_nil|].
  pose proof (Hag 0%nat x eq_refl) as H0. rewrite Nat.add_0_r, nib_path, Hr in H0.
  destruct r as [|y r].
  - rewrite app_nil_r, lookup_ge_None_2 in H0 by lia. simpl in H0. lia.
  - rewrite list_lookup_middle in H0 by done. simpl in H0. subst y.
    apply prefix_cons, IH with (pre ++ [x]).
    + by rewrite Hr, <- app_assoc.
    + intros j z Hj. rewrite length_app. simpl.
      rewrite <- (Hag (S j) z Hj). f_equal. lia.
Qed.

Lemma wf_prefix_nonneg pre b :
  wf pre (BranchNode b) -> Forall (fun x => 0 <= x) (pre ++ Prefix b).
Proof.
  intros Hwf. destruct (wf_nonempty _ _ Hwf) as [l Hl].
  apply elem_leaves in Hl as (i & c & Hi & Hc).
  pose proof (wf_leaves_child _ _ _ _ _ Hwf Hi Hc) as [k Hk].
  apply Forall_forall. intros x Hx.
  apply path_range with (Key l). rewrite Hk, !elem_of_app.
  apply elem_of_app in Hx. tauto.
Qed.

Lemma nib_prefix key p x : p ++ [x] `prefix_of` path key -> nib key (length p) = x.
Proof. intros H. rewrite nib_path. by rewrite (prefix_snoc_lookup _ _ _ H). Qed.

(** A key whose path extends [p] and is incomparable with another extension of
    [p] has a next nibble. *)
Lemma next_nibble k k' p :
  p `prefix_of` path k -> p `prefix_of` path k' -> ~ path k `prefix_of` path k' ->
  p ++ [nib k (length p)] `prefix_of` path k /\ 0 <= nib k (length p) < 64.
Proof.
  intros [r Hr] Hp' Hn. destruct r as [|x r].
  - exfalso. apply Hn. rewrite app_nil_r in Hr. by rewrite Hr.
  - assert (nib k (length p) = x) as ->.
    { rewrite nib_path, Hr, list_lookup_middle by done. done. }
    split.
    + exists r. by rewrite <- app_assoc.
    + apply path_range with k. rewrite Hr. apply elem_of_app. right. left.
Qed.

(** ** Children of a branch *)

(** The leaves of a branch around its [i]-th child. *)
Definition around (b : branch) (i : nat) : list leaf * list leaf :=
  (take i (Children b) ≫= leaves_opt, drop (S i) (Children b) ≫= leaves_opt).

Lemma leaves_around b i oc :
  Children b !! i = Some oc ->
  leaves (BranchNode b) = (around b i).1 ++ leaves_opt oc ++ (around b i).2.
Proof.
  intros Hi. rewrite leaves_branch, <- (take_drop_middle _ _ _ Hi) at 1.
  rewrite bind_app, bind_cons. done.
Qed.

Lemma leaves_around_insert b b' i oc :
  (i < length (Children b))%nat -> Children b' = <[i:=oc]> (Children b) ->
  leaves (BranchNode b') = (around b i).1 ++ leaves_opt oc ++ (around b i).2.
Proof.
  intros Hi E. rewrite leaves_branch, E, insert_take_drop, bind_app, bind_cons by done. done.
Qed.

Lemma elem_around b i l :
  l ∈ (around b i).1 \/ l ∈ (around b i).2 ->
  exists j c, j <> i /\ Children b !! j = Some (Some c) /\ l ∈ leaves c.
Proof.
  unfold around; simpl. rewrite !list_elem_of_bind.
  intros [(oc & Hl & Hoc)|(oc & Hl & Hoc)]; destruct oc as [c|];
    try (by apply not_elem_of_nil in Hl); apply list_elem_of_lookup in Hoc as [j Hj].
  - apply lookup_take_Some in Hj as [Hj Hlt]. exists j, c. split_and!; [lia|done|done].
  - rewrite lookup_drop in Hj. exists (S i + j)%nat, c. split_and!; [lia|done|done].
Qed.

Lemma around_keys pre b i (key : bytes) :
  wf pre (BranchNode b) -> nib key (length (pre ++ Prefix b)) = Z.of_nat i ->
  forall l, l ∈ (around b i).1 \/ l ∈ (around b i).2 -> Key l <> key.
Proof.
  intros Hwf Hn l Hl E. subst key.
  apply elem_around in Hl as (j & c & Hj & Hc & Hlc).
  pose proof (wf_leaf_index _ _ _ _ _ Hwf Hc Hlc) as Hx.
  rewrite nib_path, Hx in Hn. simpl in Hn. lia.
Qed.

(** Branches with exactly two children. *)
Definition twoChildren (i : nat) (a : node) (j : nat) (c : node) : list (option node) :=
  <[j := Some c]> (<[i := Some a]> noChildren).

Lemma twoChildren_length i a j c : length (twoChildren i a j c) = Z.to_nat BranchNodes.
Proof. unfold twoChildren. by rewrite !length_insert. Qed.

Lemma twoChildren_lookup i a j c k x :
  (i < 64)%nat -> (j < 64)%nat -> i <> j ->
  twoChildren i a j c !! k = Some (Some x) <-> (k = i /\ x = a) \/ (k = j /\ x = c).
Proof.
  intros Hi Hj Hne. unfold twoChildren.
  assert (length noChildren = 64%nat) as Hlen by done.
  destruct (decide (k = j)) as [->|Hkj].
  - rewrite list_lookup_insert_eq by (by rewrite length_insert, Hlen). naive_solver.
  - rewrite list_lookup_insert_ne by done. destruct (decide (k = i)) as [->|Hki].
    + rewrite list_lookup_insert_eq by (by rewrite Hlen). naive_solver.
    + rewrite list_lookup_insert_ne by done. unfold noChildren. split.
      * intros H. apply lookup_replicate in H as [H _]. done.
      * naive_solver.
Qed.

Lemma set_two {B} x y (a c : node) (f : list (option node) -> result B) :
  0 <= x < 64 -> 0 <= y < 64 ->
  (cs ← set_index noChildren x (Some a); cs ← set_index cs y (Some c); f cs)
  = f (twoChildren (Z.to_nat x) a (Z.to_nat y) c).
Proof.
  intros Hx Hy. assert (Z.of_nat (length noChildren) = 64) as Hlen by done.
  rewrite set_index_Ok by lia. simpl. rewrite set_index_Ok by (rewrite length_insert; lia). done.
Qed.

Lemma wf_two pre b i a j c :
  Children b = twoChildren i a j c -> (i < 64)%nat -> (j < 64)%nat -> i <> j ->
  wf (pre ++ Prefix b ++ [Z.of_nat i]) a -> wf (pre ++ Prefix b ++ [Z.of_nat j]) c ->
  wf pre (BranchNode b).
Proof.
  intros E Hi Hj Hne Ha Hc. constructor; rewrite E.
  - apply twoChildren_length.
  - intros k x Hk. apply twoChildren_lookup in Hk as [[-> ->]|[-> ->]]; done.
  - exists i, j, a, c. split_and!; [done| |]; apply twoChildren_lookup; auto.
Qed.

Lemma none_bind_nil n : replicate n (None : option node) ≫= leaves_opt = [].
Proof. induction n; [done|]. by rewrite replicate_S. Qed.

Lemma leaves_two b i a j c :
  Children b = twoChildren i a j c -> (i < 64)%nat -> (j < 64)%nat -> i <> j ->
  leaves (BranchNode b) ≡ₚ leaves a ++ leaves c.
Proof.
  intros E Hi Hj Hne.
  set (b0 := mkBranch [] (<[i := Some a]> noChildren) [] 0 0 0).
  set (b1 := mkBranch [] noChildren [] 0 0 0).
  assert (Children b0 !! j = Some None) as H0.
  { subst b0; simpl. rewrite list_lookup_insert_ne by done. by apply lookup_replicate_2. }
  assert (Children b1 !! i = Some None) as H1 by (by apply lookup_replicate_2).
  rewrite (leaves_around_insert b0 b j (Some c)); [|subst b0; simpl; by rewrite length_insert|done].
  pose proof (leaves_around b0 j None H0) as L0.
  rewrite (leaves_around_insert b1 b0 i (Some a)) in L0 by done.
  pose proof (leaves_around b1 i None H1) as L1.
  rewrite leaves_branch in L1. simpl Children in L1. unfold noChildren in L1.
  rewrite none_bind_nil in L1. simpl in *.
  symmetry in L1. apply app_eq_nil in L1 as [E1 E2]. rewrite E1, E2, app_nil_r in L0.
  simpl in L0. rewrite (Permutation_app_swap_app _ (leaves c)), <- L0.
  apply Permutation_app_comm.
Qed.
