(* ===== verification/ProofTreeOps.v ===== *)
(** * Functional correctness of Insert, Get and Delete

    Each operation of [VectorCommitmentTree] is shown to succeed on well-formed
    trees, to keep them well formed, and to act on the leaves as the
    corresponding operation of a finite map does. *)

From S2P Require Import Prelude Nibbles ProofTree ProofTreeWf.

(** The leaves other than that of [key]. *)
Definition without (key : bytes) (ls : list leaf) : list leaf :=
  filter (fun l => Key l <> key) ls.

Lemma without_app key a b : without key (a ++ b) = without key a ++ without key b.
Proof. apply filter_app. Qed.

Lemma without_id key ls : (forall l, l ∈ ls -> Key l <> key) -> without key ls = ls.
Proof.
  induction ls as [|l ls IH]; intros H; [done|]. unfold without.
  rewrite filter_cons_True by (apply H; left). f_equal. apply IH.
  intros l' Hl'. apply H. by right.
Qed.

Lemma Forall_without P key ls : Forall P ls -> Forall P (without key ls).
Proof.
  rewrite !Forall_forall. intros H l Hl. apply list_elem_of_filter in Hl as [_ Hl]. auto.
Qed.

Lemma without_around pre b i key oc :
  wf pre (BranchNode b) -> nib key (length (pre ++ Prefix b)) = Z.of_nat i ->
  Children b !! i = Some oc ->
  without key (leaves (BranchNode b))
  = (around b i).1 ++ without key (leaves_opt oc) ++ (around b i).2.
Proof.
  intros Hwf Hn Hi. rewrite (leaves_around _ _ _ Hi), !without_app.
  rewrite (without_id key (around b i).1), (without_id key (around b i).2); [done| |];
    intros; eapply around_keys; eauto.
Qed.

Lemma lcp_greatest c p q : c `prefix_of` p -> c `prefix_of` q -> c `prefix_of` lcp p q.
Proof.
  revert p q. induction c as [|x c IH]; intros p q [r ->] [s ->]; [apply prefix_nil|].
  cbn. rewrite Z.eqb_refl. apply prefix_cons, IH; by eexists.
Qed.

Lemma prefix_drop {A} (p q : list A) : p `prefix_of` q -> q = p ++ drop (length p) q.
Proof. intros [k ->]. by rewrite drop_app_length. Qed.

Lemma compat_sym k1 k2 : compat k1 k2 -> compat k2 k1.
Proof. unfold compat. intuition. Qed.

Lemma depth_next (pre P : list Z) :
  BranchBits * Z.of_nat (length pre) + Z.of_nat (length P) * BranchBits
  = BranchBits * Z.of_nat (length (pre ++ P)).
Proof. rewrite length_app. lia. Qed.

Lemma depth_child (pre P : list Z) x :
  BranchBits * Z.of_nat (length (pre ++ P)) + BranchBits
  = BranchBits * Z.of_nat (length (pre ++ P ++ [x])).
Proof. rewrite !length_app. simpl. unfold BranchBits. lia. Qed.

(** What the prefix loop of a well-formed branch decides, for a key below
    [pre]. *)
Lemma prefixMismatch_wf key pre b :
  wf pre (BranchNode b) -> pre `prefix_of` path key ->
  match prefixMismatch key (BranchBits * Z.of_nat (length pre)) 0 (Prefix b) with
  | None => pre ++ Prefix b `prefix_of` path key
  | Some (k, e, a) => exists j : nat, k = Z.of_nat j /\ Prefix b !! j = Some e
      /\ nib key (length (pre ++ take j (Prefix b))) = a /\ a <> e
      /\ pre ++ take j (Prefix b) `prefix_of` path key
  end.
Proof.
  intros Hwf Hpre. pose proof (wf_prefix_nonneg _ _ Hwf) as Hnn.
  apply Forall_app in Hnn as [_ Hnn].
  pose proof (prefixMismatch_spec key (length pre) 0 (Prefix b)) as H.
  change (Z.of_nat 0) with 0 in H.
  destruct (prefixMismatch key _ 0 (Prefix b)) as [[[k e] a]|].
  - destruct H as (j & -> & HP & Ha & Hne & Hm). exists j.
    assert (length (take j (Prefix b)) = j) as Hl.
    { apply length_take_le. apply lookup_lt_Some in HP. lia. }
    split_and!; try done.
    + rewrite length_app, Hl, <- Ha. f_equal. lia.
    + apply agree_prefix; [done|by apply Forall_take|].
      intros m x Hx. apply lookup_take_Some in Hx as [Hx Hlt].
      rewrite <- (Hm m x Hlt Hx). f_equal. lia.
  - apply agree_prefix; [done|done|]. intros j x Hx.
    rewrite <- (H j x Hx). f_equal. lia.
Qed.

(** ** Insert *)

Section Insert.
Context (key : bytes) (value : option bytes) (hashTarget : bytes) (size : Z).
Local Abbreviation new := (newLeaf key value hashTarget size).

(** The outcome of inserting into a node that holds the leaves [ls]. *)
Definition inserted (pre : list Z) (ls : list leaf) (r : result (Z * node)) : Prop :=
  exists delta n', r = Ok (delta, n') /\ wf pre n'
    /\ leaves n' ≡ₚ new :: without key ls
    /\ delta = Z.of_nat (length (leaves n')) - Z.of_nat (length ls).

Lemma insertLeaf_spec pre l :
  pre `prefix_of` path (Key l) -> pre `prefix_of` path key -> compat (Key l) key ->
  inserted pre [l] (insertLeaf key value hashTarget size l (BranchBits * Z.of_nat (length pre))).
Proof.
  intros Hl Hk Hc. unfold insertLeaf. destruct (decide (Key l = key)) as [E|Hne].
  - eexists _, _. split; [done|]. split; [constructor; simpl; by rewrite E|].
    simpl. unfold without. rewrite filter_cons_False by naive_solver.
    unfold newLeaf. rewrite E. done.
  - destruct Hc as [|[Hn1 Hn2]]; [done|].
    rewrite getNibblesUntilDiverge_spec.
    2:{ intros E. apply Hne, path_inj.
        rewrite (prefix_drop _ _ Hl), (prefix_drop _ _ Hk), E. done. }
    set (com := lcp _ _). rewrite <- length_app.
    assert (pre ++ com `prefix_of` path (Key l)) as Pl.
    { rewrite (prefix_drop _ _ Hl). apply prefix_app, lcp_l. }
    assert (pre ++ com `prefix_of` path key) as Pk.
    { rewrite (prefix_drop _ _ Hk). apply prefix_app, lcp_r. }
    destruct (next_nibble _ _ _ Pl Pk Hn1) as [Xl Rl].
    destruct (next_nibble _ _ _ Pk Pl Hn2) as [Xk Rk].
    cbn [mbind result_bind]. fold (nib (Key l) (length (pre ++ com))).
    fold (nib key (length (pre ++ com))).
    set (x := nib (Key l) _) in *. set (y := nib key _) in *.
    assert (x <> y) as Hxy.
    { intros E. rewrite E in Xl.
      assert (com ++ [y] `prefix_of` com) as Hlen.
      { apply lcp_greatest; eapply prefix_app_inv; rewrite app_assoc;
          [rewrite <- (prefix_drop _ _ Hl)|rewrite <- (prefix_drop _ _ Hk)]; done. }
      apply prefix_length in Hlen. rewrite length_app in Hlen. simpl in Hlen. lia. }
    rewrite set_two by done. eexists _, _. split; [done|].
    assert (leaves (BranchNode (mkBranch com
      (twoChildren (Z.to_nat x) (LeafNode l) (Z.to_nat y) (LeafNode new)) []
      (LeafSize l + size) 2 1)) ≡ₚ leaves (LeafNode l) ++ leaves (LeafNode new)) as Hlv.
    { eapply leaves_two; [done|lia..]. }
    split_and!.
    + eapply wf_two; [done|lia..| |]; constructor; simpl; rewrite app_assoc, Z2Nat.id by lia; done.
    + rewrite Hlv. unfold without. rewrite filter_cons_True by done. simpl. apply perm_swap.
    + rewrite Hlv. done.
Qed.

(** Every leaf below a branch continues with each part of its prefix. *)
Lemma split_leaves pre b j e l :
  wf pre (BranchNode b) -> Prefix b !! j = Some e -> l ∈ leaves (BranchNode b) ->
  (pre ++ take j (Prefix b)) ++ [e] `prefix_of` path (Key l).
Proof.
  intros Hwf He Hl. assert (Prefix b = take j (Prefix b) ++ [e] ++ drop (S j) (Prefix b)) as HP by (symmetry; by apply take_drop_middle).
  apply elem_leaves in Hl as (i & c & Hi & Hl).
  pose proof (wf_leaves_child _ _ _ _ _ Hwf Hi Hl) as [r Hr].
  exists (drop (S j) (Prefix b) ++ [Z.of_nat i] ++ r). rewrite Hr.
  transitivity ((pre ++ (take j (Prefix b) ++ [e] ++ drop (S j) (Prefix b)) ++ [Z.of_nat i]) ++ r); [by rewrite <- HP|].
  by rewrite <- !app_assoc.
Qed.

Lemma insertSplit_spec pre b j e a :
  wf pre (BranchNode b) -> (forall l, l ∈ leaves (BranchNode b) -> compat (Key l) key) ->
  Prefix b !! j = Some e -> nib key (length (pre ++ take j (Prefix b))) = a -> a <> e ->
  pre ++ take j (Prefix b) `prefix_of` path key ->
  inserted pre (leaves (BranchNode b))
    (insertSplit key value hashTarget size b (Z.of_nat j) e a).
Proof.
  intros Hwf Hc He Ha Hne Hk.
  pose proof (wf_prefix_nonneg _ _ Hwf) as Hnn.
  assert (Prefix b = take j (Prefix b) ++ [e] ++ drop (S j) (Prefix b)) as HP by (symmetry; by apply take_drop_middle).
  pose proof (fun l => split_leaves pre b j e l Hwf He) as Hle.
  destruct (wf_nonempty _ _ Hwf) as [l0 Hl0].
  assert (~ path key `prefix_of` path (Key l0)) as Hn.
  { destruct (Hc l0 Hl0) as [E|[_ ?]]; [|done]. exfalso.
    apply Hne. rewrite <- Ha, <- E. apply nib_prefix. by apply Hle. }
  destruct (next_nibble _ _ _ Hk (prefix_app_split _ _ _ (Hle l0 Hl0)) Hn) as [Xk Rk].
  rewrite Ha in Xk, Rk.
  assert (0 <= e < 64) as Re.
  { apply path_range with (Key l0). destruct (Hle l0 Hl0) as [r ->].
    rewrite !elem_of_app. left. right. apply list_elem_of_singleton. done. }
  unfold insertSplit. replace (Z.to_nat (Z.of_nat j + 1)) with (S j) by lia.
  rewrite Nat2Z.id.
  set (nb := mkBranch (drop (S j) (Prefix b)) _ _ _ _ _).
  rewrite set_two by done. eexists _, _. split; [done|].
  set (nr := mkBranch (take j (Prefix b)) _ _ _ _ _).
  assert (leaves (BranchNode nr) ≡ₚ leaves (BranchNode b) ++ [new]) as Hlv.
  { exact (leaves_two nr (Z.to_nat e) (BranchNode nb) (Z.to_nat a) (LeafNode new)
      eq_refl ltac:(lia) ltac:(lia) ltac:(lia)). }
  assert (without key (leaves (BranchNode b)) = leaves (BranchNode b)) as Hwo.
  { apply without_id. intros l Hl E. apply Hne. rewrite <- Ha, <- E.
    apply nib_prefix. by apply Hle. }
  split_and!.
  - apply (wf_two pre nr (Z.to_nat e) (BranchNode nb) (Z.to_nat a) (LeafNode new));
      [done|lia..| |]; simpl; rewrite Z2Nat.id by lia.
    + apply wf_branch_inv in Hwf as (Hlen & Hch & Htwo). constructor; [done| |done].
      intros i c Hi. simpl. specialize (Hch i c Hi).
      replace ((pre ++ take j (Prefix b) ++ [e]) ++ drop (S j) (Prefix b) ++ [Z.of_nat i])
        with (pre ++ Prefix b ++ [Z.of_nat i]); [done|].
      transitivity (pre ++ (take j (Prefix b) ++ [e] ++ drop (S j) (Prefix b))
                    ++ [Z.of_nat i]); [by rewrite <- HP|].
      by rewrite <- !app_assoc.
    + constructor. by rewrite app_assoc.
  - rewrite Hlv, Hwo. apply Permutation_app_comm.
  - rewrite Hlv, length_app. simpl. lia.
Qed.

Lemma insertUpdate_spec pre b i oc delta n' :
  wf pre (BranchNode b) -> (i < 64)%nat ->
  nib key (length (pre ++ Prefix b)) = Z.of_nat i -> Children b !! i = Some oc ->
  wf (pre ++ Prefix b ++ [Z.of_nat i]) n' ->
  leaves n' ≡ₚ new :: without key (leaves_opt oc) ->
  delta = Z.of_nat (length (leaves n')) - Z.of_nat (length (leaves_opt oc)) ->
  inserted pre (leaves (BranchNode b)) (insertUpdate size b (Z.of_nat i) delta n').
Proof.
  intros Hwf Hi Hn Hoc Hn' Hlv Hd. pose proof (wf_branch_inv _ _ Hwf) as (Hlen & Hch & Htwo).
  unfold insertUpdate. rewrite set_index_Ok by lia. rewrite Nat2Z.id. cbn [mbind result_bind].
  set (lg := match n' with LeafNode _ => _ | BranchNode _ => _ end).
  set (sz := if negb _ then _ else _).
  eexists _, _. split; [done|].
  set (nb := mkBranch (Prefix b) _ _ _ _ _).
  rewrite (leaves_around_insert b nb i (Some n')) by (done || lia).
  rewrite (without_around pre b i key oc), (leaves_around b i oc) by done.
  split_and!.
  - constructor; simpl; [by rewrite length_insert| |].
    + intros k c Hk. destruct (decide (k = i)) as [->|Hki].
      * rewrite list_lookup_insert_eq in Hk by lia. by simplify_eq.
      * rewrite list_lookup_insert_ne in Hk by done. by apply Hch.
    + destruct Htwo as (k & m & c & d & Hkm & Hk & Hm).
      destruct (decide (k = i)) as [->|Hki].
      * exists i, m, n', d. rewrite list_lookup_insert_eq, list_lookup_insert_ne by (done || lia).
        done.
      * exists k, i, c, n'. rewrite list_lookup_insert_eq, list_lookup_insert_ne by (done || lia).
        done.
  - simpl. rewrite Hlv. simpl. by rewrite <- Permutation_middle.
  - rewrite !length_app. simpl. lia.
Qed.

Lemma insertNode_spec pre n :
  wf pre n -> pre `prefix_of` path key -> (forall l, l ∈ leaves n -> compat (Key l) key) ->
  inserted pre (leaves n)
    (insertNode key value hashTarget size n (BranchBits * Z.of_nat (length pre))).
Proof.
  intros Hwf. induction Hwf as [pre l Hp|pre b Hlen Hch IH Htwo]; intros Hk Hc.
  { apply insertLeaf_spec; [done|done|]. apply Hc. simpl. by apply list_elem_of_singleton. }
  assert (wf pre (BranchNode b)) as Hwf by (by constructor).
  cbn [insertNode]. pose proof (prefixMismatch_wf key pre b Hwf Hk) as Hm.
  destruct (prefixMismatch key _ 0 (Prefix b)) as [[[k e] a]|].
  { destruct Hm as (j & -> & He & Ha & Hne & Hk'). by apply insertSplit_spec. }
  rewrite depth_next. fold (nib key (length (pre ++ Prefix b))).
  destruct (wf_nonempty _ _ Hwf) as [l0 Hl0].
  assert ((pre ++ Prefix b) ++ [nib key (length (pre ++ Prefix b))] `prefix_of` path key
          /\ 0 <= nib key (length (pre ++ Prefix b)) < 64) as [Xk Rk].
  { apply elem_leaves in Hl0 as (i & c & Hi & Hl).
    pose proof (wf_leaves_child _ _ _ _ _ Hwf Hi Hl) as Hpl. rewrite app_assoc in Hpl.
    destruct (Hc l0) as [E|[_ Hn2]]; [apply elem_leaves; eauto| |].
    - rewrite E in Hpl. rewrite (nib_prefix _ _ _ Hpl). split; [done|].
      apply lookup_lt_Some in Hi. rewrite Hlen in Hi. unfold BranchNodes in Hi. lia.
    - eapply next_nibble; [done|by eapply prefix_app_split|done]. }
  destruct (Z.ltb_spec (nib key (length (pre ++ Prefix b))) 0); [lia|].
  set (x := nib key _) in *. rewrite nth_with_lookup.
  destruct (lookup_lt_is_Some_2 (Children b) (Z.to_nat x)) as [oc Hoc].
  { rewrite Hlen. unfold BranchNodes. lia. }
  rewrite Hoc, <- (Z2Nat.id x) by lia.
  assert (inserted (pre ++ Prefix b ++ [Z.of_nat (Z.to_nat x)]) (leaves_opt oc)
    (match oc with
     | None => Ok (1, LeafNode new)
     | Some c => insertNode key value hashTarget size c
                   (BranchBits * Z.of_nat (length (pre ++ Prefix b)) + BranchBits)
     end)) as (delta & n' & -> & Hn' & Hlv & Hd).
  { destruct oc as [c|].
    - rewrite (depth_child pre (Prefix b) (Z.of_nat (Z.to_nat x))).
      apply (IH _ _ Hoc).
      + rewrite app_assoc, Z2Nat.id by lia. done.
      + intros l Hl. apply Hc, elem_leaves. eauto.
    - eexists _, _. split_and!; [done| |done|done].
      constructor. simpl. rewrite app_assoc, Z2Nat.id by lia. done. }
  cbn [mbind result_bind fst snd].
  eapply (insertUpdate_spec pre b (Z.to_nat x) oc); eauto; [lia|fold x; lia].
Qed.
End Insert.

(** ** Descending into a branch

    For a key that is not a proper prefix of a stored key, Get and Delete find a
    nibble in range at every branch whose prefix the key follows. *)

Lemma descend_nibble key pre b :
  wf pre (BranchNode b) -> pre ++ Prefix b `prefix_of` path key ->
  (forall l, l ∈ leaves (BranchNode b) -> compat (Key l) key) ->
  exists i oc, nib key (length (pre ++ Prefix b)) = Z.of_nat i /\ (i < 64)%nat
    /\ Children b !! i = Some oc /\ pre ++ Prefix b ++ [Z.of_nat i] `prefix_of` path key.
Proof.
  intros Hwf Hk Hc. pose proof (wf_branch_inv _ _ Hwf) as (Hlen & _ & _).
  destruct (wf_nonempty _ _ Hwf) as [l0 Hl0].
  pose proof Hl0 as (i & c & Hi & Hl)%elem_leaves.
  pose proof (wf_leaves_child _ _ _ _ _ Hwf Hi Hl) as Hpl. rewrite app_assoc in Hpl.
  destruct (Hc l0 Hl0) as [E|[_ Hn]].
  - exists i, (Some c). rewrite E in Hpl. rewrite (nib_prefix _ _ _ Hpl).
    split_and!; [done| |done|by rewrite app_assoc]. apply lookup_lt_Some in Hi. lia.
  - destruct (next_nibble key (Key l0) (pre ++ Prefix b)) as [Xk Rk];
      [done|by eapply prefix_app_split|done|].
    set (x := nib key _) in *.
    destruct (lookup_lt_is_Some_2 (Children b) (Z.to_nat x)) as [oc Hoc]; [lia|].
    exists (Z.to_nat x), oc. split_and!; [lia|lia|done|].
    by rewrite app_assoc, Z2Nat.id by lia.
Qed.

(** ** Get *)

(** The value stored under [key] among the leaves [ls]. *)
Definition valueOf (key : bytes) (ls : list leaf) : option bytes :=
  match filter (fun l => Key l = key) ls with
  | [] => None
  | l :: _ => Value l
  end.

Lemma filter_key_nil key ls : (forall l, l ∈ ls -> Key l <> key) ->
  filter (fun l => Key l = key) ls = [].
Proof.
  induction ls as [|l ls IH]; intros H; [done|].
  rewrite filter_cons_False by (apply H; left). apply IH. intros l' Hl'. apply H. by right.
Qed.

Lemma valueOf_around pre b i key oc :
  wf pre (BranchNode b) -> nib key (length (pre ++ Prefix b)) = Z.of_nat i ->
  Children b !! i = Some oc -> valueOf key (leaves (BranchNode b)) = valueOf key (leaves_opt oc).
Proof.
  intros Hwf Hn Hi. unfold valueOf. rewrite (leaves_around _ _ _ Hi), !filter_app.
  rewrite (filter_key_nil key (around b i).1), (filter_key_nil key (around b i).2);
    [by rewrite app_nil_r| |]; intros; eapply around_keys; eauto.
Qed.

Lemma mismatch_absent key pre b :
  wf pre (BranchNode b) -> ~ pre ++ Prefix b `prefix_of` path key ->
  forall l, l ∈ leaves (BranchNode b) -> Key l <> key.
Proof.
  intros Hwf Hn l Hl E. apply Hn. rewrite <- E.
  apply elem_leaves in Hl as (i & c & Hi & Hl).
  pose proof (wf_leaves_child _ _ _ _ _ Hwf Hi Hl) as Hp. rewrite app_assoc in Hp.
  by eapply prefix_app_split.
Qed.

Lemma mismatch_not_prefix key pre b k e a :
  wf pre (BranchNode b) -> pre `prefix_of` path key ->
  prefixMismatch key (BranchBits * Z.of_nat (length pre)) 0 (Prefix b) = Some (k, e, a) ->
  ~ pre ++ Prefix b `prefix_of` path key.
Proof.
  intros Hwf Hk Hm Hp. pose proof (prefixMismatch_wf key pre b Hwf Hk) as H.
  rewrite Hm in H. destruct H as (j & -> & He & Ha & Hne & _). apply Hne. rewrite <- Ha.
  apply nib_prefix. destruct Hp as [r Hr]. exists (drop (S j) (Prefix b) ++ r).
  rewrite Hr. rewrite <- (take_drop_middle _ _ _ He) at 1. by rewrite <- !app_assoc.
Qed.

Lemma getNode_spec key pre n :
  wf pre n -> pre `prefix_of` path key -> (forall l, l ∈ leaves n -> compat (Key l) key) ->
  getNode key n (BranchBits * Z.of_nat (length pre)) = Ok (valueOf key (leaves n)).
Proof.
  intros Hwf. induction Hwf as [pre l Hp|pre b Hlen Hch IH Htwo]; intros Hk Hc.
  { cbn. unfold valueOf. rewrite filter_cons. by destruct (decide (Key l = key)). }
  assert (wf pre (BranchNode b)) as Hwf by (by constructor).
  cbn [getNode]. pose proof (prefixMismatch_wf key pre b Hwf Hk) as Hm.
  destruct (prefixMismatch key _ 0 (Prefix b)) as [[[k e] a]|] eqn:Em.
  { unfold valueOf. rewrite filter_key_nil; [done|].
    eapply mismatch_absent, mismatch_not_prefix; eauto. }
  rewrite depth_next. fold (nib key (length (pre ++ Prefix b))).
  destruct (descend_nibble key pre b Hwf Hm Hc) as (i & oc & Hi & Hi64 & Hoc & Hki).
  rewrite (valueOf_around pre b i key oc), Hi by done.
  destruct (Z.ltb_spec (Z.of_nat i) 0); [lia|].
  rewrite nth_with_lookup, Nat2Z.id, Hoc. destruct oc as [c|]; [|done].
  rewrite (depth_child pre (Prefix b) (Z.of_nat i)). apply (IH _ _ Hoc); [done|].
  intros l Hl. apply Hc, elem_leaves. eauto.
Qed.

(** ** Delete *)

(** The non-nil children with their indices. *)
Fixpoint somes (i : nat) (cs : list (option node)) : list (nat * node) :=
  match cs with
  | [] => []
  | None :: cs => somes (S i) cs
  | Some c :: cs => (i, c) :: somes (S i) cs
  end.

Lemma elem_somes i cs j c :
  (j, c) ∈ somes i cs <-> exists k, j = (i + k)%nat /\ cs !! k = Some (Some c).
Proof.
  revert i. induction cs as [|oc cs IH]; intros i; simpl.
  { split; [by intros ?%not_elem_of_nil|intros (k & _ & Hk); done]. }
  assert ((exists k, j = (S i + k)%nat /\ cs !! k = Some (Some c)) <->
          (exists k, k <> 0%nat /\ j = (i + k)%nat /\ (oc :: cs) !! k = Some (Some c))) as E.
  { split.
    - intros (k & -> & Hk). exists (S k). split_and!; [done|lia|done].
    - intros ([|k] & Hz & -> & Hk); [done|]. exists k. split; [lia|done]. }
  destruct oc as [c0|]; rewrite ?elem_of_cons, IH, E; clear IH E; split.
  - intros [Heq|(k & _ & H)]; [|eauto]. simplify_eq. exists 0%nat. split; [lia|done].
  - intros ([|k] & -> & Hk); [left; simpl in Hk; simplify_eq; by rewrite Nat.add_0_r|].
    right. exists (S k). done.
  - intros (k & _ & H). eauto.
  - intros ([|k] & -> & Hk); [done|]. exists (S k). done.
Qed.

Lemma somes_leaves i cs : cs ≫= leaves_opt = somes i cs ≫= (fun p => leaves p.2).
Proof.
  revert i. induction cs as [|[c|] cs IH]; intros i; simpl; [done| |].
  - f_equal. apply IH.
  - apply IH.
Qed.

Lemma scanChildren_spec i cs s :
  let ps := somes i cs in
  let r := scanChildren (Z.of_nat i) cs s in
  childCount r = childCount s + Z.of_nat (length ps)
  /\ match last ps with
     | None => lastChild r = lastChild s /\ lastChildIndex r = lastChildIndex s
     | Some (j, c) => lastChild r = Some c /\ lastChildIndex r = Z.of_nat j
     end.
Proof.
  revert i s. induction cs as [|[c|] cs IH]; intros i s; cbn [somes scanChildren].
  - simpl. split; [lia|done].
  - destruct (match c with LeafNode _ => _ | BranchNode _ => _ end) as [lv lg].
    replace (Z.of_nat i + 1) with (Z.of_nat (S i)) by lia.
    set (s1 := mkScan _ _ _ _ _). destruct (IH (S i) s1) as [Hc Hl]. cbv zeta in *.
    split; [rewrite Hc; simpl; lia|].
    rewrite last_cons. destruct (last (somes (S i) cs)) as [[j d]|]; done.
  - replace (Z.of_nat i + 1) with (Z.of_nat (S i)) by lia. apply IH.
Qed.

Lemma somes_two cs p q ps :
  somes 0 cs = p :: q :: ps -> exists i j c d, i <> j /\ cs !! i = Some (Some c)
    /\ cs !! j = Some (Some d).
Proof.
  intros E. destruct p as [i c], q as [j d].
  assert (forall k cs, Forall (fun p => (k <= p.1)%nat) (somes k cs)) as Hge.
  { clear. intros k cs. apply Forall_forall. intros [j c] Hj.
    apply elem_somes in Hj as (m & -> & _). simpl. lia. }
  assert (forall k cs, match somes k cs with
            | p :: q :: _ => p.1 <> q.1 | _ => True end) as Hnd.
  { clear -Hge. intros k cs. revert k. induction cs as [|[c|] cs IH]; intros k; simpl; [done| |].
    - pose proof (Hge (S k) cs) as H. destruct (somes (S k) cs) as [|q qs]; [done|].
      apply Forall_cons_1 in H as [H _]. simpl. lia.
    - apply IH. }
  specialize (Hnd 0%nat cs). rewrite E in Hnd. simpl in Hnd. exists i, j, c, d.
  assert ((i, c) ∈ somes 0 cs) as (k & -> & Hk)%elem_somes by (rewrite E; left).
  assert ((j, d) ∈ somes 0 cs) as (m & -> & Hm)%elem_somes by (rewrite E; right; left).
  done.
Qed.

(** Replacing a node whose children became [cs] (not all nil). *)
Lemma removeCollapse_spec pre b cs size :
  length cs = 64%nat ->
  (forall i c, cs !! i = Some (Some c) -> wf (pre ++ Prefix b ++ [Z.of_nat i]) c) ->
  match removeCollapse b cs size with
  | None => (cs ≫= leaves_opt) = []
  | Some n' => wf pre n' /\ leaves n' = (cs ≫= leaves_opt)
  end.
Proof.
  intros Hlen Hch. unfold removeCollapse.
  destruct (scanChildren_spec 0 cs (mkScan 0 None 0 1 0)) as [Hc Hl]. cbv zeta in *.
  change (Z.of_nat 0) with 0 in *. set (s := scanChildren 0 cs _) in *.
  rewrite (somes_leaves 0). simpl in Hc.
  destruct (somes 0 cs) as [|[i c] [|q ps]] eqn:Eps; rewrite Hc, Z.add_0_l; [done| |].
  - simpl in Hl |- *. destruct Hl as [-> ->]. rewrite app_nil_r.
    assert ((i, c) ∈ somes 0 cs) as (k & -> & Hk)%elem_somes by (rewrite Eps; left).
    simpl in *. pose proof (Hch _ _ Hk) as Hw. destruct c as [l|cb].
    + split; [|done]. constructor. inversion Hw; subst. by eapply prefix_app_split.
    + split; [|done]. apply wf_branch_inv in Hw as (Hl2 & Hc2 & Ht2).
      constructor; simpl; [done| |done]. intros m d Hm.
      specialize (Hc2 m d Hm). rewrite <- !app_assoc in Hc2. rewrite <- !app_assoc. done.
  - cbn [length]. destruct (Z.eqb_spec (Z.of_nat (S (S (length ps)))) 0); [lia|].
    destruct (Z.eqb_spec (Z.of_nat (S (S (length ps)))) 1); [lia|].
    split; [|by rewrite leaves_branch; simpl; rewrite (somes_leaves 0), Eps].
    constructor; simpl; [done|done|]. by eapply somes_two.
Qed.

Lemma removeNode_spec key pre n :
  wf pre n -> pre `prefix_of` path key -> (forall l, l ∈ leaves n -> compat (Key l) key) ->
  exists size on, removeNode key n (BranchBits * Z.of_nat (length pre)) = Ok (size, on)
    /\ leaves_opt on = without key (leaves n)
    /\ (forall n', on = Some n' -> wf pre n').
Proof.
  intros Hwf. induction Hwf as [pre l Hp|pre b Hlen Hch IH Htwo]; intros Hk Hc.
  { cbn [removeNode leaves]. unfold without. rewrite filter_cons.
    destruct (decide (Key l = key)) as [E|E]; eexists _, _; (split; [done|]).
    - rewrite decide_False by naive_solver. split; [done|]. intros n' ?. done.
    - rewrite decide_True by done. split; [done|]. intros n' ?. simplify_eq. by constructor. }
  assert (wf pre (BranchNode b)) as Hwf by (by constructor).
  change (Z.to_nat BranchNodes) with 64%nat in Hlen.
  cbn [removeNode]. pose proof (prefixMismatch_wf key pre b Hwf Hk) as Hm.
  destruct (prefixMismatch key _ 0 (Prefix b)) as [[[k e] a]|] eqn:Em.
  { eexists _, _. split; [done|]. split; [|by intros ? [= <-]].
    rewrite without_id; [done|]. eapply mismatch_absent, mismatch_not_prefix; eauto. }
  rewrite depth_next. fold (nib key (length (pre ++ Prefix b))).
  destruct (descend_nibble key pre b Hwf Hm Hc) as (i & oc & Hi & Hi64 & Hoc & Hki).
  rewrite Hi. destruct (Z.ltb_spec (Z.of_nat i) 0); [lia|].
  rewrite nth_with_lookup, Nat2Z.id, Hoc.
  assert (exists size on,
    match oc with
    | None => Ok (0, None)
    | Some c => removeNode key c (BranchBits * Z.of_nat (length (pre ++ Prefix b)) + BranchBits)
    end = Ok (size, on) /\ leaves_opt on = without key (leaves_opt oc)
    /\ (forall n', on = Some n' -> wf (pre ++ Prefix b ++ [Z.of_nat i]) n'))
    as (size & on & -> & Hlv & Hon).
  { destruct oc as [c|]; [|by eexists _, _].
    rewrite (depth_child pre (Prefix b) (Z.of_nat i)). apply (IH _ _ Hoc); [done|].
    intros l Hl. apply Hc, elem_leaves. eauto. }
  cbn [mbind result_bind fst snd]. rewrite set_index_Ok by lia. rewrite Nat2Z.id.
  cbn [mbind result_bind]. eexists _, _. split; [done|].
  rewrite (without_around pre b i key oc), <- Hlv by done.
  set (nb := mkBranch (Prefix b) (<[i:=on]> (Children b)) [] 0 0 0).
  rewrite <- (leaves_around_insert b nb i on) by (done || lia).
  assert (forall k c, <[i:=on]> (Children b) !! k = Some (Some c) -> wf (pre ++ Prefix b ++ [Z.of_nat k]) c) as Hcs.
  { intros k c Hk'. destruct (decide (k = i)) as [->|Hki'].
    - rewrite list_lookup_insert_eq in Hk' by lia. simplify_eq. by apply Hon.
    - rewrite list_lookup_insert_ne in Hk' by done. by apply Hch. }
  pose proof (removeCollapse_spec pre b (<[i:=on]> (Children b)) size) as Hcol.
  rewrite leaves_branch. simpl Children. rewrite length_insert in Hcol. specialize (Hcol Hlen Hcs).
  destruct (removeCollapse b _ size) as [n'|].
  - destruct Hcol as [Hw Hleq]. split; [done|]. by intros ? [= <-].
  - split; [|done]. by symmetry.
Qed.
