(* ===== verification/ProofTreeMap.v ===== *)
(** * The vector commitment tree as a finite map

    The abstract specification of [VectorCommitmentTree] is a finite map from
    keys to entries; this file shows that Insert, Get and Delete, and sequences of
    them, implement it. *)

From S2P Require Import Prelude Nibbles ProofTree ProofTreeWf ProofTreeOps.

(** What a leaf stores besides its key and cached commitment. *)
Abbreviation entry := (option bytes * bytes * Z)%type.

Definition leafEntry (l : leaf) : bytes * entry := (Key l, (Value l, HashTarget l, LeafSize l)).

Definition contents_of (ls : list leaf) : gmap bytes entry := list_to_map (leafEntry <$> ls).

Definition contents (t : VectorCommitmentTree) : gmap bytes entry :=
  contents_of (leaves_opt (Root t)).

(** The key may be looked up or stored beside the keys of [m]: none of them is a
    proper nibble prefix of it, nor it of them.  Keys of one length always may. *)
Definition keyFits (m : gmap bytes entry) (key : bytes) : Prop :=
  key <> [] /\ forall k, is_Some (m !! k) -> compat k key.

(** ** Keys are distinct *)

Lemma nodup_children (cs : list (option node)) :
  (forall i c, cs !! i = Some (Some c) -> NoDup (Key <$> leaves c)) ->
  (forall i j c d l m, i <> j -> cs !! i = Some (Some c) -> cs !! j = Some (Some d) ->
     l ∈ leaves c -> m ∈ leaves d -> Key l <> Key m) ->
  NoDup (Key <$> (cs ≫= leaves_opt)).
Proof.
  induction cs as [|oc cs IH]; intros Hn Hd; [constructor|].
  rewrite bind_cons, fmap_app. apply NoDup_app. split_and!.
  - destruct oc as [c|]; [by apply (Hn 0%nat)|constructor].
  - intros k Hk Hk'. apply list_elem_of_fmap in Hk as (l & -> & Hl).
    apply list_elem_of_fmap in Hk' as (m & Em & Hm).
    apply list_elem_of_bind in Hm as ([d|] & Hm & Hd'); [|by apply not_elem_of_nil in Hm].
    destruct oc as [c|]; [|by apply not_elem_of_nil in Hl].
    apply list_elem_of_lookup in Hd' as [j Hj].
    by apply (Hd 0%nat (S j) c d l m).
  - apply IH.
    + intros i c Hi. by apply (Hn (S i)).
    + intros i j c d l m Hne Hi Hj. apply (Hd (S i) (S j)); [congruence|done|done].
Qed.

Lemma wf_nodup pre n : wf pre n -> NoDup (Key <$> leaves n).
Proof.
  intros Hwf. induction Hwf as [pre l|pre b Hlen Hch IH Htwo]; [apply NoDup_singleton|].
  assert (wf pre (BranchNode b)) as Hwf by (by constructor).
  rewrite leaves_branch. apply nodup_children; [exact IH|].
  intros i j c d l m Hne Hi Hj Hl Hm E.
  pose proof (wf_leaf_index _ _ _ _ _ Hwf Hi Hl) as H1.
  pose proof (wf_leaf_index _ _ _ _ _ Hwf Hj Hm) as H2.
  rewrite E in H1. rewrite H1 in H2. simplify_eq.
Qed.

Lemma wf_tree_nodup t : wf_tree t -> NoDup (Key <$> leaves_opt (Root t)).
Proof. unfold wf_tree. destruct (Root t); [apply wf_nodup|constructor]. Qed.

Lemma fst_leafEntry ls : (leafEntry <$> ls).*1 = Key <$> ls.
Proof. by rewrite <- list_fmap_compose. Qed.

Lemma contents_of_lookup ls l :
  NoDup (Key <$> ls) -> l ∈ ls -> contents_of ls !! Key l = Some (leafEntry l).2.
Proof.
  intros Hnd Hl. apply elem_of_list_to_map_1; [by rewrite fst_leafEntry|].
  change (Key l, (leafEntry l).2) with (leafEntry l). by apply list_elem_of_fmap_2.
Qed.

Lemma contents_of_dom ls k :
  is_Some (contents_of ls !! k) <-> exists l, l ∈ ls /\ Key l = k.
Proof.
  split.
  - intros [e He]. apply elem_of_list_to_map_2 in He.
    apply list_elem_of_fmap in He as (l & E & Hl). exists l. unfold leafEntry in E.
    split; [done|congruence].
  - intros (l & Hl & <-). unfold contents_of. apply not_eq_None_Some. intros H.
    apply not_elem_of_list_to_map in H. apply H. rewrite fst_leafEntry.
    by apply list_elem_of_fmap_2.
Qed.

Lemma contents_of_cons l ls :
  contents_of (l :: ls) = <[Key l := (leafEntry l).2]> (contents_of ls).
Proof. done. Qed.

Lemma contents_of_without key ls : contents_of (without key ls) = delete key (contents_of ls).
Proof.
  induction ls as [|l ls IH]; [by unfold contents_of; simpl; rewrite delete_empty|].
  rewrite contents_of_cons. unfold without. rewrite filter_cons.
  destruct (decide (Key l = key)) as [E|E].
  - rewrite decide_False by naive_solver. rewrite E, delete_insert_eq. apply IH.
  - rewrite decide_True by done. rewrite contents_of_cons, delete_insert_ne by done.
    by rewrite <- IH.
Qed.

Lemma contents_of_perm ls ls' :
  NoDup (Key <$> ls) -> ls ≡ₚ ls' -> contents_of ls = contents_of ls'.
Proof.
  intros Hnd Hp. apply list_to_map_proper; [by rewrite fst_leafEntry|by rewrite Hp].
Qed.

Lemma keyFits_leaves t key :
  keyFits (contents t) key -> forall l, l ∈ leaves_opt (Root t) -> compat (Key l) key.
Proof. intros [_ H] l Hl. apply H, contents_of_dom. eauto. Qed.

(** ** The operations *)

Lemma Insert_spec t key value hashTarget size :
  wf_tree t -> keyFits (contents t) key ->
  exists t', Insert t key value hashTarget size = Ok t' /\ wf_tree t'
    /\ contents t' = <[key := (value, hashTarget, size)]> (contents t).
Proof.
  intros Hwf Hfit. pose proof (keyFits_leaves _ _ Hfit) as Hc. destruct Hfit as [Hne _].
  unfold Insert. rewrite decide_False by done.
  assert (inserted key value hashTarget size [] (leaves_opt (Root t))
            (insert key value hashTarget size (Root t) 0)) as (d & n' & -> & Hw & Hlv & _).
  { unfold wf_tree in Hwf. destruct (Root t) as [n|].
    - apply (insertNode_spec key value hashTarget size [] n Hwf (prefix_nil _) Hc).
    - eexists _, _. split_and!; [done| |done|done]. constructor. apply prefix_nil. }
  eexists. split; [done|]. split; [done|]. unfold contents. simpl.
  rewrite (contents_of_perm _ _ (wf_nodup _ _ Hw) Hlv), contents_of_cons, contents_of_without.
  by rewrite insert_delete_eq.
Qed.

Lemma valueOf_contents key ls :
  NoDup (Key <$> ls) ->
  valueOf key ls = match contents_of ls !! key with Some (v, _, _) => v | None => None end.
Proof.
  intros Hnd. unfold valueOf.
  destruct (filter (fun l => Key l = key) ls) as [|l r] eqn:E.
  - destruct (contents_of ls !! key) as [e|] eqn:El; [|done]. exfalso.
    destruct (proj1 (contents_of_dom ls key)) as (l & Hl & Hk); [eauto|].
    assert (l ∈ filter (fun l => Key l = key) ls) as Hf by (by apply list_elem_of_filter).
    rewrite E in Hf. by apply not_elem_of_nil in Hf.
  - assert (l ∈ filter (fun l => Key l = key) ls) as [Hk Hl]%list_elem_of_filter
      by (rewrite E; left).
    rewrite <- Hk, (contents_of_lookup ls l) by done. done.
Qed.

Lemma Get_spec t key :
  wf_tree t -> keyFits (contents t) key ->
  Get t key = match contents t !! key with
              | Some (Some v, _, _) => Ok v
              | _ => Err errKeyNotFound
              end.
Proof.
  intros Hwf Hfit. pose proof (keyFits_leaves _ _ Hfit) as Hc. destruct Hfit as [Hne _].
  unfold Get. rewrite decide_False by done.
  assert (match Root t with None => Ok None | Some n => getNode key n 0 end
          = Ok (valueOf key (leaves_opt (Root t)))) as ->.
  { unfold wf_tree in Hwf. destruct (Root t) as [n|]; [|done].
    apply (getNode_spec key [] n Hwf (prefix_nil _) Hc). }
  rewrite valueOf_contents by (by apply wf_tree_nodup). unfold contents. simpl.
  destruct (contents_of _ !! key) as [[[[v|] h] s]|]; done.
Qed.

Lemma Delete_spec t key :
  wf_tree t -> keyFits (contents t) key ->
  exists t', Delete t key = Ok t' /\ wf_tree t' /\ contents t' = delete key (contents t).
Proof.
  intros Hwf Hfit. pose proof (keyFits_leaves _ _ Hfit) as Hc. destruct Hfit as [Hne _].
  unfold Delete. rewrite decide_False by done.
  assert (exists size on, match Root t with None => Ok (0, None) | Some n => removeNode key n 0 end
            = Ok (size, on) /\ leaves_opt on = without key (leaves_opt (Root t))
            /\ (forall n', on = Some n' -> wf [] n')) as (size & on & -> & Hlv & Hw).
  { unfold wf_tree in Hwf. destruct (Root t) as [n|].
    - apply (removeNode_spec key [] n Hwf (prefix_nil _) Hc).
    - by eexists _, _. }
  eexists. split; [done|]. unfold wf_tree, contents. simpl. rewrite Hlv, contents_of_without.
  split; [|done]. destruct on; [by apply Hw|done].
Qed.

(** ** Sequences of operations *)

Inductive treeOp :=
| OpInsert (key : bytes) (value : option bytes) (hashTarget : bytes) (size : Z)
| OpDelete (key : bytes).

Definition opKey (o : treeOp) : bytes :=
  match o with OpInsert k _ _ _ => k | OpDelete k => k end.

Definition applyOp (t : VectorCommitmentTree) (o : treeOp) : result VectorCommitmentTree :=
  match o with
  | OpInsert k v h s => Insert t k v h s
  | OpDelete k => Delete t k
  end.

Definition runOps (t : VectorCommitmentTree) (os : list treeOp) : result VectorCommitmentTree :=
  foldl (fun r o => t ← r; applyOp t o) (Ok t) os.

(** The abstract operation on the finite map. *)
Definition specOp (m : gmap bytes entry) (o : treeOp) : gmap bytes entry :=
  match o with
  | OpInsert k v h s => <[k := (v, h, s)]> m
  | OpDelete k => delete k m
  end.

Lemma applyOp_spec t o :
  wf_tree t -> keyFits (contents t) (opKey o) ->
  exists t', applyOp t o = Ok t' /\ wf_tree t' /\ contents t' = specOp (contents t) o.
Proof. destruct o; [apply Insert_spec|apply Delete_spec]. Qed.

Lemma runOps_cons t o os : runOps t (o :: os) = (t' ← applyOp t o; runOps t' os).
Proof.
  unfold runOps. simpl. destruct (applyOp t o) as [t'| | |]; [done|..];
    induction os as [|o' os IH]; simpl; auto.
Qed.

(** All keys of the map have length [len]. *)
Definition keysOfLength (len : nat) (m : gmap bytes entry) : Prop :=
  forall k, is_Some (m !! k) -> length k = len.

Lemma keysOfLength_fits len m key :
  keysOfLength len m -> length key = len -> key <> [] -> keyFits m key.
Proof.
  intros Hm Hk Hne. split; [done|]. intros k Hk'. apply compat_same_length.
  by rewrite (Hm k Hk').
Qed.

Lemma keysOfLength_op len m o :
  keysOfLength len m -> length (opKey o) = len -> keysOfLength len (specOp m o).
Proof.
  intros Hm Hk k Hk'. destruct o as [k0 v h s|k0]; simpl in *.
  - rewrite lookup_insert in Hk'. case_decide; [congruence|by apply Hm].
  - rewrite lookup_delete in Hk'. case_decide; [by destruct Hk'|by apply Hm].
Qed.

(** ** Keys that do not fit *)

Lemma prefix_lookup_eq (p q : list Z) i x : p `prefix_of` q -> p !! i = Some x -> q !! i = Some x.
Proof. intros [k ->] Hi. by apply lookup_app_l_Some. Qed.

Lemma nib_of_prefix k k' i :
  path k `prefix_of` path k' -> (i < length (path k))%nat -> nib k i = nib k' i.
Proof.
  intros Hp Hi. destruct (lookup_lt_is_Some_2 _ _ Hi) as [x Hx].
  by rewrite !nib_path, Hx, (prefix_lookup_eq _ _ _ _ Hp Hx).
Qed.

Lemma nib_beyond k i : (length (path k) <= i)%nat -> nib k i = -1.
Proof. intros Hi. by rewrite nib_path, lookup_ge_None_2. Qed.

Lemma set_two_panic {B} x y (a c : node) (f : list (option node) -> result B) :
  x = -1 \/ y = -1 ->
  0 <= x < 64 \/ x = -1 ->
  (cs ← set_index noChildren x (Some a); cs ← set_index cs y (Some c); f cs) = Panic.
Proof.
  intros Hxy [Hx| ->]; [|done]. assert (y = -1) as -> by lia.
  rewrite set_index_Ok by done. cbn [mbind result_bind]. unfold set_index.
  by rewrite decide_False by lia.
Qed.

Section Panics.
Context (key : bytes) (value : option bytes) (hashTarget : bytes) (size : Z).

Lemma insertLeaf_panics pre l :
  pre `prefix_of` path (Key l) -> pre `prefix_of` path key -> ~ compat (Key l) key ->
  insertLeaf key value hashTarget size l (BranchBits * Z.of_nat (length pre)) = Panic.
Proof.
  intros Hl Hk Hc. unfold insertLeaf. destruct (decide (Key l = key)) as [E|Hne].
  { exfalso. apply Hc. by left. }
  rewrite getNibblesUntilDiverge_spec.
  2:{ intros E. apply Hne, path_inj.
      rewrite (prefix_drop _ _ Hl), (prefix_drop _ _ Hk), E. done. }
  set (com := lcp _ _). rewrite <- length_app. cbn [mbind result_bind].
  fold (nib (Key l) (length (pre ++ com))). fold (nib key (length (pre ++ com))).
  assert (path (Key l) = pre ++ com \/ path key = pre ++ com) as Hend.
  { destruct (decide (path (Key l) `prefix_of` path key)) as [Hp|Hp].
    - left. rewrite (prefix_drop _ _ Hl). f_equal. subst com.
      destruct Hp as [r Hr]. rewrite Hr, drop_app_le by (by apply prefix_length).
      symmetry. apply prefix_length_eq; [apply lcp_l|].
      apply prefix_length, lcp_greatest; [done|by eexists].
    - destruct (decide (path key `prefix_of` path (Key l))) as [Hp'|Hp'].
      2:{ exfalso. apply Hc. by right. }
      right. rewrite (prefix_drop _ _ Hk). f_equal. subst com.
      destruct Hp' as [r Hr]. rewrite Hr, drop_app_le by (by apply prefix_length).
      symmetry. apply prefix_length_eq; [apply lcp_r|].
      apply prefix_length, lcp_greatest; [by eexists|done]. }
  apply set_two_panic.
  - destruct Hend as [E|E]; [left|right]; apply nib_beyond; by rewrite E.
  - destruct (decide (length (pre ++ com) < length (path (Key l))))%nat as [Hlt|Hge].
    + left. apply nib_range. by rewrite <- path_length.
    + right. apply nib_beyond. lia.
Qed.

Lemma insertNode_panics pre n l :
  wf pre n -> pre `prefix_of` path key -> l ∈ leaves n -> ~ compat (Key l) key ->
  insertNode key value hashTarget size n (BranchBits * Z.of_nat (length pre)) = Panic.
Proof.
  intros Hwf. revert l. induction Hwf as [pre l' Hp|pre b Hlen Hch IH Htwo]; intros l Hk Hl Hc.
  { simpl in Hl. apply list_elem_of_singleton in Hl as ->. by apply insertLeaf_panics. }
  assert (wf pre (BranchNode b)) as Hwf by (by constructor).
  pose proof Hl as (i & c & Hi & Hlc)%elem_leaves.
  pose proof (wf_leaves_child _ _ _ _ _ Hwf Hi Hlc) as Hpl. rewrite app_assoc in Hpl.
  pose proof (prefix_app_split _ _ _ Hpl) as HplP.
  assert (path (Key l) `prefix_of` path key \/ path key `prefix_of` path (Key l)) as Hcmp.
  { destruct (decide (path (Key l) `prefix_of` path key)); [by left|].
    destruct (decide (path key `prefix_of` path (Key l))); [by right|].
    exfalso. apply Hc. by right. }
  cbn [insertNode]. pose proof (prefixMismatch_wf key pre b Hwf Hk) as Hm.
  destruct (prefixMismatch key _ 0 (Prefix b)) as [[[k e] a]|] eqn:Em.
  - destruct Hm as (j & -> & He & Ha & Hne & Hkj).
    assert (pre ++ take j (Prefix b) ++ [e] `prefix_of` path (Key l)) as Hle.
    { etransitivity; [|exact HplP]. apply prefix_app. exists (drop (S j) (Prefix b)).
      rewrite <- app_assoc. symmetry. by apply take_drop_middle. }
    rewrite app_assoc in Hle. pose proof (nib_prefix _ _ _ Hle) as Hnl.
    unfold insertSplit. apply set_two_panic.
    + right. rewrite <- Ha. apply nib_beyond.
      destruct Hcmp as [Hcmp|Hcmp].
      * exfalso. apply Hne. rewrite <- Ha. apply nib_prefix. by etransitivity.
      * destruct (decide (length (pre ++ take j (Prefix b)) < length (path key)))%nat; [|lia].
        exfalso. apply Hne. rewrite <- Ha, <- Hnl. by apply nib_of_prefix.
    + left. rewrite <- Hnl. apply nib_range. rewrite <- path_length.
      apply prefix_length in Hle. rewrite length_app in Hle. simpl in Hle. lia.
  - rewrite depth_next. fold (nib key (length (pre ++ Prefix b))).
    destruct (Z.ltb_spec (nib key (length (pre ++ Prefix b))) 0) as [|Hpos]; [done|].
    assert (nib key (length (pre ++ Prefix b)) = Z.of_nat i) as Hx.
    { rewrite <- (nib_prefix _ _ _ Hpl). apply nib_nonneg_iff in Hpos.
      apply prefix_length in Hpl. rewrite length_app in Hpl. simpl in Hpl.
      destruct Hcmp as [H|H]; [symmetry|]; apply nib_of_prefix; (done || lia). }
    rewrite Hx, nth_with_lookup, Nat2Z.id, Hi, (depth_child pre (Prefix b) (Z.of_nat i)).
    rewrite (IH _ _ Hi l); [done| |done|done].
    rewrite app_assoc. destruct (prefix_drop _ _ Hm).
    apply agree_prefix with (P := [Z.of_nat i]); [done| |].
    + apply Forall_singleton. lia.
    + intros [|?] x E; simpl in E; [|done]. simplify_eq. by rewrite Nat.add_0_r.
Qed.
End Panics.

(** ** Properties *)

(** C1: Any sequence of Insert and Delete calls on keys of one non-zero length,
    from any well-formed tree holding keys of that length, succeeds (no error, no
    panic, no divergence), leaves a well-formed tree, and the tree stores exactly
    the finite map that the same sequence of map insertions and deletions gives. *)
Theorem tree_ops_refine_map (len : nat) (t : VectorCommitmentTree) (os : list treeOp) :
  (0 < len)%nat -> wf_tree t -> keysOfLength len (contents t) ->
  Forall (fun o => length (opKey o) = len) os ->
  exists t', runOps t os = Ok t' /\ wf_tree t' /\ keysOfLength len (contents t')
    /\ contents t' = foldl specOp (contents t) os.
Proof.
  intros Hlen Hwf Hk Hos. revert t Hwf Hk. induction Hos as [|o os Ho Hos IH]; intros t Hwf Hk.
  - by exists t.
  - rewrite runOps_cons.
    destruct (applyOp_spec t o Hwf) as (t1 & -> & Hwf1 & E1).
    { apply keysOfLength_fits with len; [done|done|]. intros E. rewrite E in Ho. simpl in Ho. lia. }
    cbn [mbind result_bind]. destruct (IH t1 Hwf1) as (t' & -> & Hwf' & Hk' & E').
    { rewrite E1. by apply keysOfLength_op. }
    exists t'. split_and!; [done|done|done|]. by rewrite E', E1.
Qed.

(** C2: On a well-formed tree, Get of a key that fits returns the stored value,
    and the "key not found" error exactly when the key is absent or was stored
    with a nil value; it never panics. *)
Theorem tree_get_reads_map (t : VectorCommitmentTree) (key : bytes) :
  wf_tree t -> keyFits (contents t) key ->
  Get t key = match contents t !! key with
              | Some (Some v, _, _) => Ok v
              | _ => Err errKeyNotFound
              end.
Proof. apply Get_spec. Qed.

(** Insert of a non-empty key into a well-formed tree panics (index out of
    range) exactly when the nibble path of the key is a proper prefix of the path
    of a stored key or extends one; in particular it never loops forever in
    getNibblesUntilDiverge and never stores under a wrong path. *)
Theorem tree_insert_panics_iff (t : VectorCommitmentTree) (key : bytes)
    (value : option bytes) (hashTarget : bytes) (size : Z) :
  wf_tree t -> key <> [] ->
  Insert t key value hashTarget size = Panic <-> ~ keyFits (contents t) key.
Proof.
  intros Hwf Hne. split.
  - intros HP Hfit. destruct (Insert_spec t key value hashTarget size Hwf Hfit) as (t' & E & _).
    congruence.
  - intros Hn.
    destruct (decide (Forall (fun l => compat (Key l) key) (leaves_opt (Root t)))) as [Hall|Hex].
    { exfalso. apply Hn. split; [done|]. intros k Hk. apply contents_of_dom in Hk as (l & Hl & <-).
      rewrite Forall_forall in Hall. by apply Hall. }
    apply not_Forall_Exists in Hex; [|apply _].
    apply Exists_exists in Hex as (l & Hl & Hc).
    unfold Insert. rewrite decide_False by done. unfold wf_tree in Hwf.
    destruct (Root t) as [n|]; [|by apply not_elem_of_nil in Hl].
    cbn [insert]. change 0 with (BranchBits * Z.of_nat (length (@nil Z))).
    by rewrite (insertNode_panics key value hashTarget size [] n l Hwf (prefix_nil _) Hl Hc).
Qed.

(** *** Witnesses *)

Definition emptyTree : VectorCommitmentTree := mkTree None.

Definition demoOps : list treeOp :=
  [ OpInsert [Byte.x01; Byte.x02] (Some [Byte.xaa]) [] 10;
    OpInsert [Byte.x01; Byte.x03] (Some [Byte.xbb]) [Byte.xcc] 20;
    OpInsert [Byte.xf1; Byte.x03] (Some [Byte.xdd]) [] 5;
    OpDelete [Byte.x01; Byte.x02] ].

Lemma tree_ops_refine_map_witness :
  exists t', runOps emptyTree demoOps = Ok t' /\ wf_tree t' /\ keysOfLength 2 (contents t')
    /\ contents t' = foldl specOp (contents emptyTree) demoOps.
Proof.
  apply (tree_ops_refine_map 2 emptyTree demoOps); [lia|done| |].
  - intros k [e He]. vm_compute in He. discriminate He.
  - repeat constructor.
Defined.

Lemma demo_leaf_wf l : wf_tree (mkTree (Some (LeafNode l))).
Proof. unfold wf_tree. simpl. constructor. apply prefix_nil. Qed.

Lemma demo_leaf_dom l k :
  is_Some (contents (mkTree (Some (LeafNode l))) !! k) -> k = Key l.
Proof. intros H. apply contents_of_dom in H as (l' & Hl & <-). simpl in Hl.
  by apply list_elem_of_singleton in Hl as ->. Qed.

Definition demoLeaf : leaf := mkLeaf [Byte.x01; Byte.x02] (Some [Byte.xaa]) [] [] 1.

Lemma tree_get_reads_map_witness :
  Get (mkTree (Some (LeafNode demoLeaf))) [Byte.x01; Byte.x02] = Ok [Byte.xaa].
Proof.
  rewrite (tree_get_reads_map (mkTree (Some (LeafNode demoLeaf))) [Byte.x01; Byte.x02]).
  - reflexivity.
  - apply demo_leaf_wf.
  - split; [done|]. intros k Hk. apply demo_leaf_dom in Hk as ->. by left.
Defined.

Lemma tree_insert_panics_iff_witness :
  Insert (mkTree (Some (LeafNode demoLeaf))) [Byte.x01] None [] 0 = Panic
  <-> ~ keyFits (contents (mkTree (Some (LeafNode demoLeaf)))) [Byte.x01].
Proof.
  apply (tree_insert_panics_iff (mkTree (Some (LeafNode demoLeaf))) [Byte.x01] None [] 0).
  - apply demo_leaf_wf.
  - discriminate.
Defined.
