(* ===== verification/ProofTreeMeta.v ===== *)
(** * Metadata of the vector commitment tree

    Branch nodes keep a leaf count, a total size and a longest-branch length that
    Insert and Delete maintain incrementally.  This file shows that the leaf count
    is always exact, that the size is exact as long as updates keep the size of an
    entry, and exhibits the runs on which the size and the longest branch are not
    what they stand for. *)

From S2P Require Import Prelude Nibbles ProofTree ProofTreeWf ProofTreeOps ProofTreeMap.

(** Every branch below (and including) a node satisfies [P]. *)
Inductive everyBranch (P : branch -> Prop) : node -> Prop :=
| every_leaf l : everyBranch P (LeafNode l)
| every_branch b : P b ->
    (forall i c, Children b !! i = Some (Some c) -> everyBranch P c) ->
    everyBranch P (BranchNode b).

Definition everyBranchOpt (P : branch -> Prop) (o : option node) : Prop :=
  forall n, o = Some n -> everyBranch P n.

Lemma everyBranch_inv P b :
  everyBranch P (BranchNode b) ->
  P b /\ forall i c, Children b !! i = Some (Some c) -> everyBranch P c.
Proof. inversion 1; subst; auto. Qed.

Definition sumSizes (ls : list leaf) : Z := foldr (fun l z => LeafSize l + z) 0 ls.

Lemma sumSizes_app a b : sumSizes (a ++ b) = sumSizes a + sumSizes b.
Proof. induction a as [|l a IH]; simpl; [done|]. unfold sumSizes in *. lia. Qed.

#[export] Instance sumSizes_perm : Proper ((≡ₚ) ==> (=)) sumSizes.
Proof. intros a b Hp. induction Hp; simpl; unfold sumSizes in *; lia. Qed.

Definition countOk (b : branch) : Prop :=
  LeafCount b = Z.of_nat (length (leaves (BranchNode b))).
Definition sizeOk (b : branch) : Prop := BranchSize b = sumSizes (leaves (BranchNode b)).

Lemma nodeSize_ok n : everyBranch sizeOk n -> nodeSize n = sumSizes (leaves n).
Proof. destruct n as [l|b]; [simpl; lia|]. intros [H _]%everyBranch_inv. done. Qed.

(** An insertion that does not change the size of an entry. *)
Definition sameSize (key : bytes) (size : Z) (ls : list leaf) : Prop :=
  forall l, l ∈ ls -> Key l = key -> LeafSize l = size.

(** ** Insert *)

Lemma every_two P (i : nat) a (j : nat) c b :
  Children b = twoChildren i a j c -> (i < 64)%nat -> (j < 64)%nat -> i <> j ->
  P b -> everyBranch P a -> everyBranch P c -> everyBranch P (BranchNode b).
Proof.
  intros E Hi Hj Hne Hb Ha Hc. constructor; [done|]. intros k x Hk. rewrite E in Hk.
  apply twoChildren_lookup in Hk as [[_ ->]|[_ ->]]; done.
Qed.

(** The children of a result of [set_two], wherever the indices come from. *)
Lemma set_two_inv {B} x y (a c : node) (f : list (option node) -> result B) r :
  (cs ← set_index noChildren x (Some a); cs ← set_index cs y (Some c); f cs) = Ok r ->
  0 <= x < 64 /\ 0 <= y < 64 /\ f (twoChildren (Z.to_nat x) a (Z.to_nat y) c) = Ok r.
Proof.
  intros H. apply result_bind_Ok in H as (cs1 & H1 & H).
  apply result_bind_Ok in H as (cs2 & H2 & H). unfold set_index in H1, H2.
  destruct (decide _) as [Hx|]; [|done]. injection H1 as <-.
  destruct (decide _) as [Hy|]; [|done]. injection H2 as <-.
  rewrite length_insert in Hy. change (Z.of_nat (length noChildren)) with 64 in *. done.
Qed.

Section Insert.
Context (key : bytes) (value : option bytes) (hashTarget : bytes) (size : Z).
Local Abbreviation insertN := (insertNode key value hashTarget size).

(** [P] is a per-branch property that only depends on the fields given to it
    and on the leaves. Its preservation by the three ways Insert builds a
    branch is what each metadata field has to show. *)
Context (P : branch -> Prop).
Context (ok : list leaf -> Prop).
Hypothesis P_prefix : forall b p cm, cm = [] \/ cm = BranchCommitment b ->
  P b -> P (mkBranch p (Children b) cm (BranchSize b) (LeafCount b) (LongestBranch b)).
Hypothesis P_leaf : forall l p cs,
  leaves (BranchNode (mkBranch p cs [] (LeafSize l + size) 2 1))
    ≡ₚ [l] ++ [newLeaf key value hashTarget size] ->
  P (mkBranch p cs [] (LeafSize l + size) 2 1).
Hypothesis P_split : forall b p cs,
  P b ->
  leaves (BranchNode (mkBranch p cs [] (BranchSize b + size) (LeafCount b + 1)
                        (LongestBranch b + 1)))
    ≡ₚ leaves (BranchNode b) ++ [newLeaf key value hashTarget size] ->
  P (mkBranch p cs [] (BranchSize b + size) (LeafCount b + 1) (LongestBranch b + 1)).
Hypothesis P_update : forall b p cs delta longest,
  P b -> ok (leaves (BranchNode b)) -> NoDup (Key <$> leaves (BranchNode b)) ->
  let n' := mkBranch p cs [] (if negb (delta =? 0) then BranchSize b + size else BranchSize b)
              (LeafCount b + delta) longest in
  leaves (BranchNode n') ≡ₚ newLeaf key value hashTarget size
                            :: without key (leaves (BranchNode b)) ->
  delta = Z.of_nat (length (leaves (BranchNode n')))
          - Z.of_nat (length (leaves (BranchNode b))) ->
  P n'.
Hypothesis ok_child : forall b i c, Children b !! i = Some (Some c) ->
  ok (leaves (BranchNode b)) -> ok (leaves c).

(** The branch that a new leaf makes of an old one. *)
Lemma insertLeaf_every pre l d n' :
  pre `prefix_of` path (Key l) -> pre `prefix_of` path key -> compat (Key l) key ->
  insertLeaf key value hashTarget size l (BranchBits * Z.of_nat (length pre)) = Ok (d, n') -> everyBranch P n'.
Proof using P_leaf P_split P_update.
  intros Hp Hk Hc Hins.
  destruct (insertLeaf_spec key value hashTarget size pre l Hp Hk) as (d0 & n0 & E & _ & Hlv & _).
  { done. }
  rewrite Hins in E. simplify_eq.
  unfold insertLeaf in Hins. destruct (decide (Key l = key)) as [Ek|Ek].
  { simplify_eq. constructor. }
  apply result_bind_Ok in Hins as ([com dd] & _ & Hins).
  apply set_two_inv in Hins as (Hx & Hy & Hr). simplify_eq.
  set (x := getNextNibble (Key l) dd) in *. set (y := getNextNibble key dd) in *.
  destruct (decide (x = y)) as [Exy|Exy].
  { exfalso. unfold twoChildren in Hlv. rewrite Exy, list_insert_insert_eq in Hlv.
    assert (l ∈ [newLeaf key value hashTarget size]) as Hin.
    { assert (l ∈ newLeaf key value hashTarget size :: without key [l]) as Hin.
      { right. unfold without. rewrite filter_cons_True by done. left. }
      rewrite <- Hlv in Hin. apply elem_leaves in Hin as (i & c & Hi & Hl).
      simpl in Hi. apply list_lookup_insert_Some in Hi as [(_ & E & _)|[_ Hi]].
      { injection E as <-. done. }
      unfold noChildren in Hi. apply lookup_replicate in Hi as [Hi _]. done. }
    apply list_elem_of_singleton in Hin. by rewrite Hin in Ek. }
  eapply every_two; [done|lia..| |constructor|constructor].
  apply P_leaf. etransitivity; [eapply leaves_two; [done|lia..]|done].
Qed.

Lemma insertNode_every pre n d n' :
  wf pre n -> pre `prefix_of` path key -> (forall l, l ∈ leaves n -> compat (Key l) key) ->
  ok (leaves n) -> everyBranch P n ->
  insertN n (BranchBits * Z.of_nat (length pre)) = Ok (d, n') -> everyBranch P n'.
Proof using P_prefix P_leaf P_split P_update ok_child.
  intros Hwf. revert d n'.
  induction Hwf as [pre l Hp|pre b Hlen Hch IH Htwo]; intros d n' Hk Hc Hok Hev Hins.
  { eapply insertLeaf_every; [done..| |done]. apply Hc. by apply list_elem_of_singleton. }
  assert (wf pre (BranchNode b)) as Hwf by (by constructor).
  destruct (everyBranch_inv _ _ Hev) as [HP Hevc].
  destruct (insertNode_spec key value hashTarget size pre _ Hwf Hk Hc) as (d0 & n0 & E & _ & Hlv & Hd).
  rewrite Hins in E. injection E as <- <-. cbn [insertNode] in Hins.
  pose proof (prefixMismatch_wf key pre b Hwf Hk) as Hm.
  destruct (prefixMismatch key _ 0 (Prefix b)) as [[[k e] a]|].
  - destruct Hm as (j & -> & He & Ha & Hne & Hk').
    apply set_two_inv in Hins as (Hx & Hy & Hr). simplify_eq.
    eapply every_two; [done|lia..| | |constructor].
    + apply P_split; [done|]. etransitivity; [eapply leaves_two; [done|lia..]|done].
    + constructor; [apply P_prefix; auto|done].
  - rewrite depth_next in Hins. fold (nib key (length (pre ++ Prefix b))) in Hins.
    destruct (descend_nibble key pre b Hwf Hm Hc) as (i & oc & Hi & Hi64 & Hoc & Hki).
    rewrite Hi in Hins. destruct (Z.ltb_spec (Z.of_nat i) 0); [lia|].
    rewrite nth_with_lookup, Nat2Z.id, Hoc in Hins.
    apply result_bind_Ok in Hins as ([delta c'] & Hchild & Hins). simpl in Hins.
    assert (everyBranch P c') as Hc'.
    { destruct oc as [c|]; [|simplify_eq; constructor].
      rewrite (depth_child pre (Prefix b) (Z.of_nat i)) in Hchild.
      eapply (IH _ _ Hoc); [done| |by eapply ok_child|by eapply Hevc|done].
      intros l Hl. apply Hc, elem_leaves. eauto. }
    unfold insertUpdate in Hins. rewrite set_index_Ok, Nat2Z.id in Hins.
    2:{ change (Z.to_nat BranchNodes) with 64%nat in Hlen. lia. }
    cbn [mbind result_bind] in Hins. injection Hins as -> <-.
    constructor.
    + eapply P_update; [done|done|by eapply wf_nodup|done|done].
    + simpl. intros m c Hmc. apply list_lookup_insert_Some in Hmc as [(-> & E & _)|[_ Hmc]].
      * by simplify_eq.
      * by eapply Hevc.
Qed.
End Insert.

(** ** Delete *)

Lemma leaves_branch_mk p cs cm sz lc lb :
  leaves (BranchNode (mkBranch p cs cm sz lc lb)) = cs ≫= leaves_opt.
Proof. done. Qed.

(** Removing below a branch, described by the child the key descends to. *)
Lemma removeNode_branch key pre b size on :
  wf pre (BranchNode b) -> pre `prefix_of` path key ->
  (forall l, l ∈ leaves (BranchNode b) -> compat (Key l) key) ->
  removeNode key (BranchNode b) (BranchBits * Z.of_nat (length pre)) = Ok (size, on) ->
  (size = 0 /\ on = Some (BranchNode b))
  \/ exists i oc oc', Children b !! i = Some oc /\ (i < length (Children b))%nat
     /\ match oc with
        | None => size = 0 /\ oc' = None
        | Some c => removeNode key c
            (BranchBits * Z.of_nat (length (pre ++ Prefix b ++ [Z.of_nat i]))) = Ok (size, oc')
            /\ pre ++ Prefix b ++ [Z.of_nat i] `prefix_of` path key
        end
     /\ on = removeCollapse b (<[i:=oc']> (Children b)) size.
Proof.
  intros Hwf Hk Hc H. cbn [removeNode] in H.
  pose proof (wf_branch_inv _ _ Hwf) as (Hlen & _ & _).
  pose proof (prefixMismatch_wf key pre b Hwf Hk) as Hm.
  destruct (prefixMismatch key _ 0 (Prefix b)) as [[[k e] a]|].
  { left. injection H as <- <-. done. }
  right. rewrite depth_next in H. fold (nib key (length (pre ++ Prefix b))) in H.
  destruct (descend_nibble key pre b Hwf Hm Hc) as (i & oc & Hi & Hi64 & Hoc & Hki).
  rewrite Hi in H. destruct (Z.ltb_spec (Z.of_nat i) 0); [lia|].
  rewrite nth_with_lookup, Nat2Z.id, Hoc in H.
  apply result_bind_Ok in H as ([sz oc'] & Hchild & H). simpl in H.
  rewrite set_index_Ok, Nat2Z.id in H by lia. cbn [mbind result_bind] in H.
  injection H as <- <-. exists i, oc, oc'. split_and!; [done|lia| |done].
  destruct oc as [c|]; [|by injection Hchild as <- <-].
  by rewrite (depth_child pre (Prefix b) (Z.of_nat i)) in Hchild.
Qed.

(** The size reported by the closure is that of the removed leaf. *)
Lemma removeNode_size key pre n size on :
  wf pre n -> pre `prefix_of` path key -> (forall l, l ∈ leaves n -> compat (Key l) key) ->
  removeNode key n (BranchBits * Z.of_nat (length pre)) = Ok (size, on) ->
  size = sumSizes (leaves n) - sumSizes (leaves_opt on).
Proof.
  intros Hwf. revert size on. induction Hwf as [pre l Hp|pre b Hlen Hch IH Htwo];
    intros size on Hk Hc H.
  { cbn [removeNode] in H. destruct (decide _); injection H as <- <-; cbn; lia. }
  assert (wf pre (BranchNode b)) as Hwf by (by constructor).
  destruct (removeNode_spec key pre _ Hwf Hk Hc) as (s0 & o0 & E & Hlv & _).
  rewrite H in E. injection E as <- <-. rewrite Hlv.
  apply (removeNode_branch key pre b size on Hwf Hk Hc) in H
    as [[-> ->]|(i & oc & oc' & Hoc & Hi & Hchild & ->)].
  { cbn [leaves_opt] in Hlv. rewrite <- Hlv. lia. }
  assert (nib key (length (pre ++ Prefix b)) = Z.of_nat i \/ oc = None) as Hnib.
  { destruct oc as [c|]; [left|by right]. destruct Hchild as [_ Hki].
    rewrite app_assoc in Hki. by apply nib_prefix. }
  destruct oc as [c|].
  - destruct Hnib as [Hnib|]; [|done]. destruct Hchild as [Hchild Hki].
    assert (forall l, l ∈ leaves c -> compat (Key l) key) as Hcc.
    { intros l Hl. apply Hc, elem_leaves. eauto. }
    rewrite (without_around pre b i key (Some c)), (leaves_around b i (Some c)) by done.
    rewrite !sumSizes_app. cbn [leaves_opt].
    destruct (removeNode_spec key _ c (Hch _ _ Hoc) Hki Hcc) as (s1 & o1 & E & Hlv1 & _).
    rewrite Hchild in E. injection E as <- <-. rewrite <- Hlv1.
    rewrite (IH _ _ Hoc size oc' Hki Hcc Hchild). lia.
  - destruct Hchild as [-> ->]. rewrite <- Hlv.
    pose proof (removeCollapse_spec pre b (<[i:=None]> (Children b)) 0) as Hcol.
    rewrite (list_insert_id (Children b) i None) in * by done.
    destruct (removeCollapse b (Children b) 0) as [n'|].
    + destruct Hcol as [_ Hl]; [done|done|]. cbn [leaves_opt]. rewrite Hl, leaves_branch. lia.
    + rewrite leaves_branch, Hcol by done. done.
Qed.

Section Delete.
Context (key : bytes) (P : branch -> Prop).
Hypothesis P_prefix : forall b p cm, cm = [] \/ cm = BranchCommitment b ->
  P b -> P (mkBranch p (Children b) cm (BranchSize b) (LeafCount b) (LongestBranch b)).
Hypothesis P_collapse : forall b cs size,
  P b -> (forall i c, cs !! i = Some (Some c) -> everyBranch P c) ->
  size = sumSizes (leaves (BranchNode b)) - sumSizes (cs ≫= leaves_opt) ->
  let s := scanChildren 0 cs (mkScan 0 None 0 1 0) in
  P (mkBranch (Prefix b) cs [] (BranchSize b - size) (scanLeaves s) (scanLongest s)).

Lemma removeCollapse_every b cs size :
  P b -> (forall i c, cs !! i = Some (Some c) -> everyBranch P c) ->
  size = sumSizes (leaves (BranchNode b)) - sumSizes (cs ≫= leaves_opt) ->
  everyBranchOpt P (removeCollapse b cs size).
Proof using P_prefix P_collapse.
  intros HP Hcs Hsz n' Hn'. unfold removeCollapse in Hn'.
  destruct (scanChildren_spec 0 cs (mkScan 0 None 0 1 0)) as [Hc Hl]. cbv zeta in *.
  change (Z.of_nat 0) with 0 in *. set (s := scanChildren 0 cs _) in *. simpl in Hc.
  destruct (childCount s =? 0); [done|]. destruct (Z.eqb_spec (childCount s) 1) as [E|E].
  - destruct (somes 0 cs) as [|[i c] [|q ps]] eqn:Eps; simpl in Hc; [lia| |lia].
    simpl in Hl. destruct Hl as [Hlc Hli]. rewrite Hlc in Hn'.
    assert ((i, c) ∈ somes 0 cs) as (k & -> & Hk)%elem_somes by (rewrite Eps; left).
    specialize (Hcs _ _ Hk). destruct c as [l|cb].
    + injection Hn' as <-. done.
    + injection Hn' as <-. apply everyBranch_inv in Hcs as [HPc Hcc].
      constructor; [apply P_prefix; auto|done].
  - injection Hn' as <-. constructor; [by apply P_collapse|done].
Qed.

Lemma removeNode_every pre n size on :
  wf pre n -> pre `prefix_of` path key -> (forall l, l ∈ leaves n -> compat (Key l) key) ->
  everyBranch P n -> removeNode key n (BranchBits * Z.of_nat (length pre)) = Ok (size, on) ->
  everyBranchOpt P on.
Proof using P_prefix P_collapse.
  intros Hwf. revert size on. induction Hwf as [pre l Hp|pre b Hlen Hch IH Htwo];
    intros size on Hk Hc Hev H.
  { cbn [removeNode] in H.
    destruct (decide _); injection H as <- <-; intros n' Hn'; simplify_eq; done. }
  assert (wf pre (BranchNode b)) as Hwf by (by constructor).
  destruct (everyBranch_inv _ _ Hev) as [HP Hevc].
  pose proof (removeNode_size key pre _ size on Hwf Hk Hc H) as Hsz.
  apply (removeNode_branch key pre b size on Hwf Hk Hc) in H
    as [[-> ->]|(i & oc & oc' & Hoc & Hi & Hchild & ->)].
  { by intros n' [= <-]. }
  assert (everyBranchOpt P oc') as Hoc'.
  { destruct oc as [c|]; [|by destruct Hchild as [_ ->]]. destruct Hchild as [Hchild Hki].
    eapply (IH _ _ Hoc); [done| |by eapply Hevc|done].
    intros l Hl. apply Hc, elem_leaves. eauto. }
  assert (forall k c, <[i:=oc']> (Children b) !! k = Some (Some c) -> everyBranch P c) as Hcs.
  { intros k c Hkc. apply list_lookup_insert_Some in Hkc as [(_ & E & _)|[_ Hkc]];
      [by apply Hoc'|by eapply Hevc]. }
  apply removeCollapse_every; [done|done|]. rewrite Hsz at 1. f_equal. f_equal.
  pose proof (removeCollapse_spec pre b (<[i:=oc']> (Children b)) size) as Hcol.
  assert (forall k c, <[i:=oc']> (Children b) !! k = Some (Some c) ->
            wf (pre ++ Prefix b ++ [Z.of_nat k]) c) as Hwfc.
  { intros k c Hkc. apply list_lookup_insert_Some in Hkc as [(-> & E & _)|[_ Hkc]];
      [|by apply Hch]. subst oc'. destruct oc as [c0|]; [|naive_solver].
    destruct Hchild as [Hchild Hki].
    destruct (removeNode_spec key _ c0 (Hch _ _ Hoc) Hki) as (s1 & o1 & E1 & _ & Hw1).
    { intros l Hl. apply Hc, elem_leaves. eauto. }
    rewrite Hchild in E1. injection E1 as <- <-. by apply Hw1. }
  destruct (removeCollapse b _ size) as [n'|].
  - simpl. apply Hcol; [by rewrite length_insert|done].
  - simpl. symmetry. apply Hcol; [by rewrite length_insert|done].
Qed.
End Delete.

(** ** The leaf count *)

Lemma scanLeaves_spec cs i s :
  (forall k c, cs !! k = Some (Some c) -> everyBranch countOk c) ->
  scanLeaves (scanChildren i cs s) = scanLeaves s + Z.of_nat (length (cs ≫= leaves_opt)).
Proof.
  revert i s. induction cs as [|[c|] cs IH]; intros i s Hcs; [simpl; lia| |].
  - rewrite bind_cons, length_app.
    pose proof (Hcs 0%nat c eq_refl) as Hc0. cbn [scanChildren].
    destruct c as [l|cb]; cbn [leaves_opt].
    + rewrite IH by (intros k c Hk; by apply (Hcs (S k))). simpl. lia.
    + rewrite IH by (intros k c Hk; by apply (Hcs (S k))). cbn [scanLeaves].
      apply everyBranch_inv in Hc0 as [Hc0 _]. unfold countOk in Hc0. rewrite Hc0. lia.
  - apply IH. intros k c Hk. by apply (Hcs (S k)).
Qed.

Lemma without_absent_or key ls :
  NoDup (Key <$> ls) ->
  without key ls = ls \/ exists l, l ∈ ls /\ Key l = key /\ ls ≡ₚ l :: without key ls.
Proof.
  induction ls as [|l ls IH]; intros Hnd; [by left|].
  rewrite fmap_cons in Hnd. apply NoDup_cons in Hnd as [Hn Hnd].
  unfold without. rewrite filter_cons. destruct (decide (Key l = key)) as [E|E].
  - rewrite decide_False by naive_solver. right. exists l. split_and!; [left|done|].
    assert (without key ls = ls) as Ew.
    { apply without_id. intros l' Hl' E'. apply Hn. rewrite E, <- E'. by apply list_elem_of_fmap_2. }
    unfold without in Ew. by rewrite Ew.
  - rewrite decide_True by done. destruct (IH Hnd) as [Ew|(l' & Hl' & E' & Hp)].
    + left. unfold without in Ew. by rewrite Ew.
    + right. exists l'. split_and!; [by right|done|].
      unfold without in Hp. rewrite Hp at 1. apply perm_swap.
Qed.

(** [ok] for the leaf count is always true. *)
Lemma insertNode_count key value hashTarget size pre n d n' :
  wf pre n -> pre `prefix_of` path key -> (forall l, l ∈ leaves n -> compat (Key l) key) ->
  everyBranch countOk n ->
  insertNode key value hashTarget size n (BranchBits * Z.of_nat (length pre)) = Ok (d, n') ->
  everyBranch countOk n'.
Proof.
  intros Hwf Hk Hc Hev H.
  refine (insertNode_every key value hashTarget size countOk (fun _ => True)
            _ _ _ _ _ pre n d n' Hwf Hk Hc I Hev H); clear; unfold countOk.
  - done.
  - intros l p cs Hp. by rewrite Hp.
  - intros b p cs Hb Hp. rewrite Hp, length_app. cbn [LeafCount length]. lia.
  - intros b p cs delta longest Hb _ _. cbv zeta. intros _ Hd.
    rewrite leaves_branch_mk in *. cbn [LeafCount]. lia.
  - done.
Qed.

Lemma removeNode_count key pre n size on :
  wf pre n -> pre `prefix_of` path key -> (forall l, l ∈ leaves n -> compat (Key l) key) ->
  everyBranch countOk n ->
  removeNode key n (BranchBits * Z.of_nat (length pre)) = Ok (size, on) ->
  everyBranchOpt countOk on.
Proof.
  intros Hwf Hk Hc Hev H.
  refine (removeNode_every key countOk _ _ pre n size on Hwf Hk Hc Hev H); clear; [done|].
  intros b cs size _ Hcs _ s. unfold countOk. subst s. cbn [LeafCount].
  rewrite leaves_branch_mk, (scanLeaves_spec cs 0 _ Hcs). simpl. lia.
Qed.

(** ** The size *)

Lemma insertNode_size key value hashTarget size pre n d n' :
  wf pre n -> pre `prefix_of` path key -> (forall l, l ∈ leaves n -> compat (Key l) key) ->
  sameSize key size (leaves n) -> everyBranch sizeOk n ->
  insertNode key value hashTarget size n (BranchBits * Z.of_nat (length pre)) = Ok (d, n') ->
  everyBranch sizeOk n'.
Proof.
  intros Hwf Hk Hc Hok Hev H.
  refine (insertNode_every key value hashTarget size sizeOk (sameSize key size)
            _ _ _ _ _ pre n d n' Hwf Hk Hc Hok Hev H); clear; unfold sizeOk.
  - auto.
  - intros l p cs Hp. rewrite Hp. simpl. lia.
  - intros b p cs Hb Hp. rewrite Hp, sumSizes_app. cbn [BranchSize]. rewrite Hb. simpl. lia.
  - intros b p cs delta longest Hb Hok Hnd. cbv zeta. intros Hp Hd.
    rewrite Hp. rewrite Hp in Hd. cbn [BranchSize]. rewrite Hb. cbn [length] in Hd.
    change (sumSizes (newLeaf key value hashTarget size :: ?ls)) with (size + sumSizes ls).
    destruct (without_absent_or key _ Hnd) as [E|(l & Hl & E & Hpl)].
    + rewrite E in *. destruct (Z.eqb_spec delta 0); cbn [negb]; lia.
    + apply Permutation_length in Hpl as Hlen. cbn [length] in Hlen.
      pose proof (sumSizes_perm _ _ Hpl) as Hsum.
      change (sumSizes (l :: ?ls)) with (LeafSize l + sumSizes ls) in Hsum.
      rewrite (Hok l Hl E) in Hsum. destruct (Z.eqb_spec delta 0); cbn [negb]; lia.
  - intros b i c Hi Hok l Hl. apply Hok, elem_leaves. eauto.
Qed.

Lemma removeNode_sizeOk key pre n size on :
  wf pre n -> pre `prefix_of` path key -> (forall l, l ∈ leaves n -> compat (Key l) key) ->
  everyBranch sizeOk n ->
  removeNode key n (BranchBits * Z.of_nat (length pre)) = Ok (size, on) ->
  everyBranchOpt sizeOk on.
Proof.
  intros Hwf Hk Hc Hev H.
  refine (removeNode_every key sizeOk _ _ pre n size on Hwf Hk Hc Hev H); clear; [done|].
  intros b cs size Hb _ -> s. unfold sizeOk in *. cbn [BranchSize].
  rewrite leaves_branch_mk, Hb. lia.
Qed.

(** ** Trees and runs *)

Lemma applyOp_count t o t' :
  wf_tree t -> keyFits (contents t) (opKey o) -> everyBranchOpt countOk (Root t) ->
  applyOp t o = Ok t' -> everyBranchOpt countOk (Root t').
Proof.
  intros Hwf Hfit Hev H. pose proof (keyFits_leaves _ _ Hfit) as Hc. destruct Hfit as [Hne _].
  destruct o as [k v h s|k]; simpl in H, Hc, Hne; [unfold Insert in H|unfold Delete in H];
    rewrite decide_False in H by done; apply result_bind_Ok in H as ([d n'] & H & E);
    injection E as <-; unfold wf_tree in Hwf; simpl; destruct (Root t) as [n|].
  - intros ? [= <-].
    exact (insertNode_count _ _ _ _ [] _ _ _ Hwf (prefix_nil _) Hc (Hev _ eq_refl) H).
  - injection H as <- <-. intros ? [= <-]. constructor.
  - exact (removeNode_count _ [] _ _ _ Hwf (prefix_nil _) Hc (Hev _ eq_refl) H).
  - by injection H as <- <-.
Qed.

(** An operation that keeps the size of an entry it overwrites. *)
Definition sizeKept (m : gmap bytes entry) (o : treeOp) : Prop :=
  match o with
  | OpInsert k _ _ s => forall e, m !! k = Some e -> e.2 = s
  | OpDelete _ => True
  end.

Fixpoint sizesKept (m : gmap bytes entry) (os : list treeOp) : Prop :=
  match os with
  | [] => True
  | o :: os => sizeKept m o /\ sizesKept (specOp m o) os
  end.

Lemma applyOp_size t o t' :
  wf_tree t -> keyFits (contents t) (opKey o) -> sizeKept (contents t) o ->
  everyBranchOpt sizeOk (Root t) ->
  applyOp t o = Ok t' -> everyBranchOpt sizeOk (Root t').
Proof.
  intros Hwf Hfit Hkept Hev H. pose proof (keyFits_leaves _ _ Hfit) as Hc.
  pose proof (wf_tree_nodup t Hwf) as Hnd. destruct Hfit as [Hne _].
  destruct o as [k v h s|k]; simpl in H, Hc, Hne; [unfold Insert in H|unfold Delete in H];
    rewrite decide_False in H by done; apply result_bind_Ok in H as ([d n'] & H & E);
    injection E as <-; unfold wf_tree, contents in *; simpl; destruct (Root t) as [n|].
  - intros ? [= <-].
    refine (insertNode_size _ _ _ _ [] _ _ _ Hwf (prefix_nil _) Hc _ (Hev _ eq_refl) H).
    intros l Hl Ek. simpl in Hkept. rewrite <- Ek in Hkept.
    exact (Hkept _ (contents_of_lookup _ l Hnd Hl)).
  - injection H as <- <-. intros ? [= <-]. constructor.
  - exact (removeNode_sizeOk _ [] _ _ _ Hwf (prefix_nil _) Hc (Hev _ eq_refl) H).
  - by injection H as <- <-.
Qed.

(** Induction over a run on keys of one length: an invariant kept by each
    operation holds at the end. *)
Lemma runOps_invariant (len : nat) (I : VectorCommitmentTree -> Prop)
    (pre : gmap bytes entry -> list treeOp -> Prop) :
  (0 < len)%nat ->
  (forall t o os t', wf_tree t -> keyFits (contents t) (opKey o) -> pre (contents t) (o :: os) ->
     I t -> applyOp t o = Ok t' -> I t' /\ pre (specOp (contents t) o) os) ->
  forall os t, wf_tree t -> keysOfLength len (contents t) -> pre (contents t) os -> I t ->
  Forall (fun o => length (opKey o) = len) os ->
  exists t', runOps t os = Ok t' /\ wf_tree t' /\ I t'
    /\ contents t' = foldl specOp (contents t) os.
Proof.
  intros Hlen Hstep os. induction os as [|o os IH]; intros t Hwf Hk Hpre HI Hos; [by exists t|].
  apply Forall_cons_1 in Hos as [Ho Hos]. rewrite runOps_cons.
  assert (keyFits (contents t) (opKey o)) as Hfit.
  { apply keysOfLength_fits with len; [done|done|]. intros E. rewrite E in Ho. simpl in Ho. lia. }
  destruct (applyOp_spec t o Hwf Hfit) as (t1 & E & Hwf1 & E1). rewrite E.
  cbn [mbind result_bind].
  destruct (Hstep t o os t1 Hwf Hfit Hpre HI E) as [HI1 Hpre1].
  destruct (IH t1 Hwf1) as (t' & -> & Hwf' & HI' & E'); [|by rewrite E1|done|done|].
  { rewrite E1. by apply keysOfLength_op. }
  exists t'. split_and!; [done..|]. by rewrite E', E1.
Qed.

Lemma size_contents t :
  wf_tree t -> size (contents t) = length (leaves_opt (Root t)).
Proof.
  intros Hwf. unfold contents, contents_of. rewrite map_size_list_to_map, length_fmap; [done|].
  rewrite fst_leafEntry. by apply wf_tree_nodup.
Qed.

Definition mapSize (m : gmap bytes entry) : Z := map_fold (fun _ e z => e.2 + z) 0 m.

Lemma sum_contents t : wf_tree t -> mapSize (contents t) = sumSizes (leaves_opt (Root t)).
Proof.
  intros Hwf. unfold mapSize, contents, contents_of. apply wf_tree_nodup in Hwf.
  induction (leaves_opt (Root t)) as [|l ls IH]; [apply map_fold_empty|].
  rewrite fmap_cons in Hwf. apply NoDup_cons in Hwf as [Hn Hnd].
  rewrite fmap_cons. cbn [list_to_map foldr]. unfold leafEntry at 1. cbn [fst snd].
  etransitivity.
  - apply (map_fold_insert_L (fun _ (e : entry) z => e.2 + z)).
    + intros. lia.
    + apply not_elem_of_list_to_map. by rewrite fst_leafEntry.
  - cbn [snd]. rewrite IH by done. done.
Qed.

(** The number of entries a map holds. *)
Definition mapCount (m : gmap bytes entry) : Z := Z.of_nat (size m).

(** ** Properties *)

(** After any sequence of Insert and Delete calls on keys of one non-zero
    length, starting from the empty tree, the leaf count GetMetadata returns is
    the number of keys the map holds: neither updates nor branch splits and
    collapses make it drift. *)
Theorem leaf_count_exact (len : nat) (os : list treeOp) :
  (0 < len)%nat -> Forall (fun o => length (opKey o) = len) os ->
  exists t', runOps emptyTree os = Ok t'
    /\ (GetMetadata t').1 = mapCount (foldl specOp ∅ os).
Proof.
  intros Hlen Hos.
  destruct (runOps_invariant len (fun t => everyBranchOpt countOk (Root t)) (fun _ _ => True) Hlen)
    with (os := os) (t := emptyTree) as (t' & E & Hwf & HI & Hc); try done.
  { intros. split; [by eapply applyOp_count|done]. }
  { intros k [e He]. done. }
  exists t'. split; [done|]. change ∅ with (contents emptyTree).
  unfold mapCount. rewrite <- Hc, size_contents by done. unfold GetMetadata.
  destruct (Root t') as [[l|b]|]; [done| |done].
  destruct (everyBranch_inv _ _ (HI _ eq_refl)) as [Hb _]. exact Hb.
Qed.

(** If no call changes the size of a key it overwrites, GetSize is the sum of
    the sizes of the stored entries after any such sequence. *)
Theorem tree_size_exact (len : nat) (os : list treeOp) :
  (0 < len)%nat -> Forall (fun o => length (opKey o) = len) os -> sizesKept ∅ os ->
  exists t', runOps emptyTree os = Ok t' /\ GetSize t' = mapSize (foldl specOp ∅ os).
Proof.
  intros Hlen Hos Hkept.
  destruct (runOps_invariant len (fun t => everyBranchOpt sizeOk (Root t)) sizesKept Hlen)
    with (os := os) (t := emptyTree) as (t' & E & Hwf & HI & Hc); try done.
  { intros t o os' t1 Hwf Hfit [Hk Hks] HI E. split; [by eapply applyOp_size|done]. }
  { intros k [e He]. done. }
  exists t'. split; [done|]. change ∅ with (contents emptyTree).
  rewrite <- Hc, sum_contents by done. unfold GetSize.
  destruct (Root t') as [n|]; [|done]. apply nodeSize_ok. by apply HI.
Qed.

(** Three keys, then an update that enlarges the first one, then its deletion. *)
Definition staleOps : list treeOp :=
  [ OpInsert [Byte.x01; Byte.x00] (Some [Byte.xaa]) [] 10;
    OpInsert [Byte.x41; Byte.x00] (Some [Byte.xbb]) [] 10;
    OpInsert [Byte.x81; Byte.x00] (Some [Byte.xcc]) [] 10;
    OpInsert [Byte.x01; Byte.x00] (Some [Byte.xdd]) [] 100;
    OpDelete [Byte.x01; Byte.x00] ].

(** Insert does not adjust the size of the branches above an existing key
    whose entry changes size: on this run the two remaining entries have total
    size 20 but GetSize is -70. *)
Theorem tree_size_stale :
  exists t', runOps emptyTree staleOps = Ok t'
    /\ mapSize (contents t') = 20 /\ GetSize t' = -70.
Proof. eexists. split; [vm_compute; reflexivity|]. split; vm_compute; reflexivity. Qed.

(** The number of branch nodes on the longest path. *)
Fixpoint height (n : node) : Z :=
  match n with
  | LeafNode _ => 0
  | BranchNode b =>
    1 + foldr (fun oc z => Z.max (match oc with None => 0 | Some c => height c end) z)
          0 (Children b)
  end.

Definition longestOps : list treeOp :=
  [ OpInsert [Byte.x01; Byte.x00] (Some [Byte.xaa]) [] 1;
    OpInsert [Byte.x02; Byte.x00] (Some [Byte.xbb]) [] 1;
    OpInsert [Byte.x41; Byte.x00] (Some [Byte.xcc]) [] 1;
    OpInsert [Byte.x81; Byte.x00] (Some [Byte.xdd]) [] 1 ].

(** Inserting a leaf directly below a branch resets its LongestBranch to 1
    whatever its other children are: here the tree has two levels of branches but
    GetMetadata reports a longest branch of 1. *)
Theorem longest_branch_reset :
  exists t' n, runOps emptyTree longestOps = Ok t' /\ Root t' = Some n
    /\ height n = 2 /\ (GetMetadata t').2 = 1.
Proof.
  eexists _, _. split; [vm_compute; reflexivity|]. split; [reflexivity|].
  split; vm_compute; reflexivity.
Qed.

Lemma leaf_count_exact_witness :
  exists t', runOps emptyTree demoOps = Ok t'
    /\ (GetMetadata t').1 = Z.of_nat (size (foldl specOp ∅ demoOps)).
Proof. apply (leaf_count_exact 2 demoOps); [lia|repeat constructor]. Defined.

Lemma tree_size_exact_witness :
  exists t', runOps emptyTree demoOps = Ok t' /\ GetSize t' = mapSize (foldl specOp ∅ demoOps).
Proof.
  apply (tree_size_exact 2 demoOps); [lia|repeat constructor|].
  repeat split; intros e He; vm_compute in He; discriminate He.
Defined.
