(* ===== verification/ProofTreeCommit.v ===== *)
(** * Commitments of the vector commitment tree

    Commit of leaf and branch nodes, with its cache, over an arbitrary SHA-512
    function and an arbitrary inclusion prover.  The file shows that the cache is
    transparent, that the root commitment is a function of the stored map alone,
    and that it binds the stored entries up to an explicit hash collision. *)

From S2P Require Import Prelude Nibbles ProofTree ProofTreeWf ProofTreeOps ProofTreeMap ProofTreeMeta.

(** What the tree uses of [crypto.InclusionProver] and [crypto/sha512]. *)
Class TreeCrypto := {
  sha512 : bytes -> bytes;
  (** The bytes [CommitRaw] returns; its error is discarded by the callers. *)
  CommitRaw : bytes -> Z -> bytes
}.

Section Commit.
Context `{TreeCrypto}.

Definition zeros64 : bytes := replicate 64 Byte.x00.

(** What a leaf hashes after its key. *)
Definition leafTarget (n : leaf) : bytes :=
  if negb (Z.of_nat (length (HashTarget n)) =? 0) then HashTarget n else default [] (Value n).

Definition leafHash (n : leaf) : bytes := sha512 (Byte.x00 :: Key n ++ leafTarget n).

Definition leafCommit (recalculate : bool) (n : leaf) : bytes * leaf :=
  if (Z.of_nat (length (LeafCommitment n)) =? 0) || recalculate then
    let c := leafHash n in
    (c, mkLeaf (Key n) (Value n) (HashTarget n) c (LeafSize n))
  else (LeafCommitment n, n).

(** The hash by which a parent refers to a branch with this prefix. *)
Definition prefixHash (prefix : list Z) (out : bytes) : bytes :=
  sha512 (Byte.x01 :: (prefix ≫= fun p => be 4 (u32 p)) ++ out).

Definition childVec (child : node) (out : bytes) : bytes :=
  match child with
  | BranchNode c => prefixHash (Prefix c) out
  | LeafNode _ => out
  end.

(** Commit of a node: its commitment, and the node with the commitments it
    cached.  The goroutine per child writes its own slot of [vector]. *)
Fixpoint commitNode (recalculate : bool) (n : node) : bytes * node :=
  match n with
  | LeafNode l => let r := leafCommit recalculate l in (r.1, LeafNode r.2)
  | BranchNode b =>
    if (Z.of_nat (length (BranchCommitment b)) =? 0) || recalculate then
      let rs := map (fun child =>
        match child with
        | None => (zeros64, None)
        | Some c => let r := commitNode recalculate c in (childVec c r.1, Some r.2)
        end) (Children b) in
      let data := mjoin rs.*1 in
      let c := CommitRaw data 64 in
      (c, BranchNode (mkBranch (Prefix b) rs.*2 c (BranchSize b) (LeafCount b) (LongestBranch b)))
    else (BranchCommitment b, n)
  end.

Definition Commit (t : VectorCommitmentTree) (recalculate : bool)
    : bytes * VectorCommitmentTree :=
  match Root t with
  | None => (zeros64, t)
  | Some n => let r := commitNode recalculate n in (r.1, mkTree (Some r.2))
  end.

(** ** The commitment as a function of the tree *)

Fixpoint commitOf (n : node) : bytes :=
  match n with
  | LeafNode l => leafHash l
  | BranchNode b =>
    CommitRaw (Children b ≫= (fun child =>
      match child with
      | None => zeros64
      | Some c => childVec c (commitOf c)
      end)) 64
  end.

Definition childBytes (o : option node) : bytes :=
  match o with None => zeros64 | Some c => childVec c (commitOf c) end.

Lemma commitOf_branch (b : branch) : commitOf (BranchNode b) = CommitRaw (Children b ≫= childBytes) 64.
Proof. done. Qed.

(** The vectors of branches: 64 slots of 64 bytes.  For a longer one the library returns
    no commitment. *)
Definition slotVector (x : bytes) : Prop := length x = (64 * 64)%nat.

Definition rootOf (t : VectorCommitmentTree) : bytes :=
  match Root t with None => zeros64 | Some n => commitOf n end.

(** A cached commitment is the one that would be recomputed. *)
Definition cohLeaf (l : leaf) : Prop := LeafCommitment l = [] \/ LeafCommitment l = leafHash l.
Definition cohBranch (b : branch) : Prop :=
  BranchCommitment b = [] \/ BranchCommitment b = commitOf (BranchNode b).
Definition coherent (n : node) : Prop :=
  Forall cohLeaf (leaves n) /\ everyBranch cohBranch n.
Definition coherentTree (t : VectorCommitmentTree) : Prop :=
  forall n, Root t = Some n -> coherent n.

Lemma coherent_child (b : branch) i c :
  coherent (BranchNode b) -> Children b !! i = Some (Some c) -> coherent c.
Proof.
  intros [Hl Hb] Hi. apply everyBranch_inv in Hb as [_ Hb]. split; [|by eapply Hb].
  rewrite Forall_forall in Hl |- *. intros l Hlc. apply Hl, elem_leaves. eauto.
Qed.

Lemma length_nil_eqb (l : bytes) : (Z.of_nat (length l) =? 0) = bool_decide (l = []).
Proof. destruct l; [done|]. rewrite bool_decide_false by done. by apply Z.eqb_neq. Qed.

(** ** What Commit returns and leaves behind *)

Definition committedBytes (r : bool) (o : option node) : bytes :=
  match o with None => zeros64 | Some c => childVec c (commitNode r c).1 end.

Definition committedNode (r : bool) (c : node) : node := (commitNode r c).2.

Definition committedChildren (r : bool) (cs : list (option node)) : list (option node) :=
  option_fmap _ _ (committedNode r) <$> cs.

Definition committedData (r : bool) (cs : list (option node)) : bytes :=
  cs ≫= committedBytes r.

Lemma committedData_children r (cs : list (option node)) :
  (forall i c, cs !! i = Some (Some c) -> (commitNode r c).1 = commitOf c) -> committedData r cs = cs ≫= childBytes.
Proof.
  unfold committedData. induction cs as [|oc cs IH]; intros Hc; [done|]. rewrite !bind_cons. f_equal.
  - destruct oc as [c|]; [|done]. simpl. f_equal. by apply (Hc 0%nat).
  - apply IH. intros i. apply (Hc (S i)).
Qed.

Lemma commitNode_branch r (b : branch) :
  commitNode r (BranchNode b) =
  if bool_decide (BranchCommitment b = []) || r then
    let c := CommitRaw (committedData r (Children b)) 64 in
    (c, BranchNode (mkBranch (Prefix b) (committedChildren r (Children b)) c
                      (BranchSize b) (LeafCount b) (LongestBranch b)))
  else (BranchCommitment b, BranchNode b).
Proof.
  cbn [commitNode]. rewrite length_nil_eqb. destruct (bool_decide _ || r); [|done].
  set (f := fun child : option node => _).
  assert ((map f (Children b)).*1 = committedBytes r <$> Children b
          /\ (map f (Children b)).*2 = committedChildren r (Children b)) as [-> ->].
  { split; (change (map f (Children b)) with (f <$> Children b);
      rewrite <- list_fmap_compose; apply list_fmap_ext; intros i [c|] Hi; done). }
  cbv zeta. rewrite list_join_bind, list_fmap_bind. done.
Qed.

Lemma committedNode_Children r (b : branch) :
  exists cm, committedNode r (BranchNode b)
    = BranchNode (mkBranch (Prefix b)
        (if bool_decide (BranchCommitment b = []) || r
         then committedChildren r (Children b) else Children b)
        cm (BranchSize b) (LeafCount b) (LongestBranch b)).
Proof.
  unfold committedNode at 1. rewrite commitNode_branch.
  destruct (bool_decide (BranchCommitment b = []) || r).
  - eexists. reflexivity.
  - exists (BranchCommitment b). by destruct b.
Qed.

Lemma committed_lookup r (cs : list (option node)) i c' :
  committedChildren r cs !! i = Some (Some c') <->
  exists c, cs !! i = Some (Some c) /\ c' = committedNode r c.
Proof.
  unfold committedChildren. rewrite list_lookup_fmap. destruct (cs !! i) as [[c|]|]; simpl; naive_solver.
Qed.

(** Commit changes no entry. *)
Lemma committed_entries r n :
  leafEntry <$> leaves (committedNode r n) = leafEntry <$> leaves n.
Proof.
  induction n as [l|b IH] using node_induction.
  - unfold committedNode. simpl. unfold leafCommit. by destruct (_ || r).
  - destruct (committedNode_Children r b) as [cm ->]. rewrite leaves_branch_mk, leaves_branch.
    destruct (_ || r); [|done]. clear -IH.
    revert IH. induction (Children b) as [|oc cs IHcs]; intros IH; [done|].
    unfold committedChildren. rewrite fmap_cons, !bind_cons, !fmap_app. f_equal.
    + destruct oc as [c|]; [|done]. by apply (IH 0%nat).
    + apply IHcs. intros i c Hi. by apply (IH (S i)).
Qed.

Lemma committed_wf r pre n : wf pre n -> wf pre (committedNode r n).
Proof.
  intros Hwf. induction Hwf as [pre l Hp|pre b Hlen Hch IH Htwo].
  - unfold committedNode. simpl. unfold leafCommit. destruct (_ || r); by constructor.
  - destruct (committedNode_Children r b) as [cm ->].
    destruct (_ || r); [|by constructor]. constructor; simpl.
    + unfold committedChildren. by rewrite length_fmap.
    + intros i c' Hi. apply committed_lookup in Hi as (c & Hi & ->). by apply IH.
    + destruct Htwo as (i & j & c & d & Hne & Hi & Hj).
      exists i, j, (committedNode r c), (committedNode r d).
      rewrite !committed_lookup. eauto 10.
Qed.

Lemma committed_kind r n out : childVec (committedNode r n) out = childVec n out.
Proof.
  destruct n as [l|b].
  - done.
  - by destruct (committedNode_Children r b) as [cm ->].
Qed.

Lemma committed_commitOf r n : commitOf (committedNode r n) = commitOf n.
Proof.
  induction n as [l|b IH] using node_induction.
  - unfold committedNode. simpl. unfold leafCommit. by destruct (_ || r).
  - destruct (committedNode_Children r b) as [cm ->]. rewrite !commitOf_branch. f_equal.
    simpl. destruct (_ || r); [|done]. clear -IH.
    revert IH. induction (Children b) as [|oc cs IHcs]; intros IH; [done|].
    unfold committedChildren. rewrite fmap_cons, !bind_cons. f_equal.
    + destruct oc as [c|]; [|done]. simpl. rewrite committed_kind. f_equal. by apply (IH 0%nat).
    + apply IHcs. intros i c Hi. by apply (IH (S i)).
Qed.

(** On a coherent tree Commit returns the commitment, whether it recalculates
    or reads its cache, and leaves a coherent tree. *)
Lemma commitNode_coherent r n :
  coherent n -> (commitNode r n).1 = commitOf n /\ coherent (committedNode r n).
Proof.
  induction n as [l|b IH] using node_induction; intros Hco.
  - destruct Hco as [Hl _]. cbn [leaves] in Hl. rewrite Forall_singleton in Hl.
    unfold committedNode, coherent. simpl. unfold leafCommit. rewrite length_nil_eqb.
    destruct (bool_decide_reflect (LeafCommitment l = [])) as [E|E]; simpl.
    + split; [done|]. split; [|constructor]. apply Forall_singleton. by right.
    + destruct r; simpl.
      * split; [done|]. split; [|constructor]. apply Forall_singleton. by right.
      * split; [destruct Hl as [E1|E1]; [by rewrite E1 in E|exact E1]|]. split; [|constructor]. by apply Forall_singleton.
  - assert (committedData r (Children b) = Children b ≫= childBytes) as Ebytes.
    { apply committedData_children. intros i c Hi. eapply IH; [done|by eapply coherent_child]. }
    pose proof (committed_commitOf r (BranchNode b)) as Hcm.
    unfold committedNode in *. rewrite commitNode_branch in *.
    destruct (bool_decide (BranchCommitment b = []) || r) eqn:Ec; simpl fst in *; simpl snd in *.
    + cbv zeta in *. rewrite Ebytes in *. split; [done|]. split.
      * rewrite leaves_branch_mk. apply Forall_forall. intros l Hl.
        apply list_elem_of_bind in Hl as ([c'|] & Hl & Hin); [|by apply not_elem_of_nil in Hl].
        apply list_elem_of_lookup in Hin as [i Hi].
        apply committed_lookup in Hi as (c & Hi & ->).
        destruct (IH _ _ Hi (coherent_child _ _ _ Hco Hi)) as [_ [Hfl _]].
        rewrite Forall_forall in Hfl. by apply Hfl.
      * constructor.
        -- right. rewrite Hcm. done.
        -- simpl. intros i c' Hi. apply committed_lookup in Hi as (c & Hi & ->).
           apply (IH _ _ Hi (coherent_child _ _ _ Hco Hi)).
    + apply orb_false_iff in Ec as [Ec _]. apply bool_decide_eq_false in Ec.
      split; [|done]. destruct Hco as [_ Hb]. apply everyBranch_inv in Hb as [[?|?] _]; done.
Qed.

(** ** Insert and Delete keep the cache coherent *)

Lemma commitOf_mk p (cs : list (option node)) cm sz lc lb :
  commitOf (BranchNode (mkBranch p cs cm sz lc lb)) = CommitRaw (cs ≫= childBytes) 64.
Proof. done. Qed.

Lemma cohBranch_prefix (b : branch) p cm :
  cm = [] \/ cm = BranchCommitment b -> cohBranch b ->
  cohBranch (mkBranch p (Children b) cm (BranchSize b) (LeafCount b) (LongestBranch b)).
Proof. intros [->| ->] Hb; [by left|done]. Qed.

Lemma insertNode_coherent key value hashTarget size pre n d n' :
  wf pre n -> pre `prefix_of` path key -> (forall l, l ∈ leaves n -> compat (Key l) key) ->
  coherent n ->
  insertNode key value hashTarget size n (BranchBits * Z.of_nat (length pre)) = Ok (d, n') ->
  coherent n'.
Proof.
  intros Hwf Hk Hc [Hl Hb] Hins. split.
  - destruct (insertNode_spec key value hashTarget size pre n Hwf Hk Hc)
      as (d0 & n0 & E & _ & Hlv & _). rewrite Hins in E. injection E as <- <-.
    rewrite Hlv. constructor; [by left|]. by apply Forall_without.
  - refine (insertNode_every key value hashTarget size cohBranch (fun _ => True)
              cohBranch_prefix _ _ _ _ pre n d n' Hwf Hk Hc I Hb Hins); intros; first [by left|done].
Qed.

Lemma removeNode_coherent key pre n size on :
  wf pre n -> pre `prefix_of` path key -> (forall l, l ∈ leaves n -> compat (Key l) key) ->
  coherent n ->
  removeNode key n (BranchBits * Z.of_nat (length pre)) = Ok (size, on) ->
  forall n', on = Some n' -> coherent n'.
Proof.
  intros Hwf Hk Hc [Hl Hb] Hrm n' ->. split.
  - destruct (removeNode_spec key pre n Hwf Hk Hc) as (s0 & o0 & E & Hlv & _).
    rewrite Hrm in E. injection E as <- <-. cbn [leaves_opt] in Hlv. rewrite Hlv.
    by apply Forall_without.
  - refine (removeNode_every key cohBranch cohBranch_prefix _ pre n size (Some n')
              Hwf Hk Hc Hb Hrm n' eq_refl). intros; by left.
Qed.

Lemma applyOp_coherent t o t' :
  wf_tree t -> keyFits (contents t) (opKey o) -> coherentTree t ->
  applyOp t o = Ok t' -> coherentTree t'.
Proof.
  intros Hwf Hfit Hco Ho. pose proof (keyFits_leaves _ _ Hfit) as Hc. destruct Hfit as [Hne _].
  unfold coherentTree in *.
  destruct o as [k v h s|k]; simpl in Ho, Hc, Hne; [unfold Insert in Ho|unfold Delete in Ho];
    rewrite decide_False in Ho by done; apply result_bind_Ok in Ho as ([d n'] & Ho & E);
    injection E as <-; unfold wf_tree in Hwf; simpl; destruct (Root t) as [n|].
  - intros ? [= <-].
    exact (insertNode_coherent _ _ _ _ [] _ _ _ Hwf (prefix_nil _) Hc (Hco _ eq_refl) Ho).
  - injection Ho as <- <-. intros ? [= <-]. split; [|constructor].
    apply Forall_singleton. by left.
  - exact (removeNode_coherent _ [] _ _ _ Hwf (prefix_nil _) Hc (Hco _ eq_refl) Ho).
  - by injection Ho as <- <-.
Qed.
End Commit.
