(* ===== verification/ProofTreeCanon.v ===== *)
(** * The root commitment is a function of the stored map

    Two well-formed trees that store the same keys with the same values and hash
    targets have the same shape, hence the same commitment, however they were
    built and whatever their caches and metadata hold; and the commitment binds
    those entries up to a hash collision. *)

From S2P Require Import Prelude Nibbles ProofTree ProofTreeWf ProofTreeOps ProofTreeMap.
From S2P Require Import ProofTreeMeta ProofTreeCommit.

(** What a leaf commits to. *)
Definition view (l : leaf) : bytes * option bytes * bytes := (Key l, Value l, HashTarget l).

Definition sameViews (xs ys : list leaf) : Prop := forall v, v ∈ view <$> xs <-> v ∈ view <$> ys.

Lemma sameViews_sym xs ys : sameViews xs ys -> sameViews ys xs.
Proof. unfold sameViews. naive_solver. Qed.

Lemma sameViews_key xs ys l : sameViews xs ys -> l ∈ xs -> exists l', l' ∈ ys /\ view l' = view l.
Proof.
  intros Hs Hl. assert (view l ∈ view <$> xs) as Hv by (by apply list_elem_of_fmap_2).
  apply Hs, list_elem_of_fmap in Hv as (l' & E & Hl'). eauto.
Qed.

Lemma view_key l l' : view l' = view l -> Key l' = Key l.
Proof. unfold view. congruence. Qed.

(** Two leaves below different children of a branch. *)
Lemma two_leaves pre b :
  wf pre (BranchNode b) -> exists l m x y, x <> y
    /\ l ∈ leaves (BranchNode b) /\ m ∈ leaves (BranchNode b)
    /\ path (Key l) !! length (pre ++ Prefix b) = Some x
    /\ path (Key m) !! length (pre ++ Prefix b) = Some y.
Proof.
  intros Hwf. pose proof (wf_branch_inv _ _ Hwf) as (_ & Hch & i & j & c & d & Hne & Hi & Hj).
  destruct (wf_nonempty _ _ (Hch _ _ Hi)) as [l Hl].
  destruct (wf_nonempty _ _ (Hch _ _ Hj)) as [m Hm].
  exists l, m, (Z.of_nat i), (Z.of_nat j). split_and!; [lia|apply elem_leaves; eauto..| |];
    eapply wf_leaf_index; eauto.
Qed.

Lemma leaf_prefix pre b l :
  wf pre (BranchNode b) -> l ∈ leaves (BranchNode b) -> pre ++ Prefix b `prefix_of` path (Key l).
Proof.
  intros Hwf (i & c & Hi & Hl)%elem_leaves.
  pose proof (wf_leaves_child _ _ _ _ _ Hwf Hi Hl) as Hp. rewrite app_assoc in Hp.
  by eapply prefix_app_split.
Qed.

Lemma prefix_not_longer pre b1 b2 :
  wf pre (BranchNode b1) -> wf pre (BranchNode b2) ->
  sameViews (leaves (BranchNode b1)) (leaves (BranchNode b2)) ->
  (length (Prefix b2) <= length (Prefix b1))%nat.
Proof.
  intros Hw1 Hw2 Hs. destruct (decide (length (Prefix b2) <= length (Prefix b1)))%nat; [done|].
  exfalso. destruct (two_leaves _ _ Hw1) as (l & m & x & y & Hxy & Hl & Hm & Hx & Hy).
  destruct (lookup_lt_is_Some_2 (pre ++ Prefix b2) (length (pre ++ Prefix b1))) as [z Hz].
  { rewrite !length_app. lia. }
  assert (forall l', l' ∈ leaves (BranchNode b1) ->
            path (Key l') !! length (pre ++ Prefix b1) = Some z) as Hall.
  { intros l' Hl'. destruct (sameViews_key _ _ _ Hs Hl') as (l2 & Hl2 & E).
    rewrite <- (view_key _ _ E). eapply prefix_lookup_eq; [|done]. by apply leaf_prefix. }
  rewrite (Hall l Hl) in Hx. rewrite (Hall m Hm) in Hy. congruence.
Qed.

(** The prefix of a branch is determined by what is stored below it. *)
Lemma prefix_canonical pre b1 b2 :
  wf pre (BranchNode b1) -> wf pre (BranchNode b2) ->
  sameViews (leaves (BranchNode b1)) (leaves (BranchNode b2)) -> Prefix b1 = Prefix b2.
Proof.
  intros Hw1 Hw2 Hs.
  pose proof (prefix_not_longer _ _ _ Hw1 Hw2 Hs) as H1.
  pose proof (prefix_not_longer _ _ _ Hw2 Hw1 (sameViews_sym _ _ Hs)) as H2.
  destruct (two_leaves _ _ Hw1) as (l & _ & _ & _ & _ & Hl & _).
  destruct (sameViews_key _ _ _ Hs Hl) as (l' & Hl' & E).
  pose proof (leaf_prefix _ _ _ Hw1 Hl) as [r1 P1].
  pose proof (leaf_prefix _ _ _ Hw2 Hl') as [r2 P2].
  rewrite (view_key _ _ E), P1, <- !app_assoc in P2. apply app_inv_head in P2.
  apply app_inj_1 in P2 as [? _]; [done|lia].
Qed.

(** The leaves below child [i] are those whose path continues with [i]. *)
Lemma child_views pre b i oc v :
  wf pre (BranchNode b) -> Children b !! i = Some oc ->
  v ∈ view <$> leaves_opt oc <->
  v ∈ view <$> leaves (BranchNode b)
    /\ path v.1.1 !! length (pre ++ Prefix b) = Some (Z.of_nat i).
Proof.
  intros Hwf Hi. split.
  - intros (l & -> & Hl)%list_elem_of_fmap. destruct oc as [c|]; [|by apply not_elem_of_nil in Hl].
    split; [apply list_elem_of_fmap_2, elem_leaves; eauto|]. eapply wf_leaf_index; eauto.
  - intros [(l & -> & Hl)%list_elem_of_fmap Hp]. apply list_elem_of_fmap_2.
    apply elem_leaves in Hl as (j & c & Hj & Hl).
    pose proof (wf_leaf_index _ _ _ _ _ Hwf Hj Hl) as Hp'. simpl in Hp. rewrite Hp in Hp'.
    assert (i = j) as <- by (injection Hp'; lia). rewrite Hj in Hi. by injection Hi as <-.
Qed.

Section Canonical.
Context `{TreeCrypto}.

Lemma bind_bytes_ext (cs ds : list (option node)) :
  length cs = length ds ->
  (forall i a b, cs !! i = Some a -> ds !! i = Some b -> childBytes a = childBytes b) ->
  cs ≫= childBytes = ds ≫= childBytes.
Proof.
  revert ds. induction cs as [|a cs IH]; intros [|b ds] Hl He; try done.
  rewrite !bind_cons. f_equal; [by apply (He 0%nat)|].
  apply IH; [by injection Hl|]. intros i. apply (He (S i)).
Qed.

Lemma commitOf_canonical pre n1 n2 :
  wf pre n1 -> wf pre n2 -> sameViews (leaves n1) (leaves n2) ->
  commitOf n1 = commitOf n2 /\ childBytes (Some n1) = childBytes (Some n2).
Proof.
  intros Hw1. revert n2.
  induction Hw1 as [pre l1 Hp1|pre b1 Hlen1 Hch1 IH Htwo1]; intros n2 Hw2 Hs.
  - destruct n2 as [l2|b2].
    + destruct (sameViews_key _ _ l1 Hs) as (l' & Hl' & E); [by apply list_elem_of_singleton|].
      apply list_elem_of_singleton in Hl' as ->. unfold view in E.
      injection E as Ek Ev Eh. simpl. unfold leafHash, leafTarget. by rewrite Ek, Ev, Eh.
    + exfalso. destruct (two_leaves _ _ Hw2) as (l & m & x & y & Hxy & Hl & Hm & Hx & Hy).
      apply sameViews_sym in Hs.
      destruct (sameViews_key _ _ l Hs Hl) as (l' & Hl' & E).
      destruct (sameViews_key _ _ m Hs Hm) as (m' & Hm' & E').
      simpl in Hl', Hm'. apply list_elem_of_singleton in Hl' as ->.
      apply list_elem_of_singleton in Hm' as ->.
      rewrite <- (view_key _ _ E) in Hx. rewrite <- (view_key _ _ E') in Hy. congruence.
  - assert (wf pre (BranchNode b1)) as Hw1 by (by constructor). destruct n2 as [l2|b2].
    + exfalso. destruct (two_leaves _ _ Hw1) as (l & m & x & y & Hxy & Hl & Hm & Hx & Hy).
      destruct (sameViews_key _ _ l Hs Hl) as (l' & Hl' & E).
      destruct (sameViews_key _ _ m Hs Hm) as (m' & Hm' & E').
      simpl in Hl', Hm'. apply list_elem_of_singleton in Hl' as ->.
      apply list_elem_of_singleton in Hm' as ->.
      rewrite <- (view_key _ _ E) in Hx. rewrite <- (view_key _ _ E') in Hy. congruence.
    + pose proof (prefix_canonical _ _ _ Hw1 Hw2 Hs) as HP.
      pose proof (wf_branch_inv _ _ Hw2) as (Hlen2 & Hch2 & _).
      assert (commitOf (BranchNode b1) = commitOf (BranchNode b2)) as Hc.
      { rewrite !commitOf_branch. f_equal. apply bind_bytes_ext; [by rewrite Hlen1, Hlen2|].
        intros i o1 o2 H1 H2.
        assert (sameViews (leaves_opt o1) (leaves_opt o2)) as Hs'.
        { intros v. rewrite (child_views _ _ _ _ _ Hw1 H1), (child_views _ _ _ _ _ Hw2 H2).
          rewrite HP. specialize (Hs v). tauto. }
        destruct o1 as [c1|], o2 as [c2|].
        - apply (IH i c1 H1 c2); [|done]. rewrite HP. by apply Hch2.
        - exfalso. destruct (wf_nonempty _ _ (Hch1 _ _ H1)) as [l Hl].
          destruct (sameViews_key _ _ l Hs' Hl) as (l' & Hl' & _). by apply not_elem_of_nil in Hl'.
        - exfalso. destruct (wf_nonempty _ _ (Hch2 _ _ H2)) as [l Hl].
          destruct (sameViews_key _ _ l (sameViews_sym _ _ Hs') Hl) as (l' & Hl' & _).
          by apply not_elem_of_nil in Hl'.
        - done. }
      split; [done|]. cbn [childBytes childVec]. by rewrite HP, Hc.
Qed.
End Canonical.

(** ** Histories: updates interleaved with commitments *)

Inductive treeStep :=
| StepOp (o : treeOp)
| StepCommit (recalculate : bool).

Definition stepOps (ss : list treeStep) : list treeOp :=
  omap (fun s => match s with StepOp o => Some o | StepCommit _ => None end) ss.

(** What a map commits to: its entries without the sizes. *)
Definition unsized (m : gmap bytes entry) : gmap bytes (option bytes * bytes) := fst <$> m.

Lemma contents_view t v :
  wf_tree t -> v ∈ view <$> leaves_opt (Root t) <->
  unsized (contents t) !! v.1.1 = Some (v.1.2, v.2).
Proof.
  intros Hwf. apply wf_tree_nodup in Hwf. unfold unsized, contents. rewrite lookup_fmap. split.
  - intros (l & -> & Hl)%list_elem_of_fmap. cbn [view fst snd]. by rewrite contents_of_lookup.
  - intros Hv. apply fmap_Some in Hv as (e & He & Ee).
    destruct (proj1 (contents_of_dom (leaves_opt (Root t)) v.1.1) (mk_is_Some _ _ He))
      as (l & Hl & Ek).
    rewrite <- Ek, contents_of_lookup in He by done. injection He as <-.
    apply list_elem_of_fmap. exists l. split; [|done].
    destruct v as [[k x] h]. cbn [fst snd leafEntry] in *. unfold view. congruence.
Qed.

Section History.
Context `{TreeCrypto}.

Definition applyStep (t : VectorCommitmentTree) (s : treeStep) : result VectorCommitmentTree :=
  match s with
  | StepOp o => applyOp t o
  | StepCommit recalculate => Ok (Commit t recalculate).2
  end.

Definition runSteps (t : VectorCommitmentTree) (ss : list treeStep) : result VectorCommitmentTree :=
  foldl (fun r s => t ← r; applyStep t s) (Ok t) ss.

Lemma runSteps_cons t s ss : runSteps t (s :: ss) = (t' ← applyStep t s; runSteps t' ss).
Proof.
  unfold runSteps. simpl. destruct (applyStep t s); simpl; [done|..];
    (induction ss as [|s' ss IH]; [done|exact IH]).
Qed.

Lemma Commit_spec t r :
  wf_tree t -> coherentTree t ->
  (Commit t r).1 = rootOf t /\ wf_tree (Commit t r).2 /\ coherentTree (Commit t r).2
    /\ contents (Commit t r).2 = contents t.
Proof.
  unfold Commit, rootOf, coherentTree, contents, wf_tree. intros Hwf Hco.
  destruct (Root t) as [n|] eqn:E; simpl; [|by rewrite E].
  destruct (commitNode_coherent r n (Hco _ eq_refl)) as [E1 E2]. split_and!; [done|..].
  - by apply committed_wf.
  - by intros ? [= <-].
  - unfold contents_of. f_equal. apply committed_entries.
Qed.

(** An invariant of updates and commitments holds after every history. *)
Lemma runSteps_invariant (len : nat) (I : VectorCommitmentTree -> Prop) :
  (0 < len)%nat ->
  (forall t o t', wf_tree t -> keyFits (contents t) (opKey o) -> I t -> applyOp t o = Ok t' -> I t') ->
  (forall t r, wf_tree t -> I t ->
     wf_tree (Commit t r).2 /\ I (Commit t r).2 /\ contents (Commit t r).2 = contents t) ->
  forall ss t, wf_tree t -> I t -> keysOfLength len (contents t) ->
  Forall (fun o => length (opKey o) = len) (stepOps ss) ->
  exists t', runSteps t ss = Ok t' /\ wf_tree t' /\ I t'
    /\ contents t' = foldl specOp (contents t) (stepOps ss).
Proof.
  intros Hlen Hop Hcm. induction ss as [|[o|r] ss IH]; intros t Hwf HI Hk Hos;
    [by exists t| |]; rewrite runSteps_cons; cbn [applyStep stepOps omap list_omap] in *.
  - apply Forall_cons_1 in Hos as [Ho Hos].
    assert (keyFits (contents t) (opKey o)) as Hfit.
    { apply keysOfLength_fits with len; [done|done|]. intros E. rewrite E in Ho. simpl in Ho. lia. }
    destruct (applyOp_spec t o Hwf Hfit) as (t1 & E & Hwf1 & E1). rewrite E.
    cbn [mbind result_bind foldl]. rewrite <- E1. apply IH; [done|exact (Hop t o t1 Hwf Hfit HI E)| |done].
    rewrite E1. by apply keysOfLength_op.
  - destruct (Hcm t r Hwf HI) as (Hwf1 & HI1 & E1). cbn [mbind result_bind].
    rewrite <- E1. apply IH; [done|done| |done]. by rewrite E1.
Qed.

Lemma runSteps_spec (len : nat) ss t :
  (0 < len)%nat -> wf_tree t -> coherentTree t -> keysOfLength len (contents t) ->
  Forall (fun o => length (opKey o) = len) (stepOps ss) ->
  exists t', runSteps t ss = Ok t' /\ wf_tree t' /\ coherentTree t'
    /\ contents t' = foldl specOp (contents t) (stepOps ss).
Proof.
  intros Hlen. apply (runSteps_invariant len coherentTree Hlen).
  - intros. by eapply applyOp_coherent.
  - intros t0 r Hw Hco. by destruct (Commit_spec t0 r Hw Hco) as (_ & ? & ? & ?).
Qed.

Lemma rootOf_canonical t1 t2 :
  wf_tree t1 -> wf_tree t2 -> unsized (contents t1) = unsized (contents t2) -> rootOf t1 = rootOf t2.
Proof.
  intros Hw1 Hw2 E.
  assert (sameViews (leaves_opt (Root t1)) (leaves_opt (Root t2))) as Hs.
  { intros v. by rewrite !contents_view, E. }
  unfold rootOf, wf_tree in *. destruct (Root t1) as [n1|], (Root t2) as [n2|].
  - by eapply commitOf_canonical.
  - exfalso. destruct (wf_nonempty _ _ Hw1) as [l Hl].
    destruct (sameViews_key _ _ l Hs Hl) as (l' & Hl' & _). by apply not_elem_of_nil in Hl'.
  - exfalso. destruct (wf_nonempty _ _ Hw2) as [l Hl].
    destruct (sameViews_key _ _ l (sameViews_sym _ _ Hs) Hl) as (l' & Hl' & _).
    by apply not_elem_of_nil in Hl'.
  - done.
Qed.
End History.

(** ** Binding

    The inputs hashed and the vectors committed to while a node is committed. *)

(** [f] has no collision among [xs]. *)
Definition collisionFree (f : bytes -> bytes) (xs : list bytes) : Prop :=
  Forall (fun x => Forall (fun y => f x = f y -> x = y) xs) xs.

Lemma collisionFree_inj f xs x y :
  collisionFree f xs -> x ∈ xs -> y ∈ xs -> f x = f y -> x = y.
Proof.
  unfold collisionFree. intros Hf Hx Hy. rewrite Forall_forall in Hf.
  specialize (Hf _ Hx). rewrite Forall_forall in Hf. by apply Hf.
Qed.

Lemma collisionFree_sub f xs ys :
  collisionFree f ys -> (forall x, x ∈ xs -> x ∈ ys) -> collisionFree f xs.
Proof.
  intros Hf Hs. apply Forall_forall. intros x Hx. apply Forall_forall. intros y Hy.
  apply (collisionFree_inj _ _ _ _ Hf); by apply Hs.
Qed.

Lemma prefix_bytes_inj (p q : list Z) :
  Forall (fun x => 0 <= x < 64) p -> Forall (fun x => 0 <= x < 64) q ->
  (p ≫= fun x => be 4 (u32 x)) = (q ≫= fun x => be 4 (u32 x)) -> p = q.
Proof.
  intros Hp. revert q. induction Hp as [|x p Hx Hp IH]; intros q Hq E; destruct Hq as [|y q Hy Hq];
    [done|discriminate E|discriminate E|].
  rewrite !bind_cons in E. apply app_inj_1 in E as [E1 E2]; [|by rewrite !be_length].
  f_equal; [|by apply IH]. unfold u32 in E1.
  rewrite !uwrap_small in E1 by (unfold is_u; lia).
  apply be_inj in E1; [done|change (256 ^ Z.of_nat 4) with (2 ^ 32); lia..].
Qed.

Lemma wf_prefix_range pre b :
  wf pre (BranchNode b) -> Forall (fun x => 0 <= x < 64) (Prefix b).
Proof.
  intros Hwf. destruct (two_leaves _ _ Hwf) as (l & _ & _ & _ & _ & Hl & _).
  destruct (leaf_prefix _ _ _ Hwf Hl) as [r E]. apply Forall_forall. intros x Hx.
  apply (path_range (Key l)). rewrite E, !elem_of_app. tauto.
Qed.

Section Binding.
Context `{TreeCrypto}.

Definition leafInput (l : leaf) : bytes := Byte.x00 :: Key l ++ leafTarget l.
Definition prefixInput (prefix : list Z) (out : bytes) : bytes :=
  Byte.x01 :: (prefix ≫= fun p => be 4 (u32 p)) ++ out.

Fixpoint hashInputs (n : node) : list bytes :=
  match n with
  | LeafNode l => [leafInput l]
  | BranchNode b =>
    Children b ≫= (fun child =>
      match child with
      | None => []
      | Some c =>
        hashInputs c ++
        match c with
        | BranchNode cb => [prefixInput (Prefix cb) (commitOf c)]
        | LeafNode _ => []
        end
      end)
  end.

Fixpoint vecInputs (n : node) : list bytes :=
  match n with
  | LeafNode _ => []
  | BranchNode b =>
    (Children b ≫= childBytes) ::
    (Children b ≫= (fun child => match child with None => [] | Some c => vecInputs c end))
  end.

(** What the commitment of a leaf binds. *)
Definition bound (l : leaf) : bytes * bytes := (Key l, leafTarget l).

(** SHA-512 digests have 64 bytes; a vector commitment is a group element of
    another, constant, length. *)
Context (clen : nat) (len : nat).
Hypothesis sha512_length : forall x, length (sha512 x) = 64%nat.
Hypothesis CommitRaw_length : forall x, slotVector x -> length (CommitRaw x 64) = clen.
Hypothesis clen_64 : clen <> 64%nat.

Lemma hash_child (b : branch) i c x :
  Children b !! i = Some (Some c) -> x ∈ hashInputs c -> x ∈ hashInputs (BranchNode b).
Proof.
  intros Hi Hx. cbn [hashInputs]. apply list_elem_of_bind. exists (Some c).
  split; [by apply elem_of_app; left|by eapply list_elem_of_lookup_2].
Qed.

Lemma hash_prefix (b : branch) i (cb : branch) :
  Children b !! i = Some (Some (BranchNode cb)) ->
  prefixInput (Prefix cb) (commitOf (BranchNode cb)) ∈ hashInputs (BranchNode b).
Proof.
  intros Hi. cbn [hashInputs]. apply list_elem_of_bind. exists (Some (BranchNode cb)).
  split; [|by eapply list_elem_of_lookup_2]. apply elem_of_app; right. by left.
Qed.

Lemma vec_child (b : branch) i c x :
  Children b !! i = Some (Some c) -> x ∈ vecInputs c -> x ∈ vecInputs (BranchNode b).
Proof.
  intros Hi Hx. cbn [vecInputs]. right. apply list_elem_of_bind. exists (Some c).
  split; [done|by eapply list_elem_of_lookup_2].
Qed.

Lemma childBytes_length o : length (childBytes o) = 64%nat.
Proof using sha512_length.
  destruct o as [[l|b]|]; cbn [childBytes childVec commitOf]; [apply sha512_length..|].
  apply length_replicate.
Qed.

Lemma vector_wf pre (b : branch) : wf pre (BranchNode b) -> slotVector (Children b ≫= childBytes).
Proof using sha512_length.
  intros (Hlen & _)%wf_branch_inv. unfold slotVector. rewrite <- Hlen at 1.
  assert (forall cs : list (option node), length (cs ≫= childBytes) = (length cs * 64)%nat) as ->; [|done].
  intros cs. induction cs as [|o cs IH]; [done|]. rewrite bind_cons, length_app, IH, childBytes_length. done.
Qed.

(** Vectors of equal-length parts are equal part by part. *)
Lemma bind_parts (cs ds : list (option node)) i a b :
  length cs = length ds -> cs ≫= childBytes = ds ≫= childBytes ->
  cs !! i = Some a -> ds !! i = Some b -> childBytes a = childBytes b.
Proof using sha512_length.
  revert ds i. induction cs as [|x cs IH]; intros [|y ds] i Hl E Ha Hb; try done.
  rewrite !bind_cons in E. apply app_inj_1 in E as [E1 E2]; [|by rewrite !childBytes_length].
  destruct i as [|i]; [|by eapply (IH ds i); [injection Hl|..]].
  simpl in Ha, Hb. by injection Ha as <-; injection Hb as <-.
Qed.

(** The primitives are secure on the inputs [hs] and [vs]: no collision among
    them and no preimage of the empty slot. *)
Definition secureOn (hs vs : list bytes) : Prop :=
  collisionFree sha512 hs /\ collisionFree (fun x => CommitRaw x 64) vs
  /\ Forall (fun x => sha512 x <> zeros64) hs.

Lemma secureOn_sub hs vs hs' vs' :
  secureOn hs' vs' -> (forall x, x ∈ hs -> x ∈ hs') -> (forall x, x ∈ vs -> x ∈ vs') ->
  secureOn hs vs.
Proof.
  intros (H1 & H2 & H3) Hh Hv. split_and!; [by eapply collisionFree_sub..|].
  rewrite Forall_forall in H3 |- *. auto.
Qed.

Definition secureNodes (n1 n2 : node) : Prop :=
  secureOn (hashInputs n1 ++ hashInputs n2) (vecInputs n1 ++ vecInputs n2).

Lemma secure_children (b1 b2 : branch) i c1 c2 :
  secureNodes (BranchNode b1) (BranchNode b2) ->
  Children b1 !! i = Some (Some c1) -> Children b2 !! i = Some (Some c2) -> secureNodes c1 c2.
Proof.
  intros Hs H1 H2. eapply secureOn_sub; [exact Hs|..]; intros x; rewrite !elem_of_app.
  - intros [Hx|Hx]; [left|right]; by eapply hash_child.
  - intros [Hx|Hx]; [left|right]; by eapply vec_child.
Qed.

(** The slot of a child is the hash of one of the inputs of its parent. *)
Lemma slot_hash (b : branch) i c :
  Children b !! i = Some (Some c) ->
  exists x, x ∈ hashInputs (BranchNode b) /\ childBytes (Some c) = sha512 x
    /\ match c with
       | LeafNode l => x = leafInput l
       | BranchNode cb => x = prefixInput (Prefix cb) (commitOf c)
       end.
Proof.
  intros Hi. destruct c as [l|cb].
  - exists (leafInput l). split_and!; [|done..]. eapply hash_child; [done|]. by left.
  - eexists. split_and!; [by eapply hash_prefix|done..].
Qed.

Lemma leafInput_inj l m :
  length (Key l) = length (Key m) -> leafInput l = leafInput m -> bound l = bound m.
Proof.
  intros Hl E. injection E as E. apply app_inj_1 in E as [Ek Et]; [|done].
  unfold bound. congruence.
Qed.

Lemma prefixInput_inj pre1 pre2 b1 b2 x y :
  wf pre1 (BranchNode b1) -> wf pre2 (BranchNode b2) -> slotVector x -> slotVector y ->
  prefixInput (Prefix b1) (CommitRaw x 64) = prefixInput (Prefix b2) (CommitRaw y 64) ->
  Prefix b1 = Prefix b2 /\ CommitRaw x 64 = CommitRaw y 64.
Proof using CommitRaw_length.
  intros H1 H2 Hx Hy E. injection E as E.
  apply app_inj_2 in E as [E1 E2]; [|by rewrite !CommitRaw_length].
  split; [|done]. apply prefix_bytes_inj; [by eapply wf_prefix_range..|done].
Qed.

Definition keysLen (n : node) : Prop := Forall (fun l => length (Key l) = len) (leaves n).

Lemma keysLen_child (b : branch) i c :
  keysLen (BranchNode b) -> Children b !! i = Some (Some c) -> keysLen c.
Proof.
  unfold keysLen. rewrite !Forall_forall. intros Hk Hi l Hl. apply Hk, elem_leaves. eauto.
Qed.

Lemma leaves_ext (cs ds : list (option node)) :
  length cs = length ds ->
  (forall i a b, cs !! i = Some a -> ds !! i = Some b ->
     bound <$> leaves_opt a = bound <$> leaves_opt b) ->
  bound <$> (cs ≫= leaves_opt) = bound <$> (ds ≫= leaves_opt).
Proof.
  revert ds. induction cs as [|a cs IH]; intros [|b ds] Hl He; try done.
  rewrite !bind_cons, !fmap_app. f_equal; [by apply (He 0%nat)|].
  apply IH; [by injection Hl|]. intros i. apply (He (S i)).
Qed.

(** An occupied slot is not an empty one. *)
Lemma slot_occupied (b : branch) i c hs :
  Children b !! i = Some (Some c) -> (forall x, x ∈ hashInputs (BranchNode b) -> x ∈ hs) ->
  Forall (fun x => sha512 x <> zeros64) hs -> childBytes (Some c) <> childBytes None.
Proof.
  intros Hi Hs Hz. destruct (slot_hash _ _ _ Hi) as (x & Hx & -> & _).
  rewrite Forall_forall in Hz. by apply Hz, Hs.
Qed.

(** Equal slots hold equal subtrees, if equal commitments do. *)
Lemma slots_bind pre1 pre2 (b1 b2 : branch) i c1 c2 :
  wf pre1 (BranchNode b1) -> wf pre2 (BranchNode b2) ->
  keysLen (BranchNode b1) -> keysLen (BranchNode b2) ->
  secureNodes (BranchNode b1) (BranchNode b2) ->
  Children b1 !! i = Some (Some c1) -> Children b2 !! i = Some (Some c2) ->
  childBytes (Some c1) = childBytes (Some c2) ->
  (exists l1 l2, c1 = LeafNode l1 /\ c2 = LeafNode l2 /\ bound l1 = bound l2)
  \/ (commitOf c1 = commitOf c2 /\ exists d1 d2, c1 = BranchNode d1 /\ c2 = BranchNode d2
       /\ Prefix d1 = Prefix d2).
Proof using sha512_length CommitRaw_length.
  intros Hw1 Hw2 Hk1 Hk2 (Hsha & _ & _) H1 H2 E.
  destruct (slot_hash _ _ _ H1) as (x & Hx & Ex & Mx).
  destruct (slot_hash _ _ _ H2) as (y & Hy & Ey & My).
  rewrite Ex, Ey in E. apply (collisionFree_inj _ _ _ _ Hsha) in E;
    [|apply elem_of_app; auto..]. subst y.
  pose proof (keysLen_child _ _ _ Hk1 H1) as L1. pose proof (keysLen_child _ _ _ Hk2 H2) as L2.
  destruct c1 as [l1|d1], c2 as [l2|d2]; subst x; [|discriminate My|discriminate My|].
  - left. exists l1, l2. split_and!; [done..|]. apply leafInput_inj; [|done].
    unfold keysLen in L1, L2. cbn [leaves] in L1, L2.
    rewrite Forall_singleton in L1, L2. congruence.
  - right. apply wf_branch_inv in Hw1 as (_ & Hw1 & _). apply wf_branch_inv in Hw2 as (_ & Hw2 & _).
    destruct (prefixInput_inj _ _ _ _ _ _ (Hw1 _ _ H1) (Hw2 _ _ H2) (vector_wf _ _ (Hw1 _ _ H1)) (vector_wf _ _ (Hw2 _ _ H2)) My) as [HP HC].
    split; [done|]. by exists d1, d2.
Qed.

Lemma commitOf_binds pre1 pre2 n1 n2 :
  wf pre1 n1 -> wf pre2 n2 -> keysLen n1 -> keysLen n2 -> secureNodes n1 n2 ->
  commitOf n1 = commitOf n2 -> bound <$> leaves n1 = bound <$> leaves n2.
Proof using sha512_length CommitRaw_length clen_64.
  intros Hw1. revert pre2 n2.
  induction Hw1 as [pre1 l1 Hp1|pre1 b1 Hlen1 Hch1 IH Htwo1]; intros pre2 n2 Hw2 Hk1 Hk2 Hs E.
  - destruct n2 as [l2|b2].
    + destruct Hs as (Hsha & _). unfold keysLen in *. cbn [leaves] in *.
      rewrite Forall_singleton in Hk1, Hk2.
      simpl. f_equal. apply leafInput_inj; [congruence|].
      apply (collisionFree_inj _ _ _ _ Hsha); [left|right; left|exact E].
    + exfalso. apply (f_equal length) in E. rewrite commitOf_branch, CommitRaw_length in E by (by eapply vector_wf).
      cbn [commitOf] in E. unfold leafHash in E. rewrite sha512_length in E. lia.
  - assert (wf pre1 (BranchNode b1)) as Hw1 by (by constructor). destruct n2 as [l2|b2].
    + exfalso. apply (f_equal length) in E. rewrite commitOf_branch, CommitRaw_length in E by (by eapply vector_wf).
      cbn [commitOf] in E. unfold leafHash in E. rewrite sha512_length in E. lia.
    + pose proof (wf_branch_inv _ _ Hw2) as (Hlen2 & Hch2 & _).
      assert (length (Children b1) = length (Children b2)) as Hlen by (by rewrite Hlen1, Hlen2).
      pose proof Hs as (_ & Hraw & Hz). rewrite !leaves_branch.
      rewrite !commitOf_branch in E. apply (collisionFree_inj _ _ _ _ Hraw) in E;
        [|apply elem_of_app; (by left; left) || (by right; left)..].
      apply leaves_ext; [done|]. intros i o1 o2 H1 H2.
      pose proof (bind_parts _ _ _ _ _ Hlen E H1 H2) as Es.
      destruct o1 as [c1|], o2 as [c2|]; [| | |done].
      * destruct (slots_bind _ _ _ _ _ _ _ Hw1 Hw2 Hk1 Hk2 Hs H1 H2 Es)
          as [(m1 & m2 & -> & -> & Em)|[Ec _]]; [by cbn; rewrite Em|].
        eapply (IH i c1 H1); [by apply Hch2|..|exact Ec];
          [exact (keysLen_child _ _ _ Hk1 H1)|exact (keysLen_child _ _ _ Hk2 H2)|].
        exact (secure_children _ _ _ _ _ Hs H1 H2).
      * exfalso. eapply (slot_occupied b1); [done| |exact Hz|done]. intros x Hx.
        apply elem_of_app. by left.
      * exfalso. eapply (slot_occupied b2); [done| |exact Hz|done]. intros x Hx.
        apply elem_of_app. by right.
Qed.
End Binding.

(** The bytes a map entry binds: its hash target, or its value if it has none. *)
Definition entryTarget (e : entry) : bytes :=
  if decide (e.1.2 = []) then default [] e.1.1 else e.1.2.

Definition boundTargets (m : gmap bytes entry) : gmap bytes bytes := entryTarget <$> m.

Lemma entryTarget_leaf l : entryTarget (leafEntry l).2 = leafTarget l.
Proof.
  unfold entryTarget, leafTarget. cbn [leafEntry fst snd]. rewrite length_nil_eqb.
  case_decide as E; [by rewrite bool_decide_true|by rewrite bool_decide_false].
Qed.

Lemma boundTargets_leaves t :
  boundTargets (contents t) = list_to_map (bound <$> leaves_opt (Root t)).
Proof.
  unfold boundTargets, contents, contents_of. rewrite <- list_to_map_fmap. f_equal.
  rewrite <- list_fmap_compose. apply list_fmap_ext. intros i l _. simpl.
  unfold bound, prod_map. cbn [fst snd]. by rewrite <- entryTarget_leaf.
Qed.

Section Root.
Context `{TreeCrypto}.

Definition treeHashes (t : VectorCommitmentTree) : list bytes :=
  match Root t with None => [] | Some n => hashInputs n end.
Definition treeVectors (t : VectorCommitmentTree) : list bytes :=
  match Root t with None => [] | Some n => vecInputs n end.

Lemma keysOfLength_leaves len t n :
  keysOfLength len (contents t) -> Root t = Some n -> keysLen len n.
Proof.
  intros Hk E. apply Forall_forall. intros l Hl. apply Hk. unfold contents. rewrite E.
  apply contents_of_dom. eauto.
Qed.

(** The root of an empty tree is the root of no other. *)
Lemma root_nonzero clen n :
  (forall x, slotVector x -> length (CommitRaw x 64) = clen) -> clen <> 64%nat ->
  (forall x, length (sha512 x) = 64%nat) -> wf [] n ->
  Forall (fun x => sha512 x <> zeros64) (hashInputs n) -> commitOf n <> zeros64.
Proof.
  intros Hc Hne Hs Hw Hz E. destruct n as [l|b].
  - cbn [hashInputs] in Hz. rewrite Forall_singleton in Hz. done.
  - apply (f_equal length) in E. rewrite commitOf_branch, Hc in E by (by eapply vector_wf).
    unfold zeros64 in E. rewrite length_replicate in E. lia.
Qed.

Lemma rootOf_binds clen len t1 t2 :
  (forall x, length (sha512 x) = 64%nat) ->
  (forall x, slotVector x -> length (CommitRaw x 64) = clen) -> clen <> 64%nat ->
  wf_tree t1 -> wf_tree t2 ->
  keysOfLength len (contents t1) -> keysOfLength len (contents t2) ->
  secureOn (treeHashes t1 ++ treeHashes t2) (treeVectors t1 ++ treeVectors t2) ->
  rootOf t1 = rootOf t2 -> boundTargets (contents t1) = boundTargets (contents t2).
Proof.
  intros Hs Hc Hne Hw1 Hw2 Hk1 Hk2 Hsec E. rewrite !boundTargets_leaves. f_equal.
  pose proof (keysOfLength_leaves len t1) as L1. pose proof (keysOfLength_leaves len t2) as L2.
  unfold wf_tree, rootOf, treeHashes, treeVectors in *.
  destruct (Root t1) as [n1|], (Root t2) as [n2|]; [| | |done].
  - eapply (commitOf_binds clen len); eauto.
  - destruct Hsec as (_ & _ & [Hz _]%Forall_app). by destruct (root_nonzero clen n1 Hc Hne Hs Hw1 Hz).
  - destruct Hsec as (_ & _ & [_ Hz]%Forall_app). by destruct (root_nonzero clen n2 Hc Hne Hs Hw2 Hz).
Qed.

Lemma keysOfLength_ops len m os :
  keysOfLength len m -> Forall (fun o => length (opKey o) = len) os ->
  keysOfLength len (foldl specOp m os).
Proof.
  intros Hm Hos. revert m Hm. induction Hos as [|o os Ho Hos IH]; intros m Hm; [done|].
  apply IH. by apply keysOfLength_op.
Qed.

Lemma runSteps_empty (len : nat) ss :
  (0 < len)%nat -> Forall (fun o => length (opKey o) = len) (stepOps ss) ->
  exists t, runSteps emptyTree ss = Ok t /\ wf_tree t /\ coherentTree t
    /\ keysOfLength len (contents t) /\ contents t = foldl specOp ∅ (stepOps ss).
Proof.
  intros Hlen Hos.
  assert (keysOfLength len ∅) as Hk by (intros k [e He]; done).
  destruct (runSteps_spec len ss emptyTree) as (t & E & Hwf & Hco & Hc); try done.
  exists t. split_and!; [done..| |done]. rewrite Hc. by apply keysOfLength_ops.
Qed.

(** C3: The root commitment is a function of the stored entries alone.  Two
    histories of Insert, Delete and Commit calls on keys of one length that end
    with the same values and hash targets give the same root, whatever the order
    of the calls, the commitments cached on the way, the recorded sizes, and
    whether the last Commit recalculates or reads the cache. *)
Theorem commit_history_independent (len : nat) (ss1 ss2 : list treeStep) :
  (0 < len)%nat ->
  Forall (fun o => length (opKey o) = len) (stepOps ss1) ->
  Forall (fun o => length (opKey o) = len) (stepOps ss2) ->
  unsized (foldl specOp ∅ (stepOps ss1)) = unsized (foldl specOp ∅ (stepOps ss2)) ->
  exists t1 t2, runSteps emptyTree ss1 = Ok t1 /\ runSteps emptyTree ss2 = Ok t2
    /\ forall r1 r2, (Commit t1 r1).1 = (Commit t2 r2).1.
Proof.
  intros Hlen H1 H2 E.
  destruct (runSteps_empty len ss1 Hlen H1) as (t1 & R1 & W1 & Co1 & _ & C1).
  destruct (runSteps_empty len ss2 Hlen H2) as (t2 & R2 & W2 & Co2 & _ & C2).
  exists t1, t2. split_and!; [done..|]. intros r1 r2.
  destruct (Commit_spec t1 r1 W1 Co1) as [-> _]. destruct (Commit_spec t2 r2 W2 Co2) as [-> _].
  apply rootOf_canonical; [done..|]. by rewrite C1, C2.
Qed.

(** C6: The root commitment binds the stored entries.  If two trees reached by
    Insert, Delete and Commit calls on keys of one length have the same root, and
    neither SHA-512 nor the vector commitment has a collision (or a preimage of
    the all-zero empty slot) among the inputs hashed for these two trees, then
    both hold the same keys with the same hash targets (the value, where there is
    no hash target).  Domain bytes, prefixes and empty slots leave no ambiguity. *)
Theorem commit_binding (len clen : nat) (ss1 ss2 : list treeStep)
    (t1 t2 : VectorCommitmentTree) (r1 r2 : bool) :
  (forall x, length (sha512 x) = 64%nat) ->
  (forall x, slotVector x -> length (CommitRaw x 64) = clen) -> clen <> 64%nat -> (0 < len)%nat ->
  Forall (fun o => length (opKey o) = len) (stepOps ss1) ->
  Forall (fun o => length (opKey o) = len) (stepOps ss2) ->
  runSteps emptyTree ss1 = Ok t1 -> runSteps emptyTree ss2 = Ok t2 ->
  secureOn (treeHashes t1 ++ treeHashes t2) (treeVectors t1 ++ treeVectors t2) ->
  (Commit t1 r1).1 = (Commit t2 r2).1 ->
  boundTargets (foldl specOp ∅ (stepOps ss1)) = boundTargets (foldl specOp ∅ (stepOps ss2)).
Proof.
  intros Hs Hc Hne Hlen H1 H2 R1 R2 Hsec E.
  destruct (runSteps_empty len ss1 Hlen H1) as (t1' & R1' & W1 & Co1 & K1 & C1).
  destruct (runSteps_empty len ss2 Hlen H2) as (t2' & R2' & W2 & Co2 & K2 & C2).
  rewrite R1 in R1'. rewrite R2 in R2'. injection R1' as <-. injection R2' as <-.
  destruct (Commit_spec t1 r1 W1 Co1) as [E1 _]. destruct (Commit_spec t2 r2 W2 Co2) as [E2 _].
  rewrite <- C1, <- C2. eapply rootOf_binds; try done. congruence.
Qed.
End Root.

(** ** A concrete instance

    Stand-ins for the primitives, to evaluate the model on an example: the
    "digest" is the padded input, the "vector commitment" the padded non-zero
    bytes of the vector. *)

Definition padded (n : nat) (x : bytes) : bytes := take n (x ++ replicate n Byte.xff).

Lemma padded_length n x : length (padded n x) = n.
Proof. unfold padded. rewrite length_take, length_app, length_replicate. lia. Qed.

Definition demoCrypto : TreeCrypto := {|
  sha512 := padded 64;
  CommitRaw := fun x _ => padded 74 (filter (fun b => b <> Byte.x00) x)
|}.

(** Two histories that end with the same entries. *)
Definition demoSteps1 : list treeStep :=
  [ StepOp (OpInsert [Byte.x01; Byte.x02] (Some [Byte.xaa]) [] 10);
    StepCommit false;
    StepOp (OpInsert [Byte.x01; Byte.x03] (Some [Byte.xbb]) [] 20);
    StepCommit true;
    StepOp (OpInsert [Byte.xf1; Byte.x03] (Some [Byte.xdd]) [] 5);
    StepCommit false;
    StepOp (OpDelete [Byte.x01; Byte.x02]) ].

Definition demoSteps2 : list treeStep :=
  [ StepOp (OpInsert [Byte.xf1; Byte.x03] (Some [Byte.xdd]) [] 7);
    StepOp (OpInsert [Byte.x01; Byte.x03] (Some [Byte.xbb]) [] 20) ].

Lemma commit_history_independent_witness :
  exists t1 t2,
    @runSteps demoCrypto emptyTree demoSteps1 = Ok t1
    /\ @runSteps demoCrypto emptyTree demoSteps2 = Ok t2
    /\ forall r1 r2, (@Commit demoCrypto t1 r1).1 = (@Commit demoCrypto t2 r2).1.
Proof.
  apply (@commit_history_independent demoCrypto 2 demoSteps1 demoSteps2);
    [lia|repeat constructor..|].
  apply (bool_decide_unpack _). vm_compute. exact I.
Defined.

#[local] Instance secureOn_dec `{TreeCrypto} hs vs : Decision (secureOn hs vs).
Proof. unfold secureOn, collisionFree. apply _. Defined.

Definition demoTree (ss : list treeStep) : VectorCommitmentTree :=
  match @runSteps demoCrypto emptyTree ss with Ok t => t | _ => emptyTree end.

Lemma commit_binding_witness :
  boundTargets (foldl specOp ∅ (stepOps demoSteps1))
  = boundTargets (foldl specOp ∅ (stepOps demoSteps2)).
Proof.
  apply (@commit_binding demoCrypto 2 74 demoSteps1 demoSteps2
           (demoTree demoSteps1) (demoTree demoSteps2) false true).
  - intros x. apply (padded_length 64).
  - intros x _. apply (padded_length 74).
  - lia.
  - lia.
  - repeat constructor.
  - repeat constructor.
  - vm_compute. reflexivity.
  - vm_compute. reflexivity.
  - apply (bool_decide_unpack _). vm_compute. exact I.
  - vm_compute. reflexivity.
Defined.
