(* ===== verification/ProofTreeProveSpec.v ===== *)
(** * Correctness of traversal proofs

    The lemmas and properties about the model of ProofTreeProve. *)

From S2P Require Import Prelude Nibbles ProofTree ProofTreeWf ProofTreeOps ProofTreeMap.
From S2P Require Import ProofTreeMeta ProofTreeCommit ProofTreeCanon ProofTreeProve.

(** ** Caches are closed downwards

    A node that caches its commitment has children that cache theirs; Prove
    relies on it when it reads the children's caches. *)

Definition topCached (n : node) : Prop :=
  match n with
  | LeafNode l => LeafCommitment l <> []
  | BranchNode b => BranchCommitment b <> []
  end.

Definition cachedBelow (b : branch) : Prop :=
  BranchCommitment b <> [] -> forall i c, Children b !! i = Some (Some c) -> topCached c.

Lemma cachedBelow_nil p cs sz lc lb : cachedBelow (mkBranch p cs [] sz lc lb).
Proof. intros Hb. by destruct Hb. Qed.

Lemma cachedBelow_prefix (b : branch) p cm :
  cm = [] \/ cm = BranchCommitment b -> cachedBelow b ->
  cachedBelow (mkBranch p (Children b) cm (BranchSize b) (LeafCount b) (LongestBranch b)).
Proof. intros [->| ->] Hb; [apply cachedBelow_nil|done]. Qed.

Definition cachedTree (t : VectorCommitmentTree) : Prop := everyBranchOpt cachedBelow (Root t).

Lemma insertNode_cached key value hashTarget size pre n d n' :
  wf pre n -> pre `prefix_of` path key -> (forall l, l ∈ leaves n -> compat (Key l) key) ->
  everyBranch cachedBelow n ->
  insertNode key value hashTarget size n (BranchBits * Z.of_nat (length pre)) = Ok (d, n') ->
  everyBranch cachedBelow n'.
Proof.
  intros Hwf Hk Hc Hb Hins.
  refine (insertNode_every key value hashTarget size cachedBelow (fun _ => True)
            cachedBelow_prefix _ _ _ _ pre n d n' Hwf Hk Hc I Hb Hins);
    intros; first [apply cachedBelow_nil|done].
Qed.

Lemma removeNode_cached key pre n size on :
  wf pre n -> pre `prefix_of` path key -> (forall l, l ∈ leaves n -> compat (Key l) key) ->
  everyBranch cachedBelow n ->
  removeNode key n (BranchBits * Z.of_nat (length pre)) = Ok (size, on) ->
  everyBranchOpt cachedBelow on.
Proof.
  intros Hwf Hk Hc Hb Hrm.
  refine (removeNode_every key cachedBelow cachedBelow_prefix _ pre n size on Hwf Hk Hc Hb Hrm).
  intros; apply cachedBelow_nil.
Qed.

Lemma applyOp_cached t o t' :
  wf_tree t -> keyFits (contents t) (opKey o) -> cachedTree t ->
  applyOp t o = Ok t' -> cachedTree t'.
Proof.
  intros Hwf Hfit Hco Ho. pose proof (keyFits_leaves _ _ Hfit) as Hc. destruct Hfit as [Hne _].
  unfold cachedTree, everyBranchOpt in *.
  destruct o as [k v h s|k]; simpl in Ho, Hc, Hne; [unfold Insert in Ho|unfold Delete in Ho];
    rewrite decide_False in Ho by done; apply result_bind_Ok in Ho as ([d n'] & Ho & E);
    injection E as <-; unfold wf_tree in Hwf; simpl; destruct (Root t) as [n|].
  - intros ? [= <-].
    exact (insertNode_cached _ _ _ _ [] _ _ _ Hwf (prefix_nil _) Hc (Hco _ eq_refl) Ho).
  - injection Ho as <- <-. intros ? [= <-]. constructor.
  - exact (removeNode_cached _ [] _ _ _ Hwf (prefix_nil _) Hc (Hco _ eq_refl) Ho).
  - by injection Ho as <- <-.
Qed.

Section Spec.
Context `{InclusionProver}.
Hypothesis sha512_length : forall x, length (sha512 x) = 64%nat.
Hypothesis CommitRaw_nonempty : forall x, slotVector x -> CommitRaw x 64 <> [].

Lemma leafHash_nonempty l : leafHash l <> [].
Proof using sha512_length.
  intros E. apply (f_equal length) in E. unfold leafHash in E. rewrite sha512_length in E. done.
Qed.

Lemma commitNode_cached r pre n :
  wf pre n -> coherent n -> everyBranch cachedBelow n ->
  topCached (committedNode r n) /\ everyBranch cachedBelow (committedNode r n).
Proof using sha512_length CommitRaw_nonempty.
  revert pre. induction n as [l|b IH] using node_induction; intros pre Hw Hco Hb.
  - split; [|constructor]. unfold committedNode. simpl. unfold leafCommit. rewrite length_nil_eqb.
    destruct (bool_decide_reflect (LeafCommitment l = [])); simpl; [apply leafHash_nonempty|].
    destruct r; simpl; [apply leafHash_nonempty|done].
  - unfold committedNode. rewrite commitNode_branch.
    destruct (bool_decide_reflect (BranchCommitment b = [])) as [E|E]; cbn [orb].
    2: destruct r; [|done].
    all: cbn [fst snd topCached BranchCommitment]; split;
      [rewrite committedData_children by (intros; by eapply commitNode_coherent, coherent_child);
       apply CommitRaw_nonempty; by eapply vector_wf|].
    all: apply wf_branch_inv in Hw as (_ & Hw & _); apply everyBranch_inv in Hb as [Hb Hch]; constructor; simpl;
      [intros _ i c' Hi|intros i c' Hi]; apply committed_lookup in Hi as (c & Hi & ->);
      by apply (IH i c Hi _ (Hw _ _ Hi) (coherent_child _ _ _ Hco Hi)), (Hch i).
Qed.

(** A cached node commits to itself. *)
Lemma topCached_commit n :
  topCached n -> coherent n -> commitNode false n = (commitOf n, n).
Proof.
  intros Ht Hco. destruct (commitNode_coherent false n Hco) as [E _].
  destruct n as [l|b].
  - simpl in *. unfold leafCommit in *. rewrite length_nil_eqb, bool_decide_false in * by done.
    simpl in *. congruence.
  - rewrite commitNode_branch, bool_decide_false in * by done. simpl in E |- *. congruence.
Qed.

Lemma cachedSlot_childBytes oc :
  (forall c, oc = Some c -> topCached c /\ coherent c) -> cachedSlot oc = childBytes oc.
Proof.
  destruct oc as [c|]; [|done]. intros Hc. destruct (Hc c eq_refl) as [Ht Hco].
  pose proof (topCached_commit c Ht Hco) as E. destruct c as [l|b]; simpl in *.
  - unfold leafCommit in E. rewrite length_nil_eqb, bool_decide_false in E by done.
    simpl in E. congruence.
  - f_equal. destruct Hco as [_ [[?|?] _]%everyBranch_inv]; done.
Qed.

(** The polynomial of a branch: the slots of its children. *)
Definition polyOf (b : branch) : bytes := Children b ≫= childBytes.

Lemma GetPolynomial_polyOf (b : branch) :
  topCached (BranchNode b) -> coherent (BranchNode b) -> everyBranch cachedBelow (BranchNode b) ->
  GetPolynomial b = polyOf b.
Proof.
  intros Ht Hco Hb. apply everyBranch_inv in Hb as [Hb _].
  unfold GetPolynomial, polyOf. specialize (Hb Ht).
  assert (forall i c, Children b !! i = Some (Some c) -> coherent c) as Hc.
  { intros i c. by apply coherent_child. }
  clear -Hb Hc. revert Hb Hc.
  induction (Children b) as [|oc cs IH]; intros Hb Hc; [done|]. rewrite !bind_cons. f_equal.
  - apply cachedSlot_childBytes. intros c ->. split; [by apply (Hb 0%nat)|by apply (Hc 0%nat)].
  - apply IH; intros i; [apply (Hb (S i))|apply (Hc (S i))].
Qed.

(** Slot [i] of a vector of 64-byte parts. *)
Lemma slots_slice (cs : list (option node)) i oc :
  cs !! i = Some oc ->
  length (cs ≫= childBytes) = (64 * length cs)%nat
  /\ slice (cs ≫= childBytes) (Z.of_nat i * 64) ((Z.of_nat i + 1) * 64) = Ok (childBytes oc)
  /\ take 64 (drop (64 * i) (cs ≫= childBytes)) = childBytes oc.
Proof using sha512_length.
  intros Hi.
  assert (forall cs : list (option node), length (cs ≫= childBytes) = (64 * length cs)%nat) as Hl.
  { intros ds. induction ds as [|d ds IH]; [done|].
    rewrite bind_cons, length_app, IH, childBytes_length by done. simpl. lia. }
  assert (take 64 (drop (64 * i) (cs ≫= childBytes)) = childBytes oc) as Hs.
  { apply list_elem_of_split_length in Hi as (a & b & -> & ->).
    rewrite bind_app, bind_cons.
    rewrite drop_app_length' by (rewrite Hl; lia).
    apply take_app_length'. by rewrite childBytes_length. }
  split_and!; [apply Hl| |done].
  unfold slice. rewrite decide_True; [|rewrite Hl; apply lookup_lt_Some in Hi; lia].
  rewrite <- Hs. f_equal. f_equal; [lia|]. f_equal. lia.
Qed.

(** ** The opening of a leaf

    [opens n l polys commits ys paths]: the branches from [n] down to the leaf [l],
    with what a proof lists for each. *)
Inductive opens : node -> leaf -> list bytes -> list bytes -> list bytes -> list (list Z) -> Prop :=
| opens_leaf l : opens (LeafNode l) l [] [leafHash l] [leafTarget l] []
| opens_branch (b : branch) i c l polys commits ys paths :
    Children b !! i = Some (Some c) -> length (Children b) = 64%nat ->
    Forall (fun x => 0 <= x < 64) (Prefix b) ->
    opens c l polys commits ys paths ->
    opens (BranchNode b) l (polyOf b :: polys) (commitOf (BranchNode b) :: commits)
      (childBytes (Some c) :: ys) ((Prefix b ++ [Z.of_nat i]) :: paths).

Lemma proveNode_branch fuel key pre (b : branch) i oc :
  wf pre (BranchNode b) -> topCached (BranchNode b) -> coherent (BranchNode b) ->
  everyBranch cachedBelow (BranchNode b) ->
  prefixMismatch key (BranchBits * Z.of_nat (length pre)) 0 (Prefix b) = None ->
  nib key (length (pre ++ Prefix b)) = Z.of_nat i -> Children b !! i = Some oc ->
  proveNode (S fuel) key (BranchNode b) (BranchBits * Z.of_nat (length pre)) =
  match oc with
  | None => Ok (mkOut [polyOf b] [commitOf (BranchNode b)] [childBytes None]
                  [Prefix b ++ [Z.of_nat i]] (BranchNode b))
  | Some c =>
    o ← proveNode fuel key c
          (BranchBits * Z.of_nat (length (pre ++ Prefix b ++ [Z.of_nat i])));
    Ok (mkOut (polyOf b :: outPolys o) (commitOf (BranchNode b) :: outCommits o)
          (childBytes (Some c) :: outYs o) ((Prefix b ++ [Z.of_nat i]) :: outPaths o)
          (BranchNode (setChild b i (Some (outNode o)))))
  end.
Proof using sha512_length.
  intros Hwf Ht Hco Hb Em Hi Hoc. cbn [proveNode]. rewrite Em, depth_next.
  fold (nib key (length (pre ++ Prefix b))). rewrite Hi.
  rewrite (topCached_commit _ Ht Hco), (GetPolynomial_polyOf _ Ht Hco Hb).
  unfold polyOf. destruct (slots_slice _ _ _ Hoc) as (_ & -> & _). cbn [mbind result_bind].
  unfold index. rewrite decide_False, Nat2Z.id, Hoc by lia. cbn [mbind result_bind].
  destruct oc as [c|]; [|done]. by rewrite (depth_child pre (Prefix b) (Z.of_nat i)).
Qed.

(** Proving below a cached node changes nothing, and opens the leaf. *)
Lemma proveNode_found key l pre n fuel :
  wf pre n -> topCached n -> coherent n -> everyBranch cachedBelow n ->
  pre `prefix_of` path key -> (forall l, l ∈ leaves n -> compat (Key l) key) ->
  (length (path key) < fuel + length pre)%nat -> l ∈ leaves n -> Key l = key ->
  exists polys commits ys paths,
    proveNode fuel key n (BranchBits * Z.of_nat (length pre)) = Ok (mkOut polys commits ys paths n)
    /\ opens n l polys commits ys paths.
Proof using sha512_length.
  intros Hwf. revert fuel.
  induction Hwf as [pre l0 Hp|pre b Hlen Hch IH Htwo]; intros fuel Ht Hco Hb Hk Hc Hf Hl E;
    (destruct fuel as [|fuel]; [apply prefix_length in Hk; lia|]).
  - cbn [leaves] in Hl. apply list_elem_of_singleton in Hl as ->.
    pose proof (topCached_commit _ Ht Hco) as Ec. simpl in Ec |- *.
    destruct (leafCommit false l0) as [x y]. simpl in Ec. injection Ec as -> ->.
    rewrite decide_True by done. eexists _, _, _, _. split; [done|constructor].
  - assert (wf pre (BranchNode b)) as Hwf by (by constructor).
    pose proof (prefixMismatch_wf key pre b Hwf Hk) as Hm.
    destruct (prefixMismatch key _ 0 (Prefix b)) as [[[k e] a]|] eqn:Em.
    { exfalso. eapply mismatch_absent; [exact Hwf| |exact Hl|exact E].
      eapply mismatch_not_prefix; eauto. }
    apply elem_leaves in Hl as (i & c & Hi & Hl).
    pose proof (wf_leaves_child _ _ _ _ _ Hwf Hi Hl) as Hpl. rewrite E in Hpl.
    assert (nib key (length (pre ++ Prefix b)) = Z.of_nat i) as Hn.
    { apply nib_prefix. by rewrite <- app_assoc. }
    rewrite (proveNode_branch _ _ _ _ _ _ Hwf Ht Hco Hb Em Hn Hi).
    pose proof (everyBranch_inv _ _ Hb) as [Hb0 Hbc].
    destruct (IH i c Hi fuel) as (polys & commits & ys & paths & -> & Ho);
      [by eapply Hb0|by eapply coherent_child|by eapply Hbc|done| | |done|done|].
    { intros l' Hl'. apply Hc, elem_leaves. eauto. }
    { rewrite !length_app in *. simpl. lia. }
    cbn [mbind result_bind outPolys outCommits outYs outPaths outNode]. eexists _, _, _, _. split.
    { do 3 f_equal. unfold setChild. rewrite list_insert_id by done. by destruct b. }
    econstructor; try done. by eapply wf_prefix_range.
Qed.

(** An absent key: as many paths as commitments, so the shape check fails. *)
Lemma proveNode_absent key pre n fuel :
  wf pre n -> topCached n -> coherent n -> everyBranch cachedBelow n ->
  pre `prefix_of` path key -> (forall l, l ∈ leaves n -> compat (Key l) key) ->
  (length (path key) < fuel + length pre)%nat -> (forall l, l ∈ leaves n -> Key l <> key) ->
  exists o, proveNode fuel key n (BranchBits * Z.of_nat (length pre)) = Ok o
    /\ length (outPaths o) = length (outCommits o)
    /\ Forall (fun p => p <> []) (outPaths o).
Proof using sha512_length.
  intros Hwf. revert fuel.
  induction Hwf as [pre l0 Hp|pre b Hlen Hch IH Htwo]; intros fuel Ht Hco Hb Hk Hc Hf Hl;
    (destruct fuel as [|fuel]; [apply prefix_length in Hk; lia|]).
  - simpl. destruct (leafCommit false l0) as [x y]. rewrite decide_False; [by eexists|].
    apply Hl. by apply list_elem_of_singleton.
  - assert (wf pre (BranchNode b)) as Hwf by (by constructor).
    pose proof (prefixMismatch_wf key pre b Hwf Hk) as Hm.
    destruct (prefixMismatch key _ 0 (Prefix b)) as [[[k e] a]|] eqn:Em.
    { cbn [proveNode]. rewrite Em. by eexists. }
    destruct (descend_nibble key pre b Hwf Hm Hc) as (i & oc & Hn & Hi64 & Hi & Hki).
    rewrite (proveNode_branch _ _ _ _ _ _ Hwf Ht Hco Hb Em Hn Hi).
    assert (forall x, Prefix b ++ [x] <> []) as Hne by (intros x; by destruct (Prefix b)).
    destruct oc as [c|]; [|eexists; split_and!; [done..|]; by repeat constructor].
    pose proof (everyBranch_inv _ _ Hb) as [Hb0 Hbc].
    destruct (IH i c Hi fuel) as (o & -> & Ho & Hp);
      [by eapply Hb0|by eapply coherent_child|by eapply Hbc|done| | | |].
    { intros l' Hl'. apply Hc, elem_leaves. eauto. }
    { rewrite !length_app in *. simpl. lia. }
    { intros l' Hl'. apply Hl, elem_leaves. eauto. }
    eexists. split; [done|]. simpl. split; [by rewrite Ho|by constructor].
Qed.

(** Prove on a node and on the committed node give the same. *)
Lemma proveNode_commit fuel key pre n d :
  wf pre n -> coherent n -> everyBranch cachedBelow n ->
  (forall b, n = BranchNode b -> prefixMismatch key d 0 (Prefix b) = None) ->
  proveNode (S fuel) key n d = proveNode (S fuel) key (committedNode false n) d.
Proof using sha512_length CommitRaw_nonempty.
  intros Hw Hco Hb Hm. destruct (commitNode_cached false pre n Hw Hco Hb) as [Ht _].
  destruct (commitNode_coherent false n Hco) as [E1 Hco'].
  pose proof (topCached_commit _ Ht Hco') as E2. rewrite committed_commitOf in E2.
  destruct n as [l|b].
  - unfold committedNode in E2 |- *. simpl in *.
    destruct (leafCommit false l) as [x y] eqn:E. simpl in *.
    destruct (leafCommit false y) as [x' y'] eqn:E'. simpl in E2. injection E2 as -> ->.
    unfold leafCommit in E. destruct (_ || _); injection E as <- <-; simpl; [done|].
    by rewrite E1.
  - specialize (Hm b eq_refl). destruct (committedNode_Children false b) as [cm Ec].
    set (b' := mkBranch _ _ _ _ _ _) in Ec. rewrite Ec in E2 |- *. cbn [proveNode].
    rewrite E2. change (Prefix b') with (Prefix b). rewrite Hm.
    unfold committedNode in Ec. destruct (commitNode false (BranchNode b)) as [x y].
    simpl in E1, Ec. subst x y. done.
Qed.

Lemma Commit_root t n : Root t = Some n -> Root (Commit t false).2 = Some (committedNode false n).
Proof. intros E. unfold Commit. by rewrite E. Qed.

(** What the proofs need of a tree. *)
Definition goodTree (t : VectorCommitmentTree) : Prop :=
  wf_tree t /\ coherentTree t /\ cachedTree t.

Lemma Commit_good t r :
  goodTree t -> goodTree (Commit t r).2 /\ contents (Commit t r).2 = contents t.
Proof using sha512_length CommitRaw_nonempty.
  intros (Hw & Hco & Hca). destruct (Commit_spec t r Hw Hco) as (_ & ? & ? & ?).
  split; [|done]. split_and!; [done..|]. intros n' E. unfold Commit in E.
  destruct (Root t) as [n|] eqn:En; [|simpl in E; congruence].
  simpl in E. injection E as <-. unfold wf_tree in Hw. rewrite En in Hw. by eapply commitNode_cached; eauto.
Qed.

Lemma root_fuel key (n : node) : (length (path key) < prove_fuel key + length (@nil Z))%nat.
Proof. rewrite path_length. pose proof (npath_fuel key). unfold prove_fuel. cbn [length]. lia. Qed.

Lemma committed_keys n l :
  l ∈ leaves (committedNode false n) -> exists l', l' ∈ leaves n /\ leafEntry l' = leafEntry l.
Proof.
  intros Hl. apply (list_elem_of_fmap_2 leafEntry) in Hl. rewrite committed_entries in Hl.
  apply list_elem_of_fmap in Hl as (l' & E & Hl'). eauto.
Qed.

Lemma proveRoot_found t key n l :
  goodTree t -> keyFits (contents t) key ->
  Root (Commit t false).2 = Some n -> l ∈ leaves n -> Key l = key ->
  exists polys commits ys paths,
    proveRoot t key = Ok (polys, commits, ys, paths, (Commit t false).2)
    /\ opens n l polys commits ys paths.
Proof using sha512_length CommitRaw_nonempty.
  intros Hg Hfit En Hl Ek. pose proof (Commit_good t false Hg) as [(Hw' & Hco' & Hca') Ec].
  destruct Hg as (Hw & Hco & Hca).
  rewrite <- Ec in Hfit. pose proof (keyFits_leaves _ _ Hfit) as Hc. rewrite En in Hc.
  unfold proveRoot. unfold wf_tree in Hw, Hw'. rewrite En in Hw'.
  destruct (Root t) as [n0|] eqn:E0; [|unfold Commit in En; rewrite E0 in En; simpl in En; congruence].
  rewrite (Commit_root _ _ E0) in En. injection En as <-.
  destruct (commitNode_cached false [] n0 Hw (Hco _ E0) (Hca _ E0)) as [Ht Hb].
  destruct (proveNode_found key l [] _ (prove_fuel key) Hw' Ht
              (Hco' _ (Commit_root _ _ E0)) Hb (prefix_nil _) Hc (root_fuel key n0) Hl Ek)
    as (polys & commits & ys & paths & E & Ho).
  exists polys, commits, ys, paths. split; [|done].
  change (BranchBits * Z.of_nat (length [])) with 0 in E.
  unfold prove_fuel in *. rewrite (proveNode_commit _ _ []), E; [simpl|done|by apply Hco|by apply Hca|].
  - do 2 f_equal. unfold Commit. by rewrite E0.
  - intros b ->. destruct (prefixMismatch key 0 0 (Prefix b)) as [[[k e] a]|] eqn:Em; [|done].
    exfalso. destruct (committed_keys _ _ Hl) as (l' & Hl' & El).
    eapply (mismatch_absent key [] b Hw); [|exact Hl'|unfold leafEntry in El; congruence].
    eapply mismatch_not_prefix; [done|apply prefix_nil|exact Em].
Qed.

Lemma proveRoot_absent t key :
  goodTree t -> keyFits (contents t) key -> contents t !! key = None ->
  exists polys commits ys paths t', proveRoot t key = Ok (polys, commits, ys, paths, t')
    /\ length paths = length commits /\ Forall (fun p => p <> []) paths.
Proof using sha512_length CommitRaw_nonempty.
  intros Hg Hfit Habs. pose proof (Commit_good t false Hg) as [(Hw' & Hco' & Hca') Ec].
  destruct Hg as (Hw & Hco & Hca). rewrite <- Ec in Hfit, Habs.
  pose proof (keyFits_leaves _ _ Hfit) as Hc.
  unfold proveRoot. unfold wf_tree in Hw, Hw'.
  destruct (Root t) as [n0|] eqn:E0; [|by eexists _, _, _, _, _].
  pose proof (Commit_root _ _ E0) as En. rewrite En in Hw', Hc.
  destruct (commitNode_cached false [] n0 Hw (Hco _ E0) (Hca _ E0)) as [Ht Hb].
  destruct (proveNode_absent key [] _ (prove_fuel key) Hw' Ht
              (Hco' _ En) Hb (prefix_nil _) Hc (root_fuel key n0))
    as (o & E & Ho & Hp).
  { intros l Hl Ek. unfold contents in Habs. rewrite En in Habs.
    destruct (proj2 (contents_of_dom (leaves_opt (Some (committedNode false n0))) key)) as [e He];
      [by exists l|congruence]. }
  change (BranchBits * Z.of_nat (length [])) with 0 in E. unfold prove_fuel in *.
  assert ((exists b x, n0 = BranchNode b /\ prefixMismatch key 0 0 (Prefix b) = Some x)
          \/ (forall b, n0 = BranchNode b -> prefixMismatch key 0 0 (Prefix b) = None))
    as [(b & x & -> & Em)|Hm].
  { destruct n0 as [l|b]; [by right|].
    destruct (prefixMismatch key 0 0 (Prefix b)) eqn:Em; [left; eauto|right; by intros ? [= <-]]. }
  - cbn [proveNode]. rewrite Em. by eexists _, _, _, _, _.
  - rewrite (proveNode_commit _ _ []), E by auto. simpl. by eexists _, _, _, _, _.
Qed.

(** ** What the verifier sees of an opening *)

Definition slotAt (poly : bytes) (i : Z) : bytes := take 64 (drop (64 * Z.to_nat i) poly).

Lemma lastIndex_snoc p x : lastIndex (p ++ [x]) = Ok x.
Proof.
  unfold lastIndex, index. rewrite length_app. cbn [length].
  rewrite decide_False by lia.
  replace (Z.to_nat (Z.of_nat (length p + 1) - 1)) with (length p) by lia.
  by rewrite list_lookup_middle.
Qed.

Lemma slice_app {A} (xs ys : list A) n :
  n = Z.of_nat (length xs) -> slice (xs ++ ys) 0 n = Ok xs.
Proof.
  intros ->. unfold slice. rewrite decide_True by (rewrite length_app; lia).
  by rewrite Z.sub_0_r, Nat2Z.id, drop_0, take_app_length.
Qed.

Lemma allButLast_snoc xs x : allButLast (xs ++ [x]) = Ok xs.
Proof. apply slice_app. rewrite length_app. simpl. lia. Qed.

Lemma slice_tail {A} (x : A) xs : slice (x :: xs) 1 (Z.of_nat (length (x :: xs))) = Ok xs.
Proof.
  unfold slice. rewrite decide_True by (cbn [length]; lia).
  change (drop (Z.to_nat 1) (x :: xs)) with xs. rewrite take_ge; [done|]. cbn [length]. lia.
Qed.

Lemma index_0 {A} (x : A) xs : index (x :: xs) 0 = Ok x.
Proof. done. Qed.

Lemma index_1 {A} (x y : A) xs : index (x :: y :: xs) 1 = Ok y.
Proof. done. Qed.

Lemma u64_nibble x : 0 <= x < 64 -> u64 x = x.
Proof. intros. apply uwrap_small. unfold is_u. lia. Qed.

(** The facts about an opening that the verifier checks. *)
Record openFacts (n : node) (l : leaf) (polys commits ys : list bytes)
    (paths : list (list Z)) (idx : list Z) : Prop := {
  of_len : length idx = length polys;
  of_plen : length paths = length polys;
  of_head : exists rest, commits = commitOf n :: rest;
  of_commits : commits = ((fun p => CommitRaw p 64) <$> polys) ++ [leafHash l];
  of_ys : ys = zip_with slotAt polys idx ++ [leafTarget l];
  of_polys : Forall (fun p => length p = (64 * 64)%nat) polys;
  of_range : Forall (fun i => 0 <= i < 64) idx;
  of_last : lastIndices paths = Ok idx;
  of_paths : pathIndices paths = Ok (paths, idx)
}.

Lemma opens_facts n l polys commits ys paths :
  opens n l polys commits ys paths -> exists idx, openFacts n l polys commits ys paths idx.
Proof using sha512_length.
  induction 1 as [l|b i c l polys commits ys paths Hi Hlen Hp Ho (idx & F)].
  - exists []. split; try done. by eexists.
  - destruct F. destruct (slots_slice _ _ _ Hi) as (Hpl & _ & Hs).
    assert (0 <= Z.of_nat i < 64) as Hi64 by (apply lookup_lt_Some in Hi; lia).
    exists (Z.of_nat i :: idx). split.
    + simpl. by rewrite of_len0.
    + simpl. by rewrite of_plen0.
    + by eexists.
    + rewrite of_commits0. by rewrite commitOf_branch.
    + rewrite of_ys0. simpl. f_equal. unfold slotAt, polyOf. by rewrite Nat2Z.id.
    + constructor; [|done]. unfold polyOf. by rewrite Hpl, Hlen.
    + by constructor.
    + cbn [lastIndices]. rewrite lastIndex_snoc. cbn [mbind result_bind]. by rewrite of_last0.
    + cbn [pathIndices]. rewrite lastIndex_snoc. cbn [mbind result_bind].
      rewrite of_paths0. cbn [mbind result_bind fst snd]. rewrite u64_nibble by done. do 3 f_equal.
      rewrite fmap_app. simpl. rewrite u64_nibble by done. f_equal.
      rewrite <- (list_fmap_id (Prefix b)) at 2. apply list_fmap_ext. intros k x Hx.
      apply u64_nibble. exact (Forall_lookup_1 _ _ _ _ Hp Hx).
Qed.

Lemma opens_chain n l polys commits ys paths :
  opens n l polys commits ys paths -> verifyChain commits paths ys = Ok true.
Proof.
  induction 1 as [l|b i c l polys commits ys paths Hi Hlen Hp Ho IH]; [done|].
  destruct Ho as [l|b' i' c' l polys commits ys paths Hi' Hlen' Hp' Ho'].
  - cbn [verifyChain mbind result_bind]. rewrite index_0. cbn [mbind result_bind].
    rewrite decide_True by done. by rewrite !slice_tail.
  - assert (exists x more, commits = x :: more) as (x & more & ->) by (destruct Ho'; eauto).
    cbn [verifyChain] in IH |- *. rewrite index_1. cbn [mbind result_bind].
    rewrite slice_app by (rewrite length_app; simpl; lia). cbn [mbind result_bind].
    rewrite index_0. cbn [mbind result_bind].
    rewrite decide_True by done. rewrite !slice_tail. cbn [mbind result_bind]. exact IH.
Qed.

(** ** Proving several keys *)

(** The inclusion prover's multiproofs are complete: a multiproof made for
    polynomials of 64 slots verifies against their commitments and values. *)
Definition proverComplete : Prop :=
  forall polys idx, polys <> [] -> length idx = length polys ->
    Forall (fun p => length p = (64 * 64)%nat) polys -> Forall (fun i => 0 <= i < 64) idx ->
    let commits := (fun p => CommitRaw p 64) <$> polys in
    let mp := proverProveMultiple commits polys idx 64 in
    VerifyMultiple commits (zip_with slotAt polys idx) idx 64
      (Multicommitment mp) (MultiProofBytes mp) = true
    /\ Multicommitment mp <> [] /\ MultiProofBytes mp <> [].

(** What a list of sub-proofs for [keys] satisfies against the root of [t]. *)
Record subsFacts (t : VectorCommitmentTree) (keys : list bytes)
    (polys : list bytes) (idx : list Z) (subs : list TraversalSubProof) : Prop := {
  sf_len : length idx = length polys;
  sf_polys : Forall (fun p => length p = (64 * 64)%nat) polys;
  sf_range : Forall (fun i => 0 <= i < 64) idx;
  sf_collect : forall cs ys is0,
    collectOpenings subs cs ys is0
    = Ok (Some (cs ++ ((fun p => CommitRaw p 64) <$> polys),
                ys ++ zip_with slotAt polys idx, is0 ++ idx));
  sf_shape : forallb wellShaped subs = true;
  sf_root : Forall (fun s => exists rest, Commits s = rootOf t :: rest) subs;
  sf_values : (fun s => last (Ys s)) <$> subs = (fun k => boundTargets (contents t) !! k) <$> keys
}.

Lemma opens_sub t n l polys commits ys paths idx :
  Root t = Some n -> goodTree t -> l ∈ leaves n ->
  opens n l polys commits ys paths -> openFacts n l polys commits ys paths idx ->
  subsFacts t [Key l] polys idx [mkSubProof commits ys paths].
Proof.
  intros En (Hw & _ & _) Hl Ho F. pose proof (opens_chain _ _ _ _ _ _ Ho) as Hv. destruct F.
  assert (length ys = S (length polys)) as Hly.
  { rewrite of_ys0, length_app, length_zip_with. simpl. lia. }
  assert (length commits = S (length polys)) as Hlc.
  { rewrite of_commits0, length_app, length_fmap. simpl. lia. }
  split; try done.
  - intros cs y0 is0. cbn [collectOpenings Commits Ys Paths]. rewrite Hlc.
    destruct (Z.leb_spec (Z.of_nat (S (length polys))) 1).
    + destruct polys; [|simpl in *; lia]. destruct idx; [|done]. by rewrite !app_nil_r.
    + rewrite of_last0, Hv. cbn [mbind result_bind].
      rewrite of_commits0, of_ys0, !allButLast_snoc. done.
  - simpl. rewrite andb_true_r. unfold wellShaped. cbn [Commits Ys Paths].
    rewrite Hlc, Hly, of_plen0.
    repeat match goal with |- context [?a =? ?b] => destruct (Z.eqb_spec a b); try lia end.
  - constructor; [|done]. destruct of_head0 as [rest ->]. simpl. exists rest.
    unfold rootOf. by rewrite En.
  - simpl. f_equal. rewrite of_ys0, last_snoc. rewrite boundTargets_leaves, En. symmetry.
    apply elem_of_list_to_map_1; [|by apply (list_elem_of_fmap_2 bound _ l)].
    rewrite <- list_fmap_compose. change (NoDup (Key <$> leaves n)).
    pose proof (wf_tree_nodup t Hw) as Hnd. by rewrite En in Hnd.
Qed.

Lemma subsFacts_cons t k ks polys polys' idx idx' s subs :
  subsFacts t [k] polys idx [s] -> subsFacts t ks polys' idx' subs ->
  subsFacts t (k :: ks) (polys ++ polys') (idx ++ idx') (s :: subs).
Proof.
  intros F G. destruct F, G. split.
  - by rewrite !length_app, sf_len0, sf_len1.
  - by apply Forall_app.
  - by apply Forall_app.
  - intros cs ys is0. specialize (sf_collect0 cs ys is0). cbn [collectOpenings] in *.
    rewrite fmap_app, zip_with_app by done. rewrite !app_assoc, <- sf_collect1.
    destruct (_ <=? 1); [injection sf_collect0 as E1 E2 E3; by rewrite <- E1, <- E2, <- E3|].
    apply result_bind_Ok in sf_collect0 as (a & -> & E). cbn [mbind result_bind].
    apply result_bind_Ok in E as (b & -> & E). cbn [mbind result_bind].
    apply result_bind_Ok in E as (c & -> & E). cbn [mbind result_bind].
    apply result_bind_Ok in E as ([] & -> & E); [|done]. cbn [mbind result_bind].
    injection E as E1 E2 E3. by rewrite E1, E2, E3.
  - simpl in *. rewrite andb_true_r in sf_shape0. by rewrite sf_shape0.
  - rewrite Forall_singleton in sf_root0. by constructor.
  - rewrite !fmap_cons, sf_values1. f_equal. by injection sf_values0.
Qed.

Lemma proveKeys_found t n keys P C Is S0 :
  goodTree t -> Root (Commit t false).2 = Some n ->
  (forall k, k ∈ keys -> is_Some (contents t !! k) /\ keyFits (contents t) k) ->
  exists polys idx subs t',
    proveKeys t keys P C Is S0
      = Ok (P ++ polys, C ++ ((fun p => CommitRaw p 64) <$> polys), Is ++ idx, S0 ++ subs, t')
    /\ subsFacts (Commit t false).2 keys polys idx subs /\ length subs = length keys
    /\ contents t' = contents t
    /\ (keys <> [] -> (exists b, n = BranchNode b) -> polys <> []).
Proof using sha512_length CommitRaw_nonempty.
  revert t P C Is S0. induction keys as [|k keys IH]; intros t P C Is S0 Hg En Hkeys.
  { exists [], [], [], t. rewrite !app_nil_r. split_and!; try done. split; try done.
    intros cs ys is0. by rewrite !app_nil_r. }
  destruct (Hkeys k) as [Hin Hfit]; [by left|].
  destruct (Commit_good t false Hg) as [Hg1 Ec].
  assert (exists l, l ∈ leaves n /\ Key l = k) as (l & Hl & Ek).
  { rewrite <- Ec in Hin. unfold contents in Hin. rewrite En in Hin. by apply contents_of_dom in Hin. }
  destruct (proveRoot_found t k n l Hg Hfit En Hl Ek) as (ps & cs & ys & pa & E & Ho).
  destruct (opens_facts _ _ _ _ _ _ Ho) as [is0 F].
  assert ((Commit (Commit t false).2 false).2 = (Commit t false).2) as Eidem.
  { pose proof En as En'. unfold Commit in En' |- *. destruct (Root t) as [n0|] eqn:E0;
      [|simpl in En'; congruence].
    simpl in En' |- *. injection En' as <-. destruct Hg as (Hw & Hco & Hca). unfold wf_tree in Hw. rewrite E0 in Hw.
    destruct (commitNode_cached false [] n0 Hw (Hco _ E0) (Hca _ E0)) as [Ht _].
    destruct (commitNode_coherent false n0 (Hco _ E0)) as [_ Hco0].
    fold (committedNode false n0). by rewrite (topCached_commit _ Ht Hco0). }
  cbn [proveKeys]. rewrite E. cbn [mbind result_bind]. destruct F as [??????? ? Hpaths] eqn:EF.
  rewrite Hpaths. cbn [mbind result_bind].
  assert (allButLast cs = Ok ((fun p => CommitRaw p 64) <$> ps)) as ->
    by (rewrite of_commits0; apply allButLast_snoc).
  cbn [mbind result_bind].
  destruct (IH (Commit t false).2 (P ++ ps) (C ++ ((fun p => CommitRaw p 64) <$> ps)) (Is ++ is0)
              (S0 ++ [mkSubProof cs ys pa]) Hg1) as (ps' & is' & subs & t' & -> & G & Hls & Hc & _).
  { by rewrite Eidem. }
  { intros k' Hk'. rewrite Ec. apply Hkeys. by right. }
  rewrite Eidem in G. exists (ps ++ ps'), (is0 ++ is'), (mkSubProof cs ys pa :: subs), t'.
  split_and!.
  - rewrite fmap_app, <- !app_assoc. done.
  - rewrite <- Ek. eapply subsFacts_cons; [|done]. by eapply opens_sub.
  - simpl. by rewrite Hls.
  - by rewrite Hc.
  - intros _ [b ->]. inversion Ho. done.
Qed.
End Spec.

(** ** A concrete prover

    Stand-ins that reveal the polynomials, to evaluate the model on examples. *)

Fixpoint chunks (n : nat) (pf : bytes) : list bytes :=
  match n with
  | O => []
  | S n => take (64 * 64) pf :: chunks n (drop (64 * 64) pf)
  end.

Lemma chunks_join polys :
  Forall (fun p => length p = (64 * 64)%nat) polys -> chunks (length polys) (mjoin polys) = polys.
Proof.
  induction 1 as [|p polys Hp _ IH]; [done|]. cbn [length chunks mjoin list_join].
  rewrite take_app_length', drop_app_length' by done. f_equal. exact IH.
Qed.

Definition demoProver : @InclusionProver demoCrypto := {|
  ProveRaw := fun data _ _ => data;
  VerifyRaw := fun slot commit i proof _ =>
    bool_decide (@CommitRaw demoCrypto proof 64 = commit) && bool_decide (slotAt proof i = slot);
  proverProveMultiple := fun _ polys _ _ => mkMultiproof [Byte.x01] (mjoin polys);
  VerifyMultiple := fun commits ys idx _ _ pf =>
    let ps := chunks (length commits) pf in
    bool_decide (commits = (fun p => @CommitRaw demoCrypto p 64) <$> ps)
    && bool_decide (ys = zip_with slotAt ps idx)
|}.

Lemma demoProver_complete : @proverComplete demoCrypto demoProver.
Proof.
  intros polys idx Hne Hl Hp Hi. cbn [demoProver proverProveMultiple VerifyMultiple
    Multicommitment MultiProofBytes]. split_and!; [|done|].
  - rewrite length_fmap, chunks_join by done. by rewrite !bool_decide_true.
  - destruct polys as [|p polys]; [done|]. apply Forall_cons_1 in Hp as [Hp _].
    by destruct p.
Qed.
