(* ===== verification/ProofTreeTraversal.v ===== *)
(** * Properties of traversal proofs

    Completeness, behaviour on absent keys, soundness where the multiproof is
    checked, and the inputs the verifier accepts or panics on unchecked. *)

From S2P Require Import Prelude Nibbles ProofTree ProofTreeWf ProofTreeOps ProofTreeMap.
From S2P Require Import ProofTreeMeta ProofTreeCommit ProofTreeCanon ProofTreeProve ProofTreeProveSpec.

Section Claims.
Context `{InclusionProver}.

(** The keys and values a history of calls leaves stored. *)
Definition historyMap (ss : list treeStep) : gmap bytes entry := foldl specOp ∅ (stepOps ss).

Definition historyOfLength (len : nat) (ss : list treeStep) : Prop :=
  Forall (fun o => length (opKey o) = len) (stepOps ss).

(** The digest and commitment sizes the tree relies on. *)
Definition cryptoSizes : Prop :=
  (forall x, length (sha512 x) = 64%nat) /\ (forall x, slotVector x -> CommitRaw x 64 <> []).

Lemma runSteps_good (len : nat) ss :
  cryptoSizes -> (0 < len)%nat -> historyOfLength len ss ->
  exists t, runSteps emptyTree ss = Ok t /\ goodTree t
    /\ keysOfLength len (contents t) /\ contents t = historyMap ss.
Proof.
  intros [Hs Hc] Hlen Hos.
  assert (keysOfLength len ∅) as Hk by (intros k [e He]; done).
  destruct (runSteps_invariant len (fun t => coherentTree t /\ cachedTree t) Hlen)
    with (ss := ss) (t := emptyTree) as (t & E & Hwf & [Hco Hca] & Ec); try done.
  - intros t o t' Hw Hf [H1 H2] E. split; [by eapply applyOp_coherent|by eapply applyOp_cached].
  - intros t r Hw [H1 H2]. destruct (Commit_good Hs Hc t r) as [(? & ? & ?) ?]; [by split_and!|done].
  - exists t. split_and!; [done..| |done]. rewrite Ec. by apply keysOfLength_ops.
Qed.

Lemma rootOf_Commit t r : goodTree t -> (Commit t r).1 = rootOf t.
Proof. intros (Hw & Hco & _). by destruct (Commit_spec t r Hw Hco). Qed.

Lemma rootOf_committed t r : rootOf (Commit t r).2 = rootOf t.
Proof.
  unfold rootOf, Commit. destruct (Root t) as [n|] eqn:E; simpl; [|by rewrite E].
  apply committed_commitOf.
Qed.

Lemma many_branch t : wf_tree t -> (1 < size (contents t))%nat -> exists b, Root t = Some (BranchNode b).
Proof.
  intros Hw Hs. rewrite size_contents in Hs by done.
  destruct (Root t) as [[l|b]|]; simpl in Hs; [lia|eauto|lia].
Qed.

(** The shape and root checks of the verifier. *)
Lemma verify_facts root mp polys idx subs :
  forallb wellShaped subs = true ->
  Forall (fun s => exists rest, Commits s = root :: rest) subs ->
  collectOpenings subs [] [] [] = Ok (Some ((fun p => CommitRaw p 64) <$> polys,
                                            zip_with slotAt polys idx, idx)) ->
  Multicommitment mp <> [] -> MultiProofBytes mp <> [] ->
  VerifyMultiple ((fun p => CommitRaw p 64) <$> polys) (zip_with slotAt polys idx) idx 64
    (Multicommitment mp) (MultiProofBytes mp) = true ->
  VerifyTreeTraversalProof root (mkTraversalProof mp subs) = Ok true.
Proof.
  intros Hsh Hr Hcol Hm1 Hm2 Hv. unfold VerifyTreeTraversalProof. cbn [TMultiproof SubProofs].
  rewrite !length_nil_eqb, !bool_decide_false by done. rewrite Hsh. cbn [orb negb].
  rewrite (proj2 (forallb_forall _ _)).
  - cbn [negb]. rewrite Hcol. cbn [mbind result_bind]. rewrite Hv, andb_false_r. done.
  - intros s Hs. rewrite Forall_forall in Hr.
    destruct (Hr s) as [rest ->]; [by apply list_elem_of_In|]. by apply bool_decide_true.
Qed.

Lemma ProveMultiple_complete (len : nat) t keys :
  cryptoSizes -> proverComplete -> goodTree t -> (0 < len)%nat -> keysOfLength len (contents t) ->
  keys <> [] -> Forall (fun k => is_Some (contents t !! k)) keys -> (1 < size (contents t))%nat ->
  exists proof t', ProveMultiple t keys = Ok (Some proof, t') /\ contents t' = contents t
    /\ VerifyTreeTraversalProof (Commit t false).1 proof = Ok true
    /\ (fun s => last (Ys s)) <$> SubProofs proof
       = (fun k => boundTargets (contents t) !! k) <$> keys.
Proof.
  intros [Hs Hc] Hprov Hg Hlen Hk Hne Hkeys Hmany. rewrite Forall_forall in Hkeys.
  destruct (Commit_good Hs Hc t false Hg) as [Hg1 Ec].
  destruct (many_branch (Commit t false).2) as [b En]; [apply Hg1|by rewrite Ec|].
  destruct (proveKeys_found Hs Hc t _ keys [] [] [] [] Hg En)
    as (polys & idx & subs & t' & E & F & _ & Et & Hp).
  { intros k Hin. split; [by apply Hkeys|].
    apply (keysOfLength_fits len); [done|by apply Hk, Hkeys|].
    intros ->. specialize (Hk [] (Hkeys _ Hin)). simpl in Hk. lia. }
  destruct F as [Hl Hpo Hr Hcol Hsh Hro Hval]. rewrite !app_nil_l in E.
  destruct (Hprov polys idx) as (Hv & Hm1 & Hm2); [by apply Hp; [|by exists b]|done..|].
  eexists _, t'. split_and!.
  - unfold ProveMultiple. rewrite decide_False by done.
    replace (existsb _ keys) with false; [rewrite E; done|]. symmetry. apply not_true_iff_false.
    intros (k & Hin & Hz)%existsb_exists. apply list_elem_of_In in Hin. apply Z.eqb_eq in Hz.
    specialize (Hk k (Hkeys _ Hin)). lia.
  - done.
  - rewrite rootOf_Commit, <- (rootOf_committed t false) by done.
    eapply verify_facts; try done. apply (Hcol [] [] []).
  - simpl. by rewrite Hval, Ec.
Qed.

(** C5: Proofs of stored keys verify.  After any history of Insert, Delete and
    Commit calls on keys of one length that leaves at least two entries,
    ProveMultiple for any non-empty list of stored keys returns a proof that
    VerifyTreeTraversalProof accepts against the root; its last evaluations are
    the stored hash targets (or values), and the stored entries are unchanged. *)
Theorem traversal_proofs_complete (len : nat) (ss : list treeStep) (keys : list bytes)
    (t : VectorCommitmentTree) :
  cryptoSizes -> proverComplete -> (0 < len)%nat -> historyOfLength len ss ->
  runSteps emptyTree ss = Ok t -> keys <> [] ->
  Forall (fun k => is_Some (historyMap ss !! k)) keys -> (1 < size (historyMap ss))%nat ->
  exists proof t', ProveMultiple t keys = Ok (Some proof, t') /\ contents t' = historyMap ss
    /\ VerifyTreeTraversalProof (Commit t false).1 proof = Ok true
    /\ (fun s => last (Ys s)) <$> SubProofs proof
       = (fun k => boundTargets (historyMap ss) !! k) <$> keys.
Proof.
  intros Hcs Hprov Hlen Hos R Hne Hkeys Hmany.
  destruct (runSteps_good len ss Hcs Hlen Hos) as (t0 & R' & Hg & Hk & Ec).
  rewrite R in R'. injection R' as <-. rewrite <- Ec in *. by eapply ProveMultiple_complete.
Qed.

(** Prove of one key and ProveMultiple of that key alone agree on every tree
    and key, the empty key, absent keys and panics included. *)
Theorem prove_is_prove_multiple (t : VectorCommitmentTree) (key : bytes) :
  Prove t key = ProveMultiple t [key].
Proof.
  unfold Prove, ProveMultiple. rewrite (decide_False (P := [key] = [])) by done.
  cbn [existsb]. rewrite orb_false_r, length_nil_eqb. case_decide as E.
  - by rewrite bool_decide_true.
  - rewrite bool_decide_false by done. cbn [proveKeys].
    destruct (proveRoot t key) as [[[[[p c] y] pa] t']| | |]; try done. cbn [mbind result_bind].
    destruct (pathIndices pa) as [[a b]| | |]; try done. cbn [mbind result_bind].
    by destruct (allButLast c).
Qed.

Lemma pathIndices_nonempty paths :
  Forall (fun p => p <> []) paths ->
  exists ps idx, pathIndices paths = Ok (ps, idx) /\ length ps = length paths.
Proof.
  induction 1 as [|p paths Hp _ (ps & idx & E & Hl)]; [by eexists _, _|].
  destruct (exists_last Hp) as (q & x & ->). cbn [pathIndices]. rewrite lastIndex_snoc, E.
  eexists _, _. split; [done|]. simpl. by rewrite Hl.
Qed.

(** A proof for a key that is not stored never verifies.  On such a key
    (of the right length) Prove either panics (when it meets no branch, the slice
    of the empty commitment list is out of range) or returns a proof that
    VerifyTreeTraversalProof rejects for every root. *)
Theorem traversal_proof_absent (len : nat) (ss : list treeStep) (key : bytes)
    (t : VectorCommitmentTree) :
  cryptoSizes -> (0 < len)%nat -> historyOfLength len ss -> runSteps emptyTree ss = Ok t ->
  length key = len -> historyMap ss !! key = None ->
  Prove t key = Panic
  \/ exists proof t', Prove t key = Ok (Some proof, t')
     /\ forall root, VerifyTreeTraversalProof root proof = Ok false.
Proof.
  intros Hcs Hlen Hos R Hkey Habs.
  destruct (runSteps_good len ss Hcs Hlen Hos) as (t0 & R' & Hg & Hk & Ec).
  rewrite R in R'. injection R' as <-. rewrite <- Ec in Habs.
  assert (key <> []) as Hne by (intros ->; simpl in Hkey; lia).
  destruct Hcs as [Hs Hc].
  destruct (proveRoot_absent Hs Hc t key Hg) as (ps & cs & ys & pa & t' & E & Hl & Hp);
    [by apply (keysOfLength_fits len)|done|].
  destruct (pathIndices_nonempty _ Hp) as (pi & idx & Ei & Hli).
  unfold Prove. rewrite decide_False, E by done. cbn [mbind result_bind].
  rewrite Ei. cbn [mbind result_bind].
  destruct cs as [|c cs]; [by left|]. right.
  unfold allButLast, slice. rewrite decide_True by (cbn [length]; lia). cbn [mbind result_bind].
  eexists _, _. split; [done|]. intros root. unfold VerifyTreeTraversalProof.
  cbn [TMultiproof SubProofs forallb]. destruct (_ || _); [done|].
  unfold wellShaped. cbn [Commits Ys Paths]. rewrite Hli, Hl.
  destruct (Z.eqb_spec (Z.of_nat (length (c :: cs))) (Z.of_nat (length (c :: cs)) - 1)); [lia|].
  cbn [negb]. by rewrite orb_true_r.
Qed.

(** The verifier accepts forged proofs.  For every root and every leaf
    commitment, value and index, the proof that claims the leaf directly below the
    root is accepted with any non-empty multiproof bytes: with a single opened
    commitment the inclusion prover is never asked, and the value is compared with
    nothing. *)
Theorem traversal_proof_forged (root leafCommitment value mc pf : bytes) (i : Z) :
  mc <> [] -> pf <> [] ->
  VerifyTreeTraversalProof root
    (mkTraversalProof (mkMultiproof mc pf)
       [mkSubProof [root; leafCommitment] [leafCommitment; value] [[i]]]) = Ok true.
Proof.
  intros Hmc Hpf. unfold VerifyTreeTraversalProof. cbn [TMultiproof SubProofs Multicommitment MultiProofBytes].
  rewrite !length_nil_eqb, !bool_decide_false by done. cbn [forallb Commits].
  rewrite bool_decide_true by done. unfold wellShaped. cbn [Commits Ys Paths length].
  cbn [collectOpenings Commits Ys Paths length lastIndices].
  change [i] with ([] ++ [i]). rewrite lastIndex_snoc.
  change [root; leafCommitment] with ([root] ++ [leafCommitment]).
  change [leafCommitment; value] with ([leafCommitment] ++ [value]).
  rewrite !allButLast_snoc. cbn [app mbind result_bind verifyChain].
  rewrite index_0. cbn [mbind result_bind]. rewrite decide_True by done.
  rewrite !slice_tail. done.
Qed.

(** A proof with an empty path makes the verifier panic instead of being
    rejected, whatever the root, the commitments and the multiproof are. *)
Theorem traversal_proof_empty_path_panics (root c y v mc pf : bytes) :
  mc <> [] -> pf <> [] ->
  VerifyTreeTraversalProof root
    (mkTraversalProof (mkMultiproof mc pf) [mkSubProof [root; c] [y; v] [[]]]) = Panic.
Proof.
  intros Hmc Hpf. unfold VerifyTreeTraversalProof. cbn [TMultiproof SubProofs Multicommitment MultiProofBytes].
  rewrite !length_nil_eqb, !bool_decide_false by done. cbn [forallb Commits].
  by rewrite bool_decide_true.
Qed.

(** ** Openings of one branch *)

(** Single openings are complete. *)
Definition rawComplete : Prop :=
  forall data i, length data = (64 * 64)%nat -> 0 <= i < 64 ->
    VerifyRaw (slotAt data i) (CommitRaw data 64) i (ProveRaw data i 64) 64 = true.

Lemma committedData_poly (b : branch) :
  coherent (BranchNode b) -> committedData false (Children b) = polyOf b.
Proof.
  intros Hco. apply committedData_children. intros i c Hi. by eapply commitNode_coherent, coherent_child.
Qed.

Lemma committed_slot (b : branch) i oc :
  coherent (BranchNode b) -> Children b !! i = Some oc ->
  committedBytes false (option_fmap _ _ (committedNode false) oc) = childBytes oc.
Proof.
  intros Hco Hi. destruct oc as [c|]; [|done]. simpl.
  pose proof (coherent_child _ _ _ Hco Hi) as Hc.
  destruct (commitNode_coherent false c Hc) as [_ Hc'].
  destruct (commitNode_coherent false _ Hc') as [-> _].
  by rewrite committed_kind, committed_commitOf.
Qed.

(** The opening a branch proves for one of its 64 slots verifies on the
    branch, whether or not the branch had cached its commitment, for branches of
    any tree reached by Insert, Delete and Commit. *)
Theorem branch_opening_complete (b : branch) (i : Z) (pre : list Z) :
  cryptoSizes -> rawComplete -> wf pre (BranchNode b) -> coherent (BranchNode b) -> 0 <= i < 64 ->
  exists b', branchVerify (branchProve b i).2 i (branchProve b i).1 = Ok (true, b').
Proof.
  intros [Hs Hc] Hraw Hwf Hco Hi. pose proof (wf_branch_inv _ _ Hwf) as (Hlen & _ & _).
  destruct (lookup_lt_is_Some_2 (Children b) (Z.to_nat i)) as [oc Hoc]; [lia|].
  destruct (slots_slice Hs _ _ _ Hoc) as (Hpl & Hsl & Hsa). rewrite Z2Nat.id in Hsl by lia.
  assert (VerifyRaw (childBytes oc) (commitOf (BranchNode b)) (u64 i)
            (ProveRaw (polyOf b) i 64) 64 = true) as Hv.
  { rewrite u64_nibble, commitOf_branch, <- Hsa by done. apply Hraw; [|done].
    unfold polyOf. rewrite Hpl, Hlen. done. }
  unfold branchProve, branchVector. cbn [fst snd]. rewrite committedData_poly by done.
  unfold branchVerify. cbn [BranchCommitment Children]. rewrite length_nil_eqb.
  case_bool_decide as Ec.
  - unfold branchVector. cbn [Children].
    assert (committedData false (committedChildren false (Children b)) = polyOf b) as ->.
    { unfold committedData, committedChildren, polyOf. rewrite list_fmap_bind.
      assert (forall j o, Children b !! j = Some o ->
        committedBytes false (option_fmap _ _ (committedNode false) o) = childBytes o) as Hsl'
        by (intros; by eapply committed_slot).
      revert Hsl'. generalize (Children b) as cs. clear. intros cs.
      induction cs as [|o cs IH]; intros Hsl; [done|]. rewrite !bind_cons. f_equal.
      - by apply (Hsl 0%nat).
      - apply IH. intros j. apply (Hsl (S j)). }
    rewrite (Z.mul_comm 64 i), (Z.mul_comm 64 (i + 1)). unfold polyOf in *.
    rewrite Hsl. cbn [mbind result_bind]. rewrite commitOf_branch in Hv. rewrite Hv. eauto.
  - assert (index (committedChildren false (Children b)) i
            = Ok (option_fmap _ _ (committedNode false) oc)) as ->.
    { unfold index. rewrite decide_False by lia. unfold committedChildren.
      by rewrite list_lookup_fmap, Hoc. }
    cbn [mbind result_bind]. rewrite (committed_slot _ _ _ Hco Hoc).
    destruct Hco as [_ [[?|E] _]%everyBranch_inv]; [done|]. rewrite E, Hv. eauto.
Qed.
End Claims.

(** ** Witnesses *)

Lemma demo_sizes : @cryptoSizes demoCrypto.
Proof.
  split; intros x; [apply (padded_length 64)|]. intros _ E. apply (f_equal length) in E.
  simpl in E. rewrite padded_length in E. done.
Qed.

Definition demoSteps3 : list treeStep :=
  [ StepOp (OpInsert [Byte.x01; Byte.x02] (Some [Byte.xaa]) [] 10);
    StepOp (OpInsert [Byte.x01; Byte.x03] (Some [Byte.xbb]) [Byte.xee] 20);
    StepCommit false;
    StepOp (OpInsert [Byte.xf1; Byte.x03] (Some [Byte.xdd]) [] 5) ].

Lemma traversal_proofs_complete_witness :
  exists proof t',
    @ProveMultiple demoCrypto demoProver (demoTree demoSteps3) [[Byte.x01; Byte.x03]; [Byte.xf1; Byte.x03]]
      = Ok (Some proof, t')
    /\ contents t' = historyMap demoSteps3
    /\ @VerifyTreeTraversalProof demoCrypto demoProver
         (@Commit demoCrypto (demoTree demoSteps3) false).1 proof = Ok true
    /\ (fun s => last (Ys s)) <$> SubProofs proof
       = (fun k => boundTargets (historyMap demoSteps3) !! k)
           <$> [[Byte.x01; Byte.x03]; [Byte.xf1; Byte.x03]].
Proof.
  apply (@traversal_proofs_complete demoCrypto demoProver 2 demoSteps3).
  - exact demo_sizes.
  - exact demoProver_complete.
  - lia.
  - repeat constructor.
  - vm_compute. reflexivity.
  - done.
  - repeat constructor; apply (bool_decide_unpack _); vm_compute; exact I.
  - vm_compute. lia.
Defined.

Lemma traversal_proof_absent_witness :
  @Prove demoCrypto demoProver (demoTree demoSteps3) [Byte.x01; Byte.x07] = Panic
  \/ exists proof t',
    @Prove demoCrypto demoProver (demoTree demoSteps3) [Byte.x01; Byte.x07] = Ok (Some proof, t')
    /\ forall root, @VerifyTreeTraversalProof demoCrypto demoProver root proof = Ok false.
Proof.
  apply (@traversal_proof_absent demoCrypto demoProver 2 demoSteps3).
  - exact demo_sizes.
  - lia.
  - repeat constructor.
  - vm_compute. reflexivity.
  - reflexivity.
  - vm_compute. reflexivity.
Defined.

Lemma traversal_proof_forged_witness :
  @VerifyTreeTraversalProof demoCrypto demoProver
    (@Commit demoCrypto (demoTree demoSteps3) false).1
    (mkTraversalProof (mkMultiproof [Byte.x00] [Byte.x00])
       [mkSubProof [(@Commit demoCrypto (demoTree demoSteps3) false).1; [Byte.x42]]
          [[Byte.x42]; [Byte.x99]] [[7]]]) = Ok true.
Proof. by apply (@traversal_proof_forged demoCrypto demoProver). Defined.

Lemma traversal_proof_empty_path_panics_witness :
  @VerifyTreeTraversalProof demoCrypto demoProver [Byte.x05]
    (mkTraversalProof (mkMultiproof [Byte.x00] [Byte.x00])
       [mkSubProof [[Byte.x05]; [Byte.x42]] [[Byte.x42]; [Byte.x99]] [[]]]) = Panic.
Proof. by apply (@traversal_proof_empty_path_panics demoCrypto demoProver). Defined.

Lemma demo_rawComplete : @rawComplete demoCrypto demoProver.
Proof. intros data i Hl Hi. simpl. by rewrite !bool_decide_true. Qed.

(** A branch with two fresh leaves. *)
Definition demoBranch : branch :=
  mkBranch [] (twoChildren 0 (LeafNode (mkLeaf [Byte.x01] (Some []) [] [] 1))
                 16 (LeafNode (mkLeaf [Byte.x41] (Some []) [] [] 1))) [] 2 2 1.

Lemma demoBranch_wf : wf [] (BranchNode demoBranch).
Proof.
  eapply wf_two; [reflexivity|lia|lia|lia|..]; constructor;
    (apply prefix_of_app_r || idtac); by eexists.
Qed.

Lemma demoBranch_coherent : @coherent demoCrypto (BranchNode demoBranch).
Proof.
  split.
  - apply Forall_forall. intros l Hl. apply elem_leaves in Hl as (i & c & Hi & Hl).
    apply twoChildren_lookup in Hi as [[_ ->]|[_ ->]]; [..|lia|lia|lia];
      apply list_elem_of_singleton in Hl as ->; by left.
  - eapply every_two; [reflexivity|lia|lia|lia|by left|constructor..].
Qed.

Lemma branch_opening_complete_witness :
  exists b', @branchVerify demoCrypto demoProver (@branchProve demoCrypto demoProver demoBranch 16).2 16
    (@branchProve demoCrypto demoProver demoBranch 16).1 = Ok (true, b').
Proof.
  apply (@branch_opening_complete demoCrypto demoProver demoBranch 16 []).
  - exact demo_sizes.
  - exact demo_rawComplete.
  - exact demoBranch_wf.
  - exact demoBranch_coherent.
  - lia.
Defined.
