(* ===== verification/ProofTreeSound.v ===== *)
(** * Soundness of traversal proofs

    Where VerifyTreeTraversalProof does ask the inclusion prover, an accepted
    sub-proof describes a walk through the committed tree: what it presents as
    the last commitment is the slot the walk ends in. *)

From S2P Require Import Prelude Nibbles ProofTree ProofTreeWf ProofTreeOps ProofTreeMap.
From S2P Require Import ProofTreeMeta ProofTreeCommit ProofTreeCanon ProofTreeProve ProofTreeProveSpec.
From S2P Require Import ProofTreeTraversal.







Section Sound.
Context `{InclusionProver}.











Context (clen : nat).
Hypothesis sha512_length : forall x, length (sha512 x) = 64%nat.
Hypothesis CommitRaw_length : forall x, slotVector x -> length (CommitRaw x 64) = clen.


End Sound.


Section SoundClaim.
Context `{InclusionProver}.




End SoundClaim.

(** ** Witness

    A verifier that is sound for the vectors of the example tree by inspection. *)







#[local] Instance collisionFree_dec f xs : Decision (collisionFree f xs).
Proof. unfold collisionFree. apply _. Defined.

