(* ===== verification/Wire.v ===== *)
(** * Byte buffers and canonical encodings

    The part of [bytes.Buffer], [encoding/binary] and [io] that the canonical
    codecs of protobufs/ and the tree serialisation of types/tries/ use, as a
    reader monad and writer functions, with the compositional lemmas from which
    the round trips follow.

    A decoder is run on a fresh message, as its callers do; on an error Go leaves
    the receiver half filled and returns the error, which is all that is kept
    here.  Allocation is not modelled: [make([]byte, n)] succeeds. *)

From S2P Require Import Prelude.

(** ** Readers *)

Definition reader (A : Type) : Type := bytes -> result (A * bytes).

#[export] Instance reader_ret : MRet reader := fun A a s => Ok (a, s).
#[export] Instance reader_bind : MBind reader := fun A B f p s =>
  match p s with
  | Ok (a, s') => f a s'
  | Err e => Err e
  | Panic => Panic
  | Diverge => Diverge
  end.

Definition fail {A} (msg : string) : reader A := fun _ => Err msg.

(** A computation that does not read. *)
Definition lift {A} (r : result A) : reader A := fun s =>
  match r with
  | Ok a => Ok (a, s)
  | Err e => Err e
  | Panic => Panic
  | Diverge => Diverge
  end.

Definition errEOF : string := "EOF".
Definition errUnexpectedEOF : string := "unexpected EOF".

(** [io.ReadFull] on [n] bytes. *)
Definition readFull (n : nat) : reader bytes := fun s =>
  if decide (n <= length s)%nat then Ok (take n s, drop n s)
  else if decide (s = []) then Err errEOF
  else Err errUnexpectedEOF.

(** [buf.Read(make([]byte, n))]: an error only on an empty buffer; a short buffer
    fills the front of the slice and leaves the rest zero. *)
Definition bufRead (n : nat) : reader bytes := fun s =>
  if decide (s = []) then if decide (n = 0%nat) then Ok ([], []) else Err errEOF
  else Ok (take n s ++ replicate (n - length s) Byte.x00, drop n s).

(** [binary.Read] of an unsigned integer of [n] bytes. *)
Definition readUint (n : nat) : reader Z := b ← readFull n; mret (be_val b).
Definition readU8 : reader Z := readUint 1.
Definition readU32 : reader Z := readUint 4.
Definition readU64 : reader Z := readUint 8.
Definition readI64 : reader Z := z ← readUint 8; mret (i64 z).
Definition readI32 : reader Z := z ← readUint 4; mret (i32 z).

Definition readBool : reader bool := z ← readU8; mret (negb (z =? 0)).

(** The loop [for i := uint32(0); i < n; i++] that reads one element a time. *)
Fixpoint readMany {A} (p : reader A) (n : nat) : reader (list A) :=
  match n with
  | O => mret []
  | S n => x ← p; xs ← readMany p n; mret (x :: xs)
  end.

(** A 32-bit length and so many bytes, through [buf.Read]. *)
Definition readBytes : reader bytes := n ← readU32; bufRead (Z.to_nat n).

(** A 32-bit count and so many elements. *)
Definition readSeq {A} (p : reader A) : reader (list A) := n ← readU32; readMany p (Z.to_nat n).

(** A length-prefixed embedded message. *)
Definition readMsg {A} (from : bytes -> result A) : reader A := b ← readBytes; lift (from b).

(** An embedded message, nil when its length is zero. *)
Definition readOpt {A} (from : bytes -> result A) : reader (option A) :=
  n ← readU32;
  if 0 <? n then b ← bufRead (Z.to_nat n); a ← lift (from b); mret (Some a)
  else mret None.

(** An embedded message that is always there. *)
Definition readReq {A} (from : bytes -> result A) : reader (option A) :=
  a ← readMsg from; mret (Some a).

(** An entry of a map: its key and an embedded message. *)
Definition readEntry {A} (from : bytes -> result A) : reader (bytes * A) :=
  k ← readBytes; a ← readMsg from; mret (k, a).

(** [m[key] = a], entry by entry. *)
Definition addEntries {A} (es : list (bytes * A)) : gmap bytes A :=
  foldl (fun m e => <[e.1 := e.2]> m) ∅ es.

Definition errTypePrefix : string := "invalid type prefix".

(** The type prefix every canonical message starts with. *)
Definition expectType (ty : Z) : reader unit :=
  t ← readU32; if t =? ty then mret tt else fail errTypePrefix.

(** A decoder on the whole input, which ignores what is left over. *)
Definition runReader {A} (p : reader A) (data : bytes) : result A :=
  match p data with
  | Ok (a, _) => Ok a
  | Err e => Err e
  | Panic => Panic
  | Diverge => Diverge
  end.

(** ** Writers *)

Definition writeU8 (z : Z) : bytes := be 1 z.
Definition writeU32 (z : Z) : bytes := be 4 z.
Definition writeU64 (z : Z) : bytes := be 8 z.

(** [uint32(len(b))] and [b]. *)
Definition writeBytes (b : bytes) : bytes := writeU32 (u32 (Z.of_nat (length b))) ++ b.

Definition writeSeq {A} (f : A -> bytes) (xs : list A) : bytes :=
  writeU32 (u32 (Z.of_nat (length xs))) ++ (xs ≫= f).

(** The loop over embedded messages, which stops at the first error. *)
Fixpoint writeAll {A} (to : A -> result bytes) (xs : list A) : result bytes :=
  match xs with
  | [] => Ok []
  | x :: xs => b ← to x; rest ← writeAll to xs; Ok (writeBytes b ++ rest)
  end.

Definition writeMsgs {A} (to : A -> result bytes) (xs : list A) : result bytes :=
  b ← writeAll to xs; Ok (writeU32 (u32 (Z.of_nat (length xs))) ++ b).

Definition writeMsg {A} (to : A -> result bytes) (a : A) : result bytes :=
  b ← to a; Ok (writeBytes b).

Definition writeOpt {A} (to : A -> result bytes) (o : option A) : result bytes :=
  match o with
  | None => Ok (writeU32 0)
  | Some a => writeMsg to a
  end.

(** An embedded message that must not be nil: [onNil] is what the encoder does with
    a nil one, an error or, where it does not check, a nil dereference. *)
Definition writeReq {A} (onNil : result bytes) (to : A -> result bytes) (o : option A)
    : result bytes :=
  match o with
  | None => onNil
  | Some a => writeMsg to a
  end.

(** The entries of a map, in the order the [range] loop visits them. *)
Fixpoint writeEntries {A} (to : A -> result bytes) (order : list (bytes * A)) : result bytes :=
  match order with
  | [] => Ok []
  | (k, a) :: rest => b ← writeMsg to a; bs ← writeEntries to rest; Ok (writeBytes k ++ b ++ bs)
  end.

(** A field of fixed length, written without a prefix after a length check. *)
Definition writeFixed (n : nat) (msg : string) (b : bytes) : result bytes :=
  if decide (length b = n) then Ok b else Err msg.

Definition writeBool (b : bool) : bytes := writeU8 (if b then 1 else 0).

#[global] Arguments writeU8 : simpl never.
#[global] Arguments writeU32 : simpl never.
#[global] Arguments writeU64 : simpl never.
#[global] Arguments writeBool : simpl never.
#[global] Arguments writeBytes : simpl never.

(** ** Round trips *)

(** [p] reads exactly [bs], whatever follows. *)
Definition parses {A} (p : reader A) (bs : bytes) (a : A) : Prop :=
  forall rest, p (bs ++ rest) = Ok (a, rest).

(** A length that fits its 32-bit prefix. *)
Definition lenOk {A} (l : list A) : Prop := Z.of_nat (length l) < 2 ^ 32.

#[export] Instance lenOk_dec {A} (l : list A) : Decision (lenOk l).
Proof. unfold lenOk. apply _. Defined.

Lemma parses_ret {A} (a : A) : parses (mret a) [] a.
Proof. by intros rest. Qed.

Lemma parses_bind {A B} (p : reader A) (f : A -> reader B) b1 b2 a b :
  parses p b1 a -> parses (f a) b2 b -> parses (p ≫= f) (b1 ++ b2) b.
Proof.
  intros Hp Hf rest. unfold mbind, reader_bind. rewrite <- app_assoc, Hp. apply Hf.
Qed.

Lemma parses_bind_nil {A B} (p : reader A) (f : A -> reader B) bs a b :
  parses p bs a -> parses (f a) [] b -> parses (p ≫= f) bs b.
Proof. intros Hp Hf rest. unfold mbind, reader_bind. rewrite Hp. apply Hf. Qed.

(** The last field of a message. *)
Lemma parses_last {A B} (p : reader A) (f : A -> B) bs a :
  parses p bs a -> parses (p ≫= fun x => mret (f x)) bs (f a).
Proof. intros Hp rest. unfold mbind, reader_bind. by rewrite Hp. Qed.

Lemma parses_lift {A} (r : result A) a : r = Ok a -> parses (lift r) [] a.
Proof. by intros -> rest. Qed.

Lemma readFull_app n bs rest : length bs = n -> readFull n (bs ++ rest) = Ok (bs, rest).
Proof.
  intros <-. unfold readFull. rewrite decide_True by (rewrite length_app; lia).
  by rewrite take_app_length, drop_app_length.
Qed.

Lemma parses_uint n z :
  0 <= z < 256 ^ Z.of_nat n -> parses (readUint n) (be n z) z.
Proof.
  intros Hz rest. unfold readUint, mbind, reader_bind.
  rewrite readFull_app by apply be_length. unfold mret, reader_ret.
  by rewrite be_val_be, Z.mod_small.
Qed.

Lemma parses_u8 z : is_u 8 z -> parses readU8 (writeU8 z) z.
Proof. apply (parses_uint 1). Qed.
Lemma parses_u32 z : is_u 32 z -> parses readU32 (writeU32 z) z.
Proof. apply (parses_uint 4). Qed.
Lemma parses_u64 z : is_u 64 z -> parses readU64 (writeU64 z) z.
Proof. apply (parses_uint 8). Qed.

Lemma swrap_uwrap w z : 0 < w -> swrap w (uwrap w z) = swrap w z.
Proof.
  intros Hw. unfold swrap, uwrap. f_equal.
  rewrite <- Zplus_mod_idemp_l, Zmod_mod, Zplus_mod_idemp_l. done.
Qed.

Lemma be_mod n z : be n (z mod 256 ^ Z.of_nat n) = be n z.
Proof. apply be_val_inj; [by rewrite !be_length|]. by rewrite !be_val_be, Zmod_mod. Qed.

Lemma parses_i64 z : is_i 64 z -> parses readI64 (writeU64 z) z.
Proof.
  intros Hz rest. unfold readI64, writeU64. rewrite <- be_mod.
  change (z mod 256 ^ Z.of_nat 8) with (uwrap 64 z).
  unfold mbind, reader_bind. rewrite parses_uint; [|apply (uwrap_range 64 z); lia].
  unfold mret, reader_ret, i64. by rewrite swrap_uwrap, swrap_small by (lia || done).
Qed.

Lemma parses_i32 z : is_i 32 z -> parses readI32 (writeU32 z) z.
Proof.
  intros Hz rest. unfold readI32, writeU32. rewrite <- be_mod.
  change (z mod 256 ^ Z.of_nat 4) with (uwrap 32 z).
  unfold mbind, reader_bind. rewrite parses_uint; [|apply (uwrap_range 32 z); lia].
  unfold mret, reader_ret, i32. by rewrite swrap_uwrap, swrap_small by (lia || done).
Qed.

Lemma bufRead_app bs rest : bufRead (length bs) (bs ++ rest) = Ok (bs, rest).
Proof.
  unfold bufRead. case_decide as E.
  - apply app_nil in E as [-> ->]. by rewrite decide_True.
  - rewrite take_app_length, drop_app_length, length_app.
    replace (length bs - (length bs + length rest))%nat with 0%nat by lia.
    by rewrite app_nil_r.
Qed.

(** A buffer that ends early yields the same slice if only zeros are missing. *)
Lemma bufRead_short bs n :
  bs <> [] -> bufRead (length bs + n) bs = Ok (bs ++ replicate n Byte.x00, []).
Proof.
  intros Hne. unfold bufRead. rewrite decide_False by done.
  rewrite take_ge, drop_ge by lia. by replace (length bs + n - length bs)%nat with n by lia.
Qed.

Lemma lenOk_u32 {A} (l : list A) :
  lenOk l -> u32 (Z.of_nat (length l)) = Z.of_nat (length l) /\ is_u 32 (Z.of_nat (length l)).
Proof.
  unfold lenOk, u32. intros Hl. assert (is_u 32 (Z.of_nat (length l))) by (unfold is_u; lia).
  by rewrite uwrap_small.
Qed.

Lemma parses_bytes bs : lenOk bs -> parses readBytes (writeBytes bs) bs.
Proof.
  intros Hl. destruct (lenOk_u32 _ Hl) as [E Hu]. unfold writeBytes. rewrite E.
  eapply parses_bind; [by apply parses_u32|]. intros rest. rewrite Nat2Z.id. apply bufRead_app.
Qed.

Lemma parses_many {A} (p : reader A) (f : A -> bytes) xs :
  Forall (fun x => parses p (f x) x) xs -> parses (readMany p (length xs)) (xs ≫= f) xs.
Proof.
  induction 1 as [|x xs Hx _ IH]; [apply parses_ret|]. rewrite bind_cons.
  eapply parses_bind; [done|]. by eapply parses_last in IH.
Qed.

Lemma parses_seq {A} (p : reader A) (f : A -> bytes) xs :
  lenOk xs -> Forall (fun x => parses p (f x) x) xs -> parses (readSeq p) (writeSeq f xs) xs.
Proof.
  intros Hl Hx. destruct (lenOk_u32 _ Hl) as [E Hu]. unfold writeSeq. rewrite E.
  eapply parses_bind; [by apply parses_u32|]. rewrite Nat2Z.id. by apply parses_many.
Qed.

(** ** Messages *)

(** The canonical codec of a message type, as the Go methods declare it. *)
Class Canonical (A : Type) := {
  toCanonical : A -> result bytes;
  fromCanonical : bytes -> result A
}.

#[global] Arguments toCanonical : simpl never.
#[global] Arguments fromCanonical : simpl never.

(** What a codec promises to the messages that embed it: on messages whose fields
    fit their length prefixes encoding succeeds, the result is not empty, and it
    decodes to the message again, whatever bytes follow it. *)
Class CanonicalLaws (A : Type) `{Canonical A} := {
  fits : A -> Prop;
  canonical_encodes : forall a, fits a -> is_Ok (toCanonical a);
  canonical_decodes : forall a bs, fits a -> toCanonical a = Ok bs ->
    forall rest, fromCanonical (bs ++ rest) = Ok a;
  canonical_nonempty : forall a bs, toCanonical a = Ok bs -> bs <> []
}.

(** A message that fits, also when embedded behind a 32-bit length. *)
Definition embeds {A} `{CanonicalLaws A} (a : A) : Prop :=
  fits a /\ forall bs, toCanonical a = Ok bs -> lenOk bs.

Definition embedsOpt {A} `{CanonicalLaws A} (o : option A) : Prop :=
  match o with None => True | Some a => embeds a end.

Definition embedsReq {A} `{CanonicalLaws A} (o : option A) : Prop :=
  match o with None => False | Some a => embeds a end.

Section Messages.
Context {A : Type} `{CanonicalLaws A}.

Lemma canonical_exact a bs :
  fits a -> toCanonical a = Ok bs -> fromCanonical bs = Ok a.
Proof. intros Hf E. rewrite <- (app_nil_r bs). by eapply canonical_decodes. Qed.

Lemma parses_msg a bs :
  embeds a -> writeMsg toCanonical a = Ok bs -> parses (readMsg fromCanonical) bs a.
Proof.
  intros [Hf Hl] E. apply result_map_Ok in E as (b & E & ->).
  eapply parses_bind_nil; [by apply parses_bytes, Hl|]. by eapply parses_lift, canonical_exact.
Qed.

Lemma parses_opt o bs :
  embedsOpt o -> writeOpt toCanonical o = Ok bs -> parses (readOpt fromCanonical) bs o.
Proof.
  intros Ho E. destruct o as [a|]; simpl in E.
  - destruct Ho as [Hf Hl]. apply result_map_Ok in E as (b & E & ->).
    destruct (lenOk_u32 b (Hl _ E)) as [E32 Hu]. unfold writeBytes. rewrite E32.
    eapply parses_bind; [by apply parses_u32|].
    pose proof (canonical_nonempty _ _ E) as Hne.
    destruct (Z.ltb_spec 0 (Z.of_nat (length b))); [|destruct b; simpl in *; [done|lia]].
    rewrite Nat2Z.id. eapply parses_bind_nil; [intros r; apply bufRead_app|].
    eapply parses_last, parses_lift. by eapply canonical_exact.
  - injection E as <-. eapply parses_bind_nil; [by apply parses_u32|]. apply parses_ret.
Qed.

Lemma parses_req onNil o bs :
  embedsReq o -> writeReq onNil toCanonical o = Ok bs -> parses (readReq fromCanonical) bs o.
Proof. destruct o as [a|]; [|done]. intros. by eapply parses_last, parses_msg. Qed.

Lemma parses_msgs xs bs :
  lenOk xs -> Forall embeds xs -> writeMsgs toCanonical xs = Ok bs ->
  parses (readSeq (readMsg fromCanonical)) bs xs.
Proof.
  intros Hl Hx E. apply result_map_Ok in E as (b & E & ->).
  destruct (lenOk_u32 _ Hl) as [-> Hu]. eapply parses_bind; [by apply parses_u32|].
  rewrite Nat2Z.id. clear Hl Hu. revert b E.
  induction Hx as [|x xs Hx _ IH]; intros b E; cbn [writeAll] in E.
  { injection E as <-. apply parses_ret. }
  apply result_bind_Ok in E as (b1 & E1 & E). apply result_map_Ok in E as (b2 & E2 & ->).
  eapply parses_bind; [eapply parses_msg; [done|]; unfold writeMsg; by rewrite E1|].
  eapply parses_last. by apply IH.
Qed.

Lemma writeMsg_encodes a : embeds a -> is_Ok (writeMsg toCanonical a).
Proof. intros [[b E]%canonical_encodes _]. unfold writeMsg. rewrite E. by eexists. Qed.

Lemma writeOpt_encodes o : embedsOpt o -> is_Ok (writeOpt toCanonical o).
Proof. destruct o as [a|]; [apply writeMsg_encodes|by eexists]. Qed.

Lemma writeReq_encodes onNil o : embedsReq o -> is_Ok (writeReq onNil toCanonical o).
Proof. destruct o as [a|]; [apply writeMsg_encodes|done]. Qed.

Lemma writeMsgs_encodes xs : Forall embeds xs -> is_Ok (writeMsgs toCanonical xs).
Proof.
  intros Hx. assert (is_Ok (writeAll toCanonical xs)) as [b E].
  { induction Hx as [|x xs [[b E]%canonical_encodes _] _ [b' E']]; [by eexists|].
    simpl. rewrite E, E'. by eexists. }
  unfold writeMsgs. rewrite E. by eexists.
Qed.

(** The codec of a message that fits, in one statement: it encodes, decodes from its
    bytes whatever follows them, and no other message has these bytes. *)
Lemma canonical_codec a :
  fits a -> exists bs, toCanonical a = Ok bs /\ (forall rest, fromCanonical (bs ++ rest) = Ok a)
    /\ forall a', fits a' -> toCanonical a' = Ok bs -> a' = a.
Proof.
  intros Hf. destruct (canonical_encodes a Hf) as [bs E]. exists bs. split; [done|]. split.
  - by eapply canonical_decodes.
  - intros a' Hf' E'. pose proof (canonical_exact _ _ Hf E).
    pose proof (canonical_exact _ _ Hf' E'). congruence.
Qed.
End Messages.

(** ** Maps *)

Section Entries.
Context {A : Type} `{CanonicalLaws A}.

Lemma addEntries_perm (m : gmap bytes A) order : order ≡ₚ map_to_list m -> addEntries order = m.
Proof.
  intros Hp. unfold addEntries.
  assert (forall (es : list (bytes * A)) (acc : gmap bytes A),
    foldl (fun m e => <[e.1 := e.2]> m) acc es = list_to_map (reverse es) ∪ acc) as G.
  { clear. intros es. induction es as [|[k c] es IH]; intros acc; simpl.
    - by rewrite (left_id_L ∅ (∪)).
    - rewrite IH, reverse_cons, list_to_map_app, list_to_map_cons. simpl.
      rewrite insert_union_singleton_l, (assoc_L (∪)). done. }
  rewrite G, (right_id_L ∅ (∪)). rewrite <- (list_to_map_to_list m) at 1.
  symmetry. apply list_to_map_proper; [|by rewrite reverse_Permutation].
  apply NoDup_fst_map_to_list.
Qed.

Lemma parses_entries (order : list (bytes * A)) b :
  Forall (fun e => lenOk e.1 /\ embeds e.2) order -> writeEntries toCanonical order = Ok b ->
  parses (readMany (readEntry fromCanonical) (length order)) b order.
Proof.
  intros Ho. revert b. induction Ho as [|[p c] order [Hp Hc] _ IH]; intros b E;
    cbn [writeEntries] in E.
  { apply (inj Ok) in E as <-. apply parses_ret. }
  apply result_bind_Ok in E as (b1 & E1 & E). apply result_map_Ok in E as (b2 & E2 & ->).
  rewrite app_assoc. eapply parses_bind; [|eapply parses_last; by apply IH].
  unfold readEntry. eapply parses_bind; [by apply parses_bytes|].
  by eapply parses_last, parses_msg.
Qed.

(** A whole map, with its 32-bit size. *)
Lemma parses_map (m : gmap bytes A) order b :
  order ≡ₚ map_to_list m -> Z.of_nat (size m) < 2 ^ 32 ->
  map_Forall (fun k a => lenOk k /\ embeds a) m -> writeEntries toCanonical order = Ok b ->
  parses (readSeq (readEntry fromCanonical)) (writeU32 (u32 (Z.of_nat (size m))) ++ b) order.
Proof.
  intros Hp Hs Hm E.
  assert (length order = size m) as Hl by (rewrite Hp; apply length_map_to_list).
  assert (u32 (Z.of_nat (size m)) = Z.of_nat (size m)) as ->
    by (apply uwrap_small; unfold is_u; lia).
  eapply parses_bind; [apply parses_u32; unfold is_u; lia|].
  rewrite Nat2Z.id, <- Hl. apply parses_entries; [|done].
  apply Forall_forall. intros [k a] Hin. rewrite Hp in Hin. apply elem_of_map_to_list in Hin.
  by apply (Hm k a).
Qed.

Lemma writeEntries_encodes (order : list (bytes * A)) :
  Forall (fun e => embeds e.2) order -> is_Ok (writeEntries toCanonical order).
Proof.
  induction 1 as [|[k a] order Ha _ [b E]]; [by eexists|]. cbn [writeEntries].
  destruct (writeMsg_encodes a Ha) as [b' ->]. cbn [mbind result_bind]. rewrite E. by eexists.
Qed.
End Entries.

(** Decides that a message embeds by running its encoder. *)
Definition encodedFits {A} `{Canonical A} (a : A) : bool :=
  match toCanonical a with Ok bs => bool_decide (lenOk bs) | _ => false end.

Lemma embeds_run {A} `{CanonicalLaws A} (a : A) : fits a -> encodedFits a = true -> embeds a.
Proof.
  intros Hf E. split; [done|]. intros b Eb. unfold encodedFits in E. rewrite Eb in E.
  by apply bool_decide_eq_true in E.
Qed.

(** ** Automation for the codecs of single messages *)

Lemma parses_type ty : is_u 32 ty -> parses (expectType ty) (writeU32 ty) tt.
Proof.
  intros Ht. unfold expectType. eapply parses_bind_nil; [by apply parses_u32|].
  rewrite Z.eqb_refl. apply parses_ret.
Qed.

Lemma parses_fixed n bs : length bs = n -> parses (bufRead n) bs bs.
Proof. intros <- rest. apply bufRead_app. Qed.

Lemma parses_written n msg b bs :
  length b = n -> writeFixed n msg b = Ok bs -> parses (bufRead n) bs b.
Proof.
  intros Hb E. unfold writeFixed in E. rewrite decide_True in E by done.
  apply (inj Ok) in E as <-. by apply parses_fixed.
Qed.

Lemma writeFixed_encodes n msg b : length b = n -> is_Ok (writeFixed n msg b).
Proof. intros Hb. unfold writeFixed. rewrite decide_True by done. by eexists. Qed.

Lemma parses_bool b : parses readBool (writeBool b) b.
Proof.
  replace b with (negb ((if b then 1 else 0) =? 0)) at 2 by (by destruct b).
  eapply (parses_last _ (fun z => negb (z =? 0))), parses_u8. by destruct b.
Qed.

Lemma parses_bytes_seq xs :
  lenOk xs -> Forall lenOk xs -> parses (readSeq readBytes) (writeSeq writeBytes xs) xs.
Proof. intros Hl Hx. apply parses_seq; [done|]. by eapply Forall_impl; [|apply parses_bytes]. Qed.

Lemma parses_u64_seq xs :
  lenOk xs -> Forall (is_u 64) xs -> parses (readSeq readU64) (writeSeq writeU64 xs) xs.
Proof. intros Hl Hx. apply parses_seq; [done|]. by eapply Forall_impl; [|apply parses_u64]. Qed.

Lemma runReader_parses {A} (p : reader A) bs a rest :
  parses p bs a -> runReader p (bs ++ rest) = Ok a.
Proof. intros Hp. unfold runReader. by rewrite Hp. Qed.

Lemma writeU32_nonempty z bs : writeU32 z ++ bs <> [].
Proof. done. Qed.

Create HintDb wire discriminated.
#[export] Hint Resolve parses_u8 parses_u32 parses_u64 parses_i64 parses_i32 parses_bytes
  parses_fixed parses_bytes_seq parses_u64_seq parses_msg parses_opt parses_req parses_msgs
  parses_written parses_bool : wire.
#[export] Hint Resolve writeMsg_encodes writeOpt_encodes writeReq_encodes writeMsgs_encodes
  writeFixed_encodes : wire.
#[export] Hint Extern 1 (parses (expectType _) _ _) =>
  apply parses_type; unfold is_u; vm_compute; intuition congruence : wire.

(** Splits the hypothesis that a message fits. *)
Ltac fits_cases :=
  repeat match goal with
  | H : _ /\ _ |- _ => destruct H
  | H : (if ?b then _ else _) = Ok _ |- _ => destruct b eqn:?
  | H : Err _ = Ok _ |- _ => discriminate H
  end.

(** The encoder of a message that fits returns its bytes. *)
Ltac solve_encodes :=
  repeat match goal with
  | |- is_Ok (?m ≫= _) =>
    let H := fresh in
    assert (is_Ok m) as H by (eauto with wire); destruct H as [? ->]; cbn [mbind result_bind]
  end; by eexists.

(** Inverts a successful encoder into the bytes of the embedded messages. *)
Ltac invert_encoder E :=
  repeat first
    [ apply result_map_Ok in E as (? & ? & ->)
    | apply result_bind_Ok in E as (? & ? & E) ];
  try (apply (inj Ok) in E; subst).

(** Reads a message field by field. *)
Ltac solve_parses :=
  repeat first
    [ eapply parses_last; solve [eauto with wire]
    | eapply parses_bind_nil; [solve [eauto with wire]|solve [apply parses_ret]]
    | eapply parses_bind; [solve [eauto with wire]|] ].

(** The laws of a message whose encoder is a chain of writes: [f] says which
    messages fit, [to] and [from] are its codec. *)
Tactic Notation "message_laws" constr(f) constr(to) constr(from) :=
  refine {| fits := f |};
  [ intros a Ha; change (is_Ok (to a)); unfold to; fits_cases; solve_encodes
  | intros a bs Ha E rest; change (to a = Ok bs) in E; change (from (bs ++ rest) = Ok a);
    unfold to in E; destruct a; cbn in Ha, E; fits_cases;
    invert_encoder E; apply runReader_parses; solve_parses
  | intros a bs E; change (to a = Ok bs) in E; unfold to in E; fits_cases; invert_encoder E;
    apply writeU32_nonempty ].
