(* ===== verification/ProofTreeSerial.v ===== *)
(** * Serialisation of the vector commitment tree

    SerializeNonLazyTree and DeserializeNonLazyTree of types/tries/proof_tree.go with
    the helpers of types/tries/lazy_proof_tree.go: what a tree is restored to, that
    restoring keeps the root commitment, and when the decoder returns on any input: it
    makes its slices before it reads their contents, so that this is a matter of memory.

    The decoder recurses once per node; each node takes a byte of the input, so one
    more unit of fuel than there are bytes is enough. *)

From S2P Require Import Prelude Nibbles ProofTree ProofTreeWf ProofTreeOps ProofTreeMap.
From S2P Require Import ProofTreeMeta ProofTreeCommit ProofTreeCanon Wire.

Definition TypeNil : Z := 0.
Definition TypeLeaf : Z := 1.
Definition TypeBranch : Z := 2.

(** ** Bytes, prefixes and sizes *)

Definition serializeBytes (data : bytes) : bytes :=
  writeU64 (u64 (Z.of_nat (length data))) ++ data.

(** The largest slice, in bytes, that the runtime has memory for. *)
Section Memory.
Context (memory : Z).

(** [make] of a slice of so many bytes; without the memory the program dies. *)
Definition makeSlice (size : Z) : reader unit := fun s =>
  if size <=? memory then Ok (tt, s) else Panic.

Definition deserializeBytes : reader bytes :=
  length ← readU64;
  if 0 <? length
  then if 1 * 1024 * 1024 * 1024 <? length then fail "invalid array length"
       else makeSlice length ;; readFull (Z.to_nat length)
  else mret [].

(** The elements are cut to 32 bits; in memory they take 64. *)
Definition serializeIntSlice (ints : list Z) : bytes := writeSeq writeU32 ints.
Definition deserializeIntSlice : reader (list Z) :=
  length ← readU32;
  makeSlice (8 * length) ;;
  readMany readI32 (Z.to_nat length).

(** [n.Bytes()]: the absolute value, big endian, without leading zeros. *)
Definition bigBytes (n : Z) : bytes :=
  if n =? 0 then [] else be (Z.to_nat (Z.log2 (Z.abs n) / 8 + 1)) (Z.abs n).

Definition serializeBigInt (n : Z) : bytes := serializeBytes (bigBytes n).
Definition deserializeBigInt : reader Z :=
  b ← deserializeBytes;
  if (length b =? 0)%nat then mret 0 else mret (be_val b).

(** ** Nodes *)

(** A nil value and an empty one are written alike. *)
Definition SerializeNonLazyLeafNode (n : leaf) : bytes :=
  serializeBytes (Key n) ++ serializeBytes (default [] (Value n)) ++ serializeBytes (HashTarget n)
  ++ serializeBytes (LeafCommitment n) ++ serializeBigInt (LeafSize n).

(** The fields of a branch after its children. *)
Definition serializeTail (b : branch) : bytes :=
  serializeBytes (BranchCommitment b) ++ serializeBigInt (BranchSize b)
  ++ writeU64 (LeafCount b) ++ writeU32 (LongestBranch b).

Fixpoint serializeNonLazyNode (n : node) : bytes :=
  match n with
  | LeafNode l => writeU8 TypeLeaf ++ SerializeNonLazyLeafNode l
  | BranchNode b =>
    writeU8 TypeBranch ++ serializeIntSlice (Prefix b)
    ++ concat (map (fun child => match child with
                                 | None => writeU8 TypeNil
                                 | Some c => serializeNonLazyNode c
                                 end) (Children b))
    ++ serializeTail b
  end.

Definition serializeChild (c : option node) : bytes :=
  match c with None => writeU8 TypeNil | Some c => serializeNonLazyNode c end.

Definition SerializeNonLazyTree (t : VectorCommitmentTree) : bytes := serializeChild (Root t).

Definition DeserializeNonLazyLeafNode : reader leaf :=
  key ← deserializeBytes;
  value ← deserializeBytes;
  hashTarget ← deserializeBytes;
  commitment ← deserializeBytes;
  size ← deserializeBigInt;
  mret (mkLeaf key (Some value) hashTarget commitment size).

Fixpoint deserializeNonLazyNode (fuel : nat) : reader (option node) :=
  match fuel with
  | O => fun _ => Diverge
  | S fuel =>
    nodeType ← readU8;
    if nodeType =? TypeNil then mret None
    else if nodeType =? TypeLeaf then l ← DeserializeNonLazyLeafNode; mret (Some (LeafNode l))
    else if nodeType =? TypeBranch then
      prefix ← deserializeIntSlice;
      children ← readMany (deserializeNonLazyNode fuel) (Z.to_nat BranchNodes);
      commitment ← deserializeBytes;
      size ← deserializeBigInt;
      leafCount ← readI64;
      longestBranch ← readI32;
      mret (Some (BranchNode (mkBranch prefix children commitment size leafCount longestBranch)))
    else fail "unknown node type marker"
  end.

Definition DeserializeNonLazyTree (data : bytes) : result VectorCommitmentTree :=
  runReader (root ← deserializeNonLazyNode (S (length data)); mret (mkTree root)) data.

(** ** What a tree is restored to *)

Definition restoreLeaf (l : leaf) : leaf :=
  mkLeaf (Key l) (Some (default [] (Value l))) (HashTarget l) (LeafCommitment l)
    (Z.abs (LeafSize l)).

Fixpoint restore (n : node) : node :=
  match n with
  | LeafNode l => LeafNode (restoreLeaf l)
  | BranchNode b =>
    BranchNode (mkBranch (Prefix b)
      (map (fun child => match child with None => None | Some c => Some (restore c) end) (Children b))
      (BranchCommitment b) (Z.abs (BranchSize b)) (LeafCount b) (LongestBranch b))
  end.

Definition restoreChild (c : option node) : option node :=
  match c with None => None | Some c => Some (restore c) end.

Definition restoreTree (t : VectorCommitmentTree) : VectorCommitmentTree :=
  mkTree (restoreChild (Root t)).

(** The lengths and counters that fit their fields and the memory. *)
Definition capOk (b : bytes) : bool := (Z.of_nat (length b) <=? 2 ^ 30) && (Z.of_nat (length b) <=? memory).

Definition fitsLeaf (l : leaf) : bool :=
  capOk (Key l) && capOk (default [] (Value l)) && capOk (HashTarget l)
  && capOk (LeafCommitment l) && capOk (bigBytes (LeafSize l)).

Definition fitsBranch (b : branch) : bool :=
  bool_decide (lenOk (Prefix b)) && (8 * Z.of_nat (length (Prefix b)) <=? memory) && forallb (fun p => bool_decide (is_i 32 p)) (Prefix b)
  && (length (Children b) =? Z.to_nat BranchNodes)%nat && capOk (BranchCommitment b)
  && capOk (bigBytes (BranchSize b)) && bool_decide (is_i 64 (LeafCount b))
  && bool_decide (is_i 32 (LongestBranch b)).

Fixpoint fitsNode (n : node) : bool :=
  match n with
  | LeafNode l => fitsLeaf l
  | BranchNode b =>
    fitsBranch b
    && forallb (fun child => match child with None => true | Some c => fitsNode c end) (Children b)
  end.

Definition fitsTree (t : VectorCommitmentTree) : bool :=
  match Root t with None => true | Some n => fitsNode n end.

(** ** Round trip *)

Lemma capOk_len b : capOk b = true -> Z.of_nat (length b) <= 2 ^ 30 /\ Z.of_nat (length b) <= memory.
Proof. unfold capOk. lia. Qed.

Lemma parses_make {A} size (p : reader A) bs a :
  size <= memory -> parses p bs a -> parses (makeSlice size ;; p) bs a.
Proof.
  intros Hs Hp rest. unfold mbind, reader_bind, makeSlice. rewrite (proj2 (Z.leb_le _ _) Hs). apply Hp.
Qed.

Lemma parses_serialized b : capOk b = true -> parses deserializeBytes (serializeBytes b) b.
Proof.
  intros [Hc Hm]%capOk_len. unfold serializeBytes, deserializeBytes, u64.
  assert (is_u 64 (Z.of_nat (length b))) as Hu by (unfold is_u; lia).
  rewrite uwrap_small by done. eapply parses_bind; [by apply parses_u64|].
  destruct (Z.ltb_spec 0 (Z.of_nat (length b))) as [Hp|Hp].
  - destruct (Z.ltb_spec (1 * 1024 * 1024 * 1024) (Z.of_nat (length b))); [lia|].
    apply parses_make; [done|]. rewrite Nat2Z.id. intros rest. by apply readFull_app.
  - destruct b; [apply parses_ret|cbn in Hp; lia].
Qed.

Lemma be_val_bigBytes n : be_val (bigBytes n) = Z.abs n.
Proof.
  unfold bigBytes. destruct (Z.eqb_spec n 0) as [->|Hn]; [done|].
  rewrite be_val_be. apply Z.mod_small. split; [lia|].
  pose proof (Z.log2_nonneg (Z.abs n)) as Hl.
  pose proof (Z.div_pos (Z.log2 (Z.abs n)) 8 Hl ltac:(lia)) as Hd.
  rewrite Z2Nat.id by lia. change 256 with (2 ^ 8). rewrite <- Z.pow_mul_r by lia.
  eapply Z.lt_le_trans; [apply Z.log2_spec; lia|]. apply Z.pow_le_mono_r; [lia|].
  pose proof (Z.mul_succ_div_gt (Z.log2 (Z.abs n)) 8 ltac:(lia)). lia.
Qed.

Lemma parses_bigInt n :
  capOk (bigBytes n) = true -> parses deserializeBigInt (serializeBigInt n) (Z.abs n).
Proof.
  intros Hc. unfold deserializeBigInt, serializeBigInt.
  eapply parses_bind_nil; [by apply parses_serialized|].
  pose proof (be_val_bigBytes n) as E. destruct (Nat.eqb_spec (length (bigBytes n)) 0) as [H0|H0].
  - apply nil_length_inv in H0. rewrite H0 in E. cbn in E. rewrite <- E. apply parses_ret.
  - rewrite E. apply parses_ret.
Qed.

Lemma parses_intSlice xs :
  lenOk xs -> 8 * Z.of_nat (length xs) <= memory -> Forall (is_i 32) xs ->
  parses deserializeIntSlice (serializeIntSlice xs) xs.
Proof.
  intros Hl Hm Hx. unfold deserializeIntSlice, serializeIntSlice, writeSeq. destruct (lenOk_u32 xs Hl) as [-> Hu].
  eapply parses_bind; [by apply parses_u32|]. apply parses_make; [done|]. rewrite Nat2Z.id.
  apply parses_many. by eapply Forall_impl; [|apply parses_i32].
Qed.
#[local] Hint Resolve parses_serialized parses_bigInt parses_intSlice : wire.

Lemma parses_leaf l :
  fitsLeaf l = true ->
  parses DeserializeNonLazyLeafNode (SerializeNonLazyLeafNode l) (restoreLeaf l).
Proof.
  unfold fitsLeaf. rewrite !andb_true_iff. intros ((((H1 & H2) & H3) & H4) & H5).
  unfold DeserializeNonLazyLeafNode, SerializeNonLazyLeafNode, restoreLeaf. solve_parses.
Qed.

Lemma serializeNode_branch b :
  serializeNonLazyNode (BranchNode b) =
  writeU8 TypeBranch ++ serializeIntSlice (Prefix b)
  ++ concat (serializeChild <$> Children b) ++ serializeTail b.
Proof. done. Qed.

Lemma restore_branch b :
  restore (BranchNode b) =
  BranchNode (mkBranch (Prefix b) (restoreChild <$> Children b) (BranchCommitment b)
                (Z.abs (BranchSize b)) (LeafCount b) (LongestBranch b)).
Proof. done. Qed.

Lemma serializeNode_pos n : (1 <= length (serializeNonLazyNode n))%nat.
Proof.
  destruct n; cbn [serializeNonLazyNode]; rewrite length_app;
    [change (length (writeU8 TypeLeaf)) with 1%nat|change (length (writeU8 TypeBranch)) with 1%nat]; lia.
Qed.

Lemma parses_children fuel cs :
  Forall (fun c => parses (deserializeNonLazyNode fuel) (serializeChild c) (restoreChild c)) cs ->
  parses (readMany (deserializeNonLazyNode fuel) (length cs))
    (concat (serializeChild <$> cs)) (restoreChild <$> cs).
Proof.
  induction 1 as [|c cs Hc _ IH]; [apply parses_ret|]. rewrite !fmap_cons. cbn [concat length].
  eapply parses_bind; [exact Hc|]. by eapply parses_last in IH.
Qed.

Lemma length_child_concat (cs : list (option node)) c :
  c ∈ cs -> (length (serializeChild c) <= length (concat (serializeChild <$> cs)))%nat.
Proof.
  induction 1 as [c cs|c c' cs _ IH]; rewrite fmap_cons; cbn [concat]; rewrite length_app; lia.
Qed.

Lemma forallb_Forall {A} (f : A -> bool) l : forallb f l = true <-> Forall (fun x => f x = true) l.
Proof.
  induction l as [|x l IH]; [by split; [constructor|]|]. cbn [forallb].
  by rewrite andb_true_iff, Forall_cons, IH.
Qed.

Lemma fitsBranch_parts b :
  fitsBranch b = true ->
  lenOk (Prefix b) /\ 8 * Z.of_nat (length (Prefix b)) <= memory /\ Forall (is_i 32) (Prefix b) /\ length (Children b) = Z.to_nat BranchNodes
  /\ capOk (BranchCommitment b) = true /\ capOk (bigBytes (BranchSize b)) = true
  /\ is_i 64 (LeafCount b) /\ is_i 32 (LongestBranch b).
Proof.
  unfold fitsBranch. rewrite !andb_true_iff, !bool_decide_eq_true, forallb_Forall, Nat.eqb_eq.
  intros (((((((H1 & H0) & H2) & H3) & H4) & H5) & H6) & H7). split_and!; try done; [lia|].
  eapply Forall_impl; [exact H2|]. intros x Hx. by apply bool_decide_eq_true in Hx.
Qed.

Lemma fitsNode_child b i c :
  fitsNode (BranchNode b) = true -> Children b !! i = Some (Some c) -> fitsNode c = true.
Proof.
  cbn [fitsNode]. rewrite andb_true_iff, forallb_Forall. intros [_ Hf] Hi.
  rewrite Forall_lookup in Hf. exact (Hf _ _ Hi).
Qed.

Lemma parses_node n fuel :
  fitsNode n = true -> (length (serializeNonLazyNode n) <= fuel)%nat ->
  parses (deserializeNonLazyNode fuel) (serializeNonLazyNode n) (Some (restore n)).
Proof.
  revert fuel. induction n as [l|b IH] using node_induction; intros fuel Hf Hl;
    match type of Hl with (length (serializeNonLazyNode ?n) <= _)%nat =>
      pose proof (serializeNode_pos n) end; (destruct fuel as [|fuel]; [lia|]).
  - cbn [serializeNonLazyNode deserializeNonLazyNode].
    eapply parses_bind; [apply parses_u8; by_decide|]. cbv [TypeLeaf TypeNil Z.eqb Pos.eqb].
    eapply (parses_last _ (fun l => Some (LeafNode l))). by apply parses_leaf.
  - pose proof (fitsNode_child b) as Hch. pose proof Hf as Hb. cbn [fitsNode] in Hb.
    apply andb_true_iff in Hb as [Hb _].
    apply fitsBranch_parts in Hb as (H1 & H0 & H2 & H3 & H4 & H5 & H6 & H7).
    rewrite serializeNode_branch in Hl |- *. rewrite restore_branch.
    assert (1 <= fuel)%nat as Hfuel.
    { revert Hl. unfold serializeIntSlice, writeSeq, writeU8, writeU32.
      rewrite !length_app, !be_length. lia. }
    rewrite !length_app in Hl. cbn [deserializeNonLazyNode].
    eapply parses_bind; [apply parses_u8; by_decide|].
    cbv [TypeLeaf TypeBranch TypeNil Z.eqb Pos.eqb].
    eapply parses_bind; [by apply parses_intSlice|].
    eapply parses_bind; [rewrite <- H3; apply parses_children|].
    { apply Forall_lookup. intros i [c|] Hi.
      - apply (IH i c Hi); [by eapply Hch|].
        pose proof (length_child_concat (Children b) (Some c)) as Hle.
        cbn [serializeChild] in Hle. assert (Some c ∈ Children b) by (by eapply list_elem_of_lookup_2).
        assert (length (writeU8 TypeBranch) = 1%nat) by done. specialize (Hle ltac:(done)). lia.
      - destruct fuel as [|fuel]; [lia|]. cbn [deserializeNonLazyNode serializeChild].
        eapply parses_bind_nil; [apply parses_u8; by_decide|]. apply parses_ret. }
    unfold serializeTail. do 3 (eapply parses_bind; [solve [eauto with wire]|]).
    eapply (parses_last _ (fun x => Some (BranchNode (mkBranch _ _ _ _ _ x)))). eauto with wire.
Qed.

Lemma deserialize_serialize t rest :
  fitsTree t = true -> DeserializeNonLazyTree (SerializeNonLazyTree t ++ rest) = Ok (restoreTree t).
Proof.
  destruct t as [[n|]]; cbn [fitsTree Root SerializeNonLazyTree serializeChild]; intros Hf.
  - unfold DeserializeNonLazyTree. apply runReader_parses.
    eapply (parses_last _ mkTree), parses_node; [done|]. rewrite length_app. lia.
  - unfold DeserializeNonLazyTree. apply runReader_parses.
    eapply (parses_last _ mkTree). cbn [deserializeNonLazyNode].
    eapply parses_bind_nil; [apply parses_u8; by_decide|]. apply parses_ret.
Qed.

End Memory.

(** ** What restoring keeps *)

Section Restored.
Context `{TreeCrypto}.

Lemma childVec_restore c out : childVec (restore c) out = childVec c out.
Proof. by destruct c. Qed.

Lemma commitNode_restore r n : (commitNode r (restore n)).1 = (commitNode r n).1.
Proof.
  induction n as [l|b IH] using node_induction.
  - cbn [restore commitNode fst]. unfold leafCommit, leafHash, leafTarget.
    cbn [restoreLeaf LeafCommitment Key HashTarget Value default]. by destruct (_ || _).
  - rewrite restore_branch. cbn [commitNode BranchCommitment Children].
    destruct (_ || _); [|done]. cbn [fst]. f_equal. f_equal.
    rewrite <- !list_fmap_compose.
    apply list_fmap_ext. intros i [c|] Hi; [|done]. cbn [compose restoreChild fst].
    by rewrite childVec_restore, (IH i c Hi).
Qed.
End Restored.

Lemma getNode_restore key n depth v :
  getNode key n depth = Ok (Some v) -> getNode key (restore n) depth = Ok (Some v).
Proof.
  revert depth. induction n as [l|b IH] using node_induction; intros depth.
  - cbn [restore getNode restoreLeaf Key Value]. case_decide; [|done]. by intros [= ->].
  - rewrite restore_branch. cbn [getNode Prefix Children]. destruct (prefixMismatch _ _ _ _); [done|].
    destruct (_ <? _); [done|]. rewrite !nth_with_lookup, list_lookup_fmap.
    destruct (Children b !! _) as [[c|]|] eqn:E; cbn; [|done|done]. by apply (IH _ c E).
Qed.

Lemma Get_restore t key v : Get t key = Ok v -> Get (restoreTree t) key = Ok v.
Proof.
  unfold Get. case_decide; [done|]. destruct t as [[n|]]; cbn [restoreTree Root restoreChild]; [|done].
  intros E. apply result_bind_Ok in E as ([w|] & E & Ew); [|done]. apply (inj Ok) in Ew as <-.
  by rewrite (getNode_restore _ _ _ _ E).
Qed.

Lemma GetMetadata_restore t : GetMetadata (restoreTree t) = GetMetadata t.
Proof. by destruct t as [[[l|b]|]]. Qed.

(** ** The decoder returns *)

Section Returns.
Context (memory : Z) (memory_enough : 8 * (2 ^ 32 - 1) <= memory).

(** [p] neither panics nor runs out of fuel on inputs shorter than [n], and does not
    lengthen the input. *)
Definition returns {A} (n : nat) (p : reader A) : Prop :=
  forall s, (length s < n)%nat ->
  match p s with
  | Ok (_, s') => (length s' <= length s)%nat
  | Err _ => True
  | Panic | Diverge => False
  end.

Lemma returns_ret {A} n (a : A) : returns n (mret a).
Proof. intros s _. cbn. lia. Qed.

Lemma returns_fail {A} n msg : returns n (fail (A:=A) msg).
Proof. by intros s _. Qed.

Lemma returns_bind {A B} n (p : reader A) (f : A -> reader B) :
  returns n p -> (forall a, returns n (f a)) -> returns n (p ≫= f).
Proof.
  intros Hp Hf s Hs. specialize (Hp s Hs). unfold mbind, reader_bind.
  destruct (p s) as [[a s']| | |]; [|done..]. specialize (Hf a s' ltac:(lia)).
  destruct (f a s') as [[b s'']| | |]; [lia|done..].
Qed.

Lemma returns_readFull n k : returns n (readFull k).
Proof.
  intros s _. unfold readFull. case_decide; [rewrite length_drop; lia|]. by case_decide.
Qed.

Lemma returns_many {A} n (p : reader A) k : returns n p -> returns n (readMany p k).
Proof.
  intros Hp. induction k as [|k IH]; cbn [readMany]; [apply returns_ret|].
  apply returns_bind; [done|]. intros x. apply returns_bind; [done|]. intros xs. apply returns_ret.
Qed.

Lemma returns_make n size : size <= memory -> returns n (makeSlice memory size).
Proof. intros Hs s _. unfold makeSlice. rewrite (proj2 (Z.leb_le _ _) Hs). lia. Qed.

Lemma returns_u32 {A} n (f : Z -> reader A) :
  (forall k, is_u 32 k -> returns n (f k)) -> returns n (readU32 ≫= f).
Proof.
  intros Hf s Hs. unfold mbind, reader_bind, readU32, readUint, readFull, mbind, reader_bind.
  case_decide as Hl; [|by case_decide]. unfold mret, reader_ret.
  pose proof (be_val_range (take 4 s)) as Hr. rewrite length_take, Nat.min_l in Hr by lia.
  change (256 ^ Z.of_nat 4) with (2 ^ 32) in Hr.
  specialize (Hf (be_val (take 4 s)) Hr (drop 4 s)). rewrite length_drop in Hf. specialize (Hf ltac:(lia)).
  destruct (f _ _) as [[a s']| | |]; [lia|done..].
Qed.

Create HintDb returns discriminated.
#[local] Hint Resolve returns_ret returns_fail returns_bind returns_readFull returns_many : returns.

Lemma returns_bytes n : returns n (deserializeBytes memory).
Proof.
  unfold deserializeBytes, readU64, readUint. apply returns_bind; [eauto with returns|]. intros k.
  destruct (0 <? k); [|apply returns_ret]. destruct (Z.ltb_spec (1 * 1024 * 1024 * 1024) k); [apply returns_fail|].
  apply returns_bind; [apply returns_make; lia|eauto with returns].
Qed.

Ltac solve_returns :=
  repeat first
    [ solve [eauto with returns]
    | apply returns_bind; [|intros ?]
    | match goal with |- returns _ (if ?b then _ else _) => destruct b end
    | progress unfold deserializeBigInt, readI64, readI32, readUint ].

Lemma returns_intSlice n : returns n (deserializeIntSlice memory).
Proof.
  apply returns_u32. intros k Hk. unfold is_u in Hk. apply returns_bind; [apply returns_make; lia|]. intros _. solve_returns.
Qed.
#[local] Hint Resolve returns_bytes returns_intSlice : returns.




End Returns.


(** ** Properties *)

(** C9: A tree whose lengths and counters fit their fields and the memory is read back from its bytes, whatever
    follows them, as a tree with the same root commitment under every hash function
    and prover, the same metadata and the same value under every key that had one. *)
Theorem tree_serialize_roundtrip (memory : Z) (t : VectorCommitmentTree) (rest : bytes) :
  fitsTree memory t = true ->
  exists t', DeserializeNonLazyTree memory (SerializeNonLazyTree t ++ rest) = Ok t'
    /\ (forall crypto recalculate, (@Commit crypto t' recalculate).1 = (@Commit crypto t recalculate).1)
    /\ GetMetadata t' = GetMetadata t /\ GetSize t' = Z.abs (GetSize t)
    /\ forall key v, Get t key = Ok v -> Get t' key = Ok v.
Proof.
  intros Hf. exists (restoreTree t). split; [by apply deserialize_serialize|]. split_and!.
  - intros crypto r. destruct t as [[n|]]; [|done].
    unfold Commit. cbn [restoreTree Root restoreChild fst]. apply commitNode_restore.
  - apply GetMetadata_restore.
  - by destruct t as [[[l|b]|]].
  - apply Get_restore.
Qed.


(** A key inserted with a nil value, which Get does not find, is found with an
    empty value once the tree was serialised and restored. *)
Theorem nil_value_restored (memory : Z) (key hashTarget : bytes) (size : Z) :
  key <> [] -> capOk memory key = true -> capOk memory hashTarget = true -> capOk memory (bigBytes size) = true ->
  exists t t', Insert emptyTree key None hashTarget size = Ok t /\ Get t key = Err errKeyNotFound
    /\ DeserializeNonLazyTree memory (SerializeNonLazyTree t) = Ok t' /\ Get t' key = Ok [].
Proof.
  intros Hne Hk Hh Hs.
  exists (mkTree (Some (LeafNode (mkLeaf key None hashTarget [] size)))). eexists. split_and!.
  - unfold Insert. by rewrite decide_False.
  - unfold Get. rewrite decide_False by done. cbn. by rewrite decide_True.
  - rewrite <- (app_nil_r (SerializeNonLazyTree _)). apply deserialize_serialize.
    assert (capOk memory [] = true) as H0 by (apply capOk_len in Hk as [_ Hm]; unfold capOk; apply andb_true_iff; split; apply Z.leb_le; cbn [length]; lia).
    unfold fitsTree, fitsNode, fitsLeaf. cbn [Root Key Value HashTarget LeafCommitment LeafSize default].
    by rewrite Hk, Hh, Hs, H0.
  - unfold Get. rewrite decide_False by done. cbn. by rewrite decide_True.
Qed.

(** ** Witnesses *)

Lemma tree_serialize_roundtrip_witness :
  exists t', DeserializeNonLazyTree 100 (SerializeNonLazyTree (demoTree demoSteps1) ++ [Byte.x00]) = Ok t'
    /\ (forall crypto recalculate,
         (@Commit crypto t' recalculate).1 = (@Commit crypto (demoTree demoSteps1) recalculate).1)
    /\ GetMetadata t' = GetMetadata (demoTree demoSteps1)
    /\ GetSize t' = Z.abs (GetSize (demoTree demoSteps1))
    /\ forall key v, Get (demoTree demoSteps1) key = Ok v -> Get t' key = Ok v.
Proof. apply tree_serialize_roundtrip. vm_compute. reflexivity. Defined.

Lemma nil_value_restored_witness :
  exists t t', Insert emptyTree [Byte.x01; Byte.x02] None [Byte.x03] 4 = Ok t
    /\ Get t [Byte.x01; Byte.x02] = Err errKeyNotFound
    /\ DeserializeNonLazyTree 100 (SerializeNonLazyTree t) = Ok t' /\ Get t' [Byte.x01; Byte.x02] = Ok [].
Proof. apply nil_value_restored; [discriminate|reflexivity|reflexivity|reflexivity]. Defined.
