(* ===== verification/CanonicalTypes.v ===== *)
(** * Type prefixes of canonical messages (protobufs/canonical_types.go) *)

From S2P Require Import Prelude.

Definition MessageType : Z := 0x0100.
Definition PeerInfoType : Z := 0x0101.
Definition CapabilityType : Z := 0x0102.
Definition Ed448PublicKeyType : Z := 0x0110.
Definition Ed448PrivateKeyType : Z := 0x0111.
Definition Ed448SignatureType : Z := 0x0112.
Definition X448PublicKeyType : Z := 0x0113.
Definition X448PrivateKeyType : Z := 0x0114.
Definition PCASPublicKeyType : Z := 0x0115.
Definition PCASPrivateKeyType : Z := 0x0116.
Definition BLS48581G2PublicKeyType : Z := 0x0117.
Definition BLS48581G2PrivateKeyType : Z := 0x0118.
Definition BLS48581SignatureType : Z := 0x0119.
Definition BLS48581SignatureWithProofOfPossessionType : Z := 0x011A.
Definition BLS48581AddressedSignatureType : Z := 0x011B.
Definition BLS48581AggregateSignatureType : Z := 0x011C.
Definition Decaf448PublicKeyType : Z := 0x011D.
Definition Decaf448PrivateKeyType : Z := 0x011E.
Definition Decaf448SignatureType : Z := 0x011F.
Definition SignedX448KeyType : Z := 0x0120.
Definition SignedDevicePreKeyType : Z := 0x0121.
Definition KeyCollectionType : Z := 0x0122.
Definition KeyRegistryType : Z := 0x0123.
Definition P2PChannelEnvelopeType : Z := 0x0200.
Definition MessageCiphertextType : Z := 0x0201.
Definition InboxMessageType : Z := 0x0202.
Definition HubAddInboxType : Z := 0x0203.
Definition HubDeleteInboxType : Z := 0x0204.
Definition LegacyProverRequestType : Z := 0x0300.
Definition ProverJoinType : Z := 0x0301.
Definition ProverLeaveType : Z := 0x0302.
Definition ProverPauseType : Z := 0x0303.
Definition ProverResumeType : Z := 0x0304.
Definition ProverConfirmType : Z := 0x0305.
Definition ProverRejectType : Z := 0x0306.
Definition ProverKickType : Z := 0x0307.
Definition ProverUpdateType : Z := 0x0308.
Definition GlobalFrameHeaderType : Z := 0x0309.
Definition FrameHeaderType : Z := 0x030A.
Definition ProverLivenessCheckType : Z := 0x030B.
Definition FrameVoteType : Z := 0x030C.
Definition FrameConfirmationType : Z := 0x030D.
Definition GlobalFrameType : Z := 0x030E.
Definition AppShardFrameType : Z := 0x030F.
Definition SeniorityMergeType : Z := 0x0310.
Definition MessageRequestType : Z := 0x0311.
Definition MessageBundleType : Z := 0x0312.
Definition MultiproofType : Z := 0x0313.
Definition PathType : Z := 0x0314.
Definition TraversalSubProofType : Z := 0x0315.
Definition TraversalProofType : Z := 0x0316.
Definition HypergraphConfigurationType : Z := 0x0401.
Definition HypergraphDeploymentType : Z := 0x0402.
Definition HypergraphUpdateType : Z := 0x0403.
Definition VertexAddType : Z := 0x0404.
Definition VertexRemoveType : Z := 0x0405.
Definition HyperedgeAddType : Z := 0x0406.
Definition HyperedgeRemoveType : Z := 0x0407.
Definition AuthorityType : Z := 0x0500.
Definition FeeBasisStructType : Z := 0x0501.
Definition TokenMintStrategyType : Z := 0x0502.
Definition TokenConfigurationType : Z := 0x0503.
Definition TokenDeploymentType : Z := 0x0504.
Definition TokenUpdateType : Z := 0x0505.
Definition RecipientBundleType : Z := 0x0506.
Definition TransactionInputType : Z := 0x0507.
Definition TransactionOutputType : Z := 0x0508.
Definition TransactionType : Z := 0x0509.
Definition PendingTransactionInputType : Z := 0x050A.
Definition PendingTransactionOutputType : Z := 0x050B.
Definition PendingTransactionType : Z := 0x050C.
Definition MintTransactionInputType : Z := 0x050D.
Definition MintTransactionOutputType : Z := 0x050E.
Definition MintTransactionType : Z := 0x050F.
Definition ComputeConfigurationType : Z := 0x0600.
Definition ComputeDeploymentType : Z := 0x0601.
Definition ComputeUpdateType : Z := 0x0602.
Definition CodeDeploymentType : Z := 0x0603.
Definition ApplicationType : Z := 0x0604.
Definition IntrinsicExecutionInputType : Z := 0x0605.
Definition IntrinsicExecutionOutputType : Z := 0x0606.
Definition ExecutionDependencyType : Z := 0x0607.
Definition ExecuteOperationType : Z := 0x0608.
Definition ExecutionNodeType : Z := 0x0609.
Definition ExecutionDAGType : Z := 0x060A.
Definition ExecutionStageType : Z := 0x060B.
Definition CodeExecuteType : Z := 0x060C.
Definition StateTransitionType : Z := 0x060D.
Definition ExecutionResultType : Z := 0x060E.
Definition CodeFinalizeType : Z := 0x060F.
Definition GlobalAlertType : Z := 0x0911.

(** The constants of the block, in its order. *)
Definition canonicalTypes : list Z :=
  [MessageType; PeerInfoType; CapabilityType; Ed448PublicKeyType; Ed448PrivateKeyType;
   Ed448SignatureType; X448PublicKeyType; X448PrivateKeyType; PCASPublicKeyType;
   PCASPrivateKeyType; BLS48581G2PublicKeyType; BLS48581G2PrivateKeyType; BLS48581SignatureType;
   BLS48581SignatureWithProofOfPossessionType; BLS48581AddressedSignatureType;
   BLS48581AggregateSignatureType; Decaf448PublicKeyType; Decaf448PrivateKeyType;
   Decaf448SignatureType; SignedX448KeyType; SignedDevicePreKeyType; KeyCollectionType;
   KeyRegistryType; P2PChannelEnvelopeType; MessageCiphertextType; InboxMessageType;
   HubAddInboxType; HubDeleteInboxType; LegacyProverRequestType; ProverJoinType; ProverLeaveType;
   ProverPauseType; ProverResumeType; ProverConfirmType; ProverRejectType; ProverKickType;
   ProverUpdateType; GlobalFrameHeaderType; FrameHeaderType; ProverLivenessCheckType;
   FrameVoteType; FrameConfirmationType; GlobalFrameType; AppShardFrameType; SeniorityMergeType;
   MessageRequestType; MessageBundleType; MultiproofType; PathType; TraversalSubProofType;
   TraversalProofType; HypergraphConfigurationType; HypergraphDeploymentType; HypergraphUpdateType;
   VertexAddType; VertexRemoveType; HyperedgeAddType; HyperedgeRemoveType; AuthorityType;
   FeeBasisStructType; TokenMintStrategyType; TokenConfigurationType; TokenDeploymentType;
   TokenUpdateType; RecipientBundleType; TransactionInputType; TransactionOutputType;
   TransactionType; PendingTransactionInputType; PendingTransactionOutputType;
   PendingTransactionType; MintTransactionInputType; MintTransactionOutputType;
   MintTransactionType; ComputeConfigurationType; ComputeDeploymentType; ComputeUpdateType;
   CodeDeploymentType; ApplicationType; IntrinsicExecutionInputType; IntrinsicExecutionOutputType;
   ExecutionDependencyType; ExecuteOperationType; ExecutionNodeType; ExecutionDAGType;
   ExecutionStageType; CodeExecuteType; StateTransitionType; ExecutionResultType; CodeFinalizeType;
   GlobalAlertType].

(** No two message types share a prefix. *)
Lemma canonicalTypes_distinct : NoDup canonicalTypes.
Proof. by_decide. Qed.
