(* ===== verification/Keys.v ===== *)
(** * Key and signature messages (protobufs/keys.go)

    One Module per message: its fields, its canonical codec and its Validate
    method, with the instance that states the codec's round trip. *)

From S2P Require Import Prelude Wire CanonicalTypes.

(** Validate of a list, up to the first error. *)
Fixpoint validateEach {A} (v : A -> result unit) (xs : list A) : result unit :=
  match xs with
  | [] => Ok tt
  | x :: xs => v x ;; validateEach v xs
  end.

Lemma validateEach_Forall {A} (v : A -> result unit) xs :
  validateEach v xs = Ok tt <-> Forall (fun x => v x = Ok tt) xs.
Proof.
  induction xs as [|x xs IH]; [by split; [constructor|]|]. cbn [validateEach]. rewrite Forall_cons, <- IH.
  destruct (v x) as [[]| | |]; naive_solver.
Qed.

(** A message whose only field is a key of a fixed length. *)
Definition fixedKey_To (ty : Z) (n : nat) (msg : string) (key : bytes) : result bytes :=
  if negb (Z.of_nat (length key) =? Z.of_nat n) then Err msg else Ok (writeU32 ty ++ key).

Definition fixedKey_From (ty : Z) (n : nat) : bytes -> result bytes :=
  runReader (expectType ty ;; bufRead n).

Lemma fixedKey_encodes ty n msg key : length key = n -> is_Ok (fixedKey_To ty n msg key).
Proof. intros <-. unfold fixedKey_To. rewrite Z.eqb_refl. by eexists. Qed.

Lemma fixedKey_inv ty n msg key bs :
  fixedKey_To ty n msg key = Ok bs -> length key = n /\ bs = writeU32 ty ++ key.
Proof.
  unfold fixedKey_To. destruct (Z.eqb_spec (Z.of_nat (length key)) (Z.of_nat n)); [|done].
  intros [= <-]. split; [lia|done].
Qed.

Lemma fixedKey_decodes ty n msg key bs rest :
  is_u 32 ty -> fixedKey_To ty n msg key = Ok bs -> fixedKey_From ty n (bs ++ rest) = Ok key.
Proof.
  intros Ht (Hl & ->)%fixedKey_inv. unfold fixedKey_From. apply runReader_parses.
  eapply parses_bind; [by apply parses_type|]. by apply parses_fixed.
Qed.

(** The laws of a public key message. *)
Definition fixedKey_laws {A} `{Canonical A} (mk : bytes -> A) (get : A -> bytes)
    (ty : Z) (n : nat) (msg : string)
    (Hto : forall a, toCanonical a = fixedKey_To ty n msg (get a))
    (Hfrom : forall d, fromCanonical d = mk <$> fixedKey_From ty n d)
    (Hmk : forall a, mk (get a) = a) (Hty : is_u 32 ty) : CanonicalLaws A.
Proof.
  refine {| fits := fun a => length (get a) = n |}.
  - intros a Ha. rewrite Hto. by apply fixedKey_encodes.
  - intros a bs _ E rest. rewrite Hto in E. rewrite Hfrom.
    erewrite fixedKey_decodes by done. simpl. by rewrite Hmk.
  - intros a bs E. rewrite Hto in E. apply fixedKey_inv in E as [_ ->]. apply writeU32_nonempty.
Defined.

(** The four public key messages. *)

Module Ed448PublicKey.
Record t := mk { KeyValue : bytes }.

Definition ToCanonicalBytes (e : t) : result bytes :=
  fixedKey_To Ed448PublicKeyType 57 "invalid ed448 public key length" (KeyValue e).
Definition FromCanonicalBytes (data : bytes) : result t :=
  mk <$> fixedKey_From Ed448PublicKeyType 57 data.

Definition Validate (e : option t) : result unit :=
  match e with
  | None => Err "nil ed448 public key"
  | Some e =>
    if negb (Z.of_nat (length (KeyValue e)) =? 57) then Err "invalid ed448 public key" else Ok tt
  end.

#[global] Instance canonical : Canonical t := {|
  toCanonical := ToCanonicalBytes; fromCanonical := FromCanonicalBytes |}.

#[global] Instance laws : CanonicalLaws t.
Proof. eapply (fixedKey_laws mk KeyValue Ed448PublicKeyType 57); [done|done|by intros []|done]. Defined.
End Ed448PublicKey.

Module BLS48581G2PublicKey.
Record t := mk { KeyValue : bytes }.

Definition ToCanonicalBytes (b : t) : result bytes :=
  fixedKey_To BLS48581G2PublicKeyType 585 "invalid bls48-581 g2 public key length" (KeyValue b).
Definition FromCanonicalBytes (data : bytes) : result t :=
  mk <$> fixedKey_From BLS48581G2PublicKeyType 585 data.

Definition Validate (b : option t) : result unit :=
  match b with
  | None => Err "bls48581 g2 public key is nil"
  | Some b =>
    if (0 <? Z.of_nat (length (KeyValue b))) && negb (Z.of_nat (length (KeyValue b)) =? 585)
    then Err "bls48581 g2 public key must be 585 bytes" else Ok tt
  end.

#[global] Instance canonical : Canonical t := {|
  toCanonical := ToCanonicalBytes; fromCanonical := FromCanonicalBytes |}.

#[global] Instance laws : CanonicalLaws t.
Proof. eapply (fixedKey_laws mk KeyValue BLS48581G2PublicKeyType 585); [done|done|by intros []|done]. Defined.
End BLS48581G2PublicKey.

Module X448PublicKey.
Record t := mk { KeyValue : bytes }.

Definition ToCanonicalBytes (d : t) : result bytes :=
  fixedKey_To X448PublicKeyType 57 "invalid x448 public key length" (KeyValue d).
Definition FromCanonicalBytes (data : bytes) : result t :=
  mk <$> fixedKey_From X448PublicKeyType 57 data.

Definition Validate (x : option t) : result unit :=
  match x with
  | None => Err "x448 public key is nil"
  | Some x =>
    if (0 <? Z.of_nat (length (KeyValue x))) && negb (Z.of_nat (length (KeyValue x)) =? 57)
    then Err "x448 public key must be 57 bytes" else Ok tt
  end.

#[global] Instance canonical : Canonical t := {|
  toCanonical := ToCanonicalBytes; fromCanonical := FromCanonicalBytes |}.

#[global] Instance laws : CanonicalLaws t.
Proof. eapply (fixedKey_laws mk KeyValue X448PublicKeyType 57); [done|done|by intros []|done]. Defined.
End X448PublicKey.

Module Decaf448PublicKey.
Record t := mk { KeyValue : bytes }.

Definition ToCanonicalBytes (d : t) : result bytes :=
  fixedKey_To Decaf448PublicKeyType 56 "invalid decaf448 public key length" (KeyValue d).
Definition FromCanonicalBytes (data : bytes) : result t :=
  mk <$> fixedKey_From Decaf448PublicKeyType 56 data.

Definition Validate (d : option t) : result unit :=
  match d with
  | None => Err "decaf448 public key is nil"
  | Some d =>
    if (0 <? Z.of_nat (length (KeyValue d))) && negb (Z.of_nat (length (KeyValue d)) =? 56)
    then Err "decaf448 public key must be 56 bytes" else Ok tt
  end.

#[global] Instance canonical : Canonical t := {|
  toCanonical := ToCanonicalBytes; fromCanonical := FromCanonicalBytes |}.

#[global] Instance laws : CanonicalLaws t.
Proof. eapply (fixedKey_laws mk KeyValue Decaf448PublicKeyType 56); [done|done|by intros []|done]. Defined.
End Decaf448PublicKey.


(** ** Signatures *)

Definition lenIs (n : Z) (b : bytes) : bool := Z.of_nat (length b) =? n.

Module Ed448Signature.
Record t := mk { Signature : bytes; PublicKey : option Ed448PublicKey.t }.

Definition ToCanonicalBytes (e : t) : result bytes :=
  key ← writeOpt toCanonical (PublicKey e);
  Ok (writeU32 Ed448SignatureType ++ key ++ writeBytes (Signature e)).

Definition FromCanonicalBytes : bytes -> result t := runReader (
  expectType Ed448SignatureType ;;
  key ← readOpt fromCanonical;
  sig ← readBytes;
  mret (mk sig key)).

Definition Validate (e : option t) : result unit :=
  match e with
  | None => Err "nil ed448 signature"
  | Some e =>
    Ed448PublicKey.Validate (PublicKey e) ;;
    if negb (lenIs 114 (Signature e)) then Err "invalid ed448 signature" else Ok tt
  end.

#[global] Instance canonical : Canonical t := {|
  toCanonical := ToCanonicalBytes; fromCanonical := FromCanonicalBytes |}.
#[global] Instance laws : CanonicalLaws t.
Proof.
  message_laws (fun e => embedsOpt (PublicKey e) /\ lenOk (Signature e))
    ToCanonicalBytes FromCanonicalBytes.
Defined.
End Ed448Signature.

Module BLS48581Signature.
Record t := mk { Signature : bytes; PublicKey : option BLS48581G2PublicKey.t }.

Definition ToCanonicalBytes (b : t) : result bytes :=
  key ← writeOpt toCanonical (PublicKey b);
  Ok (writeU32 BLS48581SignatureType ++ key ++ writeBytes (Signature b)).

Definition FromCanonicalBytes : bytes -> result t := runReader (
  expectType BLS48581SignatureType ;;
  key ← readOpt fromCanonical;
  sig ← readBytes;
  mret (mk sig key)).

Definition Validate (b : option t) : result unit :=
  match b with
  | None => Err "bls48581 signature is nil"
  | Some b =>
    if (0 <? Z.of_nat (length (Signature b))) && negb (lenIs 74 (Signature b))
    then Err "bls48581 signature must be 74 bytes"
    else match PublicKey b with
         | None => Ok tt
         | Some k => BLS48581G2PublicKey.Validate (Some k)
         end
  end.

#[global] Instance canonical : Canonical t := {|
  toCanonical := ToCanonicalBytes; fromCanonical := FromCanonicalBytes |}.
#[global] Instance laws : CanonicalLaws t.
Proof.
  message_laws (fun b => embedsOpt (PublicKey b) /\ lenOk (Signature b))
    ToCanonicalBytes FromCanonicalBytes.
Defined.
End BLS48581Signature.

Module Decaf448Signature.
Record t := mk { Signature : bytes; PublicKey : option Decaf448PublicKey.t }.

Definition ToCanonicalBytes (d : t) : result bytes :=
  key ← writeOpt toCanonical (PublicKey d);
  Ok (writeU32 Decaf448SignatureType ++ key ++ writeBytes (Signature d)).

Definition FromCanonicalBytes : bytes -> result t := runReader (
  expectType Decaf448SignatureType ;;
  key ← readOpt fromCanonical;
  sig ← readBytes;
  mret (mk sig key)).

Definition Validate (d : option t) : result unit :=
  match d with
  | None => Err "decaf448 signature is nil"
  | Some d =>
    if (0 <? Z.of_nat (length (Signature d))) && negb (lenIs 112 (Signature d))
    then Err "decaf448 signature must be 112 bytes"
    else match PublicKey d with
         | None => Ok tt
         | Some k => Decaf448PublicKey.Validate (Some k)
         end
  end.

#[global] Instance canonical : Canonical t := {|
  toCanonical := ToCanonicalBytes; fromCanonical := FromCanonicalBytes |}.
#[global] Instance laws : CanonicalLaws t.
Proof.
  message_laws (fun d => embedsOpt (PublicKey d) /\ lenOk (Signature d))
    ToCanonicalBytes FromCanonicalBytes.
Defined.
End Decaf448Signature.

Module BLS48581SignatureWithProofOfPossession.
Record t := mk {
  Signature : bytes;
  PublicKey : option BLS48581G2PublicKey.t;
  PopSignature : bytes
}.

Definition ToCanonicalBytes (b : t) : result bytes :=
  key ← writeOpt toCanonical (PublicKey b);
  Ok (writeU32 BLS48581SignatureWithProofOfPossessionType ++ writeBytes (Signature b) ++ key
      ++ writeBytes (PopSignature b)).

Definition FromCanonicalBytes : bytes -> result t := runReader (
  expectType BLS48581SignatureWithProofOfPossessionType ;;
  sig ← readBytes;
  key ← readOpt fromCanonical;
  pop ← readBytes;
  mret (mk sig key pop)).

Definition Validate (e : option t) : result unit :=
  match e with
  | None => Err "nil bls48581 signature"
  | Some e =>
    match PublicKey e with
    | None => Err "invalid bls48581 public key"
    | Some k =>
      if negb (lenIs 585 (BLS48581G2PublicKey.KeyValue k)) then Err "invalid bls48581 public key"
      else if negb (lenIs 74 (PopSignature e)) then Err "invalid popk signature"
      else if negb (lenIs 74 (Signature e)) then Err "invalid bls48581 signature"
      else Ok tt
    end
  end.

#[global] Instance canonical : Canonical t := {|
  toCanonical := ToCanonicalBytes; fromCanonical := FromCanonicalBytes |}.
#[global] Instance laws : CanonicalLaws t.
Proof.
  message_laws (fun b => lenOk (Signature b) /\ embedsOpt (PublicKey b) /\ lenOk (PopSignature b))
    ToCanonicalBytes FromCanonicalBytes.
Defined.
End BLS48581SignatureWithProofOfPossession.

Module BLS48581AddressedSignature.
Record t := mk { Signature : bytes; Address : bytes }.

Definition ToCanonicalBytes (b : t) : result bytes :=
  Ok (writeU32 BLS48581AddressedSignatureType ++ writeBytes (Signature b) ++ writeBytes (Address b)).

Definition FromCanonicalBytes : bytes -> result t := runReader (
  expectType BLS48581AddressedSignatureType ;;
  sig ← readBytes;
  addr ← readBytes;
  mret (mk sig addr)).

Definition Validate (e : option t) : result unit :=
  match e with
  | None => Err "nil bls48581 signature"
  | Some e =>
    if negb (lenIs 32 (Address e)) then Err "invalid address"
    else if negb (lenIs 74 (Signature e)) then Err "invalid bls48581 signature"
    else Ok tt
  end.

#[global] Instance canonical : Canonical t := {|
  toCanonical := ToCanonicalBytes; fromCanonical := FromCanonicalBytes |}.
#[global] Instance laws : CanonicalLaws t.
Proof.
  message_laws (fun b => lenOk (Signature b) /\ lenOk (Address b)) ToCanonicalBytes FromCanonicalBytes.
Defined.
End BLS48581AddressedSignature.

Module BLS48581AggregateSignature.
Record t := mk {
  Signature : bytes;
  PublicKey : option BLS48581G2PublicKey.t;
  Bitmask : bytes
}.

Definition ToCanonicalBytes (b : t) : result bytes :=
  key ← writeOpt toCanonical (PublicKey b);
  Ok (writeU32 BLS48581AggregateSignatureType ++ writeBytes (Signature b) ++ key
      ++ writeBytes (Bitmask b)).

Definition FromCanonicalBytes : bytes -> result t := runReader (
  expectType BLS48581AggregateSignatureType ;;
  sig ← readBytes;
  key ← readOpt fromCanonical;
  mask ← readBytes;
  mret (mk sig key mask)).

Definition Validate (b : option t) : result unit :=
  match b with
  | None => Err "bls48581 aggregate signature is nil"
  | Some b =>
    if (0 <? Z.of_nat (length (Signature b))) && negb (lenIs 74 (Signature b))
    then Err "bls48581 signature must be 74 bytes"
    else match PublicKey b with
         | None => Ok tt
         | Some k => BLS48581G2PublicKey.Validate (Some k)
         end
  end.

#[global] Instance canonical : Canonical t := {|
  toCanonical := ToCanonicalBytes; fromCanonical := FromCanonicalBytes |}.
#[global] Instance laws : CanonicalLaws t.
Proof.
  message_laws (fun b => lenOk (Signature b) /\ embedsOpt (PublicKey b) /\ lenOk (Bitmask b))
    ToCanonicalBytes FromCanonicalBytes.
Defined.
End BLS48581AggregateSignature.
