(* ===== verification/KeyRegistry.v ===== *)
(** * Signed keys, key collections and the key registry (protobufs/keys.go)

    The canonical codecs of [SignedX448Key], [KeyCollection] and [KeyRegistry],
    their Validate methods, and the Verify methods of the signature messages over
    arbitrary signature schemes. *)

From S2P Require Import Prelude Wire CanonicalTypes Keys.

Module SignedX448Key.
(** The oneof [isSignedX448Key_Signature]. *)
Inductive signature :=
| SignedX448Key_Ed448Signature (s : Ed448Signature.t)
| SignedX448Key_BlsSignature (s : BLS48581Signature.t)
| SignedX448Key_DecafSignature (s : Decaf448Signature.t).

Record t := mk {
  Key : option X448PublicKey.t;
  ParentKeyAddress : bytes;
  Signature : option signature;
  CreatedAt : Z;
  ExpiresAt : Z;
  KeyPurpose : bytes  (* a Go string: its bytes *)
}.

Definition writeSignature (o : option signature) : result bytes :=
  match o with
  | Some (SignedX448Key_Ed448Signature s) => b ← writeMsg toCanonical s; Ok (writeU8 1 ++ b)
  | Some (SignedX448Key_BlsSignature s) => b ← writeMsg toCanonical s; Ok (writeU8 2 ++ b)
  | Some (SignedX448Key_DecafSignature s) => b ← writeMsg toCanonical s; Ok (writeU8 3 ++ b)
  | None => Ok (writeU8 0)
  end.

(** The bytes of a signature of unknown type are read and dropped. *)
Definition readSignature : reader (option signature) :=
  sigType ← readU8;
  if 0 <? sigType then
    sigBytes ← readBytes;
    if sigType =? 1 then
      s ← lift (fromCanonical sigBytes); mret (Some (SignedX448Key_Ed448Signature s))
    else if sigType =? 2 then
      s ← lift (fromCanonical sigBytes); mret (Some (SignedX448Key_BlsSignature s))
    else if sigType =? 3 then
      s ← lift (fromCanonical sigBytes); mret (Some (SignedX448Key_DecafSignature s))
    else mret None
  else mret None.

Definition ToCanonicalBytes (s : t) : result bytes :=
  key ← writeOpt toCanonical (Key s);
  sig ← writeSignature (Signature s);
  Ok (writeU32 SignedX448KeyType ++ key ++ writeBytes (ParentKeyAddress s) ++ sig
      ++ writeU64 (CreatedAt s) ++ writeU64 (ExpiresAt s) ++ writeBytes (KeyPurpose s)).

Definition FromCanonicalBytes : bytes -> result t := runReader (
  expectType SignedX448KeyType ;;
  key ← readOpt fromCanonical;
  parent ← readBytes;
  sig ← readSignature;
  created ← readU64;
  expires ← readU64;
  purpose ← readBytes;
  mret (mk key parent sig created expires purpose)).

Definition Validate (s : option t) : result unit :=
  match s with
  | None => Err "nil signed x448 key"
  | Some s =>
    match Key s with
    | None => Err "nil x448 key"
    | Some k =>
      if negb (lenIs 57 (X448PublicKey.KeyValue k)) then Err "invalid x448 key length"
      else if negb (lenIs 32 (ParentKeyAddress s)) then Err "invalid parent key address length"
      else
        match Signature s with
        | Some (SignedX448Key_Ed448Signature e) => Ed448Signature.Validate (Some e)
        | Some (SignedX448Key_BlsSignature b) =>
          if negb (lenIs 74 (BLS48581Signature.Signature b)) then Err "invalid bls signature length"
          else match BLS48581Signature.PublicKey b with
               | Some k => if negb (lenIs 585 (BLS48581G2PublicKey.KeyValue k))
                           then Err "invalid bls public key length" else Ok tt
               | None => Ok tt
               end
        | Some (SignedX448Key_DecafSignature d) =>
          if negb (lenIs 112 (Decaf448Signature.Signature d)) then Err "invalid decaf signature length"
          else match Decaf448Signature.PublicKey d with
               | Some k => if negb (lenIs 56 (Decaf448PublicKey.KeyValue k))
                           then Err "invalid decaf public key length" else Ok tt
               | None => Ok tt
               end
        | None => Err "no signature specified"
        end
    end
  end.

Definition fitsSignature (o : option signature) : Prop :=
  match o with
  | Some (SignedX448Key_Ed448Signature s) => embeds s
  | Some (SignedX448Key_BlsSignature s) => embeds s
  | Some (SignedX448Key_DecafSignature s) => embeds s
  | None => True
  end.

Lemma writeSignature_encodes o : fitsSignature o -> is_Ok (writeSignature o).
Proof.
  destruct o as [[s|s|s]|]; simpl; intros Hf; [..|by eexists];
    destruct (writeMsg_encodes _ Hf) as [b ->]; by eexists.
Qed.

Lemma parses_tagged {A} `{CanonicalLaws A} (f : A -> signature) tag s b :
  0 < tag < 256 -> embeds s -> writeMsg toCanonical s = Ok b ->
  (forall sigBytes rest, fromCanonical sigBytes = Ok s ->
     (if tag =? 1 then
        s ← lift (fromCanonical sigBytes); mret (Some (SignedX448Key_Ed448Signature s))
      else if tag =? 2 then
        s ← lift (fromCanonical sigBytes); mret (Some (SignedX448Key_BlsSignature s))
      else if tag =? 3 then
        s ← lift (fromCanonical sigBytes); mret (Some (SignedX448Key_DecafSignature s))
      else mret None) rest = Ok (Some (f s), rest)) ->
  parses readSignature (writeU8 tag ++ b) (Some (f s)).
Proof.
  intros Ht [Hf Hl] E Hdec. apply result_map_Ok in E as (b0 & E & ->). unfold readSignature.
  eapply parses_bind; [apply parses_u8; unfold is_u; lia|].
  destruct (Z.ltb_spec 0 tag); [|lia].
  eapply parses_bind_nil; [by apply parses_bytes, Hl|]. intros rest. apply Hdec.
  by apply canonical_exact.
Qed.

Lemma parses_signature o bs :
  fitsSignature o -> writeSignature o = Ok bs -> parses readSignature bs o.
Proof.
  destruct o as [[s|s|s]|]; cbn [writeSignature fitsSignature]; intros Hf E.
  1-3: apply result_map_Ok in E as (b & E & ->); eapply parses_tagged; [lia|done|done|];
    intros sb rest Es; unfold mbind, reader_bind, lift; simpl; by rewrite Es.
  apply (inj Ok) in E as <-. eapply parses_bind_nil; [by apply parses_u8|]. apply parses_ret.
Qed.
#[export] Hint Resolve parses_signature writeSignature_encodes : wire.

#[global] Instance canonical : Canonical t := {|
  toCanonical := ToCanonicalBytes; fromCanonical := FromCanonicalBytes |}.
#[global] Instance laws : CanonicalLaws t.
Proof.
  message_laws (fun s => embedsOpt (Key s) /\ lenOk (ParentKeyAddress s)
    /\ fitsSignature (Signature s) /\ is_u 64 (CreatedAt s) /\ is_u 64 (ExpiresAt s)
    /\ lenOk (KeyPurpose s)) ToCanonicalBytes FromCanonicalBytes.
Defined.
End SignedX448Key.

Module KeyCollection.
Record t := mk { KeyPurpose : bytes; Keys : list SignedX448Key.t }.

Definition ToCanonicalBytes (k : t) : result bytes :=
  keys ← writeMsgs toCanonical (Keys k);
  Ok (writeU32 KeyCollectionType ++ writeBytes (KeyPurpose k) ++ keys).

Definition FromCanonicalBytes : bytes -> result t := runReader (
  expectType KeyCollectionType ;;
  purpose ← readBytes;
  keys ← readSeq (readMsg fromCanonical);
  mret (mk purpose keys)).

Definition Validate (k : option t) : result unit :=
  match k with
  | None => Err "nil key collection"
  | Some k =>
    if lenIs 0 (KeyPurpose k) then Err "empty key purpose"
    else validateEach (fun key => SignedX448Key.Validate (Some key)) (Keys k)
  end.

#[global] Instance canonical : Canonical t := {|
  toCanonical := ToCanonicalBytes; fromCanonical := FromCanonicalBytes |}.
#[global] Instance laws : CanonicalLaws t.
Proof.
  message_laws (fun k => lenOk (KeyPurpose k) /\ lenOk (Keys k) /\ Forall embeds (Keys k))
    ToCanonicalBytes FromCanonicalBytes.
Defined.
End KeyCollection.

Module KeyRegistry.
Record t := mk {
  IdentityKey : option Ed448PublicKey.t;
  ProverKey : option BLS48581G2PublicKey.t;
  IdentityToProver : option Ed448Signature.t;
  ProverToIdentity : option BLS48581Signature.t;
  KeysByPurpose : gmap bytes KeyCollection.t;
  LastUpdated : Z
}.

(** [order] is the order in which the [range] loop over the map happens to visit
    its entries; Go leaves it unspecified. *)
Definition ToCanonicalBytes (order : list (bytes * KeyCollection.t)) (k : t) : result bytes :=
  idKey ← writeOpt toCanonical (IdentityKey k);
  prKey ← writeOpt toCanonical (ProverKey k);
  idSig ← writeOpt toCanonical (IdentityToProver k);
  prSig ← writeOpt toCanonical (ProverToIdentity k);
  entries ← writeEntries toCanonical order;
  Ok (writeU32 KeyRegistryType ++ idKey ++ prKey ++ idSig ++ prSig
      ++ (writeU32 (u32 (Z.of_nat (size (KeysByPurpose k)))) ++ entries) ++ writeU64 (LastUpdated k)).

Definition FromCanonicalBytes : bytes -> result t := runReader (
  expectType KeyRegistryType ;;
  idKey ← readOpt fromCanonical;
  prKey ← readOpt fromCanonical;
  idSig ← readOpt fromCanonical;
  prSig ← readOpt fromCanonical;
  entries ← readSeq (readEntry fromCanonical);
  updated ← readU64;
  mret (mk idKey prKey idSig prSig (addEntries entries) updated)).

(** Validate visits the collections in an unspecified order too. *)
Definition Validate (order : list (bytes * KeyCollection.t)) (k : option t) : result unit :=
  match k with
  | None => Err "nil key registry"
  | Some k => validateEach (fun e => KeyCollection.Validate (Some e.2)) order
  end.

Definition fitsRegistry (k : t) : Prop :=
  embedsOpt (IdentityKey k) /\ embedsOpt (ProverKey k) /\ embedsOpt (IdentityToProver k)
  /\ embedsOpt (ProverToIdentity k) /\ Z.of_nat (size (KeysByPurpose k)) < 2 ^ 32
  /\ map_Forall (fun p c => lenOk p /\ embeds c) (KeysByPurpose k) /\ is_u 64 (LastUpdated k).
End KeyRegistry.

(** ** Verification of signed keys *)

(** The signature schemes and the Poseidon hash, which live outside this package. *)
Class KeySchemes := {
  ed448Verify : bytes -> bytes -> bytes -> bytes -> bool;        (* key, msg, sig, context *)
  VerifySignatureRaw : bytes -> bytes -> bytes -> bytes -> bool; (* key, sig, msg, context *)
  SimpleVerify : bytes -> bytes -> bytes -> bool;                (* message, sig, point *)
  poseidonHash : bytes -> result Z
}.

Section Verify.
Context `{KeySchemes}.

Definition errBadSignature : string := "invalid signature for public key".

(** Verification without length checks; a nil key is dereferenced. *)
Definition Ed448Signature_verifyUnsafe (s : Ed448Signature.t) (msg context : bytes) : result unit :=
  match Ed448Signature.PublicKey s with
  | None => Panic
  | Some k =>
    if negb (ed448Verify (Ed448PublicKey.KeyValue k) msg (Ed448Signature.Signature s) context)
    then Err errBadSignature else Ok tt
  end.

(** A nil signature and an empty one are not told apart: both are rejected. *)
Definition Ed448Signature_Verify (s : Ed448Signature.t) (msg context : bytes) : result unit :=
  match Ed448Signature.PublicKey s with
  | None => Err "public key nil"
  | Some k =>
    if negb (lenIs 57 (Ed448PublicKey.KeyValue k)) then Err "invalid length for public key"
    else if negb (lenIs 114 (Ed448Signature.Signature s)) then Err "invalid length for signature"
    else Ed448Signature_verifyUnsafe s msg context
  end.

Definition BLS48581Signature_Verify (s : BLS48581Signature.t) (msg context : bytes) : result unit :=
  match BLS48581Signature.PublicKey s with
  | None => Err "public key nil"
  | Some k =>
    if negb (lenIs 585 (BLS48581G2PublicKey.KeyValue k)) then Err "invalid length for public key"
    else if negb (lenIs 74 (BLS48581Signature.Signature s)) then Err "invalid length for signature"
    else if negb (VerifySignatureRaw (BLS48581G2PublicKey.KeyValue k)
                    (BLS48581Signature.Signature s) msg context)
    then Err errBadSignature else Ok tt
  end.

Definition Decaf448Signature_Verify (s : Decaf448Signature.t) (msg context : bytes) : result unit :=
  match Decaf448Signature.PublicKey s with
  | None => Err "public key nil"
  | Some k =>
    if negb (lenIs 56 (Decaf448PublicKey.KeyValue k)) then Err "invalid length for public key"
    else if negb (lenIs 112 (Decaf448Signature.Signature s)) then Err "invalid length for signature"
    else if negb (SimpleVerify (context ++ msg) (Decaf448Signature.Signature s)
                    (Decaf448PublicKey.KeyValue k))
    then Err errBadSignature else Ok tt
  end.

(** [addrBI.FillBytes(make([]byte, 32))], which panics on a larger value. *)
Definition FillBytes32 (z : Z) : result bytes :=
  if decide (is_u 256 z) then Ok (be 32 z) else Panic.

(** The parent address is the hash of the signer's public key. *)
Definition checkParent (pk parent : bytes) : result unit :=
  h ← poseidonHash pk;
  addressToCheck ← FillBytes32 h;
  if decide (addressToCheck = parent) then Ok tt
  else Err "parent key address does not match public key".

Definition SignedX448Key_Verify (s : option SignedX448Key.t) (context : bytes) : result unit :=
  match s with
  | None => Err "nil signed x448 key"
  | Some s =>
    match SignedX448Key.Key s with
    | None => Err "key nil"
    | Some key =>
      let kv := X448PublicKey.KeyValue key in
      let parent := SignedX448Key.ParentKeyAddress s in
      if negb (lenIs 57 kv) then Err "invalid length for key"
      else if lenIs 0 parent then Err "parent key address required"
      else
        match SignedX448Key.Signature s with
        | Some (SignedX448Key.SignedX448Key_Ed448Signature sig) =>
          match Ed448Signature.PublicKey sig with
          | None => Err "ed448 signature or public key nil"
          | Some pk =>
            Ed448Signature_Verify sig kv context ;; checkParent (Ed448PublicKey.KeyValue pk) parent
          end
        | Some (SignedX448Key.SignedX448Key_BlsSignature sig) =>
          match BLS48581Signature.PublicKey sig with
          | None => Err "bls signature or public key nil"
          | Some pk =>
            BLS48581Signature_Verify sig kv context ;;
            checkParent (BLS48581G2PublicKey.KeyValue pk) parent
          end
        | Some (SignedX448Key.SignedX448Key_DecafSignature sig) =>
          match Decaf448Signature.PublicKey sig with
          | None => Err "decaf signature or public key nil"
          | Some pk =>
            Decaf448Signature_Verify sig kv context ;;
            checkParent (Decaf448PublicKey.KeyValue pk) parent
          end
        | None => Err "no signature"
        end
    end
  end.

(** [pk] signed [msg] in [context], with keys and signatures of the right sizes. *)
Definition signedBy (sig : SignedX448Key.signature) (pk msg context : bytes) : Prop :=
  match sig with
  | SignedX448Key.SignedX448Key_Ed448Signature s =>
    Ed448Signature.PublicKey s = Some (Ed448PublicKey.mk pk) /\ length pk = 57%nat
    /\ length (Ed448Signature.Signature s) = 114%nat
    /\ ed448Verify pk msg (Ed448Signature.Signature s) context = true
  | SignedX448Key.SignedX448Key_BlsSignature s =>
    BLS48581Signature.PublicKey s = Some (BLS48581G2PublicKey.mk pk) /\ length pk = 585%nat
    /\ length (BLS48581Signature.Signature s) = 74%nat
    /\ VerifySignatureRaw pk (BLS48581Signature.Signature s) msg context = true
  | SignedX448Key.SignedX448Key_DecafSignature s =>
    Decaf448Signature.PublicKey s = Some (Decaf448PublicKey.mk pk) /\ length pk = 56%nat
    /\ length (Decaf448Signature.Signature s) = 112%nat
    /\ SimpleVerify (context ++ msg) (Decaf448Signature.Signature s) pk = true
  end.

Lemma lenIs_iff n b : lenIs n b = true <-> Z.of_nat (length b) = n.
Proof. apply Z.eqb_eq. Qed.

Lemma checkParent_iff pk parent :
  checkParent pk parent = Ok tt <->
  exists h, poseidonHash pk = Ok h /\ is_u 256 h /\ parent = be 32 h.
Proof.
  unfold checkParent, FillBytes32. split.
  - intros E. apply result_bind_Ok in E as (h & Eh & E). case_decide; [|done].
    cbn [mbind result_bind] in E. case_decide; [|done]. eauto.
  - intros (h & -> & Hh & ->). cbn [mbind result_bind]. rewrite decide_True by done.
    cbn [mbind result_bind]. by rewrite decide_True.
Qed.

(** One signature scheme: the three length and signature tests of its Verify. *)
Lemma guards_iff (a b c : bool) m1 m2 m3 :
  (if a then Err m1 else if b then Err m2 else if c then Err m3 else Ok tt) = Ok tt
  <-> a = false /\ b = false /\ c = false.
Proof. destruct a, b, c; naive_solver. Qed.

Lemma seq_iff (r1 r2 : result unit) : (r1 ;; r2) = Ok tt <-> r1 = Ok tt /\ r2 = Ok tt.
Proof. destruct r1 as [[]| | |], r2 as [[]| | |]; naive_solver. Qed.
End Verify.

(** ** Properties *)

(** A key registry that fits encodes and decodes from its canonical bytes, in
    whatever order its map of collections is visited and whatever bytes follow. *)
Theorem key_registry_roundtrip (order : list (bytes * KeyCollection.t)) (k : KeyRegistry.t) :
  KeyRegistry.fitsRegistry k -> order ≡ₚ map_to_list (KeyRegistry.KeysByPurpose k) ->
  exists bs, KeyRegistry.ToCanonicalBytes order k = Ok bs
    /\ forall rest, KeyRegistry.FromCanonicalBytes (bs ++ rest) = Ok k.
Proof.
  intros (H1 & H2 & H3 & H4 & H5 & H6 & H7) Hp.
  assert (is_Ok (KeyRegistry.ToCanonicalBytes order k)) as [bs E].
  { assert (is_Ok (writeEntries toCanonical order)) as [b Eb].
    { apply writeEntries_encodes, Forall_forall. intros [p c] Hin. rewrite Hp in Hin.
      apply elem_of_map_to_list in Hin. by apply (H6 p c). }
    unfold KeyRegistry.ToCanonicalBytes. rewrite Eb. solve_encodes. }
  exists bs. split; [done|]. intros rest. destruct k as [ik pk ip pi m u]. simpl in *.
  unfold KeyRegistry.ToCanonicalBytes in E. cbn in E. invert_encoder E.
  apply runReader_parses. rewrite <- (addEntries_perm m order Hp) at 2.
  do 5 (eapply parses_bind; [solve [eauto with wire]|]).
  eapply parses_bind; [by apply parses_map|]. eapply parses_last; eauto with wire.
Qed.

(** A registry with two purposes, and its encoding for a visiting order. *)
Definition twoEntries : list (bytes * KeyCollection.t) :=
  [([Byte.x61], KeyCollection.mk [] []); ([Byte.x62], KeyCollection.mk [] [])].
Definition twoPurposes : KeyRegistry.t :=
  KeyRegistry.mk None None None None (list_to_map twoEntries) 0.
Definition twoBytes (order : list (bytes * KeyCollection.t)) : bytes :=
  match KeyRegistry.ToCanonicalBytes order twoPurposes with Ok bs => bs | _ => [] end.

Lemma twoPurposes_fits : KeyRegistry.fitsRegistry twoPurposes.
Proof.
  do 4 (split; [exact I|]). split; [vm_compute; reflexivity|]. split; [|by_decide].
  intros p c Hc. cbn [KeyRegistry.KeysByPurpose twoPurposes] in Hc.
  apply elem_of_list_to_map_2 in Hc. unfold twoEntries in Hc.
  assert (c = KeyCollection.mk [] [] /\ lenOk p) as [-> Hl].
  { repeat (apply elem_of_cons in Hc as [[= -> ->]|Hc]; [split; [done|by_decide]|]).
    by apply not_elem_of_nil in Hc. }
  split; [done|]. split; [split_and!; [by_decide|by_decide|constructor]|].
  intros bs E. vm_compute in E. injection E as <-. by_decide.
Qed.

(** The canonical bytes of a key registry are not canonical: they depend on
    the order in which the loop over the map visits the collections, so one
    registry has several encodings. *)
Theorem key_registry_not_canonical :
  exists k o1 o2 b1 b2, KeyRegistry.fitsRegistry k
    /\ o1 ≡ₚ map_to_list (KeyRegistry.KeysByPurpose k)
    /\ o2 ≡ₚ map_to_list (KeyRegistry.KeysByPurpose k)
    /\ KeyRegistry.ToCanonicalBytes o1 k = Ok b1 /\ KeyRegistry.ToCanonicalBytes o2 k = Ok b2
    /\ b1 <> b2.
Proof.
  exists twoPurposes, twoEntries, (reverse twoEntries), (twoBytes twoEntries),
    (twoBytes (reverse twoEntries)).
  assert (map_to_list (KeyRegistry.KeysByPurpose twoPurposes) ≡ₚ twoEntries) as Hp.
  { apply map_to_list_to_map. by_decide. }
  split; [exact twoPurposes_fits|].
  split; [by rewrite Hp|]. split; [by rewrite Hp, reverse_Permutation|].
  split; [vm_compute; reflexivity|]. split; [vm_compute; reflexivity|].
  by_decide.
Qed.

(** SignedX448Key.Verify accepts exactly the keys of 57 bytes that are signed,
    under one of the three schemes and with a public key and signature of that
    scheme's sizes, by the key whose Poseidon hash is the parent key address. *)
Theorem signed_key_verify_iff `{KeySchemes} (s : SignedX448Key.t) (context : bytes) :
  SignedX448Key_Verify (Some s) context = Ok tt <->
  exists key sig pk h, SignedX448Key.Key s = Some (X448PublicKey.mk key) /\ length key = 57%nat
    /\ SignedX448Key.Signature s = Some sig /\ signedBy sig pk key context
    /\ poseidonHash pk = Ok h /\ is_u 256 h /\ SignedX448Key.ParentKeyAddress s = be 32 h.
Proof.
  destruct s as [[[key]|] parent [sig|] ca ea pu]; simpl; try naive_solver.
  - assert (lenIs 0 parent = false \/ parent = []) as Hpar
      by (destruct parent; [by right|by left]).
    destruct (lenIs 57 key) eqn:E57; simpl.
    2: { split; [done|]. intros (? & ? & ? & ? & [= <-] & Hl & _).
         apply not_true_iff_false in E57. rewrite lenIs_iff in E57. lia. }
    apply lenIs_iff in E57.
    destruct Hpar as [->| ->].
    2: { split; [done|]. intros (? & ? & ? & h & ? & ? & ? & ? & ? & ? & E).
         apply (f_equal length) in E. by rewrite be_length in E. }
    destruct sig as [[sb [[pk]|]]|[sb [[pk]|]]|[sb [[pk]|]]]; simpl; try (split; [done|];
      intros (? & sig & ? & ? & ? & ? & [= <-] & Hs & _); simpl in Hs; naive_solver).
    all: rewrite seq_iff, checkParent_iff; unfold Ed448Signature_Verify, Ed448Signature_verifyUnsafe, BLS48581Signature_Verify,
      Decaf448Signature_Verify; simpl; rewrite guards_iff, !negb_false_iff;
      (split; [intros ((H1 & H2 & H3) & h & ? & ? & ?); apply lenIs_iff in H1, H2 |]).
    all: try (eexists key, _, pk, h; split; [done|]; split; [lia|]; split; [done|];
      split; [cbn; split_and!; [done|lia|lia|done]|done]).
    all: intros (? & ? & ? & h & [= <-] & _ & [= <-] & (Hpk & Hl1 & Hl2 & Hv) & Hr);
      simpl in *; injection Hpk as <-; split; [|by exists h];
      split_and!; [apply lenIs_iff; lia|apply lenIs_iff; lia|done].
  - split; [|naive_solver]. destruct (negb _), (lenIs 0 parent); done.
Qed.

(** ** Witness *)

Definition demoSigned : SignedX448Key.t :=
  SignedX448Key.mk (Some (X448PublicKey.mk (replicate 57 Byte.x07))) (replicate 32 Byte.x01)
    (Some (SignedX448Key.SignedX448Key_Ed448Signature
             (Ed448Signature.mk (replicate 114 Byte.x02)
                (Some (Ed448PublicKey.mk (replicate 57 Byte.x03))))))
    5 9 [Byte.x69].

Definition demoCollection : KeyCollection.t := KeyCollection.mk [Byte.x69] [demoSigned].

Lemma demoSigned_embeds : embeds demoSigned.
Proof.
  apply embeds_run; [|vm_compute; reflexivity].
  split_and!; try by_decide.
  - apply embeds_run; [reflexivity|vm_compute; reflexivity].
  - apply embeds_run; [|vm_compute; reflexivity].
    split; [|by_decide].
    apply embeds_run; [reflexivity|vm_compute; reflexivity].
Qed.

Lemma demoCollection_embeds : embeds demoCollection.
Proof.
  apply embeds_run; [|vm_compute; reflexivity].
  split_and!; try by_decide. repeat constructor; apply demoSigned_embeds.
Qed.

Definition demoRegistry : KeyRegistry.t :=
  KeyRegistry.mk (Some (Ed448PublicKey.mk (replicate 57 Byte.x03))) None None None
    {[ [Byte.x69] := demoCollection ]} 77.

Lemma key_registry_roundtrip_witness :
  exists bs, KeyRegistry.ToCanonicalBytes [([Byte.x69], demoCollection)] demoRegistry = Ok bs
    /\ forall rest, KeyRegistry.FromCanonicalBytes (bs ++ rest) = Ok demoRegistry.
Proof.
  apply (key_registry_roundtrip [([Byte.x69], demoCollection)]).
  - split; [apply embeds_run; [reflexivity|vm_compute; reflexivity]|].
    do 3 (split; [exact I|]). split; [vm_compute; reflexivity|]. split; [|by_decide]. simpl.
    rewrite map_Forall_singleton. split; [by_decide|apply demoCollection_embeds].
  - simpl. by rewrite map_to_list_singleton.
Defined.
