(* ===== verification/Global.v ===== *)
(** * Messages of the global intrinsic (protobufs/global.go)

    One Module per message, with its fields, canonical codec and Validate method,
    and the instance that states the codec's round trip. *)

From S2P Require Import Prelude Wire CanonicalTypes Keys.

(** The filter lengths a message may name. *)
Definition filter32or64 (f : bytes) : bool := lenIs 32 f || lenIs 64 f.

(** The lengths of a commitment: empty tree or group element. *)
Definition commitment64or74 (c : bytes) : bool := lenIs 64 c || lenIs 74 c.

Module SeniorityMerge.
Record t := mk { Signature : bytes; KeyType : Z; ProverPublicKey : bytes }.

Definition ToCanonicalBytes (s : t) : result bytes :=
  Ok (writeU32 SeniorityMergeType ++ writeBytes (Signature s) ++ writeU32 (KeyType s)
      ++ writeBytes (ProverPublicKey s)).

Definition FromCanonicalBytes : bytes -> result t := runReader (
  expectType SeniorityMergeType ;;
  sig ← readBytes;
  keyType ← readU32;
  key ← readBytes;
  mret (mk sig keyType key)).

Definition Validate (s : option t) : result unit :=
  match s with
  | None => Err "nil seniority merge"
  | Some s =>
    if negb (lenIs 74 (Signature s)) then Err "invalid signature length"
    else if lenIs 0 (ProverPublicKey s) then Err "prover public key is empty"
    else Ok tt
  end.

#[global] Instance canonical : Canonical t := {|
  toCanonical := ToCanonicalBytes; fromCanonical := FromCanonicalBytes |}.
#[global] Instance laws : CanonicalLaws t.
Proof.
  message_laws (fun s => lenOk (Signature s) /\ is_u 32 (KeyType s) /\ lenOk (ProverPublicKey s))
    ToCanonicalBytes FromCanonicalBytes.
Defined.
End SeniorityMerge.

Module LegacyProverRequest.
Record t := mk { PublicKeySignaturesEd448 : list Ed448Signature.t }.

Definition ToCanonicalBytes (l : t) : result bytes :=
  sigs ← writeMsgs toCanonical (PublicKeySignaturesEd448 l);
  Ok (writeU32 LegacyProverRequestType ++ sigs).

Definition FromCanonicalBytes : bytes -> result t := runReader (
  expectType LegacyProverRequestType ;;
  sigs ← readSeq (readMsg fromCanonical);
  mret (mk sigs)).

#[global] Instance canonical : Canonical t := {|
  toCanonical := ToCanonicalBytes; fromCanonical := FromCanonicalBytes |}.
#[global] Instance laws : CanonicalLaws t.
Proof.
  message_laws (fun l => lenOk (PublicKeySignaturesEd448 l)
    /\ Forall embeds (PublicKeySignaturesEd448 l)) ToCanonicalBytes FromCanonicalBytes.
Defined.
End LegacyProverRequest.

Module ProverJoin.
Record t := mk {
  Filters : list bytes;
  FrameNumber : Z;
  PublicKeySignatureBls48581 : option BLS48581SignatureWithProofOfPossession.t;
  DelegateAddress : bytes;
  MergeTargets : list SeniorityMerge.t
}.

Definition ToCanonicalBytes (p : t) : result bytes :=
  sig ← writeOpt toCanonical (PublicKeySignatureBls48581 p);
  targets ← writeMsgs toCanonical (MergeTargets p);
  Ok (writeU32 ProverJoinType ++ writeSeq writeBytes (Filters p) ++ writeU64 (FrameNumber p)
      ++ sig ++ writeBytes (DelegateAddress p) ++ targets).

Definition FromCanonicalBytes : bytes -> result t := runReader (
  expectType ProverJoinType ;;
  filters ← readSeq readBytes;
  frameNumber ← readU64;
  sig ← readOpt fromCanonical;
  delegate ← readBytes;
  targets ← readSeq (readMsg fromCanonical);
  mret (mk filters frameNumber sig delegate targets)).

Definition Validate (p : option t) : result unit :=
  match p with
  | None => Err "nil announce prover join"
  | Some p =>
    if Z.of_nat (length (Filters p)) =? 0 then Err "no filters provided"
    else if negb (forallb filter32or64 (Filters p)) then Err "invalid filter"
    else match PublicKeySignatureBls48581 p with
         | None => Ok tt
         | Some sig => BLS48581SignatureWithProofOfPossession.Validate (Some sig)
         end
  end.

#[global] Instance canonical : Canonical t := {|
  toCanonical := ToCanonicalBytes; fromCanonical := FromCanonicalBytes |}.
#[global] Instance laws : CanonicalLaws t.
Proof.
  message_laws (fun p => lenOk (Filters p) /\ Forall lenOk (Filters p) /\ is_u 64 (FrameNumber p)
    /\ embedsOpt (PublicKeySignatureBls48581 p) /\ lenOk (DelegateAddress p)
    /\ lenOk (MergeTargets p) /\ Forall embeds (MergeTargets p))
    ToCanonicalBytes FromCanonicalBytes.
Defined.
End ProverJoin.

Module ProverLeave.
Record t := mk {
  Filters : list bytes;
  FrameNumber : Z;
  PublicKeySignatureBls48581 : option BLS48581AddressedSignature.t
}.

Definition ToCanonicalBytes (p : t) : result bytes :=
  sig ← writeOpt toCanonical (PublicKeySignatureBls48581 p);
  Ok (writeU32 ProverLeaveType ++ writeSeq writeBytes (Filters p) ++ writeU64 (FrameNumber p) ++ sig).

Definition FromCanonicalBytes : bytes -> result t := runReader (
  expectType ProverLeaveType ;;
  filters ← readSeq readBytes;
  frameNumber ← readU64;
  sig ← readOpt fromCanonical;
  mret (mk filters frameNumber sig)).

Definition Validate (p : option t) : result unit :=
  match p with
  | None => Err "nil announce prover leave"
  | Some p =>
    if Z.of_nat (length (Filters p)) =? 0 then Err "no filters provided"
    else if negb (forallb filter32or64 (Filters p)) then Err "invalid filter"
    else BLS48581AddressedSignature.Validate (PublicKeySignatureBls48581 p)
  end.

#[global] Instance canonical : Canonical t := {|
  toCanonical := ToCanonicalBytes; fromCanonical := FromCanonicalBytes |}.
#[global] Instance laws : CanonicalLaws t.
Proof.
  message_laws (fun p => lenOk (Filters p) /\ Forall lenOk (Filters p) /\ is_u 64 (FrameNumber p)
    /\ embedsOpt (PublicKeySignatureBls48581 p)) ToCanonicalBytes FromCanonicalBytes.
Defined.
End ProverLeave.

Module ProverPause.
Record t := mk {
  Filter : bytes;
  FrameNumber : Z;
  PublicKeySignatureBls48581 : option BLS48581AddressedSignature.t
}.

Definition ToCanonicalBytes (p : t) : result bytes :=
  sig ← writeOpt toCanonical (PublicKeySignatureBls48581 p);
  Ok (writeU32 ProverPauseType ++ writeBytes (Filter p) ++ writeU64 (FrameNumber p) ++ sig).

Definition FromCanonicalBytes : bytes -> result t := runReader (
  expectType ProverPauseType ;;
  filter ← readBytes;
  frameNumber ← readU64;
  sig ← readOpt fromCanonical;
  mret (mk filter frameNumber sig)).

Definition Validate (p : option t) : result unit :=
  match p with
  | None => Err "nil announce prover pause"
  | Some p =>
    if negb (lenIs 32 (Filter p)) then Err "invalid filter"
    else BLS48581AddressedSignature.Validate (PublicKeySignatureBls48581 p)
  end.

#[global] Instance canonical : Canonical t := {|
  toCanonical := ToCanonicalBytes; fromCanonical := FromCanonicalBytes |}.
#[global] Instance laws : CanonicalLaws t.
Proof.
  message_laws (fun p => lenOk (Filter p) /\ is_u 64 (FrameNumber p)
    /\ embedsOpt (PublicKeySignatureBls48581 p)) ToCanonicalBytes FromCanonicalBytes.
Defined.
End ProverPause.

Module ProverResume.
Record t := mk {
  Filter : bytes;
  FrameNumber : Z;
  PublicKeySignatureBls48581 : option BLS48581AddressedSignature.t
}.

Definition ToCanonicalBytes (p : t) : result bytes :=
  sig ← writeOpt toCanonical (PublicKeySignatureBls48581 p);
  Ok (writeU32 ProverResumeType ++ writeBytes (Filter p) ++ writeU64 (FrameNumber p) ++ sig).

Definition FromCanonicalBytes : bytes -> result t := runReader (
  expectType ProverResumeType ;;
  filter ← readBytes;
  frameNumber ← readU64;
  sig ← readOpt fromCanonical;
  mret (mk filter frameNumber sig)).

Definition Validate (p : option t) : result unit :=
  match p with
  | None => Err "nil announce prover resume"
  | Some p =>
    if negb (lenIs 32 (Filter p)) then Err "invalid filter"
    else BLS48581AddressedSignature.Validate (PublicKeySignatureBls48581 p)
  end.

#[global] Instance canonical : Canonical t := {|
  toCanonical := ToCanonicalBytes; fromCanonical := FromCanonicalBytes |}.
#[global] Instance laws : CanonicalLaws t.
Proof.
  message_laws (fun p => lenOk (Filter p) /\ is_u 64 (FrameNumber p)
    /\ embedsOpt (PublicKeySignatureBls48581 p)) ToCanonicalBytes FromCanonicalBytes.
Defined.
End ProverResume.

Module ProverConfirm.
Record t := mk {
  Filter : bytes;
  FrameNumber : Z;
  PublicKeySignatureBls48581 : option BLS48581AddressedSignature.t
}.

Definition ToCanonicalBytes (p : t) : result bytes :=
  sig ← writeOpt toCanonical (PublicKeySignatureBls48581 p);
  Ok (writeU32 ProverConfirmType ++ writeBytes (Filter p) ++ writeU64 (FrameNumber p) ++ sig).

Definition FromCanonicalBytes : bytes -> result t := runReader (
  expectType ProverConfirmType ;;
  filter ← readBytes;
  frameNumber ← readU64;
  sig ← readOpt fromCanonical;
  mret (mk filter frameNumber sig)).

Definition Validate (p : option t) : result unit :=
  match p with
  | None => Err "nil prover confirm"
  | Some p =>
    if negb (filter32or64 (Filter p)) then Err "invalid filter"
    else BLS48581AddressedSignature.Validate (PublicKeySignatureBls48581 p)
  end.

#[global] Instance canonical : Canonical t := {|
  toCanonical := ToCanonicalBytes; fromCanonical := FromCanonicalBytes |}.
#[global] Instance laws : CanonicalLaws t.
Proof.
  message_laws (fun p => lenOk (Filter p) /\ is_u 64 (FrameNumber p)
    /\ embedsOpt (PublicKeySignatureBls48581 p)) ToCanonicalBytes FromCanonicalBytes.
Defined.
End ProverConfirm.

Module ProverReject.
Record t := mk {
  Filter : bytes;
  FrameNumber : Z;
  PublicKeySignatureBls48581 : option BLS48581AddressedSignature.t
}.

Definition ToCanonicalBytes (p : t) : result bytes :=
  sig ← writeOpt toCanonical (PublicKeySignatureBls48581 p);
  Ok (writeU32 ProverRejectType ++ writeBytes (Filter p) ++ writeU64 (FrameNumber p) ++ sig).

Definition FromCanonicalBytes : bytes -> result t := runReader (
  expectType ProverRejectType ;;
  filter ← readBytes;
  frameNumber ← readU64;
  sig ← readOpt fromCanonical;
  mret (mk filter frameNumber sig)).

Definition Validate (p : option t) : result unit :=
  match p with
  | None => Err "nil prover reject"
  | Some p =>
    if negb (filter32or64 (Filter p)) then Err "invalid filter"
    else BLS48581AddressedSignature.Validate (PublicKeySignatureBls48581 p)
  end.

#[global] Instance canonical : Canonical t := {|
  toCanonical := ToCanonicalBytes; fromCanonical := FromCanonicalBytes |}.
#[global] Instance laws : CanonicalLaws t.
Proof.
  message_laws (fun p => lenOk (Filter p) /\ is_u 64 (FrameNumber p)
    /\ embedsOpt (PublicKeySignatureBls48581 p)) ToCanonicalBytes FromCanonicalBytes.
Defined.
End ProverReject.

Module ProverUpdate.
Record t := mk {
  DelegateAddress : bytes;
  PublicKeySignatureBls48581 : option BLS48581AddressedSignature.t
}.

Definition ToCanonicalBytes (p : t) : result bytes :=
  sig ← writeOpt toCanonical (PublicKeySignatureBls48581 p);
  Ok (writeU32 ProverUpdateType ++ writeBytes (DelegateAddress p) ++ sig).

Definition FromCanonicalBytes : bytes -> result t := runReader (
  expectType ProverUpdateType ;;
  address ← readBytes;
  sig ← readOpt fromCanonical;
  mret (mk address sig)).

Definition Validate (p : option t) : result unit :=
  match p with
  | None => Err "nil prover update"
  | Some p =>
    if lenIs 0 (DelegateAddress p) then Err "delegate address is empty"
    else match PublicKeySignatureBls48581 p with
         | None => Err "public key signature is nil"
         | Some sig => BLS48581AddressedSignature.Validate (Some sig)
         end
  end.

#[global] Instance canonical : Canonical t := {|
  toCanonical := ToCanonicalBytes; fromCanonical := FromCanonicalBytes |}.
#[global] Instance laws : CanonicalLaws t.
Proof.
  message_laws (fun p => lenOk (DelegateAddress p) /\ embedsOpt (PublicKeySignatureBls48581 p))
    ToCanonicalBytes FromCanonicalBytes.
Defined.
End ProverUpdate.

(** ** Traversal proofs on the wire *)

Module Multiproof.
Record t := mk { Multicommitment : bytes; Proof_ : bytes }.

Definition ToCanonicalBytes (m : t) : result bytes :=
  Ok (writeU32 MultiproofType ++ writeBytes (Multicommitment m) ++ writeBytes (Proof_ m)).

Definition FromCanonicalBytes : bytes -> result t := runReader (
  expectType MultiproofType ;;
  commit ← readBytes;
  proof ← readBytes;
  mret (mk commit proof)).

Definition Validate (m : option t) : result unit :=
  match m with
  | None => Err "nil multiproof"
  | Some m =>
    if lenIs 0 (Multicommitment m) then Err "multicommitment is empty"
    else if lenIs 0 (Proof_ m) then Err "proof is empty"
    else Ok tt
  end.

#[global] Instance canonical : Canonical t := {|
  toCanonical := ToCanonicalBytes; fromCanonical := FromCanonicalBytes |}.
#[global] Instance laws : CanonicalLaws t.
Proof.
  message_laws (fun m => lenOk (Multicommitment m) /\ lenOk (Proof_ m))
    ToCanonicalBytes FromCanonicalBytes.
Defined.
End Multiproof.

Module Path.
Record t := mk { Indices : list Z }.

Definition ToCanonicalBytes (p : t) : result bytes :=
  Ok (writeU32 PathType ++ writeSeq writeU64 (Indices p)).

Definition FromCanonicalBytes : bytes -> result t := runReader (
  expectType PathType ;;
  indices ← readSeq readU64;
  mret (mk indices)).

Definition Validate (p : option t) : result unit :=
  match p with
  | None => Err "nil path"
  | Some _ => Ok tt
  end.

#[global] Instance canonical : Canonical t := {|
  toCanonical := ToCanonicalBytes; fromCanonical := FromCanonicalBytes |}.
#[global] Instance laws : CanonicalLaws t.
Proof.
  message_laws (fun p => lenOk (Indices p) /\ Forall (is_u 64) (Indices p))
    ToCanonicalBytes FromCanonicalBytes.
Defined.
End Path.

Module TraversalSubProof.
Record t := mk { Commits : list bytes; Ys : list bytes; Paths : list Path.t }.

Definition ToCanonicalBytes (s : t) : result bytes :=
  paths ← writeMsgs toCanonical (Paths s);
  Ok (writeU32 TraversalSubProofType ++ writeSeq writeBytes (Commits s)
      ++ writeSeq writeBytes (Ys s) ++ paths).

Definition FromCanonicalBytes : bytes -> result t := runReader (
  expectType TraversalSubProofType ;;
  commits ← readSeq readBytes;
  ys ← readSeq readBytes;
  paths ← readSeq (readMsg fromCanonical);
  mret (mk commits ys paths)).

Definition Validate (s : option t) : result unit :=
  match s with
  | None => Err "nil traversal sub proof"
  | Some s =>
    if Z.of_nat (length (Commits s)) =? 0 then Err "no commits in sub proof"
    else if Z.of_nat (length (Ys s)) =? 0 then Err "no ys in sub proof"
    else if Z.of_nat (length (Paths s)) =? 0 then Err "no paths in sub proof"
    else if negb (Z.of_nat (length (Commits s)) =? Z.of_nat (length (Ys s)))
            || negb (Z.of_nat (length (Commits s)) =? Z.of_nat (length (Paths s)))
    then Err "mismatched array lengths in sub proof"
    else validateEach (fun p => Path.Validate (Some p)) (Paths s)
  end.

#[global] Instance canonical : Canonical t := {|
  toCanonical := ToCanonicalBytes; fromCanonical := FromCanonicalBytes |}.
#[global] Instance laws : CanonicalLaws t.
Proof.
  message_laws (fun s => lenOk (Commits s) /\ Forall lenOk (Commits s) /\ lenOk (Ys s)
    /\ Forall lenOk (Ys s) /\ lenOk (Paths s) /\ Forall embeds (Paths s))
    ToCanonicalBytes FromCanonicalBytes.
Defined.
End TraversalSubProof.

Module TraversalProof.
Record t := mk { Multiproof : option Multiproof.t; SubProofs : list TraversalSubProof.t }.

Definition ToCanonicalBytes (p : t) : result bytes :=
  mp ← writeOpt toCanonical (Multiproof p);
  subs ← writeMsgs toCanonical (SubProofs p);
  Ok (writeU32 TraversalProofType ++ mp ++ subs).

Definition FromCanonicalBytes : bytes -> result t := runReader (
  expectType TraversalProofType ;;
  mp ← readOpt fromCanonical;
  subs ← readSeq (readMsg fromCanonical);
  mret (mk mp subs)).

Definition Validate (p : option t) : result unit :=
  match p with
  | None => Err "nil traversal proof"
  | Some p =>
    match Multiproof p with
    | None => Err "nil multiproof"
    | Some m =>
      Multiproof.Validate (Some m) ;;
      if Z.of_nat (length (SubProofs p)) =? 0 then Err "no sub proofs"
      else validateEach (fun s => TraversalSubProof.Validate (Some s)) (SubProofs p)
    end
  end.

#[global] Instance canonical : Canonical t := {|
  toCanonical := ToCanonicalBytes; fromCanonical := FromCanonicalBytes |}.
#[global] Instance laws : CanonicalLaws t.
Proof.
  message_laws (fun p => embedsOpt (Multiproof p) /\ lenOk (SubProofs p)
    /\ Forall embeds (SubProofs p)) ToCanonicalBytes FromCanonicalBytes.
Defined.
End TraversalProof.

Module ProverKick.
Record t := mk {
  FrameNumber : Z;
  KickedProverPublicKey : bytes;
  ConflictingFrame_1 : bytes;
  ConflictingFrame_2 : bytes;
  Commitment : bytes;
  Proof_ : bytes;
  TraversalProof : option TraversalProof.t
}.

Definition ToCanonicalBytes (p : t) : result bytes :=
  traversal ← writeOpt toCanonical (TraversalProof p);
  Ok (writeU32 ProverKickType ++ writeU64 (FrameNumber p) ++ writeBytes (KickedProverPublicKey p)
      ++ writeBytes (ConflictingFrame_1 p) ++ writeBytes (ConflictingFrame_2 p)
      ++ writeBytes (Commitment p) ++ writeBytes (Proof_ p) ++ traversal).

Definition FromCanonicalBytes : bytes -> result t := runReader (
  expectType ProverKickType ;;
  frameNumber ← readU64;
  key ← readBytes;
  frame1 ← readBytes;
  frame2 ← readBytes;
  commitment ← readBytes;
  proof ← readBytes;
  traversal ← readOpt fromCanonical;
  mret (mk frameNumber key frame1 frame2 commitment proof traversal)).

Definition Validate (p : option t) : result unit :=
  match p with
  | None => Err "nil prover kick"
  | Some p =>
    if lenIs 0 (KickedProverPublicKey p) then Err "kicked prover public key is empty"
    else if lenIs 0 (ConflictingFrame_1 p) then Err "conflicting frame 1 is empty"
    else if lenIs 0 (ConflictingFrame_2 p) then Err "conflicting frame 2 is empty"
    else if lenIs 0 (Commitment p) then Err "commitment is empty"
    else if lenIs 0 (Proof_ p) then Err "proof is empty"
    else match TraversalProof p with
         | None => Ok tt
         | Some tp => TraversalProof.Validate (Some tp)
         end
  end.

#[global] Instance canonical : Canonical t := {|
  toCanonical := ToCanonicalBytes; fromCanonical := FromCanonicalBytes |}.
#[global] Instance laws : CanonicalLaws t.
Proof.
  message_laws (fun p => is_u 64 (FrameNumber p) /\ lenOk (KickedProverPublicKey p)
    /\ lenOk (ConflictingFrame_1 p) /\ lenOk (ConflictingFrame_2 p) /\ lenOk (Commitment p)
    /\ lenOk (Proof_ p) /\ embedsOpt (TraversalProof p)) ToCanonicalBytes FromCanonicalBytes.
Defined.
End ProverKick.
