(* ===== verification/LegacyRequest.v ===== *)
(** * Legacy prover requests (protobufs/global.go)

    Signing and validation of a request that several Ed448 keys sign together: the
    first key signs the other keys, and each of these signs the first. *)

From S2P Require Import Prelude Wire CanonicalTypes Keys KeyRegistry Global.

(** A key and its signing function, which may fail. *)
Record ED448SignHelper := mkHelper { HelperKey : bytes; Sign : bytes -> result bytes }.

Definition newED448Signature (publicKey signature : bytes) : Ed448Signature.t :=
  Ed448Signature.mk signature (Some (Ed448PublicKey.mk publicKey)).

(** The loop over the other keys: their signatures and the payload. *)
Fixpoint signOthers (primary : bytes) (payload : bytes) (helpers : list ED448SignHelper)
    : result (list Ed448Signature.t * bytes) :=
  match helpers with
  | [] => Ok ([], payload)
  | k :: helpers =>
    signature ← Sign k primary;
    r ← signOthers primary (payload ++ HelperKey k) helpers;
    Ok (newED448Signature (HelperKey k) signature :: r.1, r.2)
  end.

Definition SignED448 (helpers : list ED448SignHelper) : result LegacyProverRequest.t :=
  match helpers with
  | [] => Err "no keys"
  | primary :: others =>
    r ← signOthers (HelperKey primary) [] others;
    signature ← Sign primary r.2;
    Ok (LegacyProverRequest.mk (newED448Signature (HelperKey primary) signature :: r.1))
  end.

Section Validation.
Context `{KeySchemes}.

(** The loop over the signatures after the first; returns the payload. *)
Fixpoint verifyOthers (primaryKey : bytes) (payload : bytes) (sigs : list Ed448Signature.t)
    : result bytes :=
  match sigs with
  | [] => Ok payload
  | p :: sigs =>
    match Ed448Signature.PublicKey p with
    | None => Panic
    | Some k =>
      Ed448Signature_verifyUnsafe p primaryKey [] ;;
      verifyOthers primaryKey (payload ++ Ed448PublicKey.KeyValue k) sigs
    end
  end.

(** A nil key of the first signature is dereferenced in any case. *)
Definition ValidateSignature (t : LegacyProverRequest.t) : result unit :=
  match LegacyProverRequest.PublicKeySignaturesEd448 t with
  | [] => Panic
  | primary :: others =>
    match Ed448Signature.PublicKey primary with
    | None => Panic
    | Some k =>
      payload ← verifyOthers (Ed448PublicKey.KeyValue k) [] others;
      Ed448Signature_verifyUnsafe primary payload []
    end
  end.

Definition LegacyProverRequest_Validate (t : option LegacyProverRequest.t) : result unit :=
  match t with
  | None => Err "nil announce prover request"
  | Some t =>
    if Z.of_nat (length (LegacyProverRequest.PublicKeySignaturesEd448 t)) =? 0
    then Err "invalid public key signatures"
    else
      validateEach (fun p => Ed448Signature.Validate (Some p))
        (LegacyProverRequest.PublicKeySignaturesEd448 t) ;;
      ValidateSignature t
  end.

(** ** What validation means *)

(** A signature of the right sizes, by [key], of [msg]. *)
Definition signs (s : Ed448Signature.t) (key msg : bytes) : Prop :=
  Ed448Signature.PublicKey s = Some (Ed448PublicKey.mk key) /\ length key = 57%nat
  /\ length (Ed448Signature.Signature s) = 114%nat
  /\ ed448Verify key msg (Ed448Signature.Signature s) [] = true.

Lemma Ed448_Validate_iff s :
  Ed448Signature.Validate (Some s) = Ok tt <->
  exists key, Ed448Signature.PublicKey s = Some (Ed448PublicKey.mk key) /\ length key = 57%nat
    /\ length (Ed448Signature.Signature s) = 114%nat.
Proof.
  destruct s as [sig [[key]|]]; cbn; [|naive_solver].
  rewrite seq_iff. destruct (Z.eqb_spec (Z.of_nat (length key)) 57) as [E1|E1];
    destruct (lenIs 114 sig) eqn:E2; cbn;
    (apply lenIs_iff in E2 || (apply not_true_iff_false in E2; rewrite lenIs_iff in E2)).
  1: split; [intros _; exists key; split_and!; [done|lia|lia]|done].
  all: split; [by intros [? ?]|intros (? & [= <-] & ? & ?); lia].
Qed.

Lemma verifyUnsafe_iff s key msg :
  Ed448Signature.PublicKey s = Some (Ed448PublicKey.mk key) ->
  Ed448Signature_verifyUnsafe s msg [] = Ok tt
  <-> ed448Verify key msg (Ed448Signature.Signature s) [] = true.
Proof.
  intros E. unfold Ed448Signature_verifyUnsafe. rewrite E. cbn [Ed448PublicKey.KeyValue].
  destruct (ed448Verify _ _ _ _); cbn; naive_solver.
Qed.

Lemma verifyOthers_iff primary sigs payload out :
  Forall (fun p => Ed448Signature.Validate (Some p) = Ok tt) sigs ->
  verifyOthers primary payload sigs = Ok out <->
  exists keys, Forall2 (fun s k => signs s k primary) sigs keys /\ out = payload ++ concat keys.
Proof.
  intros Hv. revert payload. induction Hv as [|s sigs Hs _ IH]; intros payload; cbn [verifyOthers].
  { split; [intros E; apply (inj Ok) in E as <-; exists []; by rewrite app_nil_r|].
    intros (keys & Hk & ->). apply Forall2_nil_inv_l in Hk as ->. by rewrite app_nil_r. }
  apply Ed448_Validate_iff in Hs as (key & Ek & H57 & H114). rewrite Ek.
  cbn [Ed448PublicKey.KeyValue]. split.
  - intros E. apply result_bind_Ok in E as ([] & E1 & E2).
    apply (verifyUnsafe_iff s key primary Ek) in E1. apply IH in E2 as (keys & Hk & ->).
    exists (key :: keys). split; [constructor; [done|done]|]. cbn. by rewrite app_assoc.
  - intros (keys & Hk & ->). apply Forall2_cons_inv_l in Hk as (k & keys' & Hk & Hr & ->).
    destruct Hk as (Ek' & _ & _ & Hver). rewrite Ek in Ek'. injection Ek' as <-.
    apply (verifyUnsafe_iff s key primary Ek) in Hver. rewrite Hver. cbn [mbind result_bind].
    apply IH. exists keys'. split; [done|]. cbn. by rewrite app_assoc.
Qed.
End Validation.

Lemma request_Validate_eq `{KeySchemes} primary others :
  LegacyProverRequest_Validate (Some (LegacyProverRequest.mk (primary :: others))) =
  (validateEach (fun p => Ed448Signature.Validate (Some p)) (primary :: others) ;;
   ValidateSignature (LegacyProverRequest.mk (primary :: others))).
Proof. done. Qed.

Lemma request_valid_parts `{KeySchemes} primary others pk keys :
  Forall2 (fun s k => signs s k pk) others keys -> signs primary pk (concat keys) ->
  LegacyProverRequest_Validate (Some (LegacyProverRequest.mk (primary :: others))) = Ok tt.
Proof.
  intros Hk (Ek & H57 & H114 & Hver).
  assert (Forall (fun p => Ed448Signature.Validate (Some p) = Ok tt) others) as Ho.
  { eapply Forall2_Forall_l; [exact Hk|]. apply Forall_true. intros k s (E & L1 & L2 & _).
    apply Ed448_Validate_iff. by exists k. }
  rewrite request_Validate_eq. apply seq_iff. split.
  - apply validateEach_Forall. constructor; [|done]. apply Ed448_Validate_iff. by exists pk.
  - unfold ValidateSignature. cbn. rewrite Ek. cbn.
    rewrite (proj2 (verifyOthers_iff pk others [] (concat keys) Ho)) by (by exists keys).
    cbn [mbind result_bind]. by apply (verifyUnsafe_iff primary pk _ Ek).
Qed.

(** ** Properties *)

(** Validation of a legacy prover request accepts exactly the requests with a
    first signature and any number of others, all of the right sizes, in which each
    of the others signs the first key and the first signs the concatenation of the
    other keys in their order. *)
Theorem legacy_validate_iff `{KeySchemes} (t : LegacyProverRequest.t) :
  LegacyProverRequest_Validate (Some t) = Ok tt <->
  exists primary others pk keys,
    LegacyProverRequest.PublicKeySignaturesEd448 t = primary :: others
    /\ Forall2 (fun s k => signs s k pk) others keys /\ signs primary pk (concat keys).
Proof.
  destruct t as [[|primary others]]; [split; [done|naive_solver]|].
  rewrite request_Validate_eq. cbn [LegacyProverRequest.PublicKeySignaturesEd448].
  split.
  - rewrite seq_iff. intros [Hv Hs]. apply validateEach_Forall in Hv. apply Forall_cons in Hv as [Hp Ho].
    apply Ed448_Validate_iff in Hp as (pk & Ek & H57 & H114).
    unfold ValidateSignature in Hs. cbn in Hs. rewrite Ek in Hs.
    apply result_bind_Ok in Hs as (payload & Ep & Hs). cbn in Ep.
    apply verifyOthers_iff in Ep as (keys & Hk & ->); [|done]. rewrite app_nil_l in Hs.
    apply (verifyUnsafe_iff primary pk _ Ek) in Hs. by exists primary, others, pk, keys.
  - intros (p' & o' & pk & keys & [= -> ->] & Hk & Hp). by eapply (request_valid_parts p' o').
Qed.

(** A key whose signing function returns signatures the scheme accepts. *)
Definition honest `{KeySchemes} (h : ED448SignHelper) : Prop :=
  length (HelperKey h) = 57%nat /\ forall msg, exists sig, Sign h msg = Ok sig
    /\ length sig = 114%nat /\ ed448Verify (HelperKey h) msg sig [] = true.

Lemma signOthers_honest `{KeySchemes} primary helpers payload :
  Forall honest helpers ->
  exists sigs, signOthers primary payload helpers = Ok (sigs, payload ++ concat (HelperKey <$> helpers))
    /\ Forall2 (fun s k => signs s k primary) sigs (HelperKey <$> helpers).
Proof.
  intros Hh. revert payload. induction Hh as [|h helpers [H57 Hs] _ IH]; intros payload.
  { exists []. cbn. rewrite app_nil_r. by split; [|constructor]. }
  destruct (Hs primary) as (sig & E & Hl & Hv). destruct (IH (payload ++ HelperKey h)) as (sigs & Er & Hr).
  exists (newED448Signature (HelperKey h) sig :: sigs). cbn [signOthers]. rewrite E. cbn [mbind result_bind].
  rewrite Er. cbn. rewrite <- app_assoc. split; [done|]. by constructor.
Qed.

(** A request signed with one or more keys whose signatures the scheme accepts
    passes validation. *)
Theorem legacy_sign_validates `{KeySchemes} (helpers : list ED448SignHelper) :
  helpers <> [] -> Forall honest helpers ->
  exists t, SignED448 helpers = Ok t /\ LegacyProverRequest_Validate (Some t) = Ok tt.
Proof.
  intros Hne Hh. destruct Hh as [|p others [H57 Hs] Ho]; [done|]. clear Hne.
  destruct (signOthers_honest (HelperKey p) others [] Ho) as (sigs & E & Hk).
  destruct (Hs (concat (HelperKey <$> others))) as (sig & Es & Hl & Hv).
  exists (LegacyProverRequest.mk (newED448Signature (HelperKey p) sig :: sigs)). split.
  - cbn [SignED448]. rewrite E. cbn [mbind result_bind fst snd]. rewrite app_nil_l, Es. done.
  - by eapply request_valid_parts.
Qed.

(** ** Witness *)

(** A toy scheme whose signature is the key and the message, cut to length. *)
Definition demoTag (key msg : bytes) : bytes := take 114 (key ++ msg ++ replicate 114 Byte.x00).

#[local] Instance demoSchemes : KeySchemes := {|
  ed448Verify := fun key msg sig _ => bool_decide (sig = demoTag key msg);
  VerifySignatureRaw := fun _ _ _ _ => false;
  SimpleVerify := fun _ _ _ => false;
  poseidonHash := fun _ => Ok 0
|}.

Definition demoHelper (b : Byte.byte) : ED448SignHelper :=
  mkHelper (replicate 57 b) (fun msg => Ok (demoTag (replicate 57 b) msg)).

Lemma demoHelper_honest b : honest (demoHelper b).
Proof.
  split; [done|]. intros msg. eexists. split; [done|]. split.
  - unfold demoTag. rewrite length_take, !length_app, !length_replicate. lia.
  - by apply bool_decide_eq_true.
Qed.

Lemma legacy_sign_validates_witness :
  exists t, SignED448 [demoHelper Byte.x01; demoHelper Byte.x02; demoHelper Byte.x03] = Ok t
    /\ LegacyProverRequest_Validate (Some t) = Ok tt.
Proof.
  apply legacy_sign_validates; [discriminate|].
  repeat constructor; apply demoHelper_honest.
Defined.
