(* ===== verification/TraversalWire.v ===== *)
(** * Traversal proofs on the wire

    The byte encodings of a traversal proof (types/tries/lazy_proof_tree.go) and of
    a BLS multiproof (bls48581/bls48581.go), and the two conversions between
    traversal proofs and their protobuf messages: that of token transactions
    (node/execution/intrinsics/token/token_conversions.go) and that of prover kicks
    (node/execution/intrinsics/global/global_conversions.go). *)

From S2P Require Import Prelude Nibbles ProofTree ProofTreeWf ProofTreeOps ProofTreeMap.
From S2P Require Import ProofTreeMeta ProofTreeCommit ProofTreeCanon ProofTreeProve ProofTreeProveSpec.
From S2P Require Import Wire CanonicalTypes Keys Global.

(** ** Byte encodings *)

Definition Multiproof_ToBytes (m : Multiproof) : bytes :=
  writeBytes (Multicommitment m) ++ writeBytes (MultiProofBytes m).

Definition Multiproof_FromBytes : bytes -> result Multiproof := runReader (
  d ← readBytes;
  proof ← readBytes;
  mret (mkMultiproof d proof)).

Definition writePath (p : list Z) : bytes := writeSeq writeU64 p.

Definition writeSubProof (s : TraversalSubProof) : bytes :=
  writeSeq writeBytes (Commits s) ++ writeSeq writeBytes (Ys s) ++ writeSeq writePath (Paths s).

Definition TraversalProof_ToBytes (t : TraversalProof) : bytes :=
  writeBytes (Multiproof_ToBytes (TMultiproof t)) ++ writeSeq writeSubProof (SubProofs t).

Definition readSubProof : reader TraversalSubProof :=
  commits ← readSeq readBytes;
  ys ← readSeq readBytes;
  paths ← readSeq (readSeq readU64);
  mret (mkSubProof commits ys paths).

(** The check after the fields are read. *)
Definition checkSubProofs (subs : list TraversalSubProof) : result unit :=
  if Z.of_nat (length subs) =? 0 then Err "no subproofs found"
  else if negb (existsb (fun s => 0 <? Z.of_nat (length (Ys s))) subs)
  then Err "invalid payload: no ys data in any subproof"
  else Ok tt.

Definition TraversalProof_FromBytes : bytes -> result TraversalProof := runReader (
  multiproofBytes ← readBytes;
  mp ← lift (Multiproof_FromBytes multiproofBytes);
  subs ← readSeq readSubProof;
  lift (checkSubProofs subs) ;;
  mret (mkTraversalProof mp subs)).

(** ** Protobuf conversions *)

(** A traversal proof whose Multiproof interface may be nil. *)
Record looseProof := mkLoose {
  LMultiproof : option Multiproof;
  LSubProofs : list TraversalSubProof
}.

(** Verification reads the multiproof first, so a nil one panics. *)
Definition VerifyLoose `{InclusionProver} (rootCommit : bytes) (p : looseProof) : result bool :=
  match LMultiproof p with
  | None => Panic
  | Some mp => VerifyTreeTraversalProof rootCommit (mkTraversalProof mp (LSubProofs p))
  end.

Definition SubProofToProtobuf (s : TraversalSubProof) : TraversalSubProof.t :=
  TraversalSubProof.mk (Commits s) (Ys s) (Path.mk <$> Paths s).

Definition SubProofFromProtobuf (s : TraversalSubProof.t) : TraversalSubProof :=
  mkSubProof (TraversalSubProof.Commits s) (TraversalSubProof.Ys s)
    (Path.Indices <$> TraversalSubProof.Paths s).

(** [multiproofBytes] is never empty: it holds two length prefixes. *)
Definition TraversalProofToProtobuf (tp : looseProof) : TraversalProof.t :=
  TraversalProof.mk
    (m ← LMultiproof tp;
     let multiproofBytes := Multiproof_ToBytes m in
     let n := Nat.min 74 (length multiproofBytes) in
     if (0 <? length multiproofBytes)%nat
     then Some (Multiproof.mk (take n multiproofBytes) (drop n multiproofBytes))
     else None)
    (SubProofToProtobuf <$> LSubProofs tp).

(** [haveProver] says that an inclusion prover was passed. *)
Definition multiproofFromProtobuf (haveProver : bool) (m : option Multiproof.t)
    : result (option Multiproof) :=
  match m with
  | Some m =>
    if haveProver
    then mp ← Multiproof_FromBytes (Multiproof.Multicommitment m ++ Multiproof.Proof_ m); Ok (Some mp)
    else Ok None
  | None => Ok None
  end.

Definition TraversalProofFromProtobuf (haveProver : bool) (pb : option TraversalProof.t)
    : result (option looseProof) :=
  match pb with
  | None => Ok None
  | Some pb =>
    mp ← multiproofFromProtobuf haveProver (TraversalProof.Multiproof pb);
    Ok (Some (mkLoose mp (SubProofFromProtobuf <$> TraversalProof.SubProofs pb)))
  end.

(** ** Prover kicks *)

(** The exported fields of the intrinsic's ProverKick. *)
Record KickRequest := mkKick {
  FrameNumber : Z;
  KickedProverPublicKey : bytes;
  ConflictingFrame1 : bytes;
  ConflictingFrame2 : bytes;
  Commitment : bytes;
  KickProof : bytes;
  KickTraversalProof : option looseProof
}.

(** The multiproof's two parts are copied as they are, without their lengths. *)
Definition KickProofToProtobuf (tp : looseProof) : TraversalProof.t :=
  TraversalProof.mk
    (m ← LMultiproof tp; Some (Multiproof.mk (Multicommitment m) (MultiProofBytes m)))
    (SubProofToProtobuf <$> LSubProofs tp).

Definition ProverKick_ToProtobuf (p : KickRequest) : ProverKick.t :=
  ProverKick.mk (FrameNumber p) (KickedProverPublicKey p) (ConflictingFrame1 p)
    (ConflictingFrame2 p) (Commitment p) (KickProof p) (KickProofToProtobuf <$> KickTraversalProof p).

Definition ProverKickFromProtobuf (haveProver : bool) (pb : option ProverKick.t)
    : result (option KickRequest) :=
  match pb with
  | None => Ok None
  | Some pb =>
    tp ← TraversalProofFromProtobuf haveProver (ProverKick.TraversalProof pb);
    Ok (Some (mkKick (ProverKick.FrameNumber pb) (ProverKick.KickedProverPublicKey pb)
                (ProverKick.ConflictingFrame_1 pb) (ProverKick.ConflictingFrame_2 pb)
                (ProverKick.Commitment pb) (ProverKick.Proof_ pb) tp))
  end.

(** ** Round trips *)

Definition fitsMultiproof (m : Multiproof) : Prop :=
  lenOk (Multicommitment m) /\ lenOk (MultiProofBytes m).

Definition fitsSubProof (s : TraversalSubProof) : Prop :=
  lenOk (Commits s) /\ Forall lenOk (Commits s) /\ lenOk (Ys s) /\ Forall lenOk (Ys s)
  /\ lenOk (Paths s) /\ Forall (fun p => lenOk p /\ Forall (is_u 64) p) (Paths s).

Lemma Multiproof_FromBytes_ToBytes m rest :
  fitsMultiproof m -> Multiproof_FromBytes (Multiproof_ToBytes m ++ rest) = Ok m.
Proof.
  destruct m as [d p]. intros [Hd Hp]. apply runReader_parses.
  unfold Multiproof_ToBytes. cbn [Multicommitment MultiProofBytes] in *. solve_parses.
Qed.

Lemma parses_subProof s : fitsSubProof s -> parses readSubProof (writeSubProof s) s.
Proof.
  destruct s as [cs ys ps]. intros (H1 & H2 & H3 & H4 & H5 & H6). cbn in *.
  unfold readSubProof, writeSubProof. cbn [Commits Ys Paths].
  do 2 (eapply parses_bind; [solve [eauto with wire]|]).
  eapply parses_last, parses_seq; [done|].
  eapply Forall_impl; [exact H6|]. intros p [Hl Hu]. by apply parses_u64_seq.
Qed.

Lemma SubProof_protobuf_inverse s : SubProofFromProtobuf (SubProofToProtobuf s) = s.
Proof.
  destruct s as [cs ys ps]. unfold SubProofFromProtobuf, SubProofToProtobuf. cbn. f_equal.
  rewrite <- list_fmap_compose. rewrite (list_fmap_ext _ id); [apply list_fmap_id|done].
Qed.

Lemma SubProofs_protobuf_inverse (ss : list TraversalSubProof) :
  SubProofFromProtobuf <$> (SubProofToProtobuf <$> ss) = ss.
Proof.
  rewrite <- list_fmap_compose. rewrite (list_fmap_ext _ id); [apply list_fmap_id|].
  intros i s _. apply SubProof_protobuf_inverse.
Qed.

(** A sub-proof that passes Validate has a path too many for the verifier. *)
Lemma validated_misshaped s :
  TraversalSubProof.Validate (Some s) = Ok tt -> wellShaped (SubProofFromProtobuf s) = false.
Proof.
  destruct s as [cs ys ps]. unfold wellShaped. cbn. rewrite length_fmap. intros E.
  repeat match type of E with (if ?b then _ else _) = _ => destruct b eqn:?; [done|] end.
  apply negb_false_iff. lia.
Qed.

Lemma validated_rejected `{InclusionProver} pb mp root :
  TraversalProof.Validate (Some pb) = Ok tt ->
  VerifyTreeTraversalProof root
    (mkTraversalProof mp (SubProofFromProtobuf <$> TraversalProof.SubProofs pb)) = Ok false.
Proof.
  intros E. cbn in E. destruct (TraversalProof.Multiproof pb) as [m|]; [|done].
  apply result_bind_Ok in E as (_ & _ & E).
  destruct (TraversalProof.SubProofs pb) as [|s ss]; [done|]. cbn [length] in E.
  apply validateEach_Forall in E as E'. apply Forall_inv, validated_misshaped in E'.
  unfold VerifyTreeTraversalProof. cbn [TMultiproof SubProofs]. rewrite fmap_cons. cbn [forallb].
  rewrite E'. by destruct (_ || _).
Qed.

(** Reading a raw commitment as if a length preceded it runs off the end. *)
Lemma readBytes_off_end (s : bytes) :
  (4 <= length s)%nat -> Z.of_nat (length s) <= be_val (take 4 s) ->
  (exists b, readBytes s = Ok (b, [])) \/ readBytes s = Err errEOF.
Proof.
  intros H4 Hl. unfold readBytes, readU32, readUint, mbind, reader_bind, readFull.
  rewrite decide_True by done. unfold mret, reader_ret, bufRead.
  destruct (decide (drop 4 s = [])) as [E|E].
  - right. rewrite decide_False by lia. done.
  - left. eexists. f_equal. f_equal. apply drop_ge. rewrite length_drop. lia.
Qed.

Lemma Multiproof_FromBytes_raw (s : bytes) :
  (4 <= length s)%nat -> Z.of_nat (length s) <= be_val (take 4 s) ->
  Multiproof_FromBytes s = Err errEOF.
Proof.
  intros H4 Hl. unfold Multiproof_FromBytes, runReader.
  unfold mbind at 1, reader_bind at 1.
  destruct (readBytes_off_end s H4 Hl) as [[b ->]| ->]; done.
Qed.

(** ** Properties *)

(** A traversal proof is read back from its bytes, whatever bytes follow, if
    its lengths fit 32 bits, its indices 64 bits and some sub-proof has a value. *)
Theorem traversal_proof_bytes_roundtrip (t : TraversalProof) (rest : bytes) :
  fitsMultiproof (TMultiproof t) -> lenOk (Multiproof_ToBytes (TMultiproof t)) ->
  lenOk (SubProofs t) -> Forall fitsSubProof (SubProofs t) ->
  checkSubProofs (SubProofs t) = Ok tt ->
  TraversalProof_FromBytes (TraversalProof_ToBytes t ++ rest) = Ok t.
Proof.
  destruct t as [mp subs]. cbn. intros Hm Hl Hs Hf Hc. apply runReader_parses.
  unfold TraversalProof_ToBytes. cbn [TMultiproof SubProofs].
  eapply parses_bind; [by apply parses_bytes|].
  rewrite <- (app_nil_l (writeSeq _ _)). eapply parses_bind.
  { apply parses_lift. rewrite <- (app_nil_r (Multiproof_ToBytes mp)).
    by apply Multiproof_FromBytes_ToBytes. }
  eapply parses_bind_nil.
  { apply parses_seq; [done|]. eapply Forall_impl; [exact Hf|]. apply parses_subProof. }
  eapply parses_bind_nil; [by apply parses_lift|]. apply parses_ret.
Qed.

(** The conversion of token transactions is a round trip: a traversal proof
    comes back from its protobuf message unchanged, although the message splits
    the encoded multiproof at byte 74, in the middle of its first part. *)
Theorem token_traversal_roundtrip (mp : Multiproof) (subs : list TraversalSubProof) :
  fitsMultiproof mp ->
  TraversalProofFromProtobuf true (Some (TraversalProofToProtobuf (mkLoose (Some mp) subs)))
  = Ok (Some (mkLoose (Some mp) subs)).
Proof.
  intros Hm. unfold TraversalProofFromProtobuf, TraversalProofToProtobuf.
  cbn [LMultiproof LSubProofs mbind option_bind TraversalProof.Multiproof TraversalProof.SubProofs].
  assert ((0 <? length (Multiproof_ToBytes mp))%nat = true) as ->.
  { apply Nat.ltb_lt. unfold Multiproof_ToBytes, writeBytes, writeU32.
    rewrite !length_app, !be_length. lia. }
  cbn [multiproofFromProtobuf Multiproof.Multicommitment Multiproof.Proof_]. rewrite take_drop.
  pose proof (Multiproof_FromBytes_ToBytes mp [] Hm) as E. rewrite app_nil_r in E. rewrite E.
  cbn [mbind result_bind]. by rewrite SubProofs_protobuf_inverse.
Qed.

(** The conversion of prover kicks is not: a kick whose multicommitment starts
    with a non-zero byte, as a compressed curve point does, fails to decode from
    the protobuf message made of it, so its traversal proof never reaches the
    verifier. *)
Theorem kick_traversal_lost (k : KickRequest) (mp : Multiproof) (subs : list TraversalSubProof)
    (b : Byte.byte) (d : bytes) :
  KickTraversalProof k = Some (mkLoose (Some mp) subs) ->
  Multicommitment mp = b :: d -> b <> Byte.x00 -> (3 <= length d)%nat ->
  Z.of_nat (length (Multicommitment mp ++ MultiProofBytes mp)) <= 2 ^ 24 ->
  ProverKickFromProtobuf true (Some (ProverKick_ToProtobuf k)) = Err errEOF.
Proof.
  intros Hk Hd Hb H3 Hl. unfold ProverKickFromProtobuf, ProverKick_ToProtobuf.
  cbn [ProverKick.TraversalProof]. rewrite Hk.
  cbn [fmap option_fmap option_map KickProofToProtobuf TraversalProofFromProtobuf LMultiproof
       LSubProofs mbind option_bind TraversalProof.Multiproof multiproofFromProtobuf
       Multiproof.Multicommitment Multiproof.Proof_].
  rewrite Multiproof_FromBytes_raw; [done|..].
  - rewrite Hd, length_app. cbn. lia.
  - etransitivity; [exact Hl|]. rewrite Hd. destruct d as [|b1 [|b2 [|b3 d]]]; cbn in H3; try lia.
    cbn [app take]. rewrite take_0, be_val_cons. cbn [length].
    pose proof (be_val_range [b1; b2; b3]). assert (1 <= byte_Z b) by (by destruct b).
    cbn [length] in *. change (256 ^ Z.of_nat 3) with (2 ^ 24) in *. lia.
Qed.

(** C8: The Validate method of the protobuf message and the verifier exclude each
    other: Validate asks for as many paths as commitments, the verifier for one
    less.  No message that passes Validate converts to a proof that is accepted,
    and no proof that is accepted converts to a message that passes Validate. *)
Theorem validated_traversal_never_verifies `{InclusionProver} (root : bytes) :
  (forall pb p, TraversalProof.Validate (Some pb) = Ok tt ->
     TraversalProofFromProtobuf true (Some pb) = Ok (Some p) -> VerifyLoose root p = Ok false)
  /\ (forall t, VerifyTreeTraversalProof root t = Ok true ->
        TraversalProof.Validate
          (Some (TraversalProofToProtobuf (mkLoose (Some (TMultiproof t)) (SubProofs t)))) <> Ok tt).
Proof.
  split.
  - intros pb p Hv E. cbn [TraversalProofFromProtobuf] in E.
    apply result_map_Ok in E as (mp & E & [= ->]). unfold VerifyLoose. cbn [LMultiproof LSubProofs].
    destruct mp as [mp|]; [by apply validated_rejected|].
    cbn in Hv. destruct (TraversalProof.Multiproof pb) as [m|]; [|done]. cbn in E.
    by apply result_map_Ok in E as (? & _ & ?).
  - intros [mp subs] Ht Hv. eapply (validated_rejected _ mp root) in Hv. cbn in Hv.
    rewrite SubProofs_protobuf_inverse in Hv. congruence.
Qed.

(** ** Witnesses *)

Definition demoMultiproof : Multiproof :=
  mkMultiproof (replicate 74 Byte.x02) (replicate 74 Byte.x03).
Definition demoSub : TraversalSubProof :=
  mkSubProof [replicate 74 Byte.x02; replicate 64 Byte.x01] [[Byte.x05]; [Byte.x06]] [[1; 2]].

Lemma traversal_proof_bytes_roundtrip_witness :
  TraversalProof_FromBytes
    (TraversalProof_ToBytes (mkTraversalProof demoMultiproof [demoSub]) ++ [Byte.x00])
  = Ok (mkTraversalProof demoMultiproof [demoSub]).
Proof.
  apply traversal_proof_bytes_roundtrip.
  - split; by_decide.
  - by_decide.
  - by_decide.
  - repeat constructor; by_decide.
  - reflexivity.
Defined.

Lemma token_traversal_roundtrip_witness :
  TraversalProofFromProtobuf true
    (Some (TraversalProofToProtobuf (mkLoose (Some demoMultiproof) [demoSub])))
  = Ok (Some (mkLoose (Some demoMultiproof) [demoSub])).
Proof. apply token_traversal_roundtrip. split; by_decide. Defined.

Lemma kick_traversal_lost_witness :
  ProverKickFromProtobuf true
    (Some (ProverKick_ToProtobuf
       (mkKick 7 [Byte.x01] [Byte.x02] [Byte.x03] [Byte.x04] [Byte.x05]
          (Some (mkLoose (Some demoMultiproof) [demoSub]))))) = Err errEOF.
Proof.
  apply (kick_traversal_lost _ demoMultiproof [demoSub] Byte.x02 (replicate 73 Byte.x02)).
  - reflexivity.
  - reflexivity.
  - discriminate.
  - by_decide.
  - by_decide.
Defined.

(** As many paths as commitments, as Validate wants. *)
Definition demoLoose : looseProof :=
  mkLoose (Some demoMultiproof) [mkSubProof [replicate 74 Byte.x02] [[Byte.x05]] [[1; 2]]].

Lemma validated_traversal_never_verifies_witness :
  TraversalProof.Validate (Some (TraversalProofToProtobuf demoLoose)) = Ok tt
  /\ @VerifyLoose demoCrypto demoProver [] demoLoose = Ok false.
Proof.
  split; [vm_compute; reflexivity|].
  apply (proj1 (@validated_traversal_never_verifies demoCrypto demoProver [])
           (TraversalProofToProtobuf demoLoose)); vm_compute; reflexivity.
Defined.
