(* ===== verification/Frames.v ===== *)
(** * Frame headers, votes and alerts (protobufs/global.go)

    Codecs and Validate methods of the consensus messages that do not carry
    requests. *)

From S2P Require Import Prelude Wire CanonicalTypes Keys Global.

Module GlobalFrameHeader.
Record t := mk {
  FrameNumber : Z;
  Timestamp : Z;
  Difficulty : Z;
  Output : bytes;
  ParentSelector : bytes;
  GlobalCommitments : list bytes;
  ProverTreeCommitment : bytes;
  PublicKeySignatureBls48581 : option BLS48581AggregateSignature.t
}.

Definition ToCanonicalBytes (g : t) : result bytes :=
  sig ← writeOpt toCanonical (PublicKeySignatureBls48581 g);
  Ok (writeU32 GlobalFrameHeaderType ++ writeU64 (FrameNumber g) ++ writeU64 (Timestamp g)
      ++ writeU32 (Difficulty g) ++ writeBytes (Output g) ++ writeBytes (ParentSelector g)
      ++ writeSeq writeBytes (GlobalCommitments g) ++ writeBytes (ProverTreeCommitment g) ++ sig).

Definition FromCanonicalBytes : bytes -> result t := runReader (
  expectType GlobalFrameHeaderType ;;
  frameNumber ← readU64;
  timestamp ← readI64;
  difficulty ← readU32;
  output ← readBytes;
  parent ← readBytes;
  commitments ← readSeq readBytes;
  proverTree ← readBytes;
  sig ← readOpt fromCanonical;
  mret (mk frameNumber timestamp difficulty output parent commitments proverTree sig)).

Definition Validate (h : option t) : result unit :=
  match h with
  | None => Err "nil global frame header"
  | Some h =>
    if Timestamp h =? 0 then Err "invalid timestamp"
    else if Difficulty h =? 0 then Err "invalid difficulty"
    else if negb (lenIs 516 (Output h)) then Err "invalid output length"
    else if negb (lenIs 32 (ParentSelector h)) then Err "invalid parent selector length"
    else if negb (Z.of_nat (length (GlobalCommitments h)) =? 256)
    then Err "invalid global commitments count"
    else if negb (forallb commitment64or74 (GlobalCommitments h)) then Err "invalid commitment length"
    else if negb (commitment64or74 (ProverTreeCommitment h))
    then Err "invalid prover tree commitment length"
    else match PublicKeySignatureBls48581 h with
         | None => Err "missing signature"
         | Some _ => Ok tt
         end
  end.

#[global] Instance canonical : Canonical t := {|
  toCanonical := ToCanonicalBytes; fromCanonical := FromCanonicalBytes |}.
#[global] Instance laws : CanonicalLaws t.
Proof.
  message_laws (fun g => is_u 64 (FrameNumber g) /\ is_i 64 (Timestamp g) /\ is_u 32 (Difficulty g)
    /\ lenOk (Output g) /\ lenOk (ParentSelector g) /\ lenOk (GlobalCommitments g)
    /\ Forall lenOk (GlobalCommitments g) /\ lenOk (ProverTreeCommitment g)
    /\ embedsOpt (PublicKeySignatureBls48581 g)) ToCanonicalBytes FromCanonicalBytes.
Defined.
End GlobalFrameHeader.

Module FrameHeader.
Record t := mk {
  Address : bytes;
  FrameNumber : Z;
  Timestamp : Z;
  Difficulty : Z;
  Output : bytes;
  ParentSelector : bytes;
  RequestsRoot : bytes;
  StateRoots : list bytes;
  Prover : bytes;
  FeeMultiplierVote : Z;
  PublicKeySignatureBls48581 : option BLS48581AggregateSignature.t
}.

Definition ToCanonicalBytes (f : t) : result bytes :=
  sig ← writeOpt toCanonical (PublicKeySignatureBls48581 f);
  Ok (writeU32 FrameHeaderType ++ writeBytes (Address f) ++ writeU64 (FrameNumber f)
      ++ writeU64 (Timestamp f) ++ writeU32 (Difficulty f) ++ writeBytes (Output f)
      ++ writeBytes (ParentSelector f) ++ writeBytes (RequestsRoot f)
      ++ writeSeq writeBytes (StateRoots f) ++ writeBytes (Prover f)
      ++ writeU64 (FeeMultiplierVote f) ++ sig).

Definition FromCanonicalBytes : bytes -> result t := runReader (
  expectType FrameHeaderType ;;
  address ← readBytes;
  frameNumber ← readU64;
  timestamp ← readI64;
  difficulty ← readU32;
  output ← readBytes;
  parent ← readBytes;
  requestsRoot ← readBytes;
  stateRoots ← readSeq readBytes;
  prover ← readBytes;
  feeVote ← readU64;
  sig ← readOpt fromCanonical;
  mret (mk address frameNumber timestamp difficulty output parent requestsRoot stateRoots prover
          feeVote sig)).

Definition Validate (h : option t) : result unit :=
  match h with
  | None => Err "nil frame header"
  | Some h =>
    if (Z.of_nat (length (Address h)) <? 32) || (64 <? Z.of_nat (length (Address h)))
    then Err "invalid address length"
    else if Timestamp h =? 0 then Err "invalid timestamp"
    else if Difficulty h =? 0 then Err "invalid difficulty"
    else if negb (lenIs 516 (Output h)) then Err "invalid output length"
    else if negb (lenIs 32 (ParentSelector h)) then Err "invalid parent selector length"
    else if negb (commitment64or74 (RequestsRoot h)) then Err "invalid requests root length"
    else if negb (Z.of_nat (length (StateRoots h)) =? 4) then Err "invalid state roots count"
    else if negb (forallb commitment64or74 (StateRoots h)) then Err "invalid state root length"
    else if negb (lenIs 32 (Prover h)) then Err "invalid prover length"
    else match PublicKeySignatureBls48581 h with
         | None => Err "missing signature"
         | Some _ => Ok tt
         end
  end.

#[global] Instance canonical : Canonical t := {|
  toCanonical := ToCanonicalBytes; fromCanonical := FromCanonicalBytes |}.
#[global] Instance laws : CanonicalLaws t.
Proof.
  message_laws (fun f => lenOk (Address f) /\ is_u 64 (FrameNumber f) /\ is_i 64 (Timestamp f)
    /\ is_u 32 (Difficulty f) /\ lenOk (Output f) /\ lenOk (ParentSelector f)
    /\ lenOk (RequestsRoot f) /\ lenOk (StateRoots f) /\ Forall lenOk (StateRoots f)
    /\ lenOk (Prover f) /\ is_u 64 (FeeMultiplierVote f)
    /\ embedsOpt (PublicKeySignatureBls48581 f)) ToCanonicalBytes FromCanonicalBytes.
Defined.
End FrameHeader.

Module ProverLivenessCheck.
Record t := mk {
  Filter : bytes;
  FrameNumber : Z;
  Timestamp : Z;
  CommitmentHash : bytes;
  PublicKeySignatureBls48581 : option BLS48581AddressedSignature.t
}.

Definition ToCanonicalBytes (p : t) : result bytes :=
  sig ← writeOpt toCanonical (PublicKeySignatureBls48581 p);
  Ok (writeU32 ProverLivenessCheckType ++ writeBytes (Filter p) ++ writeU64 (FrameNumber p)
      ++ writeU64 (Timestamp p) ++ writeBytes (CommitmentHash p) ++ sig).

(** Unlike the other decoders this one rejects a missing signature. *)
Definition readSignature : reader (option BLS48581AddressedSignature.t) :=
  sigLen ← readU32;
  if sigLen =? 0 then fail "invalid signature"
  else
    sigBytes ← bufRead (Z.to_nat sigLen);
    sig ← lift (fromCanonical sigBytes);
    mret (Some sig).

Definition FromCanonicalBytes : bytes -> result t := runReader (
  expectType ProverLivenessCheckType ;;
  filter ← readBytes;
  frameNumber ← readU64;
  timestamp ← readI64;
  hash ← readBytes;
  sig ← readSignature;
  mret (mk filter frameNumber timestamp hash sig)).

Definition Validate (p : option t) : result unit :=
  match p with
  | None => Err "nil prover liveness check"
  | Some p =>
    if 64 <? Z.of_nat (length (Filter p)) then Err "invalid filter length"
    else if negb (lenIs 32 (CommitmentHash p)) then Err "invalid commitment hash length"
    else match PublicKeySignatureBls48581 p with
         | None => Err "missing signature"
         | Some sig => BLS48581AddressedSignature.Validate (Some sig)
         end
  end.

Lemma parses_required (sig : BLS48581AddressedSignature.t) bs :
  embeds sig -> writeOpt toCanonical (Some sig) = Ok bs -> parses readSignature bs (Some sig).
Proof.
  intros Hs E rest. pose proof (parses_opt (Some sig) bs Hs E rest) as Hp.
  unfold readSignature, readOpt, mbind, reader_bind in *.
  destruct (readU32 (bs ++ rest)) as [[n s]| | |]; try done.
  destruct (Z.ltb_spec 0 n) as [Hn|Hn]; [|done].
  destruct (Z.eqb_spec n 0); [lia|done].
Qed.

Lemma parses_present (o : option BLS48581AddressedSignature.t) bs :
  embedsReq o -> writeOpt toCanonical o = Ok bs -> parses readSignature bs o.
Proof. destruct o; [apply parses_required|done]. Qed.

Lemma present_encodes (o : option BLS48581AddressedSignature.t) :
  embedsReq o -> is_Ok (writeOpt toCanonical o).
Proof. destruct o; [apply (writeOpt_encodes (Some _))|done]. Qed.
#[export] Hint Resolve parses_present present_encodes : wire.

#[global] Instance canonical : Canonical t := {|
  toCanonical := ToCanonicalBytes; fromCanonical := FromCanonicalBytes |}.
#[global] Instance laws : CanonicalLaws t.
Proof.
  message_laws (fun p => lenOk (Filter p) /\ is_u 64 (FrameNumber p) /\ is_i 64 (Timestamp p)
    /\ lenOk (CommitmentHash p) /\ embedsReq (PublicKeySignatureBls48581 p))
    ToCanonicalBytes FromCanonicalBytes.
Defined.
End ProverLivenessCheck.

Module FrameVote.
Record t := mk {
  FrameNumber : Z;
  Proposer : bytes;
  Approve : bool;
  PublicKeySignatureBls48581 : option BLS48581AddressedSignature.t
}.

Definition ToCanonicalBytes (f : t) : result bytes :=
  sig ← writeOpt toCanonical (PublicKeySignatureBls48581 f);
  Ok (writeU32 FrameVoteType ++ writeU64 (FrameNumber f) ++ writeBytes (Proposer f)
      ++ writeBool (Approve f) ++ sig).

Definition FromCanonicalBytes : bytes -> result t := runReader (
  expectType FrameVoteType ;;
  frameNumber ← readU64;
  proposer ← readBytes;
  approve ← readBool;
  sig ← readOpt fromCanonical;
  mret (mk frameNumber proposer approve sig)).

Definition Validate (f : option t) : result unit :=
  match f with
  | None => Err "nil frame vote"
  | Some f =>
    if negb (lenIs 32 (Proposer f)) then Err "invalid proposer length"
    else match PublicKeySignatureBls48581 f with
         | None => Err "missing signature"
         | Some sig => BLS48581AddressedSignature.Validate (Some sig)
         end
  end.

#[global] Instance canonical : Canonical t := {|
  toCanonical := ToCanonicalBytes; fromCanonical := FromCanonicalBytes |}.
#[global] Instance laws : CanonicalLaws t.
Proof.
  message_laws (fun f => is_u 64 (FrameNumber f) /\ lenOk (Proposer f)
    /\ embedsOpt (PublicKeySignatureBls48581 f)) ToCanonicalBytes FromCanonicalBytes.
Defined.
End FrameVote.

Module FrameConfirmation.
Record t := mk {
  FrameNumber : Z;
  Selector : bytes;
  AggregateSignature : option BLS48581AggregateSignature.t
}.

Definition ToCanonicalBytes (f : t) : result bytes :=
  sig ← writeOpt toCanonical (AggregateSignature f);
  Ok (writeU32 FrameConfirmationType ++ writeU64 (FrameNumber f) ++ writeBytes (Selector f) ++ sig).

Definition FromCanonicalBytes : bytes -> result t := runReader (
  expectType FrameConfirmationType ;;
  frameNumber ← readU64;
  selector ← readBytes;
  sig ← readOpt fromCanonical;
  mret (mk frameNumber selector sig)).

Definition Validate (f : option t) : result unit :=
  match f with
  | None => Err "nil frame confirmation"
  | Some f =>
    if negb (lenIs 32 (Selector f)) then Err "invalid selector length"
    else match AggregateSignature f with
         | None => Err "missing aggregate signature"
         | Some _ => Ok tt
         end
  end.

#[global] Instance canonical : Canonical t := {|
  toCanonical := ToCanonicalBytes; fromCanonical := FromCanonicalBytes |}.
#[global] Instance laws : CanonicalLaws t.
Proof.
  message_laws (fun f => is_u 64 (FrameNumber f) /\ lenOk (Selector f)
    /\ embedsOpt (AggregateSignature f)) ToCanonicalBytes FromCanonicalBytes.
Defined.
End FrameConfirmation.

Module GlobalAlert.
Record t := mk { Message : bytes; Signature : bytes }.

Definition ToCanonicalBytes (g : t) : result bytes :=
  Ok (writeU32 GlobalAlertType ++ writeBytes (Message g) ++ writeBytes (Signature g)).

Definition FromCanonicalBytes : bytes -> result t := runReader (
  expectType GlobalAlertType ;;
  msg ← readBytes;
  sig ← readBytes;
  mret (mk msg sig)).

Definition Validate (g : option t) : result unit :=
  match g with
  | None => Err "nil global alert"
  | Some g =>
    if lenIs 0 (Message g) then Err "empty alert message"
    else if negb (lenIs 114 (Signature g)) then Err "invalid signature"
    else Ok tt
  end.

#[global] Instance canonical : Canonical t := {|
  toCanonical := ToCanonicalBytes; fromCanonical := FromCanonicalBytes |}.
#[global] Instance laws : CanonicalLaws t.
Proof.
  message_laws (fun g => lenOk (Message g) /\ lenOk (Signature g)) ToCanonicalBytes FromCanonicalBytes.
Defined.
End GlobalAlert.

(** ** Properties *)

(** Decoding is lenient at the end of the input: an alert whose signature ends
    in zero bytes is also decoded from its canonical bytes with these cut off, so a
    truncated message passes for the whole. *)
Theorem alert_truncation (msg sig : bytes) (n : nat) :
  lenOk msg -> lenOk (sig ++ replicate n Byte.x00) -> sig <> [] ->
  exists bs, GlobalAlert.ToCanonicalBytes (GlobalAlert.mk msg (sig ++ replicate n Byte.x00))
             = Ok (bs ++ replicate n Byte.x00)
    /\ GlobalAlert.FromCanonicalBytes bs = Ok (GlobalAlert.mk msg (sig ++ replicate n Byte.x00)).
Proof.
  intros Hm Hs Hne. destruct (lenOk_u32 _ Hs) as [E Hu].
  exists (writeU32 GlobalAlertType ++ writeBytes msg
          ++ writeU32 (Z.of_nat (length (sig ++ replicate n Byte.x00))) ++ sig). split.
  - unfold GlobalAlert.ToCanonicalBytes. cbn [GlobalAlert.Message GlobalAlert.Signature].
    unfold writeBytes at 2. rewrite E. by rewrite <- !app_assoc.
  - unfold GlobalAlert.FromCanonicalBytes, runReader, mbind, reader_bind.
    rewrite (parses_type GlobalAlertType) by by_decide.
    rewrite (parses_bytes msg Hm). unfold readBytes, mbind, reader_bind.
    rewrite (parses_u32 _ Hu), Nat2Z.id, length_app, length_replicate.
    by rewrite bufRead_short.
Qed.

(** A liveness check without a signature is encoded, with a zero length in the
    place of the signature, and the decoder rejects the result. *)
Theorem unsigned_liveness_undecodable (filter hash : bytes) (frameNumber timestamp : Z)
    (rest : bytes) :
  lenOk filter -> lenOk hash -> is_u 64 frameNumber -> is_i 64 timestamp ->
  exists bs, ProverLivenessCheck.ToCanonicalBytes
               (ProverLivenessCheck.mk filter frameNumber timestamp hash None) = Ok bs
    /\ ProverLivenessCheck.FromCanonicalBytes (bs ++ rest) = Err "invalid signature".
Proof.
  intros Hf Hh Hn Ht. eexists. split; [reflexivity|].
  unfold ProverLivenessCheck.FromCanonicalBytes, runReader, mbind, reader_bind.
  cbn [ProverLivenessCheck.Filter ProverLivenessCheck.FrameNumber ProverLivenessCheck.Timestamp
       ProverLivenessCheck.CommitmentHash]. rewrite <- !app_assoc.
  rewrite (parses_type ProverLivenessCheckType) by by_decide.
  rewrite (parses_bytes filter Hf), (parses_u64 _ Hn), (parses_i64 _ Ht), (parses_bytes hash Hh).
  unfold ProverLivenessCheck.readSignature, mbind, reader_bind.
  rewrite (parses_u32 0) by by_decide. done.
Qed.

(** ** Witnesses *)

Lemma alert_truncation_witness :
  exists bs, GlobalAlert.ToCanonicalBytes (GlobalAlert.mk [Byte.x61] ([Byte.x01] ++ replicate 113 Byte.x00))
             = Ok (bs ++ replicate 113 Byte.x00)
    /\ GlobalAlert.FromCanonicalBytes bs
       = Ok (GlobalAlert.mk [Byte.x61] ([Byte.x01] ++ replicate 113 Byte.x00)).
Proof. apply alert_truncation; [by_decide|by_decide|discriminate]. Defined.

Lemma unsigned_liveness_undecodable_witness :
  exists bs, ProverLivenessCheck.ToCanonicalBytes
               (ProverLivenessCheck.mk [] 5 9 (replicate 32 Byte.x07) None) = Ok bs
    /\ ProverLivenessCheck.FromCanonicalBytes (bs ++ []) = Err "invalid signature".
Proof. apply unsigned_liveness_undecodable; by_decide. Defined.
