(* ===== verification/Hypergraph.v ===== *)
(** * Hypergraph messages (protobufs/hypergraph.go)

    Codecs and Validate methods of the messages that deploy, reconfigure and
    change a hypergraph. *)

From S2P Require Import Prelude Wire CanonicalTypes Keys.

Module HypergraphConfiguration.
Record t := mk { ReadPublicKey : bytes; WritePublicKey : bytes; OwnerPublicKey : bytes }.

Definition ToCanonicalBytes (h : t) : result bytes :=
  Ok (writeU32 HypergraphConfigurationType ++ writeBytes (ReadPublicKey h)
      ++ writeBytes (WritePublicKey h) ++ writeBytes (OwnerPublicKey h)).

Definition FromCanonicalBytes : bytes -> result t := runReader (
  expectType HypergraphConfigurationType ;;
  readKey ← readBytes;
  writeKey ← readBytes;
  ownerKey ← readBytes;
  mret (mk readKey writeKey ownerKey)).

Definition Validate (h : option t) : result unit :=
  match h with
  | None => Err "nil hypergraph configuration"
  | Some h =>
    if negb (lenIs 57 (ReadPublicKey h)) then Err "invalid read public key length"
    else if negb (lenIs 57 (WritePublicKey h)) then Err "invalid write public key length"
    else if negb (lenIs 0 (OwnerPublicKey h)) && negb (lenIs 585 (OwnerPublicKey h))
    then Err "invalid owner public key length (expected 0 or 585 bytes)"
    else Ok tt
  end.

#[global] Instance canonical : Canonical t := {|
  toCanonical := ToCanonicalBytes; fromCanonical := FromCanonicalBytes |}.
#[global] Instance laws : CanonicalLaws t.
Proof.
  message_laws (fun h => lenOk (ReadPublicKey h) /\ lenOk (WritePublicKey h)
    /\ lenOk (OwnerPublicKey h)) ToCanonicalBytes FromCanonicalBytes.
Defined.
End HypergraphConfiguration.

Module HypergraphDeploy.
Record t := mk { Config : option HypergraphConfiguration.t; RdfSchema : bytes }.

Definition ToCanonicalBytes (h : t) : result bytes :=
  config ← writeReq (Err "nil config") toCanonical (Config h);
  Ok (writeU32 HypergraphDeploymentType ++ config ++ writeBytes (RdfSchema h)).

Definition FromCanonicalBytes : bytes -> result t := runReader (
  expectType HypergraphDeploymentType ;;
  config ← readReq fromCanonical;
  schema ← readBytes;
  mret (mk config schema)).

Definition Validate (h : option t) : result unit :=
  match h with
  | None => Err "nil hypergraph deploy"
  | Some h =>
    match Config h with
    | None => Err "nil configuration"
    | Some c => HypergraphConfiguration.Validate (Some c)
    end
  end.

#[global] Instance canonical : Canonical t := {|
  toCanonical := ToCanonicalBytes; fromCanonical := FromCanonicalBytes |}.
#[global] Instance laws : CanonicalLaws t.
Proof.
  message_laws (fun h => embedsReq (Config h) /\ lenOk (RdfSchema h))
    ToCanonicalBytes FromCanonicalBytes.
Defined.
End HypergraphDeploy.

Module HypergraphUpdate.
Record t := mk {
  Config : option HypergraphConfiguration.t;
  RdfSchema : bytes;
  PublicKeySignatureBls48581 : option BLS48581AggregateSignature.t
}.

Definition ToCanonicalBytes (h : t) : result bytes :=
  config ← writeOpt toCanonical (Config h);
  sig ← writeOpt toCanonical (PublicKeySignatureBls48581 h);
  Ok (writeU32 HypergraphUpdateType ++ config ++ writeBytes (RdfSchema h) ++ sig).

Definition FromCanonicalBytes : bytes -> result t := runReader (
  expectType HypergraphUpdateType ;;
  config ← readOpt fromCanonical;
  schema ← readBytes;
  sig ← readOpt fromCanonical;
  mret (mk config schema sig)).

Definition Validate (h : option t) : result unit :=
  match h with
  | None => Err "nil hypergraph update"
  | Some h =>
    if bool_decide (Config h = None) && lenIs 0 (RdfSchema h)
    then Err "config and schema can be nil, but not both"
    else
      match Config h with
      | None => Ok tt
      | Some c => HypergraphConfiguration.Validate (Some c)
      end ;;
      match PublicKeySignatureBls48581 h with
      | None => Err "public key signature is nil"
      | Some sig => BLS48581AggregateSignature.Validate (Some sig)
      end
  end.

#[global] Instance canonical : Canonical t := {|
  toCanonical := ToCanonicalBytes; fromCanonical := FromCanonicalBytes |}.
#[global] Instance laws : CanonicalLaws t.
Proof.
  message_laws (fun h => embedsOpt (Config h) /\ lenOk (RdfSchema h)
    /\ embedsOpt (PublicKeySignatureBls48581 h)) ToCanonicalBytes FromCanonicalBytes.
Defined.
End HypergraphUpdate.

Module VertexAdd.
Record t := mk { Domain : bytes; DataAddress : bytes; Data : bytes; Signature : bytes }.

Definition ToCanonicalBytes (v : t) : result bytes :=
  Ok (writeU32 VertexAddType ++ writeBytes (Domain v) ++ writeBytes (DataAddress v)
      ++ writeBytes (Data v) ++ writeBytes (Signature v)).

Definition FromCanonicalBytes : bytes -> result t := runReader (
  expectType VertexAddType ;;
  domain ← readBytes;
  address ← readBytes;
  data ← readBytes;
  sig ← readBytes;
  mret (mk domain address data sig)).

Definition Validate (v : option t) : result unit :=
  match v with
  | None => Err "nil vertex add"
  | Some v =>
    if negb (lenIs 32 (Domain v)) then Err "invalid domain length"
    else if negb (lenIs 32 (DataAddress v)) then Err "invalid data address length"
    else if lenIs 0 (Data v) then Err "empty data"
    else if lenIs 0 (Signature v) then Err "empty signature"
    else Ok tt
  end.

#[global] Instance canonical : Canonical t := {|
  toCanonical := ToCanonicalBytes; fromCanonical := FromCanonicalBytes |}.
#[global] Instance laws : CanonicalLaws t.
Proof.
  message_laws (fun v => lenOk (Domain v) /\ lenOk (DataAddress v) /\ lenOk (Data v)
    /\ lenOk (Signature v)) ToCanonicalBytes FromCanonicalBytes.
Defined.
End VertexAdd.

Module VertexRemove.
Record t := mk { Domain : bytes; DataAddress : bytes; Signature : bytes }.

Definition ToCanonicalBytes (v : t) : result bytes :=
  Ok (writeU32 VertexRemoveType ++ writeBytes (Domain v) ++ writeBytes (DataAddress v)
      ++ writeBytes (Signature v)).

Definition FromCanonicalBytes : bytes -> result t := runReader (
  expectType VertexRemoveType ;;
  domain ← readBytes;
  address ← readBytes;
  sig ← readBytes;
  mret (mk domain address sig)).

Definition Validate (v : option t) : result unit :=
  match v with
  | None => Err "nil vertex remove"
  | Some v =>
    if negb (lenIs 32 (Domain v)) then Err "invalid domain length"
    else if negb (lenIs 32 (DataAddress v)) then Err "invalid data address length"
    else if lenIs 0 (Signature v) then Err "empty signature"
    else Ok tt
  end.

#[global] Instance canonical : Canonical t := {|
  toCanonical := ToCanonicalBytes; fromCanonical := FromCanonicalBytes |}.
#[global] Instance laws : CanonicalLaws t.
Proof.
  message_laws (fun v => lenOk (Domain v) /\ lenOk (DataAddress v) /\ lenOk (Signature v))
    ToCanonicalBytes FromCanonicalBytes.
Defined.
End VertexRemove.

Module HyperedgeAdd.
Record t := mk { Domain : bytes; Value : bytes; Signature : bytes }.

Definition ToCanonicalBytes (h : t) : result bytes :=
  Ok (writeU32 HyperedgeAddType ++ writeBytes (Domain h) ++ writeBytes (Value h)
      ++ writeBytes (Signature h)).

Definition FromCanonicalBytes : bytes -> result t := runReader (
  expectType HyperedgeAddType ;;
  domain ← readBytes;
  value ← readBytes;
  sig ← readBytes;
  mret (mk domain value sig)).

Definition Validate (h : option t) : result unit :=
  match h with
  | None => Err "nil hyperedge add"
  | Some h =>
    if negb (lenIs 32 (Domain h)) then Err "invalid domain length"
    else if lenIs 0 (Value h) then Err "empty value"
    else if lenIs 0 (Signature h) then Err "empty signature"
    else Ok tt
  end.

#[global] Instance canonical : Canonical t := {|
  toCanonical := ToCanonicalBytes; fromCanonical := FromCanonicalBytes |}.
#[global] Instance laws : CanonicalLaws t.
Proof.
  message_laws (fun h => lenOk (Domain h) /\ lenOk (Value h) /\ lenOk (Signature h))
    ToCanonicalBytes FromCanonicalBytes.
Defined.
End HyperedgeAdd.

Module HyperedgeRemove.
Record t := mk { Domain : bytes; Value : bytes; Signature : bytes }.

Definition ToCanonicalBytes (h : t) : result bytes :=
  Ok (writeU32 HyperedgeRemoveType ++ writeBytes (Domain h) ++ writeBytes (Value h)
      ++ writeBytes (Signature h)).

Definition FromCanonicalBytes : bytes -> result t := runReader (
  expectType HyperedgeRemoveType ;;
  domain ← readBytes;
  value ← readBytes;
  sig ← readBytes;
  mret (mk domain value sig)).

Definition Validate (h : option t) : result unit :=
  match h with
  | None => Err "nil hyperedge remove"
  | Some h =>
    if negb (lenIs 32 (Domain h)) then Err "invalid domain length"
    else if lenIs 0 (Value h) then Err "empty value"
    else if lenIs 0 (Signature h) then Err "empty signature"
    else Ok tt
  end.

#[global] Instance canonical : Canonical t := {|
  toCanonical := ToCanonicalBytes; fromCanonical := FromCanonicalBytes |}.
#[global] Instance laws : CanonicalLaws t.
Proof.
  message_laws (fun h => lenOk (Domain h) /\ lenOk (Value h) /\ lenOk (Signature h))
    ToCanonicalBytes FromCanonicalBytes.
Defined.
End HyperedgeRemove.
