(* ===== verification/Token.v ===== *)
(** * Token messages (protobufs/token.go)

    Codecs and Validate methods of token configurations, deployments and the three
    kinds of token transaction.  Go strings are kept as their bytes. *)

From S2P Require Import Prelude Wire CanonicalTypes Keys Global.

Module Authority.
Record t := mk { KeyType : Z; PublicKey : bytes; CanBurn : bool }.

Definition ToCanonicalBytes (a : t) : result bytes :=
  Ok (writeU32 AuthorityType ++ writeU32 (KeyType a) ++ writeBytes (PublicKey a)
      ++ writeBool (CanBurn a)).

Definition FromCanonicalBytes : bytes -> result t := runReader (
  expectType AuthorityType ;;
  keyType ← readU32;
  publicKey ← readBytes;
  canBurn ← readBool;
  mret (mk keyType publicKey canBurn)).

Definition Validate (a : option t) : result unit :=
  match a with
  | None => Err "nil authority"
  | Some a =>
    if KeyType a =? 0
    then if negb (lenIs 57 (PublicKey a)) then Err "invalid ed448 public key length" else Ok tt
    else Err "unsupported key type"
  end.

#[global] Instance canonical : Canonical t := {|
  toCanonical := ToCanonicalBytes; fromCanonical := FromCanonicalBytes |}.
#[global] Instance laws : CanonicalLaws t.
Proof.
  message_laws (fun a => is_u 32 (KeyType a) /\ lenOk (PublicKey a))
    ToCanonicalBytes FromCanonicalBytes.
Defined.
End Authority.

(** The enumeration values of token.proto. *)
Definition FeeBasisType_NO_FEE_BASIS : Z := 0.
Definition FeeBasisType_PER_UNIT : Z := 1.
Definition TokenMintBehavior_NO_MINT_BEHAVIOR : Z := 0.
Definition TokenMintBehavior_MINT_WITH_PROOF : Z := 1.
Definition TokenMintBehavior_MINT_WITH_AUTHORITY : Z := 2.
Definition TokenMintBehavior_MINT_WITH_SIGNATURE : Z := 3.
Definition TokenMintBehavior_MINT_WITH_PAYMENT : Z := 4.
Definition ProofBasisType_NO_PROOF_BASIS : Z := 0.
Definition ProofBasisType_PROOF_OF_MEANINGFUL_WORK : Z := 1.
Definition ProofBasisType_VERKLE_MULTIPROOF_WITH_SIGNATURE : Z := 2.
Definition TokenIntrinsicBehavior_TOKEN_BEHAVIOR_MINTABLE : Z := 1.
Definition TokenIntrinsicBehavior_TOKEN_BEHAVIOR_DIVISIBLE : Z := 4.

Module FeeBasis.
Record t := mk { Type_ : Z; Baseline : bytes }.

Definition ToCanonicalBytes (f : t) : result bytes :=
  Ok (writeU32 FeeBasisStructType ++ writeU32 (Type_ f) ++ writeBytes (Baseline f)).

Definition FromCanonicalBytes : bytes -> result t := runReader (
  expectType FeeBasisStructType ;;
  type_ ← readI32;
  baseline ← readBytes;
  mret (mk type_ baseline)).

Definition Validate (f : option t) : result unit :=
  match f with
  | None => Err "nil fee basis"
  | Some f =>
    if Type_ f =? FeeBasisType_NO_FEE_BASIS then Ok tt
    else if Type_ f =? FeeBasisType_PER_UNIT
    then if lenIs 0 (Baseline f) then Err "baseline required for per unit fee" else Ok tt
    else Err "invalid fee basis type"
  end.

#[global] Instance canonical : Canonical t := {|
  toCanonical := ToCanonicalBytes; fromCanonical := FromCanonicalBytes |}.
#[global] Instance laws : CanonicalLaws t.
Proof.
  message_laws (fun f => is_i 32 (Type_ f) /\ lenOk (Baseline f))
    ToCanonicalBytes FromCanonicalBytes.
Defined.
End FeeBasis.

Module TokenMintStrategy.
Record t := mk {
  MintBehavior : Z;
  ProofBasis : Z;
  VerkleRoot : bytes;
  Authority : option Authority.t;
  PaymentAddress : bytes;
  FeeBasis : option FeeBasis.t
}.

Definition ToCanonicalBytes (s : t) : result bytes :=
  authority ← writeOpt toCanonical (Authority s);
  feeBasis ← writeOpt toCanonical (FeeBasis s);
  Ok (writeU32 TokenMintStrategyType ++ writeU32 (MintBehavior s) ++ writeU32 (ProofBasis s)
      ++ writeBytes (VerkleRoot s) ++ authority ++ writeBytes (PaymentAddress s) ++ feeBasis).

Definition FromCanonicalBytes : bytes -> result t := runReader (
  expectType TokenMintStrategyType ;;
  mintBehavior ← readI32;
  proofBasis ← readI32;
  verkleRoot ← readBytes;
  authority ← readOpt fromCanonical;
  paymentAddress ← readBytes;
  feeBasis ← readOpt fromCanonical;
  mret (mk mintBehavior proofBasis verkleRoot authority paymentAddress feeBasis)).

Definition validateMint (s : t) : result unit :=
  if (MintBehavior s =? TokenMintBehavior_NO_MINT_BEHAVIOR)
     || (MintBehavior s =? TokenMintBehavior_MINT_WITH_PROOF) then Ok tt
  else if MintBehavior s =? TokenMintBehavior_MINT_WITH_AUTHORITY
  then match Authority s with
       | None => Err "authority required for authority mint"
       | Some a => Authority.Validate (Some a)
       end
  else if MintBehavior s =? TokenMintBehavior_MINT_WITH_SIGNATURE
  then match Authority s with
       | None => Err "authority required for signature mint"
       | Some a => Authority.Validate (Some a)
       end
  else if MintBehavior s =? TokenMintBehavior_MINT_WITH_PAYMENT
  then if lenIs 0 (PaymentAddress s) then Err "payment address required for payment mint"
       else match FeeBasis s with
            | None => Err "fee basis required for payment mint"
            | Some f => FeeBasis.Validate (Some f)
            end
  else Err "invalid mint behavior".

Definition validateProof (s : t) : result unit :=
  if (ProofBasis s =? ProofBasisType_NO_PROOF_BASIS)
     || (ProofBasis s =? ProofBasisType_PROOF_OF_MEANINGFUL_WORK) then Ok tt
  else if ProofBasis s =? ProofBasisType_VERKLE_MULTIPROOF_WITH_SIGNATURE
  then if lenIs 0 (VerkleRoot s) then Err "verkle root required for verkle proof basis" else Ok tt
  else Err "invalid proof basis type".

Definition Validate (s : option t) : result unit :=
  match s with
  | None => Err "nil token mint strategy"
  | Some s =>
    validateMint s ;; validateProof s
  end.

#[global] Instance canonical : Canonical t := {|
  toCanonical := ToCanonicalBytes; fromCanonical := FromCanonicalBytes |}.
#[global] Instance laws : CanonicalLaws t.
Proof.
  message_laws (fun s => is_i 32 (MintBehavior s) /\ is_i 32 (ProofBasis s)
    /\ lenOk (VerkleRoot s) /\ embedsOpt (Authority s) /\ lenOk (PaymentAddress s)
    /\ embedsOpt (FeeBasis s))
    ToCanonicalBytes FromCanonicalBytes.
Defined.
End TokenMintStrategy.

Module TokenConfiguration.
Record t := mk {
  Behavior : Z;
  MintStrategy : option TokenMintStrategy.t;
  Units : bytes;
  Supply : bytes;
  Name : bytes;
  Symbol : bytes;
  AdditionalReference : list bytes;
  OwnerPublicKey : bytes
}.

Definition ToCanonicalBytes (c : t) : result bytes :=
  mintStrategy ← writeOpt toCanonical (MintStrategy c);
  Ok (writeU32 TokenConfigurationType ++ writeU32 (Behavior c) ++ mintStrategy
      ++ writeBytes (Units c) ++ writeBytes (Supply c) ++ writeBytes (Name c)
      ++ writeBytes (Symbol c) ++ writeSeq writeBytes (AdditionalReference c)
      ++ writeBytes (OwnerPublicKey c)).

Definition FromCanonicalBytes : bytes -> result t := runReader (
  expectType TokenConfigurationType ;;
  behavior ← readU32;
  mintStrategy ← readOpt fromCanonical;
  units ← readBytes;
  supply ← readBytes;
  name ← readBytes;
  symbol ← readBytes;
  additionalReference ← readSeq readBytes;
  ownerPublicKey ← readBytes;
  mret (mk behavior mintStrategy units supply name symbol additionalReference ownerPublicKey)).

Definition hasFlag (c : t) (flag : Z) : bool := negb (Z.land (Behavior c) flag =? 0).

Definition Validate (c : option t) : result unit :=
  match c with
  | None => Err "nil token configuration"
  | Some c =>
    (if hasFlag c TokenIntrinsicBehavior_TOKEN_BEHAVIOR_MINTABLE
     then match MintStrategy c with
          | None => Err "mint strategy required for mintable token"
          | Some s => TokenMintStrategy.Validate (Some s)
          end
     else if lenIs 0 (Supply c) then Err "supply required for non-mintable token" else Ok tt) ;;
    if hasFlag c TokenIntrinsicBehavior_TOKEN_BEHAVIOR_DIVISIBLE && lenIs 0 (Units c)
    then Err "units required for divisible token"
    else if lenIs 0 (Name c) then Err "token name required"
    else if lenIs 0 (Symbol c) then Err "token symbol required"
    else if negb (forallb (lenIs 64) (AdditionalReference c))
    then Err "additional reference must be 64 bytes"
    else if negb (lenIs 0 (OwnerPublicKey c)) && negb (lenIs 585 (OwnerPublicKey c))
    then Err "owner public key must be 0 or 585 bytes"
    else Ok tt
  end.

#[global] Instance canonical : Canonical t := {|
  toCanonical := ToCanonicalBytes; fromCanonical := FromCanonicalBytes |}.
#[global] Instance laws : CanonicalLaws t.
Proof.
  message_laws (fun c => is_u 32 (Behavior c) /\ embedsOpt (MintStrategy c) /\ lenOk (Units c)
    /\ lenOk (Supply c) /\ lenOk (Name c) /\ lenOk (Symbol c) /\ lenOk (AdditionalReference c)
    /\ Forall lenOk (AdditionalReference c) /\ lenOk (OwnerPublicKey c))
    ToCanonicalBytes FromCanonicalBytes.
Defined.
End TokenConfiguration.

Module TokenDeploy.
Record t := mk { Config : option TokenConfiguration.t; RdfSchema : bytes }.

Definition ToCanonicalBytes (d : t) : result bytes :=
  config ← writeOpt toCanonical (Config d);
  Ok (writeU32 TokenDeploymentType ++ config ++ writeBytes (RdfSchema d)).

Definition FromCanonicalBytes : bytes -> result t := runReader (
  expectType TokenDeploymentType ;;
  config ← readOpt fromCanonical;
  rdfSchema ← readBytes;
  mret (mk config rdfSchema)).

Definition Validate (d : option t) : result unit :=
  match d with
  | None => Err "nil token deploy"
  | Some d =>
    match Config d with
    | None => Err "nil configuration"
    | Some c => TokenConfiguration.Validate (Some c)
    end
  end.

#[global] Instance canonical : Canonical t := {|
  toCanonical := ToCanonicalBytes; fromCanonical := FromCanonicalBytes |}.
#[global] Instance laws : CanonicalLaws t.
Proof.
  message_laws (fun d => embedsOpt (Config d) /\ lenOk (RdfSchema d))
    ToCanonicalBytes FromCanonicalBytes.
Defined.
End TokenDeploy.

Module TokenUpdate.
Record t := mk {
  Config : option TokenConfiguration.t;
  RdfSchema : bytes;
  PublicKeySignatureBls48581 : option BLS48581AggregateSignature.t
}.

Definition ToCanonicalBytes (u : t) : result bytes :=
  config ← writeOpt toCanonical (Config u);
  publicKeySignatureBls48581 ← writeOpt toCanonical (PublicKeySignatureBls48581 u);
  Ok (writeU32 TokenUpdateType ++ config ++ writeBytes (RdfSchema u) ++ publicKeySignatureBls48581).

Definition FromCanonicalBytes : bytes -> result t := runReader (
  expectType TokenUpdateType ;;
  config ← readOpt fromCanonical;
  rdfSchema ← readBytes;
  publicKeySignatureBls48581 ← readOpt fromCanonical;
  mret (mk config rdfSchema publicKeySignatureBls48581)).

Definition Validate (u : option t) : result unit :=
  match u with
  | None => Err "nil token update"
  | Some u =>
    match Config u with
    | None => Err "nil configuration"
    | Some c => TokenConfiguration.Validate (Some c)
    end ;;
    match PublicKeySignatureBls48581 u with
    | None => Err "public key signature is nil"
    | Some sig => BLS48581AggregateSignature.Validate (Some sig)
    end
  end.

#[global] Instance canonical : Canonical t := {|
  toCanonical := ToCanonicalBytes; fromCanonical := FromCanonicalBytes |}.
#[global] Instance laws : CanonicalLaws t.
Proof.
  message_laws (fun u => embedsOpt (Config u) /\ lenOk (RdfSchema u)
    /\ embedsOpt (PublicKeySignatureBls48581 u))
    ToCanonicalBytes FromCanonicalBytes.
Defined.
End TokenUpdate.

Module RecipientBundle.
Record t := mk {
  OneTimeKey : bytes;
  VerificationKey : bytes;
  CoinBalance : bytes;
  Mask : bytes;
  AdditionalReference : bytes;
  AdditionalReferenceKey : bytes
}.

Definition ToCanonicalBytes (r : t) : result bytes :=
  Ok (writeU32 RecipientBundleType ++ writeBytes (OneTimeKey r) ++ writeBytes (VerificationKey r)
      ++ writeBytes (CoinBalance r) ++ writeBytes (Mask r) ++ writeBytes (AdditionalReference r)
      ++ writeBytes (AdditionalReferenceKey r)).

Definition FromCanonicalBytes : bytes -> result t := runReader (
  expectType RecipientBundleType ;;
  oneTimeKey ← readBytes;
  verificationKey ← readBytes;
  coinBalance ← readBytes;
  mask ← readBytes;
  additionalReference ← readBytes;
  additionalReferenceKey ← readBytes;
  mret (mk oneTimeKey verificationKey coinBalance mask additionalReference additionalReferenceKey)).

Definition Validate (r : option t) : result unit :=
  match r with
  | None => Err "nil recipient bundle"
  | Some r =>
    if lenIs 0 (OneTimeKey r) then Err "one time key required"
    else if lenIs 0 (VerificationKey r) then Err "verification key required"
    else if lenIs 0 (CoinBalance r) then Err "coin balance required"
    else if lenIs 0 (Mask r) then Err "mask required"
    else Ok tt
  end.

#[global] Instance canonical : Canonical t := {|
  toCanonical := ToCanonicalBytes; fromCanonical := FromCanonicalBytes |}.
#[global] Instance laws : CanonicalLaws t.
Proof.
  message_laws (fun r => lenOk (OneTimeKey r) /\ lenOk (VerificationKey r)
    /\ lenOk (CoinBalance r) /\ lenOk (Mask r) /\ lenOk (AdditionalReference r)
    /\ lenOk (AdditionalReferenceKey r))
    ToCanonicalBytes FromCanonicalBytes.
Defined.
End RecipientBundle.

Module TransactionInput.
Record t := mk { Commitment : bytes; Signature : bytes; Proofs : list bytes }.

Definition ToCanonicalBytes (i : t) : result bytes :=
  Ok (writeU32 TransactionInputType ++ writeBytes (Commitment i) ++ writeBytes (Signature i)
      ++ writeSeq writeBytes (Proofs i)).

Definition FromCanonicalBytes : bytes -> result t := runReader (
  expectType TransactionInputType ;;
  commitment ← readBytes;
  signature ← readBytes;
  proofs ← readSeq readBytes;
  mret (mk commitment signature proofs)).

Definition Validate (i : option t) : result unit :=
  match i with
  | None => Err "nil transaction input"
  | Some i =>
    if lenIs 0 (Commitment i) then Err "commitment required"
    else if lenIs 0 (Signature i) then Err "signature required"
    else Ok tt
  end.

#[global] Instance canonical : Canonical t := {|
  toCanonical := ToCanonicalBytes; fromCanonical := FromCanonicalBytes |}.
#[global] Instance laws : CanonicalLaws t.
Proof.
  message_laws (fun i => lenOk (Commitment i) /\ lenOk (Signature i) /\ lenOk (Proofs i)
    /\ Forall lenOk (Proofs i))
    ToCanonicalBytes FromCanonicalBytes.
Defined.
End TransactionInput.

Module TransactionOutput.
Record t := mk {
  FrameNumber : bytes;
  Commitment : bytes;
  RecipientOutput : option RecipientBundle.t
}.

Definition ToCanonicalBytes (o : t) : result bytes :=
  recipientOutput ← writeOpt toCanonical (RecipientOutput o);
  Ok (writeU32 TransactionOutputType ++ writeBytes (FrameNumber o) ++ writeBytes (Commitment o)
      ++ recipientOutput).

Definition FromCanonicalBytes : bytes -> result t := runReader (
  expectType TransactionOutputType ;;
  frameNumber ← readBytes;
  commitment ← readBytes;
  recipientOutput ← readOpt fromCanonical;
  mret (mk frameNumber commitment recipientOutput)).

Definition Validate (o : option t) : result unit :=
  match o with
  | None => Err "nil transaction output"
  | Some o =>
    if lenIs 0 (Commitment o) then Err "commitment required"
    else match RecipientOutput o with
         | None => Ok tt
         | Some r => RecipientBundle.Validate (Some r)
         end
  end.

#[global] Instance canonical : Canonical t := {|
  toCanonical := ToCanonicalBytes; fromCanonical := FromCanonicalBytes |}.
#[global] Instance laws : CanonicalLaws t.
Proof.
  message_laws (fun o => lenOk (FrameNumber o) /\ lenOk (Commitment o)
    /\ embedsOpt (RecipientOutput o))
    ToCanonicalBytes FromCanonicalBytes.
Defined.
End TransactionOutput.

Module Transaction.
Record t := mk {
  Domain : bytes;
  Inputs : list TransactionInput.t;
  Outputs : list TransactionOutput.t;
  Fees : list bytes;
  RangeProof : bytes;
  TraversalProof : option TraversalProof.t
}.

Definition ToCanonicalBytes (x : t) : result bytes :=
  inputs ← writeMsgs toCanonical (Inputs x);
  outputs ← writeMsgs toCanonical (Outputs x);
  traversalProof ← writeOpt toCanonical (TraversalProof x);
  Ok (writeU32 TransactionType ++ writeBytes (Domain x) ++ inputs ++ outputs
      ++ writeSeq writeBytes (Fees x) ++ writeBytes (RangeProof x) ++ traversalProof).

Definition FromCanonicalBytes : bytes -> result t := runReader (
  expectType TransactionType ;;
  domain ← readBytes;
  inputs ← readSeq (readMsg fromCanonical);
  outputs ← readSeq (readMsg fromCanonical);
  fees ← readSeq readBytes;
  rangeProof ← readBytes;
  traversalProof ← readOpt fromCanonical;
  mret (mk domain inputs outputs fees rangeProof traversalProof)).

Definition Validate (x : option t) : result unit :=
  match x with
  | None => Err "nil transaction"
  | Some x =>
    if negb (lenIs 32 (Domain x)) then Err "invalid domain length"
    else if Z.of_nat (length (Inputs x)) =? 0 then Err "no inputs"
    else
      validateEach (fun i => TransactionInput.Validate (Some i)) (Inputs x) ;;
      if Z.of_nat (length (Outputs x)) =? 0 then Err "no outputs"
      else
        validateEach (fun o => TransactionOutput.Validate (Some o)) (Outputs x) ;;
        if negb (Z.of_nat (length (Fees x)) =? Z.of_nat (length (Outputs x)))
        then Err "fees count must match outputs count"
        else if lenIs 0 (RangeProof x) then Err "range proof required"
        else Ok tt
  end.

#[global] Instance canonical : Canonical t := {|
  toCanonical := ToCanonicalBytes; fromCanonical := FromCanonicalBytes |}.
#[global] Instance laws : CanonicalLaws t.
Proof.
  message_laws (fun x => lenOk (Domain x) /\ lenOk (Inputs x) /\ Forall embeds (Inputs x)
    /\ lenOk (Outputs x) /\ Forall embeds (Outputs x) /\ lenOk (Fees x) /\ Forall lenOk (Fees x)
    /\ lenOk (RangeProof x) /\ embedsOpt (TraversalProof x))
    ToCanonicalBytes FromCanonicalBytes.
Defined.
End Transaction.

Module PendingTransactionInput.
Record t := mk { Commitment : bytes; Signature : bytes; Proofs : list bytes }.

Definition ToCanonicalBytes (i : t) : result bytes :=
  Ok (writeU32 PendingTransactionInputType ++ writeBytes (Commitment i)
      ++ writeBytes (Signature i) ++ writeSeq writeBytes (Proofs i)).

Definition FromCanonicalBytes : bytes -> result t := runReader (
  expectType PendingTransactionInputType ;;
  commitment ← readBytes;
  signature ← readBytes;
  proofs ← readSeq readBytes;
  mret (mk commitment signature proofs)).

Definition Validate (i : option t) : result unit :=
  match i with
  | None => Err "nil pending transaction input"
  | Some i =>
    if lenIs 0 (Commitment i) then Err "commitment required"
    else if lenIs 0 (Signature i) then Err "signature required"
    else Ok tt
  end.

#[global] Instance canonical : Canonical t := {|
  toCanonical := ToCanonicalBytes; fromCanonical := FromCanonicalBytes |}.
#[global] Instance laws : CanonicalLaws t.
Proof.
  message_laws (fun i => lenOk (Commitment i) /\ lenOk (Signature i) /\ lenOk (Proofs i)
    /\ Forall lenOk (Proofs i))
    ToCanonicalBytes FromCanonicalBytes.
Defined.
End PendingTransactionInput.

Module PendingTransactionOutput.
Record t := mk {
  FrameNumber : bytes;
  Commitment : bytes;
  To : option RecipientBundle.t;
  Refund : option RecipientBundle.t;
  Expiration : Z
}.

Definition ToCanonicalBytes (o : t) : result bytes :=
  to ← writeOpt toCanonical (To o);
  refund ← writeOpt toCanonical (Refund o);
  Ok (writeU32 PendingTransactionOutputType ++ writeBytes (FrameNumber o)
      ++ writeBytes (Commitment o) ++ to ++ refund ++ writeU64 (Expiration o)).

Definition FromCanonicalBytes : bytes -> result t := runReader (
  expectType PendingTransactionOutputType ;;
  frameNumber ← readBytes;
  commitment ← readBytes;
  to ← readOpt fromCanonical;
  refund ← readOpt fromCanonical;
  expiration ← readU64;
  mret (mk frameNumber commitment to refund expiration)).

Definition Validate (o : option t) : result unit :=
  match o with
  | None => Err "nil pending transaction output"
  | Some o =>
    match To o with
    | None => Err "to recipient required"
    | Some r => RecipientBundle.Validate (Some r)
    end ;;
    match Refund o with
    | None => Err "refund recipient required"
    | Some r => RecipientBundle.Validate (Some r)
    end
  end.

#[global] Instance canonical : Canonical t := {|
  toCanonical := ToCanonicalBytes; fromCanonical := FromCanonicalBytes |}.
#[global] Instance laws : CanonicalLaws t.
Proof.
  message_laws (fun o => lenOk (FrameNumber o) /\ lenOk (Commitment o) /\ embedsOpt (To o)
    /\ embedsOpt (Refund o) /\ is_u 64 (Expiration o))
    ToCanonicalBytes FromCanonicalBytes.
Defined.
End PendingTransactionOutput.

Module PendingTransaction.
Record t := mk {
  Domain : bytes;
  Inputs : list PendingTransactionInput.t;
  Outputs : list PendingTransactionOutput.t;
  Fees : list bytes;
  RangeProof : bytes;
  TraversalProof : option TraversalProof.t
}.

Definition ToCanonicalBytes (p : t) : result bytes :=
  inputs ← writeMsgs toCanonical (Inputs p);
  outputs ← writeMsgs toCanonical (Outputs p);
  traversalProof ← writeOpt toCanonical (TraversalProof p);
  Ok (writeU32 PendingTransactionType ++ writeBytes (Domain p) ++ inputs ++ outputs
      ++ writeSeq writeBytes (Fees p) ++ writeBytes (RangeProof p) ++ traversalProof).

Definition FromCanonicalBytes : bytes -> result t := runReader (
  expectType PendingTransactionType ;;
  domain ← readBytes;
  inputs ← readSeq (readMsg fromCanonical);
  outputs ← readSeq (readMsg fromCanonical);
  fees ← readSeq readBytes;
  rangeProof ← readBytes;
  traversalProof ← readOpt fromCanonical;
  mret (mk domain inputs outputs fees rangeProof traversalProof)).

Definition Validate (p : option t) : result unit :=
  match p with
  | None => Err "nil pending transaction"
  | Some p =>
    if negb (lenIs 32 (Domain p)) then Err "invalid domain length"
    else if Z.of_nat (length (Inputs p)) =? 0 then Err "no inputs"
    else
      validateEach (fun i => PendingTransactionInput.Validate (Some i)) (Inputs p) ;;
      if Z.of_nat (length (Outputs p)) =? 0 then Err "no outputs"
      else
        validateEach (fun o => PendingTransactionOutput.Validate (Some o)) (Outputs p) ;;
        if negb (Z.of_nat (length (Fees p)) =? Z.of_nat (length (Outputs p)))
        then Err "fees count must match outputs count"
        else if lenIs 0 (RangeProof p) then Err "range proof required"
        else Ok tt
  end.

#[global] Instance canonical : Canonical t := {|
  toCanonical := ToCanonicalBytes; fromCanonical := FromCanonicalBytes |}.
#[global] Instance laws : CanonicalLaws t.
Proof.
  message_laws (fun p => lenOk (Domain p) /\ lenOk (Inputs p) /\ Forall embeds (Inputs p)
    /\ lenOk (Outputs p) /\ Forall embeds (Outputs p) /\ lenOk (Fees p) /\ Forall lenOk (Fees p)
    /\ lenOk (RangeProof p) /\ embedsOpt (TraversalProof p))
    ToCanonicalBytes FromCanonicalBytes.
Defined.
End PendingTransaction.

Module MintTransactionInput.
Record t := mk {
  Value : bytes;
  Commitment : bytes;
  Signature : bytes;
  Proofs : list bytes;
  AdditionalReference : bytes;
  AdditionalReferenceKey : bytes
}.

Definition ToCanonicalBytes (i : t) : result bytes :=
  Ok (writeU32 MintTransactionInputType ++ writeBytes (Value i) ++ writeBytes (Commitment i)
      ++ writeBytes (Signature i) ++ writeSeq writeBytes (Proofs i)
      ++ writeBytes (AdditionalReference i) ++ writeBytes (AdditionalReferenceKey i)).

Definition FromCanonicalBytes : bytes -> result t := runReader (
  expectType MintTransactionInputType ;;
  value ← readBytes;
  commitment ← readBytes;
  signature ← readBytes;
  proofs ← readSeq readBytes;
  additionalReference ← readBytes;
  additionalReferenceKey ← readBytes;
  mret (mk value commitment signature proofs additionalReference additionalReferenceKey)).

Definition Validate (i : option t) : result unit :=
  match i with
  | None => Err "nil mint transaction input"
  | Some i =>
    if lenIs 0 (Value i) then Err "value required"
    else if lenIs 0 (Commitment i) then Err "commitment required"
    else if lenIs 0 (Signature i) then Err "signature required"
    else Ok tt
  end.

#[global] Instance canonical : Canonical t := {|
  toCanonical := ToCanonicalBytes; fromCanonical := FromCanonicalBytes |}.
#[global] Instance laws : CanonicalLaws t.
Proof.
  message_laws (fun i => lenOk (Value i) /\ lenOk (Commitment i) /\ lenOk (Signature i)
    /\ lenOk (Proofs i) /\ Forall lenOk (Proofs i) /\ lenOk (AdditionalReference i)
    /\ lenOk (AdditionalReferenceKey i))
    ToCanonicalBytes FromCanonicalBytes.
Defined.
End MintTransactionInput.

Module MintTransactionOutput.
Record t := mk {
  FrameNumber : bytes;
  Commitment : bytes;
  RecipientOutput : option RecipientBundle.t
}.

Definition ToCanonicalBytes (o : t) : result bytes :=
  recipientOutput ← writeOpt toCanonical (RecipientOutput o);
  Ok (writeU32 MintTransactionOutputType ++ writeBytes (FrameNumber o)
      ++ writeBytes (Commitment o) ++ recipientOutput).

Definition FromCanonicalBytes : bytes -> result t := runReader (
  expectType MintTransactionOutputType ;;
  frameNumber ← readBytes;
  commitment ← readBytes;
  recipientOutput ← readOpt fromCanonical;
  mret (mk frameNumber commitment recipientOutput)).

Definition Validate (o : option t) : result unit :=
  match o with
  | None => Err "nil mint transaction output"
  | Some o =>
    if lenIs 0 (Commitment o) then Err "commitment required"
    else match RecipientOutput o with
         | None => Ok tt
         | Some r => RecipientBundle.Validate (Some r)
         end
  end.

#[global] Instance canonical : Canonical t := {|
  toCanonical := ToCanonicalBytes; fromCanonical := FromCanonicalBytes |}.
#[global] Instance laws : CanonicalLaws t.
Proof.
  message_laws (fun o => lenOk (FrameNumber o) /\ lenOk (Commitment o)
    /\ embedsOpt (RecipientOutput o))
    ToCanonicalBytes FromCanonicalBytes.
Defined.
End MintTransactionOutput.

Module MintTransaction.
Record t := mk {
  Domain : bytes;
  Inputs : list MintTransactionInput.t;
  Outputs : list MintTransactionOutput.t;
  Fees : list bytes;
  RangeProof : bytes
}.

Definition ToCanonicalBytes (m : t) : result bytes :=
  inputs ← writeMsgs toCanonical (Inputs m);
  outputs ← writeMsgs toCanonical (Outputs m);
  Ok (writeU32 MintTransactionType ++ writeBytes (Domain m) ++ inputs ++ outputs
      ++ writeSeq writeBytes (Fees m) ++ writeBytes (RangeProof m)).

Definition FromCanonicalBytes : bytes -> result t := runReader (
  expectType MintTransactionType ;;
  domain ← readBytes;
  inputs ← readSeq (readMsg fromCanonical);
  outputs ← readSeq (readMsg fromCanonical);
  fees ← readSeq readBytes;
  rangeProof ← readBytes;
  mret (mk domain inputs outputs fees rangeProof)).

Definition Validate (m : option t) : result unit :=
  match m with
  | None => Err "nil mint transaction"
  | Some m =>
    if negb (lenIs 32 (Domain m)) then Err "invalid domain length"
    else if Z.of_nat (length (Inputs m)) =? 0 then Err "no inputs"
    else
      validateEach (fun i => MintTransactionInput.Validate (Some i)) (Inputs m) ;;
      if Z.of_nat (length (Outputs m)) =? 0 then Err "no outputs"
      else
        validateEach (fun o => MintTransactionOutput.Validate (Some o)) (Outputs m) ;;
        if negb (Z.of_nat (length (Fees m)) =? Z.of_nat (length (Outputs m)))
        then Err "fees count must match outputs count"
        else if lenIs 0 (RangeProof m) then Err "range proof required"
        else Ok tt
  end.

#[global] Instance canonical : Canonical t := {|
  toCanonical := ToCanonicalBytes; fromCanonical := FromCanonicalBytes |}.
#[global] Instance laws : CanonicalLaws t.
Proof.
  message_laws (fun m => lenOk (Domain m) /\ lenOk (Inputs m) /\ Forall embeds (Inputs m)
    /\ lenOk (Outputs m) /\ Forall embeds (Outputs m) /\ lenOk (Fees m) /\ Forall lenOk (Fees m)
    /\ lenOk (RangeProof m))
    ToCanonicalBytes FromCanonicalBytes.
Defined.
End MintTransaction.
