(* ===== verification/Compute.v ===== *)
(** * Compute messages (protobufs/compute.go)

    Codecs and Validate methods of the messages that deploy, execute and finalise
    compute intrinsics, and of the execution DAG.  Go strings are kept as their
    bytes. *)

From S2P Require Import Prelude Wire CanonicalTypes Keys.

(** The enumeration values of compute.proto. *)
Definition ExecutionContext_EXECUTION_CONTEXT_INTRINSIC : Z := 0.
Definition ExecutionContext_EXECUTION_CONTEXT_HYPERGRAPH : Z := 1.
Definition ExecutionContext_EXECUTION_CONTEXT_EXTRINSIC : Z := 2.

Module Application.
Record t := mk { Address : bytes; ExecutionContext : Z }.

Definition ToCanonicalBytes (a : t) : result bytes :=
  Ok (writeU32 ApplicationType ++ writeBytes (Address a) ++ writeU32 (ExecutionContext a)).

Definition FromCanonicalBytes : bytes -> result t := runReader (
  expectType ApplicationType ;;
  address ← readBytes;
  executionContext ← readI32;
  mret (mk address executionContext)).

Definition Validate (a : option t) : result unit :=
  match a with
  | None => Err "nil application"
  | Some a =>
    if negb (lenIs 0 (Address a)) && negb (lenIs 32 (Address a))
    then Err "invalid application address length"
    else if (ExecutionContext a =? ExecutionContext_EXECUTION_CONTEXT_INTRINSIC)
            || (ExecutionContext a =? ExecutionContext_EXECUTION_CONTEXT_HYPERGRAPH)
            || (ExecutionContext a =? ExecutionContext_EXECUTION_CONTEXT_EXTRINSIC)
    then Ok tt else Err "invalid execution context"
  end.

#[global] Instance canonical : Canonical t := {|
  toCanonical := ToCanonicalBytes; fromCanonical := FromCanonicalBytes |}.
#[global] Instance laws : CanonicalLaws t.
Proof.
  message_laws (fun a => lenOk (Address a) /\ is_i 32 (ExecutionContext a))
    ToCanonicalBytes FromCanonicalBytes.
Defined.
End Application.

Module IntrinsicExecutionInput.
Record t := mk { Address : bytes; Input : bytes }.

Definition ToCanonicalBytes (i : t) : result bytes :=
  Ok (writeU32 IntrinsicExecutionInputType ++ writeBytes (Address i) ++ writeBytes (Input i)).

Definition FromCanonicalBytes : bytes -> result t := runReader (
  expectType IntrinsicExecutionInputType ;;
  address ← readBytes;
  input ← readBytes;
  mret (mk address input)).

#[global] Instance canonical : Canonical t := {|
  toCanonical := ToCanonicalBytes; fromCanonical := FromCanonicalBytes |}.
#[global] Instance laws : CanonicalLaws t.
Proof.
  message_laws (fun i => lenOk (Address i) /\ lenOk (Input i))
    ToCanonicalBytes FromCanonicalBytes.
Defined.
End IntrinsicExecutionInput.

Module IntrinsicExecutionOutput.
Record t := mk { Address : bytes; Output : bytes; Proof_ : bytes }.

Definition ToCanonicalBytes (i : t) : result bytes :=
  Ok (writeU32 IntrinsicExecutionOutputType ++ writeBytes (Address i) ++ writeBytes (Output i)
      ++ writeBytes (Proof_ i)).

Definition FromCanonicalBytes : bytes -> result t := runReader (
  expectType IntrinsicExecutionOutputType ;;
  address ← readBytes;
  output ← readBytes;
  proof ← readBytes;
  mret (mk address output proof)).

#[global] Instance canonical : Canonical t := {|
  toCanonical := ToCanonicalBytes; fromCanonical := FromCanonicalBytes |}.
#[global] Instance laws : CanonicalLaws t.
Proof.
  message_laws (fun i => lenOk (Address i) /\ lenOk (Output i) /\ lenOk (Proof_ i))
    ToCanonicalBytes FromCanonicalBytes.
Defined.
End IntrinsicExecutionOutput.

Module ComputeConfiguration.
Record t := mk { ReadPublicKey : bytes; WritePublicKey : bytes; OwnerPublicKey : bytes }.

Definition ToCanonicalBytes (c : t) : result bytes :=
  Ok (writeU32 ComputeConfigurationType ++ writeBytes (ReadPublicKey c)
      ++ writeBytes (WritePublicKey c) ++ writeBytes (OwnerPublicKey c)).

Definition FromCanonicalBytes : bytes -> result t := runReader (
  expectType ComputeConfigurationType ;;
  readPublicKey ← readBytes;
  writePublicKey ← readBytes;
  ownerPublicKey ← readBytes;
  mret (mk readPublicKey writePublicKey ownerPublicKey)).

Definition Validate (c : option t) : result unit :=
  match c with
  | None => Err "nil compute intrinsic configuration"
  | Some c =>
    if negb (lenIs 57 (ReadPublicKey c))
    then Err "invalid read public key length (expected 57 bytes)"
    else if negb (lenIs 0 (WritePublicKey c)) && negb (lenIs 57 (WritePublicKey c))
    then Err "invalid write public key length (expected 57 bytes)"
    else if negb (lenIs 0 (OwnerPublicKey c)) && negb (lenIs 585 (OwnerPublicKey c))
    then Err "invalid owner public key length (expected 0 or 585 bytes for BLS48-581)"
    else Ok tt
  end.

#[global] Instance canonical : Canonical t := {|
  toCanonical := ToCanonicalBytes; fromCanonical := FromCanonicalBytes |}.
#[global] Instance laws : CanonicalLaws t.
Proof.
  message_laws (fun c => lenOk (ReadPublicKey c) /\ lenOk (WritePublicKey c)
    /\ lenOk (OwnerPublicKey c))
    ToCanonicalBytes FromCanonicalBytes.
Defined.
End ComputeConfiguration.

Module ComputeDeploy.
Record t := mk { Config : option ComputeConfiguration.t; RdfSchema : bytes }.

Definition ToCanonicalBytes (d : t) : result bytes :=
  config ← writeOpt toCanonical (Config d);
  Ok (writeU32 ComputeDeploymentType ++ config ++ writeBytes (RdfSchema d)).

Definition FromCanonicalBytes : bytes -> result t := runReader (
  expectType ComputeDeploymentType ;;
  config ← readOpt fromCanonical;
  rdfSchema ← readBytes;
  mret (mk config rdfSchema)).

Definition Validate (d : option t) : result unit :=
  match d with
  | None => Err "nil compute deploy"
  | Some d =>
    match Config d with
    | None => Err "nil configuration"
    | Some c => ComputeConfiguration.Validate (Some c)
    end
  end.

#[global] Instance canonical : Canonical t := {|
  toCanonical := ToCanonicalBytes; fromCanonical := FromCanonicalBytes |}.
#[global] Instance laws : CanonicalLaws t.
Proof.
  message_laws (fun d => embedsOpt (Config d) /\ lenOk (RdfSchema d))
    ToCanonicalBytes FromCanonicalBytes.
Defined.
End ComputeDeploy.

Module ComputeUpdate.
Record t := mk {
  Config : option ComputeConfiguration.t;
  RdfSchema : bytes;
  PublicKeySignatureBls48581 : option BLS48581AggregateSignature.t
}.

Definition ToCanonicalBytes (u : t) : result bytes :=
  config ← writeOpt toCanonical (Config u);
  publicKeySignatureBls48581 ← writeOpt toCanonical (PublicKeySignatureBls48581 u);
  Ok (writeU32 ComputeUpdateType ++ config ++ writeBytes (RdfSchema u)
      ++ publicKeySignatureBls48581).

Definition FromCanonicalBytes : bytes -> result t := runReader (
  expectType ComputeUpdateType ;;
  config ← readOpt fromCanonical;
  rdfSchema ← readBytes;
  publicKeySignatureBls48581 ← readOpt fromCanonical;
  mret (mk config rdfSchema publicKeySignatureBls48581)).

Definition Validate (u : option t) : result unit :=
  match u with
  | None => Err "nil compute update"
  | Some u =>
    if bool_decide (Config u = None) && lenIs 0 (RdfSchema u)
    then Err "configuration or schema can be null, but not both"
    else
      match Config u with
      | None => Ok tt
      | Some c => ComputeConfiguration.Validate (Some c)
      end ;;
      match PublicKeySignatureBls48581 u with
      | None => Err "public key signature is nil"
      | Some sig => BLS48581AggregateSignature.Validate (Some sig)
      end
  end.

#[global] Instance canonical : Canonical t := {|
  toCanonical := ToCanonicalBytes; fromCanonical := FromCanonicalBytes |}.
#[global] Instance laws : CanonicalLaws t.
Proof.
  message_laws (fun u => embedsOpt (Config u) /\ lenOk (RdfSchema u)
    /\ embedsOpt (PublicKeySignatureBls48581 u))
    ToCanonicalBytes FromCanonicalBytes.
Defined.
End ComputeUpdate.

Module CodeDeployment.
Record t := mk {
  Circuit : bytes;
  InputTypes : list bytes;
  OutputTypes : list bytes;
  Domain : bytes
}.

Definition ToCanonicalBytes (d : t) : result bytes :=
  domain ← writeFixed 32 "domain must be 32 bytes" (Domain d);
  Ok (writeU32 CodeDeploymentType ++ writeBytes (Circuit d) ++ writeSeq writeBytes (InputTypes d)
      ++ writeSeq writeBytes (OutputTypes d) ++ domain).

Definition FromCanonicalBytes : bytes -> result t := runReader (
  expectType CodeDeploymentType ;;
  circuit ← readBytes;
  inputTypes ← readSeq readBytes;
  outputTypes ← readSeq readBytes;
  domain ← bufRead 32;
  mret (mk circuit inputTypes outputTypes domain)).

Definition Validate (d : option t) : result unit :=
  match d with
  | None => Err "nil code deployment"
  | Some d =>
    if lenIs 0 (Circuit d) then Err "circuit required"
    else if negb (Z.of_nat (length (InputTypes d)) =? 2)
    then Err "exactly 2 input types required (garbler and evaluator)"
    else if negb (lenIs 32 (Domain d)) then Err "invalid domain length (expected 32 bytes)"
    else Ok tt
  end.

#[global] Instance canonical : Canonical t := {|
  toCanonical := ToCanonicalBytes; fromCanonical := FromCanonicalBytes |}.
#[global] Instance laws : CanonicalLaws t.
Proof.
  message_laws (fun d => lenOk (Circuit d) /\ lenOk (InputTypes d) /\ Forall lenOk (InputTypes d)
    /\ lenOk (OutputTypes d) /\ Forall lenOk (OutputTypes d) /\ length (Domain d) = 32%nat)
    ToCanonicalBytes FromCanonicalBytes.
Defined.
End CodeDeployment.

Module ExecuteOperation.
Record t := mk {
  Application : option Application.t;
  Identifier : bytes;
  Dependencies : list bytes
}.

Definition ToCanonicalBytes (e : t) : result bytes :=
  application ← writeReq Panic toCanonical (Application e);
  Ok (writeU32 ExecuteOperationType ++ application ++ writeBytes (Identifier e)
      ++ writeSeq writeBytes (Dependencies e)).

Definition FromCanonicalBytes : bytes -> result t := runReader (
  expectType ExecuteOperationType ;;
  application ← readReq fromCanonical;
  identifier ← readBytes;
  dependencies ← readSeq readBytes;
  mret (mk application identifier dependencies)).

Definition Validate (e : option t) : result unit :=
  match e with
  | None => Err "nil execute operation"
  | Some e =>
    match Application e with
    | None => Err "nil application"
    | Some a => Application.Validate (Some a)
    end ;;
    if lenIs 0 (Identifier e) then Err "identifier required" else Ok tt
  end.

#[global] Instance canonical : Canonical t := {|
  toCanonical := ToCanonicalBytes; fromCanonical := FromCanonicalBytes |}.
#[global] Instance laws : CanonicalLaws t.
Proof.
  message_laws (fun e => embedsReq (Application e) /\ lenOk (Identifier e)
    /\ lenOk (Dependencies e) /\ Forall lenOk (Dependencies e))
    ToCanonicalBytes FromCanonicalBytes.
Defined.
End ExecuteOperation.

Module CodeExecute.
Record t := mk {
  ProofOfPayment : list bytes;
  Domain : bytes;
  Rendezvous : bytes;
  ExecuteOperations : list ExecuteOperation.t
}.

Definition ToCanonicalBytes (c : t) : result bytes :=
  domain ← writeFixed 32 "domain must be 32 bytes" (Domain c);
  rendezvous ← writeFixed 32 "rendezvous must be 32 bytes" (Rendezvous c);
  executeOperations ← writeMsgs toCanonical (ExecuteOperations c);
  Ok (writeU32 CodeExecuteType ++ writeSeq writeBytes (ProofOfPayment c) ++ domain ++ rendezvous
      ++ executeOperations).

Definition FromCanonicalBytes : bytes -> result t := runReader (
  expectType CodeExecuteType ;;
  proofOfPayment ← readSeq readBytes;
  domain ← bufRead 32;
  rendezvous ← bufRead 32;
  executeOperations ← readSeq (readMsg fromCanonical);
  mret (mk proofOfPayment domain rendezvous executeOperations)).

Definition Validate (c : option t) : result unit :=
  match c with
  | None => Err "nil code execute"
  | Some c =>
    if negb (Z.of_nat (length (ProofOfPayment c)) =? 2)
    then Err "exactly 2 proof of payment entries required"
    else if negb (lenIs 32 (Domain c)) then Err "invalid domain length (expected 32 bytes)"
    else if negb (lenIs 32 (Rendezvous c)) then Err "invalid rendezvous length (expected 32 bytes)"
    else if Z.of_nat (length (ExecuteOperations c)) =? 0
    then Err "at least one execute operation required"
    else Ok tt
  end.

#[global] Instance canonical : Canonical t := {|
  toCanonical := ToCanonicalBytes; fromCanonical := FromCanonicalBytes |}.
#[global] Instance laws : CanonicalLaws t.
Proof.
  message_laws (fun c => lenOk (ProofOfPayment c) /\ Forall lenOk (ProofOfPayment c)
    /\ length (Domain c) = 32%nat /\ length (Rendezvous c) = 32%nat /\ lenOk (ExecuteOperations c)
    /\ Forall embeds (ExecuteOperations c))
    ToCanonicalBytes FromCanonicalBytes.
Defined.
End CodeExecute.

Module StateTransition.
Record t := mk {
  Domain : bytes;
  Address : bytes;
  OldValue : bytes;
  NewValue : bytes;
  Proof_ : bytes
}.

Definition ToCanonicalBytes (s : t) : result bytes :=
  domain ← writeFixed 32 "domain must be 32 bytes" (Domain s);
  Ok (writeU32 StateTransitionType ++ domain ++ writeBytes (Address s) ++ writeBytes (OldValue s)
      ++ writeBytes (NewValue s) ++ writeBytes (Proof_ s)).

Definition FromCanonicalBytes : bytes -> result t := runReader (
  expectType StateTransitionType ;;
  domain ← bufRead 32;
  address ← readBytes;
  oldValue ← readBytes;
  newValue ← readBytes;
  proof ← readBytes;
  mret (mk domain address oldValue newValue proof)).

Definition Validate (s : option t) : result unit :=
  match s with
  | None => Err "nil state transition"
  | Some s =>
    if negb (lenIs 32 (Domain s)) then Err "invalid domain length (expected 32 bytes)"
    else if lenIs 0 (Address s) then Err "address required"
    else Ok tt
  end.

#[global] Instance canonical : Canonical t := {|
  toCanonical := ToCanonicalBytes; fromCanonical := FromCanonicalBytes |}.
#[global] Instance laws : CanonicalLaws t.
Proof.
  message_laws (fun s => length (Domain s) = 32%nat /\ lenOk (Address s) /\ lenOk (OldValue s)
    /\ lenOk (NewValue s) /\ lenOk (Proof_ s))
    ToCanonicalBytes FromCanonicalBytes.
Defined.
End StateTransition.

Module ExecutionResult.
Record t := mk { OperationId : bytes; Success : bool; Output : bytes; Error : bytes }.

Definition ToCanonicalBytes (e : t) : result bytes :=
  Ok (writeU32 ExecutionResultType ++ writeBytes (OperationId e) ++ writeBool (Success e)
      ++ writeBytes (Output e) ++ writeBytes (Error e)).

Definition FromCanonicalBytes : bytes -> result t := runReader (
  expectType ExecutionResultType ;;
  operationId ← readBytes;
  success ← readBool;
  output ← readBytes;
  error ← readBytes;
  mret (mk operationId success output error)).

Definition Validate (e : option t) : result unit :=
  match e with
  | None => Err "nil execution result"
  | Some e =>
    if lenIs 0 (OperationId e) then Err "operation id required" else Ok tt
  end.

#[global] Instance canonical : Canonical t := {|
  toCanonical := ToCanonicalBytes; fromCanonical := FromCanonicalBytes |}.
#[global] Instance laws : CanonicalLaws t.
Proof.
  message_laws (fun e => lenOk (OperationId e) /\ lenOk (Output e) /\ lenOk (Error e))
    ToCanonicalBytes FromCanonicalBytes.
Defined.
End ExecutionResult.

Module CodeFinalize.
Record t := mk {
  Rendezvous : bytes;
  Results : list ExecutionResult.t;
  StateChanges : list StateTransition.t;
  ProofOfExecution : bytes;
  MessageOutput : bytes
}.

Definition ToCanonicalBytes (c : t) : result bytes :=
  rendezvous ← writeFixed 32 "rendezvous must be 32 bytes" (Rendezvous c);
  results ← writeMsgs toCanonical (Results c);
  stateChanges ← writeMsgs toCanonical (StateChanges c);
  Ok (writeU32 CodeFinalizeType ++ rendezvous ++ results ++ stateChanges
      ++ writeBytes (ProofOfExecution c) ++ writeBytes (MessageOutput c)).

Definition FromCanonicalBytes : bytes -> result t := runReader (
  expectType CodeFinalizeType ;;
  rendezvous ← bufRead 32;
  results ← readSeq (readMsg fromCanonical);
  stateChanges ← readSeq (readMsg fromCanonical);
  proofOfExecution ← readBytes;
  messageOutput ← readBytes;
  mret (mk rendezvous results stateChanges proofOfExecution messageOutput)).

Definition Validate (c : option t) : result unit :=
  match c with
  | None => Err "nil code finalize"
  | Some c =>
    if negb (lenIs 32 (Rendezvous c)) then Err "invalid rendezvous length (expected 32 bytes)"
    else Ok tt
  end.

#[global] Instance canonical : Canonical t := {|
  toCanonical := ToCanonicalBytes; fromCanonical := FromCanonicalBytes |}.
#[global] Instance laws : CanonicalLaws t.
Proof.
  message_laws (fun c => length (Rendezvous c) = 32%nat /\ lenOk (Results c)
    /\ Forall embeds (Results c) /\ lenOk (StateChanges c) /\ Forall embeds (StateChanges c)
    /\ lenOk (ProofOfExecution c) /\ lenOk (MessageOutput c))
    ToCanonicalBytes FromCanonicalBytes.
Defined.
End CodeFinalize.

Module ExecutionDependency.
Record t := mk { Identifier : bytes; ReadSet : list bytes; WriteSet : list bytes; Stage : Z }.

Definition ToCanonicalBytes (e : t) : result bytes :=
  Ok (writeU32 ExecutionDependencyType ++ writeBytes (Identifier e)
      ++ writeSeq writeBytes (ReadSet e) ++ writeSeq writeBytes (WriteSet e) ++ writeU32 (Stage e)).

Definition FromCanonicalBytes : bytes -> result t := runReader (
  expectType ExecutionDependencyType ;;
  identifier ← readBytes;
  readSet ← readSeq readBytes;
  writeSet ← readSeq readBytes;
  stage ← readU32;
  mret (mk identifier readSet writeSet stage)).

Definition Validate (e : option t) : result unit :=
  match e with
  | None => Err "nil execution dependency"
  | Some e =>
    if lenIs 0 (Identifier e) then Err "identifier required" else Ok tt
  end.

#[global] Instance canonical : Canonical t := {|
  toCanonical := ToCanonicalBytes; fromCanonical := FromCanonicalBytes |}.
#[global] Instance laws : CanonicalLaws t.
Proof.
  message_laws (fun e => lenOk (Identifier e) /\ lenOk (ReadSet e) /\ Forall lenOk (ReadSet e)
    /\ lenOk (WriteSet e) /\ Forall lenOk (WriteSet e) /\ is_u 32 (Stage e))
    ToCanonicalBytes FromCanonicalBytes.
Defined.
End ExecutionDependency.

Module ExecutionNode.
Record t := mk {
  Operation : option ExecuteOperation.t;
  ReadSet : list bytes;
  WriteSet : list bytes;
  Stage : Z;
  Visited : bool;
  InProgress : bool
}.

Definition ToCanonicalBytes (e : t) : result bytes :=
  operation ← writeOpt toCanonical (Operation e);
  Ok (writeU32 ExecutionNodeType ++ operation ++ writeSeq writeBytes (ReadSet e)
      ++ writeSeq writeBytes (WriteSet e) ++ writeU32 (Stage e) ++ writeBool (Visited e)
      ++ writeBool (InProgress e)).

Definition FromCanonicalBytes : bytes -> result t := runReader (
  expectType ExecutionNodeType ;;
  operation ← readOpt fromCanonical;
  readSet ← readSeq readBytes;
  writeSet ← readSeq readBytes;
  stage ← readU32;
  visited ← readBool;
  inProgress ← readBool;
  mret (mk operation readSet writeSet stage visited inProgress)).

Definition Validate (e : option t) : result unit :=
  match e with
  | None => Err "nil execution node"
  | Some e =>
    match Operation e with
    | None => Err "nil operation"
    | Some o => ExecuteOperation.Validate (Some o)
    end
  end.

#[global] Instance canonical : Canonical t := {|
  toCanonical := ToCanonicalBytes; fromCanonical := FromCanonicalBytes |}.
#[global] Instance laws : CanonicalLaws t.
Proof.
  message_laws (fun e => embedsOpt (Operation e) /\ lenOk (ReadSet e) /\ Forall lenOk (ReadSet e)
    /\ lenOk (WriteSet e) /\ Forall lenOk (WriteSet e) /\ is_u 32 (Stage e))
    ToCanonicalBytes FromCanonicalBytes.
Defined.
End ExecutionNode.

Module ExecutionStage.
Record t := mk { OperationIds : list bytes }.

Definition ToCanonicalBytes (e : t) : result bytes :=
  Ok (writeU32 ExecutionStageType ++ writeSeq writeBytes (OperationIds e)).

Definition FromCanonicalBytes : bytes -> result t := runReader (
  expectType ExecutionStageType ;;
  operationIds ← readSeq readBytes;
  mret (mk operationIds)).

Definition Validate (e : option t) : result unit :=
  match e with
  | None => Err "nil execution stage"
  | Some e =>
    Ok tt
  end.

#[global] Instance canonical : Canonical t := {|
  toCanonical := ToCanonicalBytes; fromCanonical := FromCanonicalBytes |}.
#[global] Instance laws : CanonicalLaws t.
Proof.
  message_laws (fun e => lenOk (OperationIds e) /\ Forall lenOk (OperationIds e))
    ToCanonicalBytes FromCanonicalBytes.
Defined.
End ExecutionStage.

Module ExecutionDAG.
Record t := mk { Operations : gmap bytes ExecutionNode.t; Stages : list ExecutionStage.t }.

(** [order] is the order in which the [range] loop visits the operations. *)
Definition ToCanonicalBytes (order : list (bytes * ExecutionNode.t)) (e : t) : result bytes :=
  entries ← writeEntries toCanonical order;
  stages ← writeMsgs toCanonical (Stages e);
  Ok (writeU32 ExecutionDAGType
      ++ (writeU32 (u32 (Z.of_nat (size (Operations e)))) ++ entries) ++ stages).

Definition FromCanonicalBytes : bytes -> result t := runReader (
  expectType ExecutionDAGType ;;
  entries ← readSeq (readEntry fromCanonical);
  stages ← readSeq (readMsg fromCanonical);
  mret (mk (addEntries entries) stages)).

Definition Validate (order : list (bytes * ExecutionNode.t)) (e : option t) : result unit :=
  match e with
  | None => Err "nil execution dag"
  | Some e =>
    validateEach (fun o => ExecutionNode.Validate (Some o.2)) order ;;
    validateEach (fun s => ExecutionStage.Validate (Some s)) (Stages e)
  end.
End ExecutionDAG.
