(* ===== verification/Messages.v ===== *)
(** * Requests, bundles and frames (protobufs/global.go)

    The union of all requests, the bundles that carry them and the two kinds of
    frame that carry bundles, with the round trip of a whole frame. *)

From S2P Require Import Prelude Wire CanonicalTypes Keys Global Frames Hypergraph Token Compute.

Module MessageRequest.
(** The cases of the protobuf oneof; the message inside a case is never nil. *)
Inductive request :=
| MessageRequest_Join (m : ProverJoin.t)
| MessageRequest_Leave (m : ProverLeave.t)
| MessageRequest_Pause (m : ProverPause.t)
| MessageRequest_Resume (m : ProverResume.t)
| MessageRequest_Confirm (m : ProverConfirm.t)
| MessageRequest_Reject (m : ProverReject.t)
| MessageRequest_Kick (m : ProverKick.t)
| MessageRequest_Update (m : ProverUpdate.t)
| MessageRequest_TokenDeploy (m : TokenDeploy.t)
| MessageRequest_TokenUpdate (m : TokenUpdate.t)
| MessageRequest_Transaction (m : Transaction.t)
| MessageRequest_PendingTransaction (m : PendingTransaction.t)
| MessageRequest_MintTransaction (m : MintTransaction.t)
| MessageRequest_HypergraphDeploy (m : HypergraphDeploy.t)
| MessageRequest_HypergraphUpdate (m : HypergraphUpdate.t)
| MessageRequest_VertexAdd (m : VertexAdd.t)
| MessageRequest_VertexRemove (m : VertexRemove.t)
| MessageRequest_HyperedgeAdd (m : HyperedgeAdd.t)
| MessageRequest_HyperedgeRemove (m : HyperedgeRemove.t)
| MessageRequest_ComputeDeploy (m : ComputeDeploy.t)
| MessageRequest_ComputeUpdate (m : ComputeUpdate.t)
| MessageRequest_CodeDeploy (m : CodeDeployment.t)
| MessageRequest_CodeExecute (m : CodeExecute.t)
| MessageRequest_CodeFinalize (m : CodeFinalize.t).

Record t := mk { Request : option request; Timestamp : Z }.

(** The encoder of the inner message, which starts with its own type prefix. *)
Definition innerBytes (r : request) : result bytes :=
  match r with
  | MessageRequest_Join m => ProverJoin.ToCanonicalBytes m
  | MessageRequest_Leave m => ProverLeave.ToCanonicalBytes m
  | MessageRequest_Pause m => ProverPause.ToCanonicalBytes m
  | MessageRequest_Resume m => ProverResume.ToCanonicalBytes m
  | MessageRequest_Confirm m => ProverConfirm.ToCanonicalBytes m
  | MessageRequest_Reject m => ProverReject.ToCanonicalBytes m
  | MessageRequest_Kick m => ProverKick.ToCanonicalBytes m
  | MessageRequest_Update m => ProverUpdate.ToCanonicalBytes m
  | MessageRequest_TokenDeploy m => TokenDeploy.ToCanonicalBytes m
  | MessageRequest_TokenUpdate m => TokenUpdate.ToCanonicalBytes m
  | MessageRequest_Transaction m => Transaction.ToCanonicalBytes m
  | MessageRequest_PendingTransaction m => PendingTransaction.ToCanonicalBytes m
  | MessageRequest_MintTransaction m => MintTransaction.ToCanonicalBytes m
  | MessageRequest_HypergraphDeploy m => HypergraphDeploy.ToCanonicalBytes m
  | MessageRequest_HypergraphUpdate m => HypergraphUpdate.ToCanonicalBytes m
  | MessageRequest_VertexAdd m => VertexAdd.ToCanonicalBytes m
  | MessageRequest_VertexRemove m => VertexRemove.ToCanonicalBytes m
  | MessageRequest_HyperedgeAdd m => HyperedgeAdd.ToCanonicalBytes m
  | MessageRequest_HyperedgeRemove m => HyperedgeRemove.ToCanonicalBytes m
  | MessageRequest_ComputeDeploy m => ComputeDeploy.ToCanonicalBytes m
  | MessageRequest_ComputeUpdate m => ComputeUpdate.ToCanonicalBytes m
  | MessageRequest_CodeDeploy m => CodeDeployment.ToCanonicalBytes m
  | MessageRequest_CodeExecute m => CodeExecute.ToCanonicalBytes m
  | MessageRequest_CodeFinalize m => CodeFinalize.ToCanonicalBytes m
  end.

(** The timestamp is not written. *)
Definition ToCanonicalBytes (m : t) : result bytes :=
  match Request m with
  | None => Err "unknown request type"
  | Some r => inner ← innerBytes r; Ok (writeU32 MessageRequestType ++ writeBytes inner)
  end.

(** The decoder picked by the type discriminator of the inner message. *)
Definition route (innerType : Z) (data : bytes) : result request :=
  if innerType =? ProverJoinType
  then m ← ProverJoin.FromCanonicalBytes data; Ok (MessageRequest_Join m)
  else if innerType =? ProverLeaveType
  then m ← ProverLeave.FromCanonicalBytes data; Ok (MessageRequest_Leave m)
  else if innerType =? ProverPauseType
  then m ← ProverPause.FromCanonicalBytes data; Ok (MessageRequest_Pause m)
  else if innerType =? ProverResumeType
  then m ← ProverResume.FromCanonicalBytes data; Ok (MessageRequest_Resume m)
  else if innerType =? ProverConfirmType
  then m ← ProverConfirm.FromCanonicalBytes data; Ok (MessageRequest_Confirm m)
  else if innerType =? ProverRejectType
  then m ← ProverReject.FromCanonicalBytes data; Ok (MessageRequest_Reject m)
  else if innerType =? ProverKickType
  then m ← ProverKick.FromCanonicalBytes data; Ok (MessageRequest_Kick m)
  else if innerType =? ProverUpdateType
  then m ← ProverUpdate.FromCanonicalBytes data; Ok (MessageRequest_Update m)
  else if innerType =? TokenDeploymentType
  then m ← TokenDeploy.FromCanonicalBytes data; Ok (MessageRequest_TokenDeploy m)
  else if innerType =? TokenUpdateType
  then m ← TokenUpdate.FromCanonicalBytes data; Ok (MessageRequest_TokenUpdate m)
  else if innerType =? TransactionType
  then m ← Transaction.FromCanonicalBytes data; Ok (MessageRequest_Transaction m)
  else if innerType =? PendingTransactionType
  then m ← PendingTransaction.FromCanonicalBytes data; Ok (MessageRequest_PendingTransaction m)
  else if innerType =? MintTransactionType
  then m ← MintTransaction.FromCanonicalBytes data; Ok (MessageRequest_MintTransaction m)
  else if innerType =? HypergraphDeploymentType
  then m ← HypergraphDeploy.FromCanonicalBytes data; Ok (MessageRequest_HypergraphDeploy m)
  else if innerType =? HypergraphUpdateType
  then m ← HypergraphUpdate.FromCanonicalBytes data; Ok (MessageRequest_HypergraphUpdate m)
  else if innerType =? VertexAddType
  then m ← VertexAdd.FromCanonicalBytes data; Ok (MessageRequest_VertexAdd m)
  else if innerType =? VertexRemoveType
  then m ← VertexRemove.FromCanonicalBytes data; Ok (MessageRequest_VertexRemove m)
  else if innerType =? HyperedgeAddType
  then m ← HyperedgeAdd.FromCanonicalBytes data; Ok (MessageRequest_HyperedgeAdd m)
  else if innerType =? HyperedgeRemoveType
  then m ← HyperedgeRemove.FromCanonicalBytes data; Ok (MessageRequest_HyperedgeRemove m)
  else if innerType =? ComputeDeploymentType
  then m ← ComputeDeploy.FromCanonicalBytes data; Ok (MessageRequest_ComputeDeploy m)
  else if innerType =? ComputeUpdateType
  then m ← ComputeUpdate.FromCanonicalBytes data; Ok (MessageRequest_ComputeUpdate m)
  else if innerType =? CodeDeploymentType
  then m ← CodeDeployment.FromCanonicalBytes data; Ok (MessageRequest_CodeDeploy m)
  else if innerType =? CodeExecuteType
  then m ← CodeExecute.FromCanonicalBytes data; Ok (MessageRequest_CodeExecute m)
  else if innerType =? CodeFinalizeType
  then m ← CodeFinalize.FromCanonicalBytes data; Ok (MessageRequest_CodeFinalize m)
  else Err "unknown message type".

Definition FromCanonicalBytes : bytes -> result t := runReader (
  expectType MessageRequestType ;;
  dataLen ← readU32;
  if dataLen =? 0 then fail "empty message request"
  else
    dataBytes ← bufRead (Z.to_nat dataLen);
    if (length dataBytes <? 4)%nat then fail "message too short to contain type discriminator"
    else
      r ← lift (route (be_val (take 4 dataBytes)) dataBytes);
      mret (mk (Some r) 0)).

Definition validateRequest (r : request) : result unit :=
  match r with
  | MessageRequest_Join m => ProverJoin.Validate (Some m)
  | MessageRequest_Leave m => ProverLeave.Validate (Some m)
  | MessageRequest_Pause m => ProverPause.Validate (Some m)
  | MessageRequest_Resume m => ProverResume.Validate (Some m)
  | MessageRequest_Confirm m => ProverConfirm.Validate (Some m)
  | MessageRequest_Reject m => ProverReject.Validate (Some m)
  | MessageRequest_Kick m => ProverKick.Validate (Some m)
  | MessageRequest_Update m => ProverUpdate.Validate (Some m)
  | MessageRequest_TokenDeploy m => TokenDeploy.Validate (Some m)
  | MessageRequest_TokenUpdate m => TokenUpdate.Validate (Some m)
  | MessageRequest_Transaction m => Transaction.Validate (Some m)
  | MessageRequest_PendingTransaction m => PendingTransaction.Validate (Some m)
  | MessageRequest_MintTransaction m => MintTransaction.Validate (Some m)
  | MessageRequest_HypergraphDeploy m => HypergraphDeploy.Validate (Some m)
  | MessageRequest_HypergraphUpdate m => HypergraphUpdate.Validate (Some m)
  | MessageRequest_VertexAdd m => VertexAdd.Validate (Some m)
  | MessageRequest_VertexRemove m => VertexRemove.Validate (Some m)
  | MessageRequest_HyperedgeAdd m => HyperedgeAdd.Validate (Some m)
  | MessageRequest_HyperedgeRemove m => HyperedgeRemove.Validate (Some m)
  | MessageRequest_ComputeDeploy m => ComputeDeploy.Validate (Some m)
  | MessageRequest_ComputeUpdate m => ComputeUpdate.Validate (Some m)
  | MessageRequest_CodeDeploy m => CodeDeployment.Validate (Some m)
  | MessageRequest_CodeExecute m => CodeExecute.Validate (Some m)
  | MessageRequest_CodeFinalize m => CodeFinalize.Validate (Some m)
  end.

Definition Validate (m : option t) : result unit :=
  match m with
  | None => Err "nil message request"
  | Some m => match Request m with None => Ok tt | Some r => validateRequest r end
  end.

(** *** The union round trip *)

Definition embedsRequest (r : request) : Prop :=
  match r with
  | MessageRequest_Join m => embeds m
  | MessageRequest_Leave m => embeds m
  | MessageRequest_Pause m => embeds m
  | MessageRequest_Resume m => embeds m
  | MessageRequest_Confirm m => embeds m
  | MessageRequest_Reject m => embeds m
  | MessageRequest_Kick m => embeds m
  | MessageRequest_Update m => embeds m
  | MessageRequest_TokenDeploy m => embeds m
  | MessageRequest_TokenUpdate m => embeds m
  | MessageRequest_Transaction m => embeds m
  | MessageRequest_PendingTransaction m => embeds m
  | MessageRequest_MintTransaction m => embeds m
  | MessageRequest_HypergraphDeploy m => embeds m
  | MessageRequest_HypergraphUpdate m => embeds m
  | MessageRequest_VertexAdd m => embeds m
  | MessageRequest_VertexRemove m => embeds m
  | MessageRequest_HyperedgeAdd m => embeds m
  | MessageRequest_HyperedgeRemove m => embeds m
  | MessageRequest_ComputeDeploy m => embeds m
  | MessageRequest_ComputeUpdate m => embeds m
  | MessageRequest_CodeDeploy m => embeds m
  | MessageRequest_CodeExecute m => embeds m
  | MessageRequest_CodeFinalize m => embeds m
  end.

Definition typeOf (r : request) : Z :=
  match r with
  | MessageRequest_Join _ => ProverJoinType
  | MessageRequest_Leave _ => ProverLeaveType
  | MessageRequest_Pause _ => ProverPauseType
  | MessageRequest_Resume _ => ProverResumeType
  | MessageRequest_Confirm _ => ProverConfirmType
  | MessageRequest_Reject _ => ProverRejectType
  | MessageRequest_Kick _ => ProverKickType
  | MessageRequest_Update _ => ProverUpdateType
  | MessageRequest_TokenDeploy _ => TokenDeploymentType
  | MessageRequest_TokenUpdate _ => TokenUpdateType
  | MessageRequest_Transaction _ => TransactionType
  | MessageRequest_PendingTransaction _ => PendingTransactionType
  | MessageRequest_MintTransaction _ => MintTransactionType
  | MessageRequest_HypergraphDeploy _ => HypergraphDeploymentType
  | MessageRequest_HypergraphUpdate _ => HypergraphUpdateType
  | MessageRequest_VertexAdd _ => VertexAddType
  | MessageRequest_VertexRemove _ => VertexRemoveType
  | MessageRequest_HyperedgeAdd _ => HyperedgeAddType
  | MessageRequest_HyperedgeRemove _ => HyperedgeRemoveType
  | MessageRequest_ComputeDeploy _ => ComputeDeploymentType
  | MessageRequest_ComputeUpdate _ => ComputeUpdateType
  | MessageRequest_CodeDeploy _ => CodeDeploymentType
  | MessageRequest_CodeExecute _ => CodeExecuteType
  | MessageRequest_CodeFinalize _ => CodeFinalizeType
  end.

Lemma innerBytes_encodes r : embedsRequest r -> is_Ok (innerBytes r).
Proof. destruct r; intros [Hf _]; exact (canonical_encodes _ Hf). Qed.

Lemma innerBytes_lenOk r bs : embedsRequest r -> innerBytes r = Ok bs -> lenOk bs.
Proof. destruct r; intros [_ Hl]; apply Hl. Qed.

(** Every inner encoder starts with the type the router dispatches on. *)
Lemma innerBytes_typed r bs :
  innerBytes r = Ok bs -> exists tl, bs = writeU32 (typeOf r) ++ tl.
Proof.
  destruct r; intros E; unfold innerBytes in E;
    match type of E with ?f _ = _ => unfold f in E end; invert_encoder E; by eexists.
Qed.

(** Evaluates the comparisons of a switch on constants. *)
Ltac run_switch :=
  repeat match goal with
  | |- context [?a =? ?b] =>
    let v := eval vm_compute in (a =? b) in
    lazymatch v with true => idtac | false => idtac end;
    change (a =? b) with v; cbv iota
  end.

Lemma route_decodes r bs :
  embedsRequest r -> innerBytes r = Ok bs -> route (typeOf r) bs = Ok r.
Proof.
  destruct r; intros [Hf _] E; pose proof (canonical_exact _ bs Hf E) as D;
    unfold route, typeOf; run_switch;
    match goal with |- (?x ≫= _) = Ok (_ ?m) => change (x = Ok m) in D end; by rewrite D.
Qed.

Lemma typeOf_u32 r : is_u 32 (typeOf r).
Proof. destruct r; by_decide. Qed.

(** The timestamp of a request is not on the wire: the requests that come back as they
    were are those without one. *)
Definition fitsRequest (m : t) : Prop :=
  match Request m with None => False | Some r => embedsRequest r end /\ Timestamp m = 0.

(** A request without its timestamp, which the encoder does not read. *)
Definition untimed (m : t) : t := mk (Request m) 0.

(** The request comes back without its timestamp. *)
Lemma FromCanonicalBytes_exact (r : request) (ts : Z) bs rest :
  embedsRequest r -> ToCanonicalBytes (mk (Some r) ts) = Ok bs ->
  FromCanonicalBytes (bs ++ rest) = Ok (mk (Some r) 0).
Proof.
  intros He E. unfold ToCanonicalBytes in E. cbn [Request] in E.
  apply result_map_Ok in E as (inner & E & ->).
  pose proof (innerBytes_lenOk r inner He E) as Hl.
  destruct (innerBytes_typed r inner E) as [tl Ht].
  destruct (lenOk_u32 inner Hl) as [E32 Hu].
  assert (length inner = 4 + length tl)%nat as Hlen by (rewrite Ht, length_app; done).
  assert (be_val (take 4 inner) = typeOf r) as Hty.
  { rewrite Ht, take_app_le by done. change (be_val (writeU32 (typeOf r)) = typeOf r).
    unfold writeU32. rewrite be_val_be. apply Z.mod_small, typeOf_u32. }
  apply runReader_parses. eapply parses_bind; [solve [eauto with wire]|].
  unfold writeBytes. rewrite E32. eapply parses_bind; [by apply parses_u32|].
  destruct (Z.eqb_spec (Z.of_nat (length inner)) 0) as [Hz|_]; [lia|].
  rewrite Nat2Z.id. eapply parses_bind_nil; [intros r'; apply bufRead_app|].
  destruct (Nat.ltb_spec (length inner) 4) as [Hs|_]; [lia|].
  eapply (parses_last _ (fun r => mk (Some r) 0)), parses_lift. rewrite Hty. by apply route_decodes.
Qed.

#[global] Instance canonical : Canonical t := {|
  toCanonical := ToCanonicalBytes; fromCanonical := FromCanonicalBytes |}.
#[global] Instance laws : CanonicalLaws t.
Proof.
  refine {| fits := fitsRequest |}.
  - intros [[r|] ts] [He _]; [|done]. destruct (innerBytes_encodes r He) as [b E].
    change (is_Ok (ToCanonicalBytes (mk (Some r) ts))). unfold ToCanonicalBytes. cbn [Request].
    rewrite E. by eexists.
  - intros [[r|] ts] bs [He Ht] E rest; [|done]. cbn in Ht. subst ts.
    by apply (FromCanonicalBytes_exact r 0).
  - intros [[r|] ts] bs E; change (ToCanonicalBytes (mk (Some r) ts) = Ok bs) in E
      || change (ToCanonicalBytes (mk None ts) = Ok bs) in E; [|done].
    unfold ToCanonicalBytes in E. cbn [Request] in E. invert_encoder E. apply writeU32_nonempty.
Defined.
End MessageRequest.

Module MessageBundle.
(** A nil request is kept, as a zero length. *)
Record t := mk { Requests : list (option MessageRequest.t); Timestamp : Z }.

Fixpoint writeRequests (rs : list (option MessageRequest.t)) : result bytes :=
  match rs with
  | [] => Ok []
  | r :: rs => b ← writeOpt toCanonical r; bs ← writeRequests rs; Ok (b ++ bs)
  end.

Definition ToCanonicalBytes (m : t) : result bytes :=
  requests ← writeRequests (Requests m);
  Ok (writeU32 MessageBundleType
      ++ (writeU32 (u32 (Z.of_nat (length (Requests m)))) ++ requests) ++ writeU64 (Timestamp m)).

Definition FromCanonicalBytes : bytes -> result t := runReader (
  expectType MessageBundleType ;;
  requests ← readSeq (readOpt fromCanonical);
  timestamp ← readI64;
  mret (mk requests timestamp)).

Definition Validate (m : option t) : result unit :=
  match m with
  | None => Err "nil message bundle"
  | Some m =>
    validateEach (fun r : option MessageRequest.t =>
      match r with None => Ok tt | Some r => MessageRequest.Validate (Some r) end) (Requests m) ;;
    if Timestamp m =? 0 then Err "timestamp required" else Ok tt
  end.

Lemma parses_requests rs b :
  Forall embedsOpt rs -> writeRequests rs = Ok b ->
  parses (readMany (readOpt fromCanonical) (length rs)) b rs.
Proof.
  intros Hr. revert b. induction Hr as [|r rs Hr _ IH]; intros b E; cbn [writeRequests] in E.
  { apply (inj Ok) in E as <-. apply parses_ret. }
  apply result_bind_Ok in E as (b1 & E1 & E). apply result_map_Ok in E as (b2 & E2 & ->).
  eapply parses_bind; [by apply parses_opt|]. eapply parses_last. by apply IH.
Qed.

Lemma parses_request_seq rs b :
  lenOk rs -> Forall embedsOpt rs -> writeRequests rs = Ok b ->
  parses (readSeq (readOpt fromCanonical)) (writeU32 (u32 (Z.of_nat (length rs))) ++ b) rs.
Proof.
  intros Hl Hr E. destruct (lenOk_u32 rs Hl) as [-> Hu].
  eapply parses_bind; [by apply parses_u32|]. rewrite Nat2Z.id. by apply parses_requests.
Qed.

Lemma writeRequests_encodes rs : Forall embedsOpt rs -> is_Ok (writeRequests rs).
Proof.
  induction 1 as [|r rs Hr _ [b E]]; [by eexists|]. cbn [writeRequests].
  destruct (writeOpt_encodes r Hr) as [b' ->]. cbn [mbind result_bind]. rewrite E. by eexists.
Qed.
#[export] Hint Resolve parses_request_seq writeRequests_encodes : wire.

#[global] Instance canonical : Canonical t := {|
  toCanonical := ToCanonicalBytes; fromCanonical := FromCanonicalBytes |}.
#[global] Instance laws : CanonicalLaws t.
Proof.
  message_laws (fun m => lenOk (Requests m) /\ Forall embedsOpt (Requests m) /\ is_i 64 (Timestamp m))
    ToCanonicalBytes FromCanonicalBytes.
Defined.

Definition untimed (m : t) : t := mk (map (option_map MessageRequest.untimed) (Requests m)) (Timestamp m).

Lemma bundle_untimed m : ToCanonicalBytes (untimed m) = ToCanonicalBytes m.
Proof.
  unfold ToCanonicalBytes, untimed. cbn [Requests Timestamp]. rewrite length_map. f_equal.
  induction (Requests m) as [|[r|] rs IH]; [done|..]; cbn [map option_map writeRequests]; by rewrite IH.
Qed.

Lemma untimed_all rs : writeMsgs toCanonical (map untimed rs) = writeMsgs toCanonical rs.
Proof.
  unfold writeMsgs. rewrite length_map. f_equal. induction rs as [|m rs IH]; [done|].
  cbn [map writeAll]. rewrite IH. cbn [toCanonical canonical]. by rewrite bundle_untimed.
Qed.
End MessageBundle.

Module GlobalFrame.
Record t := mk { Header : option GlobalFrameHeader.t; Requests : list MessageBundle.t }.

Definition ToCanonicalBytes (g : t) : result bytes :=
  header ← writeOpt toCanonical (Header g);
  requests ← writeMsgs toCanonical (Requests g);
  Ok (writeU32 GlobalFrameType ++ header ++ requests).

Definition FromCanonicalBytes : bytes -> result t := runReader (
  expectType GlobalFrameType ;;
  header ← readOpt fromCanonical;
  requests ← readSeq (readMsg fromCanonical);
  mret (mk header requests)).

Definition Validate (g : option t) : result unit :=
  match g with
  | None => Err "nil global frame"
  | Some g =>
    match Header g with
    | None => Err "missing header"
    | Some h => GlobalFrameHeader.Validate (Some h)
    end ;;
    validateEach (fun r => MessageBundle.Validate (Some r)) (Requests g)
  end.

#[global] Instance canonical : Canonical t := {|
  toCanonical := ToCanonicalBytes; fromCanonical := FromCanonicalBytes |}.
#[global] Instance laws : CanonicalLaws t.
Proof.
  message_laws (fun g => embedsOpt (Header g) /\ lenOk (Requests g) /\ Forall embeds (Requests g))
    ToCanonicalBytes FromCanonicalBytes.
Defined.

Definition untimed (g : t) : t := mk (Header g) (map MessageBundle.untimed (Requests g)).

Lemma frame_untimed g : ToCanonicalBytes (untimed g) = ToCanonicalBytes g.
Proof. unfold ToCanonicalBytes, untimed. cbn [Header Requests]. by rewrite MessageBundle.untimed_all. Qed.
End GlobalFrame.

Module AppShardFrame.
Record t := mk { Header : option FrameHeader.t; Requests : list MessageBundle.t }.

Definition ToCanonicalBytes (a : t) : result bytes :=
  header ← writeOpt toCanonical (Header a);
  requests ← writeMsgs toCanonical (Requests a);
  Ok (writeU32 AppShardFrameType ++ header ++ requests).

Definition FromCanonicalBytes : bytes -> result t := runReader (
  expectType AppShardFrameType ;;
  header ← readOpt fromCanonical;
  requests ← readSeq (readMsg fromCanonical);
  mret (mk header requests)).

(** The requests are not validated here. *)
Definition Validate (a : option t) : result unit :=
  match a with
  | None => Err "nil app shard frame"
  | Some a =>
    match Header a with
    | None => Err "missing header"
    | Some h => FrameHeader.Validate (Some h)
    end
  end.

#[global] Instance canonical : Canonical t := {|
  toCanonical := ToCanonicalBytes; fromCanonical := FromCanonicalBytes |}.
#[global] Instance laws : CanonicalLaws t.
Proof.
  message_laws (fun a => embedsOpt (Header a) /\ lenOk (Requests a) /\ Forall embeds (Requests a))
    ToCanonicalBytes FromCanonicalBytes.
Defined.

Definition untimed (a : t) : t := mk (Header a) (map MessageBundle.untimed (Requests a)).

Lemma shard_untimed a : ToCanonicalBytes (untimed a) = ToCanonicalBytes a.
Proof. unfold ToCanonicalBytes, untimed. cbn [Header Requests]. by rewrite MessageBundle.untimed_all. Qed.
End AppShardFrame.

(** ** Properties *)

(** C7: Whole frames survive the wire but for the timestamps of their requests.  A
    global frame, and an app shard frame, whose parts fit their length prefixes
    encodes, with every bundle and every kind of request inside; from these bytes,
    whatever follows them, the frame is decoded with the timestamps of the requests
    set to zero; and a frame whose parts fit has the same bytes only if it differs
    in nothing but such timestamps. *)
Theorem frames_roundtrip (g : GlobalFrame.t) (a : AppShardFrame.t) :
  fits (GlobalFrame.untimed g) -> fits (AppShardFrame.untimed a) ->
  (exists bs, GlobalFrame.ToCanonicalBytes g = Ok bs
     /\ (forall rest, GlobalFrame.FromCanonicalBytes (bs ++ rest) = Ok (GlobalFrame.untimed g))
     /\ forall g', fits (GlobalFrame.untimed g') -> GlobalFrame.ToCanonicalBytes g' = Ok bs ->
          GlobalFrame.untimed g' = GlobalFrame.untimed g)
  /\ (exists bs, AppShardFrame.ToCanonicalBytes a = Ok bs
        /\ (forall rest, AppShardFrame.FromCanonicalBytes (bs ++ rest) = Ok (AppShardFrame.untimed a))
        /\ forall a', fits (AppShardFrame.untimed a') -> AppShardFrame.ToCanonicalBytes a' = Ok bs ->
             AppShardFrame.untimed a' = AppShardFrame.untimed a).
Proof.
  intros Hg Ha. split.
  - destruct (canonical_codec _ Hg) as (bs & E & D & U). exists bs. rewrite <- (GlobalFrame.frame_untimed g).
    split_and!; [done..|]. intros g' Hg' E'. apply U; [done|]. by rewrite <- E', <- (GlobalFrame.frame_untimed g').
  - destruct (canonical_codec _ Ha) as (bs & E & D & U). exists bs. rewrite <- (AppShardFrame.shard_untimed a).
    split_and!; [done..|]. intros a' Ha' E'. apply U; [done|]. by rewrite <- E', <- (AppShardFrame.shard_untimed a').
Qed.

(** Each of the 24 kinds of request survives the wire inside its envelope,
    which finds the decoder by the inner type prefix; but the timestamp of the
    envelope is lost. *)
Theorem message_request_roundtrip (r : MessageRequest.request) (timestamp : Z) :
  MessageRequest.embedsRequest r ->
  exists bs, MessageRequest.ToCanonicalBytes (MessageRequest.mk (Some r) timestamp) = Ok bs
    /\ forall rest, MessageRequest.FromCanonicalBytes (bs ++ rest)
                    = Ok (MessageRequest.mk (Some r) 0).
Proof.
  intros He. destruct (MessageRequest.innerBytes_encodes r He) as [b E].
  assert (exists bs, MessageRequest.ToCanonicalBytes (MessageRequest.mk (Some r) timestamp) = Ok bs)
    as [bs Eb].
  { unfold MessageRequest.ToCanonicalBytes. cbn [MessageRequest.Request]. rewrite E. by eexists. }
  exists bs. split; [done|]. intros rest. by eapply MessageRequest.FromCanonicalBytes_exact.
Qed.

Lemma route_kind ty data r : MessageRequest.route ty data = Ok r -> ty = MessageRequest.typeOf r.
Proof.
  unfold MessageRequest.route. intros E.
  repeat match type of E with
  | (if ?a =? ?b then _ else _) = _ =>
    destruct (Z.eqb_spec a b) as [->|_];
    [by apply result_map_Ok in E as (? & _ & ->)|]
  end. done.
Qed.

(** A request is never taken for one of another kind: if the router accepts the
    bytes of a request at all, what it returns is of the kind that was encoded, also
    when the request does not fit its length prefixes. *)
Theorem request_kind_preserved (r r' : MessageRequest.request) (bs : bytes) :
  MessageRequest.innerBytes r = Ok bs ->
  MessageRequest.route (be_val (take 4 bs)) bs = Ok r' ->
  MessageRequest.typeOf r' = MessageRequest.typeOf r.
Proof.
  intros E Er. apply route_kind in Er as <-.
  destruct (MessageRequest.innerBytes_typed r bs E) as [tl ->].
  rewrite take_app_le by done. rewrite (take_ge (writeU32 _)) by done.
  unfold writeU32. rewrite be_val_be. apply Z.mod_small, MessageRequest.typeOf_u32.
Qed.

(** Validate accepts a frame with a request that has no case set, and such a
    frame cannot be encoded. *)
Theorem empty_request_unencodable (h : GlobalFrameHeader.t) (ts bundleTs : Z) (bs : bytes) :
  GlobalFrameHeader.Validate (Some h) = Ok tt -> bundleTs <> 0 ->
  let g := GlobalFrame.mk (Some h)
             [MessageBundle.mk [Some (MessageRequest.mk None ts)] bundleTs] in
  GlobalFrame.Validate (Some g) = Ok tt /\ GlobalFrame.ToCanonicalBytes g <> Ok bs.
Proof.
  intros Hh Ht g. split.
  - unfold GlobalFrame.Validate. cbn [g GlobalFrame.Header]. rewrite Hh. cbn.
    destruct (Z.eqb_spec bundleTs 0); done.
  - unfold GlobalFrame.ToCanonicalBytes. intros E.
    apply result_bind_Ok in E as (? & _ & E). apply result_bind_Ok in E as (? & E & _).
    cbn in E. done.
Qed.

(** ** Witnesses *)

Definition demoAlloc : MessageRequest.request :=
  MessageRequest.MessageRequest_VertexAdd
    (VertexAdd.mk (replicate 32 Byte.x01) (replicate 32 Byte.x02) [Byte.x03] [Byte.x04]).
Definition demoHeader : GlobalFrameHeader.t :=
  GlobalFrameHeader.mk 5 1700000000000 50000 (replicate 516 Byte.x01) (replicate 32 Byte.x02)
    (replicate 256 (replicate 64 Byte.x03)) (replicate 64 Byte.x04)
    (Some (BLS48581AggregateSignature.mk [] None [])).
Definition demoFrame : GlobalFrame.t :=
  GlobalFrame.mk None
    [MessageBundle.mk [Some (MessageRequest.mk (Some demoAlloc) 1699999999000); None] 1700000000000].
Definition demoShardFrame : AppShardFrame.t :=
  AppShardFrame.mk None (GlobalFrame.Requests demoFrame).

Lemma demoAlloc_embeds : MessageRequest.embedsRequest demoAlloc.
Proof. apply embeds_run; [split_and!; by_decide|vm_compute; reflexivity]. Qed.

Lemma demoRequests_fit : Forall embeds (GlobalFrame.Requests (GlobalFrame.untimed demoFrame)).
Proof.
  constructor; [|constructor]. apply embeds_run; [|vm_compute; reflexivity].
  split_and!; try by_decide. constructor; [|constructor; [exact I|constructor]].
  apply embeds_run; [|vm_compute; reflexivity]. split; [exact demoAlloc_embeds|done].
Qed.

Lemma frames_roundtrip_witness :
  (exists bs, GlobalFrame.ToCanonicalBytes demoFrame = Ok bs
     /\ GlobalFrame.FromCanonicalBytes bs = Ok (GlobalFrame.untimed demoFrame))
  /\ (exists bs, AppShardFrame.ToCanonicalBytes demoShardFrame = Ok bs
        /\ AppShardFrame.FromCanonicalBytes bs = Ok (AppShardFrame.untimed demoShardFrame)).
Proof.
  destruct (frames_roundtrip demoFrame demoShardFrame) as [(b1 & E1 & D1 & _) (b2 & E2 & D2 & _)].
  - split_and!; [exact I|by_decide|exact demoRequests_fit].
  - split_and!; [exact I|by_decide|exact demoRequests_fit].
  - specialize (D1 []). specialize (D2 []). rewrite app_nil_r in D1, D2.
    split; [by exists b1|by exists b2].
Defined.

Lemma message_request_roundtrip_witness :
  exists bs, MessageRequest.ToCanonicalBytes (MessageRequest.mk (Some demoAlloc) 12) = Ok bs
    /\ forall rest, MessageRequest.FromCanonicalBytes (bs ++ rest)
                    = Ok (MessageRequest.mk (Some demoAlloc) 0).
Proof. apply message_request_roundtrip, demoAlloc_embeds. Defined.

Lemma request_kind_preserved_witness :
  exists bs r', MessageRequest.innerBytes demoAlloc = Ok bs
    /\ MessageRequest.route (be_val (take 4 bs)) bs = Ok r'
    /\ MessageRequest.typeOf r' = MessageRequest.typeOf demoAlloc.
Proof.
  eexists _, demoAlloc. split; [vm_compute; reflexivity|]. split; [vm_compute; reflexivity|].
  eapply (request_kind_preserved demoAlloc); [vm_compute; reflexivity|vm_compute; reflexivity].
Defined.

Lemma empty_request_unencodable_witness :
  GlobalFrame.ToCanonicalBytes
    (GlobalFrame.mk (Some demoHeader) [MessageBundle.mk [Some (MessageRequest.mk None 3)] 1]) <> Ok [].
Proof.
  apply (empty_request_unencodable demoHeader 3 1 []); [vm_compute; reflexivity|discriminate].
Defined.
