(* ===== verification/Difficulty.v ===== *)
(** * The difficulty adjuster (node/consensus/difficulty)

    AsertDifficultyAdjuster: the ASERTi3-2d exponential in 64-bit arithmetic, with
    every wrap-around written out. *)

From S2P Require Import Prelude.

Record AsertDifficultyAdjuster := mkAdjuster {
  anchorFrameNumber : Z;
  anchorParentTime : Z;
  anchorDifficulty : Z
}.

Definition IDEAL_FRAME_TIME : Z := 10000.
Definition HALF_LIFE : Z := 7200000.
Definition radix : Z := Z.shiftl 1 16.
Definition MaxUint64 : Z := 2 ^ 64 - 1.

(** The exponent in Q16, from the wrapped frame and time differences. *)
Definition exponentOf (a : AsertDifficultyAdjuster) (currentFrameNumber currentTime : Z) : Z :=
  let frameNumberDelta := i64 (u64 (currentFrameNumber - anchorFrameNumber a)) in
  let timeDelta := i64 (currentTime - anchorParentTime a) in
  let ahead := i64 (timeDelta - i64 (IDEAL_FRAME_TIME * i64 (frameNumberDelta + 1))) in
  i64 (Z.quot (i64 (- i64 (ahead * radix))) HALF_LIFE).

(** 2^(frac/65536) in Q16, by a cubic polynomial. *)
Definition factorOf (frac : Z) : Z :=
  u64 (65536 + Z.shiftr (u64 (u64 (u64 (u64 (195766423245049 * frac)
                                       + u64 (u64 (971821376 * frac) * frac))
                                  + u64 (u64 (u64 (5127 * frac) * frac) * frac))
                             + Z.shiftl 1 47)) 48).

(** What follows from the exponent: scaling, clamping at 50000. *)
Definition scaledDifficulty (difficulty exponent : Z) : Z :=
  let shifts := Z.shiftr exponent 16 in
  let frac := Z.land exponent 65535 in
  let scaled := u64 (difficulty * factorOf frac) in
  if (0 <=? shifts) && (48 <? shifts) then MaxUint64
  else
    let scaled := if shifts <? 0 then Z.shiftr scaled (- shifts) else u64 (Z.shiftl scaled shifts) in
    let scaled := Z.shiftr scaled 16 in
    if scaled <? 50000 then 50000 else scaled.

Definition GetNextDifficulty (a : AsertDifficultyAdjuster) (currentFrameNumber currentTime : Z) : Z :=
  if anchorDifficulty a =? 0 then 50000
  else scaledDifficulty (anchorDifficulty a) (exponentOf a currentFrameNumber currentTime).

(** ** The polynomial *)

Definition poly (x : Z) : Z := 195766423245049 * x + 971821376 * x * x + 5127 * x * x * x + 2 ^ 47.

Lemma poly_mono x y : 0 <= x <= y -> poly x <= poly y.
Proof.
  intros H. assert (x * x <= y * y) as H2 by nia.
  assert (x * x * x <= y * y * y) as H3 by (apply Z.mul_le_mono_nonneg; nia). unfold poly. lia.
Qed.

Lemma poly_range x : 0 <= x < 65536 -> 0 <= poly x < 2 ^ 64.
Proof.
  intros Hx. split; [transitivity (poly 0); [by vm_compute|apply poly_mono; lia]|].
  eapply Z.le_lt_trans; [apply (poly_mono x 65535); lia|]. by vm_compute.
Qed.

(** No product or sum of the polynomial exceeds 64 bits, although the largest value
    misses 2^64 by one part in a hundred thousand. *)
Lemma factorOf_exact x : 0 <= x < 65536 -> factorOf x = 65536 + poly x / 2 ^ 48.
Proof.
  intros Hx. pose proof (poly_range x Hx) as Hp. unfold poly in Hp.
  assert (0 <= x * x /\ 0 <= x * x * x) as [H2 H3] by nia.
  unfold factorOf, u64. change (Z.shiftl 1 47) with (2 ^ 47).
  rewrite (uwrap_small 64 (195766423245049 * x)) by (unfold is_u; nia).
  rewrite (uwrap_small 64 (971821376 * x)) by (unfold is_u; nia).
  rewrite (uwrap_small 64 (971821376 * x * x)) by (unfold is_u; nia).
  rewrite (uwrap_small 64 (5127 * x)) by (unfold is_u; nia).
  rewrite (uwrap_small 64 (5127 * x * x)) by (unfold is_u; nia).
  rewrite (uwrap_small 64 (5127 * x * x * x)) by (unfold is_u; nia).
  rewrite (uwrap_small 64 (195766423245049 * x + 971821376 * x * x)) by (unfold is_u; nia).
  rewrite (uwrap_small 64 (195766423245049 * x + 971821376 * x * x + 5127 * x * x * x))
    by (unfold is_u; nia).
  fold (poly x). rewrite (uwrap_small 64 (poly x)) by (unfold is_u, poly; lia).
  rewrite Z.shiftr_div_pow2 by lia. apply uwrap_small. unfold is_u.
  pose proof (Z.div_pos (poly x) (2 ^ 48)) as Hd.
  pose proof (Z.div_le_upper_bound (poly x) (2 ^ 48) 65536) as Hu. unfold poly in *. lia.
Qed.

Lemma factorOf_range x : 0 <= x < 65536 -> 65536 <= factorOf x <= 131072.
Proof.
  intros Hx. rewrite factorOf_exact by done. pose proof (poly_range x Hx).
  pose proof (Z.div_pos (poly x) (2 ^ 48)). pose proof (Z.div_le_upper_bound (poly x) (2 ^ 48) 65536).
  lia.
Qed.

Lemma factorOf_mono x y : 0 <= x <= y -> y < 65536 -> factorOf x <= factorOf y.
Proof.
  intros Hxy Hy. rewrite !factorOf_exact by lia.
  pose proof (Z.div_le_mono (poly x) (poly y) (2 ^ 48) ltac:(lia) (poly_mono x y Hxy)). lia.
Qed.

(** ** Without wrap-around *)

Definition shiftsOf (e : Z) : Z := e / 65536.
Definition fracOf (e : Z) : Z := e mod 65536.

Lemma shiftsOf_eq e : Z.shiftr e 16 = shiftsOf e.
Proof. by rewrite Z.shiftr_div_pow2. Qed.

Lemma fracOf_eq e : Z.land e 65535 = fracOf e.
Proof. change 65535 with (Z.ones 16). by rewrite Z.land_ones. Qed.

Lemma fracOf_range e : 0 <= fracOf e < 65536.
Proof. apply Z.mod_pos_bound. lia. Qed.

(** The exact value: anchor * 2^(e/65536) up to the polynomial, rounded down. *)
Definition exactDifficulty (d e : Z) : Z :=
  if shiftsOf e <? 0 then d * factorOf (fracOf e) / 2 ^ (16 - shiftsOf e)
  else d * factorOf (fracOf e) * 2 ^ shiftsOf e / 2 ^ 16.

(** The left shift loses no bit. *)
Definition noWrap (d e : Z) : Prop :=
  shiftsOf e < 0 \/ d * factorOf (fracOf e) * 2 ^ shiftsOf e < 2 ^ 64.

Lemma product_range d e : is_u 32 d -> 0 <= d * factorOf (fracOf e) < 2 ^ 64.
Proof.
  unfold is_u. intros Hd. pose proof (factorOf_range (fracOf e) (fracOf_range e)). nia.
Qed.

Lemma scaledDifficulty_exact d e :
  is_u 32 d -> noWrap d e -> shiftsOf e <= 48 ->
  scaledDifficulty d e = Z.max 50000 (exactDifficulty d e).
Proof.
  intros Hd Hw Hs. pose proof (product_range d e Hd) as Hp.
  unfold scaledDifficulty, exactDifficulty. rewrite shiftsOf_eq, fracOf_eq.
  unfold u64. rewrite (uwrap_small 64 (d * _)) by done.
  destruct (Z.ltb_spec 48 (shiftsOf e)); [lia|]. rewrite andb_false_r.
  destruct (Z.ltb_spec (shiftsOf e) 0) as [Hn|Hn].
  - rewrite !Z.shiftr_div_pow2 by lia. rewrite Z.div_div by lia.
    rewrite <- Z.pow_add_r by lia. replace (- shiftsOf e + 16) with (16 - shiftsOf e) by lia.
    destruct (Z.ltb_spec (d * factorOf (fracOf e) / 2 ^ (16 - shiftsOf e)) 50000); lia.
  - destruct Hw as [Hw|Hw]; [lia|]. pose proof (Z.pow_pos_nonneg 2 (shiftsOf e)).
    rewrite Z.shiftl_mul_pow2 by lia. rewrite uwrap_small by (unfold is_u; nia).
    rewrite Z.shiftr_div_pow2 by lia.
    destruct (Z.ltb_spec (d * factorOf (fracOf e) * 2 ^ shiftsOf e / 2 ^ 16) 50000); lia.
Qed.

(** Both cases as one quotient with a common denominator. *)
Lemma exactDifficulty_quot d e K :
  0 <= K -> - shiftsOf e <= K ->
  exactDifficulty d e = d * (factorOf (fracOf e) * 2 ^ (K + shiftsOf e)) / 2 ^ (K + 16).
Proof.
  intros HK Hs. unfold exactDifficulty. rewrite Z.mul_assoc.
  destruct (Z.ltb_spec (shiftsOf e) 0).
  - replace (K + 16) with ((16 - shiftsOf e) + (K + shiftsOf e)) by lia.
    rewrite (Z.pow_add_r 2 (16 - shiftsOf e)) by lia.
    rewrite Z.div_mul_cancel_r; [done|..]; apply Z.pow_nonzero; lia.
  - rewrite (Z.add_comm K (shiftsOf e)), (Z.add_comm K 16), !Z.pow_add_r by lia.
    rewrite Z.mul_assoc, Z.div_mul_cancel_r; [done|..]; apply Z.pow_nonzero; lia.
Qed.

Lemma factor_shift_mono e1 e2 K :
  e1 <= e2 -> 0 <= K -> - shiftsOf e1 <= K ->
  factorOf (fracOf e1) * 2 ^ (K + shiftsOf e1) <= factorOf (fracOf e2) * 2 ^ (K + shiftsOf e2).
Proof.
  intros He HK Hs. pose proof (factorOf_range _ (fracOf_range e1)).
  pose proof (factorOf_range _ (fracOf_range e2)).
  assert (shiftsOf e1 <= shiftsOf e2) as Hm by (apply Z.div_le_mono; lia).
  pose proof (Z.div_mod e1 65536 ltac:(lia)) as D1. pose proof (Z.div_mod e2 65536 ltac:(lia)) as D2.
  fold (shiftsOf e1) (fracOf e1) in D1. fold (shiftsOf e2) (fracOf e2) in D2.
  destruct (Z.eq_dec (shiftsOf e1) (shiftsOf e2)) as [E|E].
  - rewrite <- E. apply Z.mul_le_mono_nonneg_r; [apply Z.pow_nonneg; lia|].
    apply factorOf_mono; [|apply fracOf_range]. pose proof (fracOf_range e1). lia.
  - transitivity (131072 * 2 ^ (K + shiftsOf e1)); [apply Z.mul_le_mono_nonneg_r; [apply Z.pow_nonneg|]; lia|].
    transitivity (65536 * 2 ^ (K + shiftsOf e2)); [|apply Z.mul_le_mono_nonneg_r; [apply Z.pow_nonneg|]; lia].
    replace 131072 with (65536 * 2 ^ 1) by lia. rewrite <- Z.mul_assoc, <- Z.pow_add_r by lia.
    apply Z.mul_le_mono_nonneg_l; [lia|]. apply Z.pow_le_mono_r; lia.
Qed.

Lemma exactDifficulty_mono d e1 e2 :
  0 <= d -> e1 <= e2 -> exactDifficulty d e1 <= exactDifficulty d e2.
Proof.
  intros Hd He. assert (shiftsOf e1 <= shiftsOf e2) as Hm by (apply Z.div_le_mono; lia).
  set (K := Z.max 0 (- shiftsOf e1)).
  rewrite (exactDifficulty_quot d e1 K), (exactDifficulty_quot d e2 K) by lia.
  apply Z.div_le_mono; [apply Z.pow_pos_nonneg; lia|]. apply Z.mul_le_mono_nonneg_l; [done|].
  apply factor_shift_mono; lia.
Qed.

Lemma noWrap_mono d e1 e2 : 0 <= d -> e1 <= e2 -> noWrap d e2 -> noWrap d e1.
Proof.
  intros Hd He [Hw|Hw]; assert (shiftsOf e1 <= shiftsOf e2) as Hm by (apply Z.div_le_mono; lia);
    [left; lia|].
  destruct (Z.ltb_spec (shiftsOf e1) 0) as [Hn|Hn]; [by left|right].
  eapply Z.le_lt_trans; [|exact Hw]. rewrite <- !Z.mul_assoc.
  apply Z.mul_le_mono_nonneg_l; [done|]. by apply (factor_shift_mono e1 e2 0); lia.
Qed.

(** ** The exponent *)

(** Frames and times for which the 64-bit differences and products are exact: up to
    2^32 frames and 2^46 milliseconds (two thousand years) from the anchor. *)
Definition inRange (a : AsertDifficultyAdjuster) (n t : Z) : Prop :=
  is_u 64 (anchorFrameNumber a) /\ anchorFrameNumber a <= n < anchorFrameNumber a + 2 ^ 32
  /\ is_i 64 (anchorParentTime a) /\ Z.abs (t - anchorParentTime a) < 2 ^ 46.

(** How far behind schedule the frame is, in milliseconds. *)
Definition lateness (a : AsertDifficultyAdjuster) (n t : Z) : Z :=
  (t - anchorParentTime a) - IDEAL_FRAME_TIME * (n - anchorFrameNumber a + 1).

Lemma i64_small z : - 2 ^ 63 <= z < 2 ^ 63 -> i64 z = z.
Proof. intros H. apply swrap_small; [lia|]. exact H. Qed.

Lemma exponentOf_exact a n t :
  inRange a n t -> exponentOf a n t = Z.quot (- (lateness a n t * 65536)) HALF_LIFE.
Proof.
  intros (H1 & H2 & H3 & H4). unfold exponentOf, lateness, IDEAL_FRAME_TIME, HALF_LIFE.
  change radix with 65536. unfold u64. rewrite uwrap_small by (unfold is_u in *; lia).
  assert (0 <= n - anchorFrameNumber a < 2 ^ 32) as HD by lia. clear H1 H2 H3.
  revert HD H4. generalize (n - anchorFrameNumber a), (t - anchorParentTime a). intros D T HD HT.
  rewrite (i64_small D), (i64_small T), (i64_small (D + 1)), (i64_small (10000 * (D + 1))) by lia.
  rewrite (i64_small (T - 10000 * (D + 1))) by lia.
  rewrite (i64_small ((T - 10000 * (D + 1)) * 65536)) by lia.
  rewrite (i64_small (- ((T - 10000 * (D + 1)) * 65536))) by lia.
  apply i64_small. set (x := - ((T - 10000 * (D + 1)) * 65536)).
  pose proof (Z.quot_le_mono x (2 ^ 63 - 1) 7200000 ltac:(lia) ltac:(subst x; lia)) as Hu.
  pose proof (Z.quot_le_mono (- 2 ^ 63) x 7200000 ltac:(lia) ltac:(subst x; lia)) as Hl.
  change (Z.quot (2 ^ 63 - 1) 7200000) with 1281023894007 in Hu.
  change (Z.quot (- 2 ^ 63) 7200000) with (-1281023894007) in Hl. lia.
Qed.

Lemma exponentOf_mono a n1 t1 n2 t2 :
  inRange a n1 t1 -> inRange a n2 t2 -> n2 <= n1 -> t1 <= t2 ->
  exponentOf a n2 t2 <= exponentOf a n1 t1.
Proof.
  intros R1 R2 Hn Ht. rewrite !exponentOf_exact by done. apply Z.quot_le_mono; [done|].
  unfold lateness, IDEAL_FRAME_TIME. lia.
Qed.

Lemma scaledDifficulty_max d e :
  48 < shiftsOf e -> scaledDifficulty d e = MaxUint64.
Proof.
  intros He. unfold scaledDifficulty. rewrite shiftsOf_eq.
  destruct (Z.leb_spec 0 (shiftsOf e)); [|lia]. by destruct (Z.ltb_spec 48 (shiftsOf e)); [|lia].
Qed.

Lemma scaledDifficulty_range d e : 50000 <= scaledDifficulty d e <= MaxUint64.
Proof.
  unfold scaledDifficulty, MaxUint64. set (s := u64 (d * _)).
  assert (is_u 64 s) as Hs by (apply (uwrap_range 64); lia).
  destruct (_ && _); [lia|]. set (x := if _ <? 0 then _ else _).
  assert (0 <= x < 2 ^ 64) as Hx.
  { subst x. destruct (Z.ltb_spec (Z.shiftr e 16) 0) as [H|H].
    - rewrite Z.shiftr_div_pow2 by lia. unfold is_u in Hs. split.
      + apply Z.div_pos; [lia|]. apply Z.pow_pos_nonneg; lia.
      + apply Z.div_lt_upper_bound; [apply Z.pow_pos_nonneg; lia|].
        pose proof (Z.pow_pos_nonneg 2 (- Z.shiftr e 16)). nia.
    - apply (uwrap_range 64); lia. }
  rewrite Z.shiftr_div_pow2 by lia.
  pose proof (Z.div_pos x (2 ^ 16)). pose proof (Z.div_le_upper_bound x (2 ^ 16) (2 ^ 64 - 1)).
  destruct (Z.ltb_spec (x / 2 ^ 16) 50000); lia.
Qed.

(** ** Properties *)

(** C40: For any anchor and any frame within range of it, as long as the left shift
    loses no bit, the next difficulty is the anchor difficulty times two to the
    number of half lives the frame is ahead of schedule, with the fractional power
    taken from the polynomial, rounded down and no less than 50000.  None of the
    other 64-bit operations wraps. *)
Theorem difficulty_exact (a : AsertDifficultyAdjuster) (n t : Z) :
  is_u 32 (anchorDifficulty a) -> anchorDifficulty a <> 0 -> inRange a n t ->
  let e := Z.quot (- (lateness a n t * 65536)) HALF_LIFE in
  shiftsOf e <= 48 -> noWrap (anchorDifficulty a) e ->
  GetNextDifficulty a n t = Z.max 50000 (exactDifficulty (anchorDifficulty a) e)
  /\ factorOf (fracOf e) = 65536 + poly (fracOf e) / 2 ^ 48.
Proof.
  intros Hd Hnz Hr e Hs Hw. split; [|apply factorOf_exact, fracOf_range].
  unfold GetNextDifficulty. destruct (Z.eqb_spec (anchorDifficulty a) 0); [done|].
  rewrite exponentOf_exact by done. by apply scaledDifficulty_exact.
Qed.

(** The difficulty follows the schedule: a later time or a lower frame number
    never raises it, as long as the left shift for the frame that is further ahead
    loses no bit or is cut off at the maximum. *)
Theorem difficulty_monotone (a : AsertDifficultyAdjuster) (n1 t1 n2 t2 : Z) :
  is_u 32 (anchorDifficulty a) -> inRange a n1 t1 -> inRange a n2 t2 -> n2 <= n1 -> t1 <= t2 ->
  noWrap (anchorDifficulty a) (exponentOf a n1 t1) \/ 48 < shiftsOf (exponentOf a n1 t1) ->
  50000 <= GetNextDifficulty a n2 t2 <= GetNextDifficulty a n1 t1.
Proof.
  intros Hd R1 R2 Hn Ht Hw. unfold GetNextDifficulty.
  destruct (Z.eqb_spec (anchorDifficulty a) 0) as [_|_]; [lia|].
  pose proof (exponentOf_mono a n1 t1 n2 t2 R1 R2 Hn Ht) as He.
  split; [apply scaledDifficulty_range|].
  destruct (Z.ltb_spec 48 (shiftsOf (exponentOf a n1 t1))) as [Hs|Hs].
  { rewrite (scaledDifficulty_max _ (exponentOf a n1 t1)) by done. apply scaledDifficulty_range. }
  destruct Hw as [Hw|?]; [|lia].
  assert (shiftsOf (exponentOf a n2 t2) <= shiftsOf (exponentOf a n1 t1))
    by (apply Z.div_le_mono; lia).
  rewrite !scaledDifficulty_exact; [|done|done|lia|done|eapply noWrap_mono; [apply Hd|done|done]|lia].
  apply Z.max_le_compat_l, exactDifficulty_mono; [apply Hd|done].
Qed.

(** The cut-off at 48 shifts comes too late: the left shift may drop bits from 15
    shifts on, and a chain that runs 64 hours ahead of schedule is given the least
    difficulty, while one that runs 62 hours ahead is given 2^47. *)
Theorem difficulty_wraps :
  GetNextDifficulty (mkAdjuster 0 0 65536) 22319 0 = 2 ^ 47
  /\ GetNextDifficulty (mkAdjuster 0 0 65536) 23039 0 = 50000.
Proof. by vm_compute. Qed.

(** ** Witnesses *)

Lemma difficulty_exact_witness :
  GetNextDifficulty (mkAdjuster 100 1700000000000 160000) 460 1700000000000
  = Z.max 50000 (exactDifficulty 160000
      (Z.quot (- (lateness (mkAdjuster 100 1700000000000 160000) 460 1700000000000 * 65536))
         HALF_LIFE)).
Proof.
  apply (difficulty_exact (mkAdjuster 100 1700000000000 160000) 460 1700000000000).
  - by_decide.
  - discriminate.
  - split_and!; by_decide.
  - by_decide.
  - right. by_decide.
Defined.

Lemma difficulty_monotone_witness :
  50000 <= GetNextDifficulty (mkAdjuster 100 1700000000000 160000) 460 1700007200000
  <= GetNextDifficulty (mkAdjuster 100 1700000000000 160000) 820 1700000000000.
Proof.
  apply difficulty_monotone; [by_decide|split_and!; by_decide|split_and!; by_decide|lia|lia|].
  left. right. by_decide.
Defined.
