(* ===== verification/FeeManager.v ===== *)
(** * The dynamic fee manager (node/consensus/fees/dynamic_fee_manager.go)

    The sliding window of fee multiplier votes per filter, with its running sum in
    64 bits.  A filter stands for its hexadecimal key, which determines it.  Times
    are nanoseconds; the clock is an argument of the operations that read it.  Locks,
    metrics and logging are left out. *)

From Stdlib Require Import Sorted.
From S2P Require Import Prelude.

Definition maxWindowSize : Z := 360.
Definition defaultFeeMultiplier : Z := 100.

Record feeVote := mkVote { frameNumber : Z; feeMultiplierVote : Z }.

Record filterFeeData := mkData {
  votes : list feeVote;   (* newest at end *)
  sumVotes : Z;
  lastUpdated : Z
}.

Definition DynamicFeeManager : Type := gmap bytes filterFeeData.

Definition NewDynamicFeeManager : DynamicFeeManager := ∅.

Definition errNotNewer : string := "frame is not newer than last frame".

(** The new vote appended, and the oldest dropped if the window is full. *)
Definition pushVote (now : Z) (data : filterFeeData) (v : feeVote) : filterFeeData :=
  let vs := votes data ++ [v] in
  let sum := u64 (sumVotes data + feeMultiplierVote v) in
  match vs with
  | oldVote :: rest =>
    if maxWindowSize <? Z.of_nat (length vs)
    then mkData rest (u64 (sum - feeMultiplierVote oldVote)) now
    else mkData vs sum now
  | [] => mkData vs sum now (* not reached: [v] was appended *)
  end.

Definition AddFrameFeeVote (now : Z) (filter : bytes) (frame vote : Z) (d : DynamicFeeManager)
    : result DynamicFeeManager :=
  let data := default (mkData [] 0 now) (d !! filter) in
  match last (votes data) with
  | Some lastFrame =>
    if frame <=? frameNumber lastFrame then Err errNotNewer
    else Ok (<[filter := pushVote now data (mkVote frame vote)]> d)
  | None => Ok (<[filter := pushVote now data (mkVote frame vote)]> d)
  end.

Definition GetNextFeeMultiplier (filter : bytes) (d : DynamicFeeManager) : Z :=
  match d !! filter with
  | None => defaultFeeMultiplier
  | Some data =>
    if Z.of_nat (length (votes data)) =? 0 then defaultFeeMultiplier
    else sumVotes data / Z.of_nat (length (votes data))
  end.

Definition GetVoteHistory (filter : bytes) (d : DynamicFeeManager) : list Z :=
  match d !! filter with
  | None => []
  | Some data => feeMultiplierVote <$> votes data
  end.

Definition GetAverageWindowSize (filter : bytes) (d : DynamicFeeManager) : Z :=
  match d !! filter with
  | None => 0
  | Some data => Z.of_nat (length (votes data))
  end.

(** [now.Add(-time.Duration(maxAge) * time.Millisecond)], in 64 bits. *)
Definition cutoffTime (now maxAge : Z) : Z := now + i64 (i64 (- i64 maxAge) * 1000000).

Definition PruneOldData (now maxAge : Z) (d : DynamicFeeManager) : DynamicFeeManager :=
  base.filter (fun e => ~ lastUpdated e.2 < cutoffTime now maxAge) d.

(** The index of the first vote newer than [frame], zero if there is none. *)
Fixpoint firstNewer (frame : Z) (i : nat) (vs : list feeVote) : nat :=
  match vs with
  | [] => 0
  | v :: vs => if frame <? frameNumber v then i else firstNewer frame (S i) vs
  end.

Definition rewindData (frame : Z) (data : filterFeeData) : Z * filterFeeData :=
  let keepIndex := firstNewer frame 0 (votes data) in
  let keepIndex :=
    match last (votes data) with
    | Some v => if (keepIndex =? 0)%nat && (frameNumber v <=? frame) then length (votes data) else keepIndex
    | None => keepIndex
    end in
  if (keepIndex =? length (votes data))%nat then (0, data)
  else
    (Z.of_nat (length (votes data) - keepIndex),
     mkData (take keepIndex (votes data))
       (foldl (fun s v => u64 (s - feeMultiplierVote v)) (sumVotes data) (drop keepIndex (votes data)))
       (lastUpdated data)).

Definition RewindToFrame (filter : bytes) (frame : Z) (d : DynamicFeeManager)
    : Z * DynamicFeeManager :=
  match d !! filter with
  | None => (0, d)
  | Some data =>
    if Z.of_nat (length (votes data)) =? 0 then (0, d)
    else let r := rewindData frame data in (r.1, <[filter := r.2]> d)
  end.

(** ** Histories *)

Inductive feeOp :=
| FeeAdd (now : Z) (filter : bytes) (frame vote : Z)
| FeeRewind (filter : bytes) (frame : Z)
| FeePrune (now maxAge : Z).

(** A rejected vote leaves the manager as it was. *)
Definition applyFee (d : DynamicFeeManager) (o : feeOp) : DynamicFeeManager :=
  match o with
  | FeeAdd now filter frame vote =>
    match AddFrameFeeVote now filter frame vote d with Ok d' => d' | _ => d end
  | FeeRewind filter frame => (RewindToFrame filter frame d).2
  | FeePrune now maxAge => PruneOldData now maxAge d
  end.

Definition runFees : list feeOp -> DynamicFeeManager := foldl applyFee NewDynamicFeeManager.

Definition feeOpOk (o : feeOp) : Prop :=
  match o with FeeAdd _ _ frame vote => is_u 64 frame /\ is_u 64 vote | _ => True end.

(** ** The window invariant *)

Definition totalVotes (vs : list feeVote) : Z := foldr Z.add 0 (feeMultiplierVote <$> vs).

Definition newerThan (v w : feeVote) : Prop := frameNumber v < frameNumber w.

Record windowOk (data : filterFeeData) : Prop := {
  window_sorted : StronglySorted newerThan (votes data);
  window_small : Z.of_nat (length (votes data)) <= maxWindowSize;
  window_u64 : Forall (fun v => is_u 64 (feeMultiplierVote v)) (votes data);
  window_sum : sumVotes data = u64 (totalVotes (votes data))
}.

Lemma totalVotes_app vs ws : totalVotes (vs ++ ws) = totalVotes vs + totalVotes ws.
Proof.
  unfold totalVotes. induction vs as [|v vs IH]; [done|]. cbn. cbn in IH. rewrite IH. lia.
Qed.

Lemma u64_add_l x y : u64 (u64 x + y) = u64 (x + y).
Proof. unfold u64, uwrap. apply Zplus_mod_idemp_l. Qed.

Lemma u64_sub_l x y : u64 (u64 x - y) = u64 (x - y).
Proof. unfold u64, uwrap. apply Zminus_mod_idemp_l. Qed.

Lemma sorted_app_last vs v :
  StronglySorted newerThan vs -> (forall w, last vs = Some w -> newerThan w v) ->
  StronglySorted newerThan (vs ++ [v]).
Proof.
  induction 1 as [|w vs Hs IH Hw]; intros Hl; [by repeat constructor|]. cbn [app].
  constructor.
  - apply IH. intros x Hx. apply Hl. destruct vs; [done|exact Hx].
  - apply Forall_app. split; [done|]. constructor; [|constructor].
    destruct (last vs) as [x|] eqn:E.
    + assert (last (w :: vs) = Some x) as E' by (destruct vs; [done|exact E]).
      rewrite Forall_forall in Hw. pose proof (Hw x (last_Some_elem_of _ _ E)).
      specialize (Hl x E'). unfold newerThan in *. lia.
    + apply last_None in E as ->. by apply Hl.
Qed.

Lemma pushVote_ok now data v :
  windowOk data -> is_u 64 (feeMultiplierVote v) ->
  (forall w, last (votes data) = Some w -> newerThan w v) -> windowOk (pushVote now data v).
Proof.
  intros [Hs Hl Hu Hsum] Hv Hn. pose proof (sorted_app_last _ v Hs Hn) as Hs'.
  assert (Forall (fun v => is_u 64 (feeMultiplierVote v)) (votes data ++ [v])) as Hu'
    by (apply Forall_app; split; [done|constructor; [done|constructor]]).
  assert (u64 (sumVotes data + feeMultiplierVote v) = u64 (totalVotes (votes data ++ [v]))) as Hsum'.
  { rewrite Hsum, u64_add_l, totalVotes_app. unfold totalVotes at 3. cbn. by rewrite Z.add_0_r. }
  assert (length (votes data ++ [v]) = S (length (votes data))) as Hlen by (rewrite length_app; cbn; lia).
  unfold pushVote. destruct (votes data ++ [v]) as [|old rest] eqn:E; [by destruct (votes data)|].
  destruct (Z.ltb_spec maxWindowSize (Z.of_nat (length (old :: rest)))) as [Hw|Hw]; split; cbn [votes sumVotes].
  - by apply StronglySorted_inv in Hs' as [? _].
  - cbn [length] in *. lia.
  - by apply Forall_cons in Hu' as [_ ?].
  - rewrite Hsum', u64_sub_l. f_equal. unfold totalVotes. cbn. lia.
  - done.
  - lia.
  - done.
  - done.
Qed.

(** The loop with its correction finds the votes to keep: the prefix of the votes
    that are not newer than [frame]. *)
Definition kept (frame : Z) (vs : list feeVote) : list feeVote :=
  base.filter (fun v => frameNumber v <= frame) vs.

Lemma kept_none frame vs : Forall (fun v => frame < frameNumber v) vs -> kept frame vs = [].
Proof.
  unfold kept. induction 1 as [|v vs Hv _ IH]; [done|]. by rewrite filter_cons_False by lia.
Qed.

Lemma kept_all frame vs : Forall (fun v => frameNumber v <= frame) vs -> kept frame vs = vs.
Proof.
  unfold kept. induction 1 as [|v vs Hv _ IH]; [done|]. rewrite filter_cons_True by lia. by f_equal.
Qed.

Lemma firstNewer_split frame vs i :
  StronglySorted newerThan vs ->
  (exists j, firstNewer frame i vs = (i + j)%nat /\ (j < length vs)%nat
     /\ take j vs = kept frame vs /\ Forall (fun v => frame < frameNumber v) (drop j vs))
  \/ (firstNewer frame i vs = 0%nat /\ kept frame vs = vs).
Proof.
  intros Hs. revert i. induction Hs as [|v vs Hs IH Hv]; intros i; [by right|]. cbn [firstNewer].
  destruct (Z.ltb_spec frame (frameNumber v)) as [Hf|Hf].
  - left. exists 0%nat. rewrite Nat.add_0_r. split; [done|]. cbn [take drop length].
    assert (Forall (fun w => frame < frameNumber w) (v :: vs)) as Hall.
    { constructor; [done|]. eapply Forall_impl; [exact Hv|]. unfold newerThan. intros w ?. lia. }
    split; [lia|]. split; [|done]. symmetry. by apply kept_none.
  - unfold kept. rewrite filter_cons_True by lia. destruct (IH (S i)) as [(j & E & Hj & Ht & Hd)|[E Hk]].
    + left. exists (S j). rewrite E. split; [lia|]. cbn. split; [lia|]. split; [|done]. by f_equal.
    + right. split; [done|]. by f_equal.
Qed.

Lemma foldl_sub vs s :
  foldl (fun s v => u64 (s - feeMultiplierVote v)) (u64 s) vs = u64 (s - totalVotes vs).
Proof.
  revert s. induction vs as [|v vs IH]; intros s; cbn [foldl].
  - unfold totalVotes. cbn. by rewrite Z.sub_0_r.
  - rewrite u64_sub_l, IH. f_equal. unfold totalVotes. cbn. lia.
Qed.

Lemma kept_last frame vs v :
  StronglySorted newerThan vs -> last vs = Some v ->
  frameNumber v <= frame <-> kept frame vs = vs.
Proof.
  intros Hs El. split.
  - intros Hv. apply kept_all, Forall_forall. intros w Hw.
    assert (frameNumber w <= frameNumber v); [|lia].
    apply last_Some in El as [l ->]. clear Hv. apply elem_of_app in Hw as [Hw|Hw].
    + induction l as [|x l IH]; [by apply not_elem_of_nil in Hw|].
      cbn [app] in Hs. apply StronglySorted_inv in Hs as [Hs Hx].
      apply elem_of_cons in Hw as [->|Hw]; [|by apply IH].
      rewrite Forall_forall in Hx. specialize (Hx v ltac:(set_solver)). unfold newerThan in Hx. lia.
    + apply list_elem_of_singleton in Hw as ->. done.
  - intros E. assert (v ∈ kept frame vs) as Hv.
    { rewrite E. by apply last_Some_elem_of. }
    unfold kept in Hv. by apply list_elem_of_filter in Hv as [? _].
Qed.

Lemma sorted_take vs n : StronglySorted newerThan vs -> StronglySorted newerThan (take n vs).
Proof.
  intros Hs. revert n. induction Hs as [|v vs Hs IH Hv]; intros [|n]; cbn; constructor; [done|].
  by apply Forall_take.
Qed.

Lemma rewindData_spec frame data :
  windowOk data -> votes data <> [] ->
  windowOk (rewindData frame data).2 /\ votes (rewindData frame data).2 = kept frame (votes data)
  /\ (rewindData frame data).1
     = Z.of_nat (length (votes data)) - Z.of_nat (length (kept frame (votes data))).
Proof.
  intros Hok Hne. pose proof Hok as [Hs Hl Hu Hsum].
  destruct (last (votes data)) as [v|] eqn:El; [|by apply last_None in El].
  unfold rewindData. rewrite El. pose proof (kept_last frame _ v Hs El) as Hk.
  destruct (firstNewer_split frame (votes data) 0 Hs) as [(j & -> & Hj & Ht & Hd)|[-> Hall]].
  - assert (~ frameNumber v <= frame) as Hv.
    { rewrite Hk, <- Ht. intros E. apply (f_equal length) in E. rewrite length_take in E. lia. }
    destruct (Z.leb_spec (frameNumber v) frame); [done|]. rewrite andb_false_r, Nat.add_0_l.
    destruct (Nat.eqb_spec j (length (votes data))); [lia|]. cbn [fst snd votes]. split_and!; [|done|].
    + split; cbn [votes sumVotes].
      * by apply sorted_take.
      * rewrite length_take. lia.
      * by apply Forall_take.
      * rewrite Hsum, foldl_sub. f_equal. rewrite <- (take_drop j (votes data)) at 1.
        rewrite totalVotes_app. lia.
    + rewrite <- Ht, length_take. lia.
  - destruct (Z.leb_spec (frameNumber v) frame) as [Hv|Hv]; [|exfalso; apply Hk in Hall; lia].
    cbn [Nat.eqb andb]. rewrite Nat.eqb_refl. cbn [fst snd]. rewrite Hall. split_and!; [done|done|lia].
Qed.

Definition managerOk (d : DynamicFeeManager) : Prop := map_Forall (fun _ data => windowOk data) d.

Lemma emptyWindow_ok now : windowOk (mkData [] 0 now).
Proof. split; cbn; [constructor|by_decide|constructor|by vm_compute]. Qed.

Lemma default_ok now filter d : managerOk d -> windowOk (default (mkData [] 0 now) (d !! filter)).
Proof.
  intros Hd. destruct (d !! filter) as [data|] eqn:E; [by apply (Hd filter)|apply emptyWindow_ok].
Qed.

Lemma applyFee_ok d o : feeOpOk o -> managerOk d -> managerOk (applyFee d o).
Proof.
  intros Ho Hd. destruct o as [now filter frame vote|filter frame|now maxAge]; cbn [applyFee].
  - destruct Ho as [_ Hv]. unfold AddFrameFeeVote.
    pose proof (default_ok now filter d Hd) as Hw.
    set (data := default _ _) in *. destruct (last (votes data)) as [w|] eqn:E.
    + destruct (Z.leb_spec frame (frameNumber w)); [done|].
      apply map_Forall_insert_2; [|done]. apply pushVote_ok; [done|done|].
      intros x. rewrite E. by intros [= <-].
    + apply map_Forall_insert_2; [|done]. apply pushVote_ok; [done|done|]. by rewrite E.
  - unfold RewindToFrame. destruct (d !! filter) as [data|] eqn:E; [|done].
    destruct (Z.eqb_spec (Z.of_nat (length (votes data))) 0) as [|Hne]; [done|]. cbn [snd].
    apply map_Forall_insert_2; [|done]. apply rewindData_spec; [by apply (Hd filter)|].
    intros En. by rewrite En in Hne.
  - intros k data E. apply map_lookup_filter_Some in E as [E _]. by apply (Hd k).
Qed.

Lemma runFees_ok os : Forall feeOpOk os -> managerOk (runFees os).
Proof.
  unfold runFees. assert (managerOk NewDynamicFeeManager) as H0 by apply map_Forall_empty.
  revert H0. generalize NewDynamicFeeManager. induction os as [|o os IH]; intros d Hd Ho; [done|].
  apply Forall_cons in Ho as [Ho Hos]. cbn [foldl]. apply IH; [by apply applyFee_ok|done].
Qed.

Definition sumHistory (h : list Z) : Z := foldr Z.add 0 h.

Lemma sumHistory_bounds h lo hi :
  Forall (fun v => lo <= v <= hi) h ->
  lo * Z.of_nat (length h) <= sumHistory h <= hi * Z.of_nat (length h).
Proof.
  unfold sumHistory. induction 1 as [|v h Hv _ IH]; cbn [foldr length]; [lia|]. nia.
Qed.

(** The window with [news] appended, where there is room. *)
Lemma pushVote_room now data v :
  Z.of_nat (length (votes data)) < maxWindowSize -> votes (pushVote now data v) = votes data ++ [v].
Proof.
  intros Hl. unfold pushVote. destruct (votes data ++ [v]) as [|old rest] eqn:E; [done|].
  destruct (Z.ltb_spec maxWindowSize (Z.of_nat (length (old :: rest)))) as [Hw|Hw]; [|done].
  rewrite <- E, length_app in Hw. cbn in Hw. lia.
Qed.

Definition addVotes (now : Z) (filter : bytes) (news : list feeVote) : list feeOp :=
  (fun v => FeeAdd now filter (frameNumber v) (feeMultiplierVote v)) <$> news.

Definition windowOf (filter : bytes) (d : DynamicFeeManager) : list feeVote :=
  match d !! filter with None => [] | Some data => votes data end.

Lemma windowOf_default now filter d :
  votes (default (mkData [] 0 now) (d !! filter)) = windowOf filter d.
Proof. unfold windowOf. by destruct (d !! filter). Qed.

Lemma windowOf_insert filter data d : windowOf filter (<[filter := data]> d) = votes data.
Proof.
  unfold windowOf. assert (<[filter := data]> d !! filter = Some data) as ->; [|done].
  apply (lookup_insert_eq (M := gmap bytes)).
Qed.

Lemma addVotes_window now filter news d :
  StronglySorted newerThan (windowOf filter d ++ news) ->
  Z.of_nat (length (windowOf filter d ++ news)) <= maxWindowSize ->
  windowOf filter (foldl applyFee d (addVotes now filter news)) = windowOf filter d ++ news.
Proof.
  revert d. induction news as [|v news IH]; intros d Hs Hl; [by rewrite app_nil_r|].
  assert (windowOf filter (applyFee d (FeeAdd now filter (frameNumber v) (feeMultiplierVote v)))
          = windowOf filter d ++ [v]) as E.
  { cbn [applyFee]. unfold AddFrameFeeVote. rewrite windowOf_default.
    assert (forall w, last (windowOf filter d) = Some w -> newerThan w v) as Hn.
    { intros w [l El]%last_Some. rewrite El, <- app_assoc in Hs. clear -Hs.
      induction l as [|x l IH]; cbn [app] in Hs; apply StronglySorted_inv in Hs as [Hs Hx]; [|by apply IH].
      by apply Forall_cons in Hx as [? _]. }
    rewrite length_app in Hl. cbn [length] in Hl.
    assert (windowOf filter (<[filter := pushVote now (default (mkData [] 0 now) (d !! filter))
              (mkVote (frameNumber v) (feeMultiplierVote v))]> d) = windowOf filter d ++ [v]) as E.
    { rewrite windowOf_insert, pushVote_room; rewrite windowOf_default; [by destruct v|lia]. }
    destruct (last (windowOf filter d)) as [w|] eqn:Ew; [|done].
    specialize (Hn w eq_refl). unfold newerThan in Hn.
    destruct (Z.leb_spec (frameNumber v) (frameNumber w)); [lia|done]. }
  cbn [addVotes fmap list_fmap foldl]. fold (addVotes now filter news).
  rewrite IH; rewrite E, <- app_assoc; done.
Qed.

Lemma runFees_window os filter :
  Forall feeOpOk os ->
  exists data, windowOk data /\ votes data = windowOf filter (runFees os)
  /\ GetNextFeeMultiplier filter (runFees os)
     = if Z.of_nat (length (votes data)) =? 0 then defaultFeeMultiplier
       else sumVotes data / Z.of_nat (length (votes data)).
Proof.
  intros Ho. pose proof (runFees_ok os Ho) as Hd. unfold windowOf, GetNextFeeMultiplier.
  destruct (runFees os !! filter) as [data|] eqn:E.
  - exists data. split; [by apply (Hd filter)|done].
  - exists (mkData [] 0 0). split; [apply emptyWindow_ok|done].
Qed.

Lemma GetVoteHistory_window filter d : GetVoteHistory filter d = feeMultiplierVote <$> windowOf filter d.
Proof. unfold GetVoteHistory, windowOf. by destruct (d !! filter). Qed.

Lemma GetAverageWindowSize_window filter d :
  GetAverageWindowSize filter d = Z.of_nat (length (windowOf filter d)).
Proof. unfold GetAverageWindowSize, windowOf. by destruct (d !! filter). Qed.

(** After any sequence of votes, rewinds and prunings, the window of every filter holds
    at most 360 votes in increasing frame order, the reported window size is the length of
    the vote history, and the fee multiplier is the default on an empty history and the
    history's sum modulo 2^64 divided by its length otherwise; if the sum fits 64 bits the
    multiplier lies between any bounds on the votes. *)
Theorem fee_multiplier_average (os : list feeOp) (filter : bytes) :
  Forall feeOpOk os ->
  let d := runFees os in
  let h := GetVoteHistory filter d in
  StronglySorted newerThan (windowOf filter d)
  /\ GetAverageWindowSize filter d = Z.of_nat (length h)
  /\ Z.of_nat (length h) <= maxWindowSize
  /\ GetNextFeeMultiplier filter d
     = (if Z.of_nat (length h) =? 0 then defaultFeeMultiplier
        else u64 (sumHistory h) / Z.of_nat (length h))
  /\ (forall lo hi, h <> [] -> sumHistory h < 2 ^ 64 -> Forall (fun v => lo <= v <= hi) h ->
      lo <= GetNextFeeMultiplier filter d <= hi).
Proof.
  intros Ho d h. destruct (runFees_window os filter Ho) as (data & [Hs Hl Hu Hsum] & Ew & Em).
  fold d in Ew, Em. assert (h = feeMultiplierVote <$> votes data) as Eh
    by (unfold h; by rewrite GetVoteHistory_window, <- Ew).
  assert (length h = length (votes data)) as El by (by rewrite Eh, length_fmap).
  change (totalVotes (votes data)) with (sumHistory (feeMultiplierVote <$> votes data)) in Hsum.
  rewrite GetAverageWindowSize_window, <- Ew, El, Em, Hsum, <- Eh. split_and!; [done..|].
  intros lo hi Hne Hlt Hb. pose proof (sumHistory_bounds h lo hi Hb) as Hh.
  assert (0 <= sumHistory h) as H0.
  { pose proof (sumHistory_bounds h 0 (2 ^ 64 - 1)) as H0. apply H0. rewrite Eh. apply Forall_fmap.
    eapply Forall_impl; [exact Hu|]. unfold is_u. cbn. intros x ?. lia. }
  assert (0 < Z.of_nat (length h)) as Hpos by (destruct h; [done|cbn; lia]).
  destruct (Z.eqb_spec (Z.of_nat (length (votes data))) 0); [lia|].
  unfold u64, uwrap. rewrite Z.mod_small by lia. rewrite <- El.
  split; [apply Z.div_le_lower_bound|apply Z.div_le_upper_bound]; lia.
Qed.

Example fee_multiplier_average_witness :
  100 <= GetNextFeeMultiplier []
    (runFees [FeeAdd 5 [] 1 100; FeeAdd 6 [] 2 300; FeeAdd 7 [] 3 900; FeeRewind [] 2]) <= 300.
Proof.
  refine (proj2 (proj2 (proj2 (proj2 (fee_multiplier_average
    [FeeAdd 5 [] 1 100; FeeAdd 6 [] 2 300; FeeAdd 7 [] 3 900; FeeRewind [] 2] [] _)))) 100 300 _ _ _).
  - repeat constructor; by vm_compute.
  - by vm_compute.
  - by vm_compute.
  - match goal with |- Forall _ ?h => let v := eval vm_compute in h in change h with v end.
    repeat constructor; lia.
Defined.

Lemma rewind_window filter frame d :
  managerOk d ->
  windowOf filter (RewindToFrame filter frame d).2 = kept frame (windowOf filter d)
  /\ (RewindToFrame filter frame d).1
     = Z.of_nat (length (windowOf filter d)) - Z.of_nat (length (kept frame (windowOf filter d))).
Proof.
  intros Hd. unfold RewindToFrame. destruct (d !! filter) as [data|] eqn:E.
  - assert (windowOf filter d = votes data) as Ew by (unfold windowOf; by rewrite E).
    destruct (Z.eqb_spec (Z.of_nat (length (votes data))) 0) as [H0|H0]; cbn [fst snd]; rewrite Ew.
    + destruct (votes data); [done|by cbn in H0].
    + rewrite windowOf_insert.
      destruct (rewindData_spec frame data) as (_ & ? & ?); [by apply (Hd filter)| |done].
      intros En. by rewrite En in H0.
  - unfold windowOf. cbn [fst snd]. by rewrite E.
Qed.

Lemma rewind_other filter frame d other :
  other <> filter -> (RewindToFrame filter frame d).2 !! other = d !! other.
Proof.
  intros Hne. unfold RewindToFrame. destruct (d !! filter) as [data|]; [|done].
  destruct (_ =? 0); [done|]. cbn [snd]. apply (lookup_insert_ne (M := gmap bytes)). congruence.
Qed.

Lemma addVotes_legal os now filter news frame :
  Forall feeOpOk os ->
  Forall (fun v => is_u 64 (frameNumber v) /\ is_u 64 (feeMultiplierVote v) /\ frame < frameNumber v) news ->
  Forall feeOpOk (os ++ addVotes now filter news).
Proof.
  intros Ho Hn. apply Forall_app. split; [done|]. unfold addVotes. apply Forall_fmap.
  eapply Forall_impl; [exact Hn|]. by intros v (? & ? & _).
Qed.

(** The multiplier is a function of the window. *)
Lemma multiplier_determined os os' filter :
  Forall feeOpOk os -> Forall feeOpOk os' ->
  windowOf filter (runFees os) = windowOf filter (runFees os') ->
  GetNextFeeMultiplier filter (runFees os) = GetNextFeeMultiplier filter (runFees os').
Proof.
  intros Ho Ho' E.
  destruct (runFees_window os filter Ho) as (data & Hok & Ew & ->).
  destruct (runFees_window os' filter Ho') as (data' & Hok' & Ew' & ->).
  rewrite (window_sum _ Hok), (window_sum _ Hok'). by rewrite Ew, Ew', E.
Qed.

(** Rewinding a filter after any history removes exactly the votes newer than the frame,
    reports how many it removed and leaves every other filter alone; and while the window has
    room, a fork is undone exactly: adding newer votes and rewinding to the frame before them
    gives back the votes and the fee multiplier. *)
Theorem fee_rewind_exact (os : list feeOp) (filter : bytes) (frame : Z) :
  Forall feeOpOk os ->
  let d := runFees os in
  let r := RewindToFrame filter frame d in
  windowOf filter r.2 = kept frame (windowOf filter d)
  /\ r.1 = Z.of_nat (length (windowOf filter d)) - Z.of_nat (length (kept frame (windowOf filter d)))
  /\ (forall other, other <> filter -> r.2 !! other = d !! other)
  /\ (forall now news,
      Forall (fun v => is_u 64 (frameNumber v) /\ is_u 64 (feeMultiplierVote v) /\ frame < frameNumber v) news ->
      Forall (fun v => frameNumber v <= frame) (windowOf filter d) ->
      StronglySorted newerThan (windowOf filter d ++ news) ->
      Z.of_nat (length (windowOf filter d ++ news)) <= maxWindowSize ->
      let d' := runFees (os ++ addVotes now filter news ++ [FeeRewind filter frame]) in
      windowOf filter d' = windowOf filter d
      /\ GetNextFeeMultiplier filter d' = GetNextFeeMultiplier filter d).
Proof.
  intros Ho d r.
  assert (forall os', Forall feeOpOk os' ->
    windowOf filter (RewindToFrame filter frame (runFees os')).2 = kept frame (windowOf filter (runFees os'))
    /\ (RewindToFrame filter frame (runFees os')).1
       = Z.of_nat (length (windowOf filter (runFees os')))
         - Z.of_nat (length (kept frame (windowOf filter (runFees os')))))
    as Hr by (intros os' Ho'; apply rewind_window, runFees_ok, Ho').
  split_and!; [by apply Hr|by apply Hr|by apply rewind_other|].
  intros now news Hn Hold Hs Hl d'.
  assert (windowOf filter d' = windowOf filter d) as Ew.
  { unfold d'. rewrite app_assoc. unfold runFees at 1. rewrite foldl_app. cbn [foldl applyFee].
    fold (runFees (os ++ addVotes now filter news)).
    rewrite (proj1 (Hr _ (addVotes_legal os now filter news frame Ho Hn))).
    unfold runFees at 1. rewrite foldl_app. fold (runFees os). fold d.
    rewrite addVotes_window by done. unfold kept. rewrite filter_app.
    fold (kept frame (windowOf filter d)). fold (kept frame news).
    rewrite kept_all by done. rewrite kept_none, app_nil_r; [done|].
    eapply Forall_impl; [exact Hn|]. by intros v (_ & _ & ?). }
  split; [exact Ew|]. apply multiplier_determined; [|exact Ho|exact Ew].
  rewrite app_assoc. apply Forall_app. split; [by eapply addVotes_legal|by repeat constructor].
Qed.

Example fee_rewind_exact_witness :
  GetNextFeeMultiplier [] (runFees ([FeeAdd 5 [] 1 100; FeeAdd 6 [] 2 300]
    ++ addVotes 9 [] [mkVote 4 7; mkVote 5 8] ++ [FeeRewind [] 3])) = 200.
Proof.
  refine (proj2 (proj2 (proj2 (proj2 (fee_rewind_exact
    [FeeAdd 5 [] 1 100; FeeAdd 6 [] 2 300] [] 3 _))) 9 [mkVote 4 7; mkVote 5 8] _ _ _ _)).
  - repeat constructor; by vm_compute.
  - repeat constructor; by vm_compute.
  - repeat constructor; by vm_compute.
  - repeat constructor; by vm_compute.
  - by vm_compute.
Defined.

(** A full window forgets its oldest vote when a fork's vote is added, and rewinding does
    not bring it back. *)
Example fee_rewind_full_window :
  let d := runFees ((fun i => FeeAdd 0 [] (Z.of_nat i) (Z.of_nat i)) <$> seq 1 360) in
  let d' := (RewindToFrame [] 360 (applyFee d (FeeAdd 0 [] 361 0))).2 in
  (GetAverageWindowSize [] d, GetNextFeeMultiplier [] d, GetAverageWindowSize [] d', GetNextFeeMultiplier [] d')
  = (360, 180, 359, 181).
Proof. by vm_compute. Qed.

(** Two votes of 2^63 average to zero: the running sum wraps. *)
Example fee_sum_wraps :
  GetNextFeeMultiplier [] (runFees [FeeAdd 0 [] 1 (2 ^ 63); FeeAdd 0 [] 2 (2 ^ 63)]) = 0.
Proof. by vm_compute. Qed.
