(* ===== verification/MinHeap.v ===== *)
(** * The binary heap (types/tries/minheap.go)

    MinHeap over items with a priority: the array, its sift-up and sift-down loops and
    the exchange sort of All.  Array accesses panic out of range; the loops carry
    fuel, and the refinement theorem shows that neither panic nor lack of fuel occurs. *)

From Stdlib Require Import Sorted.
From S2P Require Import Prelude.

Section minheap.
Context {I : Type} (Priority : I -> Z).

Definition NewMinHeap : list I := [].

(** [l[i], l[j] = l[j], l[i]] *)
Definition swapAt (i j : nat) (l : list I) : result (list I) :=
  x ← index l (Z.of_nat i); y ← index l (Z.of_nat j);
  l1 ← set_index l (Z.of_nat i) y; set_index l1 (Z.of_nat j) x.

(** [l[i].Priority() < l[j].Priority()] *)
Definition lessAt (l : list I) (i j : nat) : result bool :=
  x ← index l (Z.of_nat i); y ← index l (Z.of_nat j); Ok (Priority x <? Priority y).

Fixpoint upheap (fuel : nat) (i : nat) (items : list I) : result (list I) :=
  match fuel with
  | O => Diverge
  | S fuel =>
    if (0 <? i)%nat then
      let parent := ((i - 1) / 2)%nat in
      less ← lessAt items i parent;
      if negb less then Ok items
      else items ← swapAt i parent items; upheap fuel parent items
    else Ok items
  end.

(** [candidate] if it is an index of a smaller item than [smallest]. *)
Definition smaller (items : list I) (candidate smallest : nat) : result nat :=
  if (candidate <? length items)%nat
  then less ← lessAt items candidate smallest; Ok (if less : bool then candidate else smallest)
  else Ok smallest.

Fixpoint downheap (fuel : nat) (i : nat) (items : list I) : result (list I) :=
  match fuel with
  | O => Diverge
  | S fuel =>
    smallest ← smaller items (2 * i + 1) i;
    smallest ← smaller items (2 * i + 2) smallest;
    if (smallest =? i)%nat then Ok items
    else items ← swapAt i smallest items; downheap fuel smallest items
  end.

Definition Push (item : I) (items : list I) : result (list I) :=
  let items := items ++ [item] in
  upheap (length items) (length items - 1) items.

Definition Pop (items : list I) : result (option I * list I) :=
  if (length items =? 0)%nat then Ok (None, items)
  else
    min ← index items 0;
    let lastIdx := (length items - 1)%nat in
    x ← index items (Z.of_nat lastIdx);
    items ← set_index items 0 x;
    let items := take lastIdx items in
    items ← (if (0 <? length items)%nat then downheap (length items) 0 items else Ok items);
    Ok (Some min, items).

Definition Peek (items : list I) : result (option I) :=
  if (length items =? 0)%nat then Ok None else x ← index items 0; Ok (Some x).

Definition Size (items : list I) : Z := Z.of_nat (length items).

(** One step of the sort: [result[i]] and [result[j]] exchanged if out of order. *)
Definition exchange (i : nat) (r : result (list I)) (j : nat) : result (list I) :=
  l ← r; less ← lessAt l j i; if less : bool then swapAt i j l else Ok l.

Definition exchangeRow (n : nat) (r : result (list I)) (i : nat) : result (list I) :=
  foldl (exchange i) r (seq (i + 1) (n - (i + 1))).

Definition All (items : list I) : result (list I) :=
  if (length items =? 0)%nat then Ok []
  else foldl (exchangeRow (length items)) (Ok items) (seq 0 (length items)).

(** ** Arrays *)

(** The priority at an index, for indices in range. *)
Definition at_ (l : list I) (i : nat) : Z := default 0 (Priority <$> l !! i).

Lemma index_nat (l : list I) (i : nat) x : l !! i = Some x -> index l (Z.of_nat i) = Ok x.
Proof. intros E. apply index_Ok. rewrite Nat2Z.id. split; [lia|done]. Qed.

Lemma lessAt_spec l i j :
  (i < length l)%nat -> (j < length l)%nat -> lessAt l i j = Ok (at_ l i <? at_ l j).
Proof.
  intros [x Hx]%lookup_lt_is_Some [y Hy]%lookup_lt_is_Some. unfold lessAt, at_.
  by rewrite (index_nat _ _ _ Hx), (index_nat _ _ _ Hy), Hx, Hy.
Qed.

Definition transpose (i j k : nat) : nat :=
  if (k =? i)%nat then j else if (k =? j)%nat then i else k.

Lemma transpose_inj i j : Inj (=) (=) (transpose i j).
Proof.
  intros a b. unfold transpose.
  repeat match goal with |- context [(?x =? ?y)%nat] => destruct (Nat.eqb_spec x y) end; lia.
Qed.

Lemma swapAt_spec l i j :
  (i < length l)%nat -> (j < length l)%nat ->
  exists l', swapAt i j l = Ok l' /\ l' ≡ₚ l /\ length l' = length l
    /\ forall k, at_ l' k = at_ l (transpose i j k).
Proof.
  intros Hi Hj. destruct (lookup_lt_is_Some_2 _ _ Hi) as [x Hx].
  destruct (lookup_lt_is_Some_2 _ _ Hj) as [y Hy].
  assert (forall k, <[j:=x]> (<[i:=y]> l) !! k = l !! transpose i j k) as Hk.
  { intros k. unfold transpose. destruct (Nat.eqb_spec k i) as [->|Hki].
    - destruct (decide (j = i)) as [->|]; [rewrite list_lookup_insert_eq; [congruence|]|].
      + by rewrite length_insert.
      + by rewrite list_lookup_insert_ne, list_lookup_insert_eq.
    - destruct (Nat.eqb_spec k j) as [->|Hkj].
      + rewrite list_lookup_insert_eq; [done|]. by rewrite length_insert.
      + by rewrite !list_lookup_insert_ne by congruence. }
  exists (<[j:=x]> (<[i:=y]> l)). unfold swapAt.
  rewrite (index_nat _ _ _ Hx), (index_nat _ _ _ Hy). cbn [mbind result_bind].
  rewrite set_index_Ok by lia. cbn [mbind result_bind].
  rewrite set_index_Ok by (rewrite length_insert; lia). rewrite !Nat2Z.id, !length_insert.
  split_and!; [done| |done|].
  - apply Permutation_inj. rewrite !length_insert. split; [done|].
    exists (transpose i j). split; [apply transpose_inj|done].
  - intros k. unfold at_. by rewrite Hk.
Qed.

(** Rewrites the priorities of a swapped array and splits on the indices. *)
Ltac swap_cases H :=
  rewrite ?H; unfold transpose;
  repeat match goal with |- context [(?x =? ?y)%nat] => destruct (Nat.eqb_spec x y) end.

(** ** Heap order *)

Definition parent (j : nat) : nat := ((j - 1) / 2)%nat.

Lemma parent_eq j : (0 < j)%nat -> (j = 2 * parent j + 1 \/ j = 2 * parent j + 2)%nat.
Proof.
  intros Hj. unfold parent. pose proof (Nat.div_mod_eq (j - 1) 2).
  pose proof (Nat.mod_upper_bound (j - 1) 2). lia.
Qed.

Lemma parent_child i : parent (2 * i + 1) = i /\ parent (2 * i + 2) = i.
Proof. pose proof (parent_eq (2 * i + 1)). pose proof (parent_eq (2 * i + 2)). lia. Qed.

Definition heap (l : list I) : Prop :=
  forall j, (0 < j < length l)%nat -> at_ l (parent j) <= at_ l j.

(** Heap order except between [i] and its parent; the children of [i] are not
    smaller than its parent. *)
Definition heapUp (i : nat) (l : list I) : Prop :=
  (forall j, (0 < j < length l)%nat -> j <> i -> at_ l (parent j) <= at_ l j)
  /\ (forall j, (0 < j < length l)%nat -> parent j = i -> (0 < i)%nat -> at_ l (parent i) <= at_ l j).

(** Heap order except between [i] and its children, which are not smaller than
    the parent of [i]. *)
Definition heapDown (i : nat) (l : list I) : Prop :=
  (forall j, (0 < j < length l)%nat -> parent j <> i -> at_ l (parent j) <= at_ l j)
  /\ (forall j, (0 < j < length l)%nat -> parent j = i -> (0 < i)%nat -> at_ l (parent i) <= at_ l j).

Lemma upheap_spec fuel i l :
  (i < fuel)%nat -> (i < length l)%nat -> heapUp i l ->
  exists l', upheap fuel i l = Ok l' /\ l' ≡ₚ l /\ heap l'.
Proof.
  revert i l. induction fuel as [|fuel IH]; intros i l Hf Hi [H1 H2]; [lia|]. cbn [upheap].
  destruct (Nat.ltb_spec 0 i) as [H0|H0].
  - assert (parent i < i)%nat as Hp by (pose proof (parent_eq i); lia). fold (parent i).
    rewrite lessAt_spec by lia. cbn [mbind result_bind].
    destruct (Z.ltb_spec (at_ l i) (at_ l (parent i))) as [Hlt|Hge]; cbn [negb].
    + destruct (swapAt_spec l i (parent i)) as (l1 & -> & Hperm & Hlen & Hat); [lia..|].
      cbn [mbind result_bind]. destruct (IH (parent i) l1) as (l2 & -> & ? & ?); [lia|lia| |].
      * split; intros j Hj; rewrite Hlen in Hj.
        -- intros Hne. pose proof (H1 j Hj) as Ha. pose proof (H2 j Hj) as Hb.
           destruct (decide (j = i)) as [->|Hji]; [swap_cases Hat; lia|]. specialize (Ha Hji).
           swap_cases Hat; try lia; try congruence. assert (parent j = parent i) as E by done. rewrite E in Ha. lia.
        -- intros Hji Hpi. pose proof (H1 j Hj) as Ha. pose proof (H1 (parent i)) as Hc.
           assert (parent (parent i) < parent i)%nat by (pose proof (parent_eq (parent i)); lia).
           swap_cases Hat; subst; try lia.
           rewrite Hji in Ha. specialize (Ha ltac:(done)). specialize (Hc ltac:(lia) ltac:(lia)). lia.
      * exists l2. split; [done|]. split; [by transitivity l1|done].
    + exists l. split; [done|]. split; [done|]. intros j Hj.
      destruct (decide (j = i)) as [->|Hne]; [done|by apply H1].
  - exists l. split; [done|]. split; [done|]. intros j Hj. apply H1; lia.
Qed.

Lemma smaller_spec l c s :
  (s < length l)%nat ->
  smaller l c s = Ok (if (c <? length l)%nat && (at_ l c <? at_ l s) then c else s).
Proof.
  intros Hs. unfold smaller. destruct (Nat.ltb_spec c (length l)); [|done].
  rewrite lessAt_spec by lia. cbn [mbind result_bind]. by destruct (at_ l c <? at_ l s).
Qed.

(** The index the two tests of the loop select. *)
Lemma smallest_child l i :
  (i < length l)%nat ->
  exists s, (m ← smaller l (2 * i + 1) i; smaller l (2 * i + 2) m) = Ok s
    /\ (s < length l)%nat /\ (s = i \/ ((0 < s)%nat /\ parent s = i /\ at_ l s < at_ l i))
    /\ forall j, (0 < j < length l)%nat -> parent j = i -> at_ l s <= at_ l j.
Proof.
  intros Hi. rewrite smaller_spec by lia. cbn [mbind result_bind].
  set (m := if _ : bool then _ else _).
  assert ((m < length l)%nat /\ (m = i \/ m = 2 * i + 1)%nat /\ at_ l m <= at_ l i
    /\ (m <> i -> at_ l m < at_ l i)
    /\ ((2 * i + 1 < length l)%nat -> at_ l m <= at_ l (2 * i + 1))) as (Hm & Hm1 & Hm2 & Hm3 & Hm4).
  { unfold m. destruct (Nat.ltb_spec (2 * i + 1) (length l)), (Z.ltb_spec (at_ l (2 * i + 1)) (at_ l i));
      cbn [andb]; split_and!; lia. }
  clearbody m. rewrite smaller_spec by lia. eexists. split; [done|].
  assert (forall j, (0 < j < length l)%nat -> parent j = i -> (j = 2 * i + 1 \/ j = 2 * i + 2)%nat) as Hch
    by (intros j ? <-; apply parent_eq; lia).
  destruct (parent_child i).
  destruct (Nat.ltb_spec (2 * i + 2) (length l)), (Z.ltb_spec (at_ l (2 * i + 2)) (at_ l m)); cbn [andb].
  all: split; [lia|]; split; [|intros j Hj Hp; destruct (Hch j Hj Hp) as [->| ->]; lia].
  all: try (right; split_and!; [lia|done|lia]).
  all: destruct Hm1 as [->| ->]; [by left|right; split_and!; [lia|done|apply Hm3; lia]].
Qed.

Lemma downheap_spec fuel i l :
  (length l <= fuel + i)%nat -> (i < length l)%nat -> heapDown i l ->
  exists l', downheap fuel i l = Ok l' /\ l' ≡ₚ l /\ heap l'.
Proof.
  revert i l. induction fuel as [|fuel IH]; intros i l Hf Hi [H1 H2]; [lia|]. cbn [downheap].
  destruct (smallest_child l i Hi) as (s & Es & Hs & Hcase & Hmin).
  rewrite smaller_spec by lia. rewrite smaller_spec in Es by lia. cbn [mbind result_bind] in Es |- *.
  rewrite Es. cbn [mbind result_bind]. destruct (Nat.eqb_spec s i) as [->|Hne].
  - exists l. split; [done|]. split; [done|]. intros j Hj.
    destruct (decide (parent j = i)) as [E|E]; [rewrite E; by apply Hmin|by apply H1].
  - destruct Hcase as [|(Hs0 & Hps & Hlt)]; [lia|].
    assert (i < s)%nat by (pose proof (parent_eq s Hs0); lia).
    destruct (swapAt_spec l i s) as (l1 & -> & Hperm & Hlen & Hat); [lia..|]. cbn [mbind result_bind].
    destruct (IH s l1) as (l2 & -> & ? & ?); [lia|lia| |].
    + split; intros j Hj; rewrite Hlen in Hj.
      * intros Hpj. pose proof (H1 j Hj) as Ha. pose proof (H2 j Hj) as Hb. pose proof (Hmin j Hj) as Hc.
        pose proof (H2 s) as Hd.
        assert (parent j < j)%nat by (pose proof (parent_eq j); lia).
        swap_cases Hat; subst; try lia; try congruence.
      * intros Hpj _. pose proof (H1 j Hj) as Ha. assert (parent j < j)%nat by (pose proof (parent_eq j); lia).
        rewrite Hps. swap_cases Hat; subst; try lia.
    + exists l2. split; [done|]. split; [by transitivity l1|done].
Qed.

Lemma at_app_l l k i : (i < length l)%nat -> at_ (l ++ k) i = at_ l i.
Proof. intros. unfold at_. by rewrite lookup_app_l. Qed.

Lemma Push_spec x l : heap l -> exists l', Push x l = Ok l' /\ l' ≡ₚ x :: l /\ heap l'.
Proof.
  intros Hh. unfold Push. rewrite length_app. cbn [length].
  destruct (upheap_spec (length l + 1) (length l + 1 - 1) (l ++ [x])) as (l' & -> & Hp & ?); [lia| | |].
  - rewrite length_app. cbn. lia.
  - split; intros j; rewrite length_app; cbn [length]; intros Hj; pose proof (parent_eq j).
    + intros Hne. rewrite !at_app_l by lia. apply Hh. lia.
    + lia.
  - exists l'. split; [done|]. split; [|done]. rewrite Hp. by rewrite Permutation_app_comm.
Qed.

Definition minimal (m : I) (b : list I) : Prop := Forall (fun x => Priority m <= Priority x) b.

Lemma heap_top l : heap l -> forall j, (j < length l)%nat -> at_ l 0 <= at_ l j.
Proof.
  intros Hh j. induction (lt_wf j) as [j _ IH]. intros Hj.
  destruct (decide (j = 0)%nat) as [->|Hne]; [lia|]. pose proof (parent_eq j ltac:(lia)).
  specialize (IH (parent j) ltac:(lia) ltac:(lia)). specialize (Hh j ltac:(lia)). lia.
Qed.

Lemma heap_minimal m l : heap (m :: l) -> minimal m (m :: l).
Proof.
  intros Hh. apply Forall_lookup. intros j x E.
  pose proof (heap_top _ Hh j (lookup_lt_Some _ _ _ E)) as H. unfold at_ in H. by rewrite E in H.
Qed.

Lemma heapDown_replace m x l : heap (m :: l ++ [x]) -> heapDown 0 (x :: l).
Proof.
  intros Hh. assert (forall j, (0 < j < length (x :: l))%nat -> at_ (m :: l ++ [x]) j = at_ (x :: l) j) as E.
  { intros [|j] Hj; [lia|]. cbn in Hj. unfold at_.
    assert ((m :: l ++ [x]) !! S j = (x :: l) !! S j) as ->; [|done].
    exact (lookup_app_l l [x] j ltac:(lia)). }
  split; intros j Hj; [|lia]. intros Hp. pose proof (parent_eq j ltac:(lia)).
  rewrite <- !E by lia. apply Hh. cbn in Hj |- *. rewrite length_app. lia.
Qed.

Lemma Pop_spec m l :
  heap (m :: l) -> exists l', Pop (m :: l) = Ok (Some m, l') /\ l' ≡ₚ l /\ heap l'.
Proof.
  intros Hh. destruct l as [|x l _] using rev_ind.
  - exists []. split; [done|]. split; [done|]. intros j Hj. cbn in Hj. lia.
  - destruct (downheap_spec (length (x :: l)) 0 (x :: l)) as (l' & E & Hp & ?);
      [lia|cbn; lia|by eapply heapDown_replace|].
    exists l'. split; [|split; [rewrite Hp; by rewrite Permutation_app_comm|done]]. unfold Pop.
    assert ((m :: l ++ [x]) !! length (l ++ [x]) = Some x) as El.
    { rewrite length_app, Nat.add_1_r. exact (list_lookup_middle l [] x _ eq_refl). }
    change (length (m :: l ++ [x])) with (S (length (l ++ [x]))).
    change (index (m :: l ++ [x]) 0) with (Ok m). cbn [Nat.eqb mbind result_bind].
    rewrite Nat.sub_1_r, Nat.pred_succ.
    rewrite (index_nat _ _ _ El). cbn [mbind result_bind]. rewrite set_index_Ok by (cbn; lia).
    cbn [mbind result_bind]. change (<[Z.to_nat 0 := x]> (m :: l ++ [x])) with (x :: l ++ [x]).
    replace (take (length (l ++ [x])) (x :: l ++ [x])) with (x :: l).
    + change (0 <? length (x :: l))%nat with true. by rewrite E.
    + rewrite length_app, Nat.add_1_r. cbn [take]. by rewrite take_app_length.
Qed.

(** ** The exchange sort *)

(** Every index below [i] holds a lower bound of what follows it, and [i] one of
    what lies between it and [j]. *)
Definition rowInv (i j : nat) (l : list I) : Prop :=
  (forall k m, (k < i)%nat -> (k < m < length l)%nat -> at_ l k <= at_ l m)
  /\ (forall m, (i < m < j)%nat -> at_ l i <= at_ l m).

Definition sortsTo (l : list I) (P : list I -> Prop) (r : result (list I)) : Prop :=
  exists l', r = Ok l' /\ l' ≡ₚ l /\ P l'.

Lemma exchange_spec l i j :
  (i < j < length l)%nat -> rowInv i j l -> sortsTo l (rowInv i (S j)) (exchange i (Ok l) j).
Proof.
  intros Hij [H1 H2]. unfold exchange, sortsTo. cbn [mbind result_bind]. rewrite lessAt_spec by lia.
  cbn [mbind result_bind]. destruct (Z.ltb_spec (at_ l j) (at_ l i)).
  - destruct (swapAt_spec l i j) as (l' & -> & Hp & Hlen & Hat); [lia..|].
    exists l'. split; [done|]. split; [done|]. split.
    + intros k m Hk Hm. rewrite Hlen in Hm.
      pose proof (H1 k m Hk). pose proof (H1 k i Hk). pose proof (H1 k j Hk). swap_cases Hat; subst; lia.
    + intros m Hm. specialize (H2 m). swap_cases Hat; subst; lia.
  - exists l. split; [done|]. split; [done|]. split; [done|]. intros m Hm. specialize (H2 m).
    destruct (decide (m = j)) as [->|]; lia.
Qed.

Lemma exchangeRow_spec c l i j :
  (i < j)%nat -> (j + c = length l)%nat -> rowInv i j l ->
  sortsTo l (rowInv i (length l)) (foldl (exchange i) (Ok l) (seq j c)).
Proof.
  revert l j. induction c as [|c IH]; intros l j Hij Hl Hr; cbn [seq foldl].
  - exists l. split; [done|]. split; [done|]. by replace (length l) with j by lia.
  - destruct (exchange_spec l i j) as (l1 & -> & Hp & Hr1); [lia|done|].
    pose proof (Permutation_length Hp) as Hlen.
    destruct (IH l1 (S j)) as (l2 & -> & Hp2 & Hr2); [lia|lia|done|].
    exists l2. split; [done|]. split; [by transitivity l1|]. by rewrite <- Hlen.
Qed.

Lemma rows_spec c l i :
  (i + c = length l)%nat -> rowInv i (S i) l ->
  sortsTo l (rowInv (length l) (length l)) (foldl (exchangeRow (length l)) (Ok l) (seq i c)).
Proof.
  revert l i. induction c as [|c IH]; intros l i Hl Hr; cbn [seq foldl].
  - exists l. split; [done|]. split; [done|]. replace (length l) with i by lia.
    destruct Hr as [H1 _]. split; [exact H1|intros; lia].
  - destruct (exchangeRow_spec (length l - (i + 1)) l i (i + 1)) as (l1 & E & Hp & [H1 H2]); [lia|lia| |].
    { by rewrite Nat.add_1_r. }
    unfold exchangeRow at 2. rewrite E. pose proof (Permutation_length Hp) as Hlen.
    destruct (IH l1 (S i)) as (l2 & E2 & Hp2 & Hr2); [lia| |].
    + split; [|intros; lia]. intros k m Hk Hm.
      destruct (decide (k = i)) as [->|]; [apply H2; lia|apply H1; lia].
    + rewrite <- Hlen. rewrite E2. exists l2. split; [done|]. split; [by transitivity l1|done].
Qed.

Definition notAbove (x y : I) : Prop := Priority x <= Priority y.

Lemma rowInv_sorted l : rowInv (length l) (length l) l -> StronglySorted notAbove l.
Proof.
  induction l as [|x l IH]; intros [H1 _]; constructor.
  - apply IH. split; [|intros; lia]. intros k m Hk Hm. apply (H1 (S k) (S m)); cbn; lia.
  - apply Forall_lookup. intros i y E. pose proof (lookup_lt_Some _ _ _ E).
    assert (at_ (x :: l) (S i) = Priority y) as Ey.
    { unfold at_. change ((x :: l) !! S i) with (l !! i). by rewrite E. }
    unfold notAbove. rewrite <- Ey. apply (H1 0%nat (S i)); cbn; lia.
Qed.

Lemma All_spec l : sortsTo l (StronglySorted notAbove) (All l).
Proof.
  unfold All. destruct (Nat.eqb_spec (length l) 0) as [E|E].
  - apply nil_length_inv in E as ->. exists []. repeat constructor.
  - destruct (rows_spec (length l) l 0) as (l' & -> & Hp & Hr); [lia| |].
    + split; intros; lia.
    + exists l'. split; [done|]. split; [done|]. apply rowInv_sorted.
      by rewrite (Permutation_length Hp).
Qed.

(** ** Refinement *)

Inductive heapOp :=
| HPush (x : I)
| HPop
| HPeek
| HSize
| HAll.

Inductive heapOut :=
| ODone
| OItem (o : option I)
| OSize (n : Z)
| OAll (l : list I).

Definition applyHeap (items : list I) (o : heapOp) : result (heapOut * list I) :=
  match o with
  | HPush x => items' ← Push x items; Ok (ODone, items')
  | HPop => r ← Pop items; Ok (OItem r.1, r.2)
  | HPeek => r ← Peek items; Ok (OItem r, items)
  | HSize => Ok (OSize (Size items), items)
  | HAll => r ← All items; Ok (OAll r, items)
  end.

Fixpoint runHeap (ops : list heapOp) (items : list I) : result (list heapOut * list I) :=
  match ops with
  | [] => Ok ([], items)
  | o :: ops =>
    r ← applyHeap items o; rs ← runHeap ops r.2; Ok (r.1 :: rs.1, rs.2)
  end.

(** A priority queue: a bag of items, given up to order. *)
Inductive bagStep (b : list I) : heapOp -> heapOut -> list I -> Prop :=
| bag_push x b' : b' ≡ₚ x :: b -> bagStep b (HPush x) ODone b'
| bag_pop_empty b' : b = [] -> b' = [] -> bagStep b HPop (OItem None) b'
| bag_pop m b' : b ≡ₚ m :: b' -> minimal m b -> bagStep b HPop (OItem (Some m)) b'
| bag_peek_empty b' : b = [] -> b' = [] -> bagStep b HPeek (OItem None) b'
| bag_peek m b' : m ∈ b -> minimal m b -> b' ≡ₚ b -> bagStep b HPeek (OItem (Some m)) b'
| bag_size b' : b' ≡ₚ b -> bagStep b HSize (OSize (Z.of_nat (length b))) b'
| bag_all l b' : l ≡ₚ b -> StronglySorted notAbove l -> b' ≡ₚ b -> bagStep b HAll (OAll l) b'.

Inductive bagRun : list I -> list heapOp -> list heapOut -> list I -> Prop :=
| bag_done b : bagRun b [] [] b
| bag_more b o out b' ops outs b'' :
    bagStep b o out b' -> bagRun b' ops outs b'' -> bagRun b (o :: ops) (out :: outs) b''.

Lemma applyHeap_refines l o :
  heap l -> exists out l', applyHeap l o = Ok (out, l') /\ bagStep l o out l' /\ heap l'.
Proof.
  intros Hh. destruct o as [x| | | |]; cbn [applyHeap].
  - destruct (Push_spec x l Hh) as (l' & -> & Hp & ?). exists ODone, l'. split; [done|].
    split; [by constructor|done].
  - destruct l as [|m l]; [exists (OItem None), []; split; [done|split; [by constructor|done]]|].
    destruct (Pop_spec m l Hh) as (l' & -> & Hp & ?). exists (OItem (Some m)), l'. split; [done|].
    split; [|done]. apply bag_pop; [by rewrite Hp|by apply heap_minimal].
  - destruct l as [|m l]; [exists (OItem None), []; split; [done|split; [by constructor|done]]|].
    exists (OItem (Some m)), (m :: l). split; [done|]. split; [|done].
    apply bag_peek; [set_solver|by apply heap_minimal|done].
  - exists (OSize (Size l)), l. split; [done|]. split; [by constructor|done].
  - destruct (All_spec l) as (l' & -> & Hp & Hs). exists (OAll l'), l. split; [done|].
    split; [by constructor|done].
Qed.

Lemma runHeap_refines ops l :
  heap l -> exists outs l', runHeap ops l = Ok (outs, l') /\ bagRun l ops outs l'.
Proof.
  revert l. induction ops as [|o ops IH]; intros l Hh; [exists [], l; split; [done|constructor]|].
  destruct (applyHeap_refines l o Hh) as (out & l1 & E & Hs & Hh1).
  destruct (IH l1 Hh1) as (outs & l2 & E2 & Hr). exists (out :: outs), l2. cbn [runHeap].
  rewrite E. cbn [mbind result_bind fst snd]. rewrite E2. split; [done|]. by eapply bag_more.
Qed.

(** Any sequence of Push, Pop, Peek, Size and All on a new heap runs without
    panic and within its fuel and refines a priority queue: Pop and Peek return an
    item of least priority (Pop takes it out), Size the number of items and All the
    items in order of priority. *)
Theorem minheap_refines_queue (ops : list heapOp) :
  exists outs items, runHeap ops NewMinHeap = Ok (outs, items) /\ bagRun NewMinHeap ops outs items.
Proof. apply runHeap_refines. intros j Hj. cbn in Hj. lia. Qed.
End minheap.

Example minheap_run :
  runHeap (fun z => z) [HPush 5; HPush 2; HPush 9; HPush 1; HAll; HPop; HPop; HPeek; HSize] NewMinHeap
  = Ok ([ODone; ODone; ODone; ODone; OAll [1; 2; 5; 9]; OItem (Some 1); OItem (Some 2); OItem (Some 5);
         OSize 2], [5; 9]).
Proof. by vm_compute. Qed.
