(* ===== verification/OrderEncoding.v ===== *)
(** * Order-preserving field keys (types/schema/order_encoding.go)

    The key under which a field of a schema class is stored in a vector commitment
    tree.  The theorems relate keys to the nibble paths the tree follows: a key spells
    the order in base 64, one nibble per digit, with a zero nibble at the end. *)

From S2P Require Import Prelude Nibbles.

(** RDFTag of types/schema/tags.go. *)
Record RDFTag := mkTag {
  Name : string;
  Extrinsic : string;
  Order : Z;
  Size : option Z;
  Raw : string;
  RdfType : string;
  FieldSize : Z
}.

(** Class name to property name to tag. *)
Definition TagsByClass : Type := gmap string (gmap string RDFTag).

Definition MaxOrderSingleByte : Z := 63.
Definition MaxOrderTwoByte : Z := 4093.
Definition MaxOrderThreeByte : Z := 262142.

Definition OrderToKey (order maxOrder : Z) : result bytes :=
  if order <? 0 then Err "order must be non-negative"
  else if maxOrder <=? MaxOrderSingleByte then
    Ok [Z_byte (i64 (Z.shiftl order 2))]
  else if maxOrder <=? MaxOrderTwoByte then
    let shifted := i64 (Z.shiftl order 4) in
    Ok [Z_byte (Z.shiftr shifted 8); Z_byte (Z.land shifted 255)]
  else if maxOrder <=? MaxOrderThreeByte then
    let shifted := i64 (Z.shiftl order 6) in
    Ok [Z_byte (Z.shiftr shifted 16); Z_byte (Z.land (Z.shiftr shifted 8) 255);
        Z_byte (Z.land shifted 255)]
  else Err "order value exceeds maximum allowed value".

Definition KeyToOrder (key : bytes) : result Z :=
  match key with
  | [] => Err "empty key"
  | [a] => Ok (Z.shiftr (byte_Z a) 2)
  | [a; b] => Ok (Z.shiftr (Z.lor (Z.shiftl (byte_Z a) 8) (byte_Z b)) 4)
  | [a; b; c] =>
    Ok (Z.shiftr (Z.lor (Z.lor (Z.shiftl (byte_Z a) 16) (Z.shiftl (byte_Z b) 8)) (byte_Z c)) 6)
  | _ => Err "invalid key length"
  end.

(** The two loops range over Go maps; a maximum does not depend on the order. *)
Definition GetMaxOrderForDocument (tagsByClass : TagsByClass) : Z :=
  map_fold (fun _ classTags maxOrder =>
    map_fold (fun _ tag maxOrder => if maxOrder <? Order tag then Order tag else maxOrder)
      maxOrder classTags) (-1) tagsByClass.

Definition GetPolySizeForMaxOrder (maxOrder : Z) : Z :=
  if maxOrder <=? MaxOrderSingleByte then 64
  else if maxOrder <=? MaxOrderTwoByte then 4096
  else if maxOrder <=? MaxOrderThreeByte then 262144
  else 262144.

(** ** Nibbles of a big-endian number *)

Lemma be_lookup n v j :
  (j < n)%nat -> be n v !! j = Some (Z_byte (v / 256 ^ Z.of_nat (n - 1 - j))).
Proof.
  revert j. induction n as [|n IH]; intros [|j] Hj; [lia|lia| |].
  - cbn [be]. by replace (S n - 1 - 0)%nat with n by lia.
  - cbn [be]. transitivity (be n v !! j); [done|]. rewrite IH by lia.
    by replace (S n - 1 - S j)%nat with (n - 1 - j)%nat by lia.
Qed.

Lemma key_bit_be n v i :
  0 <= i -> key_bit (be n v) i = (i <? 8 * Z.of_nat n) && Z.testbit v (8 * Z.of_nat n - 1 - i).
Proof.
  intros Hi. unfold key_bit. pose proof (Z.div_mod i 8 ltac:(lia)) as E.
  pose proof (Z.mod_pos_bound i 8 ltac:(lia)) as Hm.
  destruct (Z.ltb_spec i (8 * Z.of_nat n)) as [Hlt|Hge]; cbn [andb].
  - rewrite be_lookup by lia. rewrite byte_Z_of.
    change 256 with (2 ^ 8) at 2. rewrite Z.mod_pow2_bits_low by lia.
    replace (256 ^ Z.of_nat (n - 1 - Z.to_nat (i / 8)))
      with (2 ^ (8 * (Z.of_nat n - 1 - i / 8))).
    + rewrite Z.div_pow2_bits by lia. f_equal. lia.
    + change 256 with (2 ^ 8). rewrite <- Z.pow_mul_r by lia. f_equal. lia.
  - rewrite lookup_ge_None_2; [done|]. rewrite be_length. lia.
Qed.

Lemma nib_be n v i :
  6 * Z.of_nat i < 8 * Z.of_nat n ->
  nib (be n v) i = v * 64 / 2 ^ (8 * Z.of_nat n - 6 * Z.of_nat i) mod 64.
Proof.
  intros Hi. assert (6 * Z.of_nat i / 8 < Z.of_nat n) as Hq by (apply Z.div_lt_upper_bound; lia).
  pose proof (getNextNibble_range (be n v) (6 * Z.of_nat i) ltac:(lia)) as Hr.
  rewrite be_length in Hr. specialize (Hr Hq).
  unfold nib. change BranchBits with 6. apply Z.bits_inj'. intros j Hj.
  change 64 with (2 ^ 6) at 2. destruct (Z.ltb_spec j 6) as [Hj6|Hj6].
  - rewrite getNextNibble_bits by (rewrite ?be_length; lia). rewrite key_bit_be by lia.
    rewrite Z.mod_pow2_bits_low, Z.div_pow2_bits by lia. change 64 with (2 ^ 6).
    destruct (Z.ltb_spec (6 * Z.of_nat i + 5 - j) (8 * Z.of_nat n)); cbn [andb].
    + rewrite Z.mul_pow2_bits by lia. f_equal. lia.
    + rewrite Z.mul_pow2_bits_low by lia. done.
  - rewrite Z.mod_pow2_bits_high by lia.
    apply Z.bits_above_log2; [lia|].
    destruct (decide (getNextNibble (be n v) (6 * Z.of_nat i) = 0)) as [->|Hne]; [cbn; lia|].
    apply Z.log2_lt_pow2; [lia|]. pose proof (Z.pow_le_mono_r 2 6 j). lia.
Qed.

(** ** The encoding *)

Lemma lor_shift a b n : 0 <= n -> 0 <= b < 2 ^ n -> Z.lor (Z.shiftl a n) b = a * 2 ^ n + b.
Proof.
  intros Hn Hb. rewrite <- (Z.shiftl_mul_pow2 a n Hn). rewrite <- (Z.add_lor_land (Z.shiftl a n) b).
  assert (Z.land (Z.shiftl a n) b = 0) as ->; [|lia].
  apply Z.bits_inj'. intros j Hj. rewrite Z.land_spec, Z.shiftl_spec, Z.bits_0 by lia.
  destruct (Z.ltb_spec j n) as [Hlt|Hge]; [by rewrite Z.testbit_neg_r by lia|].
  destruct (decide (b = 0)) as [->|Hne]; [by rewrite Z.bits_0, andb_false_r|].
  rewrite (Z.bits_above_log2 b j); [apply andb_false_r|lia|].
  apply Z.log2_lt_pow2; [lia|]. pose proof (Z.pow_le_mono_r 2 n j). lia.
Qed.

(** The number of bytes of a key, and of base-64 digits of an order. *)
Definition keyWidth (maxOrder : Z) : nat :=
  if maxOrder <=? MaxOrderSingleByte then 1
  else if maxOrder <=? MaxOrderTwoByte then 2 else 3.

Definition digits64 (k : nat) (o : Z) : list Z :=
  (fun i => o / 64 ^ Z.of_nat (k - 1 - i) mod 64) <$> seq 0 k.

Definition orderKey (k : nat) (o : Z) : bytes := be k (o * 4 ^ Z.of_nat k).

Lemma Z_byte_ext x y : x mod 256 = y mod 256 -> Z_byte x = Z_byte y.
Proof. intros E. apply (inj byte_Z). by rewrite !byte_Z_of. Qed.

Lemma i64_shift o n : 0 <= o <= MaxOrderThreeByte -> 0 <= n <= 6 -> i64 (Z.shiftl o n) = o * 2 ^ n.
Proof.
  unfold MaxOrderThreeByte. intros Ho Hn. rewrite Z.shiftl_mul_pow2 by lia.
  apply swrap_small; [lia|]. unfold is_i.
  assert (1 <= 2 ^ n <= 64) as Hp.
  { split; [apply (Z.pow_le_mono_r 2 0 n); lia|apply (Z.pow_le_mono_r 2 n 6); lia]. }
  cbn. nia.
Qed.

Lemma OrderToKey_key o maxOrder :
  0 <= o <= maxOrder -> maxOrder <= MaxOrderThreeByte ->
  OrderToKey o maxOrder = Ok (orderKey (keyWidth maxOrder) o).
Proof.
  intros Ho Hm. unfold OrderToKey, keyWidth, orderKey. destruct (Z.ltb_spec o 0); [lia|].
  rewrite !i64_shift by lia. change 255 with (Z.ones 8).
  destruct (Z.leb_spec maxOrder MaxOrderSingleByte); [|destruct (Z.leb_spec maxOrder MaxOrderTwoByte);
    [|destruct (Z.leb_spec maxOrder MaxOrderThreeByte); [|lia]]].
  all: rewrite ?Z.land_ones by lia; rewrite ?Z.shiftr_div_pow2 by lia; unfold be.
  - by rewrite Z.div_1_r.
  - f_equal. f_equal. f_equal. apply Z_byte_ext.
    change (256 ^ Z.of_nat 0) with 1. rewrite Z.div_1_r. apply Z.mod_mod. lia.
  - f_equal. f_equal. f_equal; [apply Z_byte_ext, Z.mod_mod; lia|]. f_equal. apply Z_byte_ext.
    change (256 ^ Z.of_nat 0) with 1. rewrite Z.div_1_r. apply Z.mod_mod. lia.
Qed.

Lemma keyWidth_range maxOrder : (1 <= keyWidth maxOrder <= 3)%nat.
Proof. unfold keyWidth. destruct (_ <=? _); [lia|]. destruct (_ <=? _); lia. Qed.

(** Every order fits its width. *)
Lemma keyWidth_fits o maxOrder :
  0 <= o <= maxOrder -> maxOrder <= MaxOrderThreeByte -> 0 <= o < 64 ^ Z.of_nat (keyWidth maxOrder).
Proof.
  unfold keyWidth, MaxOrderThreeByte. intros Ho Hm.
  destruct (Z.leb_spec maxOrder MaxOrderSingleByte) as [H1|H1]; [unfold MaxOrderSingleByte in H1; lia|].
  destruct (Z.leb_spec maxOrder MaxOrderTwoByte) as [H2|H2]; [unfold MaxOrderTwoByte in H2; lia|]. lia.
Qed.

Lemma polySize_width maxOrder : GetPolySizeForMaxOrder maxOrder = 64 ^ Z.of_nat (keyWidth maxOrder).
Proof.
  unfold GetPolySizeForMaxOrder, keyWidth. destruct (_ <=? _); [done|]. destruct (_ <=? _); [done|].
  by destruct (_ <=? _).
Qed.

Lemma orderKey_length k o : length (orderKey k o) = k.
Proof. apply be_length. Qed.

(** The path of a key: the digits of the order, then a zero nibble. *)
Lemma orderKey_path k o :
  (1 <= k <= 3)%nat -> 0 <= o -> path (orderKey k o) = digits64 k o ++ [0].
Proof.
  intros Hk Ho. unfold path, digits64. rewrite orderKey_length.
  replace (npath k) with (S k) by (destruct k as [|[|[|[|]]]]; [lia|done..|lia]).
  assert (forall i : nat, (i <= k)%nat -> nib (orderKey k o) i
    = o * 2 ^ (2 * Z.of_nat k + 6) / 2 ^ (8 * Z.of_nat k - 6 * Z.of_nat i) mod 64) as Hn.
  { intros i Hi. unfold orderKey. rewrite nib_be by lia. f_equal. f_equal.
    change 4 with (2 ^ 2). rewrite <- Z.pow_mul_r by lia. change 64 with (2 ^ 6).
    rewrite <- Z.mul_assoc, <- Z.pow_add_r by lia. done. }
  rewrite seq_S, fmap_app. f_equal.
  - apply list_fmap_ext. intros i j Hj. apply lookup_seq in Hj as [-> Hj]. rewrite Nat.add_0_l. rewrite Hn by lia. f_equal.
    replace (8 * Z.of_nat k - 6 * Z.of_nat i)
      with (6 * Z.of_nat (k - 1 - i) + (2 * Z.of_nat k + 6)) by lia.
    rewrite (Z.pow_add_r 2 (6 * _)) by lia. rewrite Z.div_mul_cancel_r by (apply Z.pow_nonzero; lia).
    f_equal. change 64 with (2 ^ 6). by rewrite Z.pow_mul_r by lia.
  - cbn [Nat.add fmap list_fmap]. rewrite Hn by lia. f_equal.
    replace (8 * Z.of_nat k - 6 * Z.of_nat k) with (2 * Z.of_nat k) by lia.
    rewrite (Z.add_comm _ 6), Z.pow_add_r, Z.mul_assoc, Z.div_mul by lia.
    apply Z.mod_mul. done.
Qed.

(** ** Properties *)

Lemma KeyToOrder_key k o :
  (1 <= k <= 3)%nat -> 0 <= o < 64 ^ Z.of_nat k -> KeyToOrder (orderKey k o) = Ok o.
Proof.
  intros Hk Ho. pose proof (be_val_be k (o * 4 ^ Z.of_nat k)) as E. fold (orderKey k o) in E.
  pose proof (orderKey_length k o) as El.
  assert (be_val (orderKey k o) = o * 4 ^ Z.of_nat k) as Ev.
  { rewrite E. apply Z.mod_small. split; [lia|].
    change 256 with (64 * 4). rewrite Z.pow_mul_l. nia. }
  assert (forall n, 0 <= n -> o * 2 ^ n / 2 ^ n = o) as Hd
    by (intros n Hn; apply Z.div_mul, Z.pow_nonzero; lia).
  destruct (orderKey k o) as [|a [|b [|c [|]]]]; cbn [length] in El; subst k; try lia;
    cbn [KeyToOrder]; f_equal; rewrite !be_val_cons in Ev; change (be_val []) with 0 in Ev; cbn in Ev;
    pose proof (byte_Z_range a); rewrite Z.shiftr_div_pow2 by lia.
  - rewrite <- (Hd 2) by lia. f_equal. lia.
  - pose proof (byte_Z_range b). rewrite lor_shift by lia. rewrite <- (Hd 4) by lia. f_equal. lia.
  - pose proof (byte_Z_range b). pose proof (byte_Z_range c).
    rewrite (lor_shift (byte_Z a) (Z.shiftl (byte_Z b) 8) 16); rewrite ?Z.shiftl_mul_pow2 by lia; [|lia..].
    replace (byte_Z a * 2 ^ 16 + byte_Z b * 2 ^ 8) with (Z.shiftl (byte_Z a * 2 ^ 8 + byte_Z b) 8)
      by (rewrite Z.shiftl_mul_pow2; lia).
    rewrite lor_shift by lia. rewrite <- (Hd 6) by lia. f_equal. lia.
Qed.

Definition docTag (tags : TagsByClass) (class field : string) (tag : RDFTag) : Prop :=
  exists classTags, tags !! class = Some classTags /\ classTags !! field = Some tag.

Lemma maxOrder_class (ct : gmap string RDFTag) init :
  let r := map_fold (fun _ tag m => if m <? Order tag then Order tag else m) init ct in
  init <= r /\ forall f tag, ct !! f = Some tag -> Order tag <= r.
Proof.
  apply (map_fold_weak_ind (fun r (ct : gmap string RDFTag) =>
    init <= r /\ forall f tag, ct !! f = Some tag -> Order tag <= r)).
  - split; [lia|]. intros f tag. by rewrite lookup_empty.
  - intros f x m r _ [H1 H2]. split; [destruct (Z.ltb_spec r (Order x)); lia|].
    intros f' tag [[-> ->]|[_ E]]%lookup_insert_Some; [destruct (Z.ltb_spec r (Order tag)); lia|].
    specialize (H2 _ _ E). destruct (Z.ltb_spec r (Order x)); lia.
Qed.

Lemma maxOrder_bound tags class field tag :
  docTag tags class field tag -> Order tag <= GetMaxOrderForDocument tags.
Proof.
  intros (ct & Ec & Ef). revert class ct Ec Ef. unfold GetMaxOrderForDocument.
  apply (map_fold_weak_ind (fun r (tags : gmap string (gmap string RDFTag)) =>
    forall class ct, tags !! class = Some ct -> ct !! field = Some tag -> Order tag <= r)).
  - intros class ct. by rewrite lookup_empty.
  - intros c x m r _ IH class ct E Ef. destruct (maxOrder_class x r) as [H1 H2].
    apply lookup_insert_Some in E as [[_ ->]|[_ E]]; [by apply (H2 field)|].
    specialize (IH _ _ E Ef). lia.
Qed.

(** The key of a field of a document within the limits of the encoding. *)
Lemma field_key tags class field tag :
  docTag tags class field tag -> 0 <= Order tag ->
  GetMaxOrderForDocument tags <= MaxOrderThreeByte ->
  let k := keyWidth (GetMaxOrderForDocument tags) in
  OrderToKey (Order tag) (GetMaxOrderForDocument tags) = Ok (orderKey k (Order tag))
  /\ (1 <= k <= 3)%nat /\ 0 <= Order tag < 64 ^ Z.of_nat k.
Proof.
  intros Ht H0 Hm k. pose proof (maxOrder_bound _ _ _ _ Ht).
  split_and!; [by apply OrderToKey_key|apply keyWidth_range..|lia|].
  apply keyWidth_fits; lia.
Qed.

(** The keys of the fields of a document are faithful.  For every tag of a document
    whose largest order is at most 262142, the order is encoded to a key from which it is
    decoded; the nibble path the tree follows for the key spells the order in base 64, one
    nibble per digit, and ends in a zero nibble; the order is an index of the polynomial of
    the size chosen for the document; and the byte order of keys is the order of the tags. *)
Theorem field_key_faithful (tags : TagsByClass) (class field : string) (tag : RDFTag) :
  docTag tags class field tag -> 0 <= Order tag ->
  GetMaxOrderForDocument tags <= MaxOrderThreeByte ->
  let maxOrder := GetMaxOrderForDocument tags in
  exists key, OrderToKey (Order tag) maxOrder = Ok key /\ KeyToOrder key = Ok (Order tag)
  /\ getFullPath key = Ok (digits64 (keyWidth maxOrder) (Order tag) ++ [0])
  /\ GetPolySizeForMaxOrder maxOrder = 64 ^ Z.of_nat (keyWidth maxOrder)
  /\ Order tag < GetPolySizeForMaxOrder maxOrder
  /\ (forall class' field' tag' key', docTag tags class' field' tag' ->
      OrderToKey (Order tag') maxOrder = Ok key' ->
      length key' = length key /\ (Order tag < Order tag' <-> be_val key < be_val key')).
Proof.
  intros Ht H0 Hm maxOrder. destruct (field_key _ _ _ _ Ht H0 Hm) as (Ek & Hk & Ho).
  fold maxOrder in Ek, Hk, Ho. set (k := keyWidth maxOrder) in *.
  exists (orderKey k (Order tag)). rewrite polySize_width, getFullPath_path. fold k.
  split_and!; [done|by apply KeyToOrder_key|by rewrite orderKey_path by lia|done|lia|].
  intros class' field' tag' key' Ht' Ek'.
  assert (0 <= Order tag') as H0'.
  { unfold OrderToKey in Ek'. by destruct (Z.ltb_spec (Order tag') 0). }
  destruct (field_key _ _ _ _ Ht' H0' Hm) as (Ek2 & _ & Ho'). fold maxOrder in Ek2, Ho'.
  rewrite Ek' in Ek2. injection Ek2 as ->. fold k. rewrite !orderKey_length. split; [done|].
  unfold orderKey. rewrite !be_val_be, !Z.mod_small; [|split; [lia|]..].
  - assert (0 < 4 ^ Z.of_nat k) by (apply Z.pow_pos_nonneg; lia). nia.
  - change 256 with (64 * 4). rewrite Z.pow_mul_l. fold k in Ho'. nia.
  - change 256 with (64 * 4). rewrite Z.pow_mul_l. nia.
Qed.

Definition demoTags : TagsByClass :=
  {[ "Account" := {[ "Owner" := mkTag "Owner" "" 0 None "" "" 0; "Total" := mkTag "Total" "" 70 None "" "" 0 ]} ]}.

Lemma field_key_faithful_witness :
  exists key, OrderToKey 70 (GetMaxOrderForDocument demoTags) = Ok key /\ KeyToOrder key = Ok 70
  /\ getFullPath key = Ok [1; 6; 0].
Proof.
  destruct (field_key_faithful demoTags "Account" "Total" (mkTag "Total" "" 70 None "" "" 0))
    as (key & E1 & E2 & E3 & _).
  - eexists. split; by vm_compute.
  - cbn. lia.
  - by vm_compute.
  - exists key. split_and!; [exact E1|exact E2|exact E3].
Defined.

(** An order above the declared maximum is not refused and shares its key with another. *)
Example order_above_maximum : OrderToKey 64 63 = OrderToKey 0 63 /\ is_Ok (OrderToKey 64 63).
Proof. split; [by vm_compute|by eexists]. Qed.
