(* ===== verification/RdfMultiprover.v ===== *)
(** * Schema-directed access to trees (types/schema/rdf_multiprover.go)

    RDFMultiprover stores the fields of a schema class in a vector commitment tree
    under the keys of OrderEncoding, reads them back, proves and verifies them, and
    checks a tree against a schema.  The parser of schema documents is an interface in
    the source and a class here; so are the Poseidon hash and the inclusion prover.  Go
    ranges over maps in no fixed order: operations that do so take the order in which
    the classes or tags are visited as an argument. *)

From Stdlib Require Strings.String.
From Stdlib Require Import Ascii.
From S2P Require Import Prelude Nibbles ProofTree ProofTreeWf ProofTreeOps ProofTreeMap.
From S2P Require Import ProofTreeMeta ProofTreeCommit ProofTreeCanon ProofTreeProve ProofTreeProveSpec.
From S2P Require Import ProofTreeTraversal Wire CanonicalTypes Keys KeyRegistry Global TraversalWire OrderEncoding.

(** RDFParser of types/schema/rdf.go, as far as the multiprover uses it. *)
Class RDFParser := { GetTagsByClass : string -> result TagsByClass }.

(** poseidon.HashBytes. *)
Class PoseidonHash := { HashBytes : bytes -> result Z }.

Definition QCLUint : string := "Uint".
Definition QCLInt : string := "Int".
Definition QCLByteArray : string := "ByteArray".
Definition QCLBoolean : string := "Bool".
Definition QCLString : string := "String".
Definition QCLStruct : string := "Struct".

(** [bytes.Repeat([]byte{0xff}, 32)] *)
Definition typeKey : bytes := replicate 32 Byte.xff.

Definition stringBytes (s : string) : bytes := Strings.String.list_byte_of_string s.

(** [strings.Split(s, ".")] *)
Fixpoint splitDot (s : string) : list string :=
  match s with
  | EmptyString => [EmptyString]
  | String c rest =>
    match splitDot rest with
    | [] => [] (* not reached: the result is never empty *)
    | part :: parts =>
      if decide (c = "."%char) then EmptyString :: part :: parts else String c part :: parts
    end
  end.

(** Checks the size of a stored value against its tag. *)
Definition sizeIs (value : bytes) (size : Z) (msg : string) : result unit :=
  if Z.of_nat (length value) =? size then Ok tt else Err msg.

Definition validateSized (value : bytes) (tag : RDFTag) : result unit :=
  if 0 <? FieldSize tag then sizeIs value (FieldSize tag) "unexpected size"
  else if negb (Z.of_nat (length value) =? 4) && negb (Z.of_nat (length value) =? 8)
  then Err "field without size must be 4 or 8 bytes" else Ok tt.

Definition validateExact (value : bytes) (tag : RDFTag) : result unit :=
  if FieldSize tag =? 0 then Err "field must have size specified"
  else sizeIs value (FieldSize tag) "unexpected size".

Definition validateValue (value : bytes) (tag : RDFTag) : result unit :=
  _ ← (if decide (RdfType tag = QCLUint) then validateSized value tag
       else if decide (RdfType tag = QCLInt) then validateSized value tag
       else if decide (RdfType tag = QCLByteArray) then validateExact value tag
       else if decide (RdfType tag = QCLBoolean) then sizeIs value 1 "Bool field must be exactly 1 byte"
       else if decide (RdfType tag = QCLString) then validateExact value tag
       else if decide (RdfType tag = QCLStruct) then sizeIs value 32 "Struct field must be exactly 32 bytes"
       else if 0 <? FieldSize tag then sizeIs value (FieldSize tag) "unexpected size"
       else Ok tt);
  if negb (bool_decide (Extrinsic tag = EmptyString)) && negb (Z.of_nat (length value) =? 32)
  then Err "extrinsic fields must be 32 bytes" else Ok tt.

(** An update of a tree that may fail, leaving the tree as it was. *)
Definition updated (t : VectorCommitmentTree) (r : result VectorCommitmentTree)
    : result unit * VectorCommitmentTree :=
  match r with
  | Ok t' => (Ok tt, t')
  | Err e => (Err e, t)
  | Panic => (Panic, t)
  | Diverge => (Diverge, t)
  end.

(** ** The operations on a parsed document *)

Section document.
Context `{InclusionProver} `{PoseidonHash} (tags : TagsByClass).

Definition typeBytes (domain : bytes) (class : string) : result bytes :=
  typeBI ← HashBytes (domain ++ stringBytes class); FillBytes32 typeBI.

(** The loops of GetType and ValidateWithOptions over the classes. *)
Fixpoint findType (domain typeHash : bytes) (classes : list string) : result (option string) :=
  match classes with
  | [] => Ok None
  | k :: classes =>
    tb ← typeBytes domain k;
    if decide (typeHash = tb) then Ok (Some k) else findType domain typeHash classes
  end.

Definition typeIn (classes : list string) (domain : bytes) (t : VectorCommitmentTree)
    : result string :=
  typeHash ← ProofTree.Get t typeKey;
  found ← findType domain typeHash classes;
  match found with Some k => Ok k | None => Err "type not found" end.

Definition classTag (class field : string) : option RDFTag := tags !! class ≫= lookup field.

(** The search of an unqualified field through the classes. *)
Fixpoint searchClasses (classes : list string) (field : string) (found : option RDFTag)
    : result (option RDFTag) :=
  match classes with
  | [] => Ok found
  | class :: classes =>
    match classTag class field with
    | None => searchClasses classes field found
    | Some t =>
      match found with
      | Some _ => Err "ambiguous field found in multiple classes"
      | None => searchClasses classes field (Some t)
      end
    end
  end.

Definition findField (classes : list string) (field : string) : result RDFTag :=
  found ← match splitDot field with
          | [className; fieldName] => Ok (classTag className fieldName)
          | _ => searchClasses classes field None
          end;
  match found with None => Err "field not found in RDF schema" | Some tag => Ok tag end.

Fixpoint proveIndices (classes fields : list string) : result (list Z) :=
  match fields with
  | [] => Ok []
  | field :: fields =>
    tag ← findField classes field;
    if MaxOrderThreeByte <? Order tag then Err "order value exceeds maximum allowed value"
    else idx ← proveIndices classes fields; Ok (u64 (Order tag) :: idx)
  end.

(** Commit and GetPolynomial of the root, which panic on a nil root and on a leaf; the
    tree keeps the commitments cached on the way. *)
Definition rootPolynomial (t : VectorCommitmentTree) : result (bytes * bytes * VectorCommitmentTree) :=
  match Root t with
  | None => Panic
  | Some n =>
    match commitNode false n with
    | (commit, BranchNode b) => Ok (commit, GetPolynomial b, mkTree (Some (BranchNode b)))
    | (_, LeafNode _) => Panic
    end
  end.

Definition proveIn (classes fields : list string) (t : VectorCommitmentTree) (typeIndex : option Z)
    : result Multiproof * VectorCommitmentTree :=
  let polySize := GetPolySizeForMaxOrder (GetMaxOrderForDocument tags) in
  match rootPolynomial t with
  | Ok (commit, poly, t') =>
    (idx ← proveIndices classes fields;
     let indices := idx ++ match typeIndex with Some i => [i] | None => [] end in
     Ok (proverProveMultiple (replicate (length indices) commit) (replicate (length indices) poly)
           indices polySize), t')
  | Err e => (Err e, t)
  | Panic => (Panic, t)
  | Diverge => (Diverge, t)
  end.

(** The indices and evaluations of the fields from the [i]-th on. *)
Fixpoint verifyEntries (classes : list string) (maxOrder : Z) (keys : list (option bytes))
    (data : list bytes) (i : nat) (fields : list string) : result (list (Z * bytes)) :=
  match fields with
  | [] => Ok []
  | field :: fields =>
    tag ← findField classes field;
    given ← (if 0 <? Z.of_nat (length keys) then index keys (Z.of_nat i) else Ok None);
    key ← match given with Some key => Ok key | None => OrderToKey (Order tag) maxOrder end;
    d ← index data (Z.of_nat i);
    rest ← verifyEntries classes maxOrder keys data (S i) fields;
    Ok ((u64 (Order tag), sha512 (Byte.x00 :: key ++ d)) :: rest)
  end.

Definition verifyIn (classes fields : list string) (keys : list (option bytes)) (commit proof : bytes)
    (data : list bytes) (typeIndex : option Z) (typeData : option bytes) : result bool :=
  if negb (Z.of_nat (length fields) =? Z.of_nat (length data))
  then Err "fields and data length mismatch"
  else if (0 <? Z.of_nat (length keys)) && negb (Z.of_nat (length keys) =? Z.of_nat (length fields))
  then Err "keys and fields length mismatch"
  else
    let maxOrder := GetMaxOrderForDocument tags in
    let polySize := GetPolySizeForMaxOrder maxOrder in
    es ← verifyEntries classes maxOrder keys data 0 fields;
    let es := es ++ match typeIndex, typeData with
                    | Some i, Some d => [(i, sha512 (Byte.x00 :: typeKey ++ d))]
                    | _, _ => []
                    end in
    mp ← Multiproof_FromBytes proof;
    Ok (VerifyMultiple (replicate (length es) commit) es.*2 es.*1 polySize
          (Multicommitment mp) (MultiProofBytes mp)).

Definition tagIn (rdfClass field : string) : result RDFTag :=
  match tags !! rdfClass with
  | None => Err "class not found in RDF schema"
  | Some classTags =>
    match classTags !! field with
    | None => Err "field not found in class"
    | Some tag => Ok tag
    end
  end.

Definition fieldOrderIn (rdfClass field : string) : result (Z * Z) :=
  tag ← tagIn rdfClass field; Ok (Order tag, GetMaxOrderForDocument tags).

Definition getIn (rdfClass field : string) (t : VectorCommitmentTree) : result bytes :=
  tag ← tagIn rdfClass field;
  key ← OrderToKey (Order tag) (GetMaxOrderForDocument tags);
  ProofTree.Get t key.

(** The part of Set after the type key. *)
Definition setField (rdfClass field : string) (value : option bytes) (t : VectorCommitmentTree)
    : result unit * VectorCommitmentTree :=
  updated t (
    tag ← tagIn rdfClass field;
    key ← OrderToKey (Order tag) (GetMaxOrderForDocument tags);
    Insert t key value [] (Z.of_nat (length (default [] value)))).

Definition setIn (domain : bytes) (rdfClass field : string) (value : option bytes)
    (t : VectorCommitmentTree) : result unit * VectorCommitmentTree :=
  match ProofTree.Get t typeKey with
  | Err _ =>
    match (tb ← typeBytes domain rdfClass; Insert t typeKey (Some tb) [] 32) with
    | Ok t1 => setField rdfClass field value t1
    | r => updated t r
    end
  | Ok typeHash =>
    match (tb ← typeBytes domain rdfClass;
           if decide (typeHash = tb) then Ok t else Err "invalid type for existing tree") with
    | Ok _ => setField rdfClass field value t
    | r => updated t r
    end
  | Panic => (Panic, t)
  | Diverge => (Diverge, t)
  end.

(** The keys of the schema and their tags: the later of two tags with one key wins. *)
Fixpoint expectedIn (maxOrder : Z) (visited : list RDFTag) (fieldsByKey : gmap bytes RDFTag)
    : result (gmap bytes RDFTag) :=
  match visited with
  | [] => Ok fieldsByKey
  | tag :: visited =>
    key ← OrderToKey (Order tag) maxOrder;
    expectedIn maxOrder visited (<[key := tag]> fieldsByKey)
  end.

Fixpoint validateLeaves (domain : bytes) (classes : list string) (fieldsByKey : gmap bytes RDFTag)
    (expected : gset bytes) (skipTypeVerification : bool) (ls : list leaf) : result bool :=
  match ls with
  | [] => Ok true
  | l :: ls =>
    let value := default [] (Value l) in
    if decide (Key l = typeKey) then
      foundValidType ← findType domain value classes;
      match foundValidType with
      | None => Err "type key contains invalid class type"
      | Some _ => validateLeaves domain classes fieldsByKey expected skipTypeVerification ls
      end
    else if negb (bool_decide (Key l ∈ expected)) then Err "unexpected index in tree"
    else
      _ ← (if skipTypeVerification then Ok tt
           else match fieldsByKey !! Key l with Some tag => validateValue value tag | None => Ok tt end);
      validateLeaves domain classes fieldsByKey (expected ∖ {[Key l]}) skipTypeVerification ls
  end.

Definition validateIn (classes : list string) (visited : list RDFTag) (domain : bytes)
    (t : VectorCommitmentTree) (skipTypeVerification : bool) : result bool :=
  fieldsByKey ← expectedIn (GetMaxOrderForDocument tags) visited ∅;
  validateLeaves domain classes fieldsByKey (dom fieldsByKey) skipTypeVerification (leaves_opt (Root t)).
End document.

(** ** The multiprover and its cache of parsed documents *)

Module RDFMultiprover.
Section multiprover.
Context `{InclusionProver} `{PoseidonHash} `{RDFParser}.

(** documentCache; the prover and the parser are the classes above. *)
Definition t : Type := gmap string TagsByClass.

Definition NewRDFMultiprover : t := ∅.

Definition getOrParseDocument (m : t) (document : string) : result TagsByClass * t :=
  match m !! document with
  | Some tags => (Ok tags, m)
  | None =>
    match GetTagsByClass document with
    | Ok tags => (Ok tags, <[document := tags]> m)
    | r => (r, m)
    end
  end.

(** An operation that starts by parsing the document. *)
Definition withDocument {A} (m : t) (document : string) (f : TagsByClass -> result A) : result A * t :=
  let r := getOrParseDocument m document in (r.1 ≫= f, r.2).

(** The same for an operation that returns the tree it has updated. *)
Definition withDocumentAndTree {A} (m : t) (document : string) (tree : VectorCommitmentTree)
    (f : TagsByClass -> result A * VectorCommitmentTree) : result A * VectorCommitmentTree * t :=
  let r := getOrParseDocument m document in
  (match r.1 with
   | Ok tags => f tags
   | Err e => (Err e, tree)
   | Panic => (Panic, tree)
   | Diverge => (Diverge, tree)
   end, r.2).

Definition GetType (m : t) (classes : list string) (document : string) (domain : bytes)
    (tree : VectorCommitmentTree) : result string * t :=
  withDocument m document (fun _ => typeIn classes domain tree).

Definition ProveWithType (m : t) (classes : list string) (document : string) (fields : list string)
    (tree : VectorCommitmentTree) (typeIndex : option Z)
    : result Multiproof * VectorCommitmentTree * t :=
  withDocumentAndTree m document tree (fun tags => proveIn tags classes fields tree typeIndex).

Definition Prove (m : t) (classes : list string) (document : string) (fields : list string)
    (tree : VectorCommitmentTree) : result Multiproof * VectorCommitmentTree * t :=
  ProveWithType m classes document fields tree None.

Definition VerifyWithType (m : t) (classes : list string) (document : string) (fields : list string)
    (keys : list (option bytes)) (commit proof : bytes) (data : list bytes)
    (typeIndex : option Z) (typeData : option bytes) : result bool * t :=
  withDocument m document
    (fun tags => verifyIn tags classes fields keys commit proof data typeIndex typeData).

Definition Verify (m : t) (classes : list string) (document : string) (fields : list string)
    (keys : list (option bytes)) (commit proof : bytes) (data : list bytes) : result bool * t :=
  VerifyWithType m classes document fields keys commit proof data None None.

Definition Get (m : t) (document rdfClass field : string) (tree : VectorCommitmentTree)
    : result bytes * t :=
  withDocument m document (fun tags => getIn tags rdfClass field tree).

Definition ClearCache (m : t) : t := ∅.

Definition GetFieldOrder (m : t) (document rdfClass field : string) : result (Z * Z) * t :=
  withDocument m document (fun tags => fieldOrderIn tags rdfClass field).

Definition GetFieldKey (m : t) (document rdfClass field : string) : result bytes * t :=
  let r := GetFieldOrder m document rdfClass field in
  (o ← r.1; OrderToKey o.1 o.2, r.2).

Definition Set_ (m : t) (document : string) (domain : bytes) (rdfClass field : string)
    (value : option bytes) (tree : VectorCommitmentTree) : result unit * VectorCommitmentTree * t :=
  withDocumentAndTree m document tree (fun tags => setIn tags domain rdfClass field value tree).

Definition GetSchemaMap (m : t) (document : string) : result TagsByClass * t :=
  withDocument m document (fun tags => Ok tags).

Definition ValidateWithOptions (m : t) (classes : list string) (visited : list RDFTag)
    (document : string) (domain : bytes) (tree : VectorCommitmentTree) (skipTypeVerification : bool)
    : result bool * t :=
  withDocument m document
    (fun tags => validateIn tags classes visited domain tree skipTypeVerification).

Definition Validate (m : t) (classes : list string) (visited : list RDFTag) (document : string)
    (domain : bytes) (tree : VectorCommitmentTree) : result bool * t :=
  ValidateWithOptions m classes visited document domain tree false.

(** ** The cache is transparent *)

Definition cacheOk (m : t) : Prop := map_Forall (fun d tags => GetTagsByClass d = Ok tags) m.

Lemma getOrParseDocument_spec m document :
  cacheOk m ->
  (getOrParseDocument m document).1 = GetTagsByClass document
  /\ cacheOk (getOrParseDocument m document).2.
Proof.
  intros Hm. unfold getOrParseDocument. destruct (m !! document) as [tags|] eqn:E.
  - split; [|done]. symmetry. by apply (Hm document).
  - destruct (GetTagsByClass document) as [tags| | |] eqn:Ep; try done.
    split; [done|]. by apply map_Forall_insert_2.
Qed.

Lemma withDocument_Ok {A} m document tags (f : TagsByClass -> result A) :
  cacheOk m -> GetTagsByClass document = Ok tags ->
  (withDocument m document f).1 = f tags /\ cacheOk (withDocument m document f).2.
Proof.
  intros Hm E. destruct (getOrParseDocument_spec m document Hm) as [E1 E2].
  unfold withDocument. by rewrite E1, E.
Qed.

Lemma withDocumentAndTree_Ok {A} m document tree tags (f : TagsByClass -> result A * VectorCommitmentTree) :
  cacheOk m -> GetTagsByClass document = Ok tags ->
  (withDocumentAndTree m document tree f).1 = f tags /\ cacheOk (withDocumentAndTree m document tree f).2.
Proof.
  intros Hm E. destruct (getOrParseDocument_spec m document Hm) as [E1 E2].
  unfold withDocumentAndTree. by rewrite E1, E.
Qed.
End multiprover.
End RDFMultiprover.
