(* ===== verification/RdfSpec.v ===== *)
(** * Properties of the RDF multiprover

    Trees filled through a schema: what Set stores, Get and GetType read, proofs of
    fields verify, and Validate accepts. *)

From S2P Require Import Prelude Nibbles ProofTree ProofTreeWf ProofTreeOps ProofTreeMap.
From S2P Require Import ProofTreeMeta ProofTreeCommit ProofTreeCanon ProofTreeProve ProofTreeProveSpec.
From S2P Require Import ProofTreeTraversal Wire CanonicalTypes Keys KeyRegistry Global TraversalWire OrderEncoding.
From S2P Require Import RdfMultiprover.

(** ** Keys of a schema tree *)

(** The type key, or the key of an order. *)
Definition schemaKey (k : nat) (key : bytes) : Prop :=
  key = typeKey \/ exists o, 0 <= o < 64 ^ Z.of_nat k /\ key = orderKey k o.

Lemma typeKey_nibble i : (i <= 3)%nat -> path typeKey !! i = Some 63.
Proof. intros Hi. destruct i as [|[|[|[|]]]]; [by vm_compute..|lia]. Qed.

Lemma orderKey_end k o : (1 <= k <= 3)%nat -> 0 <= o -> path (orderKey k o) !! k = Some 0.
Proof.
  intros Hk Ho. rewrite orderKey_path by lia. unfold digits64.
  apply list_lookup_middle. by rewrite length_fmap, length_seq.
Qed.

Lemma compat_typeKey k o : (1 <= k <= 3)%nat -> 0 <= o -> compat typeKey (orderKey k o).
Proof.
  intros Hk Ho. right. pose proof (typeKey_nibble k ltac:(lia)) as E1.
  pose proof (orderKey_end k o Hk Ho) as E2. split; intros Hp.
  - pose proof (prefix_lookup_Some _ _ _ _ E1 Hp). congruence.
  - pose proof (prefix_lookup_Some _ _ _ _ E2 Hp). congruence.
Qed.

Lemma schemaKey_compat k a b : (1 <= k <= 3)%nat -> schemaKey k a -> schemaKey k b -> compat a b.
Proof.
  intros Hk [->|(o & Ho & ->)] [->|(o' & Ho' & ->)].
  - by left.
  - by apply compat_typeKey; lia || lia.
  - apply compat_sym, compat_typeKey; lia.
  - apply compat_same_length. by rewrite !orderKey_length.
Qed.

Definition schemaKeys (k : nat) (m : gmap bytes entry) : Prop :=
  forall key, is_Some (m !! key) -> schemaKey k key.

Lemma schemaKey_fits k m key :
  (1 <= k <= 3)%nat -> schemaKeys k m -> schemaKey k key -> keyFits m key.
Proof.
  intros Hk Hm Hkey. split; [|intros k' Hk'; eapply schemaKey_compat; eauto].
  destruct Hkey as [->|(o & _ & ->)]; [done|]. intros E.
  apply (f_equal length) in E. rewrite orderKey_length in E. cbn in E. lia.
Qed.

Lemma schemaKeys_insert k m key e : schemaKeys k m -> schemaKey k key -> schemaKeys k (<[key := e]> m).
Proof.
  intros Hm Hk key' [e' E]. apply lookup_insert_Some in E as [[<- _]|[_ E]]; [done|by apply Hm].
Qed.

Lemma orderKey_inj k o o' :
  (1 <= k <= 3)%nat -> 0 <= o < 64 ^ Z.of_nat k -> 0 <= o' < 64 ^ Z.of_nat k ->
  orderKey k o = orderKey k o' -> o = o'.
Proof.
  intros Hk Ho Ho' E. apply (f_equal KeyToOrder) in E. rewrite !KeyToOrder_key in E by done.
  by injection E.
Qed.

Lemma typeKey_not_order k o : (1 <= k <= 3)%nat -> typeKey <> orderKey k o.
Proof. intros Hk E. apply (f_equal length) in E. rewrite orderKey_length in E. cbn in E. lia. Qed.

(** ** Setting fields *)

(** What Set stores in the map: the type, then the field. *)
Definition typeEntry (tb : bytes) : entry := (Some tb, [], 32).
Definition fieldEntry (v : bytes) : entry := (Some v, [], Z.of_nat (length v)).

Definition specSet (k : nat) (tb : bytes) (m : gmap bytes entry) (ov : Z * bytes) : gmap bytes entry :=
  <[orderKey k ov.1 := fieldEntry ov.2]> (<[typeKey := typeEntry tb]> m).

(** The trees Set builds. *)
Definition typedKeys (k : nat) (tb : bytes) (m : gmap bytes entry) : Prop :=
  schemaKeys k m /\ (m !! typeKey = None \/ m !! typeKey = Some (typeEntry tb)).

Lemma specSet_typed k tb m ov :
  (1 <= k <= 3)%nat -> 0 <= ov.1 < 64 ^ Z.of_nat k -> typedKeys k tb m ->
  typedKeys k tb (specSet k tb m ov).
Proof.
  intros Hk Ho [Hs Ht]. split.
  - apply schemaKeys_insert; [|right; by exists ov.1]. apply schemaKeys_insert; [done|by left].
  - right. unfold specSet. rewrite lookup_insert_ne by (by apply not_eq_sym, typeKey_not_order).
    by rewrite lookup_insert_eq.
Qed.

Section setting.
Context `{InclusionProver} `{PoseidonHash}.

Lemma Insert_good t key v h s :
  goodTree t -> keyFits (contents t) key ->
  exists t', Insert t key v h s = Ok t' /\ goodTree t' /\ contents t' = <[key := (v, h, s)]> (contents t).
Proof.
  intros (Hw & Hco & Hca) Hf. destruct (Insert_spec t key v h s Hw Hf) as (t' & E & Hw' & Ec).
  exists t'. split; [done|]. split; [|done].
  change (Insert t key v h s) with (applyOp t (OpInsert key v h s)) in E.
  split_and!; [done|by apply (applyOp_coherent t (OpInsert key v h s))|
    by apply (applyOp_cached t (OpInsert key v h s))].
Qed.

Context (tags : TagsByClass) (domain : bytes) (class : string) (h : Z).
Hypothesis hash_class : HashBytes (domain ++ stringBytes class) = Ok h.
Hypothesis hash_small : is_u 256 h.
Hypothesis max_ok : GetMaxOrderForDocument tags <= MaxOrderThreeByte.
Hypothesis orders_ok : forall f tag, classTag tags class f = Some tag -> 0 <= Order tag.

Local Abbreviation k := (keyWidth (GetMaxOrderForDocument tags)).
Local Abbreviation tb := (be 32 h).

Lemma typeBytes_class : typeBytes domain class = Ok tb.
Proof.
  unfold typeBytes, FillBytes32. rewrite hash_class. cbn [mbind result_bind]. by rewrite decide_True.
Qed.

Lemma classTag_in f tag :
  classTag tags class f = Some tag ->
  tagIn tags class f = Ok tag
  /\ OrderToKey (Order tag) (GetMaxOrderForDocument tags) = Ok (orderKey k (Order tag))
  /\ (1 <= k <= 3)%nat /\ 0 <= Order tag < 64 ^ Z.of_nat k.
Proof.
  intros E. pose proof (orders_ok f tag E) as Hnn. unfold classTag in E.
  apply bind_Some in E as (ct & Ec & Ef). unfold tagIn. rewrite Ec.
  change (ct !! f = Some tag) in Ef. rewrite Ef. split; [done|].
  apply (field_key tags class f tag); [by exists ct|done|done].
Qed.

Lemma setField_spec f tag v t :
  classTag tags class f = Some tag -> goodTree t -> schemaKeys k (contents t) ->
  exists t', setField tags class f (Some v) t = (Ok tt, t') /\ goodTree t'
    /\ contents t' = <[orderKey k (Order tag) := fieldEntry v]> (contents t).
Proof.
  intros E Hg Hs. destruct (classTag_in f tag E) as (Et & Ek & Hk & Ho).
  destruct (Insert_good t (orderKey k (Order tag)) (Some v) [] (Z.of_nat (length v)) Hg)
    as (t' & Ei & Hg' & Ec); [eapply schemaKey_fits; [done..|]; right; eauto|].
  exists t'. split; [|done]. unfold setField. rewrite Et. cbn [mbind result_bind]. rewrite Ek.
  cbn [mbind result_bind]. cbn [default id]. by rewrite Ei.
Qed.

Lemma setIn_spec f tag v t :
  classTag tags class f = Some tag -> goodTree t -> typedKeys k tb (contents t) ->
  exists t', setIn tags domain class f (Some v) t = (Ok tt, t') /\ goodTree t'
    /\ contents t' = specSet k tb (contents t) (Order tag, v).
Proof.
  intros E Hg [Hs Ht]. destruct (classTag_in f tag E) as (_ & _ & Hk & Ho).
  assert (keyFits (contents t) typeKey) as Hf by (eapply schemaKey_fits; [done..|by left]).
  unfold setIn. rewrite (Get_spec t typeKey (proj1 Hg) Hf), typeBytes_class. cbn [mbind result_bind].
  destruct Ht as [Ht|Ht]; rewrite Ht; cbn [typeEntry].
  - destruct (Insert_good t typeKey (Some tb) [] 32 Hg Hf) as (t1 & -> & Hg1 & Ec1).
    destruct (setField_spec f tag v t1) as (t2 & -> & Hg2 & Ec2); [done..| |].
    + rewrite Ec1. apply schemaKeys_insert; [done|by left].
    + exists t2. split; [done|]. split; [done|]. by rewrite Ec2, Ec1.
  - rewrite decide_True by done.
    destruct (setField_spec f tag v t) as (t2 & -> & Hg2 & Ec2); [done..|].
    exists t2. split; [done|]. split; [done|]. rewrite Ec2. unfold specSet.
    by rewrite (insert_id _ typeKey (typeEntry tb)).
Qed.
End setting.

(** ** Sequences of sets *)

(** The last value set at an order. *)
Definition lastOf (o : Z) (ovs : list (Z * bytes)) : option bytes :=
  foldl (fun acc ov => if decide (ov.1 = o) then Some ov.2 else acc) None ovs.

(** The orders and values of a sequence of sets of fields of a class. *)
Definition ordersOf (tags : TagsByClass) (class : string) (sets : list (string * bytes))
    : list (Z * bytes) :=
  omap (fun fv => (fun tag => (Order tag, fv.2)) <$> classTag tags class fv.1) sets.

Lemma lastOf_snoc o ovs ov :
  lastOf o (ovs ++ [ov]) = if decide (ov.1 = o) then Some ov.2 else lastOf o ovs.
Proof. unfold lastOf. by rewrite foldl_app. Qed.

Definition inWidth (k : nat) (ov : Z * bytes) : Prop := 0 <= ov.1 < 64 ^ Z.of_nat k.

Lemma specSets_order k tb m ovs o :
  (1 <= k <= 3)%nat -> Forall (inWidth k) ovs -> 0 <= o < 64 ^ Z.of_nat k ->
  foldl (specSet k tb) m ovs !! orderKey k o
  = match lastOf o ovs with Some v => Some (fieldEntry v) | None => m !! orderKey k o end.
Proof.
  intros Hk Hall Ho. induction ovs as [|ov ovs IH] using rev_ind; [done|].
  apply Forall_app in Hall as [Hall Hov]. apply Forall_cons in Hov as [Hov _]. rewrite foldl_app, lastOf_snoc. cbn [foldl].
  unfold specSet at 1. case_decide as E.
  - subst o. by rewrite lookup_insert_eq.
  - rewrite lookup_insert_ne by (intros Eq; apply E; exact (orderKey_inj k ov.1 o Hk Hov Ho Eq)).
    rewrite lookup_insert_ne by (by apply typeKey_not_order). by apply IH.
Qed.

Lemma specSets_type k tb m ovs :
  (1 <= k <= 3)%nat -> ovs <> [] -> foldl (specSet k tb) m ovs !! typeKey = Some (typeEntry tb).
Proof.
  intros Hk. destruct ovs as [|ov ovs _] using rev_ind; [done|]. intros _. rewrite foldl_app.
  cbn [foldl]. unfold specSet at 1.
  rewrite lookup_insert_ne by (by apply not_eq_sym, typeKey_not_order). by rewrite lookup_insert_eq.
Qed.

Lemma specSets_typed k tb m ovs :
  (1 <= k <= 3)%nat -> Forall (inWidth k) ovs -> typedKeys k tb m ->
  typedKeys k tb (foldl (specSet k tb) m ovs).
Proof.
  intros Hk Hall. revert m. induction Hall as [|ov ovs Ho _ IH]; intros m Hm; [done|].
  cbn [foldl]. apply IH. by apply specSet_typed.
Qed.

Section sessions.
Context `{InclusionProver} `{PoseidonHash} `{RDFParser}.

(** Set called for each field and value in turn, up to the first failure. *)
Fixpoint setAll (m : RDFMultiprover.t) (document : string) (domain : bytes) (class : string)
    (sets : list (string * bytes)) (tree : VectorCommitmentTree)
    : result VectorCommitmentTree * RDFMultiprover.t :=
  match sets with
  | [] => (Ok tree, m)
  | (field, value) :: sets =>
    match RDFMultiprover.Set_ m document domain class field (Some value) tree with
    | (Ok _, tree', m') => setAll m' document domain class sets tree'
    | (Err e, _, m') => (Err e, m')
    | (Panic, _, m') => (Panic, m')
    | (Diverge, _, m') => (Diverge, m')
    end
  end.

(** What the operations rely on: the document parses, its class has orders within the
    limits, and the type of the class hashes to [h]. *)
Record schemaOk (document : string) (tags : TagsByClass) (domain : bytes) (class : string) (h : Z)
    : Prop := {
  schema_parses : GetTagsByClass document = Ok tags;
  schema_hash : HashBytes (domain ++ stringBytes class) = Ok h;
  schema_small : is_u 256 h;
  schema_max : GetMaxOrderForDocument tags <= MaxOrderThreeByte;
  schema_orders : forall f tag, classTag tags class f = Some tag -> 0 <= Order tag
}.

Definition fieldsExist (tags : TagsByClass) (class : string) (sets : list (string * bytes)) : Prop :=
  Forall (fun fv => is_Some (classTag tags class fv.1)) sets.

Section schema.
Context {document tags domain class h} (Hschema : schemaOk document tags domain class h).
Local Abbreviation k := (keyWidth (GetMaxOrderForDocument tags)).
Local Abbreviation tb := (be 32 h).

Lemma ordersOf_width sets : Forall (inWidth k) (ordersOf tags class sets).
Proof.
  destruct Hschema as [_ _ _ Hmax Hord]. unfold ordersOf.
  induction sets as [|[f v] sets IH]; [constructor|]. cbn.
  destruct (classTag tags class f) as [tag|] eqn:E; [|exact IH]. cbn. constructor; [|exact IH].
  by destruct (classTag_in tags class Hmax Hord f tag E) as (_ & _ & _ & ?).
Qed.

Lemma ordersOf_nil sets : fieldsExist tags class sets -> ordersOf tags class sets = [] -> sets = [].
Proof.
  intros Hf. destruct Hf as [|[f v] sets [tag E] _]; [done|]. cbn in *. by rewrite E.
Qed.

Lemma setAll_spec m sets tree :
  RDFMultiprover.cacheOk m -> fieldsExist tags class sets ->
  goodTree tree -> typedKeys k tb (contents tree) ->
  exists tree' m', setAll m document domain class sets tree = (Ok tree', m')
    /\ RDFMultiprover.cacheOk m' /\ goodTree tree'
    /\ contents tree' = foldl (specSet k tb) (contents tree) (ordersOf tags class sets).
Proof.
  pose proof Hschema as [Hp Hh Hs Hmax Hord]. revert m tree.
  induction sets as [|[f v] sets IH]; intros m tree Hm Hf Hg Ht; [by exists tree, m|].
  apply Forall_cons in Hf as [[tag E] Hf]. cbn [fst] in E. cbn [setAll].
  destruct (setIn_spec tags domain class h Hh Hs Hmax Hord f tag v tree E Hg Ht) as (t1 & E1 & Hg1 & Ec1).
  destruct (RDFMultiprover.withDocumentAndTree_Ok m document tree tags
    (fun tags => setIn tags domain class f (Some v) tree) Hm Hp) as [Er Hm1].
  unfold RDFMultiprover.Set_. destruct (RDFMultiprover.withDocumentAndTree _ _ _ _) as [r m1].
  cbn [fst snd] in Er, Hm1. subst r. rewrite E1.
  destruct (classTag_in tags class Hmax Hord f tag E) as (_ & _ & Hk & Ho).
  destruct (IH m1 t1) as (t2 & m2 & -> & Hm2 & Hg2 & Ec2); [done..| |].
  - rewrite Ec1. by apply specSet_typed.
  - exists t2, m2. split_and!; [done..|]. rewrite Ec2, Ec1. unfold ordersOf. cbn. by rewrite E.
Qed.

Lemma emptyTree_good : goodTree emptyTree.
Proof. by split_and!. Qed.

Lemma empty_typed : typedKeys k tb (contents emptyTree).
Proof. split; [intros key [e He]; done|by left]. Qed.

(** The hash tells the class apart from the others visited. *)
Definition typeUnique (classes : list string) : Prop :=
  class ∈ classes /\ Forall (fun c => exists b, typeBytes domain c = Ok b /\ (b = tb -> c = class)) classes.

Lemma findType_unique classes : typeUnique classes -> findType domain tb classes = Ok (Some class).
Proof.
  intros [Hin Hall]. induction Hall as [|c classes (b & E & Hb) _ IH]; [by apply not_elem_of_nil in Hin|].
  cbn [findType]. rewrite E. cbn [mbind result_bind]. case_decide as Ed.
  - by rewrite Hb.
  - apply elem_of_cons in Hin as [<-|Hin]; [|by apply IH]. exfalso. apply Ed.
    pose proof Hschema as [_ Hh Hs _ _]. rewrite (typeBytes_class domain class h Hh Hs) in E.
    by injection E.
Qed.

(** What a tree filled by [setAll] holds. *)
Lemma setAll_empty m sets :
  RDFMultiprover.cacheOk m -> fieldsExist tags class sets ->
  exists tree m', setAll m document domain class sets emptyTree = (Ok tree, m')
    /\ RDFMultiprover.cacheOk m' /\ goodTree tree /\ typedKeys k tb (contents tree)
    /\ (sets <> [] -> contents tree !! typeKey = Some (typeEntry tb))
    /\ (forall o, 0 <= o < 64 ^ Z.of_nat k ->
        contents tree !! orderKey k o = fieldEntry <$> lastOf o (ordersOf tags class sets)).
Proof.
  intros Hm Hf. pose proof (keyWidth_range (GetMaxOrderForDocument tags)) as Hk.
  destruct (setAll_spec m sets emptyTree Hm Hf emptyTree_good empty_typed)
    as (tree & m' & E & Hm' & Hg & Ec).
  exists tree, m'. split_and!; [done..| | |]; rewrite Ec.
  - apply specSets_typed; [done|apply ordersOf_width|apply empty_typed].
  - intros Hne. apply specSets_type; [done|]. intros En. by apply Hne, ordersOf_nil.
  - intros o Ho. rewrite specSets_order by (done || apply ordersOf_width).
    by destruct (lastOf _ _).
Qed.

Lemma schemaKey_fits' tree key : typedKeys k tb (contents tree) -> schemaKey k key -> keyFits (contents tree) key.
Proof.
  intros [Ht _] Hkey. eapply schemaKey_fits; [apply keyWidth_range|done|done].
Qed.
End schema.

(** Filling a tree through a schema and reading it back.  Setting any sequence of
    fields of a class of a document, in a new tree and with any cache that agrees with the
    parser, succeeds; afterwards Get of each field of the class returns the value last set
    at its order and reports an absent key if there was none, and GetType finds the class,
    if no other class of the document has the same type hash.  Field keys and the type key
    never collide, although they have different lengths. *)
Theorem rdf_set_get (m : RDFMultiprover.t) (document : string) (tags : TagsByClass) (domain : bytes)
    (class : string) (h : Z) (sets : list (string * bytes)) :
  schemaOk document tags domain class h -> RDFMultiprover.cacheOk m -> fieldsExist tags class sets ->
  exists tree m', setAll m document domain class sets emptyTree = (Ok tree, m')
  /\ (forall field tag, classTag tags class field = Some tag ->
      (RDFMultiprover.Get m' document class field tree).1
      = match lastOf (Order tag) (ordersOf tags class sets) with
        | Some v => Ok v
        | None => Err errKeyNotFound
        end)
  /\ (forall classes, sets <> [] -> typeUnique (domain := domain) (class := class) (h := h) classes ->
      (RDFMultiprover.GetType m' classes document domain tree).1 = Ok class).
Proof.
  intros Hs Hm Hf. destruct (setAll_empty Hs m sets Hm Hf) as (tree & m' & E & Hm' & Hg & Ht & Hty & Hlk).
  exists tree, m'. split; [done|]. pose proof Hs as [Hp Hh Hsm Hmax Hord]. split.
  - intros field tag Etag. destruct (classTag_in tags class Hmax Hord field tag Etag) as (Et & Ek & Hk & Ho).
    unfold RDFMultiprover.Get. rewrite (proj1 (RDFMultiprover.withDocument_Ok _ _ _ _ Hm' Hp)).
    unfold getIn. rewrite Et. cbn [mbind result_bind]. rewrite Ek. cbn [mbind result_bind].
    rewrite Get_spec; [|apply Hg|eapply schemaKey_fits'; [done|right; eauto]].
    rewrite Hlk by done. by destruct (lastOf _ _).
  - intros classes Hne Hu. unfold RDFMultiprover.GetType.
    rewrite (proj1 (RDFMultiprover.withDocument_Ok _ _ _ _ Hm' Hp)). unfold typeIn.
    rewrite Get_spec; [|apply Hg|eapply schemaKey_fits'; [done|by left]].
    rewrite Hty by done. cbn [typeEntry mbind result_bind].
    rewrite (findType_unique Hs classes Hu). done.
Qed.
End sessions.

(** ** Proofs of fields *)

(** The first nibbles of two leaves differ: the root branch has no prefix. *)
Lemma root_no_prefix b l l' x y :
  wf [] (BranchNode b) -> l ∈ leaves (BranchNode b) -> l' ∈ leaves (BranchNode b) ->
  path (Key l) !! 0%nat = Some x -> path (Key l') !! 0%nat = Some y -> x <> y -> Prefix b = [].
Proof.
  intros Hw Hl Hl' Ex Ey Hne. pose proof (leaf_prefix [] b l Hw Hl) as P1.
  pose proof (leaf_prefix [] b l' Hw Hl') as P2. cbn [app] in P1, P2.
  destruct (Prefix b) as [|z zs]; [done|]. exfalso. apply Hne.
  pose proof (prefix_lookup_Some (z :: zs) _ 0 z eq_refl P1).
  pose proof (prefix_lookup_Some (z :: zs) _ 0 z eq_refl P2).
  congruence.
Qed.

(** A leaf that is alone with its first nibble is a child of such a root. *)
Lemma root_child b l (i : nat) :
  wf [] (BranchNode b) -> Prefix b = [] -> l ∈ leaves (BranchNode b) ->
  path (Key l) !! 0%nat = Some (Z.of_nat i) ->
  (forall l', l' ∈ leaves (BranchNode b) -> path (Key l') !! 0%nat = Some (Z.of_nat i) -> Key l' = Key l) ->
  Children b !! i = Some (Some (LeafNode l)).
Proof.
  intros Hw Hp Hl Ei Hu. apply elem_leaves in Hl as (j & c & Hc & Hlc).
  pose proof (fun m Hm => wf_leaf_index [] b j c m Hw Hc Hm) as Hidx. rewrite Hp in Hidx. cbn [app length] in Hidx.
  pose proof (Hidx l Hlc) as Ej. rewrite Ei in Ej. injection Ej as Ej. apply Nat2Z.inj in Ej as <-.
  destruct c as [lc|bc].
  - apply list_elem_of_singleton in Hlc as ->. done.
  - exfalso. apply wf_branch_inv in Hw as Hw'. destruct Hw' as (_ & Hch & _).
    destruct (two_leaves _ bc (Hch _ _ Hc)) as (l1 & l2 & x & y & Hxy & H1 & H2 & E1 & E2).
    apply Hxy. assert (Key l1 = Key l2) as Eq; [|congruence].
    transitivity (Key l); [|symmetry]; apply Hu; try (by apply Hidx); apply elem_leaves; eauto.
Qed.

Lemma order_nibble o : 0 <= o < 64 -> path (orderKey 1 o) !! 0%nat = Some o.
Proof.
  intros Ho. rewrite orderKey_path by lia. cbn. rewrite Z.div_1_r. f_equal. by apply Z.mod_small.
Qed.

Lemma contents_leaf t key e :
  wf_tree t -> contents t !! key = Some e ->
  exists l, l ∈ leaves_opt (Root t) /\ Key l = key /\ (leafEntry l).2 = e.
Proof.
  intros Hw E. unfold contents in *. destruct (proj1 (contents_of_dom _ key) (mk_is_Some _ _ E)) as (l & Hl & <-).
  exists l. split_and!; [done..|]. rewrite (contents_of_lookup _ l) in E; [by injection E| |done].
  by apply wf_tree_nodup.
Qed.

Section proving.
Context `{InclusionProver}.

(** The root of a tree with a type key and one-byte field keys below 63. *)
Lemma schema_root t tb :
  wf_tree t -> typedKeys 1 tb (contents t) -> contents t !! typeKey = Some (typeEntry tb) ->
  (forall o, 0 <= o < 64 -> is_Some (contents t !! orderKey 1 o) -> o < 63) ->
  (exists o, 0 <= o < 63 /\ is_Some (contents t !! orderKey 1 o)) ->
  exists b, Root t = Some (BranchNode b)
    /\ childBytes (default None (Children b !! 63%nat)) = sha512 (Byte.x00 :: typeKey ++ tb)
    /\ forall o v, 0 <= o < 63 -> contents t !! orderKey 1 o = Some (fieldEntry v) ->
       childBytes (default None (Children b !! Z.to_nat o)) = sha512 (Byte.x00 :: orderKey 1 o ++ v).
Proof.
  intros Hw [Hsk _] Ety Hlow (o0 & Ho0 & [e0 E0]).
  destruct (contents_leaf t _ _ Hw Ety) as (lt & Hlt & Klt & Elt).
  destruct (contents_leaf t _ _ Hw E0) as (l0 & Hl0 & Kl0 & El0).
  unfold wf_tree in Hw. destruct (Root t) as [[l|b]|] eqn:Er; cbn [leaves_opt] in *.
  - apply list_elem_of_singleton in Hlt as ->. apply list_elem_of_singleton in Hl0 as ->.
    exfalso. apply (typeKey_not_order 1 o0); [lia|congruence].
  - exists b. split; [done|].
    assert (path (Key lt) !! 0%nat = Some 63) as Nt by (rewrite Klt; apply typeKey_nibble; lia).
    assert (Prefix b = []) as Hp.
    { eapply (root_no_prefix b lt l0); [done..| |].
      - rewrite Kl0. apply order_nibble. lia.
      - lia. }
    assert (forall l, l ∈ leaves (BranchNode b) -> Key l = typeKey \/ exists o, 0 <= o < 63 /\ Key l = orderKey 1 o)
      as Hkeys.
    { intros l Hl. assert (is_Some (contents t !! Key l)) as Hin.
      { unfold contents. rewrite Er. apply contents_of_dom. by exists l. }
      destruct (Hsk _ Hin) as [?|(o & Ho & Ek)]; [by left|]. right. exists o.
      rewrite Ek in Hin. specialize (Hlow o Ho Hin). split; [lia|done]. }
    split.
    + rewrite (root_child b lt 63); [|done..|].
      * change (leafHash lt = sha512 (Byte.x00 :: typeKey ++ tb)). unfold leafHash, leafTarget.
        injection Elt as Ev Eh _. rewrite Klt, Ev, Eh. done.
      * intros l' Hl' E'. destruct (Hkeys l' Hl') as [->|(o & Ho & Eo)]; [by rewrite Klt|].
        rewrite Eo, order_nibble in E' by lia. injection E'. lia.
    + intros o v Ho Ev. assert (wf_tree t) as Hwt by (unfold wf_tree; by rewrite Er).
      destruct (contents_leaf t _ _ Hwt Ev) as (l & Hl & Kl & El). rewrite Er in Hl. cbn [leaves_opt] in Hl.
      rewrite (root_child b l (Z.to_nat o)); [|done..| |].
      * change (leafHash l = sha512 (Byte.x00 :: orderKey 1 o ++ v)). unfold leafHash, leafTarget.
        injection El as Evl Eh _. rewrite Kl, Evl, Eh. done.
      * rewrite Kl, order_nibble by lia. f_equal. lia.
      * intros l' Hl' E'. destruct (Hkeys l' Hl') as [El'|(o' & Ho' & Eo')].
        -- rewrite El', typeKey_nibble in E' by lia. injection E'. lia.
        -- rewrite Eo', order_nibble in E' by lia. injection E' as ->.
           rewrite Eo', Kl. f_equal. lia.
  - by apply not_elem_of_nil in Hlt.
Qed.

Lemma rootPolynomial_spec t b :
  cryptoSizes -> goodTree t -> Root (Commit t false).2 = Some (BranchNode b) ->
  rootPolynomial t = Ok (rootOf t, polyOf b, (Commit t false).2)
  /\ rootOf t = CommitRaw (polyOf b) 64.
Proof.
  intros [Hs Hc] (Hw & Hco & Hca) Er. unfold rootPolynomial, rootOf. unfold Commit in *.
  destruct (Root t) as [n|] eqn:En; [|cbn in Er; congruence]. cbn [fst snd Root] in Er |- *.
  injection Er as Er. destruct (commitNode_coherent false n (Hco _ En)) as [Ec Hco'].
  assert (everyBranch cachedBelow n) as Hca' by exact (Hca n En).
  unfold wf_tree in Hw. rewrite En in Hw.
  destruct (commitNode_cached Hs Hc false [] n Hw (Hco _ En) Hca') as [Ht Hb].
  pose proof (committed_commitOf false n) as Eo. unfold committedNode in *. rewrite Er in *.
  destruct (commitNode false n) as [c n']. cbn [fst snd] in *. subst c n'.
  rewrite (GetPolynomial_polyOf b) by done. split; [done|]. by rewrite <- Eo, commitOf_branch.
Qed.

Lemma slotAt_child (b : branch) i :
  cryptoSizes -> length (Children b) = 64%nat -> 0 <= i < 64 ->
  slotAt (polyOf b) i = childBytes (default None (Children b !! Z.to_nat i)).
Proof.
  intros [Hs Hc] Hl Hi. destruct (lookup_lt_is_Some_2 (Children b) (Z.to_nat i)) as [oc E]; [lia|].
  rewrite E. unfold slotAt, polyOf. by destruct (slots_slice Hs _ _ _ E) as (_ & _ & ->).
Qed.

(** The fields found, with the data claimed for them. *)
Definition fieldAt (tags : TagsByClass) (classes : list string) (stored : Z -> option bytes)
    (f : string) (d : bytes) (o : Z) : Prop :=
  exists tag, findField tags classes f = Ok tag /\ Order tag = o /\ 0 <= o < 63 /\ stored o = Some d.

Lemma proveIndices_spec tags classes stored fields data os :
  Forall3 (fieldAt tags classes stored) fields data os -> proveIndices tags classes fields = Ok os.
Proof.
  induction 1 as [|f d o fields data os (tag & E & <- & Ho & _) _ IH]; [done|]. cbn [proveIndices].
  rewrite E. cbn [mbind result_bind]. destruct (Z.ltb_spec MaxOrderThreeByte (Order tag)) as [Hm|_].
  - unfold MaxOrderThreeByte in Hm. lia.
  - rewrite IH. cbn [mbind result_bind]. unfold u64. rewrite uwrap_small; [done|]. unfold is_u. lia.
Qed.

Lemma verifyEntries_spec tags classes stored fields data os pre maxOrder :
  0 <= maxOrder <= 62 -> (forall o, is_Some (stored o) -> o <= maxOrder) ->
  Forall3 (fieldAt tags classes stored) fields data os ->
  verifyEntries tags classes maxOrder [] (pre ++ data) (length pre) fields
  = Ok (zip os (zip_with (fun o d => sha512 (Byte.x00 :: orderKey 1 o ++ d)) os data)).
Proof.
  intros Hm Hst Hall. revert pre.
  induction Hall as [|f d o fields data os (tag & E & <- & Ho & Ed) _ IH]; intros pre; [done|].
  cbn [verifyEntries]. rewrite E. cbn [mbind result_bind length Z.of_nat Z.ltb Z.compare].
  specialize (Hst (Order tag) ltac:(eauto)).
  rewrite OrderToKey_key by (unfold MaxOrderThreeByte; lia). cbn [mbind result_bind].
  unfold index at 1. case_decide; [lia|]. rewrite Nat2Z.id, list_lookup_middle by done.
  cbn [mbind result_bind]. specialize (IH (pre ++ [d])). rewrite <- app_assoc in IH. cbn [app] in IH.
  rewrite length_app, Nat.add_1_r in IH. rewrite IH. cbn [mbind result_bind].
  assert (keyWidth maxOrder = 1%nat) as ->.
  { unfold keyWidth. destruct (Z.leb_spec maxOrder MaxOrderSingleByte) as [|Hx]; [done|].
    unfold MaxOrderSingleByte in Hx. lia. }
  unfold u64. rewrite uwrap_small by (unfold is_u; lia). done.
Qed.
End proving.

Lemma lastOf_elem o v ovs : lastOf o ovs = Some v -> (o, v) ∈ ovs.
Proof.
  induction ovs as [|ov ovs IH] using rev_ind; [done|]. rewrite lastOf_snoc. case_decide as E.
  - intros [= <-]. subst o. apply elem_of_app. right. destruct ov. by left.
  - intros Hv. apply elem_of_app. left. by apply IH.
Qed.

Lemma lastOf_is_Some o v ovs : (o, v) ∈ ovs -> is_Some (lastOf o ovs).
Proof.
  induction ovs as [|ov ovs IH] using rev_ind; [by intros ?%not_elem_of_nil|].
  rewrite elem_of_app, list_elem_of_singleton, lastOf_snoc. case_decide as E; [eauto|].
  intros [Hin|<-]; [by apply IH|done].
Qed.

Lemma elem_ordersOf tags class sets o v :
  (o, v) ∈ ordersOf tags class sets ->
  exists f tag, classTag tags class f = Some tag /\ Order tag = o.
Proof.
  unfold ordersOf. intros ([f w] & Hin & Eo)%list_elem_of_omap. cbn in Eo.
  destruct (classTag tags class f) as [tag|] eqn:E; [|done]. injection Eo as <- _. eauto.
Qed.

Lemma classTag_max tags class f tag :
  classTag tags class f = Some tag -> Order tag <= GetMaxOrderForDocument tags.
Proof.
  unfold classTag. intros (ct & Ec & Ef)%bind_Some. apply (maxOrder_bound tags class f). by exists ct.
Qed.

Lemma Forall3_choose {A B C} (P : A -> B -> C -> Prop) xs ys :
  Forall2 (fun x y => exists z, P x y z) xs ys -> exists zs, Forall3 P xs ys zs.
Proof.
  induction 1 as [|x y xs ys [z Hz] _ [zs Hzs]]; [exists []; constructor|].
  exists (z :: zs). by constructor.
Qed.

Section completeness.
Context `{InclusionProver} `{PoseidonHash} `{RDFParser}.

(** The fields the verifier evaluates are the slots of the root's polynomial. *)
Lemma evaluations_slots tags classes stored fields data os (b : branch) :
  cryptoSizes -> length (Children b) = 64%nat ->
  (forall o v, 0 <= o < 63 -> stored o = Some v ->
     childBytes (default None (Children b !! Z.to_nat o)) = sha512 (Byte.x00 :: orderKey 1 o ++ v)) ->
  Forall3 (fieldAt tags classes stored) fields data os ->
  zip_with (fun o d => sha512 (Byte.x00 :: orderKey 1 o ++ d)) os data = slotAt (polyOf b) <$> os
  /\ Forall (fun o => 0 <= o < 64) os /\ length fields = length data /\ length os = length fields.
Proof.
  intros Hcs Hl Hslot. induction 1 as [|f d o fields data os (tag & _ & _ & Ho & Ed) _ IH]; [done|].
  destruct IH as (IH & Hr & Hl1 & Hl2). cbn [zip_with fmap list_fmap length]. split_and!.
  - f_equal; [|exact IH]. rewrite slotAt_child by (done || lia). symmetry. by apply Hslot.
  - constructor; [lia|done].
  - lia.
  - lia.
Qed.

(** A multiproof of slots of one polynomial verifies, also after its bytes were read back. *)
Lemma slots_verify poly idx :
  proverComplete -> idx <> [] -> length poly = (64 * 64)%nat -> Forall (fun i => 0 <= i < 64) idx ->
  let mp := proverProveMultiple (replicate (length idx) (CommitRaw poly 64))
              (replicate (length idx) poly) idx 64 in
  VerifyMultiple (replicate (length idx) (CommitRaw poly 64)) (slotAt poly <$> idx) idx 64
    (Multicommitment mp) (MultiProofBytes mp) = true.
Proof.
  intros Hprov Hne Hl Hr mp.
  destruct (Hprov (replicate (length idx) poly) idx) as (Hv & _ & _).
  - destruct idx; [done|done].
  - by rewrite length_replicate.
  - by apply Forall_replicate.
  - done.
  - rewrite fmap_replicate, zip_with_replicate_l in Hv by done. exact Hv.
Qed.

(** The tree [setAll] fills, and the slots of its root. *)
Record filled (tree : VectorCommitmentTree) (b : branch) (tb : bytes) (stored : Z -> option bytes) : Prop := {
  filled_good : goodTree tree;
  filled_root : Root (Commit tree false).2 = Some (BranchNode b);
  filled_slots : length (Children b) = 64%nat;
  filled_type : childBytes (default None (Children b !! 63%nat)) = sha512 (Byte.x00 :: typeKey ++ tb);
  filled_fields : forall o v, 0 <= o < 63 -> stored o = Some v ->
    childBytes (default None (Children b !! Z.to_nat o)) = sha512 (Byte.x00 :: orderKey 1 o ++ v)
}.

Lemma keyWidth_one maxOrder : maxOrder <= 62 -> keyWidth maxOrder = 1%nat.
Proof.
  intros Hm. unfold keyWidth. destruct (Z.leb_spec maxOrder MaxOrderSingleByte) as [|Hx]; [done|].
  unfold MaxOrderSingleByte in Hx. lia.
Qed.

Lemma setAll_filled m document tags domain class h sets :
  cryptoSizes -> schemaOk document tags domain class h -> RDFMultiprover.cacheOk m ->
  fieldsExist tags class sets -> sets <> [] -> GetMaxOrderForDocument tags <= 62 ->
  let stored o := lastOf o (ordersOf tags class sets) in
  exists tree m1 b, setAll m document domain class sets emptyTree = (Ok tree, m1)
    /\ RDFMultiprover.cacheOk m1 /\ filled tree b (be 32 h) stored
    /\ forall o, is_Some (stored o) -> 0 <= o <= GetMaxOrderForDocument tags.
Proof.
  intros [Hc1 Hc2] Hs Hm Hf Hne Hmax stored.
  destruct (setAll_empty Hs m sets Hm Hf) as (tree & m1 & Eset & Hm1 & Hg & Ht & Hty & Hlk).
  specialize (Hty Hne). rewrite (keyWidth_one _ Hmax) in *.
  destruct (Commit_good Hc1 Hc2 tree false Hg) as [Hg1 Ec]. rewrite <- Ec in Ht, Hty, Hlk.
  assert (forall o, is_Some (stored o) -> 0 <= o <= GetMaxOrderForDocument tags) as Hst.
  { intros o [v Ev]. apply lastOf_elem, elem_ordersOf in Ev as (f & tag & Ef & <-).
    split; [by apply (schema_orders _ _ _ _ _ Hs f)|by eapply classTag_max]. }
  destruct (schema_root (Commit tree false).2 (be 32 h)) as (b & Er & Hbt & Hbf); try done.
  - apply Hg1.
  - intros o Ho Hin. rewrite Hlk, fmap_is_Some in Hin by done. specialize (Hst o Hin). lia.
  - destruct Hf as [|[f v] sets [tag E] _]; [done|]. cbn [fst] in E. exists (Order tag).
    pose proof (classTag_max _ _ _ _ E). pose proof (schema_orders _ _ _ _ _ Hs f tag E).
    split; [lia|]. rewrite Hlk, fmap_is_Some by lia. apply (lastOf_is_Some _ v).
    unfold ordersOf. cbn. rewrite E. by left.
  - exists tree, m1, b. split_and!; [done..| |done]. split; [done|done| |done|].
    + destruct Hg1 as (Hw & _). unfold wf_tree in Hw. rewrite Er in Hw. by apply wf_branch_inv in Hw as [? _].
    + intros o v Ho Ev. apply Hbf; [lia|]. rewrite Hlk by lia. fold (stored o). by rewrite Ev.
Qed.

(** Proving and verifying on such a tree. *)
Lemma filled_prove tags tree b tb stored classes fields data os typed :
  cryptoSizes -> filled tree b tb stored -> GetMaxOrderForDocument tags <= 62 ->
  Forall3 (fieldAt tags classes stored) fields data os ->
  let idx := os ++ if typed : bool then [63] else [] in
  proveIn tags classes fields tree (if typed then Some 63 else None)
  = (Ok (proverProveMultiple (replicate (length idx) (rootOf tree)) (replicate (length idx) (polyOf b)) idx 64),
     (Commit tree false).2).
Proof.
  intros Hcs [Hg Hr _ _ _] Hmax Hall idx. unfold proveIn.
  rewrite (proj1 (rootPolynomial_spec tree b Hcs Hg Hr)).
  rewrite polySize_width, (keyWidth_one _ Hmax), (proveIndices_spec _ _ _ _ _ _ Hall).
  unfold idx. by destruct typed.
Qed.

Lemma filled_verify tags tree b tb stored classes fields data os typed :
  cryptoSizes -> proverComplete -> filled tree b tb stored ->
  0 <= GetMaxOrderForDocument tags <= 62 ->
  (forall o, is_Some (stored o) -> 0 <= o <= GetMaxOrderForDocument tags) ->
  Forall3 (fieldAt tags classes stored) fields data os -> typed = true \/ fields <> [] ->
  let idx := os ++ if typed : bool then [63] else [] in
  let mp := proverProveMultiple (replicate (length idx) (rootOf tree))
              (replicate (length idx) (polyOf b)) idx 64 in
  fitsMultiproof mp ->
  verifyIn tags classes fields [] (rootOf tree) (Multiproof_ToBytes mp) data
    (if typed then Some 63 else None) (if typed then Some tb else None) = Ok true.
Proof.
  intros Hcs Hprov [Hg Hr Hl Hty Hfi] Hmax Hst Hall Hsome idx mp Hfit.
  destruct (evaluations_slots _ _ _ _ _ _ b Hcs Hl Hfi Hall) as (Eev & Hrange & Hl1 & Hl2).
  unfold verifyIn. destruct (Z.eqb_spec (Z.of_nat (length fields)) (Z.of_nat (length data))); [|lia].
  cbn [negb length Z.of_nat Z.ltb Z.compare andb].
  assert (forall o, is_Some (stored o) -> o <= GetMaxOrderForDocument tags) as Hst' by (intros o Ho; apply Hst, Ho).
  pose proof (verifyEntries_spec tags classes stored fields data os [] _ Hmax Hst' Hall) as Eve.
  cbn [app length] in Eve. rewrite Eve, Eev. cbn [mbind result_bind].
  rewrite <- (app_nil_r (Multiproof_ToBytes mp)), (Multiproof_FromBytes_ToBytes mp [] Hfit).
  cbn [mbind result_bind]. rewrite polySize_width, (keyWidth_one _ (proj2 Hmax)).
  set (es := zip os _ ++ _). assert (es.*1 = idx /\ es.*2 = slotAt (polyOf b) <$> idx) as [E1 E2].
  { unfold es, idx. rewrite !fmap_app, fst_zip, snd_zip by (rewrite length_fmap; lia).
    split; [by destruct typed|]. f_equal. destruct typed; [|done]. cbn [fmap list_fmap snd]. f_equal.
    rewrite slotAt_child by (done || lia). by rewrite <- Hty. }
  assert (length es = length idx) as El by (by rewrite <- E1, length_fmap). rewrite E1, E2, El.
  destruct (rootPolynomial_spec tree b Hcs Hg Hr) as [_ Ec]. unfold mp. rewrite Ec. f_equal.
  apply slots_verify; [done| | |].
  - unfold idx. destruct typed; [by destruct os|]. destruct Hsome as [|Hne]; [done|].
    rewrite app_nil_r. intros ->. by destruct fields.
  - unfold polyOf. destruct (lookup_lt_is_Some_2 (Children b) 0) as [oc E]; [lia|].
    destruct (slots_slice (proj1 Hcs) _ _ _ E) as [-> _]. by rewrite Hl.
  - unfold idx. apply Forall_app. split; [done|]. destruct typed; [|done].
    constructor; [lia|done].
Qed.

(** Proofs of fields verify.  Fill a new tree by setting fields of a class of a
    document whose orders are at most 62, and prove any fields that were set, with or
    without the type at index 63.  Proving succeeds, leaves the stored entries alone, and
    VerifyWithType accepts the proof's bytes against the tree's root together with the
    values last set (and the type hash), for every complete inclusion prover. *)
Theorem rdf_proof_complete (m : RDFMultiprover.t) (document : string) (tags : TagsByClass)
    (domain : bytes) (class : string) (h : Z) (sets : list (string * bytes))
    (classes fields : list string) (data : list bytes) (typed : bool) :
  cryptoSizes -> proverComplete -> schemaOk document tags domain class h ->
  RDFMultiprover.cacheOk m -> fieldsExist tags class sets -> sets <> [] ->
  GetMaxOrderForDocument tags <= 62 ->
  let stored o := lastOf o (ordersOf tags class sets) in
  Forall2 (fun f d => exists o, fieldAt tags classes stored f d o) fields data ->
  typed = true \/ fields <> [] ->
  let typeIndex := if typed then Some 63 else None in
  let typeData := if typed then Some (be 32 h) else None in
  exists tree m1 mp tree' m2,
    setAll m document domain class sets emptyTree = (Ok tree, m1)
    /\ RDFMultiprover.ProveWithType m1 classes document fields tree typeIndex = (Ok mp, tree', m2)
    /\ contents tree' = contents tree
    /\ (fitsMultiproof mp ->
        (RDFMultiprover.VerifyWithType m2 classes document fields [] (Commit tree false).1
           (Multiproof_ToBytes mp) data typeIndex typeData).1 = Ok true).
Proof.
  intros Hcs Hprov Hs Hm Hf Hne Hmax stored Hfields Hsome typeIndex typeData.
  destruct (setAll_filled m document tags domain class h sets Hcs Hs Hm Hf Hne Hmax)
    as (tree & m1 & b & Eset & Hm1 & Hfill & Hst). fold stored in Hfill, Hst.
  destruct (Forall3_choose _ _ _ Hfields) as [os Hall].
  pose proof (filled_prove tags tree b _ stored classes fields data os typed Hcs Hfill Hmax Hall) as Ep.
  destruct (RDFMultiprover.withDocumentAndTree_Ok m1 document tree tags
    (fun tags => proveIn tags classes fields tree typeIndex) Hm1 (schema_parses _ _ _ _ _ Hs)) as [Er Hm2].
  fold (RDFMultiprover.ProveWithType m1 classes document fields tree typeIndex) in Er, Hm2.
  destruct (RDFMultiprover.ProveWithType m1 classes document fields tree typeIndex) as [r m2] eqn:E.
  cbn [fst snd] in Er, Hm2. subst r. unfold typeIndex in E. rewrite Ep in E.
  eexists tree, m1, _, _, m2. split_and!; [done|exact E| |].
  - by apply (Commit_good (proj1 Hcs) (proj2 Hcs) tree false (filled_good _ _ _ _ Hfill)).
  - intros Hfit. unfold RDFMultiprover.VerifyWithType.
    rewrite (proj1 (RDFMultiprover.withDocument_Ok m2 document tags _ Hm2 (schema_parses _ _ _ _ _ Hs))).
    rewrite rootOf_Commit by apply Hfill. apply (filled_verify tags tree b _ stored classes fields data os typed); try done.
    split; [|done]. destruct Hf as [|[f v] sets' [tag Etag] _]; [done|].
    pose proof (classTag_max _ _ _ _ Etag). pose proof (schema_orders _ _ _ _ _ Hs _ _ Etag). lia.
Qed.
End completeness.

(** ** Validation *)

(** [visited] lists the tags of the document, each order belonging to one tag. *)
Record visitsTags (tags : TagsByClass) (visited : list RDFTag) : Prop := {
  visits_all : forall tag, tag ∈ visited <-> exists c f, docTag tags c f tag;
  visits_orders : Forall (fun tag => 0 <= Order tag) visited;
  visits_unique : forall a b, a ∈ visited -> b ∈ visited -> Order a = Order b -> a = b
}.

Section validation.
Context `{InclusionProver} `{PoseidonHash} `{RDFParser}.

Lemma findType_some domain value classes :
  Forall (fun c => exists b, typeBytes domain c = Ok b) classes ->
  match findType domain value classes with
  | Ok (Some c) => c ∈ classes /\ typeBytes domain c = Ok value
  | Ok None => forall c, c ∈ classes -> typeBytes domain c <> Ok value
  | _ => False
  end.
Proof.
  induction 1 as [|c classes [b E] _ IH]; [by intros c ?%not_elem_of_nil|]. cbn [findType].
  rewrite E. cbn [mbind result_bind]. case_decide as Ed; [subst; split; [by left|done]|].
  destruct (findType domain value classes) as [[c'|]| | |]; try done.
  - destruct IH. split; [by right|done].
  - intros c' [->|Hin]%elem_of_cons; [rewrite E; congruence|by apply IH].
Qed.

(** Whether one leaf passes. *)
Definition leafOk (domain : bytes) (classes : list string) (fieldsByKey : gmap bytes RDFTag)
    (skip : bool) (key value : bytes) : Prop :=
  if decide (key = typeKey) then exists c, c ∈ classes /\ typeBytes domain c = Ok value
  else exists tag, fieldsByKey !! key = Some tag /\ (skip = true \/ validateValue value tag = Ok tt).

Lemma validateLeaves_iff domain classes fieldsByKey skip ls expected :
  Forall (fun c => exists b, typeBytes domain c = Ok b) classes -> NoDup (Key <$> ls) ->
  (forall l, l ∈ ls -> Key l ∈ expected <-> is_Some (fieldsByKey !! Key l)) ->
  validateLeaves domain classes fieldsByKey expected skip ls = Ok true
  <-> Forall (fun l => leafOk domain classes fieldsByKey skip (Key l) (default [] (Value l))) ls.
Proof.
  intros Hcl. revert expected. induction ls as [|l ls IH]; intros expected Hnd Hex; [by split|].
  apply NoDup_cons in Hnd as [Hnew Hnd]. rewrite Forall_cons. cbn [validateLeaves]. unfold leafOk at 1.
  case_decide as Ek.
  - pose proof (findType_some domain (default [] (Value l)) classes Hcl) as Hft.
    destruct (findType _ _ _) as [[c|]| | |]; try done; cbn [mbind result_bind].
    + rewrite IH; [|done|intros l' Hl'; apply Hex; by right]. split; [|by intros [_ ?]].
      intros Hls. split; [by exists c|done].
    + split; [done|]. intros [(c & Hc & Ec) _]. by apply Hft in Hc.
  - pose proof (Hex l ltac:(by left)) as Hl. destruct (fieldsByKey !! Key l) as [tag|] eqn:Ef.
    + rewrite bool_decide_true by (by apply Hl). cbn [negb].
      assert (forall l', l' ∈ ls -> Key l' ∈ expected ∖ {[Key l]} <-> is_Some (fieldsByKey !! Key l')) as Hex'.
      { intros l' Hl'. rewrite <- (Hex l') by (by right). assert (Key l' <> Key l); [|set_solver].
        intros E. apply Hnew. rewrite <- E. by apply list_elem_of_fmap_2. }
      specialize (IH _ Hnd Hex'). clear Hex Hex' Hnew Hnd Hl.
      assert ((exists tag', Some tag = Some tag' /\ (skip = true \/ validateValue (default [] (Value l)) tag' = Ok tt))
              <-> skip = true \/ validateValue (default [] (Value l)) tag = Ok tt) as ->.
      { split; [by intros (? & [= <-] & ?)|by exists tag]. }
      rewrite <- IH. destruct skip; cbn [mbind result_bind].
      * split; [intros ?; split; [by left|done]|by intros [_ ?]].
      * destruct (validateValue (default [] (Value l)) tag) as [[]| | |]; cbn [mbind result_bind];
          split; try (by intros [[?|?] ?]); try done. intros ?. split; [by right|done].
    + rewrite bool_decide_false by (rewrite Hl; by intros [? ?]). cbn [negb].
      split; [done|]. by intros [(? & ? & _) _].
Qed.

Lemma expectedIn_spec maxOrder visited acc :
  maxOrder <= MaxOrderThreeByte -> Forall (fun tag => 0 <= Order tag <= maxOrder) visited ->
  expectedIn maxOrder visited acc
  = Ok (foldl (fun m tag => <[orderKey (keyWidth maxOrder) (Order tag) := tag]> m) acc visited).
Proof.
  intros Hm Hall. revert acc. induction Hall as [|tag visited Ho _ IH]; intros acc; [done|].
  cbn [expectedIn foldl]. rewrite OrderToKey_key by lia. cbn [mbind result_bind]. apply IH.
Qed.

Lemma fieldsByKey_lookup k visited key tag :
  (1 <= k <= 3)%nat -> Forall (fun tag => 0 <= Order tag < 64 ^ Z.of_nat k) visited ->
  (forall a b, a ∈ visited -> b ∈ visited -> Order a = Order b -> a = b) ->
  foldl (fun m tag => <[orderKey k (Order tag) := tag]> m) (∅ : gmap bytes RDFTag) visited !! key = Some tag
  <-> tag ∈ visited /\ key = orderKey k (Order tag).
Proof.
  intros Hk. induction visited as [|a visited IH] using rev_ind; intros Hall Hu.
  { cbn [foldl]. rewrite lookup_empty. split; [done|]. by intros [?%not_elem_of_nil _]. }
  apply Forall_app in Hall as [Hall Ha]. apply Forall_cons in Ha as [Ha _]. rewrite Forall_forall in Hall.
  rewrite foldl_app. cbn [foldl]. rewrite lookup_insert_Some, IH; [|by rewrite Forall_forall|set_solver].
  rewrite elem_of_app, list_elem_of_singleton. split.
  { intros [[<- <-]|(_ & Hin & ->)]; (split; [|done]); [by right|by left]. }
  intros [[Hin| ->] ->]; [|by left].
  destruct (decide (orderKey k (Order a) = orderKey k (Order tag))) as [E|E]; [left|by right].
  split; [done|]. apply Hu; [set_solver|set_solver|].
  apply (orderKey_inj k); [done|done|by apply Hall|done].
Qed.

(** Validation decides membership in the schema.  For a document whose orders are within
    the limits and belong to one tag each, and whose class names hash, validation of a
    well-formed tree accepts exactly if every stored key is the type key, holding the type
    hash of a class of the document, or the key of a tag of the document, with a value the
    tag admits unless the check of values is skipped. *)
Theorem rdf_validate_iff (m : RDFMultiprover.t) (document : string) (tags : TagsByClass)
    (classes : list string) (visited : list RDFTag) (domain : bytes) (tree : VectorCommitmentTree)
    (skip : bool) :
  RDFMultiprover.cacheOk m -> GetTagsByClass document = Ok tags ->
  GetMaxOrderForDocument tags <= MaxOrderThreeByte -> visitsTags tags visited ->
  Forall (fun c => exists b, typeBytes domain c = Ok b) classes -> wf_tree tree ->
  (RDFMultiprover.ValidateWithOptions m classes visited document domain tree skip).1 = Ok true
  <-> forall key v ht s, contents tree !! key = Some (v, ht, s) ->
      (key = typeKey /\ exists c, c ∈ classes /\ typeBytes domain c = Ok (default [] v))
      \/ (exists c f tag, docTag tags c f tag
          /\ OrderToKey (Order tag) (GetMaxOrderForDocument tags) = Ok key
          /\ (skip = true \/ validateValue (default [] v) tag = Ok tt)).
Proof.
  intros Hm Hp Hmax [Hall Hord Huniq] Hcl Hw. unfold RDFMultiprover.ValidateWithOptions.
  rewrite (proj1 (RDFMultiprover.withDocument_Ok m document tags _ Hm Hp)). unfold validateIn.
  set (mx := GetMaxOrderForDocument tags) in *. set (k := keyWidth mx).
  assert (Forall (fun tag => 0 <= Order tag <= mx) visited) as Hrange.
  { rewrite Forall_forall in Hord |- *. intros tag Hin. split; [by apply Hord|].
    apply Hall in Hin as (c & f & Ht). by eapply maxOrder_bound. }
  rewrite expectedIn_spec by done. cbn [mbind result_bind]. fold k. set (fbk := foldl _ _ _).
  assert (forall key tag, fbk !! key = Some tag <-> tag ∈ visited /\ key = orderKey k (Order tag)) as Hfbk.
  { intros key tag. apply fieldsByKey_lookup; [apply keyWidth_range| |done].
    eapply Forall_impl; [exact Hrange|]. intros a Ha. by apply keyWidth_fits. }
  rewrite validateLeaves_iff; [|done|by apply wf_tree_nodup|intros l _; apply elem_of_dom].
  assert (forall key value, leafOk domain classes fbk skip key value <->
    (key = typeKey /\ exists c, c ∈ classes /\ typeBytes domain c = Ok value)
    \/ (exists c f tag, docTag tags c f tag /\ OrderToKey (Order tag) mx = Ok key
        /\ (skip = true \/ validateValue value tag = Ok tt))) as Hleaf.
  { intros key value. unfold leafOk. rewrite Forall_forall in Hrange. case_decide as Ek.
    - split; [intros ?; by left|]. intros [[_ ?]|(c & f & tag & Ht & Eo & _)]; [done|]. exfalso.
      rewrite OrderToKey_key in Eo by (apply Hrange, Hall || done; eauto). injection Eo as Eo.
      subst key. by apply (typeKey_not_order k (Order tag)); [apply keyWidth_range|].
    - split.
      + intros (tag & [Hin ->]%Hfbk & Hv). right. pose proof (proj1 (Hall tag) Hin) as (c & f & Ht).
        exists c, f, tag. split_and!; [done| |done]. by apply OrderToKey_key; [apply Hrange|].
      + intros [[? _]|(c & f & tag & Ht & Eo & Hv)]; [done|]. exists tag. split; [|done].
        apply Hfbk. split; [by apply Hall; eauto|].
        rewrite OrderToKey_key in Eo by (apply Hrange, Hall || done; eauto). by injection Eo. }
  rewrite Forall_forall. split.
  - intros Hls key v ht s E. destruct (contents_leaf tree key _ Hw E) as (l & Hl & <- & El).
    injection El as <- _ _. by apply Hleaf, Hls.
  - intros Hc l Hl. apply Hleaf. eapply (Hc (Key l) (Value l)).
    exact (contents_of_lookup _ l (wf_tree_nodup _ Hw) Hl).
Qed.
End validation.

(** ** Examples *)

Definition accountTags : gmap string RDFTag :=
  {[ "Owner" := mkTag "Owner" "" 0 None "" QCLByteArray 2; "Total" := mkTag "Total" "" 1 None "" QCLUint 8 ]}.

Definition accountDocument : TagsByClass := {[ "Account" := accountTags ]}.

#[local] Instance demoParser : RDFParser := {| GetTagsByClass := fun _ => Ok accountDocument |}.
#[local] Instance demoPoseidon : PoseidonHash := {| HashBytes := fun b => Ok (be_val b mod 2 ^ 256) |}.
#[local] Existing Instance demoCrypto.
#[local] Existing Instance demoProver.

Definition demoHash : Z := be_val (stringBytes "Account") mod 2 ^ 256.

Definition demoSets : list (string * bytes) :=
  [("Owner", [Byte.x01; Byte.x02]); ("Total", replicate 8 Byte.x07); ("Owner", [Byte.x03; Byte.x04])].

Lemma account_tag f tag :
  classTag accountDocument "Account" f = Some tag -> accountTags !! f = Some tag.
Proof. intros (ct & Ec & Ef)%bind_Some. vm_compute in Ec. injection Ec as <-. exact Ef. Qed.

Lemma demo_schema : schemaOk "doc" accountDocument [] "Account" demoHash.
Proof.
  split; [done|done|by vm_compute|by vm_compute|].
  intros f tag E%account_tag. revert f tag E. change (map_Forall (fun _ tag => 0 <= Order tag) accountTags).
  by_decide.
Qed.

Lemma demo_exist : fieldsExist accountDocument "Account" demoSets.
Proof. repeat constructor; by_decide. Qed.

Lemma demo_cache : RDFMultiprover.cacheOk RDFMultiprover.NewRDFMultiprover.
Proof. apply map_Forall_empty. Qed.

Lemma rdf_set_get_witness :
  exists tree m', setAll RDFMultiprover.NewRDFMultiprover "doc" [] "Account" demoSets emptyTree = (Ok tree, m')
  /\ (RDFMultiprover.Get m' "doc" "Account" "Owner" tree).1 = Ok [Byte.x03; Byte.x04]
  /\ (RDFMultiprover.GetType m' ["Account"] "doc" [] tree).1 = Ok "Account"%string.
Proof.
  destruct (rdf_set_get RDFMultiprover.NewRDFMultiprover "doc" accountDocument [] "Account" demoHash demoSets)
    as (tree & m' & E & Hget & Htype).
  - exact demo_schema.
  - exact demo_cache.
  - exact demo_exist.
  - exists tree, m'. split; [exact E|]. split.
    + rewrite (Hget "Owner" (mkTag "Owner" "" 0 None "" QCLByteArray 2)); [by vm_compute|by vm_compute].
    + apply Htype; [done|]. split; [by left|]. constructor; [|constructor].
      eexists. split; [|done]. by vm_compute.
Defined.

Lemma demo_fields :
  Forall2 (fun f d => exists o,
      fieldAt accountDocument ["Account"] (fun o => lastOf o (ordersOf accountDocument "Account" demoSets)) f d o)
    ["Account.Owner"; "Total"] [[Byte.x03; Byte.x04]; replicate 8 Byte.x07].
Proof.
  repeat constructor.
  - exists 0, (mkTag "Owner" "" 0 None "" QCLByteArray 2). split_and!; by vm_compute.
  - exists 1, (mkTag "Total" "" 1 None "" QCLUint 8). split_and!; by vm_compute.
Qed.

Lemma rdf_proof_complete_witness :
  exists tree m1 mp tree' m2,
    setAll RDFMultiprover.NewRDFMultiprover "doc" [] "Account" demoSets emptyTree = (Ok tree, m1)
    /\ RDFMultiprover.ProveWithType m1 ["Account"] "doc" ["Account.Owner"; "Total"] tree (Some 63)
       = (Ok mp, tree', m2)
    /\ contents tree' = contents tree
    /\ (fitsMultiproof mp ->
        (RDFMultiprover.VerifyWithType m2 ["Account"] "doc" ["Account.Owner"; "Total"] []
           (Commit tree false).1 (Multiproof_ToBytes mp) [[Byte.x03; Byte.x04]; replicate 8 Byte.x07]
           (Some 63) (Some (be 32 demoHash))).1 = Ok true).
Proof.
  apply (rdf_proof_complete RDFMultiprover.NewRDFMultiprover "doc" accountDocument [] "Account" demoHash
    demoSets ["Account"] ["Account.Owner"; "Total"] [[Byte.x03; Byte.x04]; replicate 8 Byte.x07] true).
  - exact demo_sizes.
  - exact demoProver_complete.
  - exact demo_schema.
  - exact demo_cache.
  - exact demo_exist.
  - done.
  - by vm_compute.
  - exact demo_fields.
  - by left.
Defined.

Lemma account_visits : visitsTags accountDocument (map_to_list accountTags).*2.
Proof.
  split; [| |].
  - intros tag. rewrite list_elem_of_fmap. split.
    + intros ([f tag'] & -> & Hin%elem_of_map_to_list). exists "Account"%string, f, accountTags.
      split; [by vm_compute|done].
    + intros (c & f & ct & Ec & Ef). assert (ct = accountTags) as ->.
      { unfold accountDocument in Ec. by apply lookup_singleton_Some in Ec as [_ <-]. }
      exists (f, tag). split; [done|]. by apply elem_of_map_to_list.
  - by_decide.
  - intros a b Ha Hb E. vm_compute in Ha, Hb.
    repeat (apply elem_of_cons in Ha as [->|Ha]); try (by apply not_elem_of_nil in Ha);
    repeat (apply elem_of_cons in Hb as [->|Hb]); try (by apply not_elem_of_nil in Hb); done.
Qed.

Definition ownerTree : VectorCommitmentTree :=
  mkTree (Some (LeafNode (mkLeaf (orderKey 1 0) (Some [Byte.x01; Byte.x02]) [] [] 2))).

Lemma rdf_validate_iff_witness :
  exists c f tag, docTag accountDocument c f tag
    /\ OrderToKey (Order tag) (GetMaxOrderForDocument accountDocument) = Ok (orderKey 1 0)
    /\ validateValue [Byte.x01; Byte.x02] tag = Ok tt.
Proof.
  destruct (proj1 (rdf_validate_iff RDFMultiprover.NewRDFMultiprover "doc" accountDocument ["Account"]
    (map_to_list accountTags).*2 [] ownerTree false
    demo_cache eq_refl ltac:(by vm_compute) account_visits
    ltac:(constructor; [eexists; by vm_compute|constructor])
    (demo_leaf_wf _)) ltac:(by vm_compute) (orderKey 1 0) (Some [Byte.x01; Byte.x02]) [] 2)
    as [[E _]|(c & f & tag & Ht & Eo & [|Ev])]; [by vm_compute|done|done|].
  exists c, f, tag. split_and!; [exact Ht|exact Eo|exact Ev].
Defined.

(** A field of order 63 shares the root slot of the type key: its honest proof is refused. *)
Definition wideTags : TagsByClass :=
  {[ "Account" := {[ "Owner" := mkTag "Owner" "" 0 None "" "" 0; "Last" := mkTag "Last" "" 63 None "" "" 0 ]} ]}.

Example rdf_order_63_unprovable :
  let t := (setIn wideTags [] "Account" "Last" (Some [Byte.x02])
             (setIn wideTags [] "Account" "Owner" (Some [Byte.x01]) emptyTree).2).2 in
  match proveIn wideTags ["Account"] ["Owner"] t None, proveIn wideTags ["Account"] ["Last"] t None with
  | (Ok mp0, _), (Ok mp63, _) =>
    verifyIn wideTags ["Account"] ["Owner"] [] (Commit t false).1 (Multiproof_ToBytes mp0) [[Byte.x01]] None None
      = Ok true
    /\ verifyIn wideTags ["Account"] ["Last"] [] (Commit t false).1 (Multiproof_ToBytes mp63) [[Byte.x02]] None None
      = Ok false
  | _, _ => False
  end.
Proof. vm_compute. by split. Qed.

(** Two classes with a field of order 0 each: whether a value is valid depends on the
    order in which the maps are visited. *)
Example rdf_validate_depends_on_order :
  let short := mkTag "A" "" 0 None "" QCLByteArray 1 in
  let long := mkTag "B" "" 0 None "" QCLByteArray 2 in
  let tags : TagsByClass := {[ "A" := {[ "f" := short ]}; "B" := {[ "g" := long ]} ]} in
  let t := (setIn tags [] "A" "f" (Some [Byte.x01]) emptyTree).2 in
  validateIn tags ["A"; "B"] [long; short] [] t false = Ok true
  /\ validateIn tags ["A"; "B"] [short; long] [] t false = Err "unexpected size".
Proof. vm_compute. by split. Qed.
