(* ===== verification/ConsensusMachine.v ===== *)
(** * The consensus state machine (consensus/state_machine.go)

    StateMachine: the table of transitions, the behaviour run on entry to each state,
    the handlers of received messages and the event loop.

    Events are sent by goroutines of their own and arrive in any order: the events
    under way are a multiset.  A behaviour runs in the event loop and releases the mutex
    between its critical sections, so messages can be received between them: a
    behaviour is a program of critical sections, provider calls and sent events, and the
    step relation interleaves it with everything else.  The providers are interfaces;
    what they answer is an argument of each run of a behaviour and may differ from run
    to run.  Pointers a provider returns together with a nil error are not nil.  Tracing
    and the time a state was entered are left out. *)

From S2P Require Import Prelude.

Inductive State :=
| StateStopped | StateStarting | StateLoading | StateCollecting | StateLivenessCheck
| StateProving | StatePublishing | StateVoting | StateFinalizing | StateVerifying | StateStopping.

Inductive Event :=
| EventStart | EventStop | EventSyncTimeout | EventInduceSync | EventSyncComplete
| EventInitComplete | EventCollectionDone | EventLivenessCheckReceived | EventLivenessTimeout
| EventProverSignal | EventProofComplete | EventPublishComplete | EventPublishTimeout
| EventProposalReceived | EventVoteReceived | EventQuorumReached | EventVotingTimeout
| EventAggregationDone | EventAggregationTimeout | EventConfirmationReceived
| EventVerificationDone | EventVerificationTimeout | EventCleanupComplete.

#[export] Instance State_eq_dec : EqDecision State.
Proof. solve_decision. Defined.
#[export] Instance Event_eq_dec : EqDecision Event.
Proof. solve_decision. Defined.

(** ** Transitions *)

(** The map of maps; all guards are nil. *)
Definition Transitions : Type := State -> option (Event -> option State).

Definition addTransition (from : State) (event : Event) (to : State) (t : Transitions) : Transitions :=
  fun s =>
    if decide (s = from)
    then Some (fun e => if decide (e = event) then Some to else match t s with Some f => f e | None => None end)
    else t s.

Definition interruptible : list State :=
  [StateStarting; StateLoading; StateCollecting; StateLivenessCheck; StateProving; StatePublishing;
   StateVoting; StateFinalizing; StateVerifying].

Definition defineTransitions : Transitions :=
  let basic : list (State * Event * State) :=
    [ (StateStopped, EventStart, StateStarting);
      (StateStarting, EventInitComplete, StateLoading);
      (StateLoading, EventSyncTimeout, StateLoading);
      (StateLoading, EventSyncComplete, StateCollecting);
      (StateCollecting, EventCollectionDone, StateLivenessCheck);
      (StateLivenessCheck, EventProverSignal, StateProving);
      (StateLivenessCheck, EventLivenessTimeout, StateLivenessCheck);
      (StateLivenessCheck, EventLivenessCheckReceived, StateLivenessCheck);
      (StateProving, EventProofComplete, StatePublishing);
      (StateProving, EventPublishTimeout, StateVoting);
      (StatePublishing, EventPublishComplete, StateVoting);
      (StatePublishing, EventPublishTimeout, StateVoting);
      (StateVoting, EventProposalReceived, StateVoting);
      (StateVoting, EventVoteReceived, StateVoting);
      (StateVoting, EventQuorumReached, StateFinalizing);
      (StateVoting, EventVotingTimeout, StateVoting);
      (StateFinalizing, EventAggregationDone, StateVerifying);
      (StateFinalizing, EventAggregationTimeout, StateFinalizing);
      (StateVerifying, EventVerificationDone, StateCollecting);
      (StateVerifying, EventVerificationTimeout, StateVerifying) ] in
  let t := foldl (fun t x => addTransition x.1.1 x.1.2 x.2 t) (fun _ => None) basic in
  let t := foldl (fun t s => addTransition s EventInduceSync StateLoading
                               (addTransition s EventStop StateStopping t)) t interruptible in
  addTransition StateStopping EventCleanupComplete StateStopped t.

(** The lookup of handleEvent. *)
Definition handleEvent (current : State) (event : Event) : result State :=
  match defineTransitions current with
  | None => Err "no transitions defined for state"
  | Some transitions =>
    match transitions event with
    | None => Err "no transition for event in state"
    | Some to => Ok to
    end
  end.

(** The Timeout and OnTimeout of a state's configuration; Stopped has none. *)
Definition onTimeout (s : State) : option Event :=
  match s with
  | StateStopped => None
  | StateStarting => Some EventInitComplete
  | StateLoading => Some EventSyncTimeout
  | StateCollecting => Some EventInduceSync
  | StateLivenessCheck => Some EventLivenessTimeout
  | StateProving => Some EventPublishTimeout
  | StatePublishing => Some EventPublishTimeout
  | StateVoting => Some EventVotingTimeout
  | StateFinalizing => Some EventAggregationTimeout
  | StateVerifying => Some EventVerificationTimeout
  | StateStopping => Some EventCleanupComplete
  end.

(** The interface Unique. *)
Class Unique (A : Type) := {
  Identity : A -> string;
  Clone : A -> A;
  Rank : A -> Z
}.

(** A map of maps [m[r][p] = v], creating [m[r]] if it is missing. *)
Definition put {A} (r : Z) (p : string) (v : A) (m : gmap Z (gmap string A)) : gmap Z (gmap string A) :=
  <[r := <[p := v]> (default ∅ (m !! r))]> m.

Definition at_rank {A} (r : Z) (m : gmap Z (gmap string A)) : gmap string A := default ∅ (m !! r).

(** As [put], keeping the value that is there. *)
Definition putNew {A} (r : Z) (p : string) (v : A) (m : gmap Z (gmap string A)) : gmap Z (gmap string A) :=
  match at_rank r m !! p with
  | Some _ => m
  | None => put r p v m
  end.

Section machine.
Context {StateT VoteT PeerIDT CollectedT : Type}.
Context `{Unique StateT, Unique VoteT, Unique PeerIDT, Unique CollectedT}.

(** The fields of StateMachine that change. *)
Record machine := mkMachine {
  machineState : State;
  activeState : option StateT;
  nextState : option StateT;
  collected : option CollectedT;
  nextProvers : list PeerIDT;
  liveness : gmap Z (gmap string CollectedT);
  votes : gmap Z (gmap string VoteT);
  proposals : gmap Z (gmap string StateT);
  confirmations : gmap Z (gmap string StateT);
  chosenProposer : option PeerIDT;
  transitionCount : Z
}.

(** ** Behaviours *)

(** What Synchronize delivers: a state on its first channel, an error on the second, or
    nothing. *)
Inductive syncResult :=
| SyncState (s : option StateT)
| SyncError
| SyncSilent.

(** The answers of the providers during one run of a behaviour; [None] and [false] are
    errors.  [aMinimum1] and [aMinimum2] are the first and the second call. *)
Record answers := mkAnswers {
  aSync : option (option StateT -> syncResult);  (* None: no sync provider *)
  aLeaders : option StateT -> option (list PeerIDT);
  aCollect : option CollectedT;
  aSendLiveness : option StateT -> CollectedT -> bool;
  aMinimum1 : Z;
  aMinimum2 : Z;
  aProve : option StateT -> CollectedT -> option StateT;
  aSendProposal : StateT -> bool;
  aDecide : gmap string StateT -> option (PeerIDT * VoteT);
  aQuorum : gmap string VoteT -> option bool;
  aFinalize : gmap string StateT -> gmap string VoteT -> option StateT;
  aConfirm : StateT -> bool
}.

(** The provider calls that act on the network. *)
Inductive call :=
| CallSendLiveness (c : CollectedT)
| CallSendProposal (s : StateT)
| CallDecideAndSendVote (r : Z) (ps : gmap string StateT) (vote : option (PeerIDT * VoteT))
| CallIsQuorum (r : Z) (vs : gmap string VoteT) (ok : bool)
| CallFinalizeVotes (ps : gmap string StateT) (vs : gmap string VoteT) (s : option StateT)
| CallSendConfirmation (s : StateT).

(** A behaviour: [Atomic f] is a critical section, which ends with the mutex released;
    [ReturnLocked] returns without releasing it, [CrashLocked] dereferences nil while
    holding it.  [AwaitDone k] blocks until the context of the behaviour is cancelled;
    [IfDone k k'] asks whether it is. *)
Inductive prog :=
| Return
| ReturnLocked
| CrashLocked
| AwaitDone (k : prog)
| IfDone (yes no : prog)
| Emit (e : Event) (k : prog)
| Call (c : call) (k : prog)
| Atomic (f : machine -> machine * prog).

Definition setActive (s : option StateT) (m : machine) : machine :=
  mkMachine (machineState m) s (nextState m) (collected m) (nextProvers m) (liveness m) (votes m)
    (proposals m) (confirmations m) (chosenProposer m) (transitionCount m).
Definition setNext (s : option StateT) (m : machine) : machine :=
  mkMachine (machineState m) (activeState m) s (collected m) (nextProvers m) (liveness m) (votes m)
    (proposals m) (confirmations m) (chosenProposer m) (transitionCount m).
Definition setProvers (ps : list PeerIDT) (m : machine) : machine :=
  mkMachine (machineState m) (activeState m) (nextState m) (collected m) ps (liveness m) (votes m)
    (proposals m) (confirmations m) (chosenProposer m) (transitionCount m).
Definition setCollected (c : option CollectedT) (m : machine) : machine :=
  mkMachine (machineState m) (activeState m) (nextState m) c (nextProvers m) (liveness m) (votes m)
    (proposals m) (confirmations m) (chosenProposer m) (transitionCount m).
Definition setChosen (p : option PeerIDT) (m : machine) : machine :=
  mkMachine (machineState m) (activeState m) (nextState m) (collected m) (nextProvers m) (liveness m)
    (votes m) (proposals m) (confirmations m) p (transitionCount m).
Definition setLiveness l (m : machine) : machine :=
  mkMachine (machineState m) (activeState m) (nextState m) (collected m) (nextProvers m) l (votes m)
    (proposals m) (confirmations m) (chosenProposer m) (transitionCount m).
Definition setVotes v (m : machine) : machine :=
  mkMachine (machineState m) (activeState m) (nextState m) (collected m) (nextProvers m) (liveness m) v
    (proposals m) (confirmations m) (chosenProposer m) (transitionCount m).
Definition setProposals p (m : machine) : machine :=
  mkMachine (machineState m) (activeState m) (nextState m) (collected m) (nextProvers m) (liveness m)
    (votes m) p (confirmations m) (chosenProposer m) (transitionCount m).
Definition setConfirmations c (m : machine) : machine :=
  mkMachine (machineState m) (activeState m) (nextState m) (collected m) (nextProvers m) (liveness m)
    (votes m) (proposals m) c (chosenProposer m) (transitionCount m).
Definition enterState (s : State) (m : machine) : machine :=
  mkMachine s (activeState m) (nextState m) (collected m) (nextProvers m) (liveness m) (votes m)
    (proposals m) (confirmations m) (chosenProposer m) (u64 (transitionCount m + 1)).

(** The rank after that of a state, a uint64. *)
Definition nextRank (s : StateT) : Z := u64 (Rank s + 1).

(** The identity of this node and shouldEmitReceiveEventsOnSends. *)
Context (id : PeerIDT) (emitOnSends : bool).

Definition loading (ans : answers) (data : option StateT) : prog :=
  match aSync ans with
  | None => Return
  | Some synchronize =>
    match synchronize data with
    | SyncState newState =>
      Atomic (fun m => (setActive newState m,
        match aLeaders ans newState with
        | None => Return
        | Some nextLeaders =>
          if existsb (fun leader => bool_decide (Identity leader = Identity id)) nextLeaders
          then Emit EventSyncComplete Return
          else Emit EventSyncTimeout Return
        end))
    | SyncError => Emit EventSyncTimeout Return
    | SyncSilent => AwaitDone Return
    end
  end.

Definition collecting (ans : answers) (data : option StateT) : prog :=
  match aCollect ans with
  | None => Emit EventInduceSync Return
  | Some c =>
    Atomic (fun m => (setProvers [] (setChosen None (setCollected (Some c) m)),
      match aLeaders ans data with
      | None => Emit EventInduceSync Return
      | Some ps =>
        Atomic (fun m => (setProvers ps m,
          Call (CallSendLiveness c)
            (if negb (aSendLiveness ans data c) then Emit EventInduceSync Return
             else
               Atomic (fun m =>
                 if emitOnSends then
                   match collected m with
                   | None => (m, CrashLocked)
                   | Some c' =>
                     (setLiveness (put (Rank c) (Identity id) c' (liveness m)) m,
                      Emit EventLivenessCheckReceived (Emit EventCollectionDone Return))
                   end
                 else (m, Emit EventCollectionDone Return)))))
      end))
  end.

Definition livenessCheck (ans : answers) (data : option StateT) : prog :=
  let announce :=
    Atomic (fun m =>
      match collected m with
      | None => (m, CrashLocked)
      | Some c =>
        (m, Atomic (fun m =>
          match activeState m with
          | None => (m, CrashLocked)
          | Some s =>
            (m, if i64 (aMinimum2 ans) <=? Z.of_nat (size (at_rank (nextRank s) (liveness m)))
                then Emit EventProverSignal Return
                else Call (CallSendLiveness c) Return)
          end))
      end) in
  Atomic (fun m =>
    (m, if Z.of_nat (length (nextProvers m)) <? i64 (aMinimum1 ans) then
          match aLeaders ans data with
          | None => Return
          | Some ps => Atomic (fun m => (setProvers ps m, announce))
          end
        else announce)).

Definition proving (ans : answers) (data : option StateT) : prog :=
  Atomic (fun m =>
    (m, match collected m with
        | None => Return
        | Some c =>
          match aProve ans data c with
          | None => Return
          | Some proposal =>
            Atomic (fun m =>
              (setProposals (put (Rank proposal) (Identity id) proposal (proposals m)) m,
               Emit EventProofComplete Return))
          end
        end)).

(** The mutex is released only if there is a proposal of this node. *)
Definition publishing (ans : answers) (data : option StateT) : prog :=
  Atomic (fun m =>
    match data with
    | None => (m, CrashLocked)
    | Some s =>
      match at_rank (nextRank s) (proposals m) !! Identity id with
      | None => (m, ReturnLocked)
      | Some proposal =>
        (m, Call (CallSendProposal proposal)
              (if aSendProposal ans proposal then Emit EventPublishComplete Return else Return))
      end
    end).

Definition voting (ans : answers) : prog :=
  Atomic (fun m =>
    match activeState m with
    | None => (m, CrashLocked)
    | Some s =>
      let r := nextRank s in
      match chosenProposer m with
      | None =>
        if Z.of_nat (size (at_rank r (proposals m))) <? i64 (aMinimum1 ans) then (m, Return)
        else
          let ps := Clone <$> at_rank r (proposals m) in
          (m, IfDone Return (Call (CallDecideAndSendVote r ps (aDecide ans ps))
                match aDecide ans ps with
                | None => Return
                | Some (selectedPeer, vote) =>
                  Atomic (fun m =>
                    let m := setChosen (Some selectedPeer) m in
                    if emitOnSends then
                      match activeState m with
                      | None => (m, CrashLocked)
                      | Some s =>
                        (setVotes (put (nextRank s) (Identity id) vote (votes m)) m,
                         Emit EventVoteReceived Return)
                      end
                    else (m, Return))
                end))
      | Some _ =>
        let vs := Clone <$> at_rank r (votes m) in
        let haveEnoughProposals := i64 (aMinimum1 ans) <=? Z.of_nat (size (at_rank r (proposals m))) in
        (m, match aQuorum ans vs with
            | None => Return
            | Some isQuorum =>
              Call (CallIsQuorum r vs isQuorum)
                (if isQuorum && haveEnoughProposals then Emit EventQuorumReached Return else Return)
            end)
      end
    end).

Definition finalizing (ans : answers) : prog :=
  Atomic (fun m =>
    match activeState m with
    | None => (m, CrashLocked)
    | Some s =>
      let ps := Clone <$> at_rank (nextRank s) (proposals m) in
      let vs := Clone <$> at_rank (nextRank s) (votes m) in
      (m, Call (CallFinalizeVotes ps vs (aFinalize ans ps vs))
            match aFinalize ans ps vs with
            | None => Return
            | Some finalized =>
              Atomic (fun m => (setNext (Some (Clone finalized)) m, Emit EventAggregationDone Return))
            end)
    end).

(** The second half of the Verifying behaviour. *)
Definition advance (m : machine) : machine * prog :=
  match nextState m with
  | None => (m, Return)
  | Some s =>
    let r := Rank s in
    (mkMachine (machineState m) (Some s) None None (nextProvers m) (delete r (liveness m))
       (delete r (votes m)) (delete r (proposals m)) (delete r (confirmations m))
       (chosenProposer m) (transitionCount m),
     Emit EventVerificationDone Return)
  end.

Definition verifying (ans : answers) : prog :=
  Atomic (fun m =>
    match activeState m with
    | None => (m, CrashLocked)
    | Some s =>
      match at_rank (nextRank s) (confirmations m) !! Identity id, nextState m with
      | None, Some next => (m, Call (CallSendConfirmation next) (Atomic advance))
      | _, _ => advance m
      end
    end).

(** The Behavior of a state's configuration; the source passes the active state on. *)
Definition behavior (ans : answers) (s : State) (data : option StateT) : option prog :=
  match s with
  | StateStopped => None
  | StateStarting => None
  | StateLoading => Some (loading ans data)
  | StateCollecting => Some (collecting ans data)
  | StateLivenessCheck => Some (livenessCheck ans data)
  | StateProving => Some (proving ans data)
  | StatePublishing => Some (publishing ans data)
  | StateVoting => Some (voting ans)
  | StateFinalizing => Some (finalizing ans)
  | StateVerifying => Some (verifying ans)
  | StateStopping => Some (Emit EventCleanupComplete Return)
  end.

(** ** Received messages *)

Inductive message :=
| MsgLivenessCheck (peer : PeerIDT) (c : CollectedT)
| MsgProposal (peer : PeerIDT) (proposal : StateT)
| MsgVote (proposer voter : PeerIDT) (vote : VoteT)
| MsgConfirmation (peer : PeerIDT) (confirmation : StateT).

(** Each handler gives the machine and the event it sends, or an error; a rejected vote
    changes nothing. *)
Definition ReceiveLivenessCheck (peer : PeerIDT) (c : CollectedT) (m : machine) : result (machine * Event) :=
  Ok (setLiveness (putNew (Rank c) (Identity peer) c (liveness m)) m, EventLivenessCheckReceived).

Definition ReceiveProposal (peer : PeerIDT) (proposal : StateT) (m : machine) : result (machine * Event) :=
  Ok (setProposals (putNew (Rank proposal) (Identity peer) proposal (proposals m)) m, EventProposalReceived).

Definition ReceiveVote (proposer voter : PeerIDT) (vote : VoteT) (m : machine) : result (machine * Event) :=
  match at_rank (Rank vote) (votes m) !! Identity voter with
  | None => Ok (setVotes (put (Rank vote) (Identity voter) vote (votes m)) m, EventVoteReceived)
  | Some v =>
    if decide (Identity v = Identity vote) then Ok (m, EventVoteReceived)
    else Err "received conflicting vote"
  end.

Definition ReceiveConfirmation (peer : PeerIDT) (confirmation : StateT) (m : machine) : result (machine * Event) :=
  Ok (setConfirmations (putNew (Rank confirmation) (Identity peer) confirmation (confirmations m)) m,
      EventConfirmationReceived).

Definition receive (msg : message) (m : machine) : result (machine * Event) :=
  match msg with
  | MsgLivenessCheck peer c => ReceiveLivenessCheck peer c m
  | MsgProposal peer p => ReceiveProposal peer p m
  | MsgVote proposer voter v => ReceiveVote proposer voter v m
  | MsgConfirmation peer c => ReceiveConfirmation peer c m
  end.

(** ** The event loop *)

(** Where processEvents is: waiting in its select, between handleEvent's lookup and the
    lock of executeTransition, running the behaviour of the entered state, or gone. *)
Inductive loopState :=
| Waiting
| Executing (to : State)
| Behaving (to : State) (k : prog)
| Exited.

(** [pending]: the events sent and not yet handled; [timer]: the event of timeoutTimer;
    [locked]: mu was left locked by the event loop; [closed]: ctx is cancelled; [calls]:
    the calls made so far. *)
Record config := mkConfig {
  sm : machine;
  loop : loopState;
  pending : list Event;
  timer : option Event;
  locked : bool;
  closed : bool;
  calls : list call
}.

Definition initial (initialState : option StateT) : config :=
  mkConfig (mkMachine StateStopped initialState None None [] ∅ ∅ ∅ ∅ None 0)
    Waiting [] None false false [].

(** executeTransition up to the start of the behaviour; without one the timer is set at
    once. *)
Definition executeTransition (ans : answers) (to : State) (c : config) : config :=
  let m := enterState to (sm c) in
  match behavior ans to (activeState m) with
  | Some k => mkConfig m (Behaving to k) (pending c) None (locked c) (closed c) (calls c)
  | None => mkConfig m Waiting (pending c) (onTimeout to) (locked c) (closed c) (calls c)
  end.

(** One step of the running behaviour of [to]; the steps that take the mutex are
    impossible once it is lost.  The behaviour runs in the event loop, so its context is
    cancelled by Close alone. *)
Definition runBehavior (to : State) (k : prog) (c : config) : option config :=
  match k with
  | Return =>
    if locked c then None
    else Some (mkConfig (sm c) Waiting (pending c) (onTimeout to) (locked c) (closed c) (calls c))
  | ReturnLocked => Some (mkConfig (sm c) (Behaving to Return) (pending c) (timer c) true (closed c) (calls c))
  | CrashLocked => if locked c then None
                   else Some (mkConfig (sm c) (Behaving to CrashLocked) (pending c) (timer c) true (closed c) (calls c))
  | AwaitDone k =>
    if closed c then Some (mkConfig (sm c) (Behaving to k) (pending c) (timer c) (locked c) (closed c) (calls c)) else None
  | IfDone k k' =>
    Some (mkConfig (sm c) (Behaving to (if closed c then k else k')) (pending c) (timer c) (locked c) (closed c) (calls c))
  | Emit e k => Some (mkConfig (sm c) (Behaving to k) (pending c ++ [e]) (timer c) (locked c) (closed c) (calls c))
  | Call x k => Some (mkConfig (sm c) (Behaving to k) (pending c) (timer c) (locked c) (closed c) (calls c ++ [x]))
  | Atomic f =>
    if locked c then None
    else let '(m, k) := f (sm c) in
         Some (mkConfig m (Behaving to k) (pending c) (timer c) (locked c) (closed c) (calls c))
  end.

(** The lookup of handleEvent for the event taken from [pending], which leaves [rest]. *)
Definition deliver (e : Event) (rest : list Event) (c : config) : config :=
  match handleEvent (machineState (sm c)) e with
  | Ok to => mkConfig (sm c) (Executing to) rest (timer c) (locked c) (closed c) (calls c)
  | _ => mkConfig (sm c) Waiting rest (timer c) (locked c) (closed c) (calls c)
  end.

Definition sendEvent (e : Event) (c : config) : config :=
  mkConfig (sm c) (loop c) (pending c ++ [e]) (timer c) (locked c) (closed c) (calls c).

Definition Close (c : config) : config :=
  let m := sm c in
  mkConfig (mkMachine StateStopped (activeState m) (nextState m) (collected m) (nextProvers m) (liveness m)
              (votes m) (proposals m) (confirmations m) (chosenProposer m) (transitionCount m))
    (loop c) (pending c) None (locked c) true (calls c).

(** processEvents recovers from a panic, closes the machine and ends. *)
Definition recovered (c : config) : config :=
  let c := Close c in mkConfig (sm c) Exited (pending c) (timer c) (locked c) (closed c) (calls c).

(** [allowed]: the answers the providers may give to a machine in a given state. *)
Context (allowed : machine -> answers -> Prop).

(** The steps the event loop and the timer take by themselves. *)
Inductive internal : config -> config -> Prop :=
| step_deliver c e p1 p2 :
    loop c = Waiting -> locked c = false -> pending c = p1 ++ e :: p2 ->
    internal c (deliver e (p1 ++ p2) c)
| step_execute c to ans :
    loop c = Executing to -> locked c = false -> allowed (sm c) ans ->
    internal c (executeTransition ans to c)
| step_behavior c c' to k :
    loop c = Behaving to k -> runBehavior to k c = Some c' ->
    internal c c'
| step_timer c e :
    timer c = Some e ->
    internal c (mkConfig (sm c) (loop c) (pending c ++ [e]) None (locked c) (closed c) (calls c))
| step_exit c :
    loop c = Waiting -> closed c = true ->
    internal c (mkConfig (sm c) Exited (pending c) (timer c) (locked c) (closed c) (calls c))
| step_drop c e p1 p2 :
    closed c = true -> pending c = p1 ++ e :: p2 ->
    internal c (mkConfig (sm c) (loop c) (p1 ++ p2) (timer c) (locked c) (closed c) (calls c)).

(** The steps of the rest of the program: SendEvent (Start and Stop are SendEvent of
    their events), the Receive handlers, Close, and a panic of a provider that a behaviour
    calls outside of critical sections; minimumProvers, the only callback inside of one, does
    not panic. *)
Inductive external : config -> config -> Prop :=
| step_send c e : external c (sendEvent e c)
| step_receive c msg m e :
    locked c = false -> receive msg (sm c) = Ok (m, e) ->
    external c (mkConfig m (loop c) (pending c ++ [e]) (timer c) (locked c) (closed c) (calls c))
| step_close c :
    locked c = false ->
    external c (Close c)
| step_panic c to k :
    loop c = Behaving to k -> locked c = false ->
    external c (recovered c).

Definition step (c c' : config) : Prop := internal c c' \/ external c c'.

Definition reachable (initialState : option StateT) (c : config) : Prop :=
  rtc step (initial initialState) c.

End machine.

Arguments machine : clear implicits.
Arguments answers : clear implicits.
Arguments prog : clear implicits.
Arguments config : clear implicits.
Arguments message : clear implicits.
Arguments call : clear implicits.
Arguments syncResult : clear implicits.
Arguments loopState : clear implicits.
