(* ===== verification/ConsensusSpec.v ===== *)
(** * What the consensus state machine guarantees

    A rely-guarantee argument for the behaviours (their critical sections preserve an
    invariant whatever messages arrive between them), and from it: entries are filed
    under their own rank, a counted vote is never replaced, the active rank advances by
    one at a time; the machine never stalls while its mutex is not lost; the mutex is lost
    for good in Publishing without a proposal; a single node with cooperating providers
    finalises rank after rank. *)

From S2P Require Import Prelude ConsensusMachine.



Lemma lookup_put {A} r p (v : A) m r' p' :
  at_rank r' (put r p v m) !! p' =
  if decide (r' = r /\ p' = p) then Some v else at_rank r' m !! p'.
Proof.
  unfold put, at_rank. destruct (decide (r' = r)) as [->|Hr].
  - rewrite lookup_insert_eq. change (default ∅ (Some ?x)) with x. destruct (decide (p' = p)) as [->|Hp].
    + rewrite lookup_insert_eq, decide_True by done. done.
    + rewrite lookup_insert_ne, decide_False by (done || tauto). done.
  - rewrite lookup_insert_ne, decide_False by (done || tauto). done.
Qed.

Lemma lookup_putNew {A} r p (v : A) m r' p' :
  at_rank r' (putNew r p v m) !! p' =
  if decide (r' = r /\ p' = p /\ at_rank r m !! p = None) then Some v else at_rank r' m !! p'.
Proof.
  unfold putNew. destruct (at_rank r m !! p) eqn:E.
  - rewrite decide_False; [done|]. intros (_ & _ & ?). done.
  - rewrite lookup_put. repeat case_decide; tauto.
Qed.

Lemma lookup_delete_rank {A} r (m : gmap Z (gmap string A)) r' :
  at_rank r' (delete r m) = if decide (r' = r) then ∅ else at_rank r' m.
Proof.
  unfold at_rank. case_decide; subst.
  - by rewrite lookup_delete_eq.
  - by rewrite lookup_delete_ne.
Qed.

(** Every entry of a map of maps is filed under its own rank. *)
Definition filedUnder {A} `{Unique A} (m : gmap Z (gmap string A)) : Prop :=
  forall r p x, at_rank r m !! p = Some x -> Rank x = r.

Lemma filedUnder_put {A} `{Unique A} p (v : A) m : filedUnder m -> filedUnder (put (Rank v) p v m).
Proof.
  intros Hm r p' x. rewrite lookup_put. case_decide as E; [|apply Hm].
  destruct E as [-> _]. by intros [= ->].
Qed.

Lemma filedUnder_putNew {A} `{Unique A} p (v : A) m : filedUnder m -> filedUnder (putNew (Rank v) p v m).
Proof. intros Hm. unfold putNew. case_match; [done|]. by apply filedUnder_put. Qed.

Lemma filedUnder_delete {A} `{Unique A} r (m : gmap Z (gmap string A)) :
  filedUnder m -> filedUnder (delete r m).
Proof. intros Hm r' p x. rewrite lookup_delete_rank. case_decide; [done|]. apply Hm. Qed.

Lemma filedUnder_empty {A} `{Unique A} : filedUnder (∅ : gmap Z (gmap string A)).
Proof. intros r p x. unfold at_rank. by rewrite lookup_empty. Qed.

(** No entry of [m] outside rank [r] is lost or changed, except that of [own]. *)
Definition keeps {A} (gone : Z -> Prop) (own : string -> Prop) (m m' : gmap Z (gmap string A)) : Prop :=
  forall r p x, ~ own p -> at_rank r m !! p = Some x -> at_rank r m' !! p = Some x \/ gone r.

Lemma keeps_refl {A} gone own (m : gmap Z (gmap string A)) : keeps gone own m m.
Proof. left. done. Qed.

Lemma keeps_put {A} gone (own : string -> Prop) r p (v : A) m : own p -> keeps gone own m (put r p v m).
Proof.
  intros Hp r' p' x Hown Hx. left. rewrite lookup_put, decide_False; [done|].
  intros [_ ->]. done.
Qed.

Lemma keeps_put_free {A} gone own r p (v : A) m :
  at_rank r m !! p = None -> keeps gone own m (put r p v m).
Proof.
  intros Hn r' p' x _ Hx. left. rewrite lookup_put, decide_False; [done|].
  intros [-> ->]. congruence.
Qed.

Lemma keeps_putNew {A} gone own r p (v : A) m : keeps gone own m (putNew r p v m).
Proof.
  unfold putNew. case_match eqn:E; [apply keeps_refl|]. by apply keeps_put_free.
Qed.

Lemma keeps_delete {A} (gone : Z -> Prop) own r (m : gmap Z (gmap string A)) :
  gone r -> keeps gone own m (delete r m).
Proof.
  intros Hr r' p x _ Hx. rewrite lookup_delete_rank. case_decide; subst; auto.
Qed.

Create HintDb consensus.
#[export] Hint Resolve filedUnder_put filedUnder_putNew filedUnder_delete filedUnder_empty
  keeps_refl keeps_put keeps_put_free keeps_putNew keeps_delete : consensus.

Section spec.
Context {StateT VoteT PeerIDT CollectedT : Type}.
Context `{Unique StateT, Unique VoteT, Unique PeerIDT, Unique CollectedT}.

Abbreviation machine := (machine StateT VoteT PeerIDT CollectedT).
Abbreviation answers := (answers StateT VoteT PeerIDT CollectedT).
Abbreviation prog := (prog StateT VoteT PeerIDT CollectedT).
Abbreviation config := (config StateT VoteT PeerIDT CollectedT).

Section induction.
Context (P : prog -> Prop).
Context (PReturn : P Return) (PReturnLocked : P ReturnLocked) (PCrash : P CrashLocked).
Context (PAwait : forall k, P k -> P (AwaitDone k)) (PIf : forall k k', P k -> P k' -> P (IfDone k k')).
Context (PEmit : forall e k, P k -> P (Emit e k)) (PCall : forall c k, P k -> P (Call c k)).
Context (PAtomic : forall f, (forall m, P (f m).2) -> P (Atomic f)).

End induction.

Context (id : PeerIDT) (emitOnSends : bool) (allowed : machine -> answers -> Prop).

Abbreviation behavior := (behavior id emitOnSends).
Abbreviation executeTransition := (executeTransition id emitOnSends).
Abbreviation internal := (internal id emitOnSends allowed).
Abbreviation step := (step id emitOnSends allowed).
Abbreviation reachable := (reachable id emitOnSends allowed).

(** ** Rely and guarantee *)

Definition stopped (m : machine) : machine :=
  mkMachine StateStopped (activeState m) (nextState m) (collected m) (nextProvers m) (liveness m)
    (votes m) (proposals m) (confirmations m) (chosenProposer m) (transitionCount m).

(** What the rest of the program does to the machine while a behaviour runs. *)
Inductive environment (m : machine) : machine -> Prop :=
| env_receive msg m' e : receive msg m = Ok (m', e) -> environment m m'
| env_close : environment m (stopped m).

(** The behaviour [k], begun in machine [m], preserves [I] and acts within [G]. *)
Inductive ok (I : machine -> Prop) (G : machine -> machine -> Prop) : machine -> prog -> Prop :=
| ok_return m : ok I G m Return
| ok_locked m : ok I G m ReturnLocked
| ok_crash m : ok I G m CrashLocked
| ok_await m k : ok I G m k -> ok I G m (AwaitDone k)
| ok_if m k k' : ok I G m k -> ok I G m k' -> ok I G m (IfDone k k')
| ok_emit m e k : ok I G m k -> ok I G m (Emit e k)
| ok_call m c k : ok I G m k -> ok I G m (Call c k)
| ok_atomic m f :
    (forall m', rtc environment m m' -> I m' ->
       I (f m').1 /\ G m' (f m').1 /\ ok I G (f m').1 (f m').2) ->
    ok I G m (Atomic f).

Lemma ok_environment I G m m' k : ok I G m k -> environment m m' -> ok I G m' k.
Proof.
  intros Hk Hm. induction Hk as [| | |?? _ IH|??? _ IH1 _ IH2|??? _ IH|??? _ IH|m f Hf]; constructor; auto.
  intros m'' Hr. apply Hf. by eapply rtc_l.
Qed.

(** The fields only the event loop writes. *)
Record unshared (m m' : machine) : Prop := {
  un_state : machineState m' = machineState m \/ machineState m' = StateStopped;
  un_active : activeState m' = activeState m;
  un_next : nextState m' = nextState m;
  un_collected : collected m' = collected m;
  un_provers : nextProvers m' = nextProvers m;
  un_chosen : chosenProposer m' = chosenProposer m
}.

Lemma environment_unshared m m' : environment m m' -> unshared m m'.
Proof.
  intros [[]? e Hm|]; [| | | |split; auto]; cbn in Hm.
  1,2,4: injection Hm as <- <-; split; auto.
  unfold ReceiveVote in Hm. repeat case_match; try discriminate; injection Hm as <- <-; split; auto.
Qed.

Lemma environments_unshared m m' : rtc environment m m' -> unshared m m'.
Proof.
  induction 1 as [|m m1 m2 Hm _ IH]; [split; auto|]. apply environment_unshared in Hm.
  destruct Hm, IH. constructor; intuition congruence.
Qed.

Section invariant.
Context (I : machine -> Prop) (G : machine -> machine -> Prop).
Context (I_env : forall m m', environment m m' -> I m -> I m').
Context (I_enter : forall s m, I m -> I (enterState s m)).
Context (I_behavior : forall ans to m k,
  allowed m ans -> I m -> behavior ans to (activeState m) = Some k -> ok I G (enterState to m) k).

Definition invariant (c : config) : Prop :=
  I (sm c) /\ forall to k, loop c = Behaving to k -> ok I G (sm c) k.

(** A step of a behaviour leaves the machine alone or acts within [G]. *)
Lemma invariant_run to k c c' :
  I (sm c) -> ok I G (sm c) k -> runBehavior to k c = Some c' ->
  invariant c' /\ (sm c' = sm c \/ G (sm c) (sm c')).
Proof.
  intros HI Hk Hc. destruct k as [| | |k|k k'|e k|x k|f]; cbn in Hc; inversion Hk as [| | | | | | |?? Hf]; subst.
  8: { destruct (locked c); [done|]. destruct (Hf (sm c)) as (HI' & HG & Hk'); [done..|].
       destruct (f (sm c)) as [m' k']. injection Hc as <-. split; [split; [done|]|by right].
       cbn. intros ?? [= _ <-]. done. }
  all: repeat match type of Hc with context [if ?b then _ else _] => destruct b end; try discriminate; injection Hc as <-.
  all: split; [split; [done|]|by left]; cbn; intros ?? [= _ <-]; done || constructor.
Qed.

(** What a step does to the machine. *)
Definition stepped (m m' : machine) : Prop :=
  m' = m \/ G m m' \/ environment m m' \/ exists to, m' = enterState to m.

Lemma invariant_step c c' : invariant c -> step c c' -> invariant c' /\ stepped (sm c) (sm c').
Proof.
  unfold stepped. intros [HI Hk] [Hs|Hs].
  - destruct Hs as [c e p1 p2 Hl _ _|c to ans Hl _ Ha|c c' to k Hl Hc|c e Ht|c Hl _|c e p1 p2 _ _].
    + unfold deliver. case_match; split; try (by left); split; done.
    + unfold ConsensusMachine.executeTransition.
      case_match eqn:E; cbn; (split; [split; [by apply I_enter|]|eauto]); cbn; [|done].
      intros ?? [= <- <-]. by eapply I_behavior.
    + destruct (invariant_run to k c c') as [? [|]]; eauto.
    + split; [split; done|by left].
    + split; [split; done|by left].
    + split; [split; done|by left].
  - destruct Hs as [c e|c msg m e _ Hm|c _|c to k _ _].
    + split; [split; done|by left].
    + assert (environment (sm c) m) as He by by econstructor.
      split; [split; [by eapply I_env|]|eauto].
      cbn. intros to k Hl. eapply ok_environment; [by eapply Hk|done].
    + assert (environment (sm c) (stopped (sm c))) as He by constructor.
      split; [split; [by eapply I_env|]|eauto].
      cbn. intros to k Hl. eapply ok_environment; [by eapply Hk|done].
    + assert (environment (sm c) (stopped (sm c))) as He by constructor.
      split; [split; [by eapply I_env|done]|eauto].
Qed.

Lemma invariant_steps c c' : invariant c -> rtc step c c' -> invariant c'.
Proof.
  intros Hc Hs. induction Hs as [|c c1 c2 Hs _ IH]; [done|].
  apply IH. by destruct (invariant_step _ _ Hc Hs).
Qed.

Lemma invariant_reachable s c :
  I (sm (initial s)) -> reachable s c -> invariant c.
Proof. intros HI. apply invariant_steps. split; [done|]. done. Qed.

Lemma guarantee_reachable s c c' :
  I (sm (initial s)) -> reachable s c -> step c c' -> stepped (sm c) (sm c').
Proof. intros HI Hr Hs. by apply invariant_step; [eapply invariant_reachable|]. Qed.
End invariant.

Lemma ok_advance I G m m' : ok I G m' (advance m).2.
Proof. unfold advance. case_match; repeat constructor. Qed.

Ltac unfold_behavior :=
  unfold loading, collecting, livenessCheck, proving, publishing, voting, finalizing, verifying.

(** Steps through a behaviour, leaving a goal for each critical section. *)
Ltac ok_run :=
  repeat match goal with
  | |- ok _ _ _ Return => apply ok_return
  | |- ok _ _ _ ReturnLocked => apply ok_locked
  | |- ok _ _ _ CrashLocked => apply ok_crash
  | |- ok _ _ _ (AwaitDone _) => apply ok_await
  | |- ok _ _ _ (IfDone _ _) => apply ok_if
  | |- ok _ _ _ (Emit _ _) => apply ok_emit
  | |- ok _ _ _ (Call _ _) => apply ok_call
  | |- ok _ _ _ (advance _).2 => apply ok_advance
  | |- ok _ _ _ (Atomic _) =>
    apply ok_atomic; let Hu := fresh "Hu" in let HI := fresh "HI" in
    intros ? Hu HI; apply environments_unshared in Hu
  | |- ok _ _ _ (match ?x with _ => _ end) => destruct x eqn:?
  | |- _ /\ _ /\ ok _ _ (match ?x with _ => _ end).1 _ => destruct x eqn:?
  | |- _ /\ _ /\ ok _ _ (_, _).1 _ => cbn [fst snd]
  | |- _ /\ _ /\ ok _ _ _ _ => split; [|split]
  end.

(** ** Entries are filed under their own rank *)

Definition filed (m : machine) : Prop :=
  filedUnder (liveness m) /\ filedUnder (proposals m) /\ filedUnder (confirmations m).

Lemma filed_environment m m' : environment m m' -> filed m -> filed m'.
Proof.
  intros [[]? e Hm|] (Hl & Hp & Hc); [| | | |done]; cbn in Hm.
  1,2,4: injection Hm as <- _; repeat split; cbn; auto with consensus.
  unfold ReceiveVote in Hm. repeat case_match; try discriminate; by injection Hm as <- _.
Qed.

Lemma filed_advance m : filed m -> filed (advance m).1.
Proof.
  intros (Hl & Hp & Hc). unfold advance. case_match; [|done].
  repeat split; cbn; auto with consensus.
Qed.

Lemma filed_behavior ans to data m k :
  behavior ans to data = Some k -> ok filed (fun _ _ => True) m k.
Proof.
  destruct to; intros [= <-]; unfold_behavior; ok_run; try done.
  all: try (by apply filed_advance).
  - assert (c0 = c) as -> by (destruct Hu0, Hu1; cbn in *; congruence).
    destruct HI1 as (Hl & Hp & Hc). repeat split; cbn; auto with consensus.
  - destruct HI0 as (Hl & Hp & Hc). repeat split; cbn; auto with consensus.
Qed.

(** In every reachable configuration each liveness announcement, proposal and
    confirmation is filed under its own rank, whoever sent it and whatever the order of
    messages, events and behaviours. *)
Theorem entries_filed s c : reachable s c -> filed (sm c).
Proof.
  intros Hr. eapply (invariant_reachable filed (fun _ _ => True)); [..|exact Hr].
  - apply filed_environment.
  - done.
  - intros. by eapply filed_behavior.
  - repeat split; apply filedUnder_empty.
Qed.

(** ** Counted entries are not replaced *)

(** The finalised state of rank [r] becomes the active one. *)
Definition finalises (r : Z) (m m' : machine) : Prop :=
  exists s, nextState m = Some s /\ activeState m' = Some s /\ Rank s = r.

(** What [m] holds from other nodes is in [m'], unless its rank was finalised. *)
Record retains (m m' : machine) : Prop := {
  retains_liveness : keeps (fun r => finalises r m m') (fun p => p = Identity id) (liveness m) (liveness m');
  retains_votes : keeps (fun r => finalises r m m') (fun p => p = Identity id) (votes m) (votes m');
  retains_proposals : keeps (fun r => finalises r m m') (fun p => p = Identity id) (proposals m) (proposals m');
  retains_confirmations :
    keeps (fun r => finalises r m m') (fun _ => False) (confirmations m) (confirmations m')
}.

Lemma retains_environment m m' : environment m m' -> retains m m'.
Proof.
  intros [[]? e Hm|]; try cbn in Hm.
  1,2,4: injection Hm as <- _; constructor; cbn; auto with consensus.
  - unfold ReceiveVote in Hm. repeat case_match; try discriminate; injection Hm as <- _;
      constructor; cbn; auto with consensus.
  - constructor; cbn; auto with consensus.
Qed.

Lemma retains_advance m : retains m (advance m).1.
Proof.
  unfold advance. destruct (nextState m) as [s|] eqn:E; [|constructor; apply keeps_refl].
  assert (forall m', activeState m' = Some s -> finalises (Rank s) m m') as Hf
    by (intros; exists s; auto).
  constructor; apply keeps_delete, Hf; done.
Qed.

Lemma retains_behavior ans to data m k :
  behavior ans to data = Some k -> ok (fun _ => True) retains m k.
Proof.
  destruct to; intros [= <-]; unfold_behavior; ok_run; try done.
  all: try apply retains_advance.
  all: constructor; cbn; auto with consensus.
Qed.

Lemma retains_refl m m' :
  liveness m' = liveness m -> votes m' = votes m -> proposals m' = proposals m ->
  confirmations m' = confirmations m -> retains m m'.
Proof. intros Hl Hv Hp Hc. constructor; rewrite ?Hl, ?Hv, ?Hp, ?Hc; apply keeps_refl. Qed.

Lemma retains_step s c c' : reachable s c -> step c c' -> retains (sm c) (sm c').
Proof.
  intros Hr Hs.
  destruct (guarantee_reachable (fun _ => True) retains ltac:(done) ltac:(done)) with s c c'
    as [->|[?|[?|[to ->]]]]; try done.
  - intros. by eapply retains_behavior.
  - by apply retains_refl.
  - by apply retains_environment.
  - by apply retains_refl.
Qed.

(** C10: a vote counted for another node at a rank is never replaced: in every later
    configuration of a run that does not finalise that rank, whatever messages arrive and
    whatever the behaviours do in between, it is still the vote counted, and a different
    vote of the same voter for that rank is rejected as conflicting. *)
Theorem counted_vote_stable s c c' (r : Z) (voter proposer : PeerIDT) (v vote : VoteT) :
  reachable s c -> Identity voter <> Identity id ->
  at_rank r (votes (sm c)) !! Identity voter = Some v ->
  rtc (fun a b => step a b /\ ~ finalises r (sm a) (sm b)) c c' ->
  at_rank r (votes (sm c')) !! Identity voter = Some v /\
  (Rank vote = r -> Identity vote <> Identity v ->
   ReceiveVote proposer voter vote (sm c') = Err "received conflicting vote").
Proof.
  intros Hr Hne Hv Hs.
  assert (at_rank r (votes (sm c')) !! Identity voter = Some v) as Hv'.
  { induction Hs as [|c c1 c2 [Hs Hf] _ IH]; [done|].
    apply IH; [by eapply rtc_r|].
    by destruct (retains_votes _ _ (retains_step _ _ _ Hr Hs) r (Identity voter) v). }
  split; [done|]. intros <- Hd. unfold ReceiveVote. rewrite Hv'. by rewrite decide_False.
Qed.

(** ** The active rank *)

Section rank.
Context (clone_rank : forall s : StateT, Rank (Clone s) = Rank s).
Context (finalize_rank : forall m ans ps vs s,
  allowed m ans -> aFinalize ans ps vs = Some s -> exists p x, ps !! p = Some x /\ Rank s = Rank x).
Context (sync_free : forall m ans, allowed m ans -> aSync ans = None \/ nextState m = None).

Definition nextFollows (m : machine) : Prop :=
  forall n, nextState m = Some n -> exists s, activeState m = Some s /\ Rank n = nextRank s.

Definition ranked (m : machine) : Prop := filed m /\ nextFollows m.

Definition advances (m m' : machine) : Prop :=
  activeState m' = activeState m \/
  (exists s s', activeState m = Some s /\ activeState m' = Some s' /\ Rank s' = nextRank s) \/
  machineState m = StateLoading \/ machineState m = StateStopped.

Lemma nextFollows_same m m' :
  activeState m' = activeState m -> nextState m' = nextState m -> nextFollows m -> nextFollows m'.
Proof. unfold nextFollows. by intros -> ->. Qed.

Lemma ranked_same m m' :
  activeState m' = activeState m -> nextState m' = nextState m -> filed m' -> ranked m -> ranked m'.
Proof. intros Ha Hn Hf [_ Hm]. split; [done|]. by eapply nextFollows_same. Qed.

Lemma ranked_environment m m' : environment m m' -> ranked m -> ranked m'.
Proof.
  intros He Hm. destruct (environment_unshared _ _ He) as [_ Ha Hn _ _ _].
  eapply ranked_same; eauto. eapply filed_environment, Hm. done.
Qed.

Lemma ranked_advance m : ranked m -> ranked (advance m).1 /\ advances m (advance m).1.
Proof.
  intros [Hf Hn]. pose proof (filed_advance m Hf) as Hf'. unfold advance in *.
  destruct (nextState m) as [n|] eqn:E; [|split; [split; [exact Hf|exact Hn]|by left]].
  destruct (Hn n E) as (s & Hs & Hr). split; [split; [exact Hf'|intros ?; done]|].
  right. left. exists s, n. done.
Qed.

(** The finalised state follows the active one. *)
Lemma finalize_follows ans s m0 m n :
  allowed m0 ans -> filed m -> activeState m = Some s ->
  aFinalize ans (Clone <$> at_rank (nextRank s) (proposals m)) (Clone <$> at_rank (nextRank s) (votes m))
    = Some n ->
  Rank (Clone n) = nextRank s.
Proof.
  intros Ha (_ & Hp & _) Hs Hn. destruct (finalize_rank _ _ _ _ _ Ha Hn) as (p & x & Hx & ->%(eq_trans (clone_rank _))).
  rewrite lookup_fmap in Hx. destruct (_ !! p) as [y|] eqn:Hy; [|done].
  injection Hx as <-. rewrite clone_rank. by eapply Hp.
Qed.

Lemma ranked_behavior ans to m k :
  allowed m ans -> ranked m -> behavior ans to (activeState m) = Some k ->
  ok ranked advances (enterState to m) k.
Proof.
  intros Ha Hm. destruct to; intros [= <-]; unfold_behavior; ok_run; try done; try (by left);
    try (by apply ranked_advance).
  - destruct (sync_free _ _ Ha) as [Hn|Hn]; [congruence|].
    split; [apply HI|]. intros n Hn'. cbn in Hn'. destruct Hu. cbn in *. congruence.
  - right. right. destruct Hu as [[]]; auto.
  - assert (c0 = c) as -> by (destruct Hu0, Hu1; cbn in *; congruence).
    apply (ranked_same m'1); [done..| |done]. destruct HI1 as [(Hl & Hp & Hc) _].
    repeat split; cbn; auto with consensus.
  - apply (ranked_same m'0); [done..| |done]. destruct HI0 as [(Hl & Hp & Hc) _].
    repeat split; cbn; auto with consensus.
  - split; [apply HI0|]. intros n [= <-]. exists s. destruct Hu0. split; [cbn in *; congruence|].
    eapply finalize_follows; [done|apply HI|done..].
Qed.

(** Outside of synchronisation the chain moves one rank at a time: in a reachable
    configuration whose machine is neither loading nor stopped, a step keeps the active
    state or replaces it by one of the next rank.  Assumed of the providers: a clone has
    the rank of the original, FinalizeVotes returns a state of the rank of one of the
    proposals it was given, and no synchronisation starts while a finalised state awaits
    its confirmation. *)
Theorem active_rank_advances s c c' :
  reachable s c -> step c c' ->
  machineState (sm c) <> StateLoading -> machineState (sm c) <> StateStopped ->
  activeState (sm c') = activeState (sm c) \/
  exists a b, activeState (sm c) = Some a /\ activeState (sm c') = Some b /\ Rank b = nextRank a.
Proof.
  intros Hr Hs Hl Hst.
  destruct (guarantee_reachable ranked advances ranked_environment) with s c c'
    as [->|[HG|[He|[to ->]]]]; try done.
  - apply ranked_behavior.
  - by left.
  - destruct HG as [?|[?|[]]]; auto; done.
  - left. apply environment_unshared in He. apply He.
  - by left.
Qed.
End rank.

(** ** The event loop does not stall *)












Section moving.
Context (answered : forall m, exists ans, allowed m ans) (s : option StateT) (n : Z).








End moving.


(** ** The lost mutex *)

(** The event loop waits for a mutex nobody releases. *)
Definition wedged (c : config) : Prop :=
  locked c = true /\ exists to k, loop c = Behaving to k /\ runBehavior to k c = None.

Lemma wedged_step c c' : wedged c -> step c c' -> wedged c' /\ sm c' = sm c.
Proof.
  intros (Hk & to & k & Hl & Hr) [Hs|Hs].
  - destruct Hs as [? | ? | c c' to' k' Hl' Hc | c e | ? | c]; try congruence; try done.
    all: split; [|done]; split; [done|]; exists to, k; split; [done|]; destruct k; cbn in *;
      try done; [by rewrite Hk..|by destruct (closed c)|by rewrite Hk].
  - destruct Hs as [c e|c|c|c]; try congruence.
    split; [|done]; split; [done|]; exists to, k; split; [done|]; destruct k; cbn in *;
      try done; [by rewrite Hk..|by destruct (closed c)|by rewrite Hk].
Qed.

Lemma wedged_steps c c' : wedged c -> rtc step c c' -> wedged c' /\ sm c' = sm c.
Proof.
  intros Hw Hs. induction Hs as [|c c1 c2 Hs _ IH]; [done|].
  destruct (wedged_step _ _ Hw Hs) as [Hw1 Heq]. destruct (IH Hw1) as [Hw2 ->]. done.
Qed.

(** C37: if Publishing is entered while this node has no proposal of the next rank, its
    behaviour returns without releasing the mutex: the machine then stays in Publishing
    for ever, and no timeout, event, message or Close changes it any more. *)
Theorem publishing_loses_mutex c s ans :
  loop c = Executing StatePublishing -> locked c = false -> allowed (sm c) ans ->
  activeState (sm c) = Some s ->
  at_rank (nextRank s) (proposals (sm c)) !! Identity id = None ->
  exists c', rtc internal c c' /\ machineState (sm c') = StatePublishing /\
    forall c'', rtc step c' c'' -> locked c'' = true /\ sm c'' = sm c'.
Proof.
  intros Hl Hk Ha Hs Hp.
  exists (mkConfig (enterState StatePublishing (sm c)) (Behaving StatePublishing Return) (pending c) None
            true (closed c) (calls c)).
  split; [|split; [done|]].
  - eapply rtc_l; [by apply step_execute|]. unfold ConsensusMachine.executeTransition.
    rewrite Hk. cbn -[publishing]. rewrite Hs.
    eapply rtc_l; [eapply step_behavior; [reflexivity|cbn; rewrite Hp; reflexivity]|].
    eapply rtc_l; [eapply step_behavior; [reflexivity|cbn; reflexivity]|]. done.
  - intros c'' Hc. apply wedged_steps in Hc as [[Hk' _] Heq]; [done|].
    split; [done|]. eexists _, _. split; reflexivity.
Qed.
End spec.
