(* ===== verification/ConsensusLiveness.v ===== *)
(** * A single node makes progress

    The event loop under first-in-first-out delivery of events: with providers that
    cooperate, a node that is its own quorum finalises rank after rank.  Concrete
    providers, for which the assumptions of the theorems on the state machine hold. *)

From S2P Require Import Prelude ConsensusMachine ConsensusSpec.

Section live.
Context {StateT VoteT PeerIDT CollectedT : Type}.
Context `{Unique StateT, Unique VoteT, Unique PeerIDT, Unique CollectedT}.

Abbreviation machine := (machine StateT VoteT PeerIDT CollectedT).
Abbreviation answers := (answers StateT VoteT PeerIDT CollectedT).
Abbreviation config := (config StateT VoteT PeerIDT CollectedT).

(** The answers of the providers as a function of the machine. *)
Context (id : PeerIDT) (provider : machine -> answers).

(** One step of the event loop: events are handled in the order they were sent, and the
    timer runs out only when there is none. *)
Definition tick (c : config) : config :=
  match loop c with
  | Behaving to k => match runBehavior to k c with Some c' => c' | None => c end
  | Executing to => executeTransition id true (provider (sm c)) to c
  | Waiting =>
    match pending c with
    | e :: rest => deliver e rest c
    | [] =>
      match timer c with
      | Some e => mkConfig (sm c) Waiting [e] None (locked c) (closed c) (calls c)
      | None => c
      end
    end
  | Exited => c
  end.

(** A tick of a machine that holds its mutex is a step of the event loop. *)
Lemma tick_internal c :
  locked c = false -> tick c = c \/ internal id true (fun m ans => ans = provider m) c (tick c).
Proof.
  intros Hk. unfold tick. destruct (loop c) as [|to|to k|] eqn:Hl; [| | |by left].
  - destruct (pending c) as [|e rest] eqn:Hp.
    + destruct (timer c) eqn:Ht; [|by left]. right.
      pose proof (step_timer id true (fun m ans => ans = provider m) c e Ht) as Hs.
      by rewrite Hl, Hp in Hs.
    + right. by apply (step_deliver id true _ c e [] rest).
  - right. by apply step_execute.
  - destruct (runBehavior to k c) eqn:Hr; [|by left]. right. by eapply step_behavior.
Qed.

(** Providers that do their part: synchronisation is up to date, this node leads, one
    prover is enough, everything sent arrives, the vote of this node is a quorum, and the
    collected data, the proposal and the finalised state have the ranks they should. *)
Record cooperative : Prop := {
  coop_sync m : nextState m = None -> exists f, aSync (provider m) = Some f /\ f (activeState m) = SyncState (activeState m);
  coop_leaders m : exists l, aLeaders (provider m) (activeState m) = Some l /\
    existsb (fun leader => bool_decide (Identity leader = Identity id)) l = true;
  coop_collect m s : activeState m = Some s ->
    exists c, aCollect (provider m) = Some c /\ Rank c = nextRank s;
  coop_announce m c : aSendLiveness (provider m) (activeState m) c = true;
  coop_minimum m : aMinimum1 (provider m) = 1 /\ aMinimum2 (provider m) = 1;
  coop_prove m s c : activeState m = Some s ->
    exists p, aProve (provider m) (Some s) c = Some p /\ Rank p = nextRank s;
  coop_propose m p : aSendProposal (provider m) p = true;
  coop_decide m ps : ps <> ∅ -> is_Some (aDecide (provider m) ps);
  coop_quorum m vs : is_Some (vs !! Identity id) -> aQuorum (provider m) vs = Some true;
  coop_finalize m ps vs : is_Some (ps !! Identity id) ->
    exists s p x, aFinalize (provider m) ps vs = Some s /\ ps !! p = Some x /\ Rank s = Rank x
}.

Context (coop : cooperative) (clone_rank : forall s : StateT, Rank (Clone s) = Rank s).

Abbreviation ticks := (rtc (fun a b => b = tick a)).

(** Between two transitions with no event under way. *)
Record entering (to : State) (s : StateT) (c : config) : Prop := {
  en_loop : loop c = Executing to;
  en_pending : pending c = [];
  en_locked : locked c = false;
  en_closed : closed c = false;
  en_active : activeState (sm c) = Some s;
  en_filed : filedUnder (proposals (sm c))
}.

Definition ownProposal (s : StateT) (c : config) : Prop :=
  is_Some (at_rank (nextRank s) (proposals (sm c)) !! Identity id).

Lemma deliver_accepted e rest (c : config) to :
  handleEvent (machineState (sm c)) e = Ok to ->
  deliver e rest c = mkConfig (sm c) (Executing to) rest (timer c) (locked c) (closed c) (calls c).
Proof. intros He. unfold deliver. by rewrite He. Qed.

Lemma deliver_rejected e rest (c : config) msg :
  handleEvent (machineState (sm c)) e = Err msg ->
  deliver e rest c = mkConfig (sm c) Waiting rest (timer c) (locked c) (closed c) (calls c).
Proof. intros He. unfold deliver. by rewrite He. Qed.

Ltac tick_one := eapply rtc_l; [reflexivity|];
  cbn [tick loop pending timer locked closed calls sm executeTransition runBehavior deliver app
       enterState activeState behavior setProvers setChosen setCollected setLiveness setVotes setProposals
       setNext machineState onTimeout collected chosenProposer nextProvers nextState fst snd];
  try (erewrite deliver_accepted by reflexivity); try (erewrite deliver_rejected by reflexivity).

Lemma live_collecting c s :
  entering StateCollecting s c ->
  exists c', ticks c c' /\ entering StateLivenessCheck s c' /\
    chosenProposer (sm c') = None /\ is_Some (collected (sm c')) /\ nextProvers (sm c') <> [] /\
    is_Some (at_rank (nextRank s) (liveness (sm c')) !! Identity id).
Proof.
  destruct c as [m l p t k cl ca]. intros [Hl Hp Hk Hcl Ha Hf]. cbn in *. subst.
  destruct (coop_collect coop m s Ha) as (x & Hx & Hr).
  destruct (coop_leaders coop m) as (ls & Hls & Hex).
  eexists. split.
  - tick_one. unfold collecting. rewrite Hx. tick_one. rewrite Hls. do 2 tick_one.
    rewrite coop_announce by done. cbn [negb]. do 6 tick_one. reflexivity.
  - split; [by split|]. cbn. split; [done|]. split; [done|]. split; [by destruct ls|].
    rewrite lookup_put, decide_True by done. done.
Qed.

Lemma live_liveness c s :
  entering StateLivenessCheck s c -> chosenProposer (sm c) = None -> is_Some (collected (sm c)) ->
  nextProvers (sm c) <> [] -> is_Some (at_rank (nextRank s) (liveness (sm c)) !! Identity id) ->
  exists c', ticks c c' /\ entering StateProving s c' /\
    chosenProposer (sm c') = None /\ is_Some (collected (sm c')).
Proof.
  destruct c as [m l p t k cl ca]. intros [Hl Hp Hk Hcl Ha Hf] Hch [x Hx] Hnp Hli. cbn in *. subst.
  destruct (coop_minimum coop m) as [Hm1 Hm2].
  assert (size (at_rank (nextRank s) (liveness m)) <> 0%nat) as Hsz.
  { rewrite map_size_ne_0_lookup. eauto. }
  eexists. split.
  - tick_one. unfold livenessCheck. tick_one. rewrite Hm1, Hm2.
    replace (_ <? i64 1) with false by (destruct (nextProvers m); [done|symmetry; apply Z.ltb_ge; change (i64 1) with 1; cbn [length]; lia]).
    tick_one. rewrite Hx. tick_one. rewrite Ha.
    replace (i64 1 <=? _) with true by (symmetry; apply Z.leb_le; change (i64 1) with 1; cbn [liveness enterState]; lia).
    do 3 tick_one. reflexivity.
  - split; [by split|]. cbn. rewrite Hx. done.
Qed.

Lemma live_proving c s :
  entering StateProving s c -> chosenProposer (sm c) = None -> is_Some (collected (sm c)) ->
  exists c', ticks c c' /\ entering StatePublishing s c' /\ chosenProposer (sm c') = None /\ ownProposal s c'.
Proof.
  destruct c as [m l p t k cl ca]. intros [Hl Hp Hk Hcl Ha Hf] Hch [x Hx]. cbn in *. subst.
  destruct (coop_prove coop m s x Ha) as (q & Hq & Hr).
  eexists. split.
  - tick_one. unfold proving. tick_one. rewrite Hx, Ha, Hq. do 4 tick_one. reflexivity.
  - split; [split; cbn; auto with consensus|]. split; [done|]. unfold ownProposal. cbn.
    rewrite lookup_put, decide_True by done. done.
Qed.

Lemma live_publishing c s :
  entering StatePublishing s c -> chosenProposer (sm c) = None -> ownProposal s c ->
  exists c', ticks c c' /\ entering StateVoting s c' /\ chosenProposer (sm c') = None /\ ownProposal s c'.
Proof.
  destruct c as [m l p t k cl ca]. intros [Hl Hp Hk Hcl Ha Hf] Hch [q Hq]. cbn in *. subst.
  eexists. split.
  - tick_one. unfold publishing. rewrite Ha. tick_one. cbn [proposals enterState]. rewrite Hq.
    tick_one. rewrite coop_propose by done. do 3 tick_one. reflexivity.
  - split; [by split|]. split; [done|]. unfold ownProposal. cbn. rewrite Hq. done.
Qed.

(** This node has voted. *)
Definition voted (s : StateT) (c : config) : Prop :=
  is_Some (chosenProposer (sm c)) /\ is_Some (at_rank (nextRank s) (votes (sm c)) !! Identity id).

Lemma size_pos {A} (m : gmap string A) p : is_Some (m !! p) -> (size m <> 0)%nat.
Proof. intros Hp. rewrite map_size_ne_0_lookup. eauto. Qed.

Lemma live_voting c s :
  entering StateVoting s c -> chosenProposer (sm c) = None -> ownProposal s c ->
  exists c', ticks c c' /\ entering StateVoting s c' /\ voted s c' /\ ownProposal s c'.
Proof.
  destruct c as [m l p t k cl ca]. intros [Hl Hp Hk Hcl Ha Hf] Hch Hq. cbn in *. subst.
  destruct (coop_minimum coop m) as [Hm1 _]. pose proof (size_pos _ _ Hq) as Hsz.
  destruct (coop_decide coop m (Clone <$> at_rank (nextRank s) (proposals m))) as [[peer v] Hv].
  { destruct Hq as [q Hq]. intros Hn. apply (f_equal (lookup (Identity id))) in Hn. cbn in Hq.
    by rewrite lookup_fmap, Hq in Hn. }
  eexists. split.
  - tick_one. unfold voting. tick_one. rewrite Ha, Hch, Hm1. cbn [proposals enterState].
    replace (_ <? i64 1) with false by (symmetry; apply Z.ltb_ge; change (i64 1) with 1; cbn in *; lia).
    tick_one. rewrite Hv. do 2 tick_one. rewrite Ha. do 3 tick_one. reflexivity.
  - split; [by split|]. split; [split; [done|]|done]. cbn. rewrite lookup_put, decide_True by done. done.
Qed.

Lemma live_quorum c s :
  entering StateVoting s c -> voted s c -> ownProposal s c ->
  exists c', ticks c c' /\ entering StateFinalizing s c' /\ ownProposal s c'.
Proof.
  destruct c as [m l p t k cl ca]. intros [Hl Hp Hk Hcl Ha Hf] [[peer Hch] [v Hv]] Hq. cbn in *. subst.
  destruct (coop_minimum coop m) as [Hm1 _]. pose proof (size_pos _ _ Hq) as Hsz.
  eexists. split.
  - tick_one. unfold voting. tick_one. rewrite Ha, Hch, Hm1. cbn [proposals votes enterState].
    replace (i64 1 <=? _) with true by (symmetry; apply Z.leb_le; change (i64 1) with 1; cbn in *; lia).
    rewrite (coop_quorum coop) by (by rewrite lookup_fmap, Hv). cbn [andb].
    do 4 tick_one. reflexivity.
  - split; [by split|done].
Qed.

Lemma live_finalizing c s :
  entering StateFinalizing s c -> ownProposal s c ->
  exists c' n, ticks c c' /\ entering StateVerifying s c' /\ nextState (sm c') = Some n /\ Rank n = nextRank s.
Proof.
  destruct c as [m l p t k cl ca]. intros [Hl Hp Hk Hcl Ha Hf] [q Hq]. cbn in *. subst.
  destruct (coop_finalize coop m (Clone <$> at_rank (nextRank s) (proposals m))
              (Clone <$> at_rank (nextRank s) (votes m))) as (n & i & x & Hn & Hx & Hr).
  { by rewrite lookup_fmap, Hq. }
  eexists _, _. split.
  - tick_one. unfold finalizing. tick_one. rewrite Ha. cbn [proposals votes enterState]. rewrite Hn.
    do 5 tick_one. reflexivity.
  - split; [by split|]. split; [done|]. rewrite clone_rank, Hr.
    rewrite lookup_fmap in Hx. destruct (_ !! i) as [y|] eqn:Hy; [|done].
    injection Hx as <-. rewrite clone_rank. by eapply Hf.
Qed.

Lemma live_verifying c s n :
  entering StateVerifying s c -> nextState (sm c) = Some n ->
  exists c', ticks c c' /\ entering StateCollecting n c'.
Proof.
  destruct c as [m l p t k cl ca]. intros [Hl Hp Hk Hcl Ha Hf] Hn. cbn in *. subst.
  destruct (at_rank (nextRank s) (confirmations m) !! Identity id) eqn:Hc.
  - eexists. split.
    + tick_one. unfold verifying. tick_one. rewrite Ha. cbn [confirmations enterState]. rewrite Hc.
      unfold advance. cbn [nextState enterState]. rewrite Hn. do 3 tick_one. reflexivity.
    + split; cbn; auto with consensus.
  - eexists. split.
    + tick_one. unfold verifying. tick_one. rewrite Ha. cbn [confirmations nextState enterState].
      rewrite Hc, Hn. do 2 tick_one. unfold advance. cbn [nextState enterState]. rewrite Hn.
      do 3 tick_one. reflexivity.
    + split; cbn; auto with consensus.
Qed.

(** One round. *)
Lemma live_round c s :
  entering StateCollecting s c ->
  exists c' n, ticks c c' /\ entering StateCollecting n c' /\ Rank n = nextRank s.
Proof.
  intros Hc.
  destruct (live_collecting c s) as (c1 & Ht1 & Hc1 & ? & ? & ? & ?); [done|].
  destruct (live_liveness c1 s) as (c2 & Ht2 & Hc2 & ? & ?); [done..|].
  destruct (live_proving c2 s) as (c3 & Ht3 & Hc3 & ? & ?); [done..|].
  destruct (live_publishing c3 s) as (c4 & Ht4 & Hc4 & ? & ?); [done..|].
  destruct (live_voting c4 s) as (c5 & Ht5 & Hc5 & ? & ?); [done..|].
  destruct (live_quorum c5 s) as (c6 & Ht6 & Hc6 & ?); [done..|].
  destruct (live_finalizing c6 s) as (c7 & n & Ht7 & Hc7 & ? & ?); [done..|].
  destruct (live_verifying c7 s n) as (c8 & Ht8 & Hc8); [done..|].
  exists c8, n. split; [|done]. by do 7 (etrans; [eassumption|]).
Qed.

(** The start of the machine up to its first round. *)
Lemma live_start s :
  exists c', ticks (sendEvent EventStart (initial (Some s))) c' /\ entering StateCollecting s c'.
Proof.
  unfold initial, sendEvent. cbn [sm loop pending timer locked closed calls app].
  set (m0 := mkMachine _ _ _ _ _ _ _ _ _ _ _).
  destruct (coop_sync coop (enterState StateStarting m0) eq_refl) as (f & Hf & Hs).
  destruct (coop_leaders coop (enterState StateStarting m0)) as (ls & Hls & Hex).
  cbn in Hs, Hls. eexists. split.
  - do 5 tick_one. unfold loading. rewrite Hf. cbn [activeState enterState m0]. rewrite Hs. tick_one. rewrite Hls, Hex. do 3 tick_one. reflexivity.
  - split; cbn; auto with consensus.
Qed.

(** C12: a node that is its own quorum makes progress: started on a state of rank [r],
    with cooperating providers and events handled in the order they are sent, the machine
    makes states of ranks [r + 1], [r + 2], ... active; after some number of steps that
    of rank [r + n]. *)
Theorem single_node_finalises s n :
  is_u 64 (Rank s) -> Rank s + Z.of_nat n < 2 ^ 64 ->
  exists k s', activeState (sm (Nat.iter k tick (sendEvent EventStart (initial (Some s))))) = Some s' /\
    Rank s' = Rank s + Z.of_nat n.
Proof.
  intros Hs Hn.
  assert (exists c s', ticks (sendEvent EventStart (initial (Some s))) c /\ entering StateCollecting s' c /\
            Rank s' = Rank s + Z.of_nat n) as (c & s' & Hc & Ha & Hr).
  { induction n as [|n IH]; [destruct (live_start s) as (c & ? & ?); exists c, s; rewrite Z.add_0_r; done|].
    destruct IH as (c & s' & Hc & Ha & Hr); [lia|].
    destruct (live_round c s' Ha) as (c' & s'' & Hc' & Ha' & Hr').
    exists c', s''. split; [by etrans|]. split; [done|]. rewrite Hr'. unfold nextRank. rewrite Hr.
    unfold u64. rewrite uwrap_small; unfold is_u in *; lia. }
  apply rtc_nsteps in Hc as [k Hk]. exists k, s'. split; [|done]. rewrite <- (en_active _ _ _ Ha). do 2 f_equal.
  clear -Hk. revert Hk. generalize (sendEvent EventStart (initial (Some s)) : config).
  induction k as [|k IH]; intros c0 Hk; inversion Hk; subst; [done|].
  rewrite Nat.iter_succ_r. by apply IH.
Qed.
End live.

(** ** Concrete providers *)

Module Demo.

(** States and collected data are their ranks, a vote is a rank and the chosen peer,
    peers are names. *)
#[local] Instance number_unique : Unique Z := {| Identity _ := "number"; Clone z := z; Rank z := z |}.
#[local] Instance vote_unique : Unique (Z * string) := {| Identity := snd; Clone v := v; Rank := fst |}.
#[local] Instance peer_unique : Unique string := {| Identity p := p; Clone p := p; Rank _ := 0 |}.

Abbreviation machine := (machine Z (Z * string) string Z).
Abbreviation answers := (answers Z (Z * string) string Z).
Abbreviation config := (config Z (Z * string) string Z).

Definition next (s : option Z) : Z := match s with Some s => nextRank s | None => 0 end.

(** The providers of a node "me" that is alone; [prove] is its ProveNextState. *)
Definition alone (prove : option Z -> Z -> option Z) (m : machine) : answers :=
  {| aSync := match nextState m with None => Some SyncState | Some _ => None end;
     aLeaders _ := Some ["me"];
     aCollect := Some (next (activeState m));
     aSendLiveness _ _ := true;
     aMinimum1 := 1;
     aMinimum2 := 1;
     aProve := prove;
     aSendProposal _ := true;
     aDecide ps := match map_to_list ps with (p, s) :: _ => Some (p, (s, p)) | [] => None end;
     aQuorum vs := Some (bool_decide (is_Some (vs !! "me")));
     aFinalize ps _ := match ps !! "me" with Some s => Some s | None => None end;
     aConfirm _ := true |}.

Definition good (m : machine) : answers := alone (fun s _ => Some (next s)) m.

(** A prover that proves a state two ranks ahead. *)
Definition ahead (m : machine) : answers := alone (fun s _ => Some (next (Some (next s)))) m.

Definition run (provider : machine -> answers) (k : nat) : config :=
  Nat.iter k (tick "me" provider) (sendEvent EventStart (initial (Some 5))).

Definition allowed (provider : machine -> answers) (m : machine) (ans : answers) : Prop := ans = provider m.

Lemma run_step provider k :
  locked (run provider k) = false ->
  run provider (S k) = run provider k \/
  step "me" true (allowed provider) (run provider k) (run provider (S k)).
Proof.
  intros Hk. unfold run. rewrite Nat.iter_succ. fold (run provider k).
  destruct (tick_internal "me" provider (run provider k) Hk) as [?|?]; [by left|by right; left].
Qed.

Lemma run_reachable provider k :
  forallb (fun j => negb (locked (run provider j))) (seq 0 k) = true ->
  reachable "me" true (allowed provider) (Some 5) (run provider k).
Proof.
  intros Hk. induction k as [|k IH]; [apply rtc_once; right; constructor|].
  rewrite seq_S, forallb_app in Hk. apply andb_true_iff in Hk as [Hk1 Hk2]. cbn in Hk2.
  rewrite andb_true_r in Hk2. apply negb_true_iff in Hk2.
  destruct (run_step provider k Hk2) as [->|Hs]; [by apply IH|].
  eapply rtc_r; [by apply IH|done].
Qed.

Lemma number_clone (s : Z) : Rank (Clone s) = Rank s.
Proof. done. Qed.

Lemma good_cooperative : cooperative "me" good.
Proof.
  split; cbn; try done.
  - intros m ->. by eexists.
  - intros m. by eexists.
  - intros m s ->. by eexists.
  - intros m s c _. by eexists.
  - intros m ps Hps. destruct (map_to_list ps) as [|[p s] l] eqn:E; [|done].
    by apply map_to_list_empty_iff in E.
  - intros m vs Hvs. f_equal. by apply bool_decide_true.
  - intros m ps vs [s Hs]. rewrite Hs. by exists s, "me", s.
Qed.

Lemma single_node_finalises_witness :
  exists k s', activeState (sm (run good k)) = Some s' /\ s' = 105.
Proof.
  apply (single_node_finalises "me" good good_cooperative number_clone 5 100); by vm_compute.
Defined.

(** The step that makes the state of rank 6 active. *)
Lemma active_rank_advances_witness :
  activeState (sm (run good 63)) = activeState (sm (run good 62)) \/
  exists a b, activeState (sm (run good 62)) = Some a /\ activeState (sm (run good 63)) = Some b /\
    Rank b = nextRank a.
Proof.
  apply (active_rank_advances "me" true (allowed good) number_clone) with (Some 5).
  - intros m ans ps vs s -> Hs. cbn in Hs. destruct (ps !! "me") as [x|] eqn:E; [|done].
    injection Hs as ->. by exists "me", s.
  - intros m ans ->. cbn. destruct (nextState m); auto.
  - apply run_reachable. by vm_compute.
  - destruct (run_step good 62) as [Heq|Hs]; [by vm_compute| |exact Hs].
    apply (f_equal (fun c => activeState (sm c))) in Heq. by vm_compute in Heq.
  - by vm_compute.
  - by vm_compute.
Defined.


(** A proposal two ranks ahead leads into Publishing without a proposal of the next one. *)
Lemma publishing_loses_mutex_witness :
  exists c', rtc (internal "me" true (allowed ahead)) (run ahead 32) c' /\
    machineState (sm c') = StatePublishing /\
    forall c'', rtc (step "me" true (allowed ahead)) c' c'' -> locked c'' = true /\ sm c'' = sm c'.
Proof.
  apply (publishing_loses_mutex "me" true (allowed ahead) (run ahead 32) 5 (ahead (sm (run ahead 32)))).
  - by vm_compute.
  - by vm_compute.
  - exact eq_refl.
  - by vm_compute.
  - by vm_compute.
Defined.

(** The machine has counted the vote of "peer" for rank 6. *)
Definition counted : config :=
  let c := run good 45 in
  mkConfig (setVotes (put 6 "peer" (6, "me") (votes (sm c))) (sm c)) (loop c)
    (pending c ++ [EventVoteReceived]) (timer c) (locked c) (closed c) (calls c).

Lemma counted_vote_stable_witness :
  ReceiveVote "me" "peer" (6, "other") (sm (sendEvent EventStop counted)) = Err "received conflicting vote".
Proof.
  apply (counted_vote_stable "me" true (allowed good) (Some 5) counted (sendEvent EventStop counted) 6
           "peer" "me" (6, "me") (6, "other")).
  - eapply rtc_r; [apply (run_reachable good 45); by vm_compute|]. right.
    apply (step_receive (run good 45) (MsgVote "me" "peer" (6, "me"))); [by vm_compute|].
    unfold receive, ReceiveVote. replace (_ !! _) with (@None (Z * string)) by by vm_compute. done.
  - done.
  - by vm_compute.
  - apply rtc_once. split; [right; constructor|]. intros (s & Hs & _). by vm_compute in Hs.
  - done.
  - done.
Defined.

Lemma entries_filed_witness : filed (sm (run good 45)).
Proof.
  apply (entries_filed "me" true (allowed good) (Some 5)). apply run_reachable. by vm_compute.
Defined.

End Demo.
