(* ===== verification/Critbit.v ===== *)
(** * Crit-bit trees (types/tries/critbit_trie.go)

    Tree: every operation, on keys of any length.  An internal node tests one bit of the
    key ([Other] has all bits but that one), or, with [Other] = 0xff, whether the key is
    longer than [Pos].  Pointers are replaced by rebuilding the path to the node that
    changes; nodes are not shared. *)

From S2P Require Import Prelude.

Record Value := mkValue {
  ValueKey : bytes;
  EarliestFrame : Z;
  LatestFrame : Z;
  Count : Z
}.

Inductive Node :=
| ENode (Key : bytes) (value : Value)
| INode (child0 child1 : Node) (Pos : Z) (Other : Z).

Record Tree := mkTree {
  Root : option Node;
  Size : Z
}.

Definition New : Tree := mkTree None 0.

Definition Len (t : Tree) : Z := Size t.

(** [(1 + int(other|c)) >> 8] *)
Definition sideOf (other c : Z) : Z := Z.shiftr (1 + Z.lor other c) 8.

Definition direction (k : bytes) (pos : Z) (other : Z) : Z :=
  match (if pos <? 0 then None else k !! Z.to_nat pos) with
  | Some b => sideOf other (byte_Z b)
  | None => if other =? 255 then 0 else sideOf other 0
  end.

Definition childAt (c0 c1 : Node) (di : Z) : Node := if di =? 0 then c0 else c1.

(** The leaf a search for [k] ends at, and the node WalkPrefix starts at. *)
Fixpoint lookupNode (k : bytes) (top : option Node) (p : Node) : (bytes * Value) * option Node :=
  match p with
  | ENode key v => ((key, v), top)
  | INode c0 c1 pos other =>
    let top := match top with
               | None => Some p
               | Some _ => if pos <? Z.of_nat (length k) then Some p else top
               end in
    if direction k pos other =? 0 then lookupNode k top c0 else lookupNode k top c1
  end.

Definition lookup (t : Tree) (k : bytes) : option ((bytes * Value) * option Node) :=
  lookupNode k None <$> Root t.

Definition Get (t : Tree) (k : bytes) : option Value :=
  match lookup t k with
  | Some ((key, v), _) => if decide (k = key) then Some v else None
  | None => None
  end.

(** The loop of findFirstDiffByte on the rest of [k], with the rest of the key of [n]. *)
Fixpoint firstDiff (k nKey : bytes) (pos : Z) : option (Z * Z) :=
  match k with
  | [] => None
  | b :: k' =>
    let byt := match nKey with [] => 0 | x :: _ => byte_Z x end in
    if negb (byt =? byte_Z b) then Some (pos, Z.lxor byt (byte_Z b))
    else firstDiff k' (tail nKey) (pos + 1)
  end.

Definition findFirstDiffByte (k nKey : bytes) : Z * Z * bool :=
  match firstDiff k nKey 0 with
  | Some (pos, other) => (pos, other, false)
  | None =>
    let pos := Z.of_nat (length k) in
    match nKey !! length k with
    | Some b => (pos, byte_Z b, false)
    | None => if decide (length k = length nKey) then (0, 0, true) else (pos - 1, 0, false)
    end
  end.

(** The bit test for a difference of bytes: all bits but the highest one that differs. *)
Definition critBit (other : Z) : Z :=
  let other := Z.lor other (Z.shiftr other 1) in
  let other := Z.lor other (Z.shiftr other 2) in
  let other := Z.lor other (Z.shiftr other 4) in
  255 - Z.ldiff other (Z.shiftr other 1).

(** findInsertPos and the assignment through the pointer it returns; [di] is the side of
    what is there. *)
Fixpoint insertNode (k : bytes) (pos other : Z) (leaf : Node) (di : Z) (n : Node) : Node :=
  let newn := if di =? 0 then INode n leaf pos other else INode leaf n pos other in
  match n with
  | ENode _ _ => newn
  | INode c0 c1 npos nother =>
    if pos <? npos then newn
    else if (npos =? pos) && (other <? nother) then newn
    else if direction k npos nother =? 0
         then INode (insertNode k pos other leaf di c0) c1 npos nother
         else INode c0 (insertNode k pos other leaf di c1) npos nother
  end.

(** Assignment to the value of the leaf a search for [k] ends at. *)
Fixpoint setValue (k : bytes) (v : Value) (n : Node) : Node :=
  match n with
  | ENode key _ => ENode key v
  | INode c0 c1 pos other =>
    if direction k pos other =? 0 then INode (setValue k v c0) c1 pos other
    else INode c0 (setValue k v c1) pos other
  end.

(** Insert returns the previous value; its second result is always true. *)
Definition Insert (k : bytes) (v : Value) (t : Tree) : option Value * Tree :=
  match Root t, lookup t k with
  | Some root, Some ((key, orig), _) =>
    let '(pos, other, match_) := findFirstDiffByte k key in
    if match_ : bool then (Some orig, mkTree (Some (setValue k v root)) (Size t))
    else
      let other := critBit other in
      let di := direction key pos other in
      (None, mkTree (Some (insertNode k pos other (ENode k v) di root)) (Size t + 1))
  | _, _ => (None, mkTree (Some (ENode k v)) (Size t + 1))
  end.

(** findDeletePos and the removal: the value and what is left of the subtree. *)
Fixpoint deleteNode (k : bytes) (n : Node) : option (Value * option Node) :=
  match n with
  | ENode key v => if decide (k = key) then Some (v, None) else None
  | INode c0 c1 pos other =>
    if direction k pos other =? 0 then
      match deleteNode k c0 with
      | None => None
      | Some (v, None) => Some (v, Some c1)
      | Some (v, Some c0') => Some (v, Some (INode c0' c1 pos other))
      end
    else
      match deleteNode k c1 with
      | None => None
      | Some (v, None) => Some (v, Some c0)
      | Some (v, Some c1') => Some (v, Some (INode c0 c1' pos other))
      end
  end.

Definition Delete (k : bytes) (t : Tree) : option Value * Tree :=
  match Root t with
  | None => (None, t)
  | Some root =>
    match deleteNode k root with
    | None => (None, t)
    | Some (v, root') => (Some v, mkTree root' (Size t - 1))
    end
  end.

Definition Clear (t : Tree) : bool * Tree :=
  match Root t with
  | Some _ => (true, mkTree None 0)
  | None => (false, t)
  end.

Fixpoint minNode (p : Node) : bytes * Value :=
  match p with ENode k v => (k, v) | INode c0 _ _ _ => minNode c0 end.

Fixpoint maxNode (p : Node) : bytes * Value :=
  match p with ENode k v => (k, v) | INode _ c1 _ _ => maxNode c1 end.

Definition Minimum (t : Tree) : option (bytes * Value) := minNode <$> Root t.
Definition Maximum (t : Tree) : option (bytes * Value) := maxNode <$> Root t.

Definition HasPrefix (s prefix : bytes) : bool := bool_decide (take (length prefix) s = prefix).

Fixpoint longestPrefix (p : Node) (prefix : bytes) : option (bytes * Value) :=
  match p with
  | ENode k v => if HasPrefix prefix k then Some (k, v) else None
  | INode c0 c1 pos other =>
    let c := match (if pos <? 0 then None else prefix !! Z.to_nat pos) with
             | Some b => byte_Z b
             | None => 0
             end in
    let di := sideOf other c in
    if di =? 0 then longestPrefix c0 prefix
    else
      match longestPrefix c1 prefix with
      | Some r => Some r
      | None => longestPrefix c0 prefix
      end
  end.

Definition LongestPrefix (t : Tree) (prefix : bytes) : option (bytes * Value) :=
  Root t ≫= fun p => longestPrefix p prefix.

Section walk.
Context {S : Type}.

(** A WalkFn with the state it captures. *)
Abbreviation WalkFn := (bytes -> Value -> S -> bool * S).

Fixpoint walk (p : Node) (fn : WalkFn) (s : S) : bool * S :=
  match p with
  | ENode k v => fn k v s
  | INode c0 c1 _ _ =>
    let '(stop, s) := walk c0 fn s in
    if stop : bool then (true, s) else walk c1 fn s
  end.

Definition Walk (t : Tree) (fn : WalkFn) (s : S) : S :=
  match Root t with
  | None => s
  | Some p => (walk p fn s).2
  end.

(** [top] is a nil pointer to an internal node if the root is a leaf; walk compares the
    interface that holds it with nil, which it is not, and dereferences it. *)
Definition WalkPrefix (t : Tree) (prefix : bytes) (fn : WalkFn) (s : S) : result S :=
  match lookup t prefix with
  | None => Ok s
  | Some ((key, _), top) =>
    if negb (HasPrefix key prefix) then Ok s
    else
      match top with
      | None => Panic
      | Some p => Ok (walk p (fun k v s => if HasPrefix k prefix then fn k v s else (false, s)) s).2
      end
  end.

Fixpoint walkPath (p : Node) (path : bytes) (fn : WalkFn) (s : S) : bool * S :=
  match p with
  | ENode k v => if HasPrefix path k then fn k v s else (false, s)
  | INode c0 c1 pos other =>
    if direction path pos other =? 0 then walkPath c0 path fn s
    else
      let '(stop, s) := walkPath c0 path fn s in
      if stop : bool then (true, s) else walkPath c1 path fn s
  end.

Definition WalkPath (t : Tree) (path : bytes) (fn : WalkFn) (s : S) : S :=
  match Root t with
  | None => s
  | Some p => (walkPath p path fn s).2
  end.
End walk.
