(* ===== verification/CritbitSpec.v ===== *)
(** * Crit-bit trees implement sorted maps

    On keys none of which is another one followed by zero bytes (keys of one length, for
    instance) a crit-bit tree is a map: Insert, Delete and Get behave as on the map, Walk
    visits the entries in the order of their keys, LongestPrefix finds the longest prefix.
    Without that condition keys get lost. *)

From stdpp Require Import sorting.
From S2P Require Import Prelude Critbit.

(** ** Tests of bytes *)

(** The values of [Other] that test a bit, from the highest bit to the lowest. *)
Definition bitOthers : list Z := [127; 191; 223; 239; 247; 251; 253; 254].

Definition isOther (o : Z) : Prop := o ∈ bitOthers \/ o = 255.

(** What critBit finds for two different bytes: a bit that tells them apart, with the
    higher bits equal, so that it orders them. *)
Definition bytesOk (a b : Z) : bool :=
  (a =? b) ||
  (let o := critBit (Z.lxor a b) in
   existsb (Z.eqb o) bitOthers
   && negb (sideOf o a =? sideOf o b)
   && forallb (fun o' => (o <=? o') || (sideOf o' a =? sideOf o' b)) bitOthers
   && Bool.eqb (sideOf o a <? sideOf o b) (a <? b)).

Lemma bytesOk_all : forallb (fun a => forallb (bytesOk a) (seqZ 0 256)) (seqZ 0 256) = true.
Proof. vm_compute. reflexivity. Qed.

Lemma bytesOk_byte a b : 0 <= a < 256 -> 0 <= b < 256 -> bytesOk a b = true.
Proof.
  intros Ha Hb. pose proof bytesOk_all as H. rewrite forallb_forall in H.
  specialize (H a). rewrite forallb_forall in H. apply H; apply list_elem_of_In, elem_of_seqZ; lia.
Qed.

Definition sideOk (o c : Z) : bool :=
  ((sideOf o c =? 0) || (sideOf o c =? 1)) && (sideOf 255 c =? 1) && ((o =? 255) || (sideOf o 0 =? 0)).

Lemma sideOk_all : forallb (fun o => forallb (sideOk o) (seqZ 0 256)) (255 :: bitOthers) = true.
Proof. vm_compute. reflexivity. Qed.

Lemma sideOk_byte o c : isOther o -> 0 <= c < 256 -> sideOk o c = true.
Proof.
  intros Ho Hc. pose proof sideOk_all as H. rewrite forallb_forall in H.
  specialize (H o). rewrite forallb_forall in H. apply H; apply list_elem_of_In.
  - apply elem_of_cons. destruct Ho; auto.
  - apply elem_of_seqZ. lia.
Qed.

Lemma sideOf_range o c : isOther o -> 0 <= c < 256 -> sideOf o c = 0 \/ sideOf o c = 1.
Proof. intros Ho Hc. pose proof (sideOk_byte o c Ho Hc) as H. unfold sideOk in H. lia. Qed.

Lemma sideOf_full c : 0 <= c < 256 -> sideOf 255 c = 1.
Proof. intros Hc. pose proof (sideOk_byte 255 c (or_intror eq_refl) Hc) as H. unfold sideOk in H. lia. Qed.

Lemma bitOthers_lt o : o ∈ bitOthers -> o < 255.
Proof.
  intros Ho. pose proof (proj1 (Forall_forall (fun o => o < 255) bitOthers)) as H. apply H; [|done].
  repeat constructor; lia.
Qed.

Lemma sideOf_zero o : o ∈ bitOthers -> sideOf o 0 = 0.
Proof.
  intros Ho. pose proof (sideOk_byte o 0 (or_introl Ho) ltac:(lia)) as H. unfold sideOk in H.
  pose proof (bitOthers_lt o Ho). lia.
Qed.

(** The test found for two bytes. *)
Lemma critBit_spec a b :
  0 <= a < 256 -> 0 <= b < 256 -> a <> b ->
  let o := critBit (Z.lxor a b) in
  o ∈ bitOthers /\ sideOf o a <> sideOf o b /\
  (forall o', o' ∈ bitOthers -> o' < o -> sideOf o' a = sideOf o' b).
Proof.
  intros Ha Hb Hne o. pose proof (bytesOk_byte a b Ha Hb) as H. unfold bytesOk in H.
  apply orb_true_iff in H as [H|H]; [lia|]. fold o in H.
  rewrite !andb_true_iff, existsb_exists, forallb_forall in H. destruct H as [[[(o1 & Ho1 & He) Hd] Hf] _].
  apply Z.eqb_eq in He as ->. split; [by apply list_elem_of_In|]. split; [lia|].
  intros o' Ho' Hlt. apply list_elem_of_In in Ho'. specialize (Hf o' Ho'). cbn in Hf. lia.
Qed.

(** A bit that tells two bytes apart, with the higher bits equal, orders them. *)
Lemma side_order a b o :
  0 <= a < 256 -> 0 <= b < 256 -> o ∈ bitOthers ->
  (forall o', o' ∈ bitOthers -> o' < o -> sideOf o' a = sideOf o' b) ->
  sideOf o a = 0 -> sideOf o b = 1 -> a < b.
Proof.
  intros Ha Hb Ho Hlt Ha0 Hb1. assert (a <> b) as Hne by congruence.
  destruct (critBit_spec a b Ha Hb Hne) as (Hc & Hd & Hf). set (c := critBit (Z.lxor a b)) in *.
  assert (c = o) as Hco.
  { destruct (Z.lt_trichotomy c o) as [?|[?|?]]; [|done|].
    - by specialize (Hlt c Hc ltac:(done)).
    - specialize (Hf o Ho ltac:(done)). congruence. }
  pose proof (bytesOk_byte a b Ha Hb) as H. unfold bytesOk in H. fold c in H.
  rewrite Hco, Ha0, Hb1 in H. rewrite orb_true_iff, !andb_true_iff in H.
  destruct H as [H|[_ H]]; [lia|]. apply eqb_prop in H. cbn in H. lia.
Qed.

(** ** Keys *)

(** The byte at a position, zero behind the end. *)
Definition vbyte (k : bytes) (p : Z) : Z :=
  match k !! Z.to_nat p with Some b => byte_Z b | None => 0 end.

Lemma vbyte_range k p : 0 <= vbyte k p < 256.
Proof. unfold vbyte. case_match; [apply byte_Z_range|lia]. Qed.

Lemma vbyte_end k p : Z.of_nat (length k) <= p -> vbyte k p = 0.
Proof. intros Hp. unfold vbyte. rewrite lookup_ge_None_2; [done|lia]. Qed.

Lemma direction_bit k p o : 0 <= p -> o ∈ bitOthers -> direction k p o = sideOf o (vbyte k p).
Proof.
  intros Hp Ho. unfold direction, vbyte. replace (p <? 0) with false by lia.
  case_match; [done|]. pose proof (bitOthers_lt o Ho). by replace (o =? 255) with false by lia.
Qed.

Lemma direction_len k p : 0 <= p -> direction k p 255 = if p <? Z.of_nat (length k) then 1 else 0.
Proof.
  intros Hp. unfold direction. replace (p <? 0) with false by lia.
  destruct (k !! Z.to_nat p) eqn:E.
  - apply lookup_lt_Some in E. rewrite sideOf_full by apply byte_Z_range.
    by replace (p <? _) with true by lia.
  - apply lookup_ge_None_1 in E. by replace (p <? _) with false by lia.
Qed.

Lemma direction_range k p o : 0 <= p -> isOther o -> direction k p o = 0 \/ direction k p o = 1.
Proof.
  intros Hp [Ho| ->].
  - rewrite direction_bit by done. apply sideOf_range; [by left|apply vbyte_range].
  - rewrite direction_len by done. case_match; auto.
Qed.

(** [b] is [a] followed by one or more zero bytes. *)
Definition zeroExt (a b : bytes) : Prop :=
  (length a < length b)%nat /\ forall p, 0 <= p -> vbyte a p = vbyte b p.

Lemma vbyte_ext a b :
  length a = length b -> (forall p, 0 <= p -> vbyte a p = vbyte b p) -> a = b.
Proof.
  intros Hl Hv. apply list_eq_same_length with (length b); [done..|].
  intros i x y Hi Hx Hy. specialize (Hv (Z.of_nat i) ltac:(lia)). unfold vbyte in Hv.
  rewrite Nat2Z.id, Hx, Hy in Hv. by rewrite <- (Z_byte_of x), Hv, Z_byte_of.
Qed.

(** The order of tests: by position, then from the highest bit to the test of length. *)
Definition before (p o p' o' : Z) : Prop := p < p' \/ (p = p' /\ o < o').

(** Two keys with the same bits before a test. *)
Definition agree (p o : Z) (a b : bytes) : Prop :=
  forall p' o', 0 <= p' -> o' ∈ bitOthers -> before p' o' p o -> direction a p' o' = direction b p' o'.

Lemma agree_bytes p o a b q : agree p o a b -> 0 <= q < p -> vbyte a q = vbyte b q.
Proof.
  intros Hag Hq. destruct (decide (vbyte a q = vbyte b q)) as [|Hne]; [done|].
  destruct (critBit_spec _ _ (vbyte_range a q) (vbyte_range b q) Hne) as (Ho & Hd & _).
  specialize (Hag q _ ltac:(lia) Ho ltac:(left; lia)). rewrite !direction_bit in Hag by (done || lia). done.
Qed.

Lemma agree_mono p o p' o' a b : before p' o' p o \/ (p' = p /\ o' = o) -> agree p o a b -> agree p' o' a b.
Proof. intros Hb Hag q r Hq Hr Hqr. apply Hag; [done..|]. unfold before in *. lia. Qed.

Lemma agree_sym p o a b : agree p o a b -> agree p o b a.
Proof. intros Hag q r Hq Hr Hqr. symmetry. by apply Hag. Qed.

Lemma agree_trans p o a b c : agree p o a b -> agree p o b c -> agree p o a c.
Proof. intros Hab Hbc q r Hq Hr Hqr. by rewrite Hab, Hbc. Qed.

Lemma agree_refl p o a : agree p o a a.
Proof. by intros q r. Qed.

(** ** The first difference *)

Lemma vbyte_0 (k : bytes) : vbyte k 0 = match k with [] => 0 | b :: _ => byte_Z b end.
Proof. by destruct k. Qed.

Lemma vbyte_tail k p : 0 <= p -> vbyte (tail k) p = vbyte k (p + 1).
Proof. intros Hp. unfold vbyte. rewrite Z2Nat.inj_add, Nat.add_1_r by lia. by destruct k. Qed.

Lemma vbyte_cons b k p : 0 <= p -> vbyte (b :: k) (p + 1) = vbyte k p.
Proof. intros Hp. by rewrite <- vbyte_tail. Qed.

Lemma firstDiff_Some k nk p0 pos x :
  firstDiff k nk p0 = Some (pos, x) ->
  exists i, pos = p0 + i /\ 0 <= i /\ x = Z.lxor (vbyte nk i) (vbyte k i) /\ vbyte nk i <> vbyte k i /\
    forall j, 0 <= j < i -> vbyte nk j = vbyte k j.
Proof.
  revert nk p0. induction k as [|b k IH]; intros nk p0; cbn; [done|].
  rewrite <- (vbyte_0 nk). change (byte_Z b) with (vbyte (b :: k) 0).
  destruct (vbyte nk 0 =? vbyte (b :: k) 0) eqn:E; cbn.
  - intros (i & -> & Hi & -> & Hne & Heq)%IH. exists (i + 1).
    rewrite vbyte_tail, <- (vbyte_cons b k i) in Hne |- * by done.
    do 4 (split; [done || lia|]). intros j Hj.
    destruct (decide (j = 0)) as [->|Hj0]; [by apply Z.eqb_eq|].
    specialize (Heq (j - 1) ltac:(lia)). rewrite vbyte_tail, <- (vbyte_cons b k) in Heq by lia.
    by replace (j - 1 + 1) with j in Heq by lia.
  - intros [= <- <-]. exists 0. do 4 (split; [done || lia|]). lia.
Qed.

Lemma firstDiff_None k nk p0 :
  firstDiff k nk p0 = None -> forall j, 0 <= j < Z.of_nat (length k) -> vbyte nk j = vbyte k j.
Proof.
  revert nk p0. induction k as [|b k IH]; intros nk p0; cbn [firstDiff length]; [lia|].
  rewrite <- (vbyte_0 nk). change (byte_Z b) with (vbyte (b :: k) 0).
  destruct (vbyte nk 0 =? vbyte (b :: k) 0) eqn:E; cbn [negb]; [|done].
  intros Hk j Hj. pose proof (IH _ _ Hk) as Heq. destruct (decide (j = 0)) as [->|Hj0]; [lia|].
  specialize (Heq (j - 1) ltac:(lia)). rewrite vbyte_tail, <- (vbyte_cons b k) in Heq by lia.
  by replace (j - 1 + 1) with j in Heq by lia.
Qed.

(** The test Insert makes for a new key [k] where the search ended at [nk]. *)
Definition splits (k nk : bytes) (pos o : Z) : Prop :=
  0 <= pos /\ isOther o /\ direction k pos o <> direction nk pos o /\ agree pos o k nk /\
  (o = 255 -> zeroExt nk k \/
     (pos = Z.of_nat (length k) /\ (length k < length nk)%nat /\
      forall p, 0 <= p <= pos -> vbyte k p = vbyte nk p)).

Lemma agree_vbyte pos o a b :
  (forall p, 0 <= p < pos -> vbyte a p = vbyte b p) ->
  (forall o', o' ∈ bitOthers -> o' < o -> sideOf o' (vbyte a pos) = sideOf o' (vbyte b pos)) ->
  agree pos o a b.
Proof.
  intros Hlt Heq p' o' Hp' Ho' [Hb|[-> Hb]]; rewrite !direction_bit by done.
  - by rewrite Hlt.
  - by apply Heq.
Qed.

Lemma splits_bit k nk pos :
  0 <= pos -> vbyte nk pos <> vbyte k pos -> (forall j, 0 <= j < pos -> vbyte nk j = vbyte k j) ->
  splits k nk pos (critBit (Z.lxor (vbyte nk pos) (vbyte k pos))).
Proof.
  intros Hpos Hne Heq.
  destruct (critBit_spec _ _ (vbyte_range nk pos) (vbyte_range k pos) Hne) as (Ho & Hd & Hlt).
  split; [done|]. split; [by left|]. split; [by rewrite !direction_bit|]. split.
  - apply agree_vbyte; intros; symmetry; auto.
  - intros E. rewrite E in Ho. pose proof (bitOthers_lt _ Ho). lia.
Qed.

Lemma findFirstDiffByte_spec k nk :
  match findFirstDiffByte k nk with
  | (_, _, true) => k = nk
  | (pos, x, false) => k <> nk /\ splits k nk pos (critBit x)
  end.
Proof.
  unfold findFirstDiffByte. destruct (firstDiff k nk 0) as [[pos x]|] eqn:E.
  - apply firstDiff_Some in E as (i & -> & Hi & -> & Hne & Heq). rewrite Z.add_0_l.
    split; [congruence|]. by apply splits_bit.
  - pose proof (firstDiff_None _ _ _ E) as Heq. destruct (nk !! length k) as [b|] eqn:Hb.
    + assert (vbyte nk (Z.of_nat (length k)) = byte_Z b) as Hv by (unfold vbyte; by rewrite Nat2Z.id, Hb).
      pose proof (lookup_lt_Some _ _ _ Hb) as Hlt. split; [intros ->; lia|].
      destruct (decide (byte_Z b = 0)) as [Hz|Hz].
      * rewrite Hz. change (critBit 0) with 255. split; [lia|]. split; [by right|].
        assert (forall p, 0 <= p <= Z.of_nat (length k) -> vbyte k p = vbyte nk p) as Hall.
        { intros p Hp. destruct (decide (p = Z.of_nat (length k))) as [->|]; [|symmetry; apply Heq; lia].
          rewrite Hv, Hz. by rewrite vbyte_end. }
        split; [rewrite !direction_len by lia; by repeat case_match; lia|].
        split; [|intros _; right; done].
        apply agree_vbyte; intros; rewrite Hall by lia; done.
      * replace (byte_Z b) with (Z.lxor (vbyte nk (Z.of_nat (length k))) (vbyte k (Z.of_nat (length k))))
          by (by rewrite Hv, (vbyte_end k), Z.lxor_0_r).
        apply splits_bit; [lia|by rewrite Hv, (vbyte_end k)|done].
    + apply lookup_ge_None_1 in Hb. destruct (decide (length k = length nk)) as [Hl|Hl].
      * apply vbyte_ext; [done|]. intros p Hp. destruct (decide (p < Z.of_nat (length k))); [symmetry; auto|].
        rewrite !vbyte_end; [done|lia..].
      * change (critBit 0) with 255.
        assert (forall p, 0 <= p -> vbyte nk p = vbyte k p) as Hall.
        { intros p Hp. destruct (decide (p < Z.of_nat (length k))); [auto|]. rewrite !vbyte_end; [done|lia..]. }
        split; [congruence|]. split; [lia|]. split; [by right|].
        split; [rewrite !direction_len by lia; repeat case_match; lia|].
        split; [apply agree_vbyte; intros; rewrite Hall by lia; done|].
        intros _. left. split; [lia|done].
Qed.

(** ** The invariant *)

Fixpoint contents (n : Node) : gmap bytes Value :=
  match n with
  | ENode k v => {[ k := v ]}
  | INode c0 c1 _ _ => contents c0 ∪ contents c1
  end.

Definition has (n : Node) (k : bytes) : Prop := is_Some (contents n !! k).

(** The keys below a node are on the side their test says and agree on the bits before
    it. *)
Fixpoint wf (n : Node) : Prop :=
  match n with
  | ENode _ _ => True
  | INode c0 c1 pos o =>
    0 <= pos /\ isOther o /\
    (forall k, has c0 k -> direction k pos o = 0) /\ (forall k, has c1 k -> direction k pos o = 1) /\
    (forall a b, has n a -> has n b -> agree pos o a b) /\
    wf c0 /\ wf c1
  end.

Lemma wf_INode c0 c1 pos o :
  0 <= pos -> isOther o ->
  (forall k, has c0 k -> direction k pos o = 0) -> (forall k, has c1 k -> direction k pos o = 1) ->
  (forall a b, has (INode c0 c1 pos o) a -> has (INode c0 c1 pos o) b -> agree pos o a b) ->
  wf c0 -> wf c1 -> wf (INode c0 c1 pos o).
Proof. done. Qed.

Lemma has_leaf key v k : has (ENode key v) k <-> k = key.
Proof.
  unfold has. cbn. destruct (decide (k = key)) as [->|Hne].
  - rewrite lookup_singleton_eq. split; [done|eauto].
  - rewrite lookup_singleton_ne by done. split; [by intros []|done].
Qed.

Lemma has_node c0 c1 pos o k : has (INode c0 c1 pos o) k <-> has c0 k \/ has c1 k.
Proof. unfold has. cbn. by rewrite lookup_union_is_Some. Qed.

(** ** Search *)

Lemma lookupNode_top k n top top' : (lookupNode k top n).1 = (lookupNode k top' n).1.
Proof.
  revert top top'. induction n as [|c0 IH0 c1 IH1 pos o]; intros; cbn; [done|].
  destruct (direction k pos o =? 0); auto.
Qed.

(** The leaf at which the search for [k] ends. *)
Definition found (k : bytes) (n : Node) : bytes * Value := (lookupNode k None n).1.

Lemma found_node k c0 c1 pos o :
  found k (INode c0 c1 pos o) = found k (if direction k pos o =? 0 then c0 else c1).
Proof. unfold found. cbn. case_match; apply lookupNode_top. Qed.

Lemma contents_r c0 c1 pos o k : wf (INode c0 c1 pos o) -> has c1 k -> contents c0 !! k = None.
Proof.
  intros (Hp & Ho & H0 & H1 & _) Hk. destruct (contents c0 !! k) eqn:E; [|done].
  specialize (H0 k ltac:(eexists; done)). specialize (H1 k Hk). congruence.
Qed.

Lemma contents_child c0 c1 pos o k v :
  wf (INode c0 c1 pos o) -> contents (INode c0 c1 pos o) !! k = Some v ->
  contents (if direction k pos o =? 0 then c0 else c1) !! k = Some v.
Proof.
  intros Hwf Hk. cbn in Hk. apply lookup_union_Some_raw in Hk as [Hk|[_ Hk]];
    destruct Hwf as (Hp & Ho & H0 & H1 & _).
  - by rewrite (H0 k) by by eexists.
  - by rewrite (H1 k) by by eexists.
Qed.

Lemma found_in k n : wf n -> contents n !! (found k n).1 = Some (found k n).2.
Proof.
  induction n as [key v|c0 IH0 c1 IH1 pos o]; intros Hwf; [by apply lookup_singleton_eq|].
  pose proof Hwf as (Hp & Ho & H0 & H1 & _ & Hw0 & Hw1). rewrite found_node. cbn.
  case_match.
  - apply lookup_union_Some_l. auto.
  - specialize (IH1 Hw1). apply lookup_union_Some_raw. right. split; [|done].
    eapply contents_r; [done|]. by eexists.
Qed.

Lemma found_hit k n v : wf n -> contents n !! k = Some v -> found k n = (k, v).
Proof.
  induction n as [key x|c0 IH0 c1 IH1 pos o]; intros Hwf Hk.
  - cbn in Hk. apply lookup_singleton_Some in Hk as [-> ->]. done.
  - rewrite found_node. apply contents_child in Hk; [|done].
    destruct Hwf as (_ & _ & _ & _ & _ & Hw0 & Hw1). case_match; auto.
Qed.

Lemma has_found k n : wf n -> has n (found k n).1.
Proof. intros Hwf. eexists. by apply found_in. Qed.

(** ** Insertion *)

(** Under [splits] the keys of a subtree with later tests are on one side. *)
Lemma splits_side k nk pos o npos no s :
  splits k nk pos o -> before pos o npos no -> isOther no -> agree npos no s nk ->
  ~ zeroExt nk k -> ~ zeroExt s k -> s <> k -> direction s pos o = direction nk pos o.
Proof.
  intros (Hpos & Ho & Hd & Hag & Hlen) Hb Hno Hs Hz Hzs Hsk. destruct Ho as [Ho| ->].
  { by apply Hs. }
  assert (pos < npos) as Hlt.
  { destruct Hb as [|[_ Hb]]; [done|]. destruct Hno as [Hno| ->]; [|lia].
    pose proof (bitOthers_lt _ Hno). lia. }
  destruct Hlen as [?|(-> & Hl & Hk)]; [done..|].
  rewrite !direction_len by lia. replace (_ <? Z.of_nat (length nk)) with true by lia.
  case_match eqn:E; [done|]. exfalso.
  assert (forall p, 0 <= p -> vbyte s p = vbyte k p) as Hv.
  { intros p Hp. destruct (decide (p < Z.of_nat (length k))).
    - rewrite Hk by lia. apply (agree_bytes npos no); [done|lia].
    - rewrite !vbyte_end; [done|lia..]. }
  destruct (decide (length s = length k)) as [Hls|]; [by apply Hsk, vbyte_ext|].
  apply Hzs. split; [lia|done].
Qed.

Lemma has_insert (m : gmap bytes Value) k v s : is_Some (<[k:=v]> m !! s) <-> s = k \/ is_Some (m !! s).
Proof.
  destruct (decide (s = k)) as [->|Hne].
  - rewrite lookup_insert_eq. split; [by left|eauto].
  - rewrite lookup_insert_ne by done. split; [by right|by intros [|]].
Qed.

(** The new node over [n], all of whose keys are on the side of [nk]. *)
Lemma wf_newNode k v nk pos o n :
  splits k nk pos o -> wf n -> has n nk -> ~ has n k ->
  (forall s, has n s -> direction s pos o = direction nk pos o) ->
  (forall s, has n s -> agree pos o s nk) ->
  let newn := if direction nk pos o =? 0 then INode n (ENode k v) pos o else INode (ENode k v) n pos o in
  wf newn /\ contents newn = <[k := v]> (contents n).
Proof.
  intros (Hpos & Ho & Hd & Hag & _) Hwf Hnk Hk Hside Hagree newn.
  assert (contents newn = <[k := v]> (contents n)) as Hc.
  { assert (contents n !! k = None) as Hn by (by apply eq_None_not_Some).
    unfold newn. case_match; cbn; [rewrite map_union_comm|]; rewrite <- ?insert_union_singleton_l; try done.
    apply map_disjoint_singleton_r_2. done. }
  split; [|done].
  assert (forall a, has newn a -> agree pos o a nk) as Hall.
  { intros a Ha. unfold has in Ha. rewrite Hc in Ha. apply has_insert in Ha as [->|Ha]; auto. }
  assert (forall a b, has newn a -> has newn b -> agree pos o a b) as Hall2
    by (intros a b Ha Hb; eapply agree_trans; [by apply Hall|apply agree_sym; by apply Hall]).
  assert (forall s, has (ENode k v) s -> direction s pos o = direction k pos o) as Hleaf
    by (by intros s ->%has_leaf).
  subst newn. clear Hc Hall.
  destruct (direction_range k pos o Hpos Ho) as [Hdk|Hdk];
    destruct (direction_range nk pos o Hpos Ho) as [Hdn|Hdn]; rewrite ?Hdk, ?Hdn in *; try done;
    cbn [Z.eqb] in *; apply wf_INode; auto.
Qed.

(** One child has grown by [k]. *)
Lemma wf_grow k v c0 c1 c0' c1' pos o :
  wf (INode c0 c1 pos o) ->
  (forall a b, a = k \/ has (INode c0 c1 pos o) a -> b = k \/ has (INode c0 c1 pos o) b -> agree pos o a b) ->
  wf c0' -> wf c1' ->
  (direction k pos o = 0 /\ contents c0' = <[k := v]> (contents c0) /\ c1' = c1) \/
  (direction k pos o = 1 /\ contents c1' = <[k := v]> (contents c1) /\ c0' = c0) ->
  wf (INode c0' c1' pos o) /\ contents (INode c0' c1' pos o) = <[k := v]> (contents (INode c0 c1 pos o)).
Proof.
  intros (Hp & Ho & H0 & H1 & _) Hall Hw0 Hw1 Hcase.
  assert (contents (INode c0' c1' pos o) = <[k := v]> (contents (INode c0 c1 pos o))) as Hc.
  { destruct Hcase as [(Hd & Hc & ->)|(Hd & Hc & ->)]; cbn; rewrite Hc.
    - by rewrite insert_union_l.
    - rewrite insert_union_r; [done|]. apply eq_None_not_Some. intros Hk%H0. congruence. }
  split; [|done]. apply wf_INode; auto.
  - intros s Hs. destruct Hcase as [(Hd & Hc0 & _)|(_ & _ & ->)]; [|auto].
    unfold has in Hs. rewrite Hc0 in Hs. apply has_insert in Hs as [->|Hs]; auto.
  - intros s Hs. destruct Hcase as [(_ & _ & ->)|(Hd & Hc0 & _)]; [auto|].
    unfold has in Hs. rewrite Hc0 in Hs. apply has_insert in Hs as [->|Hs]; auto.
  - intros a b Ha Hb. unfold has in Ha, Hb. rewrite Hc, has_insert in Ha, Hb. auto.
Qed.

Lemma critbit_insertNode_spec k v pos o n :
  wf n -> ~ has n k -> splits k (found k n).1 pos o ->
  (forall s, has n s -> ~ zeroExt s k) ->
  let n' := insertNode k pos o (ENode k v) (direction (found k n).1 pos o) n in
  wf n' /\ contents n' = <[k := v]> (contents n).
Proof.
  induction n as [key x|c0 IH0 c1 IH1 npos no]; intros Hwf Hk Hs Hz.
  - cbn -[contents wf]. apply wf_newNode; auto.
    + by apply has_leaf.
    + intros s ->%has_leaf. done.
    + intros s ->%has_leaf. apply agree_refl.
  - pose proof Hwf as (Hp & Ho & H0 & H1 & Hag & Hw0 & Hw1).
    pose proof (has_found k _ Hwf) as Hin. set (nk := (found k (INode c0 c1 npos no)).1) in *.
    assert (before pos o npos no -> let newn := if direction nk pos o =? 0
              then INode (INode c0 c1 npos no) (ENode k v) pos o
              else INode (ENode k v) (INode c0 c1 npos no) pos o in
            wf newn /\ contents newn = <[k := v]> (contents (INode c0 c1 npos no))) as Hnew.
    { intros Hb. apply wf_newNode; auto.
      - intros s Hin'. eapply splits_side; eauto. by intros ->.
      - intros s Hin'. eapply agree_mono; [left; exact Hb|]. auto. }
    cbn [insertNode]. destruct (pos <? npos) eqn:E1; [apply Hnew; left; lia|].
    destruct ((npos =? pos) && (o <? no)) eqn:E2; [apply Hnew; right; lia|].
    assert (before npos no pos o \/ (npos = pos /\ no = o)) as Hle by (unfold before; lia).
    assert (agree npos no k nk) as Hknk by (eapply agree_mono; [exact Hle|apply Hs]).
    assert (forall a, a = k \/ has (INode c0 c1 npos no) a -> agree npos no a nk) as Hall
      by (intros a [->|Ha]; auto).
    assert (forall a b, (a = k \/ has (INode c0 c1 npos no) a) -> (b = k \/ has (INode c0 c1 npos no) b) ->
              agree npos no a b) as Hall2
      by (intros a b Ha Hb; eapply agree_trans; [by apply Hall|apply agree_sym; by apply Hall]).
    subst nk. rewrite found_node in *. clear Hnew Hall Hknk Hin.
    destruct (direction_range k npos no Hp Ho) as [Hdk|Hdk]; rewrite Hdk in *; cbn [Z.eqb] in *.
    + destruct IH0 as [Hw Hc]; auto; [intros ?; apply Hk, has_node; auto|intros s ?; apply Hz, has_node; auto|].
      apply wf_grow; auto.
    + destruct IH1 as [Hw Hc]; auto; [intros ?; apply Hk, has_node; auto|intros s ?; apply Hz, has_node; auto|].
      apply wf_grow; auto.
Qed.

(** ** Overwriting and deletion *)

Lemma wf_ext c0 c1 c0' c1' pos o :
  wf (INode c0 c1 pos o) -> wf c0' -> wf c1' ->
  (forall s, has c0' s -> has c0 s) -> (forall s, has c1' s -> has c1 s) -> wf (INode c0' c1' pos o).
Proof.
  intros (Hp & Ho & H0 & H1 & Hag & _) Hw0 Hw1 Hs0 Hs1.
  apply wf_INode; auto. intros a b Ha Hb. apply Hag; apply has_node; rewrite has_node in Ha, Hb;
    [destruct Ha|destruct Hb]; auto.
Qed.

Lemma setValue_spec k v n :
  wf n -> has n k -> wf (setValue k v n) /\ contents (setValue k v n) = <[k := v]> (contents n).
Proof.
  induction n as [key x|c0 IH0 c1 IH1 pos o]; intros Hwf Hk.
  - apply has_leaf in Hk as ->. cbn. split; [done|]. by rewrite insert_singleton_eq.
  - pose proof Hwf as (Hp & Ho & H0 & H1 & Hag & Hw0 & Hw1). cbn [setValue].
    assert (forall a b, a = k \/ has (INode c0 c1 pos o) a -> b = k \/ has (INode c0 c1 pos o) b -> agree pos o a b)
      as Hall by (intros a b [->|Ha] [->|Hb]; auto).
    apply has_node in Hk as [Hk|Hk].
    + rewrite (H0 k Hk) in *. destruct (IH0 Hw0 Hk). apply wf_grow; auto.
    + rewrite (H1 k Hk) in *. destruct (IH1 Hw1 Hk). apply wf_grow; auto.
Qed.

Lemma deleteNode_spec k n :
  wf n ->
  match deleteNode k n with
  | None => contents n !! k = None
  | Some (v, r) => contents n !! k = Some v /\
    match r with
    | None => delete k (contents n) = ∅
    | Some n' => wf n' /\ contents n' = delete k (contents n)
    end
  end.
Proof.
  induction n as [key x|c0 IH0 c1 IH1 pos o]; intros Hwf; cbn [deleteNode].
  - case_decide as E; subst; cbn.
    + rewrite lookup_singleton_eq. split; [done|]. apply delete_singleton_eq.
    + by rewrite lookup_singleton_ne.
  - pose proof Hwf as (Hp & Ho & H0 & H1 & Hag & Hw0 & Hw1). specialize (IH0 Hw0). specialize (IH1 Hw1).
    destruct (direction_range k pos o Hp Ho) as [Hd|Hd]; rewrite Hd; cbn -[contents].
    + assert (contents c1 !! k = None) as Hk1 by (apply eq_None_not_Some; intros Hk%H1; congruence).
      destruct (deleteNode k c0) as [[v [c0'|]]|]; cbn.
      * destruct IH0 as (Hk & Hw & Hc). split; [by apply lookup_union_Some_l|].
        rewrite delete_union, (delete_id (contents c1)) by done. split; [|by rewrite Hc].
        eapply wf_ext; eauto. intros s. unfold has. rewrite Hc. intros [? [_ ?]%lookup_delete_Some]. by eexists.
      * destruct IH0 as (Hk & Hc). split; [by apply lookup_union_Some_l|]. split; [done|].
        by rewrite delete_union, Hc, (delete_id (contents c1)), (left_id_L ∅ (∪)).
      * by rewrite lookup_union_None.
    + assert (contents c0 !! k = None) as Hk0 by (apply eq_None_not_Some; intros Hk%H0; congruence).
      destruct (deleteNode k c1) as [[v [c1'|]]|]; cbn.
      * destruct IH1 as (Hk & Hw & Hc). split; [by rewrite lookup_union_r|].
        rewrite delete_union, (delete_id (contents c0)) by done. split; [|by rewrite Hc].
        eapply wf_ext; eauto. intros s. unfold has. rewrite Hc. intros [? [_ ?]%lookup_delete_Some]. by eexists.
      * destruct IH1 as (Hk & Hc). split; [by rewrite lookup_union_r|]. split; [done|].
        by rewrite delete_union, Hc, (delete_id (contents c0)), (right_id_L ∅ (∪)).
      * by rewrite lookup_union_None.
Qed.

(** ** Refinement of a map *)

(** The tree holds the map. *)
Definition holds (t : Tree) (m : gmap bytes Value) : Prop :=
  match Root t with None => m = ∅ | Some n => wf n /\ contents n = m end /\
  Size t = Z.of_nat (size m).

Lemma critbit_Get_spec t m k : holds t m -> Get t k = m !! k.
Proof.
  unfold holds, Get, lookup. intros [Hr _]. destruct (Root t) as [n|]; cbn; [|by subst].
  destruct Hr as [Hwf <-]. pose proof (found_in k n Hwf) as Hin. unfold found in Hin.
  destruct (contents n !! k) as [v|] eqn:E.
  - pose proof (found_hit k n v Hwf E) as Hf. unfold found in Hf.
    destruct (lookupNode k None n) as [[key x] top]. cbn in Hf. injection Hf as -> ->. by rewrite decide_True.
  - destruct (lookupNode k None n) as [[key x] top]. cbn in Hin.
    case_decide; [congruence|done].
Qed.

Lemma critbit_Insert_spec k v t m :
  holds t m -> (forall s, is_Some (m !! s) -> ~ zeroExt s k) ->
  (Insert k v t).1 = m !! k /\ holds (Insert k v t).2 (<[k := v]> m).
Proof.
  unfold holds, Insert, lookup. intros [Hr Hsz] Hz. destruct (Root t) as [n|]; cbn.
  - destruct Hr as [Hwf <-].
    pose proof (found_in k n Hwf) as Hin. pose proof (found_hit k n) as Hhit.
    pose proof (critbit_insertNode_spec k v) as Hins. unfold found in *.
    specialize (Hins) with (n := n).
    destruct (lookupNode k None n) as [[key x] top]. cbn in *.
    pose proof (findFirstDiffByte_spec k key) as Hd.
    destruct (findFirstDiffByte k key) as [[pos o] [|]]; cbn.
    + subst key. split; [done|]. destruct (setValue_spec k v n Hwf) as [Hw Hc]; [by eexists|].
      split; [done|]. rewrite Hsz, map_size_insert_Some; [done|by eexists].
    + destruct Hd as [Hne Hs]. assert (contents n !! k = None) as Hk.
      { destruct (contents n !! k) as [y|] eqn:E; [|done]. specialize (Hhit y Hwf eq_refl). congruence. }
      split; [done|]. destruct (Hins pos (critBit o)) as [Hw Hc]; auto; [by apply eq_None_not_Some|].
      split; [done|]. rewrite Hsz, map_size_insert_None by done. lia.
  - subst m. split; [done|]. split; [done|]. rewrite Hsz. by rewrite map_size_insert_None.
Qed.

Lemma critbit_Delete_spec k t m :
  holds t m -> (Delete k t).1 = m !! k /\ holds (Delete k t).2 (delete k m).
Proof.
  unfold holds, Delete. intros [Hr Hsz]. destruct (Root t) as [n|] eqn:Hroot; cbn.
  - destruct Hr as [Hwf <-]. pose proof (deleteNode_spec k n Hwf) as Hd.
    destruct (deleteNode k n) as [[v [n'|]]|]; cbn.
    + destruct Hd as (Hk & Hw & Hc). split; [done|]. split; [done|].
      rewrite Hsz, map_size_delete, Hk. pose proof (map_size_ne_0_lookup_2 (contents n) k ltac:(by eexists)). lia.
    + destruct Hd as (Hk & Hc). split; [done|]. split; [done|].
      rewrite Hsz, map_size_delete, Hk. pose proof (map_size_ne_0_lookup_2 (contents n) k ltac:(by eexists)). lia.
    + rewrite Hroot. split; [done|]. by rewrite delete_id.
  - subst m. rewrite Hroot. split; [done|]. rewrite delete_empty. done.
Qed.

Inductive op :=
| OpInsert (k : bytes) (v : Value)
| OpDelete (k : bytes).

Definition opKey (o : op) : bytes := match o with OpInsert k _ => k | OpDelete k => k end.

Definition runOp (o : op) (t : Tree) : option Value * Tree :=
  match o with OpInsert k v => Insert k v t | OpDelete k => Delete k t end.

Definition mapOp (o : op) (m : gmap bytes Value) : option Value * gmap bytes Value :=
  match o with OpInsert k v => (m !! k, <[k := v]> m) | OpDelete k => (m !! k, delete k m) end.

(** The results of a sequence of operations and what they leave behind. *)
Fixpoint runAll {S} (f : op -> S -> option Value * S) (ops : list op) (s : S) : list (option Value) * S :=
  match ops with
  | [] => ([], s)
  | o :: ops =>
    let '(r, s) := f o s in
    let '(rs, s) := runAll f ops s in
    (r :: rs, s)
  end.

(** No key is another one followed by zero bytes. *)
Definition zeroFree (ks : list bytes) : Prop := forall a b, a ∈ ks -> b ∈ ks -> ~ zeroExt a b.

Lemma zeroFree_length len ks : Forall (fun k => length k = len) ks -> zeroFree ks.
Proof.
  rewrite Forall_forall. intros Hk a b Ha Hb [Hl _]. apply Hk in Ha, Hb. lia.
Qed.

Lemma holds_New : holds New ∅.
Proof. done. Qed.

Lemma runAll_holds ks ops t m :
  zeroFree ks -> Forall (fun o => opKey o ∈ ks) ops -> (forall s, is_Some (m !! s) -> s ∈ ks) -> holds t m ->
  (runAll runOp ops t).1 = (runAll mapOp ops m).1 /\ holds (runAll runOp ops t).2 (runAll mapOp ops m).2.
Proof.
  intros Hz Hops. revert t m. induction Hops as [|o ops Ho Hops IH]; intros t m Hm Ht; [done|].
  assert ((runOp o t).1 = (mapOp o m).1 /\ holds (runOp o t).2 (mapOp o m).2 /\
          forall s, is_Some ((mapOp o m).2 !! s) -> s ∈ ks) as (Hr & Ht' & Hm').
  { destruct o as [k v|k]; cbn in *.
    - destruct (critbit_Insert_spec k v t m Ht) as [Hr Ht']; [intros s Hs; apply Hz; auto|].
      split; [done|]. split; [done|]. intros s [->|Hs]%has_insert; auto.
    - destruct (critbit_Delete_spec k t m Ht) as [Hr Ht']. split; [done|]. split; [done|].
      intros s [? [_ ?]%lookup_delete_Some]. apply Hm. by eexists. }
  cbn. destruct (runOp o t) as [r t'], (mapOp o m) as [r' m']. cbn in *. subst.
  destruct (IH t' m' Hm' Ht') as [Hrs Hs]. destruct (runAll runOp ops t'), (runAll mapOp ops m').
  cbn in *. subst. done.
Qed.

Lemma run_holds ops :
  zeroFree (opKey <$> ops) ->
  (runAll runOp ops New).1 = (runAll mapOp ops ∅).1 /\ holds (runAll runOp ops New).2 (runAll mapOp ops ∅).2.
Proof.
  intros Hz. apply (runAll_holds (opKey <$> ops)); [done| | |apply holds_New].
  - apply Forall_forall. intros o Ho. by apply list_elem_of_fmap_2.
  - intros s [? Hs]. by rewrite lookup_empty in Hs.
Qed.

(** C38: a crit-bit tree refines a map: for any sequence of Insert and Delete on keys of
    which none is another one followed by zero bytes, every call returns what the map
    holds for its key, Get reads the map, and Len is its size. *)
Theorem critbit_refines_map (ops : list op) :
  zeroFree (opKey <$> ops) ->
  let t := (runAll runOp ops New).2 in
  let m := (runAll mapOp ops ∅).2 in
  (runAll runOp ops New).1 = (runAll mapOp ops ∅).1 /\
  (forall k, Get t k = m !! k) /\ Len t = Z.of_nat (size m).
Proof.
  intros Hz t m. destruct (run_holds ops Hz) as [Hr Ht]. split; [done|].
  split; [|apply Ht]. intros k. by apply critbit_Get_spec.
Qed.

Definition key3 (a b c : Z) : bytes := [Z_byte a; Z_byte b; Z_byte c].

Definition demoOps : list op :=
  [OpInsert (key3 1 2 3) (mkValue [] 1 1 0); OpInsert (key3 1 2 255) (mkValue [] 2 2 0);
   OpInsert (key3 1 0 0) (mkValue [] 3 3 0); OpInsert (key3 1 2 3) (mkValue [] 4 4 0);
   OpDelete (key3 1 0 0); OpInsert (key3 128 0 7) (mkValue [] 5 5 0)].

Lemma demoOps_zeroFree : zeroFree (opKey <$> demoOps).
Proof. apply (zeroFree_length 3). by repeat constructor. Qed.

Lemma critbit_refines_map_witness :
  Len (runAll runOp demoOps New).2 = 3 /\
  forall k, Get (runAll runOp demoOps New).2 k = (runAll mapOp demoOps ∅).2 !! k.
Proof.
  destruct (critbit_refines_map demoOps demoOps_zeroFree) as (_ & Hg & Hl).
  split; [|exact Hg]. etransitivity; [exact Hl|]. by vm_compute.
Defined.

Lemma firstDiff_zeros k n p : firstDiff (k ++ replicate n Byte.x00) k p = None.
Proof.
  revert p. induction k as [|b k IH]; intros p; cbn.
  - revert p. induction n as [|n IHn]; intros p; cbn; [done|]. apply IHn.
  - rewrite Z.eqb_refl. apply IH.
Qed.

Lemma findFirstDiffByte_zeros k n :
  findFirstDiffByte (k ++ replicate (S n) Byte.x00) k = (Z.of_nat (length k + n), 0, false).
Proof.
  unfold findFirstDiffByte. rewrite firstDiff_zeros, length_app, length_replicate.
  rewrite lookup_ge_None_2 by lia. rewrite decide_False by lia. f_equal. f_equal. lia.
Qed.

Lemma direction_long k p : 0 <= p < Z.of_nat (length k) -> direction k p 255 = 1.
Proof. intros Hp. rewrite direction_len by lia. by replace (_ <? _) with true by lia. Qed.

Lemma direction_short k p : 0 <= p -> Z.of_nat (length k) <= p -> direction k p 255 = 0.
Proof. intros Hp Hl. rewrite direction_len by lia. by replace (_ <? _) with false by lia. Qed.

(** Keys that differ only in trailing zero bytes get lost: after inserting a key, the
    key followed by two zero bytes, and the key followed by one, the second one is not
    found, although nothing was deleted and Len is 3. *)
Theorem critbit_loses_key (k : bytes) (v1 v2 v3 : Value) :
  let k1 := k ++ [Byte.x00] in
  let k2 := k ++ [Byte.x00; Byte.x00] in
  let t := (runAll runOp [OpInsert k v1; OpInsert k2 v2; OpInsert k1 v3] New).2 in
  Get t k2 = None /\ Len t = 3.
Proof.
  intros k1 k2 t.
  assert (length k1 = length k + 1)%nat as Hl1 by (unfold k1; rewrite length_app; cbn; lia).
  assert (length k2 = length k + 2)%nat as Hl2 by (unfold k2; rewrite length_app; cbn; lia).
  set (p := Z.of_nat (length k + 1)). set (q := Z.of_nat (length k + 0)).
  assert (Insert k2 v2 (mkTree (Some (ENode k v1)) 1) =
          (None, mkTree (Some (INode (ENode k v1) (ENode k2 v2) p 255)) 2)) as Hi2.
  { unfold Insert, lookup. cbn [Root Size lookupNode fmap option_fmap option_map].
    change k2 with (k ++ replicate 2 Byte.x00). rewrite findFirstDiffByte_zeros. change (critBit 0) with 255.
    rewrite direction_short by (unfold p; lia). done. }
  assert (Insert k1 v3 (mkTree (Some (INode (ENode k v1) (ENode k2 v2) p 255)) 2) =
          (None, mkTree (Some (INode (INode (ENode k v1) (ENode k2 v2) p 255) (ENode k1 v3) q 255)) 3)) as Hi1.
  { unfold Insert, lookup. cbn [Root Size lookupNode fmap option_fmap option_map].
    rewrite (direction_short k1 p) by (unfold p; lia). cbn [Z.eqb lookupNode].
    change k1 with (k ++ replicate 1 Byte.x00). rewrite findFirstDiffByte_zeros. change (critBit 0) with 255.
    fold q. rewrite direction_short by (unfold q; lia). cbn [insertNode].
    replace (q <? p) with true by (symmetry; apply Z.ltb_lt; unfold p, q; lia). done. }
  assert (t = mkTree (Some (INode (INode (ENode k v1) (ENode k2 v2) p 255) (ENode k1 v3) q 255)) 3) as ->.
  { assert (Insert k v1 New = (None, mkTree (Some (ENode k v1)) 1)) as Hi0 by done.
    unfold t. cbn [runAll runOp]. rewrite Hi0. cbv iota beta. rewrite Hi2. cbv iota beta. by rewrite Hi1. }
  split; [|done]. unfold Get, lookup. cbn [Root lookupNode fmap option_fmap option_map].
  rewrite (direction_long k2 q) by (unfold q; lia). cbn. rewrite decide_False; [done|].
  intros E. rewrite E in Hl2. lia.
Qed.

(** ** Order *)

(** bytes.Compare(a, b) < 0. *)
Fixpoint bytes_ltb (a b : bytes) : bool :=
  match a, b with
  | _, [] => false
  | [], _ :: _ => true
  | x :: a, y :: b => (byte_Z x <? byte_Z y) || ((byte_Z x =? byte_Z y) && bytes_ltb a b)
  end.

Lemma bytes_ltb_at q a b :
  (q < length b)%nat -> (forall p, 0 <= p < Z.of_nat q -> vbyte a p = vbyte b p) ->
  (length a <= q)%nat \/ vbyte a (Z.of_nat q) < vbyte b (Z.of_nat q) -> bytes_ltb a b = true.
Proof.
  revert a b. induction q as [|q IH]; intros a [|y b] Hq Heq Hlt; cbn in Hq; try lia.
  - destruct a as [|x a]; [done|]. destruct Hlt as [Hlt|Hlt]; [cbn in Hlt; lia|].
    cbn. change (byte_Z x < byte_Z y) in Hlt. lia.
  - destruct a as [|x a]; [done|]. cbn. specialize (IH a b ltac:(lia)).
    pose proof (Heq 0 ltac:(lia)) as H0. change (byte_Z x = byte_Z y) in H0. rewrite H0, IH; [lia| |].
    + intros p Hp. specialize (Heq (p + 1) ltac:(lia)). by rewrite !vbyte_cons in Heq by lia.
    + destruct Hlt as [Hlt|Hlt]; [left; cbn in Hlt; lia|right].
      replace (Z.of_nat (S q)) with (Z.of_nat q + 1) in Hlt by lia. by rewrite !vbyte_cons in Hlt by lia.
Qed.

(** A key on side 1 of a test is longer than its position. *)
Lemma direction_1 k p o : 0 <= p -> isOther o -> direction k p o = 1 -> p < Z.of_nat (length k).
Proof.
  intros Hp [Ho| ->] Hd.
  - rewrite direction_bit in Hd by done. destruct (decide (p < Z.of_nat (length k))); [done|].
    rewrite vbyte_end, sideOf_zero in Hd by (done || lia). done.
  - rewrite direction_len in Hd by done. case_match; lia.
Qed.

(** The keys on the two sides of a node are in order. *)
Lemma sides_ordered a b p o :
  0 <= p -> isOther o -> agree p o a b -> direction a p o = 0 -> direction b p o = 1 -> bytes_ltb a b = true.
Proof.
  intros Hp Ho Hag Ha Hb. pose proof (direction_1 b p o Hp Ho Hb) as Hl.
  apply (bytes_ltb_at (Z.to_nat p)); [lia| |].
  - intros q Hq. apply (agree_bytes p o); [done|lia].
  - rewrite Z2Nat.id by done. destruct Ho as [Ho| ->].
    + right. rewrite !direction_bit in Ha, Hb by done.
      apply (side_order _ _ o); auto using vbyte_range. intros o' Ho' Hlt.
      specialize (Hag p o' Hp Ho' ltac:(right; done)). by rewrite !direction_bit in Hag.
    + left. rewrite direction_len in Ha by done. case_match; lia.
Qed.

Fixpoint elements (n : Node) : list (bytes * Value) :=
  match n with
  | ENode k v => [(k, v)]
  | INode c0 c1 _ _ => elements c0 ++ elements c1
  end.

(** The WalkFn that collects the entries it is given. *)
Definition collect (k : bytes) (v : Value) (s : list (bytes * Value)) : bool * list (bytes * Value) :=
  (false, s ++ [(k, v)]).

Definition entryLt (x y : bytes * Value) : Prop := bytes_ltb x.1 y.1 = true.

Lemma walk_collect n s : walk n collect s = (false, s ++ elements n).
Proof.
  revert s. induction n as [|c0 IH0 c1 IH1 pos o]; intros s; cbn; [done|].
  by rewrite IH0, IH1, <- app_assoc.
Qed.

Lemma elements_contents n k v : wf n -> (k, v) ∈ elements n <-> contents n !! k = Some v.
Proof.
  induction n as [key x|c0 IH0 c1 IH1 pos o]; intros Hwf; cbn [elements].
  - rewrite list_elem_of_singleton. cbn. rewrite lookup_singleton_Some. naive_solver.
  - pose proof Hwf as (_ & _ & _ & _ & _ & Hw0 & Hw1). rewrite elem_of_app, IH0, IH1 by done.
    cbn [contents]. rewrite lookup_union_Some_raw. split; intros [?|?]; auto.
    + right. split; [|done]. eapply contents_r; [done|]. by eexists.
    + right. tauto.
Qed.

Lemma elements_sorted n : wf n -> StronglySorted entryLt (elements n).
Proof.
  induction n as [key x|c0 IH0 c1 IH1 pos o]; intros Hwf; cbn [elements]; [by repeat constructor|].
  pose proof Hwf as (Hp & Ho & H0 & H1 & Hag & Hw0 & Hw1).
  apply StronglySorted_app_2; [|auto..]. intros [a va] [b vb] Ha Hb.
  apply elements_contents in Ha, Hb; [|done..].
  apply (sides_ordered _ _ pos o); [done|done| |apply H0; by eexists|apply H1; by eexists].
  apply Hag; apply has_node; [left|right]; by eexists.
Qed.

Lemma minNode_head n : head (elements n) = Some (minNode n).
Proof. induction n as [|c0 IH0 c1 _ pos o]; cbn; [done|]. by destruct (elements c0). Qed.

Lemma maxNode_last n : last (elements n) = Some (maxNode n).
Proof. induction n as [|c0 _ c1 IH1 pos o]; cbn; [done|]. by rewrite last_app, IH1. Qed.

(** Walk visits the entries of the map, each once, in the lexicographic order of
    their keys, and Minimum and Maximum are the first and the last of them. *)
Theorem critbit_walk_sorted (ops : list op) :
  zeroFree (opKey <$> ops) ->
  let t := (runAll runOp ops New).2 in
  let m := (runAll mapOp ops ∅).2 in
  let l := Walk t collect [] in
  StronglySorted entryLt l /\ (forall k v, (k, v) ∈ l <-> m !! k = Some v) /\
  Minimum t = head l /\ Maximum t = last l.
Proof.
  intros Hz t m l. destruct (run_holds ops Hz) as [_ [Hr _]]. fold t m in Hr.
  unfold l, Walk, Minimum, Maximum. destruct (Root t) as [n|]; cbn [fmap option_fmap option_map].
  - destruct Hr as [Hwf <-]. rewrite walk_collect. cbn [snd app].
    split; [by apply elements_sorted|]. split; [intros; by apply elements_contents|].
    by rewrite minNode_head, maxNode_last.
  - subst m. rewrite Hr. split; [constructor|]. split; [|done].
    intros k v. rewrite lookup_empty. split; [by intros ?%not_elem_of_nil|done].
Qed.

Lemma critbit_walk_sorted_witness :
  let l := Walk (runAll runOp demoOps New).2 collect [] in
  StronglySorted entryLt l /\ fst <$> l = [key3 1 2 3; key3 1 2 255; key3 128 0 7].
Proof.
  split; [apply (critbit_walk_sorted demoOps demoOps_zeroFree)|by vm_compute].
Defined.

(** ** Prefixes *)

Lemma HasPrefix_spec s p : HasPrefix s p = true <-> p `prefix_of` s.
Proof.
  unfold HasPrefix. rewrite bool_decide_eq_true. split.
  - intros <-. apply prefix_take.
  - intros [r ->]. by rewrite take_app_length.
Qed.

Lemma prefix_vbyte a b p : a `prefix_of` b -> 0 <= p < Z.of_nat (length a) -> vbyte a p = vbyte b p.
Proof.
  intros [r ->] Hp. unfold vbyte. by rewrite lookup_app_l by lia.
Qed.

(** A prefix of [b] that reaches behind a position is on the side of [b]. *)
Lemma prefix_direction a b p o :
  a `prefix_of` b -> 0 <= p < Z.of_nat (length a) -> isOther o -> direction a p o = direction b p o.
Proof.
  intros Hab Hp [Ho| ->].
  - rewrite !direction_bit by (done || lia). by rewrite (prefix_vbyte a b).
  - apply prefix_length in Hab. by rewrite !direction_long by lia.
Qed.

(** The entries whose key is a prefix of [path]. *)
Definition prefixesOf (path : bytes) (l : list (bytes * Value)) : list (bytes * Value) :=
  filter (fun x => HasPrefix path x.1 = true) l.

Lemma prefixesOf_none path c1 pos o :
  0 <= pos -> isOther o -> wf c1 -> (forall k, has c1 k -> direction k pos o = 1) -> direction path pos o = 0 ->
  prefixesOf path (elements c1) = [].
Proof.
  intros Hp Ho Hw H1 Hd. unfold prefixesOf. apply elem_of_nil_inv.
  intros [k v] [Hk%HasPrefix_spec Hin]%list_elem_of_filter. cbn in Hk.
  apply elements_contents in Hin; [|done]. specialize (H1 k ltac:(by eexists)).
  pose proof (direction_1 _ _ _ Hp Ho H1). rewrite (prefix_direction k path) in H1; [congruence|done|lia|done].
Qed.

Lemma walkPath_collect n path s :
  wf n -> walkPath n path collect s = (false, s ++ prefixesOf path (elements n)).
Proof.
  revert s. induction n as [key x|c0 IH0 c1 IH1 pos o]; intros s Hwf; cbn [walkPath elements].
  - unfold prefixesOf. rewrite filter_cons. cbn [fst].
    destruct (HasPrefix path key); [by rewrite decide_True|rewrite decide_False by done]. by rewrite app_nil_r.
  - destruct Hwf as (Hp & Ho & H0 & H1 & Hag & Hw0 & Hw1). unfold prefixesOf. rewrite filter_app.
    fold (prefixesOf path (elements c0)). fold (prefixesOf path (elements c1)).
    destruct (direction_range path pos o Hp Ho) as [Hd|Hd]; rewrite Hd; cbn [Z.eqb].
    + by rewrite IH0, (prefixesOf_none path c1 pos o), app_nil_r.
    + by rewrite IH0, IH1, app_assoc.
Qed.

Lemma longestPrefix_last n path :
  wf n -> longestPrefix n path = last (prefixesOf path (elements n)).
Proof.
  induction n as [key x|c0 IH0 c1 IH1 pos o]; intros Hwf; cbn [longestPrefix elements].
  - unfold prefixesOf. rewrite filter_cons. cbn [fst].
    destruct (HasPrefix path key); [by rewrite decide_True|by rewrite decide_False].
  - destruct Hwf as (Hp & Ho & H0 & H1 & Hag & Hw0 & Hw1). unfold prefixesOf. rewrite filter_app.
    fold (prefixesOf path (elements c0)). fold (prefixesOf path (elements c1)).
    rewrite last_app, <- IH0, <- IH1 by done.
    set (di := sideOf o _).
    assert (direction path pos o = 1 -> di = 1) as Hdi.
    { unfold direction, di. case_match; [done|]. destruct (o =? 255) eqn:E; [done|done]. }
    destruct (di =? 0) eqn:E.
    + destruct (direction_range path pos o Hp Ho) as [Hd|Hd]; [|specialize (Hdi Hd); lia].
      rewrite (IH1 Hw1), (prefixesOf_none path c1 pos o); done.
    + done.
Qed.

Lemma StronglySorted_filter {A} (R : A -> A -> Prop) (P : A -> Prop) `{forall x, Decision (P x)} l :
  StronglySorted R l -> StronglySorted R (filter P l).
Proof.
  induction 1 as [|x l _ IH Hx]; [constructor|]. rewrite filter_cons. case_decide; [|done].
  constructor; [done|]. apply Forall_forall. intros y [_ Hy]%list_elem_of_filter.
  by eapply Forall_forall in Hx.
Qed.

(** Of two prefixes of one key the smaller one is the shorter one. *)
Lemma bytes_ltb_prefix a b c :
  a `prefix_of` c -> b `prefix_of` c -> bytes_ltb a b = true -> (length a <= length b)%nat.
Proof.
  revert b c. induction a as [|x a IH]; intros [|y b] c [ra Ha] [rb Hb]; cbn; try lia.
  subst c. injection Hb as <- Hb. rewrite Z.ltb_irrefl, Z.eqb_refl. cbn. intros Hlt.
  apply (IH b (a ++ ra)) in Hlt; [lia|by eexists|by eexists].
Qed.

(** WalkPath visits exactly the entries whose keys are prefixes of the path, in order,
    and LongestPrefix is the last of them, the longest. *)
Theorem critbit_prefixes (ops : list op) (path : bytes) :
  zeroFree (opKey <$> ops) ->
  let t := (runAll runOp ops New).2 in
  let m := (runAll mapOp ops ∅).2 in
  let l := WalkPath t path collect [] in
  (forall k v, (k, v) ∈ l <-> m !! k = Some v /\ k `prefix_of` path) /\
  LongestPrefix t path = last l /\
  (forall k v k', LongestPrefix t path = Some (k, v) -> is_Some (m !! k') -> k' `prefix_of` path ->
     (length k' <= length k)%nat).
Proof.
  intros Hz t m l. destruct (run_holds ops Hz) as [_ [Hr _]]. fold t m in Hr.
  assert ((forall k v, (k, v) ∈ l <-> m !! k = Some v /\ k `prefix_of` path) /\
          LongestPrefix t path = last l /\ StronglySorted entryLt l) as (Hin & Hl & Hs).
  { unfold l, WalkPath, LongestPrefix. destruct (Root t) as [n|]; cbn [mbind option_bind].
    - destruct Hr as [Hwf <-]. rewrite walkPath_collect, longestPrefix_last by done. cbn [snd app].
      split; [|split; [done|]].
      + intros k v. unfold prefixesOf. rewrite list_elem_of_filter. cbn [fst].
        rewrite HasPrefix_spec, elements_contents by done. tauto.
      + apply StronglySorted_filter, elements_sorted, Hwf.
    - subst m. rewrite Hr. split; [|split; [done|constructor]]. intros k v. rewrite lookup_empty.
      split; [by intros ?%not_elem_of_nil|by intros []]. }
  split; [done|]. split; [done|]. intros k v k' Hk [v' Hm] Hp. rewrite Hl in Hk.
  apply last_Some in Hk as [l' Hl']. assert ((k', v') ∈ l) as Hin' by by apply Hin.
  assert ((k, v) ∈ l) as [_ Hp']%Hin by (rewrite Hl'; apply elem_of_app; right; by apply list_elem_of_singleton).
  rewrite Hl' in Hin', Hs. apply elem_of_app in Hin' as [Hin'|Hin'].
  - assert (entryLt (k', v') (k, v)) as Hlt.
    { eapply StronglySorted_app_1_elem_of; [done..|by apply list_elem_of_singleton]. }
    by eapply bytes_ltb_prefix.
  - apply list_elem_of_singleton in Hin' as [= -> ->]. done.
Qed.

Definition abOps : list op :=
  [OpInsert [Byte.x61] (mkValue [] 1 1 0); OpInsert [Byte.x61; Byte.x62; Byte.x63] (mkValue [] 2 2 0);
   OpInsert [Byte.x61; Byte.x62] (mkValue [] 3 3 0); OpInsert [Byte.x62] (mkValue [] 4 4 0)].

Lemma abOps_zeroFree : zeroFree (opKey <$> abOps).
Proof.
  intros a b Ha Hb [Hl Hv]. cbn in Ha, Hb.
  repeat (apply elem_of_cons in Ha as [->|Ha]); try (by apply not_elem_of_nil in Ha);
  repeat (apply elem_of_cons in Hb as [->|Hb]); try (by apply not_elem_of_nil in Hb); cbn in Hl; try lia.
  all: first [by specialize (Hv 1 ltac:(lia)) | by specialize (Hv 2 ltac:(lia)) | by specialize (Hv 0 ltac:(lia))].
Qed.

Lemma critbit_prefixes_witness :
  LongestPrefix (runAll runOp abOps New).2 [Byte.x61; Byte.x62; Byte.x64] =
  last (WalkPath (runAll runOp abOps New).2 [Byte.x61; Byte.x62; Byte.x64] collect []).
Proof. apply (critbit_prefixes abOps [Byte.x61; Byte.x62; Byte.x64] abOps_zeroFree). Defined.

(** *** WalkPrefix *)

(** The entries whose key has the prefix. *)
Definition withPrefix (prefix : bytes) (l : list (bytes * Value)) : list (bytes * Value) :=
  filter (fun x => HasPrefix x.1 prefix = true) l.

Lemma walk_withPrefix n prefix s :
  walk n (fun k v s => if HasPrefix k prefix then collect k v s else (false, s)) s =
  (false, s ++ withPrefix prefix (elements n)).
Proof.
  revert s. induction n as [k v|c0 IH0 c1 IH1 pos o]; intros s; cbn [walk elements]; unfold withPrefix.
  - rewrite filter_cons. cbn [fst].
    destruct (HasPrefix k prefix); [by rewrite decide_True|rewrite decide_False by done]. by rewrite app_nil_r.
  - by rewrite IH0, IH1, filter_app, app_assoc.
Qed.

Lemma withPrefix_nil n prefix :
  wf n -> (forall k, has n k -> ~ prefix `prefix_of` k) -> withPrefix prefix (elements n) = [].
Proof.
  intros Hwf Hn. apply elem_of_nil_inv. intros [k v] [Hk%HasPrefix_spec Hin]%list_elem_of_filter.
  apply elements_contents in Hin; [|done]. apply (Hn k); [by eexists|done].
Qed.

Section walkPrefix.
Context (prefix : bytes).

(** All keys are at least as long as the prefix. *)
Definition long (n : Node) : Prop := forall k, has n k -> (length prefix <= length k)%nat.

(** The keys agree on the first bytes. *)
Definition uniform (n : Node) : Prop :=
  forall a b q, has n a -> has n b -> 0 <= q < Z.of_nat (length prefix) -> vbyte a q = vbyte b q.

Lemma long_child c0 c1 pos o : long (INode c0 c1 pos o) -> long c0 /\ long c1.
Proof. intros Hl. split; intros k Hk; apply Hl, has_node; auto. Qed.

Lemma uniform_child c0 c1 pos o : uniform (INode c0 c1 pos o) -> uniform c0 /\ uniform c1.
Proof. intros Hl. split; intros a b q Ha Hb; apply Hl; apply has_node; auto. Qed.

(** Uniform keys are told apart behind the prefix only. *)
Lemma uniform_pos c0 c1 pos o :
  wf (INode c0 c1 pos o) -> long (INode c0 c1 pos o) -> uniform (INode c0 c1 pos o) ->
  Z.of_nat (length prefix) <= pos.
Proof.
  intros (Hp & Ho & H0 & H1 & _ & Hw0 & Hw1) Hl Hu.
  pose proof (has_found [] c0 Hw0) as Ha. pose proof (has_found [] c1 Hw1) as Hb.
  destruct (decide (pos < Z.of_nat (length prefix))); [|lia]. exfalso.
  pose proof (H0 _ Ha) as Hda. pose proof (H1 _ Hb) as Hdb. destruct Ho as [Ho| ->].
  - rewrite !direction_bit in Hda, Hdb by done.
    rewrite (Hu _ (found [] c1).1 pos) in Hda; [congruence|apply has_node; auto..|lia].
  - apply long_child in Hl as [Hl _]. specialize (Hl _ Ha). rewrite direction_long in Hda; [done|lia].
Qed.

Lemma lookupNode_uniform n tp :
  wf n -> long n -> uniform n -> (lookupNode prefix (Some tp) n).2 = Some tp.
Proof.
  induction n as [|c0 IH0 c1 IH1 pos o]; intros Hwf Hl Hu; [done|].
  pose proof (uniform_pos _ _ _ _ Hwf Hl Hu). destruct Hwf as (_ & _ & _ & _ & _ & Hw0 & Hw1).
  apply long_child in Hl as [Hl0 Hl1]. apply uniform_child in Hu as [Hu0 Hu1]. cbn.
  replace (pos <? _) with false by lia. case_match; auto.
Qed.

Lemma uniform_prefix n a b :
  long n -> uniform n -> has n a -> has n b -> prefix `prefix_of` a -> prefix `prefix_of` b.
Proof.
  intros Hl Hu Ha Hb Hp. exists (drop (length prefix) b).
  rewrite <- (take_drop (length prefix) b) at 1. f_equal.
  assert (prefix = take (length prefix) a) as Hpa by (destruct Hp as [r ->]; by rewrite take_app_length).
  apply vbyte_ext; [rewrite length_take; specialize (Hl b Hb); lia|].
  intros p Hp0. destruct (decide (p < Z.of_nat (length prefix))).
  - rewrite (prefix_vbyte prefix a) by (done || lia).
    rewrite (prefix_vbyte (take (length prefix) b) b); [|apply prefix_take|].
    + by apply (Hu b a).
    + rewrite length_take. specialize (Hl b Hb). lia.
  - rewrite !vbyte_end; [done|lia|rewrite length_take; lia].
Qed.

(** The entries with the prefix are on the side of the prefix. *)
Lemma withPrefix_side c0 c1 pos o :
  wf (INode c0 c1 pos o) -> pos < Z.of_nat (length prefix) ->
  withPrefix prefix (elements (INode c0 c1 pos o)) =
  withPrefix prefix (elements (if direction prefix pos o =? 0 then c0 else c1)).
Proof.
  intros (Hp & Ho & H0 & H1 & _ & Hw0 & Hw1) Hlt.
  assert (forall k, prefix `prefix_of` k -> direction k pos o = direction prefix pos o) as Hd
    by (intros k Hk; symmetry; by apply prefix_direction).
  cbn [elements]. unfold withPrefix at 1. rewrite filter_app. fold (withPrefix prefix (elements c0)).
  fold (withPrefix prefix (elements c1)).
  destruct (direction_range prefix pos o Hp Ho) as [Hdp|Hdp]; rewrite Hdp in *; cbn [Z.eqb].
  - rewrite (withPrefix_nil c1), app_nil_r; [done..|].
    intros k Hk Hpk. specialize (H1 k Hk). specialize (Hd k Hpk). congruence.
  - rewrite (withPrefix_nil c0); [done..|].
    intros k Hk Hpk. specialize (H0 k Hk). specialize (Hd k Hpk). congruence.
Qed.

(** The search for the prefix ends below a node that has all entries with the prefix. *)
Lemma lookupNode_prefix n tp :
  wf n -> long n -> withPrefix prefix (elements tp) = withPrefix prefix (elements n) ->
  let r := lookupNode prefix (Some tp) n in
  if HasPrefix r.1.1 prefix
  then exists tp', r.2 = Some tp' /\ withPrefix prefix (elements tp') = withPrefix prefix (elements n)
  else withPrefix prefix (elements n) = [].
Proof.
  revert tp. induction n as [key x|c0 IH0 c1 IH1 pos o]; intros tp Hwf Hl Htp r.
  - subst r. cbn [lookupNode fst snd]. destruct (HasPrefix key prefix) eqn:E; [by eauto|].
    apply withPrefix_nil; [done|]. intros k ->%has_leaf Hk%HasPrefix_spec. congruence.
  - destruct (decide (pos < Z.of_nat (length prefix))) as [Hlt|Hge].
    + pose proof (withPrefix_side _ _ _ _ Hwf Hlt) as Hside. pose proof Hwf as (_ & _ & _ & _ & _ & Hw0 & Hw1).
      apply long_child in Hl as [Hl0 Hl1]. subst r. cbn [lookupNode]. replace (pos <? _) with true by lia.
      rewrite Hside. destruct (direction prefix pos o =? 0); [apply IH0|apply IH1]; done.
    + assert (uniform (INode c0 c1 pos o)) as Hu.
      { intros a b q Ha Hb Hq. destruct Hwf as (_ & _ & _ & _ & Hag & _).
        apply (agree_bytes pos o); [by apply Hag|lia]. }
      pose proof (lookupNode_uniform _ tp Hwf Hl Hu) as Htop. fold r in Htop.
      pose proof (has_found prefix _ Hwf) as Hin. unfold found in Hin.
      rewrite (lookupNode_top _ _ None (Some tp)) in Hin. fold r in Hin.
      destruct (HasPrefix r.1.1 prefix) eqn:E; [by eauto|].
      apply withPrefix_nil; [done|]. intros k Hk Hpk. apply (uniform_prefix _ _ _ Hl Hu Hk Hin) in Hpk.
      apply HasPrefix_spec in Hpk. congruence.
Qed.
End walkPrefix.

(** WalkPrefix visits exactly the entries whose keys have the prefix, in order,
    provided that no stored key is shorter than the prefix and the tree has not just one
    entry; if its only entry has the prefix it panics. *)
Theorem critbit_walk_prefix (ops : list op) (prefix : bytes) :
  zeroFree (opKey <$> ops) ->
  let t := (runAll runOp ops New).2 in
  let m := (runAll mapOp ops ∅).2 in
  (forall k, is_Some (m !! k) -> (length prefix <= length k)%nat) ->
  match WalkPrefix t prefix collect [] with
  | Ok l => StronglySorted entryLt l /\ (forall k v, (k, v) ∈ l <-> m !! k = Some v /\ prefix `prefix_of` k) /\
            ~ (exists k v, m = {[ k := v ]} /\ prefix `prefix_of` k)
  | Panic => exists k v, m = {[ k := v ]} /\ prefix `prefix_of` k
  | _ => False
  end.
Proof.
  intros Hz t m Hl. destruct (run_holds ops Hz) as [_ [Hr _]]. fold t m in Hr.
  unfold WalkPrefix, lookup. destruct (Root t) as [n|]; cbn [fmap option_fmap option_map].
  2:{ subst m. rewrite Hr in *. split; [constructor|]. split.
      - intros k v. rewrite lookup_empty. split; [by intros ?%not_elem_of_nil|by intros []].
      - intros (k & v & Hm & _). by apply (map_non_empty_singleton (M := gmap bytes) k v). }
  destruct Hr as [Hwf Hm]. destruct n as [key x|c0 c1 pos o].
  - cbn [lookupNode]. cbn in Hm. rewrite <- Hm. destruct (HasPrefix key prefix) eqn:E; cbn [negb].
    + exists key, x. split; [done|]. by apply HasPrefix_spec.
    + split; [constructor|]. split.
      * intros k v. rewrite lookup_singleton_Some. split; [by intros ?%not_elem_of_nil|].
        intros [[<- <-] ?%HasPrefix_spec]. congruence.
      * intros (k & v & [-> ->]%map_singleton_inj & ?%HasPrefix_spec). congruence.
  - assert (~ exists k v, m = {[ k := v ]} /\ prefix `prefix_of` k) as Hone.
    { intros (k & v & Hs & _). destruct Hwf as (_ & _ & H0 & H1 & _ & Hw0 & Hw1).
      assert (forall a, has (INode c0 c1 pos o) a -> a = k) as Hall.
      { intros a [y Ha]. rewrite Hm, Hs in Ha. by apply lookup_singleton_Some in Ha as [-> _]. }
      pose proof (has_found [] c0 Hw0) as Ha. pose proof (has_found [] c1 Hw1) as Hb.
      pose proof (Hall _ (proj2 (has_node _ _ _ _ _) (or_introl Ha))) as Ea.
      pose proof (Hall _ (proj2 (has_node _ _ _ _ _) (or_intror Hb))) as Eb.
      apply H0 in Ha. apply H1 in Hb. congruence. }
    assert (long prefix (INode c0 c1 pos o)) as Hlong by (intros k Hk; apply Hl; by rewrite <- Hm).
    set (n := INode c0 c1 pos o) in *.
    assert (lookupNode prefix None n = lookupNode prefix (Some n) n) as ->.
    { unfold n. cbn. by destruct (pos <? _). }
    pose proof (lookupNode_prefix prefix n n Hwf Hlong eq_refl) as Hn.
    destruct (lookupNode prefix (Some n) n) as [[key x] top]. cbn [fst snd] in Hn.
    assert (forall l, l = withPrefix prefix (elements n) -> StronglySorted entryLt l /\
              forall k v, (k, v) ∈ l <-> m !! k = Some v /\ prefix `prefix_of` k) as Hgoal.
    { intros l ->. split; [apply StronglySorted_filter, elements_sorted, Hwf|].
      intros k v. unfold withPrefix. rewrite list_elem_of_filter. cbn [fst].
      rewrite HasPrefix_spec, elements_contents, Hm by done. tauto. }
    destruct (HasPrefix key prefix) eqn:E; cbn [negb].
    + destruct Hn as (tp & -> & Htp). rewrite walk_withPrefix. cbn [snd app].
      destruct (Hgoal _ Htp). done.
    + destruct (Hgoal [] (eq_sym Hn)). done.
Qed.

Definition oneOp : list op := [OpInsert (key3 1 2 3) (mkValue [] 1 1 0)].

(** With a single entry that has the prefix, the theorem gives the panic. *)
Lemma critbit_walk_prefix_witness :
  WalkPrefix (runAll runOp oneOp New).2 [Z_byte 1] collect [] = Panic /\
  exists k v, (runAll mapOp oneOp ∅).2 = {[ k := v ]} /\ [Z_byte 1] `prefix_of` k.
Proof.
  split; [by vm_compute|].
  apply (critbit_walk_prefix oneOp [Z_byte 1]).
  - apply (zeroFree_length 3). by repeat constructor.
  - intros k [v Hk]. cbn in Hk. rewrite insert_empty in Hk.
    apply lookup_singleton_Some in Hk as [<- _]. cbn. lia.
Defined.
