(* ===== verification/RollingFrecency.v ===== *)
(** * The rolling frecency trie (types/tries/rolling_frecency_critbit_trie.go)

    The crit-bit tree in which the prover registry keeps the provers of a shard, and its
    search for the nearest provers: AbsoluteModularMinimumDistance (utils/math.go) and
    FindNearestAndApproximateNeighbors, for any modulus.  The order sort.Slice leaves
    elements in that compare equal is not specified; here it is that of merge sort.
    Serialisation (gob) and locks are left out. *)

From stdpp Require Import sorting.
From S2P Require Import Prelude Critbit CritbitSpec.

Definition AbsoluteModularMinimumDistance (targetInt keyInt modulus : Z) : Z :=
  let diff := Z.abs (targetInt - keyInt) in
  let modComplement := modulus - diff in
  if modComplement <? diff then modComplement else diff.

(** The field Trie; nil before the first use. *)
Definition RollingFrecencyCritbitTrie : Type := option Tree.

Definition trieOf (t : RollingFrecencyCritbitTrie) : Tree := match t with Some t => t | None => New end.

Definition Contains (t : RollingFrecencyCritbitTrie) (address : bytes) : bool :=
  match Critbit.Get (trieOf t) address with Some _ => true | None => false end.

Definition Get (t : RollingFrecencyCritbitTrie) (address : bytes) : Value :=
  match Critbit.Get (trieOf t) address with Some v => v | None => mkValue [] 0 0 0 end.

Definition Add (address : bytes) (latestFrame : Z) (t : RollingFrecencyCritbitTrie) : RollingFrecencyCritbitTrie :=
  let v := match Critbit.Get (trieOf t) address with
           | None => mkValue address latestFrame latestFrame 0
           | Some v => v
           end in
  Some (Insert address (mkValue (ValueKey v) (EarliestFrame v) latestFrame (Count v)) (trieOf t)).2.

Definition Remove (address : bytes) (t : RollingFrecencyCritbitTrie) : RollingFrecencyCritbitTrie :=
  Some (Delete address (trieOf t)).2.

Section nearest.
(** ff.Modulus. *)
Context (modulus : Z).

Definition dist (address : bytes) (v : Value) : Z :=
  AbsoluteModularMinimumDistance (be_val address) (be_val (ValueKey v)) modulus.

(** The order the elements are sorted by. *)
Definition nearer (address : bytes) (x y : Value) : Prop :=
  dist address x < dist address y \/
  (dist address x = dist address y /\ be_val (ValueKey x) <= be_val (ValueKey y)).

#[export] Instance nearer_dec address x y : Decision (nearer address x y).
Proof. unfold nearer. apply _. Defined.

Definition FindNearestAndApproximateNeighbors (t : RollingFrecencyCritbitTrie) (address : bytes) : list Value :=
  let ret := Walk (trieOf t) (fun _ v ret => (false, ret ++ [v])) [] in
  merge_sort (nearer address) ret.

Definition FindNearest (t : RollingFrecencyCritbitTrie) (address : bytes) : Value :=
  match FindNearestAndApproximateNeighbors t address with
  | [] => mkValue [] 0 0 0
  | v :: _ => v
  end.

#[export] Instance nearer_total address : Total (nearer address).
Proof. intros x y. unfold nearer. lia. Qed.

#[export] Instance nearer_trans address : Transitive (nearer address).
Proof. intros x y z. unfold nearer. lia. Qed.

(** ** Specification *)

Inductive trieOp :=
| TAdd (address : bytes) (latestFrame : Z)
| TRemove (address : bytes).

Definition trieKey (o : trieOp) : bytes := match o with TAdd a _ => a | TRemove a => a end.

Definition applyTrie (t : RollingFrecencyCritbitTrie) (o : trieOp) : RollingFrecencyCritbitTrie :=
  match o with TAdd a f => Add a f t | TRemove a => Remove a t end.

(** The frames in which an address was first and last added since it was last removed. *)
Definition applyFrames (m : gmap bytes (Z * Z)) (o : trieOp) : gmap bytes (Z * Z) :=
  match o with
  | TAdd a f => <[a := (match m !! a with Some x => x.1 | None => f end, f)]> m
  | TRemove a => delete a m
  end.

Definition valueOf (a : bytes) (x : Z * Z) : Value := mkValue a x.1 x.2 0.

(** The trie holds the frames of [m]. *)
Definition represents (t : RollingFrecencyCritbitTrie) (m : gmap bytes (Z * Z)) : Prop :=
  holds (trieOf t) (map_imap (fun a x => Some (valueOf a x)) m).

Lemma lookup_values (m : gmap bytes (Z * Z)) a :
  map_imap (fun a x => Some (valueOf a x)) m !! a = valueOf a <$> m !! a.
Proof. rewrite map_lookup_imap. by destruct (m !! a). Qed.

Lemma represents_step len t m o :
  (forall a, is_Some (m !! a) -> length a = len) -> length (trieKey o) = len ->
  represents t m -> represents (applyTrie t o) (applyFrames m o).
Proof.
  intros Hm Ho Ht. unfold represents in *. destruct o as [a f|a]; cbn in *.
  - unfold Add. rewrite (critbit_Get_spec _ _ a Ht), lookup_values.
    edestruct (critbit_Insert_spec a) as [_ Hi]; [exact Ht| |eapply eq_rect; [exact Hi|]].
    + intros s. rewrite lookup_values, fmap_is_Some. intros Hs [Hl _]. apply Hm in Hs. lia.
    + apply map_eq. intros k. rewrite lookup_values.
      destruct (decide (k = a)) as [->|Hne].
      * rewrite !lookup_insert_eq. by destruct (m !! a).
      * rewrite !lookup_insert_ne, lookup_values by done. done.
  - destruct (critbit_Delete_spec a _ _ Ht) as [_ Hd]. eapply eq_rect; [exact Hd|].
    apply map_eq. intros k. rewrite lookup_values. destruct (decide (k = a)) as [->|Hne].
    + by rewrite !lookup_delete_eq.
    + by rewrite !lookup_delete_ne, lookup_values by done.
Qed.

Lemma represents_run len ops :
  Forall (fun o => length (trieKey o) = len) ops ->
  represents (foldl applyTrie None ops) (foldl applyFrames ∅ ops).
Proof.
  intros Hops.
  assert (forall t m, (forall a, is_Some (m !! a) -> length a = len) -> represents t m ->
            represents (foldl applyTrie t ops) (foldl applyFrames m ops)) as Hrun.
  { induction Hops as [|o ops Ho _ IH]; intros t m Hm Ht; [done|]. cbn. apply IH.
    - intros a Ha. destruct o as [k f|k]; cbn in *.
      + destruct (decide (a = k)) as [->|Hne]; [done|]. rewrite lookup_insert_ne in Ha by done. auto.
      + destruct Ha as [? [_ Ha]%lookup_delete_Some]. apply Hm. by eexists.
    - by eapply represents_step. }
  apply Hrun; [|done]. intros a [? Ha]. by rewrite lookup_empty in Ha.
Qed.

Lemma walk_values n ret :
  walk n (fun _ v (ret : list Value) => (false, ret ++ [v])) ret = (false, ret ++ (elements n).*2).
Proof.
  revert ret. induction n as [|c0 IH0 c1 IH1 pos o]; intros ret; cbn; [done|].
  by rewrite IH0, IH1, fmap_app, <- app_assoc.
Qed.

(** The values in the order of the walk. *)
Lemma walk_represents t m :
  represents t m ->
  let ret := Walk (trieOf t) (fun _ v ret => (false, ret ++ [v])) [] in
  NoDup ret /\ forall v, v ∈ ret <-> exists a x, m !! a = Some x /\ v = valueOf a x.
Proof.
  intros [Hr _]. unfold Walk. destruct (Root (trieOf t)) as [n|].
  - destruct Hr as [Hwf Hc]. rewrite walk_values. cbn [snd app].
    assert (forall k v, (k, v) ∈ elements n <-> exists x, m !! k = Some x /\ v = valueOf k x) as Hin.
    { intros k v. rewrite elements_contents, Hc, lookup_values, fmap_Some by done. done. }
    split.
    + apply NoDup_fmap_2_strong.
      * intros [a v] [b w] (x & _ & ->)%Hin (y & _ & ->)%Hin Heq. change (valueOf a x = valueOf b y) in Heq.
        pose proof (f_equal ValueKey Heq) as Hab. cbn in Hab. by rewrite Heq, Hab.
      * pose proof (elements_sorted n Hwf) as Hs. clear -Hs. induction Hs as [|x l _ IH Hx]; constructor; [|done].
        intros Hin. eapply Forall_forall in Hx; [|exact Hin]. unfold entryLt in Hx. destruct x as [k v]. cbn in Hx.
        clear -Hx. induction k as [|b k IH]; [done|]. cbn in Hx. rewrite Z.ltb_irrefl, Z.eqb_refl in Hx. auto.
    + intros v. rewrite list_elem_of_fmap. split.
      * intros ([k w] & -> & (x & Hx & ->)%Hin). eauto.
      * intros (a & x & Hx & ->). exists (a, valueOf a x). split; [done|]. apply Hin. eauto.
  - cbn. split; [constructor|]. intros v. split; [by intros ?%not_elem_of_nil|].
    intros (a & x & Hx & _). apply (f_equal (.!! a)) in Hr. by rewrite lookup_values, Hx in Hr.
Qed.

(** The trie of provers: after any sequence of Add and Remove on addresses of one
    length, Contains and Get give the addresses added and not removed since with the
    frames of their first and last Add, and for any address
    FindNearestAndApproximateNeighbors lists each of them once, by modular distance to the
    address and then by key, so that no stored address is nearer than FindNearest. *)
Theorem frecency_nearest (len : nat) (ops : list trieOp) (address : bytes) :
  Forall (fun o => length (trieKey o) = len) ops ->
  let t := foldl applyTrie None ops in
  let m := foldl applyFrames ∅ ops in
  let l := FindNearestAndApproximateNeighbors t address in
  (forall a, Contains t a = bool_decide (is_Some (m !! a))) /\
  (forall a x, m !! a = Some x -> Get t a = valueOf a x) /\
  NoDup l /\ (forall v, v ∈ l <-> exists a x, m !! a = Some x /\ v = valueOf a x) /\
  StronglySorted (nearer address) l /\
  (forall a x, m !! a = Some x -> nearer address (FindNearest t address) (valueOf a x)).
Proof.
  intros Hops t m l. pose proof (represents_run len ops Hops) as Ht. fold t m in Ht.
  pose proof (walk_represents t m Ht) as [Hnd Hin].
  assert (l ≡ₚ Walk (trieOf t) (fun _ v ret => (false, ret ++ [v])) []) as Hp
    by apply merge_sort_Permutation.
  assert (StronglySorted (nearer address) l) as Hs by (apply (StronglySorted_merge_sort _); apply _).
  assert (forall v, v ∈ l <-> exists a x, m !! a = Some x /\ v = valueOf a x) as Hl by (intros v; by rewrite Hp).
  split; [|split; [|split; [by rewrite Hp|split; [done|split; [done|]]]]].
  - intros a. unfold Contains. rewrite (critbit_Get_spec _ _ a Ht), lookup_values. by destruct (m !! a).
  - intros a x Hx. unfold Get. by rewrite (critbit_Get_spec _ _ a Ht), lookup_values, Hx.
  - intros a x Hx. assert (valueOf a x ∈ l) as Hv by (apply Hl; eauto). unfold FindNearest. fold l.
    destruct Hs as [|y l' _ Hy]; [by apply not_elem_of_nil in Hv|].
    apply elem_of_cons in Hv as [->|Hv]; [right; lia|]. by eapply Forall_forall in Hy.
Qed.
End nearest.

Lemma frecency_nearest_witness :
  let ops := [TAdd (key3 0 0 200) 7; TAdd (key3 0 0 2) 8; TAdd (key3 0 0 100) 9; TAdd (key3 0 0 2) 11;
              TRemove (key3 0 0 100)] in
  FindNearest 250 (foldl applyTrie None ops) (key3 0 0 249) = mkValue (key3 0 0 2) 8 11 0 /\
  (forall a x, foldl applyFrames ∅ ops !! a = Some x ->
     nearer 250 (key3 0 0 249) (FindNearest 250 (foldl applyTrie None ops) (key3 0 0 249)) (valueOf a x)).
Proof.
  split; [by vm_compute|].
  apply (frecency_nearest 250 3). by repeat constructor.
Defined.

(** On numbers below the modulus the distance is that on the circle: the least absolute
    difference modulo the modulus. *)
Lemma distance_circular a b p :
  0 <= a < p -> 0 <= b < p ->
  (forall n, AbsoluteModularMinimumDistance a b p <= Z.abs (a - b + n * p)) /\
  exists n, AbsoluteModularMinimumDistance a b p = Z.abs (a - b + n * p).
Proof.
  intros Ha Hb. unfold AbsoluteModularMinimumDistance. split.
  - intros n. assert (n <= -2 \/ n = -1 \/ n = 0 \/ n = 1 \/ 2 <= n) as [Hn|[->|[->|[->|Hn]]]] by lia;
      case_match; nia.
  - case_match; [exists (if a <? b then 1 else -1)|exists 0]; repeat case_match; lia.
Qed.

(** A key above the modulus can have a negative distance, which sorts before that of an
    equal key. *)
Example distance_negative : AbsoluteModularMinimumDistance 0 (250 + 5) 250 = -5.
Proof. reflexivity. Qed.
