(* ===== verification/RewardTrie.v ===== *)
(** * The reward trie (types/tries/reward_critbit_trie.go)

    RewardCritbitTrie on addresses of one length: it is a map from addresses to frames and
    totals, until its last address is removed; the next Add or Remove then panics.  Proved
    by simulation with the crit-bit tree of Critbit.v.  Serialisation (gob), String and
    locks are left out. *)

From S2P Require Import Prelude Critbit CritbitSpec.

Record RewardInternalNode (N : Type) := mkInternal {
  Child0 : N;
  Child1 : N;
  ByteNumber : Z;
  Bits : Z
}.
Arguments mkInternal {N} _ _ _ _.

Record RewardExternalNode := mkExternal {
  Key : bytes;
  EarliestFrame : Z;
  LatestFrame : Z;
  Total : Z
}.

(** Both pointers can be set, or neither. *)
Inductive RewardNode :=
| mkRewardNode (Internal : option (RewardInternalNode RewardNode)) (External : option RewardExternalNode).

Definition External (n : RewardNode) : option RewardExternalNode := match n with mkRewardNode _ e => e end.

(** The field Root. *)
Definition RewardCritbitTrie : Type := option RewardNode.

Definition goRight (address : bytes) (byteNumber bits : Z) : bool :=
  match (if byteNumber <? 0 then None else address !! Z.to_nat byteNumber) with
  | Some b => negb (Z.land (byte_Z b) bits =? 0)
  | None => false
  end.

Fixpoint findNearest (address : bytes) (p : RewardNode) : RewardNode :=
  match p with
  | mkRewardNode (Some (mkInternal c0 c1 bn bits)) _ =>
    if goRight address bn bits then findNearest address c1 else findNearest address c0
  | mkRewardNode None _ => p
  end.

Definition Contains (t : RewardCritbitTrie) (address : bytes) : bool :=
  match t ≫= fun p => External (findNearest address p) with
  | Some e => bool_decide (Key e = address)
  | None => false
  end.

Definition Get (t : RewardCritbitTrie) (address : bytes) : Z * Z * Z :=
  match t ≫= fun p => External (findNearest address p) with
  | Some e => if decide (Key e = address) then (EarliestFrame e, LatestFrame e, Total e) else (0, 0, 0)
  | None => (0, 0, 0)
  end.

(** [b |= b >> 1; b |= b >> 2; b |= b >> 4; b &^ (b >> 1)] *)
Definition highestBit (b : Z) : Z :=
  let b := Z.lor b (Z.shiftr b 1) in
  let b := Z.lor b (Z.shiftr b 2) in
  let b := Z.lor b (Z.shiftr b 4) in
  Z.ldiff b (Z.shiftr b 1).

(** critBit from the byte [byteNumber] on, of the rests of the two keys. *)
Fixpoint critBit_loop (address key : bytes) (byteNumber : Z) : Z * Z :=
  match address, key with
  | l :: address, r :: key =>
    if negb (byte_Z l =? byte_Z r) then (byteNumber, highestBit (Z.lxor (byte_Z l) (byte_Z r)))
    else critBit_loop address key (byteNumber + 1)
  | b :: _, [] => (byteNumber, highestBit (byte_Z b))
  | [], b :: _ => (byteNumber, highestBit (byte_Z b))
  | [], [] => (-1, 0)
  end.

Definition critBit (e : RewardExternalNode) (address : bytes) : Z * Z := critBit_loop address (Key e) 0.

(** Assignment to the external node a search for [address] ends at. *)
Fixpoint setNearest (address : bytes) (e : RewardExternalNode) (p : RewardNode) : RewardNode :=
  match p with
  | mkRewardNode (Some (mkInternal c0 c1 bn bits)) x =>
    if goRight address bn bits then mkRewardNode (Some (mkInternal c0 (setNearest address e c1) bn bits)) x
    else mkRewardNode (Some (mkInternal (setNearest address e c0) c1 bn bits)) x
  | mkRewardNode None _ => mkRewardNode None (Some e)
  end.

(** The loop of Add that finds the place of the new node, and the assignments there.  If
    the new leaf goes right, the external pointer of the place is not cleared. *)
Fixpoint addNode (address : bytes) (byteNumber bits : Z) (e : RewardExternalNode) (p : RewardNode) : RewardNode :=
  let right := goRight address byteNumber bits in
  let leaf := mkRewardNode None (Some e) in
  match p with
  | mkRewardNode (Some (mkInternal c0 c1 bn bts) as i) x =>
    if (byteNumber <? bn) || ((bn =? byteNumber) && (bts <? bits)) then
      let old := mkRewardNode i None in
      mkRewardNode (Some (if right then mkInternal old leaf byteNumber bits
                          else mkInternal leaf old byteNumber bits)) x
    else if goRight address bn bts
         then mkRewardNode (Some (mkInternal c0 (addNode address byteNumber bits e c1) bn bts)) x
         else mkRewardNode (Some (mkInternal (addNode address byteNumber bits e c0) c1 bn bts)) x
  | mkRewardNode None x =>
    let old := mkRewardNode None x in
    if right then mkRewardNode (Some (mkInternal old leaf byteNumber bits)) x
    else mkRewardNode (Some (mkInternal leaf old byteNumber bits)) None
  end.

Definition Add (address : bytes) (latestFrame reward : Z) (t : RewardCritbitTrie) : result RewardCritbitTrie :=
  let e := mkExternal address latestFrame latestFrame reward in
  match t with
  | None => Ok (Some (mkRewardNode None (Some e)))
  | Some root =>
    match External (findNearest address root) with
    | None => Panic
    | Some x =>
      let '(byteNumber, bits) := critBit x address in
      if byteNumber <? 0 then
        let latest := if LatestFrame x <? latestFrame then latestFrame else LatestFrame x in
        let earliest := if latestFrame <? EarliestFrame x then latestFrame else EarliestFrame x in
        Ok (Some (setNearest address (mkExternal (Key x) earliest latest (u64 (Total x + reward))) root))
      else Ok (Some (addNode address byteNumber bits e root))
    end
  end.

(** Remove below [p]: [None] if the address is not there, [Panic] at an empty node. *)
Fixpoint removeNode (address : bytes) (p : RewardNode) : result (option RewardNode) :=
  match p with
  | mkRewardNode None None => Panic
  | mkRewardNode None (Some e) =>
    if decide (Key e = address) then Ok (Some (mkRewardNode None None)) else Ok None
  | mkRewardNode (Some (mkInternal c0 c1 bn bits)) x =>
    if goRight address bn bits then
      r ← removeNode address c1;
      match r, c1 with
      | None, _ => Ok None
      | Some _, mkRewardNode None _ => Ok (Some c0)
      | Some c1', _ => Ok (Some (mkRewardNode (Some (mkInternal c0 c1' bn bits)) x))
      end
    else
      r ← removeNode address c0;
      match r, c0 with
      | None, _ => Ok None
      | Some _, mkRewardNode None _ => Ok (Some c1)
      | Some c0', _ => Ok (Some (mkRewardNode (Some (mkInternal c0' c1 bn bits)) x))
      end
  end.

Definition Remove (address : bytes) (t : RewardCritbitTrie) : result RewardCritbitTrie :=
  match t with
  | None => Ok None
  | Some root =>
    r ← removeNode address root;
    match r with
    | None => Ok (Some root)
    | Some root' => Ok (Some root')
    end
  end.

(** ** Simulation with the crit-bit tree *)

Section induction.
Context (P : RewardNode -> Prop).
Context (PInternal : forall c0 c1 bn bits x, P c0 -> P c1 -> P (mkRewardNode (Some (mkInternal c0 c1 bn bits)) x)).
Context (PExternal : forall x, P (mkRewardNode None x)).

Fixpoint RewardNode_ind' (p : RewardNode) : P p :=
  match p with
  | mkRewardNode (Some (mkInternal c0 c1 bn bits)) x =>
    PInternal c0 c1 bn bits x (RewardNode_ind' c0) (RewardNode_ind' c1)
  | mkRewardNode None x => PExternal x
  end.
End induction.

Definition value (e : RewardExternalNode) : Value :=
  mkValue (Key e) (EarliestFrame e) (LatestFrame e) (Total e).

(** The crit-bit tree below a node; [None] if there is an empty node. *)
Fixpoint abs (p : RewardNode) : option Node :=
  match p with
  | mkRewardNode (Some (mkInternal c0 c1 bn bits)) _ =>
    match abs c0, abs c1 with
    | Some n0, Some n1 => Some (INode n0 n1 bn (255 - bits))
    | _, _ => None
    end
  | mkRewardNode None (Some e) => Some (ENode (Key e) (value e))
  | mkRewardNode None None => None
  end.

(** A node whose keys all have one length. *)
Definition sameLen (len : nat) (n : Node) : Prop := wf n /\ forall k, has n k -> length k = len.

Lemma sameLen_node len c0 c1 pos o :
  sameLen len (INode c0 c1 pos o) -> sameLen len c0 /\ sameLen len c1 /\ 0 <= pos /\ o ∈ bitOthers.
Proof.
  intros [(Hp & Ho & H0 & H1 & _ & Hw0 & Hw1) Hl].
  assert (forall k, has c0 k -> length k = len) as Hl0 by (intros k Hk; apply Hl, has_node; auto).
  assert (forall k, has c1 k -> length k = len) as Hl1 by (intros k Hk; apply Hl, has_node; auto).
  split; [done|]. split; [done|]. split; [done|]. destruct Ho as [?| ->]; [done|]. exfalso.
  pose proof (has_found [] c0 Hw0) as Ha. pose proof (has_found [] c1 Hw1) as Hb.
  pose proof (H0 _ Ha) as Hda. pose proof (H1 _ Hb) as Hdb. apply Hl0 in Ha. apply Hl1 in Hb.
  rewrite direction_len in Hda, Hdb by done. rewrite Ha in Hda. rewrite Hb in Hdb. case_match; lia.
Qed.

Definition landOk (o c : Z) : bool := Bool.eqb (negb (Z.land c (255 - o) =? 0)) (sideOf o c =? 1).

Lemma landOk_all : forallb (fun o => forallb (landOk o) (seqZ 0 256)) bitOthers = true.
Proof. vm_compute. reflexivity. Qed.

(** The test of a bit by its mask. *)
Lemma goRight_direction a bn bits :
  0 <= bn -> 255 - bits ∈ bitOthers -> direction a bn (255 - bits) = if goRight a bn bits then 1 else 0.
Proof.
  intros Hp Ho. rewrite direction_bit by done. unfold goRight, vbyte. replace (bn <? 0) with false by lia.
  destruct (a !! Z.to_nat bn) as [b|]; [|by apply sideOf_zero].
  pose proof landOk_all as H. rewrite forallb_forall in H. specialize (H (255 - bits)).
  rewrite forallb_forall in H. pose proof (byte_Z_range b).
  specialize (H ltac:(by apply list_elem_of_In) (byte_Z b) ltac:(apply list_elem_of_In, elem_of_seqZ; lia)).
  unfold landOk in H. replace (255 - (255 - bits)) with bits in H by lia. apply eqb_prop in H. rewrite H.
  destruct (sideOf_range (255 - bits) (byte_Z b) (or_introl Ho) ltac:(lia)) as [->| ->]; done.
Qed.

(** Takes apart a node that stands for an internal one. *)
Lemma abs_internal c0 c1 bn bits x n :
  abs (mkRewardNode (Some (mkInternal c0 c1 bn bits)) x) = Some n ->
  exists n0 n1, abs c0 = Some n0 /\ abs c1 = Some n1 /\ n = INode n0 n1 bn (255 - bits).
Proof. cbn. destruct (abs c0), (abs c1); try done. intros [= <-]. eauto. Qed.

Lemma findNearest_spec len a p n :
  abs p = Some n -> sameLen len n ->
  exists e, External (findNearest a p) = Some e /\ found a n = (Key e, value e).
Proof.
  revert n. induction p as [c0 c1 bn bits x IH0 IH1|x] using RewardNode_ind'; intros n Hn Hl.
  - apply abs_internal in Hn as (n0 & n1 & H0 & H1 & ->).
    apply sameLen_node in Hl as (Hl0 & Hl1 & Hp & Ho). rewrite found_node, goRight_direction by done.
    cbn [findNearest]. destruct (goRight a bn bits); cbn [Z.eqb]; auto.
  - destruct x as [e|]; [|done]. injection Hn as <-. eauto.
Qed.

Lemma setNearest_spec len a e p n :
  abs p = Some n -> sameLen len n -> Key e = (found a n).1 ->
  abs (setNearest a e p) = Some (setValue a (value e) n).
Proof.
  revert n. induction p as [c0 c1 bn bits x IH0 IH1|x] using RewardNode_ind'; intros n Hn Hl He.
  - apply abs_internal in Hn as (n0 & n1 & H0 & H1 & ->).
    apply sameLen_node in Hl as (Hl0 & Hl1 & Hp & Ho). rewrite found_node, goRight_direction in He by done.
    cbn [setNearest setValue]. rewrite goRight_direction by done.
    destruct (goRight a bn bits); cbn [Z.eqb] in *; cbn.
    + by rewrite H0, (IH1 n1).
    + by rewrite H1, (IH0 n0).
  - destruct x as [y|]; [|done]. injection Hn as <-. cbn in *. by rewrite He.
Qed.

Lemma addNode_spec len a pos bits e p n :
  abs p = Some n -> sameLen len n -> Key e = a ->
  abs (addNode a pos bits e p) =
  Some (insertNode a pos (255 - bits) (ENode a (value e)) (if goRight a pos bits then 0 else 1) n).
Proof.
  revert n. induction p as [c0 c1 bn bts x IH0 IH1|x] using RewardNode_ind'; intros n Hn Hl He.
  - pose proof Hn as Hn'. apply abs_internal in Hn as (n0 & n1 & H0 & H1 & ->).
    apply sameLen_node in Hl as (Hl0 & Hl1 & Hp & Ho). cbn [addNode insertNode].
    replace (255 - bits <? 255 - bts) with (bts <? bits) by (destruct (bts <? bits) eqn:?; lia).
    rewrite (goRight_direction a bn bts) by done.
    destruct (pos <? bn); [|destruct ((bn =? pos) && (bts <? bits))]; cbn [orb].
    1,2: destruct (goRight a pos bits); cbn; rewrite H0, H1, He; done.
    destruct (goRight a bn bts); cbn [Z.eqb]; cbn.
    + by rewrite H0, (IH1 n1).
    + by rewrite H1, (IH0 n0).
  - destruct x as [y|]; [|done]. injection Hn as <-. cbn. destruct (goRight a pos bits); cbn; by rewrite He.
Qed.

Lemma deleteNode_internal k c0 c1 pos o v : deleteNode k (INode c0 c1 pos o) <> Some (v, None).
Proof. cbn. repeat case_match; by intros [=]. Qed.

Lemma reward_removeNode_spec len a p n :
  abs p = Some n -> sameLen len n ->
  match removeNode a p with
  | Ok None => deleteNode a n = None
  | Ok (Some p') => exists v r, deleteNode a n = Some (v, r) /\ abs p' = r /\ (r = None -> p' = mkRewardNode None None)
  | _ => False
  end.
Proof.
  revert n. induction p as [c0 c1 bn bits x IH0 IH1|x] using RewardNode_ind'; intros n Hn Hl.
  - apply abs_internal in Hn as (n0 & n1 & H0 & H1 & ->).
    apply sameLen_node in Hl as (Hl0 & Hl1 & Hp & Ho). cbn [removeNode deleteNode].
    rewrite goRight_direction by done.
    specialize (IH0 n0 H0 Hl0). specialize (IH1 n1 H1 Hl1).
    destruct (goRight a bn bits); cbn [Z.eqb].
    + destruct (removeNode a c1) as [[c1'|]| | |]; try done; cbn; [|by rewrite IH1].
      destruct IH1 as (v & r & Hd & Hr & _). rewrite Hd. destruct c1 as [[[d0 d1 dn db]|] y].
      * apply abs_internal in H1 as (m0 & m1 & _ & _ & ->).
        destruct r as [n1'|]; [|by apply deleteNode_internal in Hd]. eexists _, _. split; [done|].
        cbn. rewrite H0, Hr. done.
      * destruct y as [y|]; [|done]. injection H1 as <-. cbn in Hd. case_decide; [|done].
        injection Hd as <- <-. by eexists _, _.
    + destruct (removeNode a c0) as [[c0'|]| | |]; try done; cbn; [|by rewrite IH0].
      destruct IH0 as (v & r & Hd & Hr & _). rewrite Hd. destruct c0 as [[[d0 d1 dn db]|] y].
      * apply abs_internal in H0 as (m0 & m1 & _ & _ & ->).
        destruct r as [n0'|]; [|by apply deleteNode_internal in Hd]. eexists _, _. split; [done|].
        cbn. rewrite H1, Hr. done.
      * destruct y as [y|]; [|done]. injection H0 as <-. cbn in Hd. case_decide; [|done].
        injection Hd as <- <-. by eexists _, _.
  - destruct x as [e|]; [|done]. injection Hn as <-. cbn. case_decide as E.
    + rewrite decide_True by done. eauto.
    + rewrite decide_False by congruence. done.
Qed.

Lemma critBit_loop_spec a k p0 :
  length a = length k -> 0 <= p0 ->
  match critBit_loop a k p0 with
  | (bn, bits) =>
    (a = k /\ bn = -1) \/
    (a <> k /\ exists i, bn = p0 + i /\ 0 <= i /\ bits = highestBit (Z.lxor (vbyte k i) (vbyte a i)) /\
       vbyte k i <> vbyte a i /\ forall j, 0 <= j < i -> vbyte k j = vbyte a j)
  end.
Proof.
  revert k p0. induction a as [|l a IH]; intros [|r k] p0 Hl Hp; cbn in Hl; try lia; cbn [critBit_loop].
  - by left.
  - destruct (byte_Z l =? byte_Z r) eqn:E; cbn [negb].
    + specialize (IH k (p0 + 1) ltac:(lia) ltac:(lia)). destruct (critBit_loop a k (p0 + 1)) as [bn bits].
      assert (l = r) as -> by (rewrite <- (Z_byte_of l), <- (Z_byte_of r); f_equal; lia).
      destruct IH as [[-> ->]|[Hne (i & -> & Hi & -> & Hd & Heq)]]; [by left|right]. split; [congruence|].
      exists (i + 1). rewrite !vbyte_cons by done. do 4 (split; [done || lia|]). intros j Hj.
      destruct (decide (j = 0)) as [->|]; [done|]. replace j with (j - 1 + 1) by lia.
      rewrite !vbyte_cons by lia. apply Heq. lia.
    + right. split; [intros [=]; subst; lia|]. exists 0. rewrite Z.lxor_comm. do 2 (split; [lia|]).
      split; [done|]. split; [intros Heq; change (byte_Z r = byte_Z l) in Heq; lia|]. lia.
Qed.

Lemma critBit_splits e a :
  length a = length (Key e) ->
  let '(bn, bits) := critBit e a in
  (a = Key e /\ bn = -1) \/
  (a <> Key e /\ 0 <= bn /\ splits a (Key e) bn (255 - bits) /\
   direction (Key e) bn (255 - bits) = if goRight a bn bits then 0 else 1).
Proof.
  intros Hl. unfold critBit. pose proof (critBit_loop_spec a (Key e) 0 Hl ltac:(lia)) as H.
  destruct (critBit_loop a (Key e) 0) as [bn bits].
  destruct H as [?|[Hne (i & -> & Hi & -> & Hd & Heq)]]; [by left|right]. split; [done|]. split; [lia|].
  rewrite Z.add_0_l. pose proof (splits_bit a (Key e) i Hi Hd Heq) as Hs.
  change (Critbit.critBit ?x) with (255 - highestBit x) in Hs. split; [done|].
  set (b := highestBit _) in *. destruct Hs as (_ & Ho & Hdir & _).
  destruct (critBit_spec _ _ (vbyte_range (Key e) i) (vbyte_range a i) Hd) as (Hob & _).
  change (Critbit.critBit ?x) with (255 - highestBit x) in Hob. fold b in Hob.
  rewrite (goRight_direction a i) in Hdir by done.
  destruct (direction_range (Key e) i (255 - b) Hi Ho) as [E|E]; rewrite E in *; by case_match.
Qed.

(** ** Specification *)

Inductive rewardOp :=
| RAdd (address : bytes) (latestFrame reward : Z)
| RRemove (address : bytes).

Definition rewardKey (o : rewardOp) : bytes := match o with RAdd a _ _ => a | RRemove a => a end.

Definition applyReward (o : rewardOp) (t : RewardCritbitTrie) : result RewardCritbitTrie :=
  match o with RAdd a f r => Add a f r t | RRemove a => Remove a t end.

(** The first and last frame and the total of an address after Add. *)
Definition addReward (f r : Z) (x : option (Z * Z * Z)) : Z * Z * Z :=
  match x with
  | None => (f, f, r)
  | Some (earliest, latest, total) => (Z.min earliest f, Z.max latest f, u64 (total + r))
  end.

(** The map with whether an address was ever added; once it is empty again every
    operation panics. *)
Definition specReward (o : rewardOp) (s : bool * gmap bytes (Z * Z * Z)) : result (bool * gmap bytes (Z * Z * Z)) :=
  let '(used, m) := s in
  if used && bool_decide (m = ∅) then Panic
  else
    match o with
    | RAdd a f r => Ok (true, <[a := addReward f r (m !! a)]> m)
    | RRemove a => Ok (used, delete a m)
    end.

Fixpoint runRewards {S} (f : rewardOp -> S -> result S) (ops : list rewardOp) (s : S) : result S :=
  match ops with
  | [] => Ok s
  | o :: ops => s ← f o s; runRewards f ops s
  end.

Definition rewardValue (a : bytes) (x : Z * Z * Z) : Value := mkValue a x.1.1 x.1.2 x.2.

Definition rewardValues (m : gmap bytes (Z * Z * Z)) : gmap bytes Value := map_imap (fun a x => Some (rewardValue a x)) m.

Lemma lookup_rewardValues (m : gmap bytes (Z * Z * Z)) a : rewardValues m !! a = rewardValue a <$> m !! a.
Proof. unfold rewardValues. rewrite map_lookup_imap. by destruct (m !! a). Qed.

Definition simulates (len : nat) (t : RewardCritbitTrie) (s : bool * gmap bytes (Z * Z * Z)) : Prop :=
  match t with
  | None => s = (false, ∅)
  | Some p => s.1 = true /\
    match abs p with
    | None => p = mkRewardNode None None /\ s.2 = ∅
    | Some n => sameLen len n /\ contents n = rewardValues s.2
    end
  end.

Lemma rewardValues_insert (m : gmap bytes (Z * Z * Z)) a x :
  <[a := rewardValue a x]> (rewardValues m) = rewardValues (<[a := x]> m).
Proof.
  apply map_eq. intros k. rewrite lookup_rewardValues. destruct (decide (k = a)) as [->|].
  - by rewrite !lookup_insert_eq.
  - by rewrite !lookup_insert_ne, lookup_rewardValues.
Qed.

Lemma rewardValues_delete (m : gmap bytes (Z * Z * Z)) a : delete a (rewardValues m) = rewardValues (delete a m).
Proof.
  apply map_eq. intros k. rewrite lookup_rewardValues. destruct (decide (k = a)) as [->|].
  - by rewrite !lookup_delete_eq.
  - by rewrite !lookup_delete_ne, lookup_rewardValues.
Qed.

Lemma rewards_nonempty (len : nat) (n : Node) (m : gmap bytes (Z * Z * Z)) : sameLen len n -> contents n = rewardValues m -> m <> ∅.
Proof.
  intros [Hwf _] Hc ->. destruct (has_found [] n Hwf) as [v Hv]. by rewrite Hc, lookup_rewardValues in Hv.
Qed.

(** The tree after an insertion. *)
Lemma simulates_insert (len : nat) (a : bytes) (x : Z * Z * Z) (n n' : Node) (p : RewardNode) (m : gmap bytes (Z * Z * Z)) :
  length a = len -> sameLen len n -> contents n = rewardValues m ->
  abs p = Some n' -> wf n' -> contents n' = <[a := rewardValue a x]> (contents n) ->
  simulates len (Some p) (true, <[a := x]> m).
Proof.
  intros Ha [Hwf Hl] Hc Hp Hwf' Hc'. split; [done|]. rewrite Hp. rewrite Hc, rewardValues_insert in Hc'.
  split; [|done]. split; [done|]. intros k. unfold has. rewrite Hc', lookup_rewardValues, fmap_is_Some.
  intros [->|Hk]%lookup_insert_is_Some'; [done|]. apply Hl. unfold has. by rewrite Hc, lookup_rewardValues, fmap_is_Some.
Qed.

Lemma simulates_Add len a f r t s :
  length a = len -> simulates len t s ->
  match Add a f r t with
  | Ok t' => exists s', specReward (RAdd a f r) s = Ok s' /\ simulates len t' s'
  | Panic => specReward (RAdd a f r) s = Panic
  | _ => False
  end.
Proof.
  intros Ha Ht. destruct t as [p|]; cbn [Add].
  2:{ cbn in Ht. subst s. cbn. eexists. split; [done|]. split; [done|]. cbn.
      split; [split; [done|]|].
      - by intros k ->%has_leaf.
      - apply map_eq. intros k. rewrite lookup_rewardValues. destruct (decide (k = a)) as [->|].
        + by rewrite !lookup_insert_eq.
        + by rewrite !lookup_insert_ne. }
  destruct s as [used m]. cbn in Ht. destruct Ht as [-> Ht]. destruct (abs p) as [n|] eqn:Hn.
  2:{ destruct Ht as [-> ->]. done. }
  destruct Ht as [Hl Hc]. destruct (findNearest_spec len a p n Hn Hl) as (e & -> & He).
  pose proof (has_found a n ltac:(apply Hl)) as Hin. rewrite He in Hin. cbn in Hin.
  pose proof (rewards_nonempty len n m Hl Hc) as Hne. unfold specReward. rewrite bool_decide_false by done. cbn [andb].
  pose proof (found_in a n ltac:(apply Hl)) as Hv. rewrite He in Hv. cbn [fst snd] in Hv.
  assert (length a = length (Key e)) as Hlen by (rewrite Ha; symmetry; by apply Hl).
  pose proof (critBit_splits e a Hlen) as Hs. destruct (critBit e a) as [bn bits].
  destruct Hs as [[Heq ->]|(Hd & Hbn & Hs & Hdir)]; cbn [Z.ltb Z.compare].
  - eexists. split; [done|]. subst a. rewrite Hc, lookup_rewardValues in Hv.
    destruct (m !! Key e) as [[[x y] z]|]; [|done]. unfold rewardValue, value in Hv. cbn in Hv.
    injection Hv as -> -> ->.
    destruct (setValue_spec (Key e) (rewardValue (Key e) (addReward f r (Some (EarliestFrame e, LatestFrame e, Total e)))) n)
      as [Hw Hcn]; [apply Hl|done|].
    eapply simulates_insert; [done..| |exact Hw|exact Hcn].
    rewrite (setNearest_spec len (Key e) _ p n Hn Hl) by (rewrite He; done).
    do 2 f_equal. unfold value, rewardValue, addReward. cbn [fst snd Key EarliestFrame LatestFrame Total].
    f_equal; case_match; lia.
  - replace (bn <? 0) with false by lia. eexists. split; [done|].
    assert (contents n !! a = None) as Hnone.
    { destruct (contents n !! a) as [v|] eqn:E; [|done].
      rewrite (found_hit a n v ltac:(apply Hl) E) in He. by injection He. }
    rewrite Hc, lookup_rewardValues in Hnone. destruct (m !! a) eqn:Hm; [done|].
    destruct (critbit_insertNode_spec a (rewardValue a (f, f, r)) bn (255 - bits) n) as [Hw Hcn].
    + apply Hl.
    + intros [v Hv']. by rewrite Hc, lookup_rewardValues, Hm in Hv'.
    + by rewrite He.
    + intros k Hk [Hlt _]. apply Hl in Hk. lia.
    + eapply simulates_insert; [done..| |exact Hw|exact Hcn].
      rewrite (addNode_spec len a bn bits _ p n Hn Hl) by done. rewrite He. cbn [fst]. by rewrite Hdir.
Qed.

Lemma simulates_Remove len a t s :
  simulates len t s ->
  match Remove a t with
  | Ok t' => exists s', specReward (RRemove a) s = Ok s' /\ simulates len t' s'
  | Panic => specReward (RRemove a) s = Panic
  | _ => False
  end.
Proof.
  intros Ht. destruct t as [p|]; cbn [Remove].
  2:{ cbn in Ht. subst s. cbn. eexists. split; [done|]. cbn. by rewrite delete_empty. }
  destruct s as [used m]. cbn in Ht. destruct Ht as [-> Ht]. destruct (abs p) as [n|] eqn:Hn.
  2:{ by destruct Ht as [-> ->]. }
  destruct Ht as [Hl Hc]. pose proof (rewards_nonempty len n m Hl Hc) as Hne.
  unfold specReward. rewrite bool_decide_false by done. cbn [andb].
  pose proof (reward_removeNode_spec len a p n Hn Hl) as Hr. pose proof (deleteNode_spec a n ltac:(apply Hl)) as Hd.
  destruct (removeNode a p) as [[p'|]| | |]; try done; cbn.
  - destruct Hr as (v & r & Hr & Hp' & Hleaf). rewrite Hr in Hd. destruct Hd as [Hv Hd].
    eexists. split; [done|]. split; [done|]. rewrite Hp'. destruct r as [n'|].
    + destruct Hd as [Hw Hcn]. rewrite Hc, rewardValues_delete in Hcn. split; [|done]. split; [done|].
      intros k. unfold has. rewrite Hcn, lookup_rewardValues, fmap_is_Some. intros [x [_ Hk]%lookup_delete_Some].
      apply Hl. unfold has. rewrite Hc, lookup_rewardValues, Hk. done.
    + split; [by apply Hleaf|]. rewrite Hc, rewardValues_delete in Hd. cbn.
      apply map_eq. intros k. apply (f_equal (.!! k)) in Hd. rewrite lookup_rewardValues, lookup_empty in Hd.
      rewrite lookup_empty. by destruct (_ !! k).
  - rewrite Hr in Hd. eexists. split; [done|]. split; [done|]. rewrite Hn. cbn.
    rewrite Hc, lookup_rewardValues in Hd. rewrite delete_id; [done|]. by destruct (m !! a).
Qed.

(** On addresses of one length the reward trie is a map from addresses to first
    frame, last frame and total, as Contains and Get read it; but once the last address
    has been removed every further Add and every further Remove panics. *)
Theorem reward_trie_exact (len : nat) (ops : list rewardOp) :
  Forall (fun o => length (rewardKey o) = len) ops ->
  match runRewards applyReward ops None, runRewards specReward ops (false, ∅) with
  | Ok t, Ok (_, m) => forall a, Contains t a = bool_decide (is_Some (m !! a)) /\ Get t a = default (0, 0, 0) (m !! a)
  | Panic, Panic => True
  | _, _ => False
  end.
Proof.
  intros Hops.
  assert (forall t s, simulates len t s ->
    match runRewards applyReward ops t, runRewards specReward ops s with
    | Ok t, Ok s => simulates len t s
    | Panic, Panic => True
    | _, _ => False
    end) as Hrun.
  { induction Hops as [|o ops Ho _ IH]; intros t s Ht; [done|]. cbn [runRewards].
    destruct o as [a f r|a]; cbn [applyReward rewardKey] in *.
    - pose proof (simulates_Add len a f r t s Ho Ht) as Ha.
      destruct (Add a f r t) as [t'| | |]; try done; [|by rewrite Ha].
      destruct Ha as (s' & -> & Ht'). apply (IH t' s' Ht').
    - pose proof (simulates_Remove len a t s Ht) as Ha.
      destruct (Remove a t) as [t'| | |]; try done; [|by rewrite Ha].
      destruct Ha as (s' & -> & Ht'). apply (IH t' s' Ht'). }
  specialize (Hrun None (false, ∅) eq_refl).
  destruct (runRewards applyReward ops None) as [t| | |], (runRewards specReward ops (false, ∅)) as [[used m]| | |];
    try done.
  intros a. unfold Contains, Get. destruct t as [p|]; cbn [mbind option_bind].
  2:{ injection Hrun as -> ->. done. }
  cbn in Hrun. destruct Hrun as [_ Hrun]. destruct (abs p) as [n|] eqn:Hn.
  2:{ destruct Hrun as [-> ->]. done. }
  destruct Hrun as [Hl Hc]. destruct (findNearest_spec len a p n Hn Hl) as (e & -> & He).
  pose proof (found_in a n ltac:(apply Hl)) as Hv. rewrite He in Hv. cbn [fst snd] in Hv.
  rewrite Hc, lookup_rewardValues in Hv. destruct (decide (Key e = a)) as [<-|Hne].
  - destruct (m !! Key e) as [[[x y] z]|]; [|done]. unfold rewardValue, value in Hv. cbn in Hv.
    injection Hv as -> -> ->. split; [|done]. by rewrite bool_decide_true.
  - rewrite bool_decide_false by done. destruct (m !! a) as [x|] eqn:E; [|done]. exfalso.
    rewrite (found_hit a n (rewardValue a x)) in He; [|apply Hl|by rewrite Hc, lookup_rewardValues, E].
    by injection He.
Qed.

(** Two addresses and a repeated reward; and the panic after the removal of the only
    address. *)
Lemma reward_trie_exact_witness :
  (exists t, runRewards applyReward [RAdd (key3 1 2 3) 7 10; RAdd (key3 1 2 200) 8 5; RAdd (key3 1 2 3) 6 1] None = Ok t /\
     Get t (key3 1 2 3) = (6, 7, 11)) /\
  runRewards applyReward [RAdd (key3 1 2 3) 7 10; RRemove (key3 1 2 3); RAdd (key3 1 2 3) 8 1] None = Panic.
Proof.
  pose proof (reward_trie_exact 3 [RAdd (key3 1 2 3) 7 10; RAdd (key3 1 2 200) 8 5; RAdd (key3 1 2 3) 6 1]
                ltac:(by repeat constructor)) as H.
  split; [|by vm_compute].
  destruct (runRewards applyReward _ _) as [t| | |] eqn:E; try by vm_compute in E.
  exists t. split; [done|]. destruct (H (key3 1 2 3)) as [_ ->]. by vm_compute.
Defined.
