(* ===== verification/RewardIssuance.v ===== *)
(** * Reward issuance (node/consensus/reward)

    PomwBasis, GetBaselineFee and the three implementations of RewardIssuance: the
    reference, the one that caches square roots, and the one that also accumulates in
    decimals.  Decimal numbers are those of a third-party library and a parameter.  The
    allocations of a prover are a Go map: a list in the order it is visited.  The
    goroutines of the provers write to different places and share only the cache of square
    roots, whose entries do not depend on who computes them. *)

From Stdlib Require Import QArith.
From S2P Require Import Prelude.

(** shopspring/decimal.  NewFromInt, NewFromUint64 and NewFromBigInt with exponent zero all
    give the number itself; [None] is an error of PowWithPrecision. *)
Class Decimal (D : Type) := {
  ofInt : Z -> D;
  Div : D -> D -> D;
  Mul : D -> D -> D;
  Add : D -> D -> D;
  Zero : D;
  IsZero : D -> bool;
  PowWithPrecision : D -> D -> Z -> option D;
  NewFromBigRat : Z -> Z -> Z -> D;
  BigInt : D -> Z
}.

Record ProverAllocation := mkAlloc {
  Ring : Z;
  Shards : Z;
  StateSize : Z
}.

(** [for i := uint8(0); i < ring+1; i++ { divisor *= 2 }] on an int64. *)
Definition ringDivisor (ring : Z) : Z := Nat.iter (Z.to_nat (u8 (ring + 1))) (fun d => i64 (d * 2)) 1.

(** The loop that counts the generation; a uint64 needs at most five rounds. *)
Fixpoint generation_loop (fuel : nat) (difflog generation : Z) : Z :=
  match fuel with
  | O => generation
  | S fuel => if 10000 <=? difflog then generation_loop fuel (difflog / 10000) (generation + 1) else generation
  end.

Definition generation (difficulty : Z) : Z := generation_loop 5 difficulty 0.

Section reward.
Context {D : Type} `{Decimal D}.

(** Div panics if the divisor is zero. *)
Definition div (x y : D) : result D := if IsZero y then Panic else Ok (Div x y).

Definition PomwBasis (difficulty worldStateBytes units : Z) : result Z :=
  normalized ← div (ofInt 1125899906842624) (ofInt worldStateBytes);
  let expdenom := Nat.iter (Z.to_nat (generation difficulty)) (fun d => i64 (d * 2)) 1 in
  exp ← div (ofInt 1) (ofInt expdenom);
  match PowWithPrecision normalized exp 53 with
  | None => Ok 0
  | Some result => Ok (BigInt (Mul result (ofInt units)))
  end.

Definition GetBaselineFee (difficulty worldStateBytes totalAdded units : Z) : result Z :=
  current ← PomwBasis difficulty worldStateBytes units;
  affected ← PomwBasis difficulty (u64 (worldStateBytes + totalAdded)) units;
  let delta := current - affected in
  let num := delta ^ 2 in
  let denom := i64 worldStateBytes in
  lhs ← (if denom =? 0 then Panic else Ok (Z.quot num denom));
  let rhs := i64 totalAdded in
  Ok (if rhs <=? lhs then lhs else rhs).

(** ** One allocation *)

(** The decimal expression common to the implementations, without the square root. *)
Definition ringShare (basis worldStateBytes : Z) (alloc : ProverAllocation) (ringScaled : D) : result D :=
  factor ← div (ofInt (StateSize alloc)) (ofInt worldStateBytes);
  div (Mul factor (ofInt basis)) ringScaled.

Definition sqrtOf (shards : Z) : option D := PowWithPrecision (ofInt shards) (NewFromBigRat 1 2 53) 53.

(** Waits for all goroutines: a panic stops the program, otherwise the first error is
    returned. *)
Fixpoint wait {A} (rs : list (result A)) : result (list A) :=
  match rs with
  | [] => Ok []
  | r :: rs =>
    match r, wait rs with
    | Ok x, Ok xs => Ok (x :: xs)
    | Panic, _ => Panic
    | _, Panic => Panic
    | Diverge, _ => Diverge
    | _, Diverge => Diverge
    | Err e, _ => Err e
    | _, Err e => Err e
    end
  end.

(** ** The reference implementation *)

Fixpoint refProver (basis worldStateBytes : Z) (allocs : list ProverAllocation) (output : Z) : result Z :=
  match allocs with
  | [] => Ok output
  | alloc :: allocs =>
    share ← ringShare basis worldStateBytes alloc (ofInt (ringDivisor (Ring alloc)));
    match sqrtOf (Shards alloc) with
    | None => Err "pow"
    | Some shardFactor =>
      if IsZero shardFactor then Err "divisor is zero"
      else
        result ← div share shardFactor;
        refProver basis worldStateBytes allocs (output + BigInt result)
    end
  end.

Definition RefCalculate (difficulty worldStateBytes units : Z) (provers : list (list ProverAllocation))
    : result (list Z) :=
  basis ← PomwBasis difficulty worldStateBytes units;
  wait ((fun allocs => refProver basis worldStateBytes allocs 0) <$> provers).

(** ** The implementation with a cache *)

(** getSqrt: the square root and the cache after the call. *)
Definition getSqrt (shards : Z) (sqrtCache : gmap Z D) : option D * gmap Z D :=
  match sqrtCache !! shards with
  | Some sqrt => (Some sqrt, sqrtCache)
  | None =>
    match sqrtOf shards with
    | None => (None, sqrtCache)
    | Some sqrt => (Some sqrt, <[shards := sqrt]> sqrtCache)
    end
  end.

Fixpoint optProver (basis worldStateBytes : Z) (allocs : list ProverAllocation) (output : Z)
    (sqrtCache : gmap Z D) : result Z * gmap Z D :=
  match allocs with
  | [] => (Ok output, sqrtCache)
  | alloc :: allocs =>
    match ringShare basis worldStateBytes alloc (ofInt (ringDivisor (Ring alloc))) with
    | Ok share =>
      match getSqrt (Shards alloc) sqrtCache with
      | (None, sqrtCache) => (Err "pow", sqrtCache)
      | (Some shardFactor, sqrtCache) =>
        if IsZero shardFactor then (Err "divisor is zero", sqrtCache)
        else
          match div share shardFactor with
          | Ok result => optProver basis worldStateBytes allocs (output + BigInt result) sqrtCache
          | Err e => (Err e, sqrtCache)
          | Panic => (Panic, sqrtCache)
          | Diverge => (Diverge, sqrtCache)
          end
      end
    | Err e => (Err e, sqrtCache)
    | Panic => (Panic, sqrtCache)
    | Diverge => (Diverge, sqrtCache)
    end
  end.

Fixpoint optProvers (basis worldStateBytes : Z) (provers : list (list ProverAllocation)) (sqrtCache : gmap Z D)
    : list (result Z) * gmap Z D :=
  match provers with
  | [] => ([], sqrtCache)
  | allocs :: provers =>
    let '(r, sqrtCache) := optProver basis worldStateBytes allocs 0 sqrtCache in
    let '(rs, sqrtCache) := optProvers basis worldStateBytes provers sqrtCache in
    (r :: rs, sqrtCache)
  end.

Definition OptCalculate (difficulty worldStateBytes units : Z) (provers : list (list ProverAllocation))
    (sqrtCache : gmap Z D) : result (list Z) * gmap Z D :=
  match PomwBasis difficulty worldStateBytes units with
  | Ok basis =>
    let '(rs, sqrtCache) := optProvers basis worldStateBytes provers sqrtCache in
    (wait rs, sqrtCache)
  | Err e => (Err e, sqrtCache)
  | Panic => (Panic, sqrtCache)
  | Diverge => (Diverge, sqrtCache)
  end.

(** ** The implementation that accumulates decimals *)

(** The table of ring divisors; its last entry is never written. *)
Definition ringDivisors (i : Z) : D :=
  if i =? 0 then ofInt 1
  else if i <? 255 then ofInt (if i <? 64 then i64 (2 ^ i) else 0)
  else Zero.

Fixpoint minProver (basis worldStateBytes : Z) (allocs : list ProverAllocation) (accumulator : D) : result Z :=
  match allocs with
  | [] => Ok (BigInt accumulator)
  | alloc :: allocs =>
    share ← ringShare basis worldStateBytes alloc (ringDivisors (u8 (Ring alloc + 1)));
    match sqrtOf (Shards alloc) with
    | None => Err "pow" (* found before the provers are visited *)
    | Some shardFactor =>
      if IsZero shardFactor then Err "divisor is zero"
      else
        result ← div share shardFactor;
        minProver basis worldStateBytes allocs (Add accumulator result)
    end
  end.

(** The missing square roots are computed first; an error returns at once. *)
Definition MinCalculate (difficulty worldStateBytes units : Z) (provers : list (list ProverAllocation))
    : result (list Z) :=
  basis ← PomwBasis difficulty worldStateBytes units;
  if existsb (fun a => match sqrtOf (Shards a) with None => true | Some _ => false end) (concat provers)
  then Err "pow"
  else wait ((fun allocs => minProver basis worldStateBytes allocs Zero) <$> provers).

(** The baseline fee is never less than the number of bytes added. *)
Lemma baseline_fee_bound difficulty w added units fee :
  0 <= added < 2 ^ 63 -> GetBaselineFee difficulty w added units = Ok fee -> added <= fee.
Proof.
  intros Ha Hf. unfold GetBaselineFee in Hf.
  apply result_bind_Ok in Hf as (current & _ & Hf). apply result_bind_Ok in Hf as (affected & _ & Hf).
  apply result_bind_Ok in Hf as (lhs & _ & Hf). injection Hf as <-.
  assert (i64 added = added) as -> by (apply swrap_small; [lia|unfold is_i; lia]).
  case_match; lia.
Qed.

(** ** The cache is transparent *)

(** What is cached is what would be computed. *)
Definition cacheOk (sqrtCache : gmap Z D) : Prop :=
  forall shards sqrt, sqrtCache !! shards = Some sqrt -> sqrtOf shards = Some sqrt.

Lemma getSqrt_spec shards sqrtCache :
  cacheOk sqrtCache -> (getSqrt shards sqrtCache).1 = sqrtOf shards /\ cacheOk (getSqrt shards sqrtCache).2.
Proof.
  intros Hc. unfold getSqrt. destruct (sqrtCache !! shards) as [q|] eqn:E; [split; [symmetry; by apply Hc|done]|].
  destruct (sqrtOf shards) as [q|] eqn:Eq; [|done]. split; [done|]. cbn. intros s q'.
  destruct (decide (s = shards)) as [->|Hne]; [rewrite lookup_insert_eq; congruence|].
  rewrite lookup_insert_ne by done. apply Hc.
Qed.

Lemma optProver_spec basis w allocs output sqrtCache :
  cacheOk sqrtCache ->
  (optProver basis w allocs output sqrtCache).1 = refProver basis w allocs output /\
  cacheOk (optProver basis w allocs output sqrtCache).2.
Proof.
  revert output sqrtCache. induction allocs as [|alloc allocs IH]; intros output sqrtCache Hc; [done|].
  cbn [optProver refProver]. destruct (ringShare _ _ _ _) as [share| | |]; try done. cbn [mbind result_bind].
  destruct (getSqrt_spec (Shards alloc) sqrtCache Hc) as [Hs Hc'].
  destruct (getSqrt (Shards alloc) sqrtCache) as [r c']. cbn in Hs, Hc'. subst r.
  destruct (sqrtOf (Shards alloc)) as [q|]; [|done]. destruct (IsZero q); [done|].
  destruct (div share q) as [x| | |]; try done. by apply IH.
Qed.

Lemma optProvers_spec basis w provers sqrtCache :
  cacheOk sqrtCache ->
  (optProvers basis w provers sqrtCache).1 = ((fun allocs => refProver basis w allocs 0) <$> provers) /\
  cacheOk (optProvers basis w provers sqrtCache).2.
Proof.
  revert sqrtCache. induction provers as [|allocs provers IH]; intros sqrtCache Hc; [done|]. cbn [optProvers fmap list_fmap].
  destruct (optProver_spec basis w allocs 0 sqrtCache Hc) as [Hr Hc'].
  destruct (optProver basis w allocs 0 sqrtCache) as [r c']. cbn in Hr, Hc'. subst r.
  destruct (IH c' Hc') as [Hrs Hc'']. destruct (optProvers basis w provers c') as [rs c'']. cbn in *. by subst.
Qed.

(** The implementation that caches square roots returns exactly what the reference
    implementation returns, errors and panics included, whatever earlier calls have left
    in the cache, and keeps the cache correct. *)
Theorem cached_rewards_exact difficulty w units provers sqrtCache :
  cacheOk sqrtCache ->
  (OptCalculate difficulty w units provers sqrtCache).1 = RefCalculate difficulty w units provers /\
  cacheOk (OptCalculate difficulty w units provers sqrtCache).2.
Proof.
  intros Hc. unfold OptCalculate, RefCalculate. destruct (PomwBasis _ _ _) as [basis| | |]; try done.
  cbn [mbind result_bind]. destruct (optProvers_spec basis w provers sqrtCache Hc) as [Hr Hc'].
  destruct (optProvers basis w provers sqrtCache) as [rs c']. cbn in *. by subst.
Qed.

(** ** The order of the allocations *)

(** What one allocation contributes. *)
Definition contribution (basis w : Z) (alloc : ProverAllocation) : result Z :=
  share ← ringShare basis w alloc (ofInt (ringDivisor (Ring alloc)));
  match sqrtOf (Shards alloc) with
  | None => Err "pow"
  | Some shardFactor =>
    if IsZero shardFactor then Err "divisor is zero" else BigInt <$> div share shardFactor
  end.

Lemma refProver_cons basis w alloc allocs output :
  refProver basis w (alloc :: allocs) output =
  (x ← contribution basis w alloc; refProver basis w allocs (output + x)).
Proof.
  cbn [refProver]. unfold contribution. destruct (ringShare _ _ _ _); try done. cbn [mbind result_bind].
  destruct (sqrtOf _) as [q|]; [|done]. destruct (IsZero q); [done|]. by destruct (div _ _).
Qed.

Lemma refProver_sum basis w allocs output x :
  refProver basis w allocs output = Ok x <->
  exists xs, Forall2 (fun a y => contribution basis w a = Ok y) allocs xs /\ x = output + foldr Z.add 0 xs.
Proof.
  revert output x. induction allocs as [|a allocs IH]; intros output x.
  - cbn. split.
    + intros [= <-]. exists []. split; [constructor|cbn; lia].
    + intros (xs & Hxs & ->). inversion Hxs; subst. cbn. f_equal. lia.
  - rewrite refProver_cons. split.
    + intros Hx. apply result_bind_Ok in Hx as (y & Hy & (xs & Hxs & ->)%IH).
      exists (y :: xs). split; [by constructor|cbn; lia].
    + intros (xs & Hxs & ->). inversion Hxs as [|? y ? ys Hy Hys]; subst. rewrite Hy. cbn [mbind result_bind].
      apply IH. exists ys. split; [done|cbn; lia].
Qed.

(** The reward of a prover does not depend on the order in which its allocations are
    visited. *)
Lemma reward_order_irrelevant basis w allocs allocs' x :
  allocs ≡ₚ allocs' -> refProver basis w allocs 0 = Ok x -> refProver basis w allocs' 0 = Ok x.
Proof.
  intros Hp (xs & Hxs & ->)%refProver_sum. apply refProver_sum.
  revert xs Hxs. induction Hp as [|a l l' _ IH|a b l|l l' l'' _ IH1 _ IH2]; intros xs Hxs.
  - eauto.
  - inversion Hxs as [|? y ? ys Hy Hys]; subst. destruct (IH ys Hys) as (ys' & Hys' & Heq).
    exists (y :: ys'). split; [by constructor|cbn; lia].
  - inversion Hxs as [|? y ? ys Hy Hys]; subst. inversion Hys as [|? z ? zs Hz Hzs]; subst.
    exists (z :: y :: zs). split; [by repeat constructor|cbn; lia].
  - destruct (IH1 xs Hxs) as (ys & Hys & ->). apply IH2. done.
Qed.
End reward.

(** ** Machine integers *)

(** The ring divisor is 2^(ring+1) up to ring 61; for ring 62 it is negative, for
    rings 63 to 254 it is zero, which makes the division panic, and for ring 255 it is 1. *)
Theorem ring_divisor_exact (ring : Z) :
  is_u 8 ring ->
  ringDivisor ring =
  if ring <=? 61 then 2 ^ (ring + 1) else if ring =? 62 then - 2 ^ 63 else if ring <=? 254 then 0 else 1.
Proof.
  intros Hr. assert (forallb (fun r => ringDivisor r =?
    (if r <=? 61 then 2 ^ (r + 1) else if r =? 62 then - 2 ^ 63 else if r <=? 254 then 0 else 1)) (seqZ 0 256) = true)
    as Hall by (vm_compute; reflexivity).
  rewrite forallb_forall in Hall. apply Z.eqb_eq, Hall. apply list_elem_of_In, elem_of_seqZ.
  unfold is_u in Hr. lia.
Qed.

(** The generation of a difficulty is its logarithm to the base 10000. *)
Lemma generation_spec d :
  is_u 64 d -> 1 <= d -> 10000 ^ generation d <= d < 10000 ^ (generation d + 1).
Proof.
  intros Hu Hd. unfold is_u in Hu.
  assert (forall fuel x g, 1 <= x -> 0 <= g -> x * 10000 ^ g <= d < (x + 1) * 10000 ^ g -> x < 10000 ^ Z.of_nat fuel ->
            10000 ^ generation_loop fuel x g <= d < 10000 ^ (generation_loop fuel x g + 1)) as Hloop.
  { induction fuel as [|fuel IH]; intros x g Hx Hg Hb Hf; [cbn in Hf; lia|]. cbn [generation_loop].
    assert (0 < 10000 ^ g) as Hpow by (apply Z.pow_pos_nonneg; lia).
    destruct (10000 <=? x) eqn:E.
    - assert (x = 10000 * (x / 10000) + x mod 10000) as Hdm by (apply Z.div_mod; lia).
      pose proof (Z.mod_pos_bound x 10000 ltac:(lia)) as Hm.
      assert (10000 ^ (g + 1) = 10000 * 10000 ^ g) as Hs by (rewrite Z.pow_add_r by lia; lia).
      apply IH; [lia|lia|rewrite Hs; nia|].
      rewrite Nat2Z.inj_succ, Z.pow_succ_r in Hf by lia. lia.
    - rewrite Z.pow_add_r by lia. change (10000 ^ 1) with 10000. nia. }
  apply (Hloop 5%nat d 0); [done|lia|cbn; lia|]. apply (Z.lt_trans _ (2 ^ 64)); [lia|done].
Qed.

(** ** Exact rationals as decimals *)

(** Exact arithmetic, with the powers the examples need. *)
#[local] Instance rational : Decimal Q := {|
  ofInt z := inject_Z z;
  Div := Qdiv;
  Mul := Qmult;
  Add := Qplus;
  Zero := inject_Z 0;
  IsZero q := Qnum q =? 0;
  PowWithPrecision q e _ := if Qeq_bool e (inject_Z 1) || Qeq_bool q (inject_Z 1) then Some q else None;
  NewFromBigRat a b _ := Qdiv (inject_Z a) (inject_Z b);
  BigInt q := Z.quot (Qnum q) (Zpos (Qden q))
|}.

Definition halfWorld : ProverAllocation := mkAlloc 0 1 (2 ^ 49).

Lemma cached_rewards_exact_witness :
  (OptCalculate 1000 (2 ^ 50) 3 [[halfWorld; halfWorld]] {[ 1 := inject_Z 1 ]}).1 =
  RefCalculate (D := Q) 1000 (2 ^ 50) 3 [[halfWorld; halfWorld]].
Proof.
  apply cached_rewards_exact. intros s q. rewrite lookup_singleton_Some. by intros [<- <-].
Defined.

Lemma ring_divisor_exact_witness : ringDivisor 61 = 2 ^ 62 /\ ringDivisor 255 = 1.
Proof.
  split; [apply (ring_divisor_exact 61)|apply (ring_divisor_exact 255)]; by vm_compute.
Defined.

(** The implementation that accumulates decimals rounds once and not per allocation, so it
    can return more than the reference. *)
Example decimal_rewards_differ :
  RefCalculate (D := Q) 1000 (2 ^ 50) 2 [[halfWorld; halfWorld]] = Ok [0] /\
  MinCalculate (D := Q) 1000 (2 ^ 50) 2 [[halfWorld; halfWorld]] = Ok [1].
Proof. split; vm_compute; reflexivity. Qed.
