(* ===== verification/Proposer.v ===== *)
(** * Allocation of workers to shards (node/consensus/provers/proposer.go)

    Manager.PlanAndAllocate: the free workers, the scores of the shards, their order, and
    the proposals.  The worker store, the world size and the worker manager are interfaces
    and arguments.  A *big.Int that may be nil is an option; (nil).Cmp(nil) is 0. *)

From Stdlib Require Import QArith.
From stdpp Require Import sorting.
From S2P Require Import Prelude RewardIssuance.

Inductive Strategy := RewardGreedy | DataGreedy.

Record ShardDescriptor := mkShard {
  Filter : bytes;
  Size : Z;
  ShardRing : Z;
  ShardShards : Z
}.

Record Proposal := mkProposal {
  WorkerId : Z;
  ProposalFilter : bytes;
  ExpectedReward : option Z;
  WorldStateBytes : Z;
  ShardSizeBytes : Z;
  ProposalRing : Z;
  ShardsDenominator : Z
}.

(** The fields of a WorkerInfo that are read. *)
Record WorkerInfo := mkWorker { CoreId : Z; Allocated : bool }.

(** bytes.Compare *)
Fixpoint bytesCompare (a b : bytes) : comparison :=
  match a, b with
  | [], [] => Eq
  | [], _ :: _ => Lt
  | _ :: _, [] => Gt
  | x :: a, y :: b => match byte_Z x ?= byte_Z y with Eq => bytesCompare a b | c => c end
  end.

(** Cmp of scores, which are both nil or both set. *)
Definition scoreCompare (x y : option Z) : comparison :=
  match x, y with
  | Some x, Some y => x ?= y
  | _, _ => Eq
  end.

Record scored := mkScored { shard : ShardDescriptor; score : option Z }.

(** The order of the sort: [x] does not come after [y]. *)
Definition ranked (x y : scored) : bool :=
  match scoreCompare (score x) (score y) with
  | Gt => true
  | Lt => false
  | Eq => match bytesCompare (Filter (shard x)) (Filter (shard y)) with Gt => false | _ => true end
  end.

Definition notAfter (x y : scored) : Prop := ranked x y = true.

#[export] Instance notAfter_dec x y : Decision (notAfter x y).
Proof. unfold notAfter. apply _. Defined.

Section plan.
Context {D : Type} `{Decimal D}.

(** The loop over the shards.  In the default case the score is assigned to a variable of
    the inner block and the outer one stays nil; the computation changes [basis] in
    place. *)
Fixpoint scoreShards (strategy : Strategy) (worldBytes basis : Z) (shards : list ShardDescriptor)
    : result (list scored) :=
  match shards with
  | [] => Ok []
  | s :: shards =>
    if (Z.of_nat (length (Filter s)) =? 0) || (Size s =? 0)
    then scoreShards strategy worldBytes basis shards
    else
      match strategy with
      | DataGreedy =>
        rest ← scoreShards strategy worldBytes basis shards;
        Ok (mkScored s (Some (i64 (Size s))) :: rest)
      | RewardGreedy =>
        let denominator := if ShardShards s =? 0 then 1 else ShardShards s in
        factor ← quo (i64 (Size s)) worldBytes;
        match sqrtOf (D := D) denominator with
        | None => Err "pow"
        | Some shardsSqrt =>
          if IsZero shardsSqrt then Err "plan and allocate"
          else
            b ← quo (basis * factor) (ringDivisor (ShardRing s));
            b ← quo b (BigInt shardsSqrt);
            rest ← scoreShards strategy worldBytes b shards;
            Ok (mkScored s None :: rest)
        end
      end
  end.

Definition freeWorkers (all : list WorkerInfo) : list Z :=
  CoreId <$> filter (fun w => Allocated w = false) all.

(** The proposals for the best shards, one per free worker. *)
Definition plan (worldBytes : Z) (free : list Z) (maxAllocations : Z) (scores : list scored) : list Proposal :=
  let limit := Z.of_nat (length free) in
  let limit := if (0 <? maxAllocations) && (maxAllocations <? limit) then maxAllocations else limit in
  let limit := if Z.of_nat (length scores) <? limit then Z.of_nat (length scores) else limit in
  let sorted := merge_sort notAfter scores in
  (fun x => mkProposal x.1 (Filter (shard x.2)) (score x.2) (u64 worldBytes) (Size (shard x.2))
              (ShardRing (shard x.2)) (ShardShards (shard x.2)))
    <$> zip (take (Z.to_nat limit) free) (take (Z.to_nat limit) sorted).

(** [workers] is what RangeWorkers returns, [accepts] says for which workers
    ProposeAllocation succeeds. *)
Definition PlanAndAllocate (strategy : Strategy) (units : Z) (workers : result (list WorkerInfo)) (worldBytes : Z)
    (accepts : Z -> bytes -> bool) (difficulty : Z) (shards : list ShardDescriptor) (maxAllocations : Z)
    : result (list Proposal) :=
  if Z.of_nat (length shards) =? 0 then Ok []
  else
    all ← workers;
    let free := freeWorkers all in
    if Z.of_nat (length free) =? 0 then Ok []
    else if worldBytes =? 0 then Err "world size is zero"
    else
      basis ← PomwBasis (D := D) difficulty (u64 worldBytes) units;
      scores ← scoreShards strategy worldBytes basis shards;
      if Z.of_nat (length scores) =? 0 then Ok []
      else Ok (filter (fun p => accepts (WorkerId p) (ProposalFilter p) = true) (plan worldBytes free maxAllocations scores)).

(** ** What is planned *)

Definition validShards (shards : list ShardDescriptor) : list ShardDescriptor :=
  filter (fun s => Filter s <> [] /\ Size s <> 0) shards.

Definition scoreOf (strategy : Strategy) (s : ShardDescriptor) : option Z :=
  match strategy with DataGreedy => Some (i64 (Size s)) | RewardGreedy => None end.

Lemma scoreShards_spec strategy w basis shards scores :
  scoreShards strategy w basis shards = Ok scores ->
  scores = (fun s => mkScored s (scoreOf strategy s)) <$> validShards shards.
Proof.
  revert basis scores. induction shards as [|s shards IH]; intros basis scores Hs; [by injection Hs as <-|].
  cbn [scoreShards] in Hs. unfold validShards. rewrite filter_cons.
  destruct ((Z.of_nat (length (Filter s)) =? 0) || (Size s =? 0)) eqn:E.
  - rewrite decide_False; [by eapply IH|]. intros [Hf Hz]. apply orb_true_iff in E as [E|E]; [by destruct (Filter s)|lia].
  - apply orb_false_iff in E as [E1 E2].
    rewrite decide_True by (split; [intros Hn; by rewrite Hn in E1|lia]).
    fold (validShards shards). destruct strategy; cbn [scoreOf].
    + apply result_bind_Ok in Hs as (factor & _ & Hs). destruct (sqrtOf _) as [q|]; [|done].
      destruct (IsZero q); [done|]. apply result_bind_Ok in Hs as (b & _ & Hs).
      apply result_bind_Ok in Hs as (b' & _ & Hs). apply result_bind_Ok in Hs as (rest & Hr & Hs).
      injection Hs as <-. by rewrite (IH _ _ Hr).
    + apply result_bind_Ok in Hs as (rest & Hr & Hs). injection Hs as <-. by rewrite (IH _ _ Hr).
Qed.

(** How many allocations are attempted. *)
Definition planned (free shards : nat) (maxAllocations : Z) : nat :=
  Nat.min shards (if 0 <? maxAllocations then Nat.min free (Z.to_nat maxAllocations) else free).
End plan.

Lemma bytesCompare_antisym a b : bytesCompare b a = CompOpp (bytesCompare a b).
Proof.
  revert b. induction a as [|x a IH]; intros [|y b]; try done. cbn. rewrite Z.compare_antisym.
  destruct (byte_Z x ?= byte_Z y); cbn; auto.
Qed.

Lemma bytesCompare_trans a b c : bytesCompare a b <> Gt -> bytesCompare b c <> Gt -> bytesCompare a c <> Gt.
Proof.
  revert b c. induction a as [|x a IH]; intros [|y b] [|z c]; try done. cbn.
  destruct (Z.compare_spec (byte_Z x) (byte_Z y)), (Z.compare_spec (byte_Z y) (byte_Z z)),
    (Z.compare_spec (byte_Z x) (byte_Z z)); try done; try lia. apply IH.
Qed.

(** Scores that are all nil or all set. *)
Definition uniformScores (x y : scored) : Prop := is_Some (score x) <-> is_Some (score y).

Lemma notAfter_spec x y :
  uniformScores x y ->
  notAfter x y <->
  match score x, score y with
  | Some a, Some b => b < a \/ (a = b /\ bytesCompare (Filter (shard x)) (Filter (shard y)) <> Gt)
  | _, _ => bytesCompare (Filter (shard x)) (Filter (shard y)) <> Gt
  end.
Proof.
  intros Hu. unfold uniformScores in Hu. unfold notAfter, ranked, scoreCompare.
  destruct (score x) as [a|], (score y) as [b|].
  - destruct (Z.compare_spec a b); destruct (bytesCompare _ _); split; intros; try done; try lia; auto;
      intuition (try done; try lia).
  - by destruct (proj1 Hu ltac:(eauto)).
  - by destruct (proj2 Hu ltac:(eauto)).
  - destruct (bytesCompare _ _); split; done.
Qed.

(** The order in which shards are chosen: with DataGreedy by decreasing size and then by
    filter, with RewardGreedy by filter alone. *)
Definition shardOrder (strategy : Strategy) (x y : ShardDescriptor) : Prop :=
  match strategy with
  | RewardGreedy => bytesCompare (Filter x) (Filter y) <> Gt
  | DataGreedy => i64 (Size y) < i64 (Size x) \/
      (i64 (Size x) = i64 (Size y) /\ bytesCompare (Filter x) (Filter y) <> Gt)
  end.

Lemma shardOrder_spec strategy x y :
  notAfter (mkScored x (scoreOf strategy x)) (mkScored y (scoreOf strategy y)) <-> shardOrder strategy x y.
Proof. rewrite notAfter_spec by (destruct strategy; split; eauto). by destruct strategy. Qed.

#[export] Instance shardOrder_trans strategy : Transitive (shardOrder strategy).
Proof.
  intros x y z. unfold shardOrder. destruct strategy; [apply bytesCompare_trans|].
  intros [?|[? ?]] [?|[? ?]]; [left; lia..|]. right. split; [lia|]. by eapply bytesCompare_trans.
Qed.

#[export] Instance notAfter_total : Total notAfter.
Proof.
  intros x y. unfold notAfter, ranked.
  assert (scoreCompare (score y) (score x) = CompOpp (scoreCompare (score x) (score y))) as ->.
  { unfold scoreCompare. destruct (score x), (score y); try done. apply Z.compare_antisym. }
  rewrite (bytesCompare_antisym (Filter (shard x)) (Filter (shard y))).
  destruct (scoreCompare _ _); cbn; auto. destruct (bytesCompare _ _); cbn; auto.
Qed.

(** The shards in the order of the sorted scores. *)
Lemma sorted_shards strategy l :
  let f s := mkScored s (scoreOf strategy s) in
  exists sorted, merge_sort notAfter (f <$> l) = f <$> sorted /\ sorted ≡ₚ l /\
    StronglySorted (shardOrder strategy) sorted.
Proof.
  intros f. pose proof (merge_sort_Permutation notAfter (f <$> l)) as Hp.
  pose proof (Sorted_merge_sort notAfter (f <$> l)) as Hs.
  set (L := merge_sort notAfter (f <$> l)) in *.
  destruct (Permutation_map_inv f l Hp) as (sorted & HL & Hl).
  exists sorted. split; [done|]. split; [by symmetry|]. apply Sorted_StronglySorted; [apply _|].
  change (map f sorted) with (f <$> sorted) in HL. rewrite HL in Hs. clear -Hs.
  induction sorted as [|x sorted IH]; [constructor|]. cbn in Hs. inversion Hs as [|?? Hs' Hx]; subst.
  constructor; [auto|]. destruct sorted as [|y sorted]; [constructor|]. constructor.
  inversion Hx; subst. by apply shardOrder_spec.
Qed.

(** A proposal for a worker and a shard. *)
Definition proposalFor (strategy : Strategy) (worldBytes w : Z) (s : ShardDescriptor) : Proposal :=
  mkProposal w (Filter s) (scoreOf strategy s) (u64 worldBytes) (Size s) (ShardRing s) (ShardShards s).

Lemma plan_spec strategy w free maxAllocations l sorted :
  let f s := mkScored s (scoreOf strategy s) in
  merge_sort notAfter (f <$> l) = f <$> sorted ->
  plan w free maxAllocations (f <$> l) =
  (fun x => proposalFor strategy w x.1 x.2) <$>
    (let k := planned (length free) (length l) maxAllocations in zip (take k free) (take k sorted)).
Proof.
  intros f Hs. unfold plan. rewrite Hs, length_fmap. cbn zeta.
  set (k := Z.to_nat _).
  replace k with (planned (length free) (length l) maxAllocations).
  2:{ subst k. unfold planned. repeat case_match; lia. }
  rewrite <- fmap_take, zip_with_fmap_r. generalize (take (planned (length free) (length l) maxAllocations) free).
  generalize (take (planned (length free) (length l) maxAllocations) sorted).
  intros ss ws. revert ws. induction ss as [|s ss IH]; intros [|x ws]; cbn; try done. f_equal. apply IH.
Qed.

Section plan_order.
Context {D : Type} `{Decimal D}.

(** PlanAndAllocate gives the first free workers, in order, the valid shards in the
    order of the strategy, as many as there are free workers, shards and allocations
    allowed, and returns those the worker manager accepts.  With DataGreedy the order is by
    decreasing size and then by filter.  With RewardGreedy it is by filter alone: rings,
    sizes and shard counts, and with them the rewards, play no role, and the expected
    reward is nil. *)
Theorem plan_order strategy units all worldBytes accepts difficulty shards maxAllocations ps :
  PlanAndAllocate (D := D) strategy units (Ok all) worldBytes accepts difficulty shards maxAllocations = Ok ps ->
  exists sorted, sorted ≡ₚ validShards shards /\ StronglySorted (shardOrder strategy) sorted /\
    let free := freeWorkers all in
    let k := planned (length free) (length (validShards shards)) maxAllocations in
    ps = filter (fun p => accepts (WorkerId p) (ProposalFilter p) = true)
           ((fun x => proposalFor strategy worldBytes x.1 x.2) <$> zip (take k free) (take k sorted)).
Proof.
  destruct (sorted_shards strategy (validShards shards)) as (sorted & Hm & Hp & Hs).
  intros Hplan. exists sorted. split; [done|]. split; [done|]. cbn zeta. unfold PlanAndAllocate in Hplan.
  set (free := freeWorkers all). set (k := planned (length free) (length (validShards shards)) maxAllocations).
  assert (length free = 0%nat \/ length (validShards shards) = 0%nat -> k = 0%nat) as Hk.
  { unfold k, planned. destruct (0 <? maxAllocations)%Z; lia. }
  destruct (Z.of_nat (length shards) =? 0) eqn:E0.
  { injection Hplan as <-. rewrite Hk; [done|right]. by destruct shards. }
  cbn [mbind result_bind] in Hplan. fold free in Hplan.
  destruct (Z.of_nat (length free) =? 0) eqn:E1; [injection Hplan as <-; rewrite Hk; [done|lia]|].
  destruct (worldBytes =? 0); [done|]. apply result_bind_Ok in Hplan as (basis & _ & Hplan).
  apply result_bind_Ok in Hplan as (scores & Hsc & Hplan). apply scoreShards_spec in Hsc as ->.
  rewrite length_fmap in Hplan. destruct (Z.of_nat (length (validShards shards)) =? 0) eqn:E2.
  { injection Hplan as <-. rewrite Hk; [done|lia]. }
  injection Hplan as <-. by rewrite (plan_spec _ _ _ _ _ sorted Hm).
Qed.
End plan_order.

(** A large shard with the later filter and a tiny one with the earlier filter. *)
Definition demoShards : list ShardDescriptor := [mkShard [Byte.x02] 1000000 0 1; mkShard [Byte.x01] 1 5 1].

#[local] Existing Instance rational.

(** The only free worker gets the tiny shard with RewardGreedy, the large one with
    DataGreedy. *)
Lemma plan_order_witness :
  exists ps, PlanAndAllocate (D := Q) RewardGreedy 1 (Ok [mkWorker 7 false]) (2 ^ 50) (fun _ _ => true) 1000
               demoShards 0 = Ok ps /\
    ProposalFilter <$> ps = [[Byte.x01]] /\
    exists sorted, sorted ≡ₚ validShards demoShards /\ StronglySorted (shardOrder RewardGreedy) sorted /\
      ps = filter (fun p => true = true)
             ((fun x => proposalFor RewardGreedy (2 ^ 50) x.1 x.2) <$> zip (take 1 [7]) (take 1 sorted)).
Proof.
  eexists. split; [vm_compute; reflexivity|]. split; [reflexivity|].
  apply (plan_order (D := Q) RewardGreedy 1 [mkWorker 7 false] (2 ^ 50) (fun _ _ => true) 1000 demoShards 0).
  vm_compute. reflexivity.
Defined.

Example data_greedy_chooses_large :
  exists ps, PlanAndAllocate (D := Q) DataGreedy 1 (Ok [mkWorker 7 false]) (2 ^ 50) (fun _ _ => true) 1000
               demoShards 0 = Ok ps /\ ProposalFilter <$> ps = [[Byte.x02]].
Proof. eexists. split; [vm_compute; reflexivity|reflexivity]. Qed.
