(* ===== verification/ForkChoice.v ===== *)
(** * Choice between branches (node/consensus/time/fork_choice.go)

    The score of a branch from the distances, seniorities and provers of its frames, and
    the choice of the branch to extend.  Scores are big integers; a zero denominator among
    the parameters is a panic. *)

From S2P Require Import Prelude.

Definition SCALE : Z := 0xffffffffffffffff.

Record Frame := mkFrame {
  Distance : Z;
  Seniority : Z;
  ProverAddress : bytes
}.

Definition Branch := list Frame.

Record Params := mkParams {
  RMax : Z;
  WrNumer : Z;
  WpNumer : Z;
  WDenom : Z;
  AlNumer : Z;
  AlDenom : Z;
  BlendWindow : Z;
  BetaNumer : Z;
  BetaDenom : Z;
  Epsilon : Z
}.

Definition DefaultForkChoiceParams : Params := mkParams (2 ^ 64 - 1) 7 3 10 9 10 5 1 10 0.

Definition rhoScaled (rank rMax : Z) : result Z :=
  tmp ← quo ((rMax - rank) * SCALE) rMax;
  Ok (if tmp <? 0 then 0 else if SCALE <? tmp then SCALE else tmp).

Definition clamp (x lo hi : Z) : Z := if x <? lo then lo else if hi <? x then hi else x.

(** One round of the loop over the frames, oldest first. *)
Definition addFrame (cfg : Params) (raw : Z) (frame : Frame) : result Z :=
  rho ← rhoScaled (Distance frame) (RMax cfg);
  let pi := clamp (Seniority frame) 0 SCALE in
  frameScore ← quo (WrNumer cfg * rho + WpNumer cfg * pi) (WDenom cfg);
  decayed ← quo (raw * AlNumer cfg) (AlDenom cfg);
  Ok (decayed + frameScore).

Fixpoint rawScore (cfg : Params) (raw : Z) (frames : Branch) : result Z :=
  match frames with
  | [] => Ok raw
  | frame :: frames => raw ← addFrame cfg raw frame; rawScore cfg raw frames
  end.

(** The provers of the last [m] frames that are not evicted. *)
Definition blenders (m : Z) (br : Branch) : list bytes :=
  remove_dups (ProverAddress <$>
    filter (fun f => 0 < Seniority f) (drop (Z.to_nat (Z.of_nat (length br) - m)) br)).

Definition branchScore (br : Branch) (cfg : Params) : result Z :=
  if Z.of_nat (length br) =? 0 then Ok 0
  else
    raw ← rawScore cfg 0 br;
    let m := if Z.of_nat (length br) <? BlendWindow cfg then Z.of_nat (length br) else BlendWindow cfg in
    if m =? 0 then Ok 0
    else
      blendScaled ← quo (Z.of_nat (length (blenders m br)) * SCALE) (u64 m);
      bonus ← quo (BetaNumer cfg * blendScaled) (BetaDenom cfg);
      quo (raw * (SCALE + bonus)) SCALE.

Fixpoint forkLoop (cfg : Params) (i : Z) (branches : list Branch) (bestIdx bestScore : Z) : result Z :=
  match branches with
  | [] => Ok bestIdx
  | br :: branches =>
    score ← branchScore br cfg;
    if bestScore + Epsilon cfg <? score
    then forkLoop cfg (i + 1) branches i score
    else forkLoop cfg (i + 1) branches bestIdx bestScore
  end.

Definition ForkChoice (branches : list Branch) (cfg : Params) (prevChoice : Z) : result Z :=
  bestScore ← (if prevChoice <? Z.of_nat (length branches)
               then br ← index branches prevChoice; branchScore br cfg
               else Ok 0);
  forkLoop cfg 0 branches prevChoice bestScore.

(** ** Scores *)

(** Parameters without zero denominators. *)
Definition paramsOk (cfg : Params) : Prop :=
  0 < RMax cfg /\ 0 <= WrNumer cfg /\ 0 <= WpNumer cfg /\ 0 < WDenom cfg /\ 0 <= AlNumer cfg /\ 0 < AlDenom cfg /\
  0 <= BlendWindow cfg < 2 ^ 63 /\ 0 <= BetaNumer cfg /\ 0 < BetaDenom cfg /\ 0 <= Epsilon cfg.

#[export] Instance paramsOk_dec cfg : Decision (paramsOk cfg).
Proof. unfold paramsOk. apply _. Defined.

Lemma clamp_range x lo hi : lo <= hi -> lo <= clamp x lo hi <= hi.
Proof. intros. unfold clamp. destruct (Z.ltb_spec x lo), (Z.ltb_spec hi x); lia. Qed.

Lemma rhoScaled_spec rank rMax :
  0 < rMax -> rhoScaled rank rMax = Ok (clamp (Z.quot ((rMax - rank) * SCALE) rMax) 0 SCALE).
Proof. intros. unfold rhoScaled. by rewrite quo_Ok by done. Qed.

(** [f'] counts at least as much as [f]. *)
Definition better (f f' : Frame) : Prop :=
  Distance f' <= Distance f /\ Seniority f <= Seniority f' /\ ProverAddress f = ProverAddress f'.

Section scores.
Context (cfg : Params) (Hcfg : paramsOk cfg).

Lemma addFrame_spec raw f :
  exists s, 0 <= s <= (WrNumer cfg + WpNumer cfg) * SCALE / WDenom cfg /\
    addFrame cfg raw f = Ok (Z.quot (raw * AlNumer cfg) (AlDenom cfg) + s) /\
    forall f' raw', better f f' -> raw <= raw' ->
      exists s', s <= s' /\ addFrame cfg raw' f' = Ok (Z.quot (raw' * AlNumer cfg) (AlDenom cfg) + s').
Proof.
  destruct Hcfg as (?&?&?&?&?&?&?&?&?&?).
  assert (forall g, addFrame cfg raw g = Ok (Z.quot (raw * AlNumer cfg) (AlDenom cfg) +
     Z.quot (WrNumer cfg * clamp (Z.quot ((RMax cfg - Distance g) * SCALE) (RMax cfg)) 0 SCALE +
        WpNumer cfg * clamp (Seniority g) 0 SCALE) (WDenom cfg))) as Hadd.
  { intros g. unfold addFrame. rewrite rhoScaled_spec by done. cbn. by rewrite !quo_Ok by done. }
  eexists. split; [|split; [apply Hadd|]].
  - pose proof (clamp_range (Z.quot ((RMax cfg - Distance f) * SCALE) (RMax cfg)) 0 SCALE ltac:(done)).
    pose proof (clamp_range (Seniority f) 0 SCALE ltac:(done)).
    rewrite Z.quot_div_nonneg by nia. split; [apply Z.div_pos; nia|apply Z.div_le_mono; nia].
  - intros f' raw' (Hd & Hs & _) Hr. clear Hadd.
    eexists. split; [|unfold addFrame; rewrite rhoScaled_spec by done; cbn; by rewrite !quo_Ok by done].
    apply Z.quot_le_mono; [lia|].
    assert (forall x y, x <= y -> clamp x 0 SCALE <= clamp y 0 SCALE) as Hc.
    { intros x y Hxy. unfold clamp. destruct (Z.ltb_spec x 0), (Z.ltb_spec SCALE x), (Z.ltb_spec y 0), (Z.ltb_spec SCALE y); unfold SCALE in *; lia. }
    apply Z.add_le_mono; apply Z.mul_le_mono_nonneg_l; try done; apply Hc; [|done].
    apply Z.quot_le_mono; [done|]. unfold SCALE. nia.
Qed.

Lemma rawScore_spec raw br :
  0 <= raw ->
  exists s, 0 <= s /\ rawScore cfg raw br = Ok s /\
    forall br' raw', Forall2 better br br' -> raw <= raw' -> exists s', s <= s' /\ rawScore cfg raw' br' = Ok s'.
Proof.
  destruct Hcfg as (_&_&_&_&?&?&_).
  revert raw. induction br as [|f br IH]; intros raw Hraw.
  { exists raw. split; [done|]. split; [done|]. intros br' raw' Hb Hr. inversion Hb; subst. eauto. }
  destruct (addFrame_spec raw f) as (s & Hs & Hadd & Hmono).
  assert (0 <= Z.quot (raw * AlNumer cfg) (AlDenom cfg)) by (apply Z.quot_pos; nia).
  destruct (IH (Z.quot (raw * AlNumer cfg) (AlDenom cfg) + s)) as (t & Ht & Hraw' & Hmono'); [lia|].
  exists t. split; [done|]. cbn [rawScore]. rewrite Hadd. split; [done|].
  intros br' raw' Hb Hr. inversion Hb as [|? f' ? br'' Hf Hb']; subst.
  destruct (Hmono f' raw' Hf Hr) as (s' & Hs' & Hadd'). cbn [rawScore]. rewrite Hadd'. apply (Hmono' br''); [done|].
  apply Z.add_le_mono; [|done]. apply Z.quot_le_mono; [done|nia].
Qed.

Lemma blenders_mono m br br' :
  Forall2 better br br' -> (length (blenders m br) <= length (blenders m br'))%nat.
Proof.
  intros Hb. apply submseteq_length, NoDup_submseteq; [apply NoDup_remove_dups|].
  intros a. unfold blenders. rewrite !elem_of_remove_dups, !list_elem_of_fmap. rewrite <- (Forall2_length _ _ _ Hb).
  intros (f & -> & [Hs Hf]%list_elem_of_filter).
  pose proof (Forall2_drop _ _ _ (Z.to_nat (Z.of_nat (length br) - m)) Hb) as Hd.
  apply list_elem_of_lookup in Hf as (i & Hi). destruct (Forall2_lookup_l _ _ _ _ _ Hd Hi) as (f' & Hi' & ? & ? & ?).
  exists f'. split; [done|]. apply list_elem_of_filter. split; [lia|]. by eapply list_elem_of_lookup_2.
Qed.

Lemma branchScore_spec br :
  exists s, 0 <= s /\ branchScore br cfg = Ok s /\
    forall br', Forall2 better br br' -> exists s', s <= s' /\ branchScore br' cfg = Ok s'.
Proof.
  destruct (rawScore_spec 0 br ltac:(done)) as (raw & Hraw & Hr & Hmono).
  destruct Hcfg as (_&_&_&_&_&_&Hw&?&?&_).
  assert (forall br', length br' = length br -> forall raw', rawScore cfg 0 br' = Ok raw' -> 0 <= raw' ->
     let m := Z.min (Z.of_nat (length br)) (BlendWindow cfg) in
     branchScore br' cfg = Ok (if m =? 0 then 0 else
       Z.quot (raw' * (SCALE + Z.quot (BetaNumer cfg * Z.quot (Z.of_nat (length (blenders m br')) * SCALE) m) (BetaDenom cfg))) SCALE)) as Hscore.
  { intros br' Hl raw' Hr' Hp m. unfold branchScore. rewrite Hl.
    destruct (Z.eqb_spec (Z.of_nat (length br)) 0) as [E|E]; [by replace m with 0 by lia|].
    rewrite Hr'. cbn [mbind result_bind].
    replace (if Z.of_nat (length br) <? BlendWindow cfg then Z.of_nat (length br) else BlendWindow cfg) with m
      by (unfold m; destruct (Z.ltb_spec (Z.of_nat (length br)) (BlendWindow cfg)); lia).
    destruct (Z.eqb_spec m 0); [done|]. assert (u64 m = m) as -> by (apply uwrap_small; unfold is_u; lia).
    rewrite (quo_Ok _ m) by lia. cbn [mbind result_bind]. by rewrite !quo_Ok by done. }
  set (m := Z.min (Z.of_nat (length br)) (BlendWindow cfg)) in *.
  eexists. split; [|split; [by apply Hscore|]].
  - destruct (Z.eqb_spec m 0); [done|]. apply Z.quot_pos; [|done]. apply Z.mul_nonneg_nonneg; [done|].
    apply Z.add_nonneg_nonneg; [done|]. apply Z.quot_pos; [|done]. apply Z.mul_nonneg_nonneg; [done|].
    apply Z.quot_pos; [unfold SCALE|]; lia.
  - intros br' Hb. destruct (Hmono br' 0 Hb ltac:(done)) as (raw' & Hle & Hr').
    eexists. split; [|apply (Hscore br' (eq_sym (Forall2_length _ _ _ Hb)) raw' Hr'); lia].
    pose proof (blenders_mono m br br' Hb).
    destruct (Z.eqb_spec m 0); [done|]. apply Z.quot_le_mono; [done|]. apply Z.mul_le_mono_nonneg; [done..| |].
    + apply Z.add_nonneg_nonneg; [done|]. apply Z.quot_pos; [|done]. apply Z.mul_nonneg_nonneg; [done|].
      apply Z.quot_pos; [unfold SCALE|]; lia.
    + apply Z.add_le_mono; [done|]. apply Z.quot_le_mono; [done|]. apply Z.mul_le_mono_nonneg_l; [done|].
      apply Z.quot_le_mono; [|unfold SCALE]; lia.
Qed.
End scores.

(** Bringing the frames of a branch nearer or raising their seniorities never lowers its
    score. *)
Lemma branch_score_monotone cfg br br' s s' :
  paramsOk cfg -> Forall2 better br br' ->
  branchScore br cfg = Ok s -> branchScore br' cfg = Ok s' -> s <= s'.
Proof.
  intros Hcfg Hb Hs Hs'. destruct (branchScore_spec cfg Hcfg br) as (t & _ & Ht & Hm).
  destruct (Hm br' Hb) as (t' & Hle & Ht'). congruence.
Qed.

(** ** The choice *)

Definition scoreAt (cfg : Params) (branches : list Branch) (i : Z) (s : Z) : Prop :=
  exists br, index branches i = Ok br /\ branchScore br cfg = Ok s.

(** The loop, started with the best of the branches before [i]: [done] are those. *)
Lemma forkLoop_spec cfg branches seen bestIdx bestScore :
  paramsOk cfg -> scoreAt cfg (seen ++ branches) bestIdx bestScore ->
  (forall j s, 0 <= j < Z.of_nat (length seen) -> scoreAt cfg (seen ++ branches) j s -> s <= bestScore + Epsilon cfg) ->
  exists i s, forkLoop cfg (Z.of_nat (length seen)) branches bestIdx bestScore = Ok i /\
    scoreAt cfg (seen ++ branches) i s /\
    (forall j t, scoreAt cfg (seen ++ branches) j t -> t <= s + Epsilon cfg) /\
    (i = bestIdx \/ bestScore + Epsilon cfg < s /\ Z.of_nat (length seen) <= i /\
       forall j t, j < i -> scoreAt cfg (seen ++ branches) j t -> t < s).
Proof.
  intros Hcfg. revert seen bestIdx bestScore. induction branches as [|br branches IH]; intros seen bestIdx bestScore Hbest Hseen.
  { exists bestIdx, bestScore. split; [done|]. split; [done|]. split; [|by left]. intros j t Ht. apply (Hseen j); [|done].
    destruct Ht as (b & [Hj Hb]%index_Ok & _). apply lookup_lt_Some in Hb. rewrite length_app in Hb. cbn in Hb. lia. }
  destruct (branchScore_spec cfg Hcfg br) as (score & Hpos & Hscore & _). cbn [forkLoop]. rewrite Hscore. cbn [mbind result_bind].
  assert (0 <= Epsilon cfg) by apply Hcfg.
  assert (forall s, scoreAt cfg (seen ++ br :: branches) (Z.of_nat (length seen)) s <-> s = score) as Hhere.
  { intros s. unfold scoreAt, index. rewrite decide_False, Nat2Z.id, list_lookup_middle by lia.
    split; [intros (b & Hb & Hs); congruence|intros ->; eauto]. }
  replace (Z.of_nat (length seen) + 1) with (Z.of_nat (length (seen ++ [br]))) by (rewrite length_app; cbn; lia).
  rewrite (cons_middle br seen branches) in *. rewrite app_assoc in *.
  destruct (Z.ltb_spec (bestScore + Epsilon cfg) score) as [Hlt|Hge].
  - destruct (IH (seen ++ [br]) (Z.of_nat (length seen)) score) as (i & s & Hi & Hs & Hmax & Hor).
    { by apply Hhere. }
    { intros j s Hj Hs. rewrite length_app in Hj. cbn in Hj. destruct (decide (j = Z.of_nat (length seen))) as [->|].
      - apply Hhere in Hs. lia.
      - specialize (Hseen j s ltac:(lia) Hs). lia. }
    exists i, s. split; [done|]. split; [done|]. split; [done|]. right.
    destruct Hor as [->|(Hs' & Hi' & Hfirst)].
    + apply Hhere in Hs as ->. split; [done|]. split; [lia|]. intros j t Hj Ht.
      assert (0 <= j) by (destruct Ht as (b & [? _]%index_Ok & _); done). specialize (Hseen j t ltac:(lia) Ht). lia.
    + split; [lia|]. split; [rewrite length_app in Hi'; cbn in Hi'; lia|done].
  - destruct (IH (seen ++ [br]) bestIdx bestScore) as (i & s & Hi & Hs & Hmax & Hor); [done| |].
    { intros j s Hj Hs. rewrite length_app in Hj. cbn in Hj. destruct (decide (j = Z.of_nat (length seen))) as [->|].
      - apply Hhere in Hs. lia.
      - apply (Hseen j s ltac:(lia) Hs). }
    exists i, s. split; [done|]. split; [done|]. split; [done|]. destruct Hor as [->|(Hs' & Hi' & Hfirst)]; [by left|].
    right. split; [lia|]. split; [rewrite length_app in Hi'; cbn in Hi'; lia|done].
Qed.

Lemma ForkChoice_best cfg branches prevChoice :
  paramsOk cfg -> 0 <= prevChoice < Z.of_nat (length branches) ->
  exists i s, ForkChoice branches cfg prevChoice = Ok i /\ scoreAt cfg branches i s /\
    (forall j t, scoreAt cfg branches j t -> t <= s + Epsilon cfg) /\
    (i = prevChoice \/ forall j t, scoreAt cfg branches j t -> (j = prevChoice -> t + Epsilon cfg < s) /\ (j < i -> t < s)).
Proof.
  intros Hcfg Hprev. unfold ForkChoice. rewrite (proj2 (Z.ltb_lt _ _)) by lia.
  destruct (lookup_lt_is_Some_2 branches (Z.to_nat prevChoice) ltac:(lia)) as (br & Hbr).
  assert (index branches prevChoice = Ok br) as -> by (apply index_Ok; split; [lia|done]). cbn [mbind result_bind].
  destruct (branchScore_spec cfg Hcfg br) as (score & _ & Hscore & _). rewrite Hscore.
  assert (forall t, scoreAt cfg branches prevChoice t -> t = score) as Hone.
  { intros t (b & [_ Hb]%index_Ok & Ht). congruence. }
  destruct (forkLoop_spec cfg branches [] prevChoice score Hcfg) as (i & s & Hi & Hs & Hmax & Hor); cbn [length app] in *.
  - exists br. split; [apply index_Ok; split; [lia|done]|done].
  - intros; lia.
  - exists i, s. split; [done|]. split; [done|]. split; [done|]. destruct Hor as [->|(? & _ & Hfirst)]; [by left|].
    right. intros j t Ht. split; [intros ->; by rewrite (Hone t Ht)|]. intros Hj. by apply (Hfirst j).
Qed.

(** ForkChoice, given valid parameters and an index in range, returns the index of a
    branch whose score no branch exceeds by more than the tie margin.  It stays with the
    previous choice unless a branch scores better by more than the margin, and then it
    takes the first branch of that score.  *)
Theorem fork_choice_optimal cfg branches prevChoice :
  paramsOk cfg -> 0 <= prevChoice < Z.of_nat (length branches) ->
  exists i s, ForkChoice branches cfg prevChoice = Ok i /\ scoreAt cfg branches i s /\
    (forall j t, scoreAt cfg branches j t -> t <= s + Epsilon cfg) /\
    (i = prevChoice \/ forall j t, scoreAt cfg branches j t -> (j = prevChoice -> t + Epsilon cfg < s) /\ (j < i -> t < s)).
Proof. apply ForkChoice_best. Qed.

Definition demoFrame (seniority : Z) (a : byte) : Frame := mkFrame 0 seniority [a].
Definition demoBranches : list Branch :=
  [[demoFrame 1 Byte.x01; demoFrame 1 Byte.x01]; [demoFrame 1 Byte.x01; demoFrame 1 Byte.x02]; [demoFrame 1 Byte.x01; demoFrame 1 Byte.x03]].

(** Two different provers beat one; the first such branch wins. *)
Lemma fork_choice_optimal_witness :
  ForkChoice demoBranches DefaultForkChoiceParams 0 = Ok 1 /\
  exists i s, ForkChoice demoBranches DefaultForkChoiceParams 0 = Ok i /\ scoreAt DefaultForkChoiceParams demoBranches i s /\
    (forall j t, scoreAt DefaultForkChoiceParams demoBranches j t -> t <= s + Epsilon DefaultForkChoiceParams) /\
    (i = 0 \/ forall j t, scoreAt DefaultForkChoiceParams demoBranches j t ->
       (j = 0 -> t + Epsilon DefaultForkChoiceParams < s) /\ (j < i -> t < s)).
Proof.
  split; [vm_compute; reflexivity|].
  apply (fork_choice_optimal DefaultForkChoiceParams demoBranches 0); [by_decide|cbn; lia].
Defined.

(** An index out of range is returned as it is if no branch has a positive score. *)
Example fork_choice_out_of_range : ForkChoice [[]; []] DefaultForkChoiceParams 2 = Ok 2.
Proof. reflexivity. Qed.
