(* ===== verification/Stateful.v ===== *)
(** * Stateful operations

    A monad for methods that change the receiver and may fail: the state after the call is
    known also when an error is returned.  [succeeds m s Q] says that [m], run in [s],
    returns without error, panic or divergence, in a state and with a value that satisfy
    [Q]. *)

From S2P Require Import Prelude.

Definition M (S A : Type) : Type := S -> result A * S.

#[export] Instance M_ret {S} : MRet (M S) := fun A a s => (Ok a, s).
#[export] Instance M_bind {S} : MBind (M S) := fun A B f m s =>
  match m s with
  | (Ok a, s) => f a s
  | (Err e, s) => (Err e, s)
  | (Panic, s) => (Panic, s)
  | (Diverge, s) => (Diverge, s)
  end.

Section operations.
Context {S : Type}.

(** Reads a part of the state. *)
Definition gets {A} (f : S -> A) : M S A := fun s => (Ok (f s), s).

(** Changes the state. *)
Definition modify (f : S -> S) : M S unit := fun s => (Ok tt, f s).

(** A computation without effects. *)
Definition lift {A} (r : result A) : M S A := fun s => (r, s).

(** Drops an error that the caller does not look at. *)
Definition ignore {A} (m : M S A) : M S unit := fun s =>
  match m s with
  | (Ok _, s) | (Err _, s) => (Ok tt, s)
  | (Panic, s) => (Panic, s)
  | (Diverge, s) => (Diverge, s)
  end.

(** An error that the caller looks at; panics are not caught. *)
Definition attempt {A} (m : M S A) : M S (result A) := fun s =>
  match m s with
  | (Ok a, s) => (Ok (Ok a), s)
  | (Err e, s) => (Ok (Err e), s)
  | (Panic, s) => (Panic, s)
  | (Diverge, s) => (Diverge, s)
  end.

Fixpoint each {A} (f : A -> M S unit) (l : list A) : M S unit :=
  match l with
  | [] => mret tt
  | x :: l => _ ← f x; each f l
  end.

(** The elements that pass a test that reads the state. *)
Fixpoint filterM {A} (f : A -> M S bool) (l : list A) : M S (list A) :=
  match l with
  | [] => mret []
  | x :: l => b ← f x; l ← filterM f l; mret (if (b : bool) then x :: l else l)
  end.

Definition succeeds {A} (m : M S A) (s : S) (Q : A -> S -> Prop) : Prop :=
  exists a s', m s = (Ok a, s') /\ Q a s'.

Lemma succeeds_bind {A B} (m : M S A) (f : A -> M S B) s Q :
  succeeds m s (fun a s => succeeds (f a) s Q) -> succeeds (m ≫= f) s Q.
Proof. intros (a & s' & E & b & s'' & E' & HQ). exists b, s''. unfold mbind, M_bind. by rewrite E. Qed.

Lemma succeeds_eq {A} (m m' : M S A) s s' Q : m s = m' s' -> succeeds m' s' Q -> succeeds m s Q.
Proof. unfold succeeds. by intros ->. Qed.

(** A result that is known satisfies what is shown of it. *)
Lemma succeeds_det {A} (m : M S A) s a s' (Q : A -> S -> Prop) : m s = (Ok a, s') -> succeeds m s Q -> Q a s'.
Proof. intros Em (a' & s'' & Em' & HQ). congruence. Qed.

Lemma succeeds_ret {A} (a : A) s (Q : A -> S -> Prop) : Q a s -> succeeds (mret a) s Q.
Proof. intros. by exists a, s. Qed.

Lemma succeeds_gets {A} (f : S -> A) s (Q : A -> S -> Prop) : Q (f s) s -> succeeds (gets f) s Q.
Proof. intros. by exists (f s), s. Qed.

Lemma succeeds_modify f s (Q : unit -> S -> Prop) : Q tt (f s) -> succeeds (modify f) s Q.
Proof. intros. by exists tt, (f s). Qed.

Lemma succeeds_lift {A} (a : A) s (Q : A -> S -> Prop) : Q a s -> succeeds (lift (Ok a)) s Q.
Proof. intros. by exists a, s. Qed.

Lemma succeeds_mono {A} (m : M S A) s (Q Q' : A -> S -> Prop) :
  succeeds m s Q -> (forall a s, Q a s -> Q' a s) -> succeeds m s Q'.
Proof. intros (a & s' & E & HQ) HQQ. exists a, s'. auto. Qed.

(** The rule for loops: [I] holds of the elements already visited. *)
Lemma succeeds_each {A} (f : A -> M S unit) l (I : list A -> S -> Prop) s :
  I [] s ->
  (forall l1 x l2 s, l = l1 ++ x :: l2 -> I l1 s -> succeeds (f x) s (fun _ => I (l1 ++ [x]))) ->
  succeeds (each f l) s (fun _ => I l).
Proof.
  intros Hs Hf. assert (forall l2 l1 s, l = l1 ++ l2 -> I l1 s -> succeeds (each f l2) s (fun _ => I l)) as G.
  { induction l2 as [|x l2 IH]; intros l1 s1 -> H1; cbn [each].
    - rewrite app_nil_r. by apply succeeds_ret.
    - apply succeeds_bind. apply (succeeds_mono _ _ (fun _ => I (l1 ++ [x]))); [by eapply Hf|].
      intros _ s2 H2. apply (IH (l1 ++ [x])); [by rewrite <- app_assoc|done]. }
  by apply (G l []).
Qed.

(** A test that only reads the state filters by its value. *)
Lemma succeeds_filterM {A} (f : A -> M S bool) (p : A -> bool) l s Q :
  (forall x, x ∈ l -> f x s = (Ok (p x), s)) -> Q (filter (fun x => p x = true) l) s ->
  succeeds (filterM f l) s Q.
Proof.
  revert Q. induction l as [|x l IH]; intros Q Hf HQ; [by apply succeeds_ret|]. cbn [filterM].
  apply succeeds_bind. exists (p x), s. split; [apply Hf; left|]. apply succeeds_bind. apply IH.
  - intros y Hy. apply Hf. by right.
  - apply succeeds_ret. rewrite filter_cons in HQ. by destruct (p x).
Qed.

Lemma succeeds_ignore {A} (m : M S A) s (Q : S -> Prop) :
  (forall a s', m s = (Ok a, s') -> Q s') -> (forall e s', m s = (Err e, s') -> Q s') ->
  (forall s', m s <> (Panic, s')) -> (forall s', m s <> (Diverge, s')) ->
  succeeds (ignore m) s (fun _ => Q).
Proof.
  intros HOk HErr HP HD. unfold ignore, succeeds. destruct (m s) as [[a|e| |] s'] eqn:E; [eauto..| |].
  - by destruct (HP s').
  - by destruct (HD s').
Qed.

Lemma succeeds_attempt {A} (m : M S A) s Q : succeeds m s (fun a => Q (Ok a)) -> succeeds (attempt m) s Q.
Proof. intros (a & s' & E & HQ). exists (Ok a), s'. unfold attempt. by rewrite E. Qed.

Lemma attempt_Err {A} (m : M S A) s e s' (Q : result A -> S -> Prop) : m s = (Err e, s') -> Q (Err e) s' -> succeeds (attempt m) s Q.
Proof. intros E HQ. exists (Err e), s'. unfold attempt. by rewrite E. Qed.

(** The first two of several steps. *)
Lemma succeeds_first {A B C} (m : M S A) (f : A -> M S B) (g : B -> M S C) s Q :
  succeeds (x ← m; f x) s (fun b s => succeeds (g b) s Q) -> succeeds (x ← m; y ← f x; g y) s Q.
Proof.
  intros (b & s' & E & c & s'' & Ec & HQ). exists c, s''. split; [|done]. unfold mbind, M_bind in *.
  destruct (m s) as [[a| | |] s1]; try done. by rewrite E.
Qed.
End operations.

(** One step of symbolic execution. *)
Ltac m_step :=
  first
    [ apply succeeds_bind
    | apply succeeds_ret
    | apply succeeds_gets
    | apply succeeds_modify
    | apply succeeds_lift ].
Ltac m_steps := repeat (m_step; cbn beta).

Section pure_steps.
Context {S : Type}.

(** Executes a first step that is known. *)
Lemma bind_Ok {A B} (m : M S A) (f : A -> M S B) s a s' : m s = (Ok a, s') -> (m ≫= f) s = f a s'.
Proof. intros E. unfold mbind, M_bind. by rewrite E. Qed.

(** [mapM] of steps that only read the state. *)
Lemma mapM_pure {A B} (f : A -> M S B) (P : A -> B -> Prop) l s :
  (forall x, x ∈ l -> exists y, f x s = (Ok y, s) /\ P x y) ->
  exists ys, mapM f l s = (Ok ys, s) /\ Forall2 P l ys.
Proof.
  induction l as [|x l IH]; intros Hf; [by exists []|].
  destruct (Hf x ltac:(left)) as (y & Hy & HP). destruct IH as (ys & Hys & HF); [intros z Hz; apply Hf; by right|].
  exists (y :: ys). split; [|by constructor].
  etransitivity; [eapply bind_Ok; exact Hy|]. etransitivity; [eapply bind_Ok; exact Hys|]. done.
Qed.

Lemma filterM_pure {A} (f : A -> M S bool) (P : A -> Prop) `{forall x, Decision (P x)} l s :
  (forall x, x ∈ l -> f x s = (Ok (bool_decide (P x)), s)) -> filterM f l s = (Ok (filter P l), s).
Proof.
  induction l as [|x l IH]; intros Hf; [done|]. cbn [filterM]. unfold mbind, M_bind.
  rewrite (Hf x ltac:(left)), IH by (intros z Hz; apply Hf; by right). rewrite filter_cons.
  unfold mret, M_ret. case_decide; [by rewrite bool_decide_true|by rewrite bool_decide_false].
Qed.

Lemma gets_bind {A B} (k : S -> A) (f : A -> M S B) s : (gets k ≫= f) s = f (k s) s.
Proof. done. Qed.

Lemma modify_bind {B} (k : S -> S) (f : unit -> M S B) s : (modify k ≫= f) s = f tt (k s).
Proof. done. Qed.

Lemma succeeds_step {A B} (m : M S A) (f : A -> M S B) s a s' Q :
  m s = (Ok a, s') -> succeeds (f a) s' Q -> succeeds (m ≫= f) s Q.
Proof. intros E (b & s'' & E' & HQ). exists b, s''. by rewrite (bind_Ok _ _ _ _ _ E). Qed.
End pure_steps.
