(* ===== verification/GlobalTimeReel.v ===== *)
(** * The global time reel (node/consensus/time/global_time_reel.go, utils.go)

    The tree of global frames, the frames that wait for their parent, the choice of the
    head, equivocation tracking, reorganisation and pruning.  Nodes are shared and mutated
    through pointers, so they live in a heap.  The order in which Go visits the map of
    nodes, the outcome of the select of sendEvent after Stop, the answers of the clock
    store and of the materialise and revert callbacks, the Poseidon hash and the LRU cache
    are parameters.  Effects on the store and events are recorded in the order they happen;
    the event channel is taken to be drained.  Locks, metrics, logging and the text of
    event messages are left out.  Headers of frames are not nil. *)

From S2P Require Import Prelude Wire Keys Frames Messages ForkChoice Stateful.

Record frame := mkGlobalFrame { Header : GlobalFrameHeader.t; Requests : list MessageBundle.t }.

Definition FrameNumber (f : frame) : Z := GlobalFrameHeader.FrameNumber (Header f).
Definition Timestamp (f : frame) : Z := GlobalFrameHeader.Timestamp (Header f).
Definition Output (f : frame) : bytes := GlobalFrameHeader.Output (Header f).
Definition ParentSelector (f : frame) : bytes := GlobalFrameHeader.ParentSelector (Header f).

(** The bitmask of the signature, if there is a signature. *)
Definition mask (f : frame) : option bytes :=
  BLS48581AggregateSignature.Bitmask <$> GlobalFrameHeader.PublicKeySignatureBls48581 (Header f).

(** ** utils.go *)

Definition isEqualGlobalFrame (a b : frame) : bool :=
  (FrameNumber a =? FrameNumber b) && (Timestamp a =? Timestamp b)
  && (GlobalFrameHeader.Difficulty (Header a) =? GlobalFrameHeader.Difficulty (Header b))
  && bool_decide (Output a = Output b) && bool_decide (ParentSelector a = ParentSelector b).

Definition byteAt (m : bytes) (i : nat) : Z := match m !! i with Some b => byte_Z b | None => 0 end.

(** The common bits of two masks at byte [i], zero beyond the end of either. *)
Definition overlapAt (a b : bytes) (i : nat) : Z := Z.land (byteAt a i) (byteAt b i).

Definition hasOverlappingBits (a b : frame) : bool :=
  match mask a, mask b with
  | Some a, Some b => existsb (fun i => negb (overlapAt a b i =? 0)) (seq 0 (Nat.max (length a) (length b)))
  | _, _ => false
  end.

(** The positions of the bits of byte [i], whose value is [v]. *)
Definition bitsOf (i : nat) (v : Z) : list Z :=
  (fun bit => Z.of_nat i * 8 + bit) <$> filter (fun bit => Z.land v (Z.shiftl 1 bit) <> 0) (seqZ 0 8).

(** The signers two masks have in common. *)
Definition overlappingBits (a b : bytes) : list Z :=
  concat ((fun i => bitsOf i (overlapAt a b i)) <$> seq 0 (Nat.max (length a) (length b))).

(** The signers of a mask. *)
Definition signers (m : bytes) : list Z := concat (imap (fun i b => bitsOf i (byte_Z b)) m).

(** ** fmt.Sprintf *)

Fixpoint digits (fuel : nat) (z : Z) (acc : bytes) : bytes :=
  match fuel with
  | O => acc
  | S fuel => if z <? 10 then Z_byte (48 + z) :: acc else digits fuel (z / 10) (Z_byte (48 + z mod 10) :: acc)
  end.

(** %d of a 64-bit integer, which has at most 20 digits. *)
Definition fmtD (z : Z) : bytes := if z <? 0 then Byte.x2d :: digits 20 (- z) [] else digits 20 z [].

Definition hexDigit (z : Z) : byte := Z_byte (if z <? 10 then 48 + z else 87 + z).

(** %x of a byte slice *)
Definition fmtX (b : bytes) : bytes :=
  concat ((fun x => [hexDigit (byte_Z x / 16); hexDigit (byte_Z x mod 16)]) <$> b).

(** ** State *)

Module GlobalFrameNode.
Record t := mk {
  Frame : frame;
  Parent : option nat;
  Children : gmap bytes nat;
  Depth : Z
}.
End GlobalFrameNode.
Import GlobalFrameNode.

Module GlobalPendingFrame.
Record t := mk {
  Frame : frame;
  ParentSelector : bytes;
  Timestamp : Z
}.
End GlobalPendingFrame.

Inductive TimeReelEventType :=
| TimeReelEventNewHead
| TimeReelEventForkDetected
| TimeReelEventEquivocationDetected.

Module GlobalEvent.
Record t := mk {
  Type_ : TimeReelEventType;
  Frame : frame;
  OldHead : option frame
}.
End GlobalEvent.

(** Calls of the clock store, of its transactions and of the callbacks. *)
Inductive effect :=
| NewTransaction
| Materialize (frameNumber : Z) (requests : list MessageBundle.t)
| Revert (frameNumber : Z) (requests : list MessageBundle.t)
| PutGlobalClockFrame (f : frame)
| Commit
| Abort
| DeleteGlobalClockFrameRange (min max : Z).

(** hashicorp/golang-lru: Get also changes the order of eviction. *)
Class Cache (C : Type) := {
  cacheAdd : bytes -> nat -> C -> C;
  cacheGet : bytes -> C -> option nat * C;
  cacheRemove : bytes -> C -> C
}.

Record GlobalTimeReel (C : Type) := mkReel {
  root : option nat;
  nodes : gmap bytes nat;
  framesByNumber : gmap Z (list nat);
  head : option nat;
  pendingFrames : gmap bytes (list GlobalPendingFrame.t);
  forkChoiceParams : Params;
  cache : C;
  equivocators : gmap Z (gset Z);
  stopped : bool;
  (* the nodes, and the next pointer *)
  heap : gmap nat GlobalFrameNode.t;
  next : nat;
  (* what was sent, what was done, and how many choices were made *)
  events : list GlobalEvent.t;
  effects : list effect;
  choices : nat
}.
Arguments root {C}. Arguments nodes {C}. Arguments framesByNumber {C}. Arguments head {C}.
Arguments pendingFrames {C}. Arguments forkChoiceParams {C}. Arguments cache {C}. Arguments equivocators {C}.
Arguments stopped {C}. Arguments heap {C}. Arguments next {C}. Arguments events {C}. Arguments effects {C}.
Arguments choices {C}. Arguments mkReel {C}.

Section setters.
Context {C : Type}.
Abbreviation reel := (GlobalTimeReel C).
Definition set_root x (g : reel) := mkReel x (nodes g) (framesByNumber g) (head g) (pendingFrames g) (forkChoiceParams g) (cache g) (equivocators g) (stopped g) (heap g) (next g) (events g) (effects g) (choices g).
Definition set_nodes x (g : reel) := mkReel (root g) x (framesByNumber g) (head g) (pendingFrames g) (forkChoiceParams g) (cache g) (equivocators g) (stopped g) (heap g) (next g) (events g) (effects g) (choices g).
Definition set_framesByNumber x (g : reel) := mkReel (root g) (nodes g) x (head g) (pendingFrames g) (forkChoiceParams g) (cache g) (equivocators g) (stopped g) (heap g) (next g) (events g) (effects g) (choices g).
Definition set_head x (g : reel) := mkReel (root g) (nodes g) (framesByNumber g) x (pendingFrames g) (forkChoiceParams g) (cache g) (equivocators g) (stopped g) (heap g) (next g) (events g) (effects g) (choices g).
Definition set_pendingFrames x (g : reel) := mkReel (root g) (nodes g) (framesByNumber g) (head g) x (forkChoiceParams g) (cache g) (equivocators g) (stopped g) (heap g) (next g) (events g) (effects g) (choices g).
Definition set_forkChoiceParams x (g : reel) := mkReel (root g) (nodes g) (framesByNumber g) (head g) (pendingFrames g) x (cache g) (equivocators g) (stopped g) (heap g) (next g) (events g) (effects g) (choices g).
Definition set_cache (x : C) (g : reel) := mkReel (root g) (nodes g) (framesByNumber g) (head g) (pendingFrames g) (forkChoiceParams g) x (equivocators g) (stopped g) (heap g) (next g) (events g) (effects g) (choices g).
Definition set_equivocators x (g : reel) := mkReel (root g) (nodes g) (framesByNumber g) (head g) (pendingFrames g) (forkChoiceParams g) (cache g) x (stopped g) (heap g) (next g) (events g) (effects g) (choices g).
Definition set_stopped x (g : reel) := mkReel (root g) (nodes g) (framesByNumber g) (head g) (pendingFrames g) (forkChoiceParams g) (cache g) (equivocators g) x (heap g) (next g) (events g) (effects g) (choices g).
Definition set_heap x (g : reel) := mkReel (root g) (nodes g) (framesByNumber g) (head g) (pendingFrames g) (forkChoiceParams g) (cache g) (equivocators g) (stopped g) x (next g) (events g) (effects g) (choices g).
Definition set_next x (g : reel) := mkReel (root g) (nodes g) (framesByNumber g) (head g) (pendingFrames g) (forkChoiceParams g) (cache g) (equivocators g) (stopped g) (heap g) x (events g) (effects g) (choices g).
Definition set_events x (g : reel) := mkReel (root g) (nodes g) (framesByNumber g) (head g) (pendingFrames g) (forkChoiceParams g) (cache g) (equivocators g) (stopped g) (heap g) (next g) x (effects g) (choices g).
Definition set_effects x (g : reel) := mkReel (root g) (nodes g) (framesByNumber g) (head g) (pendingFrames g) (forkChoiceParams g) (cache g) (equivocators g) (stopped g) (heap g) (next g) (events g) x (choices g).
Definition set_choices x (g : reel) := mkReel (root g) (nodes g) (framesByNumber g) (head g) (pendingFrames g) (forkChoiceParams g) (cache g) (equivocators g) (stopped g) (heap g) (next g) (events g) (effects g) x.
End setters.

Definition maxGlobalTreeDepth : Z := 360.

(** The number of the genesis frame of a network. *)
Definition genesisFrameNumberOf (network : Z) : Z := if network =? 0 then 244200 else 0.

(** What the reel depends on: the Poseidon hash, its mode and network, the order of the
    [n]-th range over a map of nodes, the [n]-th choice of a select, and the error, if any,
    of an effect after earlier ones. *)
Class Environment := {
  poseidon : bytes -> Z;
  archiveMode : bool;
  genesisFrameNumber : Z;
  visit : nat -> gmap bytes nat -> list (bytes * nat);
  coin : nat -> bool;
  fails : list effect -> effect -> option string
}.

Section reel.
Context `{Environment} {C : Type} `{Cache C}.

Abbreviation reel := (GlobalTimeReel C).
Abbreviation R := (M reel).

Definition NewGlobalTimeReel (emptyCache : C) : reel :=
  mkReel None ∅ ∅ None ∅ DefaultForkChoiceParams emptyCache ∅ false ∅ 0 [] [] 0.

(** Poseidon hashes are below the modulus of a 254-bit field. *)
Definition computeGlobalPoseidonHash (data : bytes) : bytes := be 32 (poseidon data).

Definition frameData (f : frame) : bytes :=
  fmtD (FrameNumber f) ++ [Byte.x3a] ++ fmtD (Timestamp f) ++ [Byte.x3a] ++ fmtX (Output f) ++ [Byte.x3a]
  ++ fmtX (ParentSelector f).

Definition ComputeFrameID (f : frame) : bytes := fmtX (computeGlobalPoseidonHash (frameData f)).

(** The selector by which children refer to a frame. *)
Definition selectorOf (f : frame) : bytes := computeGlobalPoseidonHash (Output f).

(** ** Pointers, choices, effects and events *)

Definition deref (p : nat) : R GlobalFrameNode.t := fun g =>
  match heap g !! p with Some n => (Ok n, g) | None => (Panic, g) end.

Definition store (p : nat) (n : GlobalFrameNode.t) : R unit := modify (fun g => set_heap (<[p := n]> (heap g)) g).

Definition alloc (n : GlobalFrameNode.t) : R nat := fun g =>
  (Ok (next g), set_next (S (next g)) (set_heap (<[next g := n]> (heap g)) g)).

Definition choice : R nat := fun g => (Ok (choices g), set_choices (S (choices g)) g).

(** [for _, node := range g.nodes] *)
Definition rangeNodes : R (list nat) :=
  n ← choice; m ← gets nodes; mret (snd <$> visit n m).

Definition perform (e : effect) : R unit := fun g =>
  (match fails (effects g) e with Some msg => Err msg | None => Ok tt end, set_effects (effects g ++ [e]) g).

(** Aborts the transaction if [m] fails and returns the error. *)
Definition orAbort (m : R unit) : R unit := fun g =>
  match m g with
  | (Err e, g) => (Err e, (ignore (perform Abort) g).2)
  | r => r
  end.

(** After Stop the channel is closed and the context done: the select either panics or
    returns. *)
Definition sendEvent (e : GlobalEvent.t) : R unit :=
  closed ← gets stopped;
  if (closed : bool) then n ← choice; lift (if coin n then Panic else Ok tt)
  else modify (fun g => set_events (events g ++ [e]) g).

Definition Stop : R unit := modify (set_stopped true).

Definition SetForkChoiceParams (params : Params) : R unit := modify (set_forkChoiceParams params).

(** ** Lineages *)

(** The node and its ancestors.  A parent is allocated before its children, so the pointer
    bounds the length. *)
Fixpoint ancestors (fuel : nat) (h : gmap nat GlobalFrameNode.t) (p : option nat) : list nat :=
  match fuel, p with
  | S fuel, Some p =>
    match h !! p with
    | Some n => p :: ancestors fuel h (Parent n)
    | None => [p]
    end
  | _, _ => []
  end.

Definition lineage (h : gmap nat GlobalFrameNode.t) (p : nat) : list nat := ancestors (S p) h (Some p).

Definition isAncestorNode (h : gmap nat GlobalFrameNode.t) (ancestor descendant : nat) : bool :=
  bool_decide (ancestor ∈ lineage h descendant).

(** The nodes of a lineage up to and including [p]. *)
Fixpoint upTo (p : nat) (l : list nat) : list nat :=
  match l with
  | [] => []
  | q :: l => if bool_decide (q = p) then [q] else q :: upTo p l
  end.

(** The nodes of a lineage before [p]. *)
Fixpoint before (p : nat) (l : list nat) : list nat :=
  match l with
  | [] => []
  | q :: l => if bool_decide (q = p) then [] else q :: before p l
  end.

Definition findCommonAncestor (h : gmap nat GlobalFrameNode.t) (node1 node2 : nat) : option nat * list nat :=
  let path1 := lineage h node1 in
  match list_find (fun p => p ∈ path1) (lineage h node2) with
  | Some (_, p) => (Some p, upTo p path1)
  | None => (None, [])
  end.

(** ** Frames and the store *)

Definition persistCanonicalFrames (frames : list frame) : R unit :=
  if bool_decide (frames = []) then mret tt
  else
    _ ← perform NewTransaction;
    _ ← each (fun f =>
           _ ← orAbort (perform (Materialize (FrameNumber f) (Requests f)));
           orAbort (perform (PutGlobalClockFrame f))) frames;
    _ ← perform Commit;
    h ← gets head;
    match h with
    | Some h =>
      if archiveMode then mret tt
      else
        n ← deref h;
        if maxGlobalTreeDepth <? FrameNumber (Frame n)
        then ignore (perform (DeleteGlobalClockFrameRange 0 (u64 (FrameNumber (Frame n) - maxGlobalTreeDepth + 1))))
        else mret tt
    | None => mret tt
    end.

(** The body of rewindFrames; its errors are only logged. *)
Definition rewindFrames (revertNodes : list nat) : R unit :=
  if bool_decide (revertNodes = []) then mret tt
  else ignore (
    _ ← perform NewTransaction;
    _ ← each (fun p =>
           n ← deref p;
           if FrameNumber (Frame n) =? 244200 then mret tt
           else orAbort (perform (Revert (FrameNumber (Frame n)) (Requests (Frame n))))) revertNodes;
    perform Commit).

Definition emitReplayEvents (commonAncestor newHead : nat) : R unit :=
  h ← gets heap;
  let replayPath := reverse (before commonAncestor (lineage h newHead)) in
  frames ← mapM (fun p => n ← deref p; mret (Frame n)) replayPath;
  _ ← ignore (persistCanonicalFrames frames);
  each (fun f => sendEvent (GlobalEvent.mk TimeReelEventNewHead f None)) frames.

Definition sendHeadEvent (newHead : nat) (oldHead : option nat) : R unit :=
  h ← gets heap;
  new ← deref newHead;
  match oldHead with
  | None => sendEvent (GlobalEvent.mk TimeReelEventNewHead (Frame new) None)
  | Some oldHead =>
    old ← deref oldHead;
    sendEvent (GlobalEvent.mk
      (if isAncestorNode h oldHead newHead then TimeReelEventNewHead else TimeReelEventForkDetected)
      (Frame new) (Some (Frame old)))
  end.

(** ** Fork choice *)

Definition findLeafNodes : R (list nat) :=
  ps ← rangeNodes;
  filterM (fun p => n ← deref p; mret (bool_decide (Children n = ∅))) ps.

Definition computeFrameSeniority (equivocators : gmap Z (gset Z)) (f : frame) : Z :=
  match mask f with
  | None => SCALE / 64
  | Some m =>
    let equivocatorsAtHeight := default ∅ (equivocators !! FrameNumber f) in
    let bitCount := Z.of_nat (length (filter (fun b => b ∉ equivocatorsAtHeight) (signers m))) in
    if bitCount =? 0 then 0 else u64 (SCALE / 64 * bitCount)
  end.

Definition branchFrame (equivocators : gmap Z (gset Z)) (f : frame) : ForkChoice.Frame :=
  mkFrame 0 (computeFrameSeniority equivocators f) (take 32 (Output f)).

Definition nodeToBranch (p : nat) : R Branch :=
  h ← gets heap;
  eqs ← gets equivocators;
  mapM (fun q => n ← deref q; mret (branchFrame eqs (Frame n)))
    (reverse (take (Z.to_nat maxGlobalTreeDepth) (lineage h p))).

(** The fork event, the rewind of the old branch and the replay of the new one. *)
Definition reorganise (oldHead chosen : nat) : R unit :=
  h ← gets heap;
  old ← deref oldHead;
  new ← deref chosen;
  _ ← sendEvent (GlobalEvent.mk TimeReelEventForkDetected (Frame new) (Some (Frame old)));
  let '(commonAncestor, reverts) := findCommonAncestor h oldHead chosen in
  _ ← rewindFrames reverts;
  match commonAncestor with
  | Some p => emitReplayEvents p chosen
  | None => mret tt
  end.

(** The event of a head that extends the old one. *)
Definition sendAdvance (oldHead chosen : nat) : R unit :=
  old ← deref oldHead;
  new ← deref chosen;
  sendEvent (GlobalEvent.mk TimeReelEventNewHead (Frame new) (Some (Frame old))).

(** The position of the head among the competing leaves, 0 if it is not one of them. *)
Definition prevChoiceOf (oldHead : nat) (competingLeaves : list nat) : Z :=
  match list_find (fun p => p = oldHead) competingLeaves with
  | Some (i, _) => Z.of_nat i
  | None => 0
  end.

Definition evaluateForkChoice (newNode : nat) : R unit :=
  h ← gets head;
  match h with
  | None =>
    _ ← modify (set_head (Some newNode));
    sendHeadEvent newNode None
  | Some oldHead =>
    leafNodes ← findLeafNodes;
    if (length leafNodes <=? 1)%nat
    then
      new ← deref newNode;
      old ← deref oldHead;
      if Depth old <? Depth new
      then
        _ ← modify (set_head (Some newNode));
        _ ← ignore (persistCanonicalFrames [Frame new]);
        sendHeadEvent newNode (Some oldHead)
      else mret tt
    else
      depths ← mapM (fun p => n ← deref p; mret (Depth n)) leafNodes;
      let maxDepth := foldl Z.max 0 depths in
      competingLeaves ← filterM (fun p => n ← deref p; mret (Depth n =? maxDepth)) leafNodes;
      match competingLeaves with
      | [chosenNode] =>
        if bool_decide (chosenNode = oldHead) then mret tt
        else
          _ ← modify (set_head (Some chosenNode));
          h ← gets heap;
          if isAncestorNode h oldHead chosenNode
          then
            new ← deref newNode;
            _ ← ignore (persistCanonicalFrames [Frame new]);
            sendAdvance oldHead chosenNode
          else reorganise oldHead chosenNode
      | _ =>
        branches ← mapM nodeToBranch competingLeaves;
        params ← gets forkChoiceParams;
        chosenIndex ← lift (ForkChoice branches params (prevChoiceOf oldHead competingLeaves));
        chosenNode ← lift (index competingLeaves chosenIndex);
        if bool_decide (chosenNode = oldHead) then mret tt
        else
          _ ← modify (set_head (Some chosenNode));
          h ← gets heap;
          if isAncestorNode h oldHead chosenNode then sendAdvance oldHead chosenNode
          else reorganise oldHead chosenNode
      end
  end.

(** ** Insertion *)

(** A new node below [parent], entered in all indexes. *)
Definition link (f : frame) (frameID : bytes) (parent : nat) : R nat :=
  pn ← deref parent;
  p ← alloc (mk f (Some parent) ∅ (u64 (Depth pn + 1)));
  _ ← modify (fun g => set_nodes (<[frameID := p]> (nodes g)) g);
  _ ← modify (fun g => set_framesByNumber
        (<[FrameNumber f := default [] (framesByNumber g !! FrameNumber f) ++ [p]]> (framesByNumber g)) g);
  pn ← deref parent;
  _ ← store parent (mk (Frame pn) (Parent pn) (<[frameID := p]> (Children pn)) (Depth pn));
  _ ← modify (fun g => set_cache (cacheAdd frameID p (cache g)) g);
  mret p.

Definition addPendingFrame (f : frame) : R unit :=
  modify (fun g => set_pendingFrames
    (<[ParentSelector f := default [] (pendingFrames g !! ParentSelector f)
        ++ [GlobalPendingFrame.mk f (ParentSelector f) (Timestamp f)]]> (pendingFrames g)) g).

(** Each call that finds frames removes a selector, so the number of selectors bounds the
    depth of the recursion. *)
Fixpoint processPendingFrames (fuel : nat) (parent : nat) : R unit :=
  match fuel with
  | O => lift Diverge
  | S fuel =>
    pn ← deref parent;
    let parentSelector := selectorOf (Frame pn) in
    pending ← gets pendingFrames;
    let pendingList := default [] (pending !! parentSelector) in
    if bool_decide (length pendingList = 0%nat) then mret tt
    else
      _ ← modify (fun g => set_pendingFrames (delete parentSelector (pendingFrames g)) g);
      each (fun pending =>
        let f := GlobalPendingFrame.Frame pending in
        let frameID := ComputeFrameID f in
        known ← gets (fun g => nodes g !! frameID);
        match known with
        | Some _ => mret tt
        | None =>
          newNode ← link f frameID parent;
          _ ← processPendingFrames fuel newNode;
          evaluateForkChoice newNode
        end) pendingList
  end.

Definition processPending (parent : nat) : R unit :=
  n ← gets (fun g => size (pendingFrames g));
  processPendingFrames (S n) parent.

Fixpoint findSelector (selector : bytes) (ps : list nat) : R (option nat) :=
  match ps with
  | [] => mret None
  | p :: ps =>
    n ← deref p;
    if bool_decide (selectorOf (Frame n) = selector) then mret (Some p) else findSelector selector ps
  end.

Definition findNodeBySelector (selector : bytes) : R (option nat) :=
  ps ← rangeNodes;
  findSelector selector ps.

(** The round of the loop over the nodes at the height of the new frame. *)
Definition checkEquivocation (f : frame) (p : nat) : R unit :=
  n ← deref p;
  if negb (isEqualGlobalFrame (Frame n) f) && hasOverlappingBits (Frame n) f
  then
    _ ← modify (fun g => set_equivocators
          (<[FrameNumber f := default ∅ (equivocators g !! FrameNumber f) ∪
               list_to_set (overlappingBits (default [] (mask (Frame n))) (default [] (mask f)))]>
             (equivocators g)) g);
    sendEvent (GlobalEvent.mk TimeReelEventEquivocationDetected f None)
  else mret tt.

(** ** Pruning *)

(** Clears the parent of the children of a pruned node that are kept. *)
Definition cutChildren (minDepthToKeep : Z) (p : nat) : R unit :=
  n ← deref p;
  each (fun child =>
    cn ← deref child;
    if minDepthToKeep <=? Depth cn then store child (mk (Frame cn) None (Children cn) (Depth cn)) else mret tt)
    (snd <$> map_to_list (Children n)).

(** The remaining node of minimal depth with the least frame number. *)
Fixpoint newRoot (minDepthToKeep : Z) (best : option (nat * Z)) (ps : list nat) : R (option nat) :=
  match ps with
  | [] => mret (fst <$> best)
  | p :: ps =>
    n ← deref p;
    let better := match best with None => true | Some (_, m) => FrameNumber (Frame n) <? m end in
    newRoot minDepthToKeep
      (if (Depth n =? minDepthToKeep) && better then Some (p, FrameNumber (Frame n)) else best) ps
  end.

Definition removeNode (minDepthToKeep : Z) (p : nat) : R unit :=
  n ← deref p;
  let frameID := ComputeFrameID (Frame n) in
  let frameNum := FrameNumber (Frame n) in
  _ ← modify (fun g => set_nodes (delete frameID (nodes g)) g);
  _ ← modify (fun g =>
        match framesByNumber g !! frameNum with
        | None => g
        | Some nodeList =>
          let filteredList := filter (fun q => q <> p) nodeList in
          set_framesByNumber
            (if bool_decide (length filteredList = 0%nat) then delete frameNum (framesByNumber g)
             else <[frameNum := filteredList]> (framesByNumber g)) g
        end);
  _ ← modify (fun g => set_cache (cacheRemove frameID (cache g)) g);
  _ ← match Parent n with
      | Some q =>
        qn ← deref q;
        store q (mk (Frame qn) (Parent qn) (delete frameID (Children qn)) (Depth qn))
      | None => mret tt
      end;
  r ← gets root;
  if bool_decide (r = Some p)
  then
    ps ← rangeNodes;
    r ← newRoot minDepthToKeep None ps;
    _ ← modify (set_root r);
    match r with
    | Some r => rn ← deref r; store r (mk (Frame rn) None (Children rn) (Depth rn))
    | None => mret tt
    end
  else mret tt.

Definition pruneOldFrames : R unit :=
  h ← gets head;
  match h with
  | None => mret tt
  | Some h =>
    hn ← deref h;
    if Depth hn <? maxGlobalTreeDepth then mret tt
    else
      let minDepthToKeep := u64 (Depth hn - maxGlobalTreeDepth + 1) in
      ps ← rangeNodes;
      nodesToPrune ← filterM (fun p => n ← deref p; mret (Depth n <? minDepthToKeep)) ps;
      _ ← each (cutChildren minDepthToKeep) nodesToPrune;
      each (removeNode minDepthToKeep) nodesToPrune
  end.

(** Frames that wait for more than five minutes are dropped; [now] is the clock. *)
Definition pruneOldPendingFrames (now : Z) : R unit :=
  modify (fun g => set_pendingFrames
    (omap (fun pendingList =>
       let filteredList := filter (fun p => i64 (now - GlobalPendingFrame.Timestamp p) <= 5 * 60 * 1000) pendingList in
       if bool_decide (length filteredList = 0%nat) then None else Some filteredList) (pendingFrames g)) g).

(** ** Insert *)

Definition insertGenesisFrame (f : frame) (frameID : bytes) : R unit :=
  r ← gets root;
  _ ← match r with
      | Some r =>
        if archiveMode then lift (Err "genesis frame already exists")
        else
          rn ← deref r;
          lift (if FrameNumber (Frame rn) <=? FrameNumber f
                then Err "frame is not older than current root" else Ok tt)
      | None => mret tt
      end;
  p ← alloc (mk f None ∅ 0);
  _ ← modify (set_root (Some p));
  _ ← modify (fun g => set_nodes (<[frameID := p]> (nodes g)) g);
  _ ← modify (fun g => set_framesByNumber (<[FrameNumber f := [p]]> (framesByNumber g)) g);
  _ ← modify (set_head (Some p));
  _ ← modify (fun g => set_cache (cacheAdd frameID p (cache g)) g);
  _ ← persistCanonicalFrames [f];
  _ ← sendEvent (GlobalEvent.mk TimeReelEventNewHead f None);
  _ ← processPending p;
  pruneOldFrames.

(** Without the parent a frame waits, unless it is too old for a reel without archive. *)
Definition insertOrphan (f : frame) : R unit :=
  h ← gets head;
  match h with
  | Some h =>
    if archiveMode then addPendingFrame f
    else
      hn ← deref h;
      let headNumber := FrameNumber (Frame hn) in
      if (headNumber <? FrameNumber f) && (FrameNumber f <=? u64 (headNumber + 10)) then addPendingFrame f
      else if (FrameNumber f <? headNumber) && (maxGlobalTreeDepth <? headNumber - FrameNumber f) then mret tt
      else addPendingFrame f
  | None => addPendingFrame f
  end.

Definition Insert (now : Z) (f : frame) : R unit :=
  let frameID := ComputeFrameID f in
  known ← gets (fun g => nodes g !! frameID);
  match known with
  | Some _ => mret tt
  | None =>
    nodesAtHeight ← gets (fun g => default [] (framesByNumber g !! FrameNumber f));
    _ ← each (checkEquivocation f) nodesAtHeight;
    if FrameNumber f =? genesisFrameNumber then insertGenesisFrame f frameID
    else
      fresh ← gets (fun g => bool_decide (root g = None) && bool_decide (nodes g = ∅));
      if negb archiveMode && fresh then insertGenesisFrame f frameID
      else
        parentNode ← findNodeBySelector (ParentSelector f);
        match parentNode with
        | None => insertOrphan f
        | Some parent =>
          pn ← deref parent;
          if bool_decide (selectorOf (Frame pn) = ParentSelector f)
          then
            newNode ← link f frameID parent;
            _ ← processPending newNode;
            _ ← evaluateForkChoice newNode;
            _ ← pruneOldFrames;
            pruneOldPendingFrames now
          else lift (Err "parent selector mismatch")
        end
  end.

(** ** Queries *)

Definition GetHead : R frame :=
  h ← gets head;
  match h with
  | None => lift (Err "no head frame")
  | Some h => n ← deref h; mret (Frame n)
  end.

Definition GetFrame (frameID : bytes) : R frame :=
  c ← gets cache;
  let '(hit, c) := cacheGet frameID c in
  _ ← modify (set_cache c);
  match hit with
  | Some p => n ← deref p; mret (Frame n)
  | None =>
    known ← gets (fun g => nodes g !! frameID);
    match known with
    | None => lift (Err "frame not found")
    | Some p =>
      _ ← modify (fun g => set_cache (cacheAdd frameID p (cache g)) g);
      n ← deref p;
      mret (Frame n)
    end
  end.

Definition GetFramesByNumber (frameNumber : Z) : R (list frame) :=
  ps ← gets (fun g => default [] (framesByNumber g !! frameNumber));
  if bool_decide (length ps = 0%nat) then lift (Err "no frames found at frame number")
  else mapM (fun p => n ← deref p; mret (Frame n)) ps.

Definition getNodeLineage (p : nat) : R (list frame) :=
  h ← gets heap;
  mapM (fun p => n ← deref p; mret (Frame n)) (reverse (lineage h p)).

Definition GetLineage : R (list frame) :=
  h ← gets head;
  match h with
  | None => lift (Err "no head frame")
  | Some h => getNodeLineage h
  end.

Definition GetNodeLineage (frameID : bytes) : R (list frame) :=
  known ← gets (fun g => nodes g !! frameID);
  match known with
  | None => lift (Err "frame not found")
  | Some p => getNodeLineage p
  end.

Definition GetBranchTips : R (list frame) :=
  leafNodes ← findLeafNodes;
  mapM (fun p => n ← deref p; mret (Frame n)) leafNodes.

Definition GetPendingFrames : R (gmap bytes (list frame)) :=
  gets (fun g => fmap (M := gmap bytes) (List.map GlobalPendingFrame.Frame) (pendingFrames g)).

Definition GetChildFrames (parentFrameID : bytes) : R (list frame) :=
  known ← gets (fun g => nodes g !! parentFrameID);
  match known with
  | None => lift (Err "parent frame not found")
  | Some p =>
    pn ← deref p;
    n ← choice;
    mapM (fun p => n ← deref p; mret (Frame n)) (snd <$> visit n (Children pn))
  end.

(** ** Start *)

(** The round of the loop over the frames of the store; [prev] is the node before. *)
Definition loadFrame (start : Z) (prev : option nat) (f : frame) : R nat :=
  let frameID := ComputeFrameID f in
  linked ← match prev with
           | None => mret None
           | Some q => qn ← deref q; mret (if bool_decide (ParentSelector f = selectorOf (Frame qn)) then Some q else None)
           end;
  parent ← match linked with
           | Some q => mret (Some q)
           | None => findNodeBySelector (ParentSelector f)
           end;
  p ← match parent with
      | None => alloc (mk f None ∅ 0)
      | Some q =>
        qn ← deref q;
        p ← alloc (mk f (Some q) ∅ (u64 (Depth qn + 1)));
        _ ← store q (mk (Frame qn) (Parent qn) (<[frameID := p]> (Children qn)) (Depth qn));
        mret p
      end;
  _ ← modify (fun g =>
        if bool_decide (root g = None) || (negb archiveMode && (FrameNumber f =? start)) then set_root (Some p) g else g);
  _ ← modify (fun g => set_nodes (<[frameID := p]> (nodes g)) g);
  _ ← modify (fun g => set_framesByNumber
        (<[FrameNumber f := default [] (framesByNumber g !! FrameNumber f) ++ [p]]> (framesByNumber g)) g);
  _ ← modify (fun g => set_cache (cacheAdd frameID p (cache g)) g);
  _ ← modify (set_head (Some p));
  mret p.

Fixpoint loadFrames (start : Z) (prev : option nat) (frames : list (result frame)) : R unit :=
  match frames with
  | [] => mret tt
  | f :: frames =>
    f ← lift f;
    p ← loadFrame start prev f;
    loadFrames start (Some p) frames
  end.

(** [latest] is the answer of GetLatestGlobalClockFrame, [None] for ErrNotFound, and
    [range] that of RangeGlobalClockFrames with the values of the iterator. *)
Definition bootstrapFromStore (latest : option (result frame)) (range : Z -> Z -> result (list (result frame)))
    : R unit :=
  match latest with
  | None => mret tt
  | Some latest =>
    latest ← lift latest;
    let latestNum := FrameNumber latest in
    let start :=
      if negb archiveMode && (maxGlobalTreeDepth <? u64 (latestNum + 1))
      then u64 (latestNum - (maxGlobalTreeDepth - 1)) else genesisFrameNumber in
    frames ← lift (range start latestNum);
    loadFrames start None frames
  end.
End reel.
