(* ===== verification/GlobalTimeReelSpec.v ===== *)
(** * Invariants of the global time reel

    The tree and its indexes agree, lineages are finite, the fork choice, the linking of
    waiting frames and the pruning keep this, and the fork choice finds the best head. *)

From S2P Require Import Prelude Wire Keys Frames Messages ForkChoice Stateful GlobalTimeReel.
Import GlobalFrameNode.

(** Go visits every entry of a map once. *)
Class EnvironmentLaws `(E : Environment) : Prop := {
  visit_all n m : visit n m ≡ₚ map_to_list m
}.

(** A cache returns what was last added and not removed, if it returns anything. *)
Class CacheLaws (C : Type) `{Cache C} : Prop := {
  cacheGet_add k k' v w (c : C) :
    (cacheGet k (cacheAdd k' v c)).1 = Some w -> (k = k' /\ w = v) \/ (k <> k' /\ (cacheGet k c).1 = Some w);
  cacheGet_remove k k' w (c : C) :
    (cacheGet k (cacheRemove k' c)).1 = Some w -> k <> k' /\ (cacheGet k c).1 = Some w;
  cacheGet_get k k' w (c : C) :
    (cacheGet k (cacheGet k' c).2).1 = Some w -> (cacheGet k c).1 = Some w
}.

Section spec.
Context `{E : Environment} `{!EnvironmentLaws E} {C : Type} `{HC : Cache C} `{!CacheLaws C}.
Abbreviation reel := (GlobalTimeReel C).
Abbreviation R := (M reel).
Implicit Types (g : reel) (p q : nat) (n : GlobalFrameNode.t) (f : frame).

(** ** States that differ in the head, the events, the effects and the choices *)

Definition body g := (root g, nodes g, framesByNumber g, pendingFrames g, forkChoiceParams g, cache g,
  equivocators g, stopped g, heap g, next g).

Definition same g g' : Prop := body g = body g'.

#[export] Instance same_equiv : Equivalence same.
Proof. split; repeat intro; unfold same in *; congruence. Qed.

(** Nothing changes but the events, the effects and the choices. *)
Definition quiet g g' : Prop := same g g' /\ head g = head g'.

#[export] Instance quiet_equiv : Equivalence quiet.
Proof. split; repeat intro; unfold quiet, same in *; intuition congruence. Qed.

Lemma same_heap g g' : same g g' -> heap g' = heap g.
Proof. unfold same, body. intros Hs. injection Hs. congruence. Qed.
Lemma same_nodes g g' : same g g' -> nodes g' = nodes g.
Proof. unfold same, body. intros Hs. injection Hs. congruence. Qed.
Lemma same_stopped g g' : same g g' -> stopped g' = stopped g.
Proof. unfold same, body. intros Hs. injection Hs. congruence. Qed.
Lemma same_params g g' : same g g' -> forkChoiceParams g' = forkChoiceParams g.
Proof. unfold same, body. intros Hs. injection Hs. congruence. Qed.
Lemma same_equivocators g g' : same g g' -> equivocators g' = equivocators g.
Proof. unfold same, body. intros Hs. injection Hs. congruence. Qed.
Lemma same_pending g g' : same g g' -> pendingFrames g' = pendingFrames g.
Proof. unfold same, body. intros Hs. injection Hs. congruence. Qed.
Lemma quiet_same g g' : quiet g g' -> same g g'.
Proof. by intros []. Qed.
Lemma quiet_head g g' : quiet g g' -> head g' = head g.
Proof. by intros []. Qed.

(** ** Operations without effect on the tree *)

(** [m] neither panics nor diverges and is quiet. *)
Definition settles {A} (m : R A) g : Prop :=
  match m g with
  | (Ok _, g') | (Err _, g') => quiet g g'
  | _ => False
  end.

Lemma settles_bind {A B} (m : R A) (k : A -> R B) g :
  settles m g -> (forall a g', m g = (Ok a, g') -> quiet g g' -> settles (k a) g') -> settles (m ≫= k) g.
Proof.
  unfold settles, mbind, M_bind. intros Hm Hk. destruct (m g) as [[a|e| |] g'] eqn:Em; try done.
  specialize (Hk a g' eq_refl Hm). destruct (k a g') as [[b|e| |] g'']; try done; by etransitivity.
Qed.

Lemma settles_ret {A} (a : A) g : settles (mret a) g.
Proof. done. Qed.

Lemma settles_gets {A} (k : reel -> A) g : settles (gets k) g.
Proof. done. Qed.

Lemma settles_deref p n g : heap g !! p = Some n -> settles (deref p) g.
Proof. unfold settles, deref. by intros ->. Qed.

Lemma settles_perform e g : settles (perform e) g.
Proof. unfold settles, perform. by destruct (fails _ _). Qed.

Lemma settles_ignore {A} (m : R A) g : settles m g -> settles (ignore m) g.
Proof. unfold settles, ignore. by destruct (m g) as [[]]. Qed.

Lemma settles_orAbort (m : R unit) g : settles m g -> settles (orAbort m) g.
Proof.
  intros Hm. unfold settles, orAbort in *. destruct (m g) as [[a|e| |] g'] eqn:Em; try done.
  etransitivity; [exact Hm|]. unfold ignore, perform. by destruct (fails _ _).
Qed.

Lemma settles_each {A} (k : A -> R unit) l g :
  (forall x g', x ∈ l -> quiet g g' -> settles (k x) g') -> settles (each k l) g.
Proof.
  revert g. induction l as [|x l IH]; intros g Hk; [done|]. cbn [each]. apply settles_bind.
  - apply Hk; [left|done].
  - intros _ g' _ Hq. apply IH. intros y g'' Hy Hq'. apply Hk; [by right|by etransitivity].
Qed.

(** A quiet operation whose error is dropped succeeds. *)
Lemma settles_ignored {A} (m : R A) g : settles m g -> succeeds (ignore m) g (fun _ g' => quiet g g').
Proof. unfold settles, ignore, succeeds. destruct (m g) as [[a|e| |] g'] eqn:Em; try done; eauto. Qed.

Lemma sendEvent_quiet e g :
  stopped g = false -> succeeds (sendEvent e) g (fun _ g' => quiet g g').
Proof. intros Hs. unfold sendEvent. m_step. m_step. rewrite Hs. by m_step. Qed.

Lemma settles_persist frames g :
  (forall p, head g = Some p -> is_Some (heap g !! p)) -> settles (persistCanonicalFrames frames) g.
Proof.
  intros Hh. unfold persistCanonicalFrames. case_bool_decide; [done|].
  apply settles_bind; [apply settles_perform|]. intros _ g1 _ Hq1.
  apply settles_bind.
  { apply settles_each. intros f g' _ _. apply settles_bind; [apply settles_orAbort, settles_perform|].
    intros _ g'' _ _. apply settles_orAbort, settles_perform. }
  intros _ g2 _ Hq2. apply settles_bind; [apply settles_perform|]. intros _ g3 _ Hq3.
  apply settles_bind; [apply settles_gets|]. intros h g4 Eh Hq4. injection Eh as <- <-.
  assert (quiet g g3) as Hq by (do 2 (etransitivity; [eassumption|]); done).
  rewrite (quiet_head _ _ Hq). destruct (head g) as [h|]; [|done]. destruct archiveMode; [done|].
  destruct (Hh h eq_refl) as (n & Hn). apply settles_bind.
  { apply (settles_deref h n). by rewrite (same_heap _ _ (quiet_same _ _ Hq)). }
  intros hn g5 _ _. destruct (_ <? _); [|done]. apply settles_ignore, settles_perform.
Qed.

Lemma rewind_quiet ps g :
  (forall p, p ∈ ps -> is_Some (heap g !! p)) -> succeeds (rewindFrames ps) g (fun _ g' => quiet g g').
Proof.
  intros Hps. unfold rewindFrames. case_bool_decide; [by apply succeeds_ret|]. apply settles_ignored.
  apply settles_bind; [apply settles_perform|]. intros _ g1 _ Hq1. apply settles_bind.
  - apply settles_each. intros p g2 Hp Hq2. destruct (Hps p Hp) as (n & Hn). apply settles_bind.
    + apply (settles_deref p n). rewrite (same_heap _ _ (quiet_same _ _ Hq2)). by rewrite (same_heap _ _ (quiet_same _ _ Hq1)).
    + intros pn g3 _ _. destruct (_ =? _); [done|]. apply settles_orAbort, settles_perform.
  - intros. apply settles_perform.
Qed.

(** ** The invariant *)

Definition live g p : Prop := exists id, nodes g !! id = Some p.

(** The tree: every entry of the map is a node filed under its ID; the parent of a node,
    if it has one, is in the map, older, one level up, the frame its selector names, and
    has it among its children; children are in the map and point back.  The other indexes
    agree with the map. *)
Record wf g : Prop := {
  wf_node id p : nodes g !! id = Some p -> exists n, heap g !! p = Some n /\ id = ComputeFrameID (Frame n);
  wf_parent p n q : live g p -> heap g !! p = Some n -> Parent n = Some q ->
    exists qn, live g q /\ heap g !! q = Some qn /\ (q < p)%nat /\ ParentSelector (Frame n) = selectorOf (Frame qn) /\
      Depth n = Depth qn + 1 /\ Children qn !! ComputeFrameID (Frame n) = Some p;
  wf_child q qn id p : live g q -> heap g !! q = Some qn -> Children qn !! id = Some p ->
    live g p /\ exists n, heap g !! p = Some n /\ Parent n = Some q /\ id = ComputeFrameID (Frame n);
  wf_alloc p : is_Some (heap g !! p) -> (p < next g)%nat;
  wf_depth p n : live g p -> heap g !! p = Some n -> 0 <= Depth n <= Z.of_nat p;
  wf_root p : root g = Some p -> exists n, live g p /\ heap g !! p = Some n /\ Parent n = None;
  wf_number k p : p ∈ default [] (framesByNumber g !! k) <->
    live g p /\ exists n, heap g !! p = Some n /\ FrameNumber (Frame n) = k;
  wf_cache id p : (cacheGet id (cache g)).1 = Some p -> nodes g !! id = Some p
}.

Lemma wf_same g g' : same g g' -> wf g -> wf g'.
Proof.
  unfold same, body. intros Hs. injection Hs as Hr Hn Hf Hp Hpa Hc He Hst Hh Hne. intros [].
  split; unfold live in *; rewrite <- ?Hr, <- ?Hn, <- ?Hf, <- ?Hc, <- ?Hh, <- ?Hne; assumption.
Qed.

Lemma live_same g g' p : same g g' -> live g' p <-> live g p.
Proof. intros Hs. unfold live. by rewrite (same_nodes _ _ Hs). Qed.

Lemma wf_live g p : wf g -> live g p -> exists n, heap g !! p = Some n /\ nodes g !! ComputeFrameID (Frame n) = Some p.
Proof. intros Hw (id & Hid). destruct (wf_node g Hw _ _ Hid) as (n & Hn & ->). eauto. Qed.

(** ** Lineages *)

Lemma ancestors_None fuel h : ancestors fuel h None = [].
Proof. by destruct fuel. Qed.

Lemma ancestors_fuel g p fuel :
  wf g -> live g p -> (p < fuel)%nat -> ancestors fuel (heap g) (Some p) = lineage (heap g) p.
Proof.
  intros Hw. unfold lineage. revert fuel. induction (lt_wf p) as [p _ IH]. intros [|fuel] Hp Hlt; [lia|].
  cbn [ancestors]. destruct (wf_live g p Hw Hp) as (n & Hn & _). rewrite Hn. f_equal.
  destruct (Parent n) as [q|] eqn:Hq; [|by rewrite !ancestors_None].
  destruct (wf_parent g Hw p n q Hp Hn Hq) as (qn & Hlq & _ & Hqp & _).
  rewrite (IH q Hqp fuel Hlq ltac:(lia)). symmetry. by apply IH.
Qed.

Lemma lineage_eq g p n :
  wf g -> live g p -> heap g !! p = Some n ->
  lineage (heap g) p = p :: match Parent n with Some q => lineage (heap g) q | None => [] end.
Proof.
  intros Hw Hp Hn. unfold lineage at 1. cbn [ancestors]. rewrite Hn. f_equal.
  destruct (Parent n) as [q|] eqn:Hq; [|by rewrite ancestors_None].
  destruct (wf_parent g Hw p n q Hp Hn Hq) as (qn & Hlq & _ & Hqp & _). by apply ancestors_fuel.
Qed.

(** Induction along a lineage. *)
Lemma lineage_ind g (P : nat -> Prop) :
  wf g ->
  (forall p n, live g p -> heap g !! p = Some n -> Parent n = None -> P p) ->
  (forall p n q qn, live g p -> heap g !! p = Some n -> Parent n = Some q -> live g q -> heap g !! q = Some qn -> P q -> P p) ->
  forall p, live g p -> P p.
Proof.
  intros Hw H0 H1 p. induction (lt_wf p) as [p _ IH]. intros Hp. destruct (wf_live g p Hw Hp) as (n & Hn & _).
  destruct (Parent n) as [q|] eqn:Hq; [|by eapply H0].
  destruct (wf_parent g Hw p n q Hp Hn Hq) as (qn & Hlq & Hhq & Hqp & _). eapply H1; eauto.
Qed.

Lemma lineage_live g p q : wf g -> live g p -> q ∈ lineage (heap g) p -> live g q.
Proof.
  intros Hw Hp. revert q. apply (lineage_ind g (fun p => forall q, q ∈ lineage (heap g) p -> live g q) Hw); [| |done].
  - intros p' n Hp' Hn Hpar q. rewrite (lineage_eq g p' n Hw Hp' Hn), Hpar. by intros ->%list_elem_of_singleton.
  - intros p' n q' qn Hp' Hn Hpar Hq' _ IH q. rewrite (lineage_eq g p' n Hw Hp' Hn), Hpar.
    intros [->|Hq]%elem_of_cons; auto.
Qed.

Lemma elem_upTo p l q : q ∈ upTo p l -> q ∈ l.
Proof. induction l as [|x l IH]; cbn; [done|]. case_bool_decide; rewrite ?elem_of_cons; [set_solver|naive_solver]. Qed.

Lemma elem_before p l q : q ∈ before p l -> q ∈ l.
Proof. induction l as [|x l IH]; cbn; [done|]. case_bool_decide; rewrite ?elem_of_cons; [set_solver|naive_solver]. Qed.

Lemma findCommonAncestor_live g p q r l :
  wf g -> live g p -> live g q -> findCommonAncestor (heap g) p q = (r, l) ->
  (forall x, x ∈ l -> live g x) /\ (forall x, r = Some x -> live g x).
Proof.
  intros Hw Hp Hq. unfold findCommonAncestor. destruct (list_find _ _) as [[i x]|] eqn:Ef; intros [= <- <-]; [|set_solver].
  apply list_find_Some in Ef as (Hx & _ & _). apply list_elem_of_lookup_2 in Hx. split.
  - intros y Hy%elem_upTo. by apply (lineage_live g p).
  - intros y [= <-]. by apply (lineage_live g q).
Qed.

(** ** Switching the head *)

Lemma frames_of g ps :
  (forall p, p ∈ ps -> is_Some (heap g !! p)) ->
  exists fs, mapM (fun p => n ← deref p; mret (Frame n)) ps g = (Ok fs, g) /\
    Forall2 (fun p f => Frame <$> heap g !! p = Some f) ps fs.
Proof.
  intros Hps. apply (mapM_pure (S := reel)). intros p Hp. destruct (Hps p Hp) as (n & Hn). exists (Frame n).
  rewrite Hn. split; [|done]. unfold mbind, M_bind, deref. by rewrite Hn.
Qed.

Lemma deref_Ok p n g : heap g !! p = Some n -> deref p g = (Ok n, g).
Proof. unfold deref. by intros ->. Qed.

(** Sends events, one after the other. *)
Lemma sendEvents_quiet {A} (k : A -> GlobalEvent.t) l g :
  stopped g = false -> succeeds (each (fun x => sendEvent (k x)) l) g (fun _ g' => quiet g g').
Proof.
  intros Hs. apply (succeeds_each _ l (fun _ g' => quiet g g')); [done|]. intros l1 x l2 g1 _ Hq.
  eapply succeeds_mono; [apply sendEvent_quiet; by rewrite (same_stopped _ _ (quiet_same _ _ Hq))|].
  intros [] g2 Hq'. by etransitivity.
Qed.

Section switch.
Context (g : reel) (Hw : wf g) (Hs : stopped g = false) (h : nat) (Hh : head g = Some h) (Hlh : live g h).

Lemma persist_quiet frames g' : quiet g g' -> succeeds (ignore (persistCanonicalFrames frames)) g' (fun _ g'' => quiet g g'').
Proof.
  intros Hq. eapply succeeds_mono; [apply settles_ignored, settles_persist|intros [] g'' Hq'; by etransitivity].
  intros p. rewrite (quiet_head _ _ Hq), Hh, (same_heap _ _ (quiet_same _ _ Hq)). intros [= <-].
  destruct (wf_live g h Hw Hlh) as (n & Hn & _). eauto.
Qed.

Lemma event_quiet e g' : quiet g g' -> succeeds (sendEvent e) g' (fun _ g'' => quiet g g'').
Proof.
  intros Hq. eapply succeeds_mono; [apply sendEvent_quiet; by rewrite (same_stopped _ _ (quiet_same _ _ Hq))|].
  intros [] g'' Hq'. by etransitivity.
Qed.

Lemma live_deref p g' : quiet g g' -> live g p -> exists n, heap g !! p = Some n /\ deref p g' = (Ok n, g').
Proof.
  intros Hq Hp. destruct (wf_live g p Hw Hp) as (n & Hn & _). exists n. split; [done|].
  apply deref_Ok. by rewrite (same_heap _ _ (quiet_same _ _ Hq)).
Qed.

Lemma sendAdvance_quiet old new g' : quiet g g' -> live g old -> live g new -> succeeds (sendAdvance old new) g' (fun _ g'' => quiet g g'').
Proof.
  intros Hq Ho Hn. destruct (live_deref old g' Hq Ho) as (on & _ & Eo), (live_deref new g' Hq Hn) as (nn & _ & En).
  unfold sendAdvance. eapply succeeds_step; [exact Eo|]. eapply succeeds_step; [exact En|]. by apply event_quiet.
Qed.

Lemma sendHeadEvent_quiet old new g' : quiet g g' -> live g old -> live g new -> succeeds (sendHeadEvent new (Some old)) g' (fun _ g'' => quiet g g'').
Proof.
  intros Hq Ho Hn. destruct (live_deref old g' Hq Ho) as (on & _ & Eo), (live_deref new g' Hq Hn) as (nn & _ & En).
  unfold sendHeadEvent. m_step. m_step. eapply succeeds_step; [exact En|]. eapply succeeds_step; [exact Eo|]. by apply event_quiet.
Qed.

Lemma reorganise_quiet old new g' : quiet g g' -> live g old -> live g new -> succeeds (reorganise old new) g' (fun _ g'' => quiet g g'').
Proof.
  intros Hq Ho Hn. destruct (live_deref old g' Hq Ho) as (on & _ & Eo), (live_deref new g' Hq Hn) as (nn & _ & En).
  unfold reorganise. m_step. m_step. rewrite (same_heap _ _ (quiet_same _ _ Hq)).
  eapply succeeds_step; [exact Eo|]. eapply succeeds_step; [exact En|]. m_step.
  eapply succeeds_mono; [by apply event_quiet|]. intros [] g1 Hq1.
  destruct (findCommonAncestor (heap g) old new) as [ca reverts] eqn:Ec.
  destruct (findCommonAncestor_live g old new ca reverts Hw Ho Hn Ec) as [Hrev Hca]. m_step.
  eapply succeeds_mono; [apply rewind_quiet|].
  { intros p Hp. rewrite (same_heap _ _ (quiet_same _ _ Hq1)).
    destruct (wf_live g p Hw (Hrev p Hp)) as (n & Hpn & _). eauto. }
  intros [] g2 Hq2. assert (quiet g g2) as Hq2' by (by etransitivity). clear Hq2. rename Hq2' into Hq2.
  destruct ca as [c|]; [|by apply succeeds_ret].
  unfold emitReplayEvents. m_step. m_step. rewrite (same_heap _ _ (quiet_same _ _ Hq2)).
  destruct (frames_of g2 (reverse (before c (lineage (heap g) new)))) as (fs & Efs & _).
  { intros p Hp. rewrite (same_heap _ _ (quiet_same _ _ Hq2)). apply elem_of_reverse, elem_before in Hp.
    destruct (wf_live g p Hw (lineage_live g new p Hw Hn Hp)) as (n & Hpn & _). eauto. }
  eapply succeeds_step; [exact Efs|]. m_step. eapply succeeds_mono; [by apply persist_quiet|]. intros [] g3 Hq3.
  eapply succeeds_mono; [apply sendEvents_quiet; by rewrite (same_stopped _ _ (quiet_same _ _ Hq3))|].
  intros [] g4 Hq4. by etransitivity.
Qed.
End switch.

(** ** The choice of the head *)

Definition depthOf g p : Z := match heap g !! p with Some n => Depth n | None => 0 end.

Definition childless g p : Prop := exists n, heap g !! p = Some n /\ Children n = ∅.

(** The branch of a node as the fork choice sees it. *)
Definition branchOf g p : Branch :=
  branchFrame (equivocators g) <$> omap (fun q => Frame <$> heap g !! q)
    (reverse (take (Z.to_nat maxGlobalTreeDepth) (lineage (heap g) p))).

(** [h] is as deep as any node, and of the nodes of this depth none has a score better by
    more than the tie margin. *)
Definition best g h : Prop :=
  live g h /\ forall p, live g p -> depthOf g p <= depthOf g h /\
    (depthOf g p = depthOf g h -> forall s t, branchScore (branchOf g p) (forkChoiceParams g) = Ok s ->
       branchScore (branchOf g h) (forkChoiceParams g) = Ok t -> s <= t + Epsilon (forkChoiceParams g)).

Lemma rangeNodes_eq g :
  exists ps, rangeNodes g = (Ok ps, set_choices (S (choices g)) g) /\ (wf g -> NoDup ps) /\ forall p, p ∈ ps <-> live g p.
Proof.
  eexists _. split; [reflexivity|]. split.
  { intros Hw. rewrite (visit_all (choices g) (nodes g)). apply NoDup_fmap_2_strong; [|apply NoDup_map_to_list].
    intros [id p] [id' p'] Hx%elem_of_map_to_list Hy%elem_of_map_to_list Hp. cbn in Hp. subst p'.
    destruct (wf_node g Hw _ _ Hx) as (n & Hn & ->), (wf_node g Hw _ _ Hy) as (n' & Hn' & ->). congruence. }
  intros p. rewrite (visit_all (choices g) (nodes g)).
  unfold live. rewrite list_elem_of_fmap. split.
  - intros ([id q] & -> & Hq%elem_of_map_to_list). eauto.
  - intros (id & Hid). exists (id, p). by rewrite elem_of_map_to_list.
Qed.

Lemma rangeNodes_spec g :
  exists ps g', rangeNodes g = (Ok ps, g') /\ quiet g g' /\ forall p, p ∈ ps <-> live g p.
Proof. destruct (rangeNodes_eq g) as (ps & Er & _ & Hps). by exists ps, (set_choices (S (choices g)) g). Qed.

Lemma findLeafNodes_spec g :
  wf g -> exists ps, findLeafNodes g = (Ok ps, set_choices (S (choices g)) g) /\ NoDup ps /\
    forall p, p ∈ ps <-> live g p /\ childless g p.
Proof.
  intros Hw. destruct (rangeNodes_eq g) as (ps & Er & Hnd & Hps). set (g' := set_choices _ g) in *. assert (quiet g g') as Hq by done.
  exists (filter (fun p => Children <$> heap g !! p = Some ∅) ps). split; [|split; [by apply NoDup_filter, Hnd|]].
  - unfold findLeafNodes. rewrite (bind_Ok _ _ _ _ _ Er). apply (filterM_pure (S := reel)). intros p Hp%Hps.
    destruct (wf_live g p Hw Hp) as (n & Hn & _). rewrite Hn.
    erewrite bind_Ok by (apply deref_Ok; rewrite (same_heap _ _ (quiet_same _ _ Hq)); exact Hn).
    cbn. unfold mret, M_ret. f_equal. f_equal. apply bool_decide_ext. split; congruence.
  - intros p. rewrite list_elem_of_filter, Hps. unfold childless. destruct (heap g !! p) as [n|]; cbn; [|naive_solver].
    split; [intros [[= Hc] ?]; eauto|]. intros (? & n' & [= <-] & ->). done.
Qed.

Lemma list_maximum {A} (k : A -> Z) l : l <> [] -> exists x, x ∈ l /\ forall y, y ∈ l -> k y <= k x.
Proof.
  induction l as [|a l IH]; [done|]. intros _. destruct l as [|b l].
  - exists a. split; [left|]. by intros y ->%list_elem_of_singleton.
  - destruct IH as (x & Hx & Hmax); [done|]. destruct (Z_le_gt_dec (k x) (k a)).
    + exists a. split; [left|]. intros y [->|Hy]%elem_of_cons; [done|]. specialize (Hmax y Hy). lia.
    + exists x. split; [by right|]. intros y [->|Hy]%elem_of_cons; [lia|auto].
Qed.

(** A node of maximal depth has no children. *)
Lemma deepest_childless g p :
  wf g -> live g p -> (forall q, live g q -> depthOf g q <= depthOf g p) -> childless g p.
Proof.
  intros Hw Hp Hmax. destruct (wf_live g p Hw Hp) as (n & Hn & _). exists n. split; [done|].
  apply map_empty. intros id. destruct (Children n !! id) as [c|] eqn:Ec; [|done].
  destruct (wf_child g Hw p n id c Hp Hn Ec) as (Hc & cn & Hcn & Hpar & _).
  destruct (wf_parent g Hw c cn p Hc Hcn Hpar) as (n' & _ & Hn' & _ & _ & Hd & _).
  specialize (Hmax c Hc). unfold depthOf in Hmax. rewrite Hcn, Hn in Hmax. simplify_eq. lia.
Qed.

Lemma deepest_exists g p : live g p -> exists q, live g q /\ forall r, live g r -> depthOf g r <= depthOf g q.
Proof.
  intros Hp. destruct (rangeNodes_spec g) as (ps & g' & _ & _ & Hps).
  destruct (list_maximum (depthOf g) ps) as (q & Hq & Hmax).
  - intros ->. by apply Hps, elem_of_nil in Hp.
  - exists q. split; [by apply Hps|]. intros r Hr. by apply Hmax, Hps.
Qed.

Lemma foldl_max_spec l a : a <= foldl Z.max a l /\ (forall x, x ∈ l -> x <= foldl Z.max a l) /\ (foldl Z.max a l = a \/ foldl Z.max a l ∈ l).
Proof.
  revert a. induction l as [|x l IH]; intros a; cbn; [split; [lia|]; split; [set_solver|by left]|].
  destruct (IH (Z.max a x)) as (H1 & H2 & H3). split; [lia|]. split.
  - intros y [->|Hy]%elem_of_cons; [lia|auto].
  - destruct H3 as [->|H3]; [|right; by right]. destruct (Z.max_spec a x) as [[_ ->]|[_ ->]]; [right; left|by left].
Qed.

Lemma Forall2_omap {A B} (k : A -> option B) l l' : Forall2 (fun x y => k x = Some y) l l' -> omap k l = l'.
Proof. induction 1 as [|x y l l' Hx _ IH]; [done|]. cbn. by rewrite Hx, IH. Qed.

Lemma nodeToBranch_spec g p : wf g -> live g p -> nodeToBranch p g = (Ok (branchOf g p), g).
Proof.
  intros Hw Hp. unfold nodeToBranch. erewrite bind_Ok by done. erewrite bind_Ok by done.
  destruct (mapM_pure (S := reel) (fun q => n ← deref q; mret (branchFrame (equivocators g) (Frame n)))
    (fun q b => (fun f => branchFrame (equivocators g) f) <$> (Frame <$> heap g !! q) = Some b)
    (reverse (take (Z.to_nat maxGlobalTreeDepth) (lineage (heap g) p))) g) as (ys & Eys & HF).
  - intros q Hq. apply elem_of_reverse, elem_of_take in Hq as (i & Hi & _). apply list_elem_of_lookup_2 in Hi.
    destruct (wf_live g q Hw (lineage_live g p q Hw Hp Hi)) as (n & Hn & _). exists (branchFrame (equivocators g) (Frame n)).
    rewrite Hn. split; [|done]. by erewrite bind_Ok by (by apply deref_Ok).
  - rewrite Eys. f_equal. f_equal. apply Forall2_omap in HF. rewrite <- HF. unfold branchOf.
    rewrite list_fmap_omap. done.
Qed.

(** The only leaf of maximal depth is the best head. *)
Lemma best_unique g h :
  wf g -> paramsOk (forkChoiceParams g) -> live g h -> (forall p, live g p -> depthOf g p <= depthOf g h) ->
  (forall p, live g p -> childless g p -> depthOf g p = depthOf g h -> p = h) -> best g h.
Proof.
  intros Hw Hpar Hh Hmax Huniq. split; [done|]. intros p Hp. split; [auto|]. intros Hd s t Hs Ht.
  assert (p = h) as ->.
  { apply Huniq; [done| |done]. apply deepest_childless; [done..|]. intros q Hq. rewrite Hd. auto. }
  assert (0 <= Epsilon (forkChoiceParams g)) by apply Hpar. assert (s = t) by congruence. lia.
Qed.

(** A switch of the head followed by an operation that is quiet. *)
Lemma switch_head g g0 x (m : R unit) :
  wf g -> stopped g = false -> quiet g g0 -> live g x ->
  (forall g1, wf g1 -> stopped g1 = false -> head g1 = Some x -> same g g1 -> succeeds m g1 (fun _ g2 => quiet g1 g2)) ->
  succeeds (_ ← modify (set_head (Some x)); m) g0 (fun _ g' => same g g' /\ head g' = Some x).
Proof.
  intros Hw Hs Hq Hx Hm. m_step. m_step. set (g1 := set_head (Some x) g0).
  assert (same g g1) as H1 by (etransitivity; [exact (quiet_same _ _ Hq)|done]).
  eapply succeeds_mono; [apply Hm|].
  - by eapply wf_same.
  - by rewrite (same_stopped _ _ H1).
  - done.
  - done.
  - intros [] g2 Hq2. split; [etransitivity; [exact H1|by apply quiet_same]|by rewrite (quiet_head _ _ Hq2)].
Qed.

Definition evaluated g newNode (g' : reel) : Prop :=
  same g g' /\ exists h', head g' = Some h' /\ live g h' /\
    forall h, head g = Some h ->
      (forall p, live g p -> depthOf g p <= Z.max (depthOf g h) (depthOf g newNode)) -> best g h'.

Section evaluate.
Context (g : reel) (Hw : wf g) (Hs : stopped g = false) (Hpar : paramsOk (forkChoiceParams g)).
Context (newNode h : nat) (Hnew : live g newNode) (Hh : head g = Some h) (Hlh : live g h).

(** Few leaves: the new node becomes the head if it is deeper. *)
Lemma evaluate_single g0 leaves :
  quiet g g0 -> (forall p, p ∈ leaves <-> live g p /\ childless g p) -> (length leaves <= 1)%nat ->
  succeeds (new ← deref newNode; old ← deref h;
    if Depth old <? Depth new
    then _ ← modify (set_head (Some newNode)); _ ← ignore (persistCanonicalFrames [Frame new]); sendHeadEvent newNode (Some h)
    else mret tt) g0 (fun _ g' => evaluated g newNode g').
Proof.
  intros Hq Hleaves Hlen.
  destruct (live_deref g Hw newNode g0 Hq Hnew) as (nn & Hnn & Ed), (live_deref g Hw h g0 Hq Hlh) as (hn & Hhn & Eh).
  eapply succeeds_step; [exact Ed|]. eapply succeeds_step; [exact Eh|].
  assert (forall x, live g x -> (forall p, live g p -> depthOf g p <= depthOf g x) -> best g x) as Hbest.
  { intros x Hx Hmax. apply best_unique; [done..|]. intros p Hp Hc Hd.
    assert (p ∈ leaves) as H1 by by apply Hleaves.
    assert (x ∈ leaves) as H2 by (apply Hleaves; split; [done|by apply deepest_childless]).
    destruct leaves as [|y [|? ?]]; cbn in Hlen; [by apply elem_of_nil in H1| |lia].
    apply list_elem_of_singleton in H1, H2. congruence. }
  assert (depthOf g h = Depth hn /\ depthOf g newNode = Depth nn) as [Edh Edn] by (unfold depthOf; by rewrite Hhn, Hnn).
  destruct (Z.ltb_spec (Depth hn) (Depth nn)) as [Hlt|Hge].
  - eapply succeeds_mono; [apply (switch_head g g0 newNode); [done..|]|].
    + intros g1 Hw1 Hs1 Hh1 Hsame. m_step.
      eapply succeeds_mono; [apply (persist_quiet g1 Hw1 newNode Hh1); [by rewrite (live_same _ _ _ Hsame)|done]|].
      intros [] g2 Hq2. apply (sendHeadEvent_quiet g1 Hw1 Hs1); [done|by rewrite (live_same _ _ _ Hsame)..].
    + intros [] g' [Hsame Hhead]. split; [done|]. exists newNode. split; [done|]. split; [done|].
      intros h' Hh' Hcov. assert (h' = h) as -> by congruence. apply Hbest; [done|]. intros p Hp. specialize (Hcov p Hp). lia.
  - apply succeeds_ret. split; [by apply quiet_same|]. exists h. split; [by rewrite (quiet_head _ _ Hq)|]. split; [done|].
    intros h' Hh' Hcov. assert (h' = h) as -> by congruence. apply Hbest; [done|]. intros p Hp. specialize (Hcov p Hp). lia.
Qed.

(** The leaves of maximal depth. *)
Lemma competing_spec g0 leaves :
  quiet g g0 -> (forall p, p ∈ leaves <-> live g p /\ childless g p) ->
  exists depths competing,
    mapM (fun p => n ← deref p; mret (Depth n)) leaves g0 = (Ok depths, g0) /\
    filterM (fun p => n ← deref p; mret (Depth n =? foldl Z.max 0 depths)) leaves g0 = (Ok competing, g0) /\
    competing <> [] /\ (forall p, p ∈ competing -> live g p /\ forall q, live g q -> depthOf g q <= depthOf g p) /\
    forall p, live g p -> (forall q, live g q -> depthOf g q <= depthOf g p) -> p ∈ competing.
Proof.
  intros Hq Hleaves.
  assert (forall p, p ∈ leaves -> exists n, heap g !! p = Some n /\ deref p g0 = (Ok n, g0)) as Hd.
  { intros p [Hp _]%Hleaves. by apply (live_deref g Hw). }
  destruct (mapM_pure (S := reel) (fun p => n ← deref p; mret (Depth n)) (fun p d => d = depthOf g p) leaves g0)
    as (depths & Em & HF).
  { intros p Hp. destruct (Hd p Hp) as (n & Hn & Ed). exists (Depth n). unfold depthOf. rewrite Hn. split; [|done].
    by erewrite bind_Ok by exact Ed. }
  assert (depths = depthOf g <$> leaves) as -> by (clear -HF; induction HF; cbn; by f_equal).
  destruct (foldl_max_spec (depthOf g <$> leaves) 0) as (Hge0 & Hge & Hor).
  set (maxDepth := foldl Z.max 0 (depthOf g <$> leaves)) in *.
  exists (depthOf g <$> leaves), (filter (fun p => depthOf g p = maxDepth) leaves). split; [done|].
  destruct (deepest_exists g newNode Hnew) as (pm & Hpm & Hmax).
  assert (pm ∈ leaves) as Hpl by (apply Hleaves; split; [done|by apply deepest_childless]).
  assert (maxDepth = depthOf g pm) as Hm.
  { apply Z.le_antisymm; [|apply Hge, list_elem_of_fmap; eauto].
    destruct Hor as [E0|Ein].
    - rewrite E0. destruct (wf_live g pm Hw Hpm) as (n & Hn & _). unfold depthOf. rewrite Hn. by apply (wf_depth g Hw pm).
    - apply list_elem_of_fmap in Ein as (p & -> & Hp). apply Hmax. by apply Hleaves. }
  assert (forall p, live g p -> (forall q, live g q -> depthOf g q <= depthOf g p) -> p ∈ filter (fun p => depthOf g p = maxDepth) leaves) as Hin.
  { intros p Hp Hpmax. apply list_elem_of_filter. split; [|apply Hleaves; split; [done|by apply deepest_childless]].
    rewrite Hm. apply Z.le_antisymm; auto. }
  split.
  { apply (filterM_pure (S := reel)). intros p Hp. destruct (Hd p Hp) as (n & Hn & Ed). erewrite bind_Ok by exact Ed.
    assert (depthOf g p = Depth n) as -> by (unfold depthOf; by rewrite Hn). unfold mret, M_ret. fold maxDepth.
    by destruct (Z.eqb_spec (Depth n) maxDepth); [rewrite bool_decide_true|rewrite bool_decide_false]. }
  split. { intros E0. specialize (Hin pm Hpm Hmax). rewrite E0 in Hin. by apply elem_of_nil in Hin. }
  split; [|done]. intros p [Hpd Hp]%list_elem_of_filter. split; [by apply Hleaves|]. intros q Hq'. rewrite Hpd, Hm. auto.
Qed.

(** Several competing leaves: the fork choice decides. *)
Lemma choose_spec g0 competing :
  quiet g g0 -> competing <> [] -> (forall p, p ∈ competing -> live g p) ->
  exists branches i x,
    mapM nodeToBranch competing g0 = (Ok branches, g0) /\
    ForkChoice branches (forkChoiceParams g) (prevChoiceOf h competing) = Ok i /\
    index competing i = Ok x /\ x ∈ competing /\
    forall p s t, p ∈ competing -> branchScore (branchOf g p) (forkChoiceParams g) = Ok s ->
      branchScore (branchOf g x) (forkChoiceParams g) = Ok t -> s <= t + Epsilon (forkChoiceParams g).
Proof.
  intros Hq Hne Hlive. assert (wf g0) as Hw0 by (eapply wf_same; [by apply quiet_same|done]).
  destruct (mapM_pure (S := reel) nodeToBranch (fun p b => b = branchOf g p) competing g0) as (branches & Em & HF).
  { intros p Hp. exists (branchOf g0 p). split.
    - apply nodeToBranch_spec; [done|]. rewrite (live_same _ _ _ (quiet_same _ _ Hq)). auto.
    - unfold branchOf. by rewrite (same_heap _ _ (quiet_same _ _ Hq)), (same_equivocators _ _ (quiet_same _ _ Hq)). }
  assert (branches = branchOf g <$> competing) as -> by (clear -HF; induction HF; cbn; by f_equal).
  destruct (ForkChoice_best (forkChoiceParams g) (branchOf g <$> competing) (prevChoiceOf h competing)) as
    (i & s & Ei & (b & Hb & Hbs) & Hmax & _).
  { done. }
  { rewrite length_fmap. unfold prevChoiceOf. destruct (list_find _ _) as [[j y]|] eqn:Ef.
    - apply list_find_Some in Ef as (Hy & _ & _). apply lookup_lt_Some in Hy. lia.
    - destruct competing; [done|]. cbn. lia. }
  apply index_Ok in Hb as [Hi Hb]. rewrite list_lookup_fmap in Hb. apply fmap_Some in Hb as (x & Hx & ->).
  exists (branchOf g <$> competing), i, x. split; [done|]. split; [done|]. split; [by apply index_Ok|].
  split; [by eapply list_elem_of_lookup_2|]. intros p s' t Hp Hs' Ht. assert (t = s) as -> by congruence.
  apply list_elem_of_lookup in Hp as (j & Hj). apply (Hmax (Z.of_nat j)). exists (branchOf g p). split; [|done].
  apply index_Ok. rewrite Nat2Z.id, list_lookup_fmap, Hj. split; [lia|done].
Qed.

Lemma evaluate_spec : succeeds (evaluateForkChoice newNode) g (fun _ g' => evaluated g newNode g').
Proof.
  unfold evaluateForkChoice. m_step. m_step. rewrite Hh.
  destruct (findLeafNodes_spec g Hw) as (leaves & El & _ & Hleaves). eapply succeeds_step; [exact El|].
  set (g0 := set_choices _ g). assert (quiet g g0) as Hq by done.
  destruct (Nat.leb_spec (length leaves) 1) as [Hlen|Hlen]; [by apply evaluate_single with leaves|].
  destruct (competing_spec g0 leaves Hq Hleaves) as (depths & competing & Em & Ef & Hne & Hcomp & Hall).
  eapply succeeds_step; [exact Em|]. cbn zeta. eapply succeeds_step; [exact Ef|].
  assert (forall x, x ∈ competing ->
    (forall p s t, p ∈ competing -> branchScore (branchOf g p) (forkChoiceParams g) = Ok s ->
      branchScore (branchOf g x) (forkChoiceParams g) = Ok t -> s <= t + Epsilon (forkChoiceParams g)) -> best g x) as Hbest.
  { intros x Hx Hopt. destruct (Hcomp x Hx) as [Hlx Hmaxx]. split; [done|]. intros p Hp. split; [auto|].
    intros Hd s t. apply Hopt, Hall; [done|]. intros q Hq'. rewrite Hd. auto. }
  assert (forall x m, x ∈ competing -> best g x ->
    (forall g1, wf g1 -> stopped g1 = false -> head g1 = Some x -> same g g1 -> succeeds m g1 (fun _ g2 => quiet g1 g2)) ->
    succeeds (if bool_decide (x = h) then mret tt else _ ← modify (set_head (Some x)); m) g0
      (fun _ g' => evaluated g newNode g')) as Hswitch.
  { intros x m Hx Hb Hm. case_bool_decide as Exh.
    - subst x. apply succeeds_ret. split; [by apply quiet_same|]. exists h. by rewrite (quiet_head _ _ Hq).
    - eapply succeeds_mono; [apply (switch_head g g0 x m); [done..|apply Hcomp; done|done]|].
      intros [] g' [Hsame Hhead]. split; [done|]. exists x. split; [done|]. split; [by apply Hcomp|done]. }
  destruct competing as [|c [|c' rest]]; [done| |].
  - apply Hswitch; [left| |].
    + apply Hbest; [left|]. intros p s t ->%list_elem_of_singleton Hs' Ht. assert (0 <= Epsilon (forkChoiceParams g)) by apply Hpar.
      assert (s = t) by congruence. lia.
    + intros g1 Hw1 Hs1 Hh1 Hsame. m_step. m_step.
      assert (live g1 h /\ live g1 c /\ live g1 newNode) as (L1 & L2 & L3).
      { rewrite !(live_same _ _ _ Hsame). split; [done|]. split; [apply Hcomp; left|done]. }
      case_match; [|by apply (reorganise_quiet g1 Hw1 Hs1 c)].
      destruct (live_deref g1 Hw1 newNode g1 ltac:(done) L3) as (nn & _ & Ed). eapply succeeds_step; [exact Ed|]. m_step.
      eapply succeeds_mono; [by apply (persist_quiet g1 Hw1 c)|]. intros [] g2 Hq2. by apply (sendAdvance_quiet g1 Hw1 Hs1).
  - destruct (choose_spec g0 (c :: c' :: rest) Hq Hne ltac:(intros; by apply Hcomp)) as (branches & i & x & Eb & Ei & Ex & Hx & Hopt).
    eapply succeeds_step; [exact Eb|]. m_step. m_step. rewrite (same_params _ _ (quiet_same _ _ Hq)), Ei. m_step. m_step.
    rewrite Ex. m_step. m_step. apply Hswitch; [done|by apply Hbest|].
    intros g1 Hw1 Hs1 Hh1 Hsame. m_step. m_step.
    assert (live g1 h /\ live g1 x) as (L1 & L2) by (rewrite !(live_same _ _ _ Hsame); split; [done|by apply Hcomp]).
    case_match; [by apply (sendAdvance_quiet g1 Hw1 Hs1)|by apply (reorganise_quiet g1 Hw1 Hs1 x)].
Qed.
End evaluate.

(** ** Growing the tree *)

(** The nodes of [g] are nodes of [g'], with the same frame, parent and depth. *)
Record extends g g' : Prop := {
  ext_heap p n : heap g !! p = Some n ->
    exists n', heap g' !! p = Some n' /\ Frame n' = Frame n /\ Parent n' = Parent n /\ Depth n' = Depth n;
  ext_nodes id p : nodes g !! id = Some p -> nodes g' !! id = Some p;
  ext_next : (next g <= next g')%nat;
  ext_root : root g' = root g;
  ext_params : forkChoiceParams g' = forkChoiceParams g;
  ext_stopped : stopped g' = stopped g;
  ext_equivocators : equivocators g' = equivocators g
}.

#[export] Instance extends_preorder : PreOrder extends.
Proof.
  split.
  - intros g. split; eauto.
  - intros g1 g2 g3 [] []. split; eauto; try congruence; [|lia].
    intros p n Hn. destruct (ext_heap0 p n Hn) as (n' & Hn' & ? & ? & ?).
    destruct (ext_heap1 p n' Hn') as (n'' & Hn'' & ? & ? & ?). exists n''. repeat split; congruence.
Qed.

Lemma same_extends g g' : same g g' -> extends g g'.
Proof.
  unfold same, body. intros Hs. injection Hs as Hr Hn Hf Hp Hpa Hc He Hst Hh Hne.
  split; rewrite <- ?Hr, <- ?Hn, <- ?Hpa, <- ?He, <- ?Hst, <- ?Hh, <- ?Hne; eauto.
Qed.

Lemma ext_live g g' p : extends g g' -> live g p -> live g' p.
Proof. intros He (id & Hid). exists id. by apply (ext_nodes g g' He). Qed.

Lemma ext_depth g g' p : wf g -> extends g g' -> live g p -> depthOf g' p = depthOf g p.
Proof.
  intros Hw He Hp. destruct (wf_live g p Hw Hp) as (n & Hn & _).
  destruct (ext_heap g g' He p n Hn) as (n' & Hn' & _ & _ & Hd). unfold depthOf. by rewrite Hn, Hn'.
Qed.

Lemma live_lt g p : wf g -> live g p -> (p < next g)%nat.
Proof. intros Hw Hp. destruct (wf_live g p Hw Hp) as (n & Hn & _). apply (wf_alloc g Hw). eauto. Qed.

(** The state after [link]. *)
Definition linkState g f (frameID : bytes) (parent : nat) (pn : GlobalFrameNode.t) : reel :=
  mkReel (root g) (<[frameID := next g]> (nodes g))
    (<[FrameNumber f := default [] (framesByNumber g !! FrameNumber f) ++ [next g]]> (framesByNumber g))
    (head g) (pendingFrames g) (forkChoiceParams g) (cacheAdd frameID (next g) (cache g)) (equivocators g) (stopped g)
    (<[parent := mk (Frame pn) (Parent pn) (<[frameID := next g]> (Children pn)) (Depth pn)]>
       (<[next g := mk f (Some parent) ∅ (Depth pn + 1)]> (heap g)))
    (S (next g)) (events g) (effects g) (choices g).

Section link.
Context (g : reel) (Hw : wf g) (Hmax : Z.of_nat (next g) < 2 ^ 64).
Context (f : frame) (parent : nat) (pn : GlobalFrameNode.t).
Context (Hparent : live g parent) (Hpn : heap g !! parent = Some pn) (Hsel : ParentSelector f = selectorOf (Frame pn)).
Context (Hnew : nodes g !! ComputeFrameID f = None).
Let g' := linkState g f (ComputeFrameID f) parent pn.

Lemma link_eq : link f (ComputeFrameID f) parent g = (Ok (next g), g').
Proof.
  pose proof (live_lt g parent Hw Hparent) as Hlt. pose proof (wf_depth g Hw parent pn Hparent Hpn) as Hd.
  assert (u64 (Depth pn + 1) = Depth pn + 1) as Hu by (apply uwrap_small; unfold is_u; lia).
  unfold link. erewrite bind_Ok by (by apply deref_Ok). erewrite bind_Ok by reflexivity. erewrite bind_Ok by reflexivity.
  erewrite bind_Ok by reflexivity. erewrite bind_Ok.
  2:{ apply deref_Ok. cbn. by rewrite lookup_insert_ne by lia. }
  erewrite bind_Ok by reflexivity. erewrite bind_Ok by reflexivity. cbn. rewrite Hu. reflexivity.
Qed.

Lemma link_heap p :
  heap g' !! p =
  if decide (p = parent) then Some (mk (Frame pn) (Parent pn) (<[ComputeFrameID f := next g]> (Children pn)) (Depth pn))
  else if decide (p = next g) then Some (mk f (Some parent) ∅ (Depth pn + 1)) else heap g !! p.
Proof.
  cbn. case_decide as E1; [subst; by rewrite lookup_insert_eq|]. rewrite lookup_insert_ne by done.
  case_decide as E2; [subst; by rewrite lookup_insert_eq|by rewrite lookup_insert_ne].
Qed.

Lemma link_live p : live g' p <-> p = next g \/ live g p.
Proof.
  unfold live. cbn. split.
  - intros (id & [[_ <-]|[_ Hid]]%lookup_insert_Some); [by left|right; eauto].
  - intros [->|(id & Hid)]; [exists (ComputeFrameID f); by rewrite lookup_insert_eq|].
    exists id. rewrite lookup_insert_ne; [done|]. congruence.
Qed.

Lemma link_extends : extends g g'.
Proof.
  pose proof (live_lt g parent Hw Hparent) as Hlt.
  split; try done; [| |cbn; lia].
  - intros p n Hn. rewrite link_heap. case_decide as E1; [subst; eexists; split; [reflexivity|]; by simplify_eq|].
    rewrite decide_False; [eauto|]. intros ->. assert (next g < next g)%nat by (apply (wf_alloc g Hw); eauto). lia.
  - intros id p Hp. cbn. rewrite lookup_insert_ne; [done|congruence].
Qed.

(** Nodes that were there keep everything but the children of the parent. *)
Lemma link_old p n :
  live g p -> heap g' !! p = Some n ->
  exists n0, heap g !! p = Some n0 /\ Frame n = Frame n0 /\ Parent n = Parent n0 /\ Depth n = Depth n0 /\
    Children n = if decide (p = parent) then <[ComputeFrameID f := next g]> (Children n0) else Children n0.
Proof.
  intros Hp. rewrite link_heap. pose proof (live_lt g p Hw Hp). case_decide as E1.
  - subst. intros [= <-]. exists pn. done.
  - rewrite decide_False by lia. intros Hn. by exists n.
Qed.

Lemma link_node : heap g' !! next g = Some (mk f (Some parent) ∅ (Depth pn + 1)).
Proof. pose proof (live_lt g parent Hw Hparent) as Hlt. rewrite link_heap, decide_False, decide_True by lia. done. Qed.

Lemma link_parents p n q :
  live g' p -> heap g' !! p = Some n -> Parent n = Some q ->
  exists qn, live g' q /\ heap g' !! q = Some qn /\ (q < p)%nat /\ ParentSelector (Frame n) = selectorOf (Frame qn) /\
    Depth n = Depth qn + 1 /\ Children qn !! ComputeFrameID (Frame n) = Some p.
Proof.
  pose proof (live_lt g parent Hw Hparent) as Hlt. intros [->|Hp]%link_live Hn Hq.
  - rewrite link_node in Hn. injection Hn as <-. injection Hq as <-. eexists. split; [apply link_live; by right|].
    split; [rewrite link_heap, decide_True by done; reflexivity|]. cbn. split; [done|]. split; [done|]. split; [done|].
    by rewrite lookup_insert_eq.
  - destruct (link_old p n Hp Hn) as (n0 & Hn0 & HF & HP & HD & _). rewrite HP in Hq.
    destruct (wf_parent g Hw p n0 q Hp Hn0 Hq) as (qn & Hlq & Hqn & Hqp & Hs & Hdq & Hc).
    destruct (ext_heap _ _ link_extends q qn Hqn) as (qn' & Hqn' & HFq & _ & HDq). exists qn'.
    split; [apply link_live; by right|]. split; [done|]. split; [done|]. rewrite HF, HFq, HD, HDq. split; [done|]. split; [done|].
    destruct (link_old q qn' Hlq Hqn') as (qn0 & Hqn0 & _ & _ & _ & ->). simplify_eq. case_decide; [|done].
    rewrite lookup_insert_ne; [done|]. intros E0. destruct (wf_live g p Hw Hp) as (n1 & Hn1 & Hid).
    assert (n1 = n0) as -> by congruence. rewrite E0 in Hnew. congruence.
Qed.

Lemma link_children q qn id p :
  live g' q -> heap g' !! q = Some qn -> Children qn !! id = Some p ->
  live g' p /\ exists n, heap g' !! p = Some n /\ Parent n = Some q /\ id = ComputeFrameID (Frame n).
Proof.
  intros [->|Hq]%link_live Hqn Hc; [rewrite link_node in Hqn; injection Hqn as <-; cbn in Hc; by rewrite lookup_empty in Hc|].
  destruct (link_old q qn Hq Hqn) as (qn0 & Hqn0 & _ & _ & _ & HCh). rewrite HCh in Hc.
  assert (forall c, Children qn0 !! id = Some c -> live g' c /\ exists n, heap g' !! c = Some n /\ Parent n = Some q /\ id = ComputeFrameID (Frame n)) as Hold.
  { intros c Hc0. destruct (wf_child g Hw q qn0 id c Hq Hqn0 Hc0) as (Hlc & n & Hn & HP & ->).
    destruct (ext_heap _ _ link_extends c n Hn) as (n' & Hn' & HF & HP' & _). split; [apply link_live; by right|].
    exists n'. by rewrite HF, HP'. }
  case_decide as E1; [|by apply Hold]. apply lookup_insert_Some in Hc as [[<- <-]|[_ Hc]]; [|by apply Hold].
  split; [apply link_live; by left|]. rewrite link_node. eexists. split; [done|]. cbn. by subst.
Qed.

Lemma link_number k p :
  p ∈ default [] (framesByNumber g' !! k) <-> live g' p /\ exists n, heap g' !! p = Some n /\ FrameNumber (Frame n) = k.
Proof.
  pose proof link_node as Hnn. cbn [framesByNumber g' linkState]. rewrite link_live.
  assert (live g p -> ((exists n, heap g' !! p = Some n /\ FrameNumber (Frame n) = k) <-> (exists n, heap g !! p = Some n /\ FrameNumber (Frame n) = k))) as Hsame.
  { intros Hp. split.
    - intros (n & Hn & Hk). destruct (link_old p n Hp Hn) as (n0 & Hn0 & HF & _). exists n0. by rewrite <- HF.
    - intros (n & Hn & Hk). destruct (ext_heap _ _ link_extends p n Hn) as (n' & Hn' & HF & _). exists n'. by rewrite HF. }
  assert (p ∈ default [] (framesByNumber g !! k) <-> live g p /\ exists n, heap g' !! p = Some n /\ FrameNumber (Frame n) = k) as Hold.
  { rewrite (wf_number g Hw). split; (intros [Hp Hk]; split; [done|]; by apply Hsame). }
  destruct (decide (FrameNumber f = k)) as [<-|Hk].
  - rewrite lookup_insert_eq. cbn [default]. unfold default, id. rewrite elem_of_app, list_elem_of_singleton. fold (@id (list nat)).
    rewrite Hold. split; [intros [[]| ->]; eauto|]. intros [[->|Hp] Hn]; [by right|by left].
  - rewrite lookup_insert_ne by done. rewrite Hold. split; [intros []; eauto|]. intros [[->|Hp] (n & Hn & Hk')]; [|eauto].
    rewrite Hnn in Hn. injection Hn as <-. done.
Qed.

Lemma link_wf : wf g'.
Proof.
  pose proof (live_lt g parent Hw Hparent) as Hlt. pose proof (wf_depth g Hw parent pn Hparent Hpn) as Hd.
  pose proof link_node as Hnn.
  split.
  - intros id p. cbn [nodes g' linkState]. intros [[<- <-]|[Hid Hp]]%lookup_insert_Some; [eauto|].
    destruct (wf_node g Hw id p Hp) as (n & Hn & ->). destruct (ext_heap _ _ link_extends p n Hn) as (n' & Hn' & Hf & _).
    exists n'. by rewrite Hf.
  - apply link_parents.
  - apply link_children.
  - intros p. rewrite link_heap. cbn [next g' linkState]. case_decide; [intros _; subst; lia|]. case_decide; [intros _; lia|].
    intros Hp. pose proof (wf_alloc g Hw p Hp). lia.
  - intros p n [->|Hp]%link_live Hn; [rewrite Hnn in Hn; injection Hn as <-; cbn; lia|].
    destruct (link_old p n Hp Hn) as (n0 & Hn0 & _ & _ & -> & _). by apply (wf_depth g Hw p).
  - intros p Hp. cbn in Hp. destruct (wf_root g Hw p Hp) as (n & Hl & Hn & HP).
    destruct (ext_heap _ _ link_extends p n Hn) as (n' & Hn' & _ & HP' & _). exists n'. rewrite link_live, HP'. auto.
  - apply link_number.
  - intros id p. cbn [cache nodes g' linkState]. intros [[-> ->]|[Hid Hp]]%cacheGet_add; [by rewrite lookup_insert_eq|].
    rewrite lookup_insert_ne by done. by apply (wf_cache g Hw).
Qed.
End link.

(** ** States between operations *)

(** Waiting frames are filed under the selector of their parent and not genesis frames. *)
Definition pendingOk g : Prop :=
  forall sel l, pendingFrames g !! sel = Some l ->
    l <> [] /\ Forall (fun x => ParentSelector (GlobalPendingFrame.Frame x) = sel /\
                         FrameNumber (GlobalPendingFrame.Frame x) <> genesisFrameNumber) l.

Record ready g : Prop := {
  ready_wf : wf g;
  ready_stopped : stopped g = false;
  ready_params : paramsOk (forkChoiceParams g);
  ready_head : match head g with Some h => live g h | None => nodes g = ∅ /\ root g = None end;
  ready_pending : pendingOk g;
  ready_genesis p n : live g p -> heap g !! p = Some n -> FrameNumber (Frame n) = genesisFrameNumber -> root g = Some p
}.

(** No frame waits for [p]. *)
Definition settledAt g p : Prop := forall n, heap g !! p = Some n -> pendingFrames g !! selectorOf (Frame n) = None.

Definition settled g : Prop := forall p, live g p -> settledAt g p.

(** The head is the best. *)
Definition top g : Prop := exists h, head g = Some h /\ best g h.

(** No node but those below [p] is deeper than the head. *)
Definition covered g p : Prop :=
  forall h q, head g = Some h -> live g q -> depthOf g q <= Z.max (depthOf g h) (depthOf g p).

Lemma ready_some g p : ready g -> live g p -> exists h, head g = Some h /\ live g h.
Proof.
  intros [_ _ _ ready_head0 _ _] (id & Hid). destruct (head g) as [h|]; [eauto|]. destruct ready_head0 as [E0 _]. rewrite E0 in Hid.
  by rewrite lookup_empty in Hid.
Qed.

Lemma depthOf_same g g' p : same g g' -> depthOf g' p = depthOf g p.
Proof. intros Hs. unfold depthOf. by rewrite (same_heap _ _ Hs). Qed.

Lemma branchOf_same g g' p : same g g' -> branchOf g' p = branchOf g p.
Proof. intros Hs. unfold branchOf. by rewrite (same_heap _ _ Hs), (same_equivocators _ _ Hs). Qed.

Lemma best_same g g' h : same g g' -> best g h -> best g' h.
Proof.
  intros Hs [Hl Hb]. split; [by rewrite (live_same _ _ _ Hs)|]. intros p. rewrite (live_same _ _ _ Hs).
  rewrite !(depthOf_same _ _ _ Hs), !(branchOf_same _ _ _ Hs), (same_params _ _ Hs). apply Hb.
Qed.

Lemma top_covered g p : top g -> covered g p.
Proof. intros (h & Hh & _ & Hb) h' q Hh' Hq. assert (h' = h) as -> by congruence. destruct (Hb q Hq). lia. Qed.

Lemma evaluate_ready g p :
  ready g -> live g p ->
  succeeds (evaluateForkChoice p) g (fun _ g' => ready g' /\ same g g' /\ (covered g p -> top g')).
Proof.
  intros Hr Hp. destruct (ready_some g p Hr Hp) as (h & Hh & Hlh). destruct Hr as [Hw Hs Hpar _ Hpend Hgen].
  eapply succeeds_mono; [by apply (evaluate_spec g Hw Hs Hpar p h)|]. intros [] g' (Hsame & h' & Hh' & Hlh' & Hbest).
  split; [|split; [done|]].
  - split; [by eapply wf_same|by rewrite (same_stopped _ _ Hsame)|by rewrite (same_params _ _ Hsame)| | |].
    + rewrite Hh'. by rewrite (live_same _ _ _ Hsame).
    + unfold pendingOk. by rewrite (same_pending _ _ Hsame).
    + intros q n. rewrite (live_same _ _ _ Hsame), (same_heap _ _ Hsame). rewrite (ext_root _ _ (same_extends _ _ Hsame)). apply Hgen.
  - intros Hcov. exists h'. split; [done|]. eapply best_same; [done|]. apply (Hbest h); [done|]. intros q. by apply Hcov.
Qed.

(** There is a root while there are nodes, and the nodes without parent are all at one
    depth. *)
Definition anchored g : Prop :=
  (root g = None -> nodes g = ∅) /\ exists m, forall p n, live g p -> heap g !! p = Some n -> Parent n = None -> Depth n = m.

Lemma anchored_same g g' : same g g' -> anchored g -> anchored g'.
Proof.
  intros Hs. unfold anchored, live. by rewrite (same_nodes _ _ Hs), (same_heap _ _ Hs), (ext_root _ _ (same_extends _ _ Hs)).
Qed.

(** The number of frames that wait. *)
Definition pendingCount g : nat := map_fold (fun _ l k => (length l + k)%nat) 0%nat (pendingFrames g).

Lemma count_delete (m : gmap bytes (list GlobalPendingFrame.t)) sel l :
  m !! sel = Some l ->
  map_fold (fun _ l k => (length l + k)%nat) 0%nat m =
  (length l + map_fold (fun _ (l : list GlobalPendingFrame.t) k => (length l + k)%nat) 0%nat (delete sel m))%nat.
Proof. intros Hl. apply (map_fold_delete_L (fun _ (l : list GlobalPendingFrame.t) k => (length l + k)%nat) 0%nat sel l m); [intros; lia|done]. Qed.

Lemma count_insert (m : gmap bytes (list GlobalPendingFrame.t)) sel l :
  (map_fold (fun _ l k => (length l + k)%nat) 0%nat (<[sel := l]> m) + length (default [] (m !! sel)) =
   length l + map_fold (fun _ (l : list GlobalPendingFrame.t) k => (length l + k)%nat) 0%nat m)%nat.
Proof.
  rewrite (count_delete (<[sel := l]> m) sel l) by (by rewrite lookup_insert_eq). rewrite delete_insert_eq.
  destruct (m !! sel) as [l'|] eqn:E0; cbn.
  - rewrite (count_delete m sel l') by done. lia.
  - rewrite delete_id by done. lia.
Qed.

(** Pointers do not run out. *)
Definition room (bound : nat) g : Prop := (next g + pendingCount g <= bound)%nat /\ Z.of_nat bound < 2 ^ 64.

(** What processing the frames that wait for [parent] achieves. *)
Record processed (bound : nat) (parent : nat) g g' : Prop := {
  pr_ready : ready g';
  pr_extends : extends g g';
  pr_pending : pendingFrames g' ⊆ pendingFrames g;
  pr_room : room bound g';
  pr_covered : covered g parent -> covered g' parent;
  pr_anchored : anchored g -> anchored g'
}.

Lemma processed_refl bound parent g : ready g -> room bound g -> processed bound parent g g.
Proof. by split. Qed.

Lemma processed_trans bound parent g1 g2 g3 :
  processed bound parent g1 g2 -> processed bound parent g2 g3 -> processed bound parent g1 g3.
Proof. intros [] []. split; eauto; by etransitivity. Qed.

Lemma settledAt_mono g g' p :
  wf g -> extends g g' -> pendingFrames g' ⊆ pendingFrames g -> live g p -> settledAt g p -> settledAt g' p.
Proof.
  intros Hw He Hp Hl Hs n' Hn'. destruct (wf_live g p Hw Hl) as (n & Hn & _).
  destruct (ext_heap g g' He p n Hn) as (n'' & Hn'' & HF & _). assert (n'' = n') as -> by congruence. rewrite HF.
  eapply lookup_weaken_None; [|exact Hp]. by apply Hs.
Qed.

(** Linking a frame: the state stays ready, and only the new node may be unsettled. *)
Lemma link_ready g f parent pn :
  ready g -> Z.of_nat (next g) < 2 ^ 64 -> live g parent -> heap g !! parent = Some pn ->
  ParentSelector f = selectorOf (Frame pn) -> FrameNumber f <> genesisFrameNumber -> nodes g !! ComputeFrameID f = None ->
  let g' := linkState g f (ComputeFrameID f) parent pn in
  link f (ComputeFrameID f) parent g = (Ok (next g), g') /\ ready g' /\ extends g g' /\ live g' (next g) /\
  (settled g -> forall p, live g' p -> p <> next g -> settledAt g' p) /\ (covered g parent -> covered g' (next g)) /\
  (anchored g -> anchored g').
Proof.
  intros Hr Hmax Hl Hpn Hsel Hnum Hnew g'. pose proof Hr as [Hw Hs Hpar Hh Hpend Hgen].
  pose proof (link_extends g Hw f parent pn Hl Hpn Hnew) as He.
  assert (forall p, live g' p <-> p = next g \/ live g p) as Hlive by (intros; by apply link_live).
  assert (heap g' !! next g = Some (mk f (Some parent) ∅ (Depth pn + 1))) as Hnn.
  { pose proof (live_lt g parent Hw Hl). unfold g'. rewrite (link_heap g f parent pn), decide_False, decide_True by lia. done. }
  split; [by apply link_eq|]. split; [|split; [done|]; split; [|split; [|split]]].
  - split; [by apply link_wf|done|done| |done|].
    + destruct (ready_some g parent Hr Hl) as (h & Hhh & Hlh). change (head g') with (head g). rewrite Hhh. apply Hlive. by right.
    + intros p n [->|Hp]%Hlive Hn Hg; [rewrite Hnn in Hn; injection Hn as <-; done|]. change (root g') with (root g).
      destruct (link_old g Hw f parent pn Hpn p n Hp Hn) as (n0 & Hn0 & HF & _). rewrite HF in Hg. by eapply Hgen.
  - apply Hlive. by left.
  - intros Hset p [->|Hp]%Hlive Hne; [done|]. by apply (settledAt_mono g); [..|apply Hset].
  - intros Hcov h q Hhq [->|Hq]%Hlive; [lia|]. change (head g') with (head g) in Hhq.
    assert (live g h) as Hlh by (rewrite Hhq in Hh; done).
    rewrite (ext_depth g g' q), (ext_depth g g' h) by done. specialize (Hcov h q Hhq Hq).
    assert (depthOf g parent = Depth pn) as E1 by (unfold depthOf; by rewrite Hpn).
    assert (depthOf g' (next g) = Depth pn + 1) as E2.
    { unfold depthOf. by rewrite Hnn. }
    lia.
  - intros [Hroot (m & Hm)]. split; [change (root g') with (root g); intros Hn%Hroot|].
    + destruct Hl as (id & Hid). rewrite Hn in Hid. by rewrite lookup_empty in Hid.
    + exists m. intros p n [->|Hp]%Hlive Hn HP; [rewrite Hnn in Hn; injection Hn as <-; done|].
      destruct (link_old g Hw f parent pn Hpn p n Hp Hn) as (n0 & Hn0 & _ & HP0 & -> & _). apply (Hm p n0); [done|done|congruence].
Qed.

Definition processes fuel : Prop := forall g parent bound,
  ready g -> live g parent -> room bound g -> (size (pendingFrames g) < fuel)%nat ->
  succeeds (processPendingFrames fuel parent) g (fun _ g' => processed bound parent g g' /\
    ((forall p, live g p -> p <> parent -> settledAt g p) -> settled g')).

Section process.
Context (fuel : nat) (IH : processes fuel) (g : reel) (parent bound : nat) (pn : GlobalFrameNode.t).
Context (Hr : ready g) (Hl : live g parent) (Hpn : heap g !! parent = Some pn) (Hb : Z.of_nat bound < 2 ^ 64).
Context (l : list GlobalPendingFrame.t) (El : pendingFrames g !! selectorOf (Frame pn) = Some l).
Context (Hroom : (next g + pendingCount g <= bound)%nat) (Hsize : (size (pendingFrames g) < S fuel)%nat).
Let g1 : reel := set_pendingFrames (delete (selectorOf (Frame pn)) (pendingFrames g)) g.

(** The state after the frames [l1] of the list were connected. *)
Definition connecting (l1 : list GlobalPendingFrame.t) g' : Prop :=
  ready g' /\ extends g g' /\ pendingFrames g' ⊆ pendingFrames g1 /\
  ((forall p, live g p -> p <> parent -> settledAt g p) -> settled g') /\
  (next g' + pendingCount g' + (length l - length l1) <= bound)%nat /\ (covered g parent -> covered g' parent) /\
  (anchored g -> anchored g').

Lemma connecting_start : connecting [] g1.
Proof.
  pose proof Hr as [Hw Hs Hpar Hh Hpend Hgen]. assert (extends g g1) as He1 by (split; cbn; eauto).
  split; [|split; [done|]; split; [done|]; split; [|split; [|done]]].
  - split; [by destruct Hw|done|done|done| |done]. intros sel' l' Hl'. cbn in Hl'. apply lookup_delete_Some in Hl' as [_ Hl']. by apply Hpend.
  - intros Hset p Hp. destruct (decide (p = parent)) as [->|Hpne].
    + intros n Hn. cbn in Hn. assert (n = pn) as -> by congruence. cbn. by rewrite lookup_delete_eq.
    + apply (settledAt_mono g g1 p Hw He1); [apply delete_subseteq|done|by apply Hset].
  - unfold pendingCount in *. cbn. rewrite (count_delete _ _ l El) in Hroom. lia.
Qed.

Lemma pending_shrinks : (size (pendingFrames g1) < size (pendingFrames g))%nat.
Proof.
  cbn. rewrite map_size_delete_Some by eauto. destruct (size (pendingFrames g)) eqn:E0; [|lia].
  apply map_size_empty_inv in E0. by rewrite E0, lookup_empty in El.
Qed.

(** One round of the loop: the frame is linked, what waits for it is processed, and the
    fork choice evaluated. *)
Lemma connecting_step l1 x l2 g2 :
  l = l1 ++ x :: l2 -> connecting l1 g2 -> nodes g2 !! ComputeFrameID (GlobalPendingFrame.Frame x) = None ->
  succeeds (newNode ← link (GlobalPendingFrame.Frame x) (ComputeFrameID (GlobalPendingFrame.Frame x)) parent;
            _ ← processPendingFrames fuel newNode; evaluateForkChoice newNode) g2 (fun _ g' => connecting (l1 ++ [x]) g').
Proof.
  intros Elist (Hr2 & He2 & Hsub2 & Hset2 & Hroom2 & Hcov2 & Hanc2) Ey. rewrite Elist, length_app in Hroom2. cbn [length] in Hroom2.
  destruct (ext_heap g g2 He2 parent pn Hpn) as (pn2 & Hpn2 & HF2 & _).
  destruct (ready_pending _ Hr _ l El) as [_ Hsels]. rewrite Forall_forall in Hsels.
  destruct (Hsels x) as [Hselx Hnumx]; [rewrite Elist; set_solver|]. rewrite <- HF2 in Hselx.
  destruct (link_ready g2 _ parent pn2 Hr2 ltac:(lia) (ext_live _ _ _ He2 Hl) Hpn2 Hselx Hnumx Ey) as (El2 & Hr3 & He3 & Hl3 & Hset3 & Hcov3 & Hanc3).
  eapply succeeds_step; [exact El2|]. m_step. set (g3 := linkState _ _ _ _ _) in *.
  eapply succeeds_mono; [apply (IH g3 (next g2) (next g3 + pendingCount g3)%nat); [done|done| |]|].
  - split; [done|]. change (pendingCount g3) with (pendingCount g2). cbn. lia.
  - change (pendingFrames g3) with (pendingFrames g2). pose proof (map_subseteq_size _ _ Hsub2). pose proof pending_shrinks. lia.
  - intros [] g4 ([Hr4 He4 Hsub4 [Hroom4 _] Hcov4 Hanc4] & Hset4).
    eapply succeeds_mono; [apply (evaluate_ready g4 (next g2) Hr4); by eapply ext_live|].
    intros [] g5 (Hr5 & Hsame & Htop). pose proof (same_extends _ _ Hsame) as He5.
    split; [done|]. split; [do 3 (etransitivity; [eassumption|]); done|].
    rewrite (same_pending _ _ Hsame). split; [by etransitivity|]. split; [|split; [|split]].
    + intros Hset p. rewrite (live_same _ _ _ Hsame). intros Hp n. rewrite (same_heap _ _ Hsame), (same_pending _ _ Hsame).
      apply Hset4; [apply Hset3, Hset2, Hset|done].
    + assert (next g5 = next g4) as -> by (unfold same, body in Hsame; congruence).
      assert (pendingCount g5 = pendingCount g4) as -> by (unfold pendingCount; by rewrite (same_pending _ _ Hsame)).
      change (pendingCount g3) with (pendingCount g2) in Hroom4. cbn [next g3 linkState] in Hroom4. rewrite Elist, !length_app. cbn [length]. lia.
    + intros Hcov. apply top_covered, Htop, Hcov4, Hcov3, Hcov2, Hcov.
    + intros Hanc. apply (anchored_same g4); [done|]. apply Hanc4, Hanc3, Hanc2, Hanc.
Qed.

Lemma connecting_end g' : connecting l g' -> processed bound parent g g' /\
  ((forall p, live g p -> p <> parent -> settledAt g p) -> settled g').
Proof.
  intros (Hr' & He' & Hsub' & Hset' & Hroom' & Hcov' & Hanc'). split; [|done].
  split; [done|done|etransitivity; [exact Hsub'|apply delete_subseteq]| |done|done]. split; [lia|done].
Qed.
End process.

Lemma process_spec fuel : processes fuel.
Proof.
  induction fuel as [|fuel IH]; intros g parent bound Hr Hl [Hroom Hb] Hsize; [lia|].
  destruct (wf_live g parent (ready_wf _ Hr) Hl) as (pn & Hpn & _). cbn [processPendingFrames].
  eapply succeeds_step; [by apply deref_Ok|]. cbn zeta. m_step. m_step.
  destruct (pendingFrames g !! selectorOf (Frame pn)) as [l|] eqn:El; cbn [default].
  2:{ apply succeeds_ret. split; [by apply processed_refl|]. intros Hset p Hp. destruct (decide (p = parent)) as [->|]; [|auto].
      intros n Hn. by assert (n = pn) as -> by congruence. }
  destruct (ready_pending _ Hr _ l El) as [Hne _]. rewrite bool_decide_false by (by destruct l). m_step. m_step.
  eapply succeeds_mono; [apply (succeeds_each _ l (connecting g parent bound pn l))|].
  - by eapply connecting_start.
  - intros l1 x l2 g2 Elist Hcon. m_step. m_step. destruct (nodes g2 !! _) as [y|] eqn:Ey.
    + apply succeeds_ret. destruct Hcon as (? & ? & ? & ? & Hroom2 & ? & ?). split_and!; try done.
      rewrite Elist, !length_app in *. cbn [length] in *. lia.
    + by eapply (connecting_step fuel IH).
  - intros [] g' Hcon. by eapply connecting_end.
Qed.

(** ** Pruning *)

(** The states of the two loops agree with [g] in what they do not touch. *)
Definition rest g := (head g, pendingFrames g, forkChoiceParams g, equivocators g, stopped g, next g, events g, effects g).

Section prune.
Context (g : reel) (Hw : wf g) (d : Z).

(** The nodes to prune: all those above depth [d]. *)
Context (ps : list nat) (Hps : forall p, p ∈ ps <-> live g p /\ depthOf g p < d).

(** After the first loop the nodes at depth [d] below pruned ones have no parent. *)
Record cut (l1 : list nat) g' : Prop := {
  cut_rest : rest g' = rest g;
  cut_index : (root g', nodes g', framesByNumber g', cache g') = (root g, nodes g, framesByNumber g, cache g);
  cut_heap p n : heap g !! p = Some n -> exists n', heap g' !! p = Some n' /\
    Frame n' = Frame n /\ Children n' = Children n /\ Depth n' = Depth n /\
    (Parent n' = Parent n \/ Parent n' = None) /\ (live g p -> Depth n <> d -> Parent n' = Parent n) /\
    (live g p -> Depth n = d -> forall q, q ∈ l1 -> Parent n = Some q -> Parent n' = None);
  cut_domain p : is_Some (heap g' !! p) -> is_Some (heap g !! p)
}.

Lemma cut_children p : p ∈ ps -> forall l1 g1, cut l1 g1 ->
  succeeds (cutChildren d p) g1 (fun _ g2 => cut (l1 ++ [p]) g2).
Proof.
  intros Hp l1 g1 Hc. apply Hps in Hp as [Hp Hpd]. destruct (wf_live g p Hw Hp) as (n & Hn & _).
  destruct (cut_heap _ _ Hc p n Hn) as (n1 & Hn1 & _ & HCh & _). unfold cutChildren.
  eapply succeeds_step; [by apply deref_Ok|]. rewrite HCh.
  assert (depthOf g p = Depth n) as Ed by (unfold depthOf; by rewrite Hn). rewrite Ed in Hpd.
  (* the children visited are cut if they are kept *)
  set (I := fun (l2 : list nat) g' => cut l1 g' /\ forall c cn, c ∈ l2 -> heap g !! c = Some cn -> Depth cn = d ->
    exists cn', heap g' !! c = Some cn' /\ Parent cn' = None).
  eapply succeeds_mono; [apply (succeeds_each _ _ I)|].
  - split; [done|]. intros c cn Hc'. by apply elem_of_nil in Hc'.
  - intros l2 c l3 g2 El [Hc2 HI].
    assert (exists id, Children n !! id = Some c) as (id & Hid).
    { assert (c ∈ (map_to_list (Children n)).*2) as Hin by (rewrite El; set_solver).
      apply list_elem_of_fmap in Hin as ([id c'] & -> & Hin). exists id. by apply elem_of_map_to_list. }
    destruct (wf_child g Hw p n id c Hp Hn Hid) as (Hlc & cn & Hcn & HP & _).
    destruct (wf_parent g Hw c cn p Hlc Hcn HP) as (n' & _ & Hn' & _ & _ & Hdc & _). assert (n' = n) as -> by congruence.
    destruct (cut_heap _ _ Hc2 c cn Hcn) as (cn2 & Hcn2 & HF & HCh2 & HD & HP2 & HPk & HPc).
    eapply succeeds_step; [by apply deref_Ok|]. rewrite HD.
    destruct (Z.leb_spec d (Depth cn)) as [Hkeep|Hdrop].
    2:{ apply succeeds_ret. split; [done|]. intros c' cn' [Hin| ->%list_elem_of_singleton]%elem_of_app Hcn' Hd'; [by eapply HI|].
        assert (cn' = cn) as -> by congruence. lia. }
    m_step. split.
    + split; [by rewrite <- (cut_rest _ _ Hc2)|by rewrite <- (cut_index _ _ Hc2)| |].
      * intros x xn Hx. cbn. destruct (decide (x = c)) as [->|Hne].
        -- assert (xn = cn) as -> by congruence. rewrite lookup_insert_eq. eexists. split; [done|]. cbn.
           split_and!; try congruence; [by right|]. intros _ Hnd. lia.
        -- rewrite lookup_insert_ne by done. by apply (cut_heap _ _ Hc2).
      * intros x. cbn. destruct (decide (x = c)) as [->|Hne]; [by eauto|]. rewrite lookup_insert_ne by done. by apply (cut_domain _ _ Hc2).
    + intros c' cn' Hin Hcn' Hd'. cbn. destruct (decide (c' = c)) as [->|Hne]; [rewrite lookup_insert_eq; eauto|].
      rewrite lookup_insert_ne by done. apply (HI c' cn'); [set_solver|done..].
  - intros [] g' [Hc' HI]. split; [apply Hc'|apply Hc'| |apply Hc'].
    intros x xn Hx. destruct (cut_heap _ _ Hc' x xn Hx) as (xn' & Hxn' & HF & HCh' & HD & HP & HPk & HPc).
    exists xn'. split_and!; try done. intros Hlx Hdx q [Hq| ->%list_elem_of_singleton]%elem_of_app HPx; [by eapply HPc|].
    destruct (wf_parent g Hw x xn p Hlx Hx HPx) as (n' & _ & Hn' & _ & _ & _ & Hcx). assert (n' = n) as -> by congruence.
    destruct (HI x xn) as (xn'' & Hxn'' & HPn); [|done..|congruence].
    apply list_elem_of_fmap. exists (ComputeFrameID (Frame xn), x). split; [done|]. by apply elem_of_map_to_list.
Qed.

Lemma cut_all : succeeds (each (cutChildren d) ps) g (fun _ g1 => cut ps g1).
Proof.
  apply (succeeds_each _ ps cut).
  - split; [done|done| |done]. intros p n Hn. exists n. split_and!; try done; [by left|]. intros _ _ q Hq. by apply elem_of_nil in Hq.
  - intros l1 p l2 g1 El. apply cut_children. rewrite El. set_solver.
Qed.

Context (g1 : reel) (Hcut : cut ps g1).

(** The second loop removes the nodes from the indexes. *)
Record removed (l1 : list nat) g' : Prop := {
  rm_rest : rest g' = rest g;
  rm_nodes id p : nodes g' !! id = Some p <-> nodes g !! id = Some p /\ (p ∉ l1);
  rm_heap p n : heap g1 !! p = Some n -> exists n', heap g' !! p = Some n' /\ Frame n' = Frame n /\ Depth n' = Depth n /\
    (live g p -> d <= Depth n -> n' = n) /\ (live g p -> Depth n < d -> Parent n' = Parent n);
  rm_domain p : is_Some (heap g' !! p) -> is_Some (heap g1 !! p);
  rm_number k p : p ∈ default [] (framesByNumber g' !! k) <-> p ∈ default [] (framesByNumber g !! k) /\ (p ∉ l1);
  rm_cache id p : (cacheGet id (cache g')).1 = Some p -> nodes g' !! id = Some p
}.

(** The root is the old one or a node at depth [d]. *)
Definition rootOk (l1 : list nat) (r : option nat) : Prop :=
  (forall x, r = Some x -> (x ∉ l1) /\ (root g = Some x \/ live g x /\ depthOf g x = d)) /\
  (is_Some (root g) -> (exists p, live g p /\ depthOf g p = d) -> is_Some r) /\
  (forall x, root g = Some x -> x ∉ l1 -> r = Some x).

Lemma cut_depth p n1 : live g p -> heap g1 !! p = Some n1 -> depthOf g p = Depth n1.
Proof.
  intros Hp Hn1. destruct (wf_live g p Hw Hp) as (n & Hn & _). destruct (cut_heap _ _ Hcut p n Hn) as (n' & Hn' & _ & _ & HD & _).
  unfold depthOf. rewrite Hn. congruence.
Qed.

Lemma rm_live l1 g' p : removed l1 g' -> live g p ->
  exists n1 n, heap g1 !! p = Some n1 /\ heap g' !! p = Some n /\ Frame n = Frame n1 /\ Depth n = depthOf g p /\
    nodes g !! ComputeFrameID (Frame n) = Some p.
Proof.
  intros Hrm Hp. destruct (wf_live g p Hw Hp) as (n0 & Hn0 & Hid). destruct (cut_heap _ _ Hcut p n0 Hn0) as (n1 & Hn1 & HF & _).
  destruct (rm_heap _ _ Hrm p n1 Hn1) as (n & Hn & HF' & HD' & _). exists n1, n. rewrite (cut_depth p n1 Hp Hn1).
  split_and!; try done. by rewrite HF', HF.
Qed.

Lemma newRoot_spec l1 g' best qs :
  removed l1 g' -> (forall q, q ∈ qs -> live g q) ->
  exists r, newRoot d best qs g' = (Ok r, g') /\
    (forall x, r = Some x -> (exists m, best = Some (x, m)) \/ x ∈ qs /\ depthOf g x = d) /\
    (is_Some best \/ (exists q, q ∈ qs /\ depthOf g q = d) -> is_Some r).
Proof.
  intros Hrm. revert best. induction qs as [|q qs IH]; intros best Hq; cbn [newRoot].
  - exists (fst <$> best). split; [done|]. split.
    + intros x Hx. apply fmap_Some in Hx as ([y m] & -> & ->). eauto.
    + intros [[b ->]|(q & Hq' & _)]; [by eauto|by apply elem_of_nil in Hq'].
  - destruct (rm_live l1 g' q Hrm ltac:(apply Hq; left)) as (n1 & n & _ & Hn & _ & HD & _).
    rewrite (bind_Ok _ _ _ _ _ (deref_Ok _ _ _ Hn)). cbn zeta. rewrite HD.
    destruct (IH (if (depthOf g q =? d) && match best with None => true | Some (_, m) => FrameNumber (Frame n) <? m end
                  then Some (q, FrameNumber (Frame n)) else best)) as (r & Er & Hr & Hsome).
    { intros x Hx. apply Hq. by right. }
    exists r. split; [done|]. split.
    + intros x Hx. destruct (Hr x Hx) as [(m & Em)|[Hx' Hd]]; [|right; split; [by right|done]].
      destruct (Z.eqb_spec (depthOf g q) d) as [E0|]; cbn in Em; [|by left; exists m].
      destruct best as [[b mb]|]; [destruct (_ <? _)|]; simplify_eq; try (right; split; [left|done]); left; eauto.
    + intros Hor. apply Hsome. destruct Hor as [Hb|(x & [->|Hx]%elem_of_cons & Hd)]; [|rewrite Hd, Z.eqb_refl|right; eauto].
      * left. destruct (_ && _); [eauto|done].
      * left. cbn. destruct best as [[b mb]|]; [destruct (_ <? _)|]; eauto.
Qed.

(** The state after the indexes were updated and before a new root is sought. *)
Definition unindexed g' p n : reel :=
  let frameID := ComputeFrameID (Frame n) in
  mkReel (root g') (delete frameID (nodes g'))
    (match framesByNumber g' !! FrameNumber (Frame n) with
     | None => framesByNumber g'
     | Some l => if bool_decide (length (filter (fun q => q <> p) l) = 0%nat) then delete (FrameNumber (Frame n)) (framesByNumber g')
                 else <[FrameNumber (Frame n) := filter (fun q => q <> p) l]> (framesByNumber g')
     end) (head g') (pendingFrames g') (forkChoiceParams g') (cacheRemove frameID (cache g')) (equivocators g') (stopped g')
    (match Parent n with
     | Some q => match heap g' !! q with
                 | Some qn => <[q := mk (Frame qn) (Parent qn) (delete frameID (Children qn)) (Depth qn)]> (heap g')
                 | None => heap g'
                 end
     | None => heap g'
     end) (next g') (events g') (effects g') (choices g').

Lemma unindexed_number g' p n k x :
  x ∈ default [] (framesByNumber (unindexed g' p n) !! k) <->
  x ∈ default [] (framesByNumber g' !! k) /\ (k = FrameNumber (Frame n) -> x <> p).
Proof.
  cbn. destruct (framesByNumber g' !! FrameNumber (Frame n)) as [l|] eqn:El.
  2:{ split; [|by intros []]. intros Hx. split; [done|]. intros ->. rewrite El in Hx. by apply elem_of_nil in Hx. }
  destruct (decide (k = FrameNumber (Frame n))) as [->|Hk].
  - rewrite El. cbn [default id]. transitivity (x ∈ filter (fun q => q <> p) l).
    + case_bool_decide as E0; [rewrite lookup_delete_eq; by apply nil_length_inv in E0 as ->|by rewrite lookup_insert_eq].
    + rewrite list_elem_of_filter. naive_solver.
  - assert (forall m : gmap Z (list nat), m = delete (FrameNumber (Frame n)) (framesByNumber g') \/
       (exists y, m = <[FrameNumber (Frame n) := y]> (framesByNumber g')) -> m !! k = framesByNumber g' !! k) as Hm.
    { intros m [->|(y & ->)]; [by rewrite lookup_delete_ne|by rewrite lookup_insert_ne]. }
    rewrite Hm by (case_bool_decide; eauto). naive_solver.
Qed.

Section step.
Context (l1 : list nat) (g' : reel) (Hrm : removed l1 g') (p : nat) (Hp : p ∈ ps).

(** The node that is removed, and its parent. *)
Lemma rm_node : exists n, heap g' !! p = Some n /\ nodes g !! ComputeFrameID (Frame n) = Some p /\
  (forall k, p ∈ default [] (framesByNumber g !! k) -> k = FrameNumber (Frame n)) /\
  forall q, Parent n = Some q -> live g q /\ depthOf g q < d /\ is_Some (heap g' !! q).
Proof.
  apply Hps in Hp as [Hl Hd]. destruct (rm_live l1 g' p Hrm Hl) as (n1 & n & Hn1 & Hn & HF & HD & Hid).
  exists n. split; [done|]. split; [done|]. destruct (wf_live g p Hw Hl) as (n0 & Hn0 & _).
  destruct (cut_heap _ _ Hcut p n0 Hn0) as (n1' & Hn1' & HF1 & _ & HD1 & _ & HP1 & _). assert (n1' = n1) as -> by congruence.
  destruct (rm_heap _ _ Hrm p n1 Hn1) as (n' & Hn' & _ & HD2 & _ & HP2). assert (n' = n) as -> by congruence. split.
  - intros k Hk. apply (wf_number g Hw) in Hk as (_ & n2 & Hn2 & <-). congruence.
  - intros q Hq. rewrite HP2, HP1 in Hq by (try done; lia). destruct (wf_parent g Hw p n0 q Hl Hn0 Hq) as (qn & Hlq & Hqn & _ & _ & HDq & _).
    split; [done|]. split; [unfold depthOf; rewrite Hqn; lia|]. destruct (rm_live l1 g' q Hrm Hlq) as (? & ? & _ & ? & _). eauto.
Qed.

Lemma unindexed_removed n :
  heap g' !! p = Some n -> nodes g !! ComputeFrameID (Frame n) = Some p ->
  (forall k, p ∈ default [] (framesByNumber g !! k) -> k = FrameNumber (Frame n)) ->
  (forall q, Parent n = Some q -> live g q /\ depthOf g q < d /\ is_Some (heap g' !! q)) ->
  removed (l1 ++ [p]) (unindexed g' p n).
Proof.
  intros Hn Hid Hnum Hpar.
  assert (forall id x, delete (ComputeFrameID (Frame n)) (nodes g') !! id = Some x <-> nodes g !! id = Some x /\ (x ∉ l1 ++ [p])) as Hnodes.
  { intros id x. rewrite lookup_delete_Some, (rm_nodes _ _ Hrm). split.
    - intros (Hne & Hx & Hl1). split; [done|]. intros [?| ->%list_elem_of_singleton]%elem_of_app; [done|].
      destruct (wf_node g Hw id p Hx) as (n0 & Hn0 & ->). destruct (wf_node g Hw _ p Hid) as (n2 & Hn2 & E2). congruence.
    - intros [Hx Hl1]. split; [|set_solver]. intros <-. assert (x = p) by congruence. set_solver. }
  split.
  - exact (rm_rest _ _ Hrm).
  - exact Hnodes.
  - intros x xn Hx. destruct (rm_heap _ _ Hrm x xn Hx) as (xn' & Hxn' & HF & HD & HK & HP). cbn [heap unindexed].
    destruct (Parent n) as [q|] eqn:Eq; [|by exists xn'].
    destruct (Hpar q eq_refl) as (Hlq & Hdq & qn & Hqn). rewrite Hqn. destruct (decide (x = q)) as [->|Hne].
    + assert (xn' = qn) as -> by congruence. rewrite lookup_insert_eq. eexists. split; [done|]. cbn. split_and!; try done.
      intros _ Hk. rewrite (cut_depth q xn Hlq Hx) in Hdq. lia.
    + rewrite lookup_insert_ne by done. by exists xn'.
  - intros x. cbn [heap unindexed]. destruct (Parent n) as [q|] eqn:Eq; [|apply (rm_domain _ _ Hrm)].
    destruct (Hpar q eq_refl) as (Hlq & Hdq & qn & Hqn). rewrite Hqn. destruct (decide (x = q)) as [->|Hne].
    + intros _. apply (rm_domain _ _ Hrm). eauto.
    + rewrite lookup_insert_ne by done. apply (rm_domain _ _ Hrm).
  - intros k x. rewrite unindexed_number, (rm_number _ _ Hrm), not_elem_of_app, list_elem_of_singleton. naive_solver.
  - intros id x. cbn [cache nodes unindexed]. intros [Hne Hx%(rm_cache _ _ Hrm)]%cacheGet_remove. by rewrite lookup_delete_ne by done.
Qed.
End step.

Lemma unindex_eq g' p n (k : R unit) :
  heap g' !! p = Some n -> (forall q, Parent n = Some q -> is_Some (heap g' !! q)) ->
  (_ ← modify (fun g => set_nodes (delete (ComputeFrameID (Frame n)) (nodes g)) g);
   _ ← modify (fun g =>
        match framesByNumber g !! FrameNumber (Frame n) with
        | None => g
        | Some nodeList =>
          let filteredList := filter (fun q => q <> p) nodeList in
          set_framesByNumber
            (if bool_decide (length filteredList = 0%nat) then delete (FrameNumber (Frame n)) (framesByNumber g)
             else <[FrameNumber (Frame n) := filteredList]> (framesByNumber g)) g
        end);
   _ ← modify (fun g => set_cache (cacheRemove (ComputeFrameID (Frame n)) (cache g)) g);
   _ ← match Parent n with
       | Some q => qn ← deref q; store q (mk (Frame qn) (Parent qn) (delete (ComputeFrameID (Frame n)) (Children qn)) (Depth qn))
       | None => mret tt
       end; k) g' = k (unindexed g' p n).
Proof.
  intros Hn Hpar. unfold mbind, M_bind, modify, store, mret, M_ret, deref, unindexed, set_nodes, set_cache, set_framesByNumber.
  cbn [heap nodes framesByNumber cache root head pendingFrames forkChoiceParams equivocators stopped next events effects choices].
  destruct (framesByNumber g' !! FrameNumber (Frame n)) as [l|];
    (destruct (Parent n) as [q|]; [destruct (Hpar q eq_refl) as (qn & Hqn)|];
     cbn [heap nodes framesByNumber cache root head pendingFrames forkChoiceParams equivocators stopped next events effects choices];
     rewrite ?Hqn; reflexivity).
Qed.

Lemma cut_parentless p n1 : live g p -> heap g1 !! p = Some n1 -> Depth n1 = d -> Parent n1 = None.
Proof.
  intros Hp Hn1 Hd. destruct (wf_live g p Hw Hp) as (n & Hn & _).
  destruct (cut_heap _ _ Hcut p n Hn) as (n' & Hn' & _ & _ & HD & HP & _ & Hcl). assert (n' = n1) as -> by congruence.
  destruct (Parent n) as [q|] eqn:Eq; [|by destruct HP].
  destruct (wf_parent g Hw p n q Hp Hn Eq) as (qn & Hlq & Hqn & _ & _ & HDq & _).
  apply (Hcl Hp ltac:(lia) q); [|done]. apply Hps. split; [done|]. unfold depthOf. rewrite Hqn. lia.
Qed.

Lemma remove_step l1 g' p :
  (forall q, q ∈ l1 -> q ∈ ps) -> p ∈ ps -> removed l1 g' -> rootOk l1 (root g') ->
  succeeds (removeNode d p) g' (fun _ g2 => removed (l1 ++ [p]) g2 /\ rootOk (l1 ++ [p]) (root g2)).
Proof.
  intros Hl1 Hp Hrm (Hroot & Hfound & Hkept). destruct (rm_node l1 g' Hrm p Hp) as (n & Hn & Hid & Hnum & Hpar).
  pose proof (unindexed_removed l1 g' Hrm p Hp n Hn Hid Hnum Hpar) as Hrm2.
  unfold removeNode. eapply succeeds_step; [by apply deref_Ok|]. cbn zeta.
  eapply succeeds_eq; [apply (unindex_eq g' p n); [done|]; intros q Hq; by apply Hpar|].
  set (g2 := unindexed g' p n) in *.
  m_step. m_step. change (root g2) with (root g').
  case_bool_decide as Er.
  2:{ apply succeeds_ret. split; [done|]. split; [|split; [done|]].
      - intros x Hx. destruct (Hroot x Hx) as [Hx1 Hor]. split; [|done].
        rewrite not_elem_of_app, list_elem_of_singleton. split; [done|]. intros ->. by apply Er.
      - intros x Hx Hn'. apply (Hkept x Hx). set_solver. }
  destruct (rangeNodes_eq g2) as (qs & Eq & _ & Hqs). eapply succeeds_step; [exact Eq|]. set (g3 := set_choices _ g2).
  assert (removed (l1 ++ [p]) g3) as Hrm3 by (destruct Hrm2; by split).
  assert (forall q, q ∈ qs <-> live g q /\ (q ∉ l1 ++ [p])) as Hqs'.
  { intros q. rewrite Hqs. unfold live. setoid_rewrite (rm_nodes _ _ Hrm2). naive_solver. }
  destruct (newRoot_spec (l1 ++ [p]) g3 None qs Hrm3 ltac:(intros q Hq'; by apply Hqs')) as (r & En & Hr & Hsome).
  eapply succeeds_step; [exact En|]. m_step. m_step.
  assert (rootOk (l1 ++ [p]) r) as Hok.
  { split; [|split].
    - intros x Hx. destruct (Hr x Hx) as [(m & [=])|[Hx' Hd]]. apply Hqs' in Hx' as [Hlx Hx']. auto.
    - intros _ (x & Hlx & Hd). apply Hsome. right. exists x. split; [|done]. apply Hqs'. split; [done|].
      intros [Hx|Hx]%elem_of_app; [apply Hl1 in Hx|apply list_elem_of_singleton in Hx as ->];
        [apply Hps in Hx as [_ ?]|apply Hps in Hp as [_ ?]]; lia.
    - intros x Hx Hn'. assert (root g' = Some x) as Hx' by (apply (Hkept x Hx); set_solver). set_solver. }
  destruct r as [r|]; [|apply succeeds_ret; split; [by destruct Hrm3|done]].
  destruct (proj1 Hok r eq_refl) as [Hrl _]. destruct (Hr r eq_refl) as [(m & [=])|[Hrq Hrd]]. apply Hqs' in Hrq as [Hlr _].
  destruct (rm_live _ _ r Hrm3 Hlr) as (n1 & rn & Hn1 & Hrn & _ & HDr & _).
  destruct (rm_heap _ _ Hrm3 r n1 Hn1) as (rn' & Hrn' & _ & HD' & Hkeep & _). assert (rn' = rn) as -> by congruence.
  assert (rn = n1) as -> by (apply Hkeep; [done|lia]).
  eapply succeeds_step; [apply deref_Ok; exact Hrn|]. m_step.
  assert (mk (Frame n1) None (Children n1) (Depth n1) = n1) as ->.
  { rewrite <- (cut_parentless r n1 Hlr Hn1 ltac:(lia)). by destruct n1. }
  split; [|done]. destruct Hrm3. split; cbn [heap set_heap set_root]; rewrite ?(insert_id (heap g3) r n1 Hrn); try done.
Qed.

Lemma remove_all :
  (root g1, nodes g1, framesByNumber g1, cache g1) = (root g, nodes g, framesByNumber g, cache g) ->
  succeeds (each (removeNode d) ps) g1 (fun _ g2 => removed ps g2 /\ rootOk ps (root g2)).
Proof.
  intros Hidx. injection Hidx as H1 H2 H3 H4.
  apply (succeeds_each _ ps (fun l1 g' => removed l1 g' /\ rootOk l1 (root g'))).
  - split.
    + split; rewrite ?H2, ?H3, ?H4; try done.
      * apply (cut_rest _ _ Hcut).
      * intros id p. set_solver.
      * intros p n Hn. exists n. done.
      * intros k p. set_solver.
      * apply (wf_cache g Hw).
    + rewrite H1. split; [|done]. intros x Hx. split; [set_solver|by left].
  - intros l1 p l2 g' El [Hrm Hr]. apply remove_step; [|rewrite El; set_solver|done..]. intros q Hq. rewrite El. set_solver.
Qed.

Context (g2 : reel) (Hrm : removed ps g2) (Hrk : rootOk ps (root g2)).

(** The nodes that are kept. *)
Lemma kept p : live g2 p <-> live g p /\ d <= depthOf g p.
Proof.
  unfold live at 1. setoid_rewrite (rm_nodes _ _ Hrm). split.
  - intros (id & Hid & Hn). assert (live g p) by by exists id. split; [done|]. destruct (Z_lt_le_dec (depthOf g p) d); [|done].
    destruct Hn. by apply Hps.
  - intros [(id & Hid) Hd]. exists id. split; [done|]. intros [_ ?]%Hps. lia.
Qed.

Lemma kept_node p n0 :
  live g2 p -> heap g !! p = Some n0 ->
  heap g2 !! p = Some (mk (Frame n0) (if Depth n0 =? d then None else Parent n0) (Children n0) (Depth n0)).
Proof.
  intros [Hp Hd]%kept Hn0. destruct (cut_heap _ _ Hcut p n0 Hn0) as (n1 & Hn1 & HF & HCh & HD & _ & HPk & _).
  destruct (rm_heap _ _ Hrm p n1 Hn1) as (n2 & Hn2 & _ & _ & Hkeep & _). rewrite (cut_depth p n1 Hp Hn1) in Hd.
  rewrite (Hkeep Hp Hd) in Hn2. rewrite Hn2, <- HF, <- HCh, <- HD. destruct n1 as [f1 p1 c1 d1]. cbn in *. do 2 f_equal.
  destruct (Z.eqb_spec d1 d) as [E0|Hne]; [by apply (cut_parentless p _ Hp Hn1)|]. apply HPk; [done|]. congruence.
Qed.

Lemma pruned_wf : wf g2.
Proof.
  split.
  - intros id p Hp. assert (live g2 p) as Hl by by exists id. apply (rm_nodes _ _ Hrm) in Hp as [Hp _].
    destruct (wf_node g Hw id p Hp) as (n & Hn & ->). rewrite (kept_node p n Hl Hn). eauto.
  - intros p n q Hl Hn Hq. pose proof (proj1 (kept p) Hl) as [Hlp Hd]. destruct (wf_live g p Hw Hlp) as (n0 & Hn0 & _).
    rewrite (kept_node p n0 Hl Hn0) in Hn. injection Hn as <-. cbn in *. destruct (Z.eqb_spec (Depth n0) d); [done|].
    destruct (wf_parent g Hw p n0 q Hlp Hn0 Hq) as (qn & Hlq & Hqn & Hlt & Hs & HD & Hc).
    assert (live g2 q) as Hlq2.
    { apply kept. split; [done|]. unfold depthOf in *. rewrite Hn0 in Hd. rewrite Hqn. lia. }
    rewrite (kept_node q qn Hlq2 Hqn). eauto 10.
  - intros q qn id p Hl Hqn Hc. pose proof (proj1 (kept q) Hl) as [Hlq Hd]. destruct (wf_live g q Hw Hlq) as (n0 & Hn0 & _).
    rewrite (kept_node q n0 Hl Hn0) in Hqn. injection Hqn as <-. cbn in Hc.
    destruct (wf_child g Hw q n0 id p Hlq Hn0 Hc) as (Hlp & pn & Hpn & HP & ->).
    destruct (wf_parent g Hw p pn q Hlp Hpn HP) as (qn & _ & Hqn & _ & _ & HD & _). assert (qn = n0) as -> by congruence.
    unfold depthOf in Hd. rewrite Hn0 in Hd.
    assert (live g2 p) as Hlp2. { apply kept. split; [done|]. unfold depthOf. rewrite Hpn. lia. }
    split; [done|]. rewrite (kept_node p pn Hlp2 Hpn). eexists. split; [done|]. cbn. destruct (Z.eqb_spec (Depth pn) d); [lia|done].
  - intros p Hp%(rm_domain _ _ Hrm)%(cut_domain _ _ Hcut)%(wf_alloc g Hw). pose proof (rm_rest _ _ Hrm) as Hrest.
    unfold rest in Hrest. injection Hrest as _ _ _ _ _ -> _ _. done.
  - intros p n Hl Hn. pose proof (proj1 (kept p) Hl) as [Hlp _]. destruct (wf_live g p Hw Hlp) as (n0 & Hn0 & _).
    rewrite (kept_node p n0 Hl Hn0) in Hn. injection Hn as <-. exact (wf_depth g Hw p n0 Hlp Hn0).
  - intros r Hr. destruct (proj1 Hrk r Hr) as [Hnr Hor].
    assert (live g r) as Hlr by (destruct Hor as [Hr'|[? _]]; [by destruct (wf_root g Hw r Hr') as (? & ? & _)|done]).
    assert (live g2 r) as Hl2.
    { apply kept. split; [done|]. destruct (Z_lt_le_dec (depthOf g r) d); [|done]. destruct Hnr. by apply Hps. }
    destruct (wf_live g r Hw Hlr) as (n0 & Hn0 & _). rewrite (kept_node r n0 Hl2 Hn0). eexists. split; [done|]. split; [done|]. cbn.
    destruct Hor as [Hr'|[_ Hd]].
    + destruct (wf_root g Hw r Hr') as (n & _ & Hn & HP). assert (n = n0) as -> by congruence. rewrite HP. by destruct (_ =? _).
    + unfold depthOf in Hd. rewrite Hn0 in Hd. rewrite Hd. by rewrite Z.eqb_refl.
  - intros k p. rewrite (rm_number _ _ Hrm), (wf_number g Hw), kept. split.
    + intros [[Hlp (n & Hn & <-)] Hnp].
      assert (d <= depthOf g p) by (destruct (Z_lt_le_dec (depthOf g p) d); [destruct Hnp; by apply Hps|done]).
      split; [done|]. eexists. split; [apply (kept_node p n); [by apply kept|done]|done].
    + intros [[Hlp Hd] (n & Hn & <-)]. destruct (wf_live g p Hw Hlp) as (n0 & Hn0 & _).
      rewrite (kept_node p n0) in Hn by (try done; by apply kept). injection Hn as <-. split; [eauto|]. intros [_ ?]%Hps. lia.
  - intros id p. apply (rm_cache _ _ Hrm).
Qed.

Lemma kept_depth p : live g2 p -> depthOf g2 p = depthOf g p.
Proof.
  intros Hl. pose proof (proj1 (kept p) Hl) as [Hlp _]. destruct (wf_live g p Hw Hlp) as (n0 & Hn0 & _).
  unfold depthOf. by rewrite (kept_node p n0 Hl Hn0), Hn0.
Qed.

(** Lineages end at depth [d]. *)
Lemma kept_lineage p : live g2 p -> lineage (heap g2) p = take (Z.to_nat (depthOf g p - d + 1)) (lineage (heap g) p).
Proof.
  revert p. apply (lineage_ind g2 _ pruned_wf).
  - intros p n Hl Hn HP. pose proof (proj1 (kept p) Hl) as [Hlp Hd]. destruct (wf_live g p Hw Hlp) as (n0 & Hn0 & _).
    rewrite (lineage_eq g2 p n pruned_wf Hl Hn), HP. rewrite (lineage_eq g p n0 Hw Hlp Hn0).
    rewrite (kept_node p n0 Hl Hn0) in Hn. injection Hn as <-. cbn in HP. unfold depthOf in *. rewrite Hn0 in *.
    destruct (Z.eqb_spec (Depth n0) d) as [E0|].
    + rewrite E0. replace (Z.to_nat (d - d + 1)) with 1%nat by lia. done.
    + rewrite HP. rewrite take_ge by (cbn; lia). done.
  - intros p n q qn Hl Hn HP Hlq2 Hqn IH. pose proof (proj1 (kept p) Hl) as [Hlp Hd]. destruct (wf_live g p Hw Hlp) as (n0 & Hn0 & _).
    rewrite (lineage_eq g2 p n pruned_wf Hl Hn), HP, IH, (lineage_eq g p n0 Hw Hlp Hn0).
    rewrite (kept_node p n0 Hl Hn0) in Hn. injection Hn as <-. cbn in HP. destruct (Z.eqb_spec (Depth n0) d) as [E0|]; [done|].
    rewrite HP. destruct (wf_parent g Hw p n0 q Hlp Hn0 HP) as (qn0 & _ & Hqn0 & _ & _ & HD & _).
    pose proof (proj1 (kept q) Hlq2) as [_ Hdq]. unfold depthOf in *. rewrite Hn0, Hqn0 in *.
    replace (Z.to_nat (Depth n0 - d + 1)) with (S (Z.to_nat (Depth qn0 - d + 1))) by lia. done.
Qed.
End prune.

Lemma anchored_above g m p :
  wf g -> (forall p n, live g p -> heap g !! p = Some n -> Parent n = None -> Depth n = m) -> live g p -> m <= depthOf g p.
Proof.
  intros Hw Hm. revert p. apply (lineage_ind g _ Hw).
  - intros p n Hl Hn HP. unfold depthOf. rewrite Hn, (Hm p n); done.
  - intros p n q qn Hl Hn HP Hlq Hqn IH. destruct (wf_parent g Hw p n q Hl Hn HP) as (qn' & _ & Hqn' & _ & _ & HD & _).
    unfold depthOf in *. rewrite Hn. rewrite Hqn' in IH. lia.
Qed.

Lemma ancestor_at g m d p :
  wf g -> (forall p n, live g p -> heap g !! p = Some n -> Parent n = None -> Depth n = m) -> m <= d ->
  live g p -> d <= depthOf g p -> exists q, live g q /\ depthOf g q = d.
Proof.
  intros Hw Hm Hmd. revert p. apply (lineage_ind g (fun p => d <= depthOf g p -> exists q, live g q /\ depthOf g q = d) Hw).
  - intros p n Hl Hn HP Hd. exists p. split; [done|]. unfold depthOf in *. rewrite Hn in *. specialize (Hm p n Hl Hn HP). lia.
  - intros p n q qn Hl Hn HP Hlq Hqn IH Hd. destruct (decide (depthOf g p = d)) as [E0|Hne]; [eauto|]. apply IH.
    destruct (wf_parent g Hw p n q Hl Hn HP) as (qn' & _ & Hqn' & _ & _ & HD & _). unfold depthOf in *. rewrite Hn in *. rewrite Hqn'. lia.
Qed.

Lemma omap_ext_elem {A B} (k k' : A -> option B) (l : list A) : (forall x, x ∈ l -> k x = k' x) -> omap k l = omap k' l.
Proof.
  induction l as [|x l IH]; intros Hk; [done|]. cbn. rewrite (Hk x) by left. rewrite IH; [done|]. intros y Hy. apply Hk. by right.
Qed.

(** What pruning keeps. *)
Record pruning g g' : Prop := {
  prn_ready : ready g';
  prn_rest : rest g' = rest g;
  prn_live p : live g' p -> live g p /\ depthOf g' p = depthOf g p /\
    exists n n', heap g !! p = Some n /\ heap g' !! p = Some n' /\ Frame n' = Frame n /\ Children n' = Children n;
  prn_settled : settled g -> settled g';
  prn_top : top g -> top g';
  prn_anchored : anchored g -> anchored g'
}.

Section pruned.
Context (g : reel) (Hw : wf g) (d : Z) (ps : list nat) (Hps : forall p, p ∈ ps <-> live g p /\ depthOf g p < d).
Context (g1 : reel) (Hcut : cut g d ps g1) (g2 : reel) (Hrm : removed g d g1 ps g2) (Hrk : rootOk g d ps (root g2)).

Lemma pruned_anchored h : live g h -> d <= depthOf g h -> anchored g -> anchored g2.
Proof.
  intros Hh Hdh [Hroot (m & Hm)]. pose proof (kept g d ps Hps g1 g2 Hrm) as Hkept.
  destruct (root g) as [r|] eqn:Er; [|destruct Hh as (? & Hh); rewrite (Hroot eq_refl) in Hh; by rewrite lookup_empty in Hh].
  destruct (wf_root g Hw r Er) as (rn & Hlr & Hrn & HPr). pose proof (Hm r rn Hlr Hrn HPr) as Hdr.
  destruct Hrk as (_ & Hfound & Hstay). split.
  - intros Hnone. exfalso. destruct (Z_lt_le_dec m d) as [Hlt|Hge].
    + destruct (Hfound ltac:(eauto) (ancestor_at g m d h Hw Hm ltac:(lia) Hh Hdh)) as (? & ?). congruence.
    + assert (root g2 = Some r) by (apply Hstay; [done|]; intros [_ Hd]%Hps; unfold depthOf in Hd; rewrite Hrn in Hd; lia). congruence.
  - exists (Z.max m d). intros p n Hl Hn HP. pose proof (proj1 (Hkept p) Hl) as [Hlp Hd].
    destruct (wf_live g p Hw Hlp) as (n0 & Hn0 & _). rewrite (kept_node g Hw d ps Hps g1 Hcut g2 Hrm p n0 Hl Hn0) in Hn.
    injection Hn as <-. cbn in *. pose proof (anchored_above g m p Hw Hm Hlp) as Hab. unfold depthOf in Hd, Hab. rewrite Hn0 in *.
    destruct (Z.eqb_spec (Depth n0) d); [lia|]. rewrite (Hm p n0) in *; done || lia.
Qed.

Lemma pruned_branch p :
  live g2 p -> d = depthOf g p - maxGlobalTreeDepth + 1 -> branchOf g2 p = branchOf g p.
Proof.
  intros Hl Hd. pose proof (rm_rest _ _ _ _ _ Hrm) as Hrest. unfold rest in Hrest. injection Hrest as _ _ _ He _ _ _ _.
  pose proof (pruned_wf g Hw d ps Hps g1 Hcut g2 Hrm Hrk) as Hw2.
  unfold branchOf. rewrite He. f_equal.
  assert (take (Z.to_nat maxGlobalTreeDepth) (lineage (heap g2) p) = take (Z.to_nat maxGlobalTreeDepth) (lineage (heap g) p)) as E0.
  { rewrite (kept_lineage g Hw d ps Hps g1 Hcut g2 Hrm Hrk p Hl).
    replace (Z.to_nat (depthOf g p - d + 1)) with (Z.to_nat maxGlobalTreeDepth) by (f_equal; lia).
    by rewrite take_take, Nat.min_id. }
  rewrite <- E0. apply omap_ext_elem. intros q Hq. apply elem_of_reverse, elem_of_take in Hq as (i & Hi & _).
  apply list_elem_of_lookup_2, (lineage_live g2 p q Hw2 Hl) in Hi. pose proof (proj1 (kept g d ps Hps g1 g2 Hrm q) Hi) as [Hlq _].
  destruct (wf_live g q Hw Hlq) as (n0 & Hn0 & _). by rewrite (kept_node g Hw d ps Hps g1 Hcut g2 Hrm q n0 Hi Hn0), Hn0.
Qed.

Lemma pruned_top h : head g = Some h -> d = depthOf g h - maxGlobalTreeDepth + 1 -> top g -> top g2.
Proof.
  intros Hh Hd (h' & Hh' & Hlh & Hb). assert (h' = h) as -> by congruence.
  pose proof (rm_rest _ _ _ _ _ Hrm) as Hrest. unfold rest in Hrest. injection Hrest as Eh _ Ep _ _ _ _ _.
  assert (live g2 h) as Hl2 by (apply (kept g d ps Hps g1 g2 Hrm); split; [done|unfold maxGlobalTreeDepth in *; lia]).
  exists h. split; [by rewrite Eh|]. split; [done|]. intros p Hp. pose proof (proj1 (kept g d ps Hps g1 g2 Hrm p) Hp) as [Hlp _].
  rewrite !(kept_depth g Hw d ps Hps g1 Hcut g2 Hrm) by done. destruct (Hb p Hlp) as [Hle Hscore]. split; [done|].
  intros Heq s t. rewrite !pruned_branch by (try done; lia). rewrite Ep. by apply Hscore.
Qed.

Lemma pruned_settled : settled g -> settled g2.
Proof.
  intros Hset p Hp n Hn. pose proof (rm_rest _ _ _ _ _ Hrm) as Hrest. unfold rest in Hrest. injection Hrest as _ Ep _ _ _ _ _ _.
  pose proof (proj1 (kept g d ps Hps g1 g2 Hrm p) Hp) as [Hlp _]. destruct (wf_live g p Hw Hlp) as (n0 & Hn0 & _).
  rewrite (kept_node g Hw d ps Hps g1 Hcut g2 Hrm p n0 Hp Hn0) in Hn. injection Hn as <-. rewrite Ep. exact (Hset p Hlp n0 Hn0).
Qed.
Lemma pruned_ready h : ready g -> head g = Some h -> d <= depthOf g h -> ready g2.
Proof.
  intros [_ Hs Hpar Hh Hpend Hgen] Eh Hd. pose proof (rm_rest _ _ _ _ _ Hrm) as Hrest. unfold rest in Hrest.
  injection Hrest as E1 E2 E3 E4 E5 E6 _ _. rewrite Eh in Hh.
  split; [by eapply pruned_wf|by rewrite E5|by rewrite E3| |unfold pendingOk; by rewrite E2|].
  - rewrite E1, Eh. by apply (kept g d ps Hps g1 g2 Hrm).
  - intros p n Hl Hn Hg. pose proof (proj1 (kept g d ps Hps g1 g2 Hrm p) Hl) as [Hlp Hdp].
    destruct (wf_live g p Hw Hlp) as (n0 & Hn0 & _). rewrite (kept_node g Hw d ps Hps g1 Hcut g2 Hrm p n0 Hl Hn0) in Hn.
    injection Hn as <-. apply Hrk; [|intros [_ ?]%Hps; lia]. by apply (Hgen p n0).
Qed.

Lemma pruned_pruning h :
  ready g -> head g = Some h -> d = depthOf g h - maxGlobalTreeDepth + 1 -> pruning g g2.
Proof.
  intros Hr Eh Hd. pose proof (ready_head g Hr) as Hlh. rewrite Eh in Hlh.
  assert (d <= depthOf g h) as Hdle by (unfold maxGlobalTreeDepth in *; lia).
  split; [by eapply pruned_ready|by rewrite (rm_rest _ _ _ _ _ Hrm)| |apply pruned_settled|by apply (pruned_top h)|by apply (pruned_anchored h)].
  intros p Hp. pose proof (proj1 (kept g d ps Hps g1 g2 Hrm p) Hp) as [Hlp _]. split; [done|].
  split; [by apply (kept_depth g Hw d ps Hps g1 Hcut g2 Hrm)|].
  destruct (wf_live g p Hw Hlp) as (n0 & Hn0 & _). eexists n0, _. split; [done|].
  split; [by apply (kept_node g Hw d ps Hps g1 Hcut g2 Hrm p n0)|done].
Qed.
End pruned.

Lemma prune_spec g : ready g -> Z.of_nat (next g) < 2 ^ 64 -> succeeds pruneOldFrames g (fun _ g' => pruning g g').
Proof.
  intros Hr Hnext. pose proof Hr as [Hw Hs Hpar Hh Hpend Hgen]. unfold pruneOldFrames. m_step. m_step.
  assert (pruning g g) as Hrefl.
  { split; try done. intros p Hp. destruct (wf_live g p Hw Hp) as (n & Hn & _). split; [done|]. split; [done|]. by exists n, n. }
  destruct (head g) as [h|] eqn:Eh; [|by apply succeeds_ret].
  destruct (wf_live g h Hw Hh) as (hn & Hhn & _). eapply succeeds_step; [by apply deref_Ok|].
  destruct (Z.ltb_spec (Depth hn) maxGlobalTreeDepth) as [|Hd]; [by apply succeeds_ret|]. cbn zeta.
  pose proof (wf_depth g Hw h hn Hh Hhn) as Hdh. pose proof (live_lt g h Hw Hh) as Hlt.
  assert (depthOf g h = Depth hn) as Edh by (unfold depthOf; by rewrite Hhn).
  assert (u64 (Depth hn - maxGlobalTreeDepth + 1) = depthOf g h - maxGlobalTreeDepth + 1) as ->.
  { rewrite Edh. apply uwrap_small. unfold is_u, maxGlobalTreeDepth in *. lia. }
  set (d := depthOf g h - maxGlobalTreeDepth + 1).
  destruct (rangeNodes_eq g) as (qs & Eq & _ & Hqs). eapply succeeds_step; [exact Eq|]. set (g0 := set_choices _ g).
  assert (quiet g g0) as Hq by done.
  assert (wf g0) as Hw0 by (eapply wf_same; [by apply quiet_same|done]).
  eapply succeeds_step.
  { apply (filterM_pure (S := reel) _ (fun p => depthOf g0 p < d)). intros p Hp. apply Hqs in Hp.
    destruct (live_deref g Hw p g0 Hq Hp) as (n & Hn & Ed). rewrite (bind_Ok _ _ _ _ _ Ed). rewrite (depthOf_same g g0 p (quiet_same _ _ Hq)).
    assert (depthOf g p = Depth n) as -> by (unfold depthOf; by rewrite Hn). unfold mret, M_ret.
    by destruct (Z.ltb_spec (Depth n) d); [rewrite bool_decide_true|rewrite bool_decide_false by lia]. }
  set (ps := filter (fun p => depthOf g0 p < d) qs).
  assert (forall p, p ∈ ps <-> live g0 p /\ depthOf g0 p < d) as Hps.
  { intros p. unfold ps. rewrite list_elem_of_filter, Hqs, (live_same _ _ _ (quiet_same _ _ Hq)). naive_solver. }
  m_step. eapply succeeds_mono; [by apply (cut_all g0 Hw0 d ps)|]. intros [] g1 Hcut.
  eapply succeeds_mono; [apply (remove_all g0 Hw0 d ps Hps g1 Hcut), (cut_index _ _ _ _ Hcut)|]. intros [] g2 [Hrm Hrk].
  assert (ready g0) as Hr0 by (destruct Hr; by split).
  destruct (pruned_pruning g0 Hw0 d ps Hps g1 Hcut g2 Hrm Hrk h Hr0 Eh eq_refl) as [H1 H2 H3 H4 H5 H6].
  split; [exact H1|exact H2|exact H3|exact H4|exact H5|exact H6].
Qed.
End spec.
