(* ===== verification/GlobalTimeReelInsert.v ===== *)
(** * Insertion into the global time reel

    Insert keeps the invariants of the reel on every path, errors included, and the head is
    the best of the deepest nodes. *)

From S2P Require Import Prelude Wire Keys Frames Messages ForkChoice Stateful GlobalTimeReel GlobalTimeReelSpec.
Import GlobalFrameNode.

Section insert.
Context `{E : Environment} `{!EnvironmentLaws E} {C : Type} `{HC : Cache C} `{!CacheLaws C}.
Abbreviation reel := (GlobalTimeReel C).
Abbreviation R := (M reel).
Implicit Types (g : reel) (p q : nat) (n : GlobalFrameNode.t) (f : frame).

(** No node is deeper than the head. *)
Definition deepest g : Prop := forall h p, head g = Some h -> live g p -> depthOf g p <= depthOf g h.

Lemma top_deepest g : top g -> deepest g.
Proof. intros (h & Hh & _ & Hb) h' p Hh' Hp. assert (h' = h) as -> by congruence. by destruct (Hb p Hp). Qed.

Lemma deepest_covered g p : deepest g -> covered g p.
Proof. intros Hd h q Hh Hq. specialize (Hd h q Hh Hq). lia. Qed.

(** The store and the callbacks never fail. *)
Definition storeWorks : Prop := forall l e, fails l e = None.

(** The invariant between calls.  After a failure to store the genesis frame, frames that
    wait for it keep waiting; in a reel that is no archive the genesis frame may become
    the head although there are deeper nodes. *)
Record ok (bound : nat) g : Prop := {
  ok_ready : ready g;
  ok_settled : storeWorks -> settled g;
  ok_room : room bound g;
  ok_archive : archiveMode = true -> anchored g /\ deepest g
}.

(** [m] returns normally or with an error, in a state that satisfies [Q]. *)
Definition returns {A} (m : R A) g (Q : reel -> Prop) : Prop :=
  match m g with
  | (Ok _, g') | (Err _, g') => Q g'
  | _ => False
  end.

Lemma succeeds_returns {A} (m : R A) g Q : succeeds m g (fun _ => Q) -> returns m g Q.
Proof. intros (a & g' & Em & HQ). unfold returns. by rewrite Em. Qed.

Lemma returns_after {A B} (m : R A) (k : A -> R B) g (P : A -> reel -> Prop) Q :
  succeeds m g P -> (forall a g', P a g' -> returns (k a) g' Q) -> returns (m ≫= k) g Q.
Proof. intros (a & g' & Em & HP) Hk. unfold returns. rewrite (bind_Ok _ _ _ _ _ Em). by apply Hk. Qed.

Lemma returns_step {A B} (m : R A) (k : A -> R B) g a g' Q :
  m g = (Ok a, g') -> returns (k a) g' Q -> returns (m ≫= k) g Q.
Proof. intros Em Hk. unfold returns. by rewrite (bind_Ok _ _ _ _ _ Em). Qed.

(** ** Equivocation *)

(** The state but for the equivocators and the events. *)
Definition judged g g' : Prop :=
  exists eqs evs, g' = set_events evs (set_equivocators eqs g).

Lemma judged_trans g1 g2 g3 : judged g1 g2 -> judged g2 g3 -> judged g1 g3.
Proof. intros (e1 & v1 & ->) (e2 & v2 & ->). by exists e2, v2. Qed.

Lemma ready_judged g g' : judged g g' -> ready g -> ready g'.
Proof. intros (eqs & evs & ->) [[] ? ? ? ? ?]. split; try done. Qed.

Lemma ok_judged bound g g' : judged g g' -> ok bound g -> ok bound g'.
Proof.
  intros Hj [Hr Hs Hroom Ha]. split; [by eapply ready_judged|..]; destruct Hj as (eqs & evs & ->); done.
Qed.

Lemma checkEquivocation_spec f ps g :
  stopped g = false -> (forall p, p ∈ ps -> is_Some (heap g !! p)) ->
  succeeds (each (checkEquivocation f) ps) g (fun _ g' => judged g g').
Proof.
  intros Hs Hps. apply (succeeds_each _ ps (fun _ g' => judged g g')); [by exists (equivocators g), (events g); destruct g|].
  intros l1 p l2 g1 El (eqs & evs & ->). destruct (Hps p) as (n & Hn); [rewrite El; set_solver|].
  unfold checkEquivocation. eapply succeeds_step; [by apply deref_Ok|].
  destruct (_ && _); [|apply succeeds_ret; by exists eqs, evs]. m_step. m_step. unfold sendEvent. m_step. m_step. cbn [stopped set_equivocators set_events].
  rewrite Hs. m_step. by eexists _, _.
Qed.

(** ** Genesis *)

(** [m] returns no error. *)
Definition noErr {A} (m : R A) : Prop := forall g e g', m g <> (Err e, g').

Lemma noErr_bind {A B} (m : R A) (k : A -> R B) : noErr m -> (forall a, noErr (k a)) -> noErr (m ≫= k).
Proof.
  intros Hm Hk g e g'. unfold mbind, M_bind. specialize (Hm g). destruct (m g) as [[a|e'| |] g1]; try done; [apply Hk|].
  by intros [= -> ->]; apply (Hm e g').
Qed.

Lemma noErr_each {A} (k : A -> R unit) l : (forall x, noErr (k x)) -> noErr (each k l).
Proof. intros Hk. induction l as [|x l IH]; [done|]. cbn [each]. by apply noErr_bind. Qed.

Lemma persist_no_error frames : storeWorks -> noErr (persistCanonicalFrames (C := C) frames).
Proof.
  intros Hw. assert (forall e, noErr (perform (C := C) e)) as Hp by (intros e g m g'; unfold perform; by rewrite Hw).
  assert (forall e, noErr (orAbort (perform (C := C) e))) as Ho.
  { intros e g m g'. unfold orAbort, perform. by rewrite Hw. }
  unfold persistCanonicalFrames. case_bool_decide; [done|]. apply noErr_bind; [auto|]. intros _.
  apply noErr_bind; [apply noErr_each; intros f; apply noErr_bind; auto|]. intros _. apply noErr_bind; [auto|]. intros _.
  apply noErr_bind; [done|]. intros [h|]; [|done]. destruct archiveMode; [done|]. apply noErr_bind.
  - intros g e g'. unfold deref. by destruct (heap g !! h).
  - intros n. destruct (_ <? _); [|done]. intros g e g'. unfold ignore. by destruct (perform _ _) as [[]].
Qed.

(** The state after a root was set. *)
Definition rootState g f : reel :=
  mkReel (Some (next g)) (<[ComputeFrameID f := next g]> (nodes g)) (<[FrameNumber f := [next g]]> (framesByNumber g))
    (Some (next g)) (pendingFrames g) (forkChoiceParams g) (cacheAdd (ComputeFrameID f) (next g) (cache g)) (equivocators g)
    (stopped g) (<[next g := mk f None ∅ 0]> (heap g)) (S (next g)) (events g) (effects g) (choices g).

Section root.
Context (g : reel) (Hr : ready g) (f : frame) (Hnew : nodes g !! ComputeFrameID f = None).
Context (Hnum : forall p n, live g p -> heap g !! p = Some n ->
  FrameNumber (Frame n) <> FrameNumber f /\ FrameNumber (Frame n) <> genesisFrameNumber).
Let g' := rootState g f.

Lemma root_live p : live g' p <-> p = next g \/ live g p.
Proof.
  unfold live. cbn. split.
  - intros (id & [[_ <-]|[_ Hid]]%lookup_insert_Some); [by left|right; eauto].
  - intros [->|(id & Hid)]; [exists (ComputeFrameID f); by rewrite lookup_insert_eq|].
    exists id. rewrite lookup_insert_ne; [done|]. congruence.
Qed.

Lemma root_heap p : live g p -> heap g' !! p = heap g !! p.
Proof. intros Hp. pose proof (live_lt g p (ready_wf g Hr) Hp). cbn. by rewrite lookup_insert_ne by lia. Qed.

Lemma root_node : heap g' !! next g = Some (mk f None ∅ 0).
Proof. cbn. by rewrite lookup_insert_eq. Qed.

Lemma root_wf : wf g'.
Proof.
  pose proof (ready_wf g Hr) as Hw. split.
  - intros id p Hp. cbn in Hp. apply lookup_insert_Some in Hp as [[<- <-]|[_ Hp]]; [rewrite root_node; eauto|].
    rewrite root_heap by (by exists id). by apply (wf_node g Hw).
  - intros p n q [->|Hp]%root_live Hn HP; [rewrite root_node in Hn; by injection Hn as <-|]. rewrite root_heap in Hn by done.
    destruct (wf_parent g Hw p n q Hp Hn HP) as (qn & Hlq & Hrest). exists qn. rewrite root_live, root_heap by done. auto.
  - intros q qn id p [->|Hq]%root_live Hqn Hc; [rewrite root_node in Hqn; injection Hqn as <-; cbn in Hc; by rewrite lookup_empty in Hc|].
    rewrite root_heap in Hqn by done. destruct (wf_child g Hw q qn id p Hq Hqn Hc) as (Hlp & Hrest). rewrite root_live, root_heap by done. auto.
  - intros p. cbn [heap next g' rootState]. destruct (decide (p = next g)) as [->|]; [lia|]. rewrite lookup_insert_ne by done.
    intros Hp%(wf_alloc g Hw). lia.
  - intros p n [->|Hp]%root_live Hn; [rewrite root_node in Hn; injection Hn as <-; cbn; lia|]. rewrite root_heap in Hn by done.
    by apply (wf_depth g Hw p).
  - intros p [= <-]. eexists. rewrite root_live, root_node. eauto.
  - intros k p. cbn [framesByNumber g' rootState]. rewrite root_live. destruct (decide (FrameNumber f = k)) as [<-|Hk].
    + rewrite lookup_insert_eq. cbn [default]. unfold default, id. rewrite list_elem_of_singleton. split.
      * intros ->. split; [by left|]. rewrite root_node. eauto.
      * intros [[->|Hp] (n & Hn & Hk)]; [done|]. rewrite root_heap in Hn by done. by destruct (Hnum p n Hp Hn).
    + rewrite lookup_insert_ne by done. rewrite (wf_number g Hw). split.
      * intros (Hp & n & Hn). rewrite root_heap by done. eauto.
      * intros [[->|Hp] (n & Hn & Hk')]; [rewrite root_node in Hn; by injection Hn as <-|]. rewrite root_heap in Hn by done. eauto.
  - intros id p. cbn [cache nodes g' rootState]. intros [[-> ->]|[Hid Hp]]%cacheGet_add; [by rewrite lookup_insert_eq|].
    rewrite lookup_insert_ne by done. by apply (wf_cache g Hw).
Qed.

Lemma root_ready : ready g'.
Proof.
  pose proof Hr as [Hw Hs Hpar Hh Hpend Hgen]. split; [apply root_wf|done|done|cbn; apply root_live; by left|done|].
  intros p n [->|Hp]%root_live Hn Hg; [done|]. rewrite root_heap in Hn by done. by destruct (Hnum p n Hp Hn).
Qed.
End root.

Lemma ready_quiet g g' : quiet g g' -> ready g -> ready g'.
Proof.
  intros [Hs Hh] [Hw Hst Hpar Hhd Hpend Hgen].
  split; [by eapply wf_same|by rewrite (same_stopped _ _ Hs)|by rewrite (same_params _ _ Hs)| | |].
  - rewrite <- Hh. destruct (head g); [by rewrite (live_same _ _ _ Hs)|].
    by rewrite (same_nodes _ _ Hs), (ext_root _ _ (same_extends _ _ Hs)).
  - unfold pendingOk. by rewrite (same_pending _ _ Hs).
  - intros p n. rewrite (live_same _ _ _ Hs), (same_heap _ _ Hs), (ext_root _ _ (same_extends _ _ Hs)). apply Hgen.
Qed.

Lemma room_quiet bound g g' : quiet g g' -> room bound g -> room bound g'.
Proof.
  intros [Hs _]. unfold room, pendingCount. rewrite (same_pending _ _ Hs).
  assert (next g' = next g) as -> by (unfold same, body in Hs; congruence). done.
Qed.

Lemma deepest_quiet g g' : quiet g g' -> deepest g -> deepest g'.
Proof.
  intros [Hs Hh] Hd h p Hh' Hp. rewrite !(depthOf_same _ _ _ Hs). apply Hd; [congruence|]. by rewrite <- (live_same _ _ _ Hs).
Qed.

Lemma settled_quiet g g' : quiet g g' -> settled g -> settled g'.
Proof.
  intros [Hs Hh] Hset p. rewrite (live_same _ _ _ Hs). unfold settledAt. rewrite (same_heap _ _ Hs), (same_pending _ _ Hs). apply Hset.
Qed.

Lemma ok_quiet bound g g' : quiet g g' -> ok bound g -> ok bound g'.
Proof.
  intros Hq [Hr Hs Hroom Ha]. split; [by eapply ready_quiet|intros; eapply settled_quiet; eauto|by eapply room_quiet|].
  intros Hm. destruct (Ha Hm) as [Hanc Hd]. split; [by eapply anchored_same; [apply quiet_same|]|by eapply deepest_quiet].
Qed.

Lemma ok_mono bound g : Z.of_nat (S bound) < 2 ^ 64 -> ok bound g -> ok (S bound) g.
Proof. intros Hb [Hr Hs [Hroom _] Ha]. split; try done. split; [lia|done]. Qed.

Lemma deepest_pruned g g' : pruning g g' -> deepest g -> deepest g'.
Proof.
  intros Hp Hd h p Hh Hl. pose proof (prn_rest _ _ Hp) as Hrest. unfold rest in Hrest. injection Hrest as Eh _ _ _ _ _ _ _.
  pose proof (ready_head _ (prn_ready _ _ Hp)) as Hlh. rewrite Hh in Hlh. destruct (prn_live _ _ Hp h Hlh) as (_ & -> & _).
  destruct (prn_live _ _ Hp p Hl) as (Hlp & -> & _). apply Hd; [congruence|done].
Qed.

Lemma room_pruned bound g g' : pruning g g' -> room bound g -> room bound g'.
Proof.
  intros Hp. pose proof (prn_rest _ _ Hp) as Hrest. unfold rest in Hrest. injection Hrest as _ E2 _ _ _ E6 _ _.
  unfold room, pendingCount. by rewrite E2, E6.
Qed.

Lemma ok_pruned bound g g' : pruning g g' -> ok bound g -> ok bound g'.
Proof.
  intros Hp [Hr Hs Hroom Ha]. split; [apply Hp|intros; by apply (prn_settled _ _ Hp), Hs|by eapply room_pruned|].
  intros Hm. destruct (Ha Hm). split; [by apply (prn_anchored _ _ Hp)|by eapply deepest_pruned].
Qed.

Lemma processPending_spec bound g p :
  ready g -> live g p -> room bound g ->
  succeeds (processPending p) g (fun _ g' => processed bound p g g' /\
    ((forall q, live g q -> q <> p -> settledAt g q) -> settled g')).
Proof. intros Hr Hl Hroom. unfold processPending. m_step. m_step. apply process_spec; [done..|lia]. Qed.

(** The invariant of the new root once it is set. *)
Lemma rootState_ok g f bound :
  ok bound g -> nodes g !! ComputeFrameID f = None ->
  (forall p n, live g p -> heap g !! p = Some n -> FrameNumber (Frame n) <> FrameNumber f /\ FrameNumber (Frame n) <> genesisFrameNumber) ->
  (archiveMode = true -> root g = None) -> Z.of_nat (S bound) < 2 ^ 64 ->
  let g' := rootState g f in
  ready g' /\ room (S bound) g' /\ (storeWorks -> forall q, live g' q -> q <> next g -> settledAt g' q) /\ live g' (next g) /\
  (archiveMode = true -> anchored g' /\ deepest g').
Proof.
  intros [Hr Hs [Hroom _] Ha] Hnew Hnum Hroot Hb g'. pose proof (root_live g f Hnew) as Hlive. pose proof (root_heap g Hr f) as Hheap.
  split; [by apply root_ready|]. split; [split; [unfold pendingCount in *; cbn; lia|done]|]. split; [|split; [apply Hlive; by left|]].
  - intros Hw q [->|Hq]%Hlive Hne; [done|]. intros n Hn. unfold g' in Hn. rewrite Hheap in Hn by done. by apply (Hs Hw q).
  - intros Hm. destruct (Ha Hm) as [[Hempty _] _]. specialize (Hempty (Hroot Hm)).
    assert (forall q, live g' q -> q = next g) as Honly.
    { intros q [->|(id & Hid)]%Hlive; [done|]. rewrite Hempty in Hid. by rewrite lookup_empty in Hid. }
    split; [split; [done|]; exists 0|].
    + intros p n ->%Honly Hn _. unfold g' in Hn. rewrite root_node in Hn. by injection Hn as <-.
    + intros h q [= <-] ->%Honly. done.
Qed.

Lemma genesis_steps g f (k : nat -> R unit) :
  (p ← alloc (mk f None ∅ 0);
   _ ← modify (set_root (Some p));
   _ ← modify (fun g => set_nodes (<[ComputeFrameID f := p]> (nodes g)) g);
   _ ← modify (fun g => set_framesByNumber (<[FrameNumber f := [p]]> (framesByNumber g)) g);
   _ ← modify (set_head (Some p));
   _ ← modify (fun g => set_cache (cacheAdd (ComputeFrameID f) p (cache g)) g);
   k p) g = k (next g) (rootState g f).
Proof. reflexivity. Qed.

(** The guard of insertGenesisFrame. *)
Definition genesisGuard f (r : option nat) : R unit :=
  match r with
  | Some r =>
    if archiveMode then lift (Err "genesis frame already exists")
    else rn ← deref r; lift (if FrameNumber (Frame rn) <=? FrameNumber f then Err "frame is not older than current root" else Ok tt)
  | None => mret tt
  end.

Lemma genesisGuard_spec g f :
  ready g -> FrameNumber f = genesisFrameNumber \/ (root g = None /\ nodes g = ∅) ->
  (exists e, genesisGuard f (root g) g = (Err e, g)) \/ genesisGuard f (root g) g = (Ok tt, g) /\ (archiveMode = true -> root g = None) /\
    forall p n, live g p -> heap g !! p = Some n -> FrameNumber (Frame n) <> FrameNumber f /\ FrameNumber (Frame n) <> genesisFrameNumber.
Proof.
  intros Hr Hor. unfold genesisGuard. destruct (root g) as [r|] eqn:Er.
  - destruct archiveMode; [left; eauto|]. destruct (wf_root g (ready_wf _ Hr) r Er) as (rn & Hlr & Hrn & _).
    rewrite (bind_Ok _ _ _ _ _ (deref_Ok _ _ _ Hrn)). destruct (Z.leb_spec (FrameNumber (Frame rn)) (FrameNumber f)) as [|Hlt]; [left; eauto|].
    right. split; [done|]. split; [done|]. destruct Hor as [Hg|[? _]]; [|done]. intros p n Hp Hn.
    assert (FrameNumber (Frame n) <> genesisFrameNumber); [|by rewrite Hg]. intros Hng.
    assert (r = p) as -> by (pose proof (ready_genesis _ Hr p n Hp Hn Hng); congruence). assert (rn = n) as -> by congruence. lia.
  - right. split; [done|]. split; [done|]. intros p n Hp Hn. destruct Hor as [Hg|[_ He]].
    + assert (FrameNumber (Frame n) <> genesisFrameNumber); [|by rewrite Hg]. intros Hng.
      pose proof (ready_genesis _ Hr p n Hp Hn Hng). congruence.
    + destruct Hp as (id & Hid). rewrite He in Hid. by rewrite lookup_empty in Hid.
Qed.

Lemma insertGenesis_ok g f bound :
  ok bound g -> nodes g !! ComputeFrameID f = None -> Z.of_nat (S bound) < 2 ^ 64 ->
  FrameNumber f = genesisFrameNumber \/ (root g = None /\ nodes g = ∅) ->
  returns (insertGenesisFrame f (ComputeFrameID f)) g (ok (S bound)).
Proof.
  intros Hok Hnew Hb Hor. pose proof (ok_ready _ _ Hok) as Hr. unfold insertGenesisFrame. eapply returns_step; [done|].
  fold (genesisGuard f (root g)). destruct (genesisGuard_spec g f Hr Hor) as [(e & Ee)|(Eg & Hroot & Hnum)].
  { unfold returns, mbind, M_bind. rewrite Ee. by apply ok_mono. }
  eapply returns_step; [exact Eg|]. unfold returns. rewrite genesis_steps.
  destruct (rootState_ok g f bound Hok Hnew Hnum Hroot Hb) as (Hr1 & Hroom1 & Hset1 & Hl1 & Ha1). set (g1 := rootState g f) in *.
  assert (settles (persistCanonicalFrames [f]) g1) as Hset.
  { apply settles_persist. intros p [= <-]. cbn. rewrite lookup_insert_eq. eauto. }
  unfold settles in Hset. destruct (persistCanonicalFrames [f] g1) as [[[]|e| |] g2] eqn:Ep; try done.
  2:{ unfold mbind at 1, M_bind at 1. rewrite Ep. apply (ok_quiet _ g1 g2); [done|]. split; [done| |done|done].
      intros Hw. by destruct (persist_no_error [f] Hw g1 e g2). }
  rewrite (bind_Ok _ _ _ _ _ Ep).
  enough (succeeds (_ ← sendEvent (GlobalEvent.mk TimeReelEventNewHead f None); _ ← processPending (next g); pruneOldFrames) g2 (fun _ => ok (S bound)))
    as (a & g' & -> & Hg') by done.
  assert (ready g2) as Hr2 by by eapply ready_quiet.
  m_step. eapply succeeds_mono; [apply sendEvent_quiet, Hr2|]. intros [] g3 Hq3. assert (quiet g1 g3) as Hq by by etransitivity.
  pose proof (quiet_same _ _ Hq) as Hsame. m_step.
  eapply succeeds_mono; [apply (processPending_spec (S bound)); [by eapply ready_quiet|by rewrite (live_same _ _ _ Hsame)|by eapply room_quiet]|].
  intros [] g4 [[Hr4 He4 _ Hroom4 Hcov4 Hanc4] Hset4].
  eapply succeeds_mono; [apply prune_spec; [done|destruct Hroom4; lia]|]. intros [] g5 Hp5. eapply ok_pruned; [done|]. split; [done| |done|].
  - intros Hw. apply Hset4. intros q. rewrite (live_same _ _ _ Hsame). unfold settledAt. rewrite (same_heap _ _ Hsame), (same_pending _ _ Hsame).
    by apply Hset1.
  - intros Hm. destruct (Ha1 Hm) as [Hanc1 Hd1]. split; [apply Hanc4; by eapply anchored_same|].
    assert (covered g4 (next g)) as Hc4 by (apply Hcov4, deepest_covered; by eapply deepest_quiet).
    intros h q Hh Hq'. specialize (Hc4 h q Hh Hq'). pose proof (ready_head _ Hr4) as Hlh. rewrite Hh in Hlh.
    destruct (wf_live g4 h (ready_wf _ Hr4) Hlh) as (hn & Hhn & _). pose proof (wf_depth g4 (ready_wf _ Hr4) h hn Hlh Hhn).
    assert (depthOf g4 h = Depth hn) by (unfold depthOf; by rewrite Hhn).
    assert (depthOf g4 (next g) = 0).
    { rewrite (ext_depth g3 g4); [|apply (wf_same _ _ Hsame), Hr1|done|by rewrite (live_same _ _ _ Hsame)].
      rewrite (depthOf_same _ _ _ Hsame). unfold depthOf, g1. by rewrite root_node. }
    lia.
Qed.

(** ** Frames with a parent *)

(** Dropping pending frames. *)
Definition dropPending g (m : gmap bytes (list GlobalPendingFrame.t)) : Prop :=
  forall sel l, m !! sel = Some l -> exists l', pendingFrames g !! sel = Some l' /\ l <> [] /\ forall x, x ∈ l -> x ∈ l'.

Lemma ok_drop bound g m :
  dropPending g m -> (pendingCount (set_pendingFrames m g) <= pendingCount g)%nat -> ok bound g -> ok bound (set_pendingFrames m g).
Proof.
  intros Hm Hc [[Hw Hs Hpar Hh Hpend Hgen] Hset [Hroom Hb] Ha]. split; [split; try done| |split; [cbn in *; lia|done]|done].
  - by destruct Hw.
  - intros sel l Hl. destruct (Hm sel l Hl) as (l' & Hl' & Hne & Hsub). split; [done|]. destruct (Hpend sel l' Hl') as [_ HF].
    rewrite Forall_forall in HF |- *. auto.
  - intros Hwk p Hp n Hn. cbn in *. destruct (m !! _) as [l|] eqn:El; [|done]. destruct (Hm _ l El) as (l' & Hl' & _).
    rewrite (Hset Hwk p Hp n Hn) in Hl'. done.
Qed.

Lemma count_omap (k : list GlobalPendingFrame.t -> option (list GlobalPendingFrame.t)) (m : gmap bytes (list GlobalPendingFrame.t)) :
  (forall l l', k l = Some l' -> (length l' <= length l)%nat) ->
  (map_fold (fun _ (l : list GlobalPendingFrame.t) c => (length l + c)%nat) 0%nat (omap k m) <=
   map_fold (fun _ (l : list GlobalPendingFrame.t) c => (length l + c)%nat) 0%nat m)%nat.
Proof.
  intros Hk. induction m as [|sel l m Hnone IH] using map_ind; [by rewrite omap_empty|].
  pose proof (count_insert m sel l) as Hc. rewrite Hnone in Hc. cbn in Hc. destruct (k l) as [l'|] eqn:El.
  - rewrite (omap_insert_Some k m sel l l' El). pose proof (count_insert (omap k m) sel l') as Hc'.
    rewrite lookup_omap, Hnone in Hc'. cbn in Hc'. specialize (Hk l l' El). lia.
  - rewrite (omap_insert_None k m sel l El), delete_id by (by rewrite lookup_omap, Hnone). lia.
Qed.

Lemma pruneOldPending_spec bound g now :
  ok bound g -> succeeds (pruneOldPendingFrames now) g (fun _ g' => ok bound g' /\ (top g -> top g')).
Proof.
  intros Hok. unfold pruneOldPendingFrames. m_step. split; [|done]. apply ok_drop; [| |done].
  - intros sel l Hl. rewrite lookup_omap in Hl. apply bind_Some in Hl as (l' & Hl' & Hf). exists l'. split; [done|].
    case_bool_decide as E0; [done|]. injection Hf as <-. split; [intros E1; by rewrite E1 in E0|]. intros x [_ Hx]%list_elem_of_filter. done.
  - apply count_omap. intros l l' Hf. case_bool_decide; [done|]. injection Hf as <-. apply length_filter.
Qed.

Lemma insertLinked_ok bound now g f parent pn :
  ok bound g -> Z.of_nat (S bound) < 2 ^ 64 -> live g parent -> heap g !! parent = Some pn ->
  ParentSelector f = selectorOf (Frame pn) -> FrameNumber f <> genesisFrameNumber -> nodes g !! ComputeFrameID f = None ->
  succeeds (newNode ← link f (ComputeFrameID f) parent; _ ← processPending newNode; _ ← evaluateForkChoice newNode;
            _ ← pruneOldFrames; pruneOldPendingFrames now) g
    (fun _ g' => ok (S bound) g' /\ (deepest g -> top g')).
Proof.
  intros [Hr Hs [Hroom Hb] Ha] Hb' Hl Hpn Hsel Hnum Hnew.
  destruct (link_ready g f parent pn Hr ltac:(lia) Hl Hpn Hsel Hnum Hnew) as (El & Hr1 & He1 & Hl1 & Hset1 & Hcov1 & Hanc1).
  eapply succeeds_step; [exact El|]. set (g1 := linkState _ _ _ _ _) in *.
  assert (room (S bound) g1) as Hroom1 by (split; [unfold pendingCount in *; cbn; lia|done]).
  m_step. eapply succeeds_mono; [by apply (processPending_spec (S bound))|].
  intros [] g2 [[Hr2 He2 _ Hroom2 Hcov2 Hanc2] Hset2]. m_step.
  eapply succeeds_mono; [apply evaluate_ready; [done|by eapply ext_live]|]. intros [] g3 (Hr3 & Hsame & Htop).
  assert (deepest g -> top g3) as Htop3 by (intros Hd; apply Htop, Hcov2, Hcov1, deepest_covered, Hd).
  assert (ok (S bound) g3) as Hok3.
  { split; [done| | |].
    - intros Hw p. rewrite (live_same _ _ _ Hsame). unfold settledAt. rewrite (same_heap _ _ Hsame), (same_pending _ _ Hsame).
      apply Hset2, Hset1, Hs, Hw.
    - unfold room, pendingCount. rewrite (same_pending _ _ Hsame).
      assert (next g3 = next g2) as -> by (unfold same, body in Hsame; congruence). done.
    - intros Hm. destruct (Ha Hm) as [Hanc Hd]. split; [by apply (anchored_same g2), Hanc2, Hanc1|by apply top_deepest, Htop3]. }
  m_step. eapply succeeds_mono; [apply prune_spec; [done|destruct (ok_room _ _ Hok3); lia]|]. intros [] g4 Hp.
  eapply succeeds_mono; [apply (pruneOldPending_spec (S bound)); by eapply ok_pruned|]. intros [] g5 [Hok5 Htop5].
  split; [done|]. intros Hd. by apply Htop5, (prn_top _ _ Hp), Htop3.
Qed.

(** ** Insert *)

Lemma findSelector_spec g sel ps :
  (forall p, p ∈ ps -> is_Some (heap g !! p)) ->
  exists r, findSelector sel ps g = (Ok r, g) /\
    match r with
    | Some p => p ∈ ps /\ exists n, heap g !! p = Some n /\ selectorOf (Frame n) = sel
    | None => forall p n, p ∈ ps -> heap g !! p = Some n -> selectorOf (Frame n) <> sel
    end.
Proof.
  induction ps as [|p ps IH]; intros Hps; [exists None; split; [done|]; intros p n Hp; by apply elem_of_nil in Hp|].
  destruct (Hps p ltac:(left)) as (n & Hn). cbn [findSelector]. rewrite (bind_Ok _ _ _ _ _ (deref_Ok _ _ _ Hn)).
  case_bool_decide as Es; [exists (Some p); split; [done|]; split; [left|eauto]|].
  destruct IH as (r & Er & Hr); [intros q Hq; apply Hps; by right|]. exists r. split; [done|]. destruct r as [q|].
  - destruct Hr as (Hq & Hsel). split; [by right|done].
  - intros q qn [->|Hq]%elem_of_cons Hqn; [congruence|by eapply Hr].
Qed.

Lemma findNode_spec g sel :
  wf g -> exists r, findNodeBySelector sel g = (Ok r, set_choices (S (choices g)) g) /\
    match r with
    | Some p => live g p /\ exists n, heap g !! p = Some n /\ selectorOf (Frame n) = sel
    | None => forall p n, live g p -> heap g !! p = Some n -> selectorOf (Frame n) <> sel
    end.
Proof.
  intros Hw. destruct (rangeNodes_eq g) as (ps & Er & _ & Hps). set (g' := set_choices _ g) in *.
  destruct (findSelector_spec g' sel ps) as (r & Ef & Hr).
  { intros p Hp%Hps. destruct (wf_live g p Hw Hp) as (n & Hn & _). cbn. eauto. }
  exists r. unfold findNodeBySelector. rewrite (bind_Ok _ _ _ _ _ Er), Ef. split; [done|].
  cbn [heap g' set_choices] in Hr. destruct r; [by rewrite Hps in Hr|]. intros p n Hp. apply Hr. by apply Hps.
Qed.

Lemma addPending_ok bound g f :
  ok bound g -> Z.of_nat (S bound) < 2 ^ 64 -> FrameNumber f <> genesisFrameNumber ->
  (forall p n, live g p -> heap g !! p = Some n -> selectorOf (Frame n) <> ParentSelector f) ->
  succeeds (addPendingFrame f) g (fun _ g' => ok (S bound) g').
Proof.
  intros [[Hw Hs Hpar Hh Hpend Hgen] Hset [Hroom Hb] Ha] Hb' Hnum Hsel. unfold addPendingFrame. m_step.
  split; [split; try done| |split; [|done]|done].
  - by destruct Hw.
  - intros sel l Hl. cbn in Hl. apply lookup_insert_Some in Hl as [[<- <-]|[_ Hl]]; [|by apply Hpend].
    split; [by destruct (default _ _)|]. apply Forall_app. split; [|by constructor].
    destruct (pendingFrames g !! ParentSelector f) as [l|] eqn:El; [|constructor]. by apply (Hpend _ _ El).
  - intros Hwk p Hp n Hn. cbn in *. rewrite lookup_insert_ne by (intros E0; by eapply Hsel). by apply (Hset Hwk p).
  - unfold pendingCount in *. cbn. pose proof (count_insert (pendingFrames g) (ParentSelector f)
      (default [] (pendingFrames g !! ParentSelector f) ++ [GlobalPendingFrame.mk f (ParentSelector f) (Timestamp f)])) as Hc.
    rewrite length_app in Hc. cbn [length] in Hc. lia.
Qed.

Lemma Insert_ok bound now g f :
  ok bound g -> Z.of_nat (S bound) < 2 ^ 64 -> returns (Insert now f) g (ok (S bound)).
Proof.
  intros Hok Hb. unfold Insert. eapply returns_step; [done|].
  destruct (nodes g !! ComputeFrameID f) as [y|] eqn:Ey; [by apply ok_mono|]. eapply returns_step; [done|].
  pose proof (ok_ready _ _ Hok) as Hr. eapply returns_after; [apply checkEquivocation_spec; [apply Hr|]|].
  { intros p [Hp _]%(wf_number g (ready_wf _ Hr)). destruct (wf_live g p (ready_wf _ Hr) Hp) as (n & Hn & _). eauto. }
  intros [] g1 Hj. pose proof (ok_judged _ _ _ Hj Hok) as Hok1. pose proof (ok_ready _ _ Hok1) as Hr1.
  assert (nodes g1 !! ComputeFrameID f = None) as Ey1 by (by destruct Hj as (? & ? & ->)).
  destruct (Z.eqb_spec (FrameNumber f) genesisFrameNumber) as [Hg|Hg]; [apply insertGenesis_ok; auto|].
  eapply returns_step; [done|]. destruct (negb archiveMode && _) eqn:Efresh.
  { apply andb_true_iff in Efresh as [_ [?%bool_decide_eq_true_1 ?%bool_decide_eq_true_1]%andb_true_iff]. apply insertGenesis_ok; auto. }
  destruct (findNode_spec g1 (ParentSelector f) (ready_wf _ Hr1)) as (r & Ef & Hfound). eapply returns_step; [exact Ef|].
  set (g2 := set_choices _ g1). assert (quiet g1 g2) as Hq by done.
  pose proof (ok_quiet _ _ _ Hq Hok1) as Hok2. pose proof (quiet_same _ _ Hq) as Hsame. destruct r as [parent|].
  - destruct Hfound as (Hl & pn & Hpn & Hsel). rewrite <- (live_same _ _ _ Hsame) in Hl. rewrite <- (same_heap _ _ Hsame) in Hpn.
    eapply returns_step; [by apply deref_Ok|]. rewrite bool_decide_true by done. apply succeeds_returns.
    eapply succeeds_mono; [apply (insertLinked_ok bound now g2 f parent pn); try done|by intros [] g3 [? _]].
  - assert (succeeds (addPendingFrame f) g2 (fun _ => ok (S bound))) as Hadd.
    { apply addPending_ok; [done..|]. intros p n. rewrite (live_same _ _ _ Hsame), (same_heap _ _ Hsame). apply Hfound. }
    apply succeeds_returns. unfold insertOrphan. m_step. m_step. pose proof (ready_head _ (ok_ready _ _ Hok2)) as Hh.
    destruct (head g2) as [h|]; [|done]. destruct archiveMode; [done|].
    destruct (wf_live g2 h (ready_wf _ (ok_ready _ _ Hok2)) Hh) as (hn & Hhn & _). eapply succeeds_step; [by apply deref_Ok|].
    destruct ((FrameNumber (Frame hn) <? _) && _); [done|]. destruct ((_ <? FrameNumber (Frame hn)) && _); [|done].
    apply succeeds_ret. by apply ok_mono.
Qed.

(** A new frame whose parent is known is accepted; if no node was deeper than the head, the
    head is then the best. *)
Lemma Insert_linked bound now g f p n :
  ok bound g -> Z.of_nat (S bound) < 2 ^ 64 -> (archiveMode = true \/ root g <> None) ->
  nodes g !! ComputeFrameID f = None -> FrameNumber f <> genesisFrameNumber ->
  live g p -> heap g !! p = Some n -> selectorOf (Frame n) = ParentSelector f ->
  succeeds (Insert now f) g (fun _ g' => ok (S bound) g' /\ (deepest g -> top g')).
Proof.
  intros Hok Hb Hmode Ey Hg Hl Hn Hsel. unfold Insert. m_step. m_step. rewrite Ey. m_step. m_step. m_step.
  pose proof (ok_ready _ _ Hok) as Hr. eapply succeeds_mono; [apply checkEquivocation_spec; [apply Hr|]|].
  { intros q [Hq _]%(wf_number g (ready_wf _ Hr)). destruct (wf_live g q (ready_wf _ Hr) Hq) as (qn & Hqn & _). eauto. }
  intros [] g1 Hj. pose proof (ok_judged _ _ _ Hj Hok) as Hok1. pose proof (ok_ready _ _ Hok1) as Hr1.
  assert (nodes g1 = nodes g /\ heap g1 = heap g /\ root g1 = root g /\ (deepest g -> deepest g1)) as (En & Eh & Er & Hd1)
    by (by destruct Hj as (? & ? & ->)).
  rewrite (proj2 (Z.eqb_neq _ _) Hg). m_step. m_step.
  assert (negb archiveMode && (bool_decide (root g1 = None) && bool_decide (nodes g1 = ∅)) = false) as ->.
  { destruct archiveMode; [done|]. destruct Hmode as [|Hroot]; [done|]. by rewrite Er, bool_decide_false. }
  destruct (findNode_spec g1 (ParentSelector f) (ready_wf _ Hr1)) as (r & Ef & Hfound). eapply succeeds_step; [exact Ef|].
  set (g2 := set_choices _ g1). assert (quiet g1 g2) as Hq by done.
  pose proof (ok_quiet _ _ _ Hq Hok1) as Hok2. pose proof (quiet_same _ _ Hq) as Hsame.
  destruct r as [parent|].
  2:{ destruct (Hfound p n); [|by rewrite Eh|done]. unfold live. by rewrite En. }
  destruct Hfound as (Hlp & pn & Hpn & Hselp). rewrite <- (live_same _ _ _ Hsame) in Hlp. rewrite <- (same_heap _ _ Hsame) in Hpn.
  eapply succeeds_step; [by apply deref_Ok|]. rewrite bool_decide_true by done.
  eapply succeeds_mono; [apply (insertLinked_ok bound now g2 f parent pn); try done; by rewrite (same_nodes _ _ Hsame), En|].
  intros [] g3 [Hok3 Htop]. split; [done|]. intros Hd. apply Htop. eapply deepest_quiet; [done|auto].
Qed.

(** ** Histories *)

(** A sequence of calls of Insert, each with the time of the clock. *)
Fixpoint insertAll (history : list (Z * frame)) g : list (result unit) * reel :=
  match history with
  | [] => ([], g)
  | (now, f) :: history =>
    let '(r, g) := Insert now f g in
    let '(rs, g) := insertAll history g in
    (r :: rs, g)
  end.

Definition returned (r : result unit) : Prop := r <> Panic /\ r <> Diverge.

Lemma insertAll_ok history bound g :
  ok bound g -> Z.of_nat (bound + length history) < 2 ^ 64 ->
  Forall returned (insertAll history g).1 /\ ok (bound + length history) (insertAll history g).2.
Proof.
  revert bound g. induction history as [|[now f] history IH]; intros bound g Hok Hb; cbn [insertAll length] in *.
  - by rewrite Nat.add_0_r.
  - pose proof (Insert_ok bound now g f Hok ltac:(lia)) as Hret. unfold returns in Hret.
    destruct (Insert now f g) as [[[]|e| |] g1]; try done;
      (destruct (IH (S bound) g1 Hret ltac:(lia)) as [HF Hok1]; destruct (insertAll history g1) as [rs g2]; cbn in *;
       split; [by constructor|]; by replace (bound + S (length history))%nat with (S bound + length history)%nat by lia).
Qed.

Definition emptyCache (c : C) : Prop := forall id, (cacheGet id c).1 = None.

Lemma new_ok c : emptyCache c -> ok 0 (NewGlobalTimeReel c).
Proof.
  intros Hc. assert (forall p, ~ live (NewGlobalTimeReel c) p) as Hno.
  { intros p (id & Hid). cbn in Hid. by rewrite lookup_empty in Hid. }
  split.
  - split; try done.
    + split; try (intros; exfalso; eapply Hno; eassumption).
      * intros id p Hp. cbn in Hp. by rewrite lookup_empty in Hp.
      * intros p [n Hn]. cbn in Hn. by rewrite lookup_empty in Hn.
      * done.
      * intros k p. cbn. rewrite lookup_empty. split; [intros Hp; by apply elem_of_nil in Hp|]. intros [Hl _]. by apply Hno in Hl.
      * intros id p. cbn. by rewrite Hc.
  - intros _ p Hl. by apply Hno in Hl.
  - split; [|done]. unfold pendingCount. cbn. by rewrite map_fold_empty.
  - intros _. split; [|done]. split; [done|]. exists 0. intros p n Hl. by apply Hno in Hl.
Qed.

(** ** Queries *)

(** Each frame names the one before it as its parent. *)
Definition chained (fs : list frame) : Prop :=
  forall i a b, fs !! i = Some a -> fs !! S i = Some b -> ParentSelector b = selectorOf a.

Lemma chained_snoc fs a b : last fs = Some a -> chained fs -> ParentSelector b = selectorOf a -> chained (fs ++ [b]).
Proof.
  intros Hlast Hfs Hb i x y Hx Hy. rewrite last_lookup in Hlast. pose proof (lookup_lt_Some _ _ _ Hy) as Hlt.
  rewrite length_app in Hlt. cbn in Hlt. destruct (decide (S i = length fs)) as [Ei|Hne].
  - rewrite lookup_app_l in Hx by lia. rewrite lookup_app_r, Ei, Nat.sub_diag in Hy by lia. cbn in Hy.
    replace (pred (length fs)) with i in Hlast by lia. congruence.
  - rewrite lookup_app_l in Hx, Hy by lia. by apply (Hfs i).
Qed.

Lemma lineage_frames g p fs :
  wf g -> live g p -> Forall2 (fun p f => Frame <$> heap g !! p = Some f) (reverse (lineage (heap g) p)) fs ->
  exists f, chained fs /\ last fs = Some f /\ nodes g !! ComputeFrameID f = Some p.
Proof.
  intros Hw Hp. revert p Hp fs.
  apply (lineage_ind g (fun p => forall fs, Forall2 (fun p f => Frame <$> heap g !! p = Some f) (reverse (lineage (heap g) p)) fs ->
    exists f, chained fs /\ last fs = Some f /\ nodes g !! ComputeFrameID f = Some p) Hw).
  - intros p n Hp Hn HP fs. rewrite (lineage_eq g p n Hw Hp Hn), HP. cbn. intros HF.
    apply Forall2_cons_inv_l in HF as (f & l & Hf & Hl & ->). apply Forall2_nil_inv_l in Hl as ->.
    rewrite Hn in Hf. injection Hf as <-. exists (Frame n). split; [|split; [done|]].
    + intros i a b _ Hb. by rewrite lookup_ge_None_2 in Hb by (cbn; lia).
    + destruct (wf_live g p Hw Hp) as (n' & Hn' & Hid). congruence.
  - intros p n q qn Hp Hn HP Hlq Hqn IH fs. rewrite (lineage_eq g p n Hw Hp Hn), HP, reverse_cons. intros HF.
    apply Forall2_app_inv_l in HF as (fs1 & l & HF1 & HF2 & ->). apply Forall2_cons_inv_l in HF2 as (f & l' & Hf & Hl & ->).
    apply Forall2_nil_inv_l in Hl as ->. rewrite Hn in Hf. injection Hf as <-.
    destruct (IH fs1 HF1) as (f1 & Hch & Hlast & Hid1). exists (Frame n).
    destruct (wf_parent g Hw p n q Hp Hn HP) as (qn' & _ & Hqn' & _ & Hsel & _). destruct (wf_node g Hw _ _ Hid1) as (qn2 & Hqn2 & _).
    split; [|split; [by rewrite last_snoc|destruct (wf_live g p Hw Hp) as (n' & Hn' & Hid); congruence]].
    apply (chained_snoc fs1 f1); [done..|]. rewrite Hsel. f_equal.
    rewrite (lineage_eq g q qn Hw Hlq Hqn), reverse_cons in HF1.
    apply Forall2_app_inv_l in HF1 as (fs2 & l2 & _ & HF3 & ->). apply Forall2_cons_inv_l in HF3 as (f3 & l3 & Hf3 & Hl3 & ->).
    apply Forall2_nil_inv_l in Hl3 as ->. rewrite last_snoc in Hlast. rewrite Hqn' in Hf3. cbn in Hf3. congruence.
Qed.

Lemma lineage_chained g p :
  wf g -> live g p -> exists fs f, getNodeLineage p g = (Ok fs, g) /\ chained fs /\ last fs = Some f /\
    nodes g !! ComputeFrameID f = Some p.
Proof.
  intros Hw Hp.
  destruct (frames_of g (reverse (lineage (heap g) p))) as (fs & Em & HF).
  { intros q Hq. apply elem_of_reverse, (lineage_live g p q Hw Hp), (wf_live g q Hw) in Hq as (n & Hn & _). eauto. }
  destruct (lineage_frames g p fs Hw Hp HF) as (f & Hrest). exists fs, f. split; [|done].
  unfold getNodeLineage. by rewrite gets_bind.
Qed.

Lemma GetFrame_spec g id :
  wf g -> match nodes g !! id with
          | Some p => exists f g', GetFrame id g = (Ok f, g') /\ ComputeFrameID f = id /\ wf g'
          | None => exists g', GetFrame id g = (Err "frame not found", g') /\ wf g'
          end.
Proof.
  intros Hw. unfold GetFrame. rewrite gets_bind.
  destruct (cacheGet id (cache g)) as [hit c'] eqn:Ec. assert (c' = (cacheGet id (cache g)).2) as Ec' by by rewrite Ec.
  assert (forall c, (forall k w, (cacheGet k c).1 = Some w -> (cacheGet k (cache g)).1 = Some w \/ nodes g !! k = Some w) -> wf (set_cache c g)) as Hc.
  { intros c Hc. destruct Hw. split; try done. intros k w Hk. by destruct (Hc k w Hk) as [?%wf_cache|?]. }
  assert (wf (set_cache c' g)) as Hw1 by (apply Hc; intros k w Hk; left; rewrite Ec' in Hk; by apply cacheGet_get in Hk).
  rewrite (bind_Ok (modify (set_cache c')) _ g tt (set_cache c' g) eq_refl).
  destruct hit as [p|].
  - assert (nodes g !! id = Some p) as Hid by (apply (wf_cache g Hw); by rewrite Ec). rewrite Hid.
    destruct (wf_node g Hw id p Hid) as (n & Hn & ->). exists (Frame n), (set_cache c' g).
    by rewrite (bind_Ok _ _ _ _ _ (deref_Ok p n (set_cache c' g) Hn)).
  - rewrite (bind_Ok (gets (fun g => nodes g !! id)) _ (set_cache c' g) (nodes g !! id) (set_cache c' g) eq_refl).
    destruct (nodes g !! id) as [p|] eqn:Hid; [|by exists (set_cache c' g)].
    destruct (wf_node g Hw id p Hid) as (n & Hn & ->).
    exists (Frame n), (set_cache (cacheAdd (ComputeFrameID (Frame n)) p c') g). split; [|split; [done|]].
    + erewrite bind_Ok by reflexivity. etransitivity; [apply bind_Ok, deref_Ok; exact Hn|reflexivity].
    + apply Hc. intros k w [[-> ->]|[_ Hk]]%cacheGet_add; [by right|]. left. rewrite Ec' in Hk. by apply cacheGet_get in Hk.
Qed.
End insert.
