(* ===== verification/GlobalTimeReelEffects.v ===== *)
(** * What the global time reel does to the store

    The effects of a reorganisation and of frames that arrive in order, the IDs of frames
    and the seniority of frames. *)

From S2P Require Import Prelude Wire Keys Frames Messages ForkChoice Stateful GlobalTimeReel GlobalTimeReelSpec.
From S2P Require Import GlobalTimeReelInsert.
Import GlobalFrameNode.

(** ** Frame IDs *)

Lemma digits_app fuel z acc : digits fuel z acc = digits fuel z [] ++ acc.
Proof.
  revert z acc. induction fuel as [|fuel IH]; intros z acc; [done|]. cbn [digits]. destruct (z <? 10); [done|].
  rewrite IH, (IH _ [_]), <- app_assoc. done.
Qed.

(** The number a list of digits spells. *)
Definition digitsVal (l : bytes) : Z := foldl (fun a b => a * 10 + (byte_Z b - 48)) 0 l.

Lemma digits_val fuel z : 0 <= z < 10 ^ Z.of_nat fuel -> digitsVal (digits fuel z []) = z.
Proof.
  revert z. induction fuel as [|fuel IH]; intros z Hz; [cbn in *; lia|]. cbn [digits].
  rewrite Nat2Z.inj_succ, Z.pow_succ_r in Hz by lia. destruct (Z.ltb_spec z 10) as [Hlt|Hge].
  - unfold digitsVal. cbn. rewrite byte_Z_of, Z.mod_small by lia. lia.
  - rewrite digits_app. unfold digitsVal. rewrite foldl_app. fold (digitsVal (digits fuel (z / 10) [])).
    rewrite IH by (split; [apply Z.div_pos; lia|apply Z.div_lt_upper_bound; lia]). cbn.
    pose proof (Z.mod_pos_bound z 10 ltac:(lia)). rewrite byte_Z_of, (Z.mod_small (48 + _)) by lia.
    pose proof (Z.div_mod z 10 ltac:(lia)). lia.
Qed.

Lemma digits_range fuel z : 0 <= z -> Forall (fun b => 48 <= byte_Z b < 58) (digits fuel z []).
Proof.
  revert z. induction fuel as [|fuel IH]; intros z Hz; [constructor|]. cbn [digits]. destruct (Z.ltb_spec z 10) as [Hlt|Hge].
  - constructor; [|constructor]. rewrite byte_Z_of, Z.mod_small; lia.
  - rewrite digits_app. apply Forall_app. split; [apply IH, Z.div_pos; lia|]. constructor; [|constructor].
    pose proof (Z.mod_pos_bound z 10 ltac:(lia)). rewrite byte_Z_of, Z.mod_small; lia.
Qed.

Lemma fmtD_inj x y : is_i 65 x -> is_i 65 y -> fmtD x = fmtD y -> x = y.
Proof.
  unfold is_i, fmtD. intros Hx Hy. pose proof (digits_range 20 (- x)) as R1. pose proof (digits_range 20 x) as R2.
  pose proof (digits_range 20 (- y)) as R3. pose proof (digits_range 20 y) as R4.
  destruct (Z.ltb_spec x 0), (Z.ltb_spec y 0).
  - intros E1. assert (digits 20 (- x) [] = digits 20 (- y) []) as E0 by congruence. apply (f_equal digitsVal) in E0. rewrite !digits_val in E0 by (cbn in *; lia). lia.
  - intros E0. rewrite <- E0 in R4. specialize (R4 ltac:(lia)). inversion R4 as [|? ? Hb _]; subst. by vm_compute in Hb; destruct Hb.
  - intros E0. rewrite E0 in R2. specialize (R2 ltac:(lia)). inversion R2 as [|? ? Hb _]; subst. by vm_compute in Hb; destruct Hb.
  - intros E0. apply (f_equal digitsVal) in E0. rewrite !digits_val in E0 by (cbn in *; lia). lia.
Qed.

Lemma colon_notin_fmtD z : Byte.x3a ∉ fmtD z.
Proof.
  unfold fmtD. intros Hin.
  assert (forall x, 0 <= x -> Byte.x3a ∉ digits 20 x []) as Hd.
  { intros x Hx Hi. pose proof (digits_range 20 x Hx) as HF. rewrite Forall_forall in HF. specialize (HF _ Hi). by vm_compute in HF; destruct HF. }
  destruct (Z.ltb_spec z 0); [apply elem_of_cons in Hin as [?|Hin]; [done|]|]; eapply Hd in Hin; (done || lia).
Qed.

Lemma hexDigit_val z : 0 <= z < 16 -> byte_Z (hexDigit z) = if z <? 10 then 48 + z else 87 + z.
Proof. intros. unfold hexDigit. rewrite byte_Z_of. destruct (Z.ltb_spec z 10); rewrite Z.mod_small; lia. Qed.

Lemma hexDigit_inj x y : 0 <= x < 16 -> 0 <= y < 16 -> hexDigit x = hexDigit y -> x = y.
Proof.
  intros Hx Hy E0. apply (f_equal byte_Z) in E0. rewrite !hexDigit_val in E0 by done.
  destruct (Z.ltb_spec x 10), (Z.ltb_spec y 10); lia.
Qed.

Lemma fmtX_inj a b : fmtX a = fmtX b -> a = b.
Proof.
  revert b. induction a as [|x a IH]; intros [|y b]; try done. unfold fmtX. cbn. intros [= E1 E2 E3].
  pose proof (byte_Z_range x). pose proof (byte_Z_range y). f_equal; [|by apply IH]. apply (inj byte_Z).
  apply hexDigit_inj in E1; [|split; [apply Z.div_pos; lia|apply Z.div_lt_upper_bound; lia]..].
  apply hexDigit_inj in E2; [|apply Z.mod_pos_bound; lia..].
  rewrite (Z.div_mod (byte_Z x) 16), (Z.div_mod (byte_Z y) 16), E1, E2 by lia. done.
Qed.

Lemma colon_notin_fmtX a : Byte.x3a ∉ fmtX a.
Proof.
  induction a as [|x a IH]; [by apply not_elem_of_nil|]. unfold fmtX. cbn. pose proof (byte_Z_range x).
  assert (forall z, 0 <= z < 16 -> Byte.x3a <> hexDigit z) as Hh.
  { intros z Hz E0. apply (f_equal byte_Z) in E0. rewrite hexDigit_val in E0 by done. vm_compute (byte_Z Byte.x3a) in E0.
    destruct (Z.ltb_spec z 10); lia. }
  rewrite !not_elem_of_cons. split; [apply Hh; split; [apply Z.div_pos; lia|apply Z.div_lt_upper_bound; lia]|].
  split; [apply Hh, Z.mod_pos_bound; lia|done].
Qed.

(** The parts before a separator that occurs in neither. *)
Lemma split_at (c : byte) x y x' y' : c ∉ x -> c ∉ x' -> x ++ [c] ++ y = x' ++ [c] ++ y' -> x = x' /\ y = y'.
Proof.
  revert x'. induction x as [|a x IH]; intros [|a' x'] Hx Hx' E0; cbn in *.
  - by injection E0 as ->.
  - injection E0 as <- _. set_solver.
  - injection E0 as -> _. set_solver.
  - injection E0 as <- E0. destruct (IH x') as [-> ->]; [set_solver|set_solver|done|done].
Qed.

Section ids.
Context `{E : Environment}.

(** The number and the timestamp are 64-bit integers. *)
Definition wellTyped (f : frame) : Prop := is_u 64 (FrameNumber f) /\ is_i 64 (Timestamp f).

Lemma frameData_inj f f' :
  wellTyped f -> wellTyped f' -> frameData f = frameData f' ->
  FrameNumber f = FrameNumber f' /\ Timestamp f = Timestamp f' /\ Output f = Output f' /\ ParentSelector f = ParentSelector f'.
Proof.
  unfold wellTyped, is_u, is_i. intros [Hn Ht] [Hn' Ht'] E0. unfold frameData in E0.
  apply split_at in E0 as [E1 E0]; [|apply colon_notin_fmtD..]. apply split_at in E0 as [E2 E0]; [|apply colon_notin_fmtD..].
  apply split_at in E0 as [E3 E4]; [|apply colon_notin_fmtX..].
  apply fmtD_inj in E1; [|unfold is_i; lia..]. apply fmtD_inj in E2; [|unfold is_i; lia..].
  apply fmtX_inj in E3. apply fmtX_inj in E4. done.
Qed.
End ids.

(** ** Seniority *)

(** The signers that count: those that did not equivocate at the height of the frame. *)
Definition counted (equivocators : gmap Z (gset Z)) (f : frame) (m : bytes) : nat :=
  length (filter (fun b => b ∉ (default ∅ (equivocators !! FrameNumber f) : gset Z)) (signers m)).

Lemma seniority_eq equivocators f m :
  mask f = Some m -> computeFrameSeniority equivocators f = u64 ((2 ^ 58 - 1) * Z.of_nat (counted equivocators f m)).
Proof.
  intros Hm. unfold computeFrameSeniority. rewrite Hm. cbn zeta. fold (counted equivocators f m).
  change (SCALE / 64) with (2 ^ 58 - 1). destruct (Z.eqb_spec (Z.of_nat (counted equivocators f m)) 0) as [E0|]; [|done].
  rewrite E0. done.
Qed.

Section effects.
Context `{E : Environment} `{!EnvironmentLaws E} {C : Type} `{HC : Cache C} `{!CacheLaws C}.
Abbreviation reel := (GlobalTimeReel C).
Abbreviation R := (M reel).
Implicit Types (g : reel) (p q : nat) (n : GlobalFrameNode.t) (f : frame).
Context (Hworks : storeWorks).

(** ** Effects when the store does not fail *)

(** The effects by which a frame becomes part of the canonical chain, and those that undo
    it. *)
Definition applied (f : frame) : list effect := [Materialize (FrameNumber f) (Requests f); PutGlobalClockFrame f].
Definition undone (f : frame) : list effect :=
  if FrameNumber f =? 244200 then [] else [Revert (FrameNumber f) (Requests f)].

(** A state with more effects. *)
Definition after g (l : list effect) : reel := set_effects (effects g ++ l) g.

Lemma after_nil g : after g [] = g.
Proof. unfold after. rewrite app_nil_r. by destruct g. Qed.

Lemma after_after g l l' : after (after g l) l' = after g (l ++ l').
Proof. unfold after. cbn. by rewrite app_assoc. Qed.

Lemma perform_works e g : perform e g = (Ok tt, after g [e]).
Proof. unfold perform. by rewrite Hworks. Qed.

Lemma orAbort_works e g : orAbort (perform e) g = (Ok tt, after g [e]).
Proof. unfold orAbort. by rewrite perform_works. Qed.

Lemma each_works {A} (k : A -> R unit) (l : A -> list effect) xs g :
  (forall x g', x ∈ xs -> (exists l, g' = after g l) -> k x g' = (Ok tt, after g' (l x))) ->
  each k xs g = (Ok tt, after g (concat (l <$> xs))).
Proof.
  revert g. induction xs as [|x xs IH]; intros g Hk; cbn [each]; [by rewrite after_nil|].
  rewrite (bind_Ok _ _ _ _ _ (Hk x g ltac:(left) ltac:(exists []; by rewrite after_nil))). rewrite IH.
  - by rewrite after_after.
  - intros y g' Hy (l' & ->). apply Hk; [by right|]. rewrite after_after. eauto.
Qed.

Lemma persist_works fs g :
  archiveMode = true -> fs <> [] ->
  persistCanonicalFrames fs g = (Ok tt, after g (NewTransaction :: concat (applied <$> fs) ++ [Commit])).
Proof.
  intros Harch Hne. unfold persistCanonicalFrames. rewrite bool_decide_false by done.
  rewrite (bind_Ok _ _ _ _ _ (perform_works _ _)).
  erewrite bind_Ok.
  2:{ apply (each_works _ applied). intros f g' _ _. rewrite (bind_Ok _ _ _ _ _ (orAbort_works _ _)), orAbort_works, after_after. done. }
  rewrite (bind_Ok _ _ _ _ _ (perform_works _ _)), !after_after. rewrite gets_bind. rewrite Harch.
  by destruct (head _).
Qed.

(** The frames of a list of nodes. *)
Definition framesAt g (ps : list nat) : list frame := omap (fun p => Frame <$> heap g !! p) ps.

Lemma rewind_works ps g :
  ps <> [] -> (forall p, p ∈ ps -> is_Some (heap g !! p)) ->
  rewindFrames ps g = (Ok tt, after g (NewTransaction :: concat (undone <$> framesAt g ps) ++ [Commit])).
Proof.
  intros Hne Hps. unfold rewindFrames. rewrite bool_decide_false by done. unfold ignore.
  rewrite (bind_Ok _ _ _ _ _ (perform_works _ _)). erewrite bind_Ok.
  2:{ apply (each_works _ (fun p => concat (undone <$> framesAt g [p]))). intros p g' Hp (l & ->). destruct (Hps p Hp) as (n & Hn).
      erewrite bind_Ok by (apply deref_Ok; exact Hn). unfold framesAt. cbn. rewrite Hn. cbn. unfold undone.
      destruct (_ =? _); [by rewrite after_nil|]. apply orAbort_works. }
  rewrite perform_works, !after_after. f_equal. cbn. do 3 f_equal.
  clear Hne. induction ps as [|p ps IH]; [done|]. destruct (Hps p ltac:(left)) as (n & Hn). unfold framesAt in *. cbn. rewrite Hn. cbn.
  rewrite app_nil_r, IH; [done|]. intros q Hq. apply Hps. by right.
Qed.

(** ** Reorganisation *)

Lemma lineage_le g p q : wf g -> live g p -> q ∈ lineage (heap g) p -> (q <= p)%nat.
Proof.
  intros Hw Hp. revert p Hp q. apply (lineage_ind g (fun p => forall q, q ∈ lineage (heap g) p -> (q <= p)%nat) Hw).
  - intros p n Hp Hn HP q. rewrite (lineage_eq g p n Hw Hp Hn), HP. by intros ->%list_elem_of_singleton.
  - intros p n q' qn Hp Hn HP Hlq Hqn IH q. rewrite (lineage_eq g p n Hw Hp Hn), HP. intros [->|Hq]%elem_of_cons; [done|].
    destruct (wf_parent g Hw p n q' Hp Hn HP) as (_ & _ & _ & Hlt & _). specialize (IH q Hq). lia.
Qed.

Lemma lineage_nodup g p : wf g -> live g p -> NoDup (lineage (heap g) p).
Proof.
  intros Hw Hp. revert p Hp. apply (lineage_ind g (fun p => NoDup (lineage (heap g) p)) Hw).
  - intros p n Hp Hn HP. rewrite (lineage_eq g p n Hw Hp Hn), HP. by apply NoDup_singleton.
  - intros p n q qn Hp Hn HP Hlq Hqn IH. rewrite (lineage_eq g p n Hw Hp Hn), HP. constructor; [|done].
    intros Hin. apply (lineage_le g q p Hw Hlq) in Hin. destruct (wf_parent g Hw p n q Hp Hn HP) as (_ & _ & _ & Hlt & _). lia.
Qed.

Lemma upTo_split p l l' : p ∉ l -> upTo p (l ++ p :: l') = l ++ [p].
Proof.
  induction l as [|x l IH]; intros Hp; cbn; [by rewrite bool_decide_true|]. rewrite not_elem_of_cons in Hp.
  rewrite bool_decide_false by naive_solver. rewrite IH by naive_solver. done.
Qed.

Lemma before_split p l l' : p ∉ l -> before p (l ++ p :: l') = l.
Proof.
  induction l as [|x l IH]; intros Hp; cbn; [by rewrite bool_decide_true|]. rewrite not_elem_of_cons in Hp.
  rewrite bool_decide_false by naive_solver. rewrite IH by naive_solver. done.
Qed.

(** Two branches that fork at [c]. *)
Record forked g (old new c : nat) (olds news rest : list nat) : Prop := {
  fork_old : lineage (heap g) old = olds ++ c :: rest;
  fork_new : lineage (heap g) new = news ++ c :: rest;
  fork_apart p : p ∈ news -> p ∉ olds ++ c :: rest
}.

Lemma commonAncestor_forked g old new c olds news rest :
  wf g -> live g old -> forked g old new c olds news rest ->
  findCommonAncestor (heap g) old new = (Some c, olds ++ [c]).
Proof.
  intros Hw Hl [Ho Hn Ha]. unfold findCommonAncestor. rewrite Ho, Hn.
  pose proof (lineage_nodup g old Hw Hl) as Hnd. rewrite Ho in Hnd. apply NoDup_app in Hnd as (_ & Hc & _).
  assert (list_find (fun p => p ∈ olds ++ c :: rest) (news ++ c :: rest) = Some (length news, c)) as ->.
  { apply list_find_Some. split; [by rewrite list_lookup_middle|]. split; [set_solver|].
    intros j y Hy Hj. rewrite lookup_app_l in Hy by done. apply Ha. by eapply list_elem_of_lookup_2. }
  rewrite upTo_split; [done|]. intros Hin. apply (Hc c Hin). left.
Qed.

Definition newHead (f : frame) : GlobalEvent.t := GlobalEvent.mk TimeReelEventNewHead f None.

Lemma sendEvents_works fs g :
  stopped g = false -> each (fun f => sendEvent (newHead f)) fs g = (Ok tt, set_events (events g ++ (newHead <$> fs)) g).
Proof.
  revert g. induction fs as [|f fs IH]; intros g Hs; cbn [each]; [cbn; rewrite app_nil_r; by destruct g|].
  erewrite bind_Ok.
  2:{ unfold sendEvent. rewrite gets_bind, Hs. reflexivity. }
  rewrite IH by done. cbn. by rewrite <- app_assoc.
Qed.

Lemma frames_at g ps :
  (forall p, p ∈ ps -> is_Some (heap g !! p)) ->
  mapM (fun p => n ← deref p; mret (Frame n)) ps g = (Ok (framesAt g ps), g).
Proof. intros Hps. destruct (frames_of g ps Hps) as (fs & Em & HF). rewrite Em. unfold framesAt. by rewrite (Forall2_omap _ _ _ HF). Qed.

(** The state after a reorganisation: one transaction reverts the old branch and the common
    ancestor, one applies the new branch. *)
Lemma reorganise_works g old new on nn c olds news rest :
  wf g -> stopped g = false -> archiveMode = true -> live g old -> live g new ->
  heap g !! old = Some on -> heap g !! new = Some nn -> forked g old new c olds news rest -> news <> [] ->
  reorganise old new g = (Ok tt,
    set_events (events g ++ GlobalEvent.mk TimeReelEventForkDetected (Frame nn) (Some (Frame on)) ::
                  (newHead <$> framesAt g (reverse news)))
      (after g (NewTransaction :: concat (undone <$> framesAt g (olds ++ [c])) ++
                Commit :: NewTransaction :: concat (applied <$> framesAt g (reverse news)) ++ [Commit]))).
Proof.
  intros Hw Hs Harch Hlo Hln Hon Hnn Hf Hne. pose proof Hf as [Ho Hn Ha].
  assert (forall p, p ∈ olds ++ c :: rest -> is_Some (heap g !! p)) as Hold.
  { intros p Hp. rewrite <- Ho in Hp. apply (lineage_live g old p Hw Hlo), (wf_live g p Hw) in Hp as (n & Hp & _). eauto. }
  assert (forall p, p ∈ reverse news -> is_Some (heap g !! p)) as Hnew.
  { intros p Hp. apply elem_of_reverse in Hp. assert (p ∈ lineage (heap g) new) as Hp' by (rewrite Hn; set_solver).
    apply (lineage_live g new p Hw Hln), (wf_live g p Hw) in Hp' as (n & Hp' & _). eauto. }
  assert (framesAt g (reverse news) <> []) as Hfs.
  { destruct (frames_of g (reverse news) Hnew) as (fs & _ & HF). unfold framesAt. rewrite (Forall2_omap _ _ _ HF). intros ->.
    apply Forall2_nil_inv_r in HF. apply (f_equal reverse) in HF. by rewrite reverse_involutive in HF. }
  unfold reorganise. rewrite gets_bind.
  rewrite (bind_Ok _ _ _ _ _ (deref_Ok _ _ _ Hon)), (bind_Ok _ _ _ _ _ (deref_Ok _ _ _ Hnn)).
  erewrite bind_Ok.
  2:{ unfold sendEvent. rewrite gets_bind, Hs. reflexivity. }
  rewrite (commonAncestor_forked g old new c olds news rest Hw Hlo Hf).
  set (g1 := set_events _ g). erewrite bind_Ok.
  2:{ apply rewind_works; [by destruct olds|]. intros p Hp. apply Hold. set_solver. }
  set (g2 := after g1 _). unfold emitReplayEvents. rewrite gets_bind. change (heap g2) with (heap g). rewrite Hn.
  rewrite before_split by (intros Hc; apply (Ha c Hc); set_solver). cbn zeta.
  erewrite bind_Ok by (apply frames_at; exact Hnew). change (framesAt g2 (reverse news)) with (framesAt g (reverse news)).
  erewrite bind_Ok by (unfold ignore; by rewrite persist_works). rewrite sendEvents_works by done.
  unfold g2. rewrite after_after. f_equal. unfold g1, after, set_events, set_effects. cbn. f_equal.
  - by rewrite <- app_assoc.
  - rewrite <- !app_assoc. done.
Qed.

(** ** Frames in order *)

(** A reel that holds the frames [fs], of which [f] is the last, without forks. *)
Record straight g (fs : list frame) (f : frame) : Prop := {
  st_pending : pendingFrames g = ∅;
  st_head : exists h n, head g = Some h /\ live g h /\ heap g !! h = Some n /\ Frame n = f;
  st_tip p n : live g p -> heap g !! p = Some n -> Children n = ∅ -> head g = Some p;
  st_frames p n : live g p -> heap g !! p = Some n -> Frame n ∈ fs
}.

Definition inOrder g (fs : list frame) (f : frame) : Prop := ok (length fs) g /\ straight g fs f.

Lemma straight_pruned g g' fs f : pruning g g' -> straight g fs f -> straight g' fs f.
Proof.
  intros Hp [Hpend (h & hn & Hh & Hlh & Hhn & Hf) Htip Hfs].
  pose proof (prn_rest _ _ Hp) as Hrest. unfold rest in Hrest. injection Hrest as E1 E2 _ _ _ _ _ _.
  assert (forall p n, live g' p -> heap g' !! p = Some n ->
            exists n0, live g p /\ heap g !! p = Some n0 /\ Frame n = Frame n0 /\ Children n = Children n0) as Hold.
  { intros p n Hlp Hn. destruct (prn_live _ _ Hp p Hlp) as (Hl & _ & n0 & n' & Hn0 & Hn' & HF & HCh). exists n0.
    assert (n' = n) as -> by congruence. done. }
  assert (live g' h) as Hlh' by (pose proof (ready_head _ (prn_ready _ _ Hp)) as Hx; by rewrite E1, Hh in Hx).
  split; [by rewrite E2|exists h|intros p n Hlp Hn Hc|intros p n Hlp Hn].
  - destruct (wf_live g' h (ready_wf _ (prn_ready _ _ Hp)) Hlh') as (n & Hn & _). exists n. rewrite E1. repeat split; try done.
    destruct (Hold h n Hlh' Hn) as (n0 & _ & Hn0 & -> & _). congruence.
  - destruct (Hold p n Hlp Hn) as (n0 & Hl & Hn0 & _ & HCh). rewrite E1. apply (Htip p n0); [done..|congruence].
  - destruct (Hold p n Hlp Hn) as (n0 & Hl & Hn0 & -> & _). by apply (Hfs p).
Qed.

Lemma inOrder_head g fs f : inOrder g fs f -> (GetHead g).1 = Ok f.
Proof.
  intros [_ [_ (h & n & Hh & _ & Hn & <-) _ _]]. unfold GetHead. rewrite gets_bind, Hh.
  by rewrite (bind_Ok _ _ _ _ _ (deref_Ok h n g Hn)).
Qed.

(** The next frame: its parent is [f], and its ID, number and the selector of its parent
    are not those of another frame. *)
Record follows (fs : list frame) (f f' : frame) : Prop := {
  fo_parent : ParentSelector f' = selectorOf f;
  fo_genesis : FrameNumber f' <> genesisFrameNumber;
  fo_fresh x : x ∈ fs -> ComputeFrameID x <> ComputeFrameID f' /\ FrameNumber x <> FrameNumber f';
  fo_selector x : x ∈ fs -> selectorOf x = selectorOf f -> x = f
}.

Lemma short_list {A} (l : list A) (a : A) : NoDup l -> (forall x, x ∈ l -> x = a) -> (length l <= 1)%nat.
Proof.
  intros Hnd Hall. destruct l as [|x [|y l]]; cbn; [lia..|]. apply NoDup_cons in Hnd as [Hx _].
  assert (x = y) as -> by (rewrite (Hall x), (Hall y) by set_solver; done). set_solver.
Qed.

(** The tip is extended: the new node becomes the head and its frame is applied. *)
Lemma evaluate_tip g h hn p pn :
  ready g -> archiveMode = true -> live g p -> heap g !! p = Some pn -> Parent pn = Some h ->
  head g = Some h -> heap g !! h = Some hn ->
  (forall q n, live g q -> heap g !! q = Some n -> Children n = ∅ -> q = p) ->
  evaluateForkChoice p g = (Ok tt,
    set_choices (S (choices g)) (set_events (events g ++ [GlobalEvent.mk TimeReelEventNewHead (Frame pn) (Some (Frame hn))])
      (set_head (Some p) (after g (NewTransaction :: applied (Frame pn) ++ [Commit]))))).
Proof.
  intros Hr Harch Hlp Hpn HP Hh Hhn Htip. pose proof Hr as [Hw Hs _ _ _ _]. unfold evaluateForkChoice.
  rewrite gets_bind, Hh.
  destruct (findLeafNodes_spec g Hw) as (leaves & El & Hnd & Hleaves). rewrite (bind_Ok _ _ _ _ _ El). set (g0 := set_choices _ g).
  assert (length leaves <= 1)%nat as Hlen.
  { apply (short_list leaves p Hnd). intros x [Hx (n & Hn & Hc)]%Hleaves. by apply (Htip x n). }
  rewrite (proj2 (Nat.leb_le _ _) Hlen).
  rewrite (bind_Ok _ _ _ _ _ (deref_Ok p pn g0 Hpn)), (bind_Ok _ _ _ _ _ (deref_Ok h hn g0 Hhn)).
  destruct (wf_parent g Hw p pn h Hlp Hpn HP) as (hn' & Hlh & Hhn' & _ & _ & HD & _). assert (hn' = hn) as -> by congruence.
  rewrite (proj2 (Z.ltb_lt _ _)) by lia. rewrite modify_bind.
  set (g1 := set_head (Some p) g0). erewrite bind_Ok by (unfold ignore; by rewrite (persist_works [Frame pn] g1 Harch)).
  set (g2 := after g1 _). unfold sendHeadEvent. rewrite gets_bind. change (heap g2) with (heap g).
  rewrite (bind_Ok _ _ _ _ _ (deref_Ok p pn g2 Hpn)), (bind_Ok _ _ _ _ _ (deref_Ok h hn g2 Hhn)).
  unfold isAncestorNode. rewrite bool_decide_true.
  2:{ rewrite (lineage_eq g p pn Hw Hlp Hpn), HP, (lineage_eq g h hn Hw Hlh Hhn). set_solver. }
  unfold sendEvent. rewrite gets_bind. change (stopped g2) with (stopped g). by rewrite Hs.
Qed.

Lemma no_pending_process g p n :
  heap g !! p = Some n -> pendingFrames g = ∅ -> processPending p g = (Ok tt, g).
Proof.
  intros Hn Hp. unfold processPending. rewrite gets_bind. cbn [processPendingFrames].
  rewrite (bind_Ok _ _ _ _ _ (deref_Ok p n g Hn)). rewrite gets_bind, Hp, lookup_empty. done.
Qed.

Lemma follows_unknown g fs f f' : inOrder g fs f -> follows fs f f' -> nodes g !! ComputeFrameID f' = None.
Proof.
  intros [Hok [_ _ _ Hfs]] [_ _ Hfresh _]. destruct (nodes g !! ComputeFrameID f') as [x|] eqn:Ex; [|done].
  destruct (wf_node g (ready_wf _ (ok_ready _ _ Hok)) _ _ Ex) as (xn & Hxn & Eid).
  destruct (Hfresh (Frame xn)) as [Hne _]; [apply (Hfs x xn); [by exists (ComputeFrameID f')|done]|]. congruence.
Qed.

(** Insert up to the fork choice, for a frame whose parent is the tip. *)
Lemma insert_tip_eq now g fs f f' h hn :
  inOrder g fs f -> archiveMode = true -> follows fs f f' -> Z.of_nat (S (length fs)) < 2 ^ 64 ->
  head g = Some h -> heap g !! h = Some hn ->
  Insert now f' g =
  (_ ← evaluateForkChoice (next g); _ ← pruneOldFrames; pruneOldPendingFrames now)
    (linkState (set_choices (S (choices g)) g) f' (ComputeFrameID f') h hn).
Proof.
  intros Hio Harch Hfo Hb Hh Hhn. pose proof (follows_unknown g fs f f' Hio Hfo) as Hid.
  destruct Hio as [Hok [Hpend (h' & hn' & Hh' & _ & Hhn' & Hf) Htip Hfs]]. destruct Hfo as [Hsel Hgen Hfresh Hsels].
  assert (h' = h) as -> by congruence. assert (hn' = hn) as -> by congruence. pose proof (ok_ready _ _ Hok) as Hr.
  pose proof (ready_wf _ Hr) as Hw. assert (live g h) as Hlh by (pose proof (ready_head _ Hr) as Hx; by rewrite Hh in Hx).
  assert (default [] (framesByNumber g !! FrameNumber f') = []) as Hnum.
  { destruct (default [] (framesByNumber g !! FrameNumber f')) as [|x l] eqn:Ex; [done|].
    assert (x ∈ default [] (framesByNumber g !! FrameNumber f')) as Hx by (rewrite Ex; left).
    apply (wf_number g Hw) in Hx as (Hlx & xn & Hxn & Enum). destruct (Hfresh (Frame xn)) as [_ Hne]; [by apply (Hfs x)|]. done. }
  unfold Insert. rewrite gets_bind, Hid.
  rewrite gets_bind, Hnum.
  rewrite (bind_Ok (each _ []) _ g tt g eq_refl). rewrite (proj2 (Z.eqb_neq _ _) Hgen).
  rewrite gets_bind, Harch. cbn [negb andb].
  destruct (findNode_spec g (ParentSelector f') Hw) as (r & Ef & Hfound). rewrite (bind_Ok _ _ _ _ _ Ef). set (g1 := set_choices _ g).
  destruct r as [parent|]; [|destruct (Hfound h hn Hlh Hhn); congruence].
  destruct Hfound as (Hlp & pn & Hpn & Hselp).
  assert (parent = h) as ->.
  { assert (Frame pn = f) as Epf by (apply Hsels; [by apply (Hfs parent)|congruence]).
    destruct (wf_live g parent Hw Hlp) as (x & Hx & Hidx), (wf_live g h Hw Hlh) as (y & Hy & Hidy).
    assert (x = pn) as -> by congruence. assert (y = hn) as -> by congruence. congruence. }
  assert (pn = hn) as -> by congruence.
  rewrite (bind_Ok _ _ _ _ _ (deref_Ok h hn g1 Hhn)). rewrite bool_decide_true by done.
  assert (wf g1) as Hw1 by (eapply wf_same; [|exact Hw]; done).
  destruct (ok_room _ _ Hok) as [Hroom _].
  erewrite bind_Ok by (apply (link_eq g1 Hw1); [cbn; lia|exact Hlh|exact Hhn]).
  erewrite bind_Ok; [reflexivity|]. apply (no_pending_process _ _ (mk f' (Some h) ∅ (Depth hn + 1))); [|exact Hpend].
  pose proof (live_lt g h Hw Hlh). cbn. rewrite lookup_insert_ne by lia. by rewrite lookup_insert_eq.
Qed.

Definition appliedTx (f : frame) : list effect := NewTransaction :: applied f ++ [Commit].

(** The tip extended by a node, whatever is recorded as the head's effects and events. *)
Lemma straight_linked g fs f f' h hn :
  inOrder g fs f -> follows fs f f' -> head g = Some h -> heap g !! h = Some hn ->
  let g' := linkState g f' (ComputeFrameID f') h hn in
  heap g' !! next g = Some (mk f' (Some h) ∅ (Depth hn + 1)) /\
  (exists n, heap g' !! h = Some n /\ Frame n = f) /\
  straight (set_head (Some (next g)) g') (fs ++ [f']) f'.
Proof.
  intros Hio Hfo Hh Hhn g'. pose proof (follows_unknown g fs f f' Hio Hfo) as Hid.
  destruct Hio as [Hok [Hpend (h' & hn' & Hh' & Hlh & Hhn' & Hf) Htip Hfs]].
  assert (h' = h) as -> by congruence. assert (hn' = hn) as -> by congruence. pose proof (ready_wf _ (ok_ready _ _ Hok)) as Hw.
  pose proof (live_lt g h Hw Hlh) as Hlt. pose proof (link_live g f' h hn Hid) as Hlive. fold g' in Hlive.
  assert (heap g' !! next g = Some (mk f' (Some h) ∅ (Depth hn + 1))) as Hnn.
  { cbn. rewrite lookup_insert_ne by lia. by rewrite lookup_insert_eq. }
  split; [done|]. destruct (ext_heap _ _ (link_extends g Hw f' h hn Hlh Hhn Hid) h hn Hhn) as (hn2 & Hhn2 & HF2 & _).
  split; [exists hn2; by rewrite HF2|]. split; [done| |intros p n Hl Hn Hc|intros p n Hl Hn].
  - exists (next g). eexists. split; [done|]. split; [by apply Hlive; left|]. done.
  - cbn. apply Hlive in Hl as [->|Hl]; [done|]. exfalso.
    destruct (link_old g Hw f' h hn Hhn p n Hl Hn) as (n0 & Hn0 & _ & _ & _ & HCh). rewrite HCh in Hc. case_decide.
    + by apply insert_non_empty in Hc.
    + specialize (Htip p n0 Hl Hn0 Hc). congruence.
  - apply elem_of_app. apply Hlive in Hl as [->|Hl].
    + right. cbn in Hn. cbn in Hnn. rewrite Hnn in Hn. injection Hn as <-. by apply list_elem_of_singleton.
    + left. destruct (link_old g Hw f' h hn Hhn p n Hl Hn) as (n0 & Hn0 & -> & _). by apply (Hfs p).
Qed.

Lemma insert_tip now g fs f f' :
  inOrder g fs f -> archiveMode = true -> follows fs f f' -> Z.of_nat (S (length fs)) < 2 ^ 64 ->
  exists g', Insert now f' g = (Ok tt, g') /\ inOrder g' (fs ++ [f']) f' /\ effects g' = effects g ++ appliedTx f' /\
    events g' = events g ++ [GlobalEvent.mk TimeReelEventNewHead f' (Some f)].
Proof.
  intros Hio Harch Hfo Hb. pose proof (follows_unknown g fs f f' Hio Hfo) as Hid.
  pose proof Hio as [Hok [Hpend (h & hn & Hh & Hlh & Hhn & Hf) _ _]]. pose proof Hfo as [Hsel Hgen _ _].
  pose proof (insert_tip_eq now g fs f f' h hn Hio Harch Hfo Hb Hh Hhn) as Heq. destruct (ok_room _ _ Hok) as [Hroom _].
  assert (inOrder (set_choices (S (choices g)) g) fs f) as Hio1.
  { destruct Hio as [_ Hst]. split; [by eapply ok_quiet; [|exact Hok]; done|by destruct Hst; split]. }
  set (g1 := set_choices (S (choices g)) g) in *. pose proof (ok_ready _ _ (proj1 Hio1)) as Hr1.
  destruct (straight_linked g1 fs f f' h hn Hio1 Hfo Hh Hhn) as (Hnn & (hn2 & Hhn2 & HF2) & Hst).
  destruct (link_ready g1 f' h hn Hr1 ltac:(cbn; lia) Hlh Hhn ltac:(congruence) Hgen Hid) as (_ & Hr2 & _ & Hl2 & _).
  set (g2 := linkState g1 f' (ComputeFrameID f') h hn) in *. change (next g1) with (next g) in *.
  assert (forall q n, live g2 q -> heap g2 !! q = Some n -> Children n = ∅ -> q = next g) as Htip2.
  { intros q n Hq Hn Hc. pose proof (st_tip _ _ _ Hst q n Hq Hn Hc) as Hx. cbn in Hx. congruence. }
  pose proof (evaluate_tip g2 h hn2 (next g) _ Hr2 Harch Hl2 Hnn eq_refl Hh Hhn2 Htip2) as Hev.
  destruct (succeeds_det _ _ _ _ _ Hev (evaluate_ready g2 (next g) Hr2 Hl2)) as (Hr3 & Hsame3 & _).
  set (g3 := set_choices (S (choices g2)) _) in *. rewrite (bind_Ok _ _ _ _ _ Hev) in Heq.
  destruct (prune_spec g3 Hr3 ltac:(cbn; lia)) as ([] & g4 & Ep & Hp). rewrite (bind_Ok _ _ _ _ _ Ep) in Heq.
  destruct (Insert_linked (length fs) now g f' h hn Hok Hb ltac:(by left) Hid Hgen Hlh Hhn ltac:(congruence)) as ([] & g' & Ei & Hok' & _).
  exists g'. split; [done|]. rewrite Heq in Ei. injection Ei as Eg'.
  assert (straight g3 (fs ++ [f']) f') as Hst3 by (destruct Hst; by split).
  pose proof (straight_pruned _ _ _ _ Hp Hst3) as [Hp4 ? ? ?].
  pose proof (prn_rest _ _ Hp) as Hrest. unfold rest in Hrest. injection Hrest as _ _ _ _ _ _ E7 E8.
  subst g'. cbn [effects events set_pendingFrames]. rewrite E7, E8. cbn [g3 set_choices set_events events effects after set_effects set_head]. rewrite HF2.
  split; [|done]. split; [rewrite length_app, Nat.add_comm; exact Hok'|]. split; try done. cbn. rewrite Hp4. apply omap_empty.
Qed.

(** The genesis frame of an empty reel. *)
Lemma insert_genesis now c f :
  emptyCache c -> archiveMode = true -> FrameNumber f = genesisFrameNumber ->
  exists g, Insert now f (NewGlobalTimeReel c) = (Ok tt, g) /\ inOrder g [f] f /\ effects g = appliedTx f /\
    events g = [newHead f].
Proof.
  intros Hc Harch Hgen. pose proof (Insert_ok 0 now _ f (new_ok c Hc) ltac:(done)) as Hret.
  assert (Insert now f (NewGlobalTimeReel c) = (Ok tt, set_events [newHead f] (after (rootState (NewGlobalTimeReel c) f) (appliedTx f)))) as Heq.
  { unfold Insert. rewrite gets_bind. cbn [nodes NewGlobalTimeReel]. rewrite lookup_empty, gets_bind.
    cbn [framesByNumber NewGlobalTimeReel]. rewrite lookup_empty. cbn [default]. rewrite (bind_Ok (each _ []) _ _ tt _ eq_refl), Hgen, Z.eqb_refl.
    unfold insertGenesisFrame. rewrite gets_bind. cbn [root NewGlobalTimeReel]. erewrite bind_Ok by reflexivity. rewrite genesis_steps.
    rewrite (bind_Ok _ _ _ _ _ (persist_works [f] _ Harch ltac:(done))).
    erewrite bind_Ok by (unfold sendEvent; rewrite gets_bind; reflexivity).
    erewrite bind_Ok by (eapply no_pending_process; [cbn; by rewrite lookup_insert_eq|done]).
    unfold pruneOldFrames. rewrite gets_bind. cbn [head set_events after set_effects rootState].
    erewrite bind_Ok by (apply deref_Ok; cbn; by rewrite lookup_insert_eq). done. }
  unfold returns in Hret. rewrite Heq in Hret |- *. eexists. split; [done|]. split; [|done]. split; [exact Hret|].
  assert (forall p, live (rootState (NewGlobalTimeReel c) f) p -> p = 0%nat) as Hlive.
  { intros p (id & Hid). cbn in Hid. by apply lookup_insert_Some in Hid as [[_ <-]|[_ Hid%lookup_empty_Some]]. }
  split; [done|exists 0%nat|intros p n ->%Hlive _ _; done|intros p n ->%Hlive Hn].
  - eexists. split; [done|]. split; [exists (ComputeFrameID f); cbn; by rewrite lookup_insert_eq|]. cbn. by rewrite lookup_insert_eq.
  - cbn in Hn. rewrite lookup_insert_eq in Hn. injection Hn as <-. by left.
Qed.

Lemma last_cons_default {A} (a b : A) l : List.last (a :: l) b = List.last l a.
Proof. revert a b. induction l as [|x l IH]; intros a b; [done|]. change (List.last (x :: l) b = List.last (x :: l) a). by rewrite !IH. Qed.

Lemma last_app_default {A} (l1 l2 : list A) a : List.last (l1 ++ l2) a = List.last l2 (List.last l1 a).
Proof. revert a. induction l1 as [|x l1 IH]; intros a; [done|]. change ((x :: l1) ++ l2) with (x :: l1 ++ l2). rewrite !last_cons_default. apply IH. Qed.

(** [fs] continue the frames [seen], of which [f] is the last. *)
Fixpoint inSequence (seen : list frame) (f : frame) (fs : list frame) : Prop :=
  match fs with
  | [] => True
  | f' :: fs => follows seen f f' /\ inSequence (seen ++ [f']) f' fs
  end.

Lemma sequence_app seen f l1 l2 :
  inSequence seen f (l1 ++ l2) <-> inSequence seen f l1 /\ inSequence (seen ++ l1) (List.last l1 f) l2.
Proof.
  revert seen f. induction l1 as [|a l1 IH]; intros seen f; [cbn; rewrite app_nil_r; tauto|].
  rewrite last_cons_default. cbn. rewrite IH, <- app_assoc. tauto.
Qed.

(** One event for each new head, with the head before it. *)
Fixpoint advances (f : frame) (fs : list frame) : list GlobalEvent.t :=
  match fs with
  | [] => []
  | f' :: fs => GlobalEvent.mk TimeReelEventNewHead f' (Some f) :: advances f' fs
  end.

Lemma insert_sequence history g seen f :
  inOrder g seen f -> archiveMode = true -> inSequence seen f history.*2 -> Z.of_nat (length seen + length history) < 2 ^ 64 ->
  let g' := (insertAll history g).2 in
  (insertAll history g).1 = replicate (length history) (Ok tt) /\
  inOrder g' (seen ++ history.*2) (List.last history.*2 f) /\
  effects g' = effects g ++ concat (appliedTx <$> history.*2) /\ events g' = events g ++ advances f history.*2.
Proof.
  revert g seen f. induction history as [|[now f'] history IH]; intros g seen f Hio Harch Hseq Hb; cbn [insertAll length fmap list_fmap snd] in *.
  - cbn. by rewrite !app_nil_r.
  - destruct Hseq as [Hfo Hseq]. destruct (insert_tip now g seen f f' Hio Harch Hfo ltac:(lia)) as (g1 & Ei & Hio1 & Eeff & Eev).
    destruct (IH g1 (seen ++ [f']) f' Hio1 Harch Hseq ltac:(rewrite length_app; cbn; lia)) as (Er & Hio2 & Eeff2 & Eev2).
    rewrite Ei. destruct (insertAll history g1) as [rs g2]. cbn [fst snd] in *. rewrite last_cons_default, Er, Eeff2, Eev2, Eeff, Eev, <- !app_assoc.
    rewrite <- app_assoc in Hio2. done.
Qed.

(** Frames whose IDs, numbers and selectors differ and of which each names the one before
    it as its parent are in sequence. *)
Definition apart (fs : list frame) : Prop :=
  NoDup (ComputeFrameID <$> fs) /\ NoDup (FrameNumber <$> fs) /\ NoDup (selectorOf <$> fs).

Lemma fmap_apart {A B} (k : A -> B) (l l' : list A) a x :
  NoDup (k <$> (l ++ a :: l')) -> x ∈ l -> k x <> k a.
Proof.
  rewrite fmap_app, fmap_cons. intros (_ & Hd & _)%NoDup_app Hx E0. apply (Hd (k x)); [by apply list_elem_of_fmap_2|]. rewrite E0. left.
Qed.

Lemma fmap_unique {A B} (k : A -> B) (l : list A) x y : NoDup (k <$> l) -> x ∈ l -> y ∈ l -> k x = k y -> x = y.
Proof.
  intros Hnd (i & Hi)%list_elem_of_lookup (j & Hj)%list_elem_of_lookup E0.
  assert (i = j) as ->; [|congruence]. eapply (NoDup_lookup _ i j (k x) Hnd); rewrite list_lookup_fmap; [by rewrite Hi|by rewrite Hj, E0].
Qed.

Lemma apart_sequence seen f fs :
  apart (seen ++ f :: fs) -> chained (f :: fs) -> (forall x, x ∈ fs -> FrameNumber x <> genesisFrameNumber) ->
  inSequence (seen ++ [f]) f fs.
Proof.
  revert seen f. induction fs as [|f' fs IH]; intros seen f Ha Hch Hgen; [done|]. cbn.
  assert (seen ++ f :: f' :: fs = (seen ++ [f]) ++ f' :: fs) as Eapp by by rewrite <- app_assoc.
  rewrite Eapp in Ha. pose proof Ha as (Hid & Hnum & Hsel). split.
  - split; [by apply (Hch 0%nat)|apply Hgen; left| |].
    + intros x Hx. split; [by eapply (fmap_apart ComputeFrameID)|by eapply (fmap_apart FrameNumber)].
    + intros x Hx. apply (fmap_unique selectorOf ((seen ++ [f]) ++ f' :: fs)); [done|set_solver..].
  - apply IH; [done| |intros x Hx; apply Hgen; by right]. intros i a b Ha' Hb'. by apply (Hch (S i)).
Qed.

Lemma genesis_sequence f fs :
  FrameNumber f = genesisFrameNumber -> apart (f :: fs) -> chained (f :: fs) -> inSequence [f] f fs.
Proof.
  intros Hgen Ha Hch. apply (apart_sequence []); [done..|]. intros x Hx Hn. destruct Ha as (_ & Hnum & _). rewrite fmap_cons in Hnum.
  apply NoDup_cons in Hnum as [Hnum _]. apply Hnum. rewrite Hgen, <- Hn. by apply list_elem_of_fmap_2.
Qed.

(** Frames that arrive in order, from the genesis frame on. *)
Lemma in_order_effects c now f history :
  emptyCache c -> archiveMode = true -> FrameNumber f = genesisFrameNumber ->
  apart (f :: history.*2) -> chained (f :: history.*2) -> Z.of_nat (S (length history)) < 2 ^ 64 ->
  let g := (insertAll ((now, f) :: history) (NewGlobalTimeReel c)).2 in
  (insertAll ((now, f) :: history) (NewGlobalTimeReel c)).1 = replicate (S (length history)) (Ok tt) /\
  inOrder g (f :: history.*2) (List.last history.*2 f) /\
  effects g = concat (appliedTx <$> (f :: history.*2)) /\ events g = newHead f :: advances f history.*2.
Proof.
  intros Hc Harch Hgen Ha Hch Hb. destruct (insert_genesis now c f Hc Harch Hgen) as (g1 & Ei & Hio & Eeff & Eev).
  destruct (insert_sequence history g1 [f] f Hio Harch (genesis_sequence f _ Hgen Ha Hch) Hb) as (Er & Hio2 & Eeff2 & Eev2).
  cbn [insertAll]. rewrite Ei. destruct (insertAll history g1) as [rs g2]. cbn [fst snd] in *. rewrite Er, Eeff2, Eev2, Eeff, Eev. done.
Qed.
End effects.
