(* ===== verification/GlobalTimeReelRestart.v ===== *)
(** * Restart of the global time reel

    bootstrapFromStore rebuilds the reel from the frames that were stored. *)

From S2P Require Import Prelude Wire Keys Frames Messages ForkChoice Stateful GlobalTimeReel GlobalTimeReelSpec.
From S2P Require Import GlobalTimeReelInsert GlobalTimeReelEffects.
Import GlobalFrameNode.

Section restart.
Context `{E : Environment} `{!EnvironmentLaws E} {C : Type} `{HC : Cache C} `{!CacheLaws C}.
Abbreviation reel := (GlobalTimeReel C).
Implicit Types (g : reel) (p : nat) (f : frame).

(** A reel whose pending frames are all gone has no frame that waits. *)
Lemma no_pending_settled g : pendingFrames g = ∅ -> settled g.
Proof. intros Hp p _ n _. by rewrite Hp, lookup_empty. Qed.

(** The first frame of the store becomes the root. *)
Lemma load_first start f c :
  emptyCache c -> exists g, loadFrame start None f (NewGlobalTimeReel c) = (Ok 0%nat, g) /\ inOrder g [f] f /\
    head g = Some 0%nat /\ effects g = [] /\ events g = [].
Proof.
  intros Hc. pose proof (new_ok c Hc) as Hok. set (g0 := set_choices 1 (NewGlobalTimeReel c)).
  assert (ok 0 g0) as Hok0 by (eapply ok_quiet; [|exact Hok]; done).
  assert (forall p, ~ live g0 p) as Hno by (intros p (id & Hid); cbn in Hid; by rewrite lookup_empty in Hid).
  destruct (findNode_spec (NewGlobalTimeReel c) (ParentSelector f) (ready_wf _ (ok_ready _ _ Hok))) as ([p|] & Ef & Hfound).
  { destruct Hfound as [Hl _]. by destruct (Hno p). }
  destruct (rootState_ok g0 f 0 Hok0) as (Hr & Hroom & _ & Hl & Ha); [by cbn; rewrite lookup_empty| |done|done|].
  { intros p n Hp. by destruct (Hno p). }
  exists (rootState g0 f). split; [|split; [|done]].
  - unfold loadFrame. erewrite bind_Ok by reflexivity. rewrite (bind_Ok _ _ _ _ _ Ef). erewrite bind_Ok by reflexivity.
    done.
  - assert (forall p, live (rootState g0 f) p -> p = 0%nat) as Hlive.
    { intros p [->|Hp%Hno]%root_live; [done..|]. cbn. by rewrite lookup_empty. }
    split; [split; [done|intros _; by apply no_pending_settled|done|done]|].
    split; [done|exists 0%nat|intros p n ->%Hlive _ _; done|intros p n ->%Hlive Hn].
    + eexists. split; [done|]. split; [exact Hl|]. cbn. by rewrite lookup_insert_eq.
    + cbn in Hn. rewrite lookup_insert_eq in Hn. injection Hn as <-. by left.
Qed.

(** Each further frame is linked below the one before and becomes the head. *)
Lemma load_tip start g fs f f' h :
  inOrder g fs f -> archiveMode = true -> follows fs f f' -> Z.of_nat (S (length fs)) < 2 ^ 64 -> head g = Some h ->
  exists g', loadFrame start (Some h) f' g = (Ok (next g), g') /\ inOrder g' (fs ++ [f']) f' /\
    head g' = Some (next g) /\ effects g' = effects g /\ events g' = events g.
Proof.
  intros Hio Harch Hfo Hb Hh. pose proof (follows_unknown g fs f f' Hio Hfo) as Hid.
  pose proof Hio as [Hok [Hpend (h' & hn & Hh' & Hlh & Hhn & Hf) Htip Hfs]]. assert (h' = h) as -> by congruence.
  pose proof Hfo as [Hsel Hgen _ _]. destruct (ok_room _ _ Hok) as [Hroom _]. destruct (ok_archive _ _ Hok Harch) as [Hanc Hdeep].
  pose proof (ok_ready _ _ Hok) as Hr. pose proof (ready_wf _ Hr) as Hw. pose proof (live_lt g h Hw Hlh) as Hlt.
  destruct (link_ready g f' h hn Hr ltac:(lia) Hlh Hhn ltac:(congruence) Hgen Hid) as (_ & Hr' & He & Hl' & _ & _ & Hanc').
  destruct (straight_linked g fs f f' h hn Hio Hfo Hh Hhn) as (Hnn & _ & Hst). set (g' := linkState g f' (ComputeFrameID f') h hn) in *.
  assert (root g <> None) as Hroot.
  { intros Er. destruct Hanc as [Hempty _]. destruct Hlh as (id & Hl). rewrite (Hempty Er) in Hl. by rewrite lookup_empty in Hl. }
  pose proof (wf_depth g Hw h hn Hlh Hhn) as Hd.
  exists (set_head (Some (next g)) g'). split; [|split; [|done]].
  - unfold loadFrame. rewrite (bind_Ok (qn ← deref h; _) _ g (Some h) g).
    2:{ rewrite (bind_Ok _ _ _ _ _ (deref_Ok h hn g Hhn)), bool_decide_true by congruence. done. }
    erewrite (bind_Ok (mret (Some h))) by reflexivity. erewrite bind_Ok.
    2:{ rewrite (bind_Ok _ _ _ _ _ (deref_Ok h hn g Hhn)). unfold u64. rewrite uwrap_small by (unfold is_u; lia). reflexivity. }
    rewrite modify_bind. cbn [root set_heap set_next]. rewrite bool_decide_false, Harch by done. done.
  - split; [|done]. rewrite length_app, Nat.add_comm. destruct Hr' as [Hw' ? ? ? ? ?]. split.
    + split; try done. by destruct Hw'; split.
    + intros _. by apply no_pending_settled.
    + split; [|done]. unfold pendingCount in *. cbn. lia.
    + intros _. split; [by apply Hanc'|]. intros x q [= <-] Hq. change (depthOf g' q <= depthOf g' (next g)).
      assert (depthOf g' (next g) = Depth hn + 1) as -> by (unfold depthOf; by rewrite Hnn).
      apply (link_live g f' h hn Hid) in Hq as [->|Hq]; [unfold depthOf; by rewrite Hnn|].
      rewrite (ext_depth g g' q Hw He Hq). specialize (Hdeep h q Hh Hq). assert (depthOf g h = Depth hn) by (unfold depthOf; by rewrite Hhn). lia.
Qed.

Lemma load_sequence start fs g seen f h :
  inOrder g seen f -> archiveMode = true -> inSequence seen f fs -> Z.of_nat (length seen + length fs) < 2 ^ 64 -> head g = Some h ->
  exists g', loadFrames start (Some h) (Ok <$> fs) g = (Ok tt, g') /\ inOrder g' (seen ++ fs) (List.last fs f) /\
    effects g' = effects g /\ events g' = events g.
Proof.
  revert g seen f h. induction fs as [|f' fs IH]; intros g seen f h Hio Harch Hseq Hb Hh.
  - exists g. by rewrite app_nil_r.
  - destruct Hseq as [Hfo Hseq]. cbn [length] in Hb.
    destruct (load_tip start g seen f f' h Hio Harch Hfo ltac:(lia) Hh) as (g1 & El & Hio1 & Hh1 & Eeff & Eev).
    destruct (IH g1 (seen ++ [f']) f' (next g) Hio1 Harch Hseq ltac:(rewrite length_app; cbn; lia) Hh1) as (g2 & El2 & Hio2 & Eeff2 & Eev2).
    exists g2. rewrite last_cons_default, Eeff2, Eev2, Eeff, Eev. rewrite <- app_assoc in Hio2. split; [|done].
    rewrite fmap_cons. cbn [loadFrames]. erewrite bind_Ok by reflexivity. by rewrite (bind_Ok _ _ _ _ _ El).
Qed.

(** The frames written to the store, and the answer of RangeGlobalClockFrames on them. *)
Definition stored (l : list effect) : list frame :=
  omap (fun e => match e with PutGlobalClockFrame f => Some f | _ => None end) l.

Definition rangeOf (fs : list frame) (min max : Z) : result (list (result frame)) :=
  Ok (Ok <$> filter (fun f => min <= FrameNumber f <= max) fs).

Lemma stored_applied fs : stored (concat (appliedTx <$> fs)) = fs.
Proof. induction fs as [|f fs IH]; [done|]. cbn. unfold stored in *. by rewrite IH. Qed.

Lemma rangeOf_all fs min max :
  (forall f, f ∈ fs -> min <= FrameNumber f <= max) -> rangeOf fs min max = Ok (Ok <$> fs).
Proof.
  intros Hall. unfold rangeOf. do 2 f_equal. induction fs as [|f fs IH]; [done|].
  rewrite filter_cons_True by (apply Hall; left). f_equal. apply IH. intros x Hx. apply Hall. by right.
Qed.

Lemma bootstrap_works c f fs :
  emptyCache c -> archiveMode = true -> FrameNumber f = genesisFrameNumber -> inSequence [f] f fs ->
  Z.of_nat (S (length fs)) < 2 ^ 64 ->
  (forall x, x ∈ f :: fs -> FrameNumber f <= FrameNumber x <= FrameNumber (List.last fs f)) ->
  exists g, bootstrapFromStore (Some (Ok (List.last fs f))) (rangeOf (f :: fs)) (NewGlobalTimeReel c) = (Ok tt, g) /\
    inOrder g (f :: fs) (List.last fs f) /\ effects g = [] /\ events g = [].
Proof.
  intros Hc Harch Hgen Hseq Hb Hnum. destruct (load_first genesisFrameNumber f c Hc) as (g1 & El & Hio & Hh & Eeff & Eev).
  destruct (load_sequence genesisFrameNumber fs g1 [f] f 0%nat Hio Harch Hseq ltac:(cbn; lia) Hh) as (g2 & El2 & Hio2 & Eeff2 & Eev2).
  exists g2. rewrite Eeff2, Eev2. split; [|done]. unfold bootstrapFromStore. erewrite bind_Ok by reflexivity. rewrite Harch. cbn [negb andb].
  rewrite rangeOf_all by by rewrite <- Hgen. erewrite bind_Ok by reflexivity. cbn [loadFrames fmap list_fmap].
  erewrite bind_Ok by reflexivity. by rewrite (bind_Ok _ _ _ _ _ El).
Qed.
End restart.
