(* ===== verification/GlobalTimeReelClaims.v ===== *)
(** * Properties of the global time reel

    What holds of a reel after any history of insertions, of frames that arrive in order,
    of restarts and of reorganisations, with runs on a concrete environment. *)

From Stdlib Require Import Sorting.Sorted.
From S2P Require Import Prelude Wire Keys Frames Messages ForkChoice Stateful GlobalTimeReel GlobalTimeReelSpec.
From S2P Require Import GlobalTimeReelInsert GlobalTimeReelEffects GlobalTimeReelRestart.
Import GlobalFrameNode.

(** ** A concrete environment *)

Module Demo.

(** A hash without collisions on the data below, in place of Poseidon. *)
Definition hash (b : bytes) : Z := foldl (fun a x => (a * 31 + byte_Z x + 1) mod 65521) 0 b.

#[export] Instance environment : Environment := {
  poseidon := hash;
  archiveMode := true;
  genesisFrameNumber := 0;
  visit _ m := map_to_list m;
  coin _ := false;
  fails _ _ := None
}.

#[export] Instance environment_laws : EnvironmentLaws environment.
Proof. by split. Qed.

(** A cache that never evicts. *)
#[export] Instance cache_ops : Cache (gmap bytes nat) := {
  cacheAdd k p c := <[k := p]> c;
  cacheGet k c := (c !! k, c);
  cacheRemove k c := delete k c
}.

#[export] Instance cache_laws : CacheLaws (gmap bytes nat).
Proof.
  split; cbn.
  - intros k k' v w c [[-> ->]|[Hne Hk]]%lookup_insert_Some; [by left|by right].
  - intros k k' w c [Hne Hk]%lookup_delete_Some. done.
  - done.
Qed.

Lemma cache_empty : emptyCache (∅ : gmap bytes nat).
Proof. intros id. cbn. apply lookup_empty. Qed.

Definition new : GlobalTimeReel (gmap bytes nat) := NewGlobalTimeReel ∅.

(** Frame [n] with output [o] below the frame with output [parent]. *)
Definition frameOf (n : Z) (o parent : byte) (signers : bytes) : frame :=
  mkGlobalFrame (GlobalFrameHeader.mk n n 1 [o] (be 32 (hash [parent])) [] []
    (Some (BLS48581AggregateSignature.mk [] None signers))) [].

(** A genesis frame with a chain below it, and a longer branch from frame 1 on. *)
Definition f0 : frame := frameOf 0 Byte.x00 Byte.x00 [].
Definition f1 : frame := frameOf 1 Byte.x01 Byte.x00 [].
Definition f2 : frame := frameOf 2 Byte.x02 Byte.x01 [].
Definition f2' : frame := frameOf 2 Byte.x12 Byte.x01 [].
Definition f3' : frame := frameOf 3 Byte.x13 Byte.x12 [].

(** Insertions at time 0. *)
Definition at0 (fs : list frame) : list (Z * frame) := (fun f => (0, f)) <$> fs.

Definition run (fs : list frame) : list (result unit) * GlobalTimeReel (gmap bytes nat) := insertAll (at0 fs) new.

(** The numbers that were materialised (true) and reverted (false). *)
Definition changes (l : list effect) : list (Z * bool) :=
  omap (fun e => match e with Materialize n _ => Some (n, true) | Revert n _ => Some (n, false) | _ => None end) l.
End Demo.

Section claims.
Context `{E : Environment} `{!EnvironmentLaws E} {C : Type} `{HC : Cache C} `{!CacheLaws C}.
Implicit Types (c : C) (history : list (Z * frame)).

(** C13: whatever frames are inserted, in whatever order and with whatever failures of the
    store, Insert returns, and every frame the reel knows has a lineage in which each frame
    names the one before it as its parent and which ends with the frame asked for.  Frames
    that are not known are reported as not found. *)
Theorem reel_lineage_linked c history :
  emptyCache c -> Z.of_nat (length history) < 2 ^ 64 ->
  let g := (insertAll history (NewGlobalTimeReel c)).2 in
  Forall returned (insertAll history (NewGlobalTimeReel c)).1 /\
  forall id, match nodes g !! id with
             | Some _ => exists fs f, (GetNodeLineage id g).1 = Ok fs /\ chained fs /\ last fs = Some f /\
                           ComputeFrameID f = id /\ exists f', (GetFrame id g).1 = Ok f' /\ ComputeFrameID f' = id
             | None => (GetNodeLineage id g).1 = Err "frame not found" /\ (GetFrame id g).1 = Err "frame not found"
             end.
Proof.
  intros Hc Hb g. destruct (insertAll_ok history 0 _ (new_ok c Hc) Hb) as [Hret Hok]. split; [done|]. fold g in Hok.
  pose proof (ready_wf _ (ok_ready _ _ Hok)) as Hw. intros id. pose proof (GetFrame_spec g id Hw) as Hget. unfold GetNodeLineage. rewrite gets_bind.
  destruct (nodes g !! id) as [p|] eqn:Hp.
  - destruct Hget as (f' & g' & Eg & Eid & _). destruct (lineage_chained g p Hw ltac:(by exists id)) as (fs & f & El & Hch & Hlast & Hf).
    exists fs, f. rewrite El, Eg. repeat split; try done; [|by exists f'].
    destruct (wf_node g Hw _ _ Hp) as (n & Hn & ->), (wf_node g Hw _ _ Hf) as (n' & Hn' & ->). congruence.
  - destruct Hget as (g' & Eg & _). by rewrite Eg.
Qed.

(** C14: in archive mode no frame of the reel is deeper than the head, after any history;
    and when a frame below a known one arrives, the head is then a deepest frame than whose
    branch none of the same depth scores better by more than the tie margin. *)
Theorem reel_head_best c history now f :
  emptyCache c -> archiveMode = true -> Z.of_nat (S (length history)) < 2 ^ 64 ->
  let g := (insertAll history (NewGlobalTimeReel c)).2 in
  deepest g /\
  (nodes g !! ComputeFrameID f = None -> FrameNumber f <> genesisFrameNumber ->
   forall p n, live g p -> heap g !! p = Some n -> selectorOf (Frame n) = ParentSelector f ->
   exists g', Insert now f g = (Ok tt, g') /\ top g').
Proof.
  intros Hc Harch Hb g. destruct (insertAll_ok history 0 _ (new_ok c Hc) ltac:(cbn; lia)) as [_ Hok]. fold g in Hok.
  destruct (ok_archive _ _ Hok Harch) as [_ Hd]. split; [done|]. intros Hid Hgen p n Hl Hn Hsel.
  destruct (Insert_linked _ now g f p n Hok Hb ltac:(by left) Hid Hgen Hl Hn Hsel) as ([] & g' & Ei & _ & Htop).
  exists g'. split; [done|by apply Htop].
Qed.

(** C17: while the store does not fail, no frame waits for a parent the reel has, after any
    history. *)
Theorem reel_nothing_waits c history :
  emptyCache c -> storeWorks -> Z.of_nat (length history) < 2 ^ 64 ->
  let g := (insertAll history (NewGlobalTimeReel c)).2 in
  forall sel l p n, pendingFrames g !! sel = Some l -> live g p -> heap g !! p = Some n ->
  selectorOf (Frame n) <> sel /\ forall x, x ∈ l -> ParentSelector (GlobalPendingFrame.Frame x) = sel.
Proof.
  intros Hc Hworks Hb g sel l p n Hsel Hl Hn. destruct (insertAll_ok history 0 _ (new_ok c Hc) Hb) as [_ Hok]. fold g in Hok. split.
  - intros <-. pose proof (ok_settled _ _ Hok Hworks p Hl n Hn) as Hnone. congruence.
  - destruct (ready_pending _ (ok_ready _ _ Hok) sel l Hsel) as [_ HF]. rewrite Forall_forall in HF. intros x Hx. by apply (HF x Hx).
Qed.

(** C16: in archive mode, with a store that does not fail, frames that arrive in order are
    each materialised and stored, in that order and in a transaction of its own, each is
    announced as the new head, and the last one is the head.  The frames start with the
    genesis frame, each names the one before it as its parent, and their IDs, numbers and
    selectors differ. *)
Theorem reel_in_order c now f history :
  storeWorks -> emptyCache c -> archiveMode = true -> FrameNumber f = genesisFrameNumber ->
  apart (f :: history.*2) -> chained (f :: history.*2) -> Z.of_nat (S (length history)) < 2 ^ 64 ->
  exists g, insertAll ((now, f) :: history) (NewGlobalTimeReel c) = (replicate (S (length history)) (Ok tt), g) /\
    (GetHead g).1 = Ok (List.last history.*2 f) /\
    effects g = concat (appliedTx <$> (f :: history.*2)) /\ events g = newHead f :: advances f history.*2.
Proof.
  intros Hworks Hc Harch Hgen Ha Hch Hb.
  destruct (in_order_effects Hworks c now f history Hc Harch Hgen Ha Hch Hb) as (Er & Hio & Eeff & Eev).
  exists (insertAll ((now, f) :: history) (NewGlobalTimeReel c)).2. rewrite <- Er, <- surjective_pairing. repeat split; try done.
  by eapply inOrder_head.
Qed.

Lemma last_default {A} (a : A) l : last (a :: l) = Some (List.last l a).
Proof.
  revert a. induction l as [|b l IH]; intros a; [done|]. rewrite last_cons_default, <- IH. done.
Qed.

Lemma sorted_bounds f fs x :
  StronglySorted Z.lt (FrameNumber <$> (f :: fs)) -> x ∈ f :: fs -> FrameNumber f <= FrameNumber x <= FrameNumber (List.last fs f).
Proof.
  revert f x. induction fs as [|f' fs IH]; intros f x Hs Hx.
  - apply list_elem_of_singleton in Hx as ->. cbn. lia.
  - rewrite fmap_cons in Hs. apply StronglySorted_inv in Hs as [Hs HF]. rewrite last_cons_default.
    assert (FrameNumber f < FrameNumber f') as Hlt by (rewrite fmap_cons in HF; by inversion HF).
    pose proof (IH f' f' Hs ltac:(left)). apply elem_of_cons in Hx as [->|Hx]; [lia|]. specialize (IH f' x Hs Hx). lia.
Qed.

(** C15: in archive mode, with a store that does not fail, a restart between frames that
    arrive in order cannot be told: a reel rebuilt from the store has the same head, and with
    the frames that follow ends with the head and has done to the store what the reel without
    restart has.  The frames start with the genesis frame, each names the one before it as its
    parent, their IDs, numbers and selectors differ, and the numbers of those before the
    restart increase. *)
Theorem reel_restart c c' now f first later :
  storeWorks -> emptyCache c -> emptyCache c' -> archiveMode = true -> FrameNumber f = genesisFrameNumber ->
  apart (f :: (first ++ later).*2) -> chained (f :: (first ++ later).*2) ->
  StronglySorted Z.lt (FrameNumber <$> (f :: first.*2)) -> Z.of_nat (S (length (first ++ later))) < 2 ^ 64 ->
  let g := (insertAll ((now, f) :: first) (NewGlobalTimeReel c)).2 in
  let whole := (insertAll ((now, f) :: first ++ later) (NewGlobalTimeReel c)).2 in
  exists g', bootstrapFromStore (Ok <$> last (stored (effects g))) (rangeOf (stored (effects g))) (NewGlobalTimeReel c') = (Ok tt, g') /\
    (GetHead g').1 = (GetHead g).1 /\
    (GetHead (insertAll later g').2).1 = (GetHead whole).1 /\
    effects g ++ effects (insertAll later g').2 = effects whole.
Proof.
  intros Hworks Hc Hc' Harch Hgen Ha Hch Hs Hb g whole. rewrite length_app in Hb.
  destruct (in_order_effects Hworks c now f (first ++ later) Hc Harch Hgen Ha Hch) as (_ & Hiow & Eeffw & _); [rewrite length_app; lia|].
  fold whole in Hiow, Eeffw. rewrite fmap_app in *.
  pose proof (genesis_sequence Hworks f _ Hgen Ha Hch) as Hseq.
  apply sequence_app in Hseq as [Hseq1 Hseq2].
  destruct (insert_genesis Hworks now c f Hc Harch Hgen) as (g0 & Ei & Hio0 & Eeff0 & _).
  destruct (insert_sequence Hworks first g0 [f] f Hio0 Harch Hseq1 ltac:(cbn; lia)) as (_ & Hio & Eeff & _).
  assert ((insertAll first g0).2 = g) as Eg by (unfold g; cbn [insertAll]; rewrite Ei; by destruct (insertAll first g0)).
  rewrite Eg, Eeff0 in *. change (appliedTx f ++ concat (appliedTx <$> first.*2)) with (concat (appliedTx <$> (f :: first.*2))) in Eeff.
  destruct (bootstrap_works c' f first.*2 Hc' Harch Hgen Hseq1) as (g' & Eb & Hio' & Eeff' & _);
    [rewrite length_fmap; lia|intros x Hx; by apply sorted_bounds|].
  destruct (insert_sequence Hworks later g' (f :: first.*2) _ Hio' Harch Hseq2) as (_ & Hio2 & Eeff2 & _);
    [cbn; rewrite length_fmap; lia|].
  exists g'. rewrite Eeff, stored_applied, last_default. split; [done|].
  rewrite (inOrder_head _ _ _ Hio'), (inOrder_head _ _ _ Hio), (inOrder_head _ _ _ Hio2), (inOrder_head _ _ _ Hiow), Eeff2, Eeff', Eeffw.
  rewrite last_app_default, app_nil_l, <- concat_app, <- fmap_app. done.
Qed.

(** C18: a change to a branch that forks at [a] reverts the frames of the old branch and
    also the frame at [a], then materialises and stores the frames of the new branch, and
    only those: [a] stays on the canonical chain but its changes are gone. *)
Theorem reorganise_reverts_ancestor c history old new a olds news rest :
  emptyCache c -> storeWorks -> archiveMode = true -> Z.of_nat (length history) < 2 ^ 64 ->
  let g := (insertAll history (NewGlobalTimeReel c)).2 in
  live g old -> live g new -> forked g old new a olds news rest -> news <> [] ->
  exists g', reorganise old new g = (Ok tt, g') /\
    effects g' = effects g ++ NewTransaction :: concat (undone <$> framesAt g (olds ++ [a])) ++
                 Commit :: NewTransaction :: concat (applied <$> framesAt g (reverse news)) ++ [Commit] /\
    (a ∉ news) /\ isAncestorNode (heap g') a new = true.
Proof.
  intros Hc Hworks Harch Hb g Hlo Hln Hf Hne. destruct (insertAll_ok history 0 _ (new_ok c Hc) Hb) as [_ Hok]. fold g in Hok.
  pose proof (ok_ready _ _ Hok) as Hr. pose proof (ready_wf _ Hr) as Hw.
  destruct (wf_live g old Hw Hlo) as (on & Hon & _), (wf_live g new Hw Hln) as (nn & Hnn & _).
  pose proof (reorganise_works Hworks g old new on nn a olds news rest Hw (ready_stopped _ Hr) Harch Hlo Hln Hon Hnn Hf Hne) as Heq.
  eexists. split; [exact Heq|]. split; [done|]. destruct Hf as [_ Hn Hap]. split; [intros Ha; apply (Hap a Ha); set_solver|].
  cbn [heap set_events after set_effects]. unfold isAncestorNode. rewrite Hn. apply bool_decide_eq_true_2. set_solver.
Qed.
End claims.

(** Frames that arrive before their parent are connected, but the frames between are
    neither materialised nor stored: after frames 0, 2 and 1 the lineage of the head is 0,
    1, 2 and only 0 and 2 were materialised and stored. *)
Theorem out_of_order_unmaterialised :
  (Demo.run [Demo.f0; Demo.f2; Demo.f1]).1 = [Ok tt; Ok tt; Ok tt] /\
  (GetLineage (Demo.run [Demo.f0; Demo.f2; Demo.f1]).2).1 = Ok [Demo.f0; Demo.f1; Demo.f2] /\
  effects (Demo.run [Demo.f0; Demo.f2; Demo.f1]).2 = appliedTx Demo.f0 ++ appliedTx Demo.f2.
Proof. split_and!; vm_compute; reflexivity. Qed.

(** The longer branch: frame 1 is reverted and not materialised again. *)
Example fork_drops_ancestor :
  Demo.changes (effects (Demo.run [Demo.f0; Demo.f1; Demo.f2; Demo.f2'; Demo.f3']).2) =
    [(0, true); (1, true); (2, true); (2, false); (1, false); (2, true); (3, true)] /\
  (GetLineage (Demo.run [Demo.f0; Demo.f1; Demo.f2; Demo.f2'; Demo.f3']).2).1 = Ok [Demo.f0; Demo.f1; Demo.f2'; Demo.f3'].
Proof. split; vm_compute; reflexivity. Qed.

(** Signers of two frames with the same number are recorded when both are inserted below
    known frames, and not when the second one waited for its parent. *)
Example waiting_equivocation_missed :
  let a := Demo.frameOf 2 Byte.x02 Byte.x01 [Byte.x03] in
  let b := Demo.frameOf 2 Byte.x12 Byte.x01 [Byte.x06] in
  equivocators (Demo.run [Demo.f0; Demo.f1; a; b]).2 = {[ 2 := {[ 1 ]} ]} /\
  equivocators (Demo.run [Demo.f0; a; b; Demo.f1]).2 = ∅.
Proof. split; vm_compute; reflexivity. Qed.

(** The seniority of a frame is proportional to the number of its signers that did
    not equivocate, up to 64 of them; a frame with 65 has less than one with a single one. *)
Theorem seniority_bounds equivocators f m :
  mask f = Some m ->
  ((counted equivocators f m <= 64)%nat ->
     computeFrameSeniority equivocators f = (2 ^ 58 - 1) * Z.of_nat (counted equivocators f m)) /\
  (counted equivocators f m = 65%nat -> computeFrameSeniority equivocators f < 2 ^ 58 - 1).
Proof.
  intros Hm. rewrite (seniority_eq _ _ _ Hm). split; [|by intros ->].
  intros Hc. apply uwrap_small. unfold is_u. lia.
Qed.

(** ** Instances *)

Import Demo.

Lemma chain_chained : chained [Demo.f0; Demo.f1; Demo.f2].
Proof.
  intros [|[|[|i]]] a b Ha Hb; cbn in Ha, Hb; [injection Ha as <-; injection Hb as <-; vm_compute; reflexivity..|done|done].
Defined.

Lemma chain_apart : apart [Demo.f0; Demo.f1; Demo.f2].
Proof. split_and!; by_decide. Defined.

Lemma reel_lineage_linked_witness :
  let g := (Demo.run [Demo.f0; Demo.f2; Demo.f1]).2 in
  exists fs f, (GetNodeLineage (ComputeFrameID Demo.f2) g).1 = Ok fs /\ chained fs /\ last fs = Some f /\
    ComputeFrameID f = ComputeFrameID Demo.f2.
Proof.
  destruct (reel_lineage_linked (E := environment) ∅ (Demo.at0 [Demo.f0; Demo.f2; Demo.f1]) Demo.cache_empty ltac:(vm_compute; reflexivity)) as [_ Hall].
  specialize (Hall (ComputeFrameID Demo.f2)).
  assert (nodes (insertAll (Demo.at0 [Demo.f0; Demo.f2; Demo.f1]) (NewGlobalTimeReel (∅ : gmap bytes nat))).2 !! ComputeFrameID Demo.f2 = Some 2%nat)
    as Hid by (vm_compute; reflexivity).
  rewrite Hid in Hall. destruct Hall as (fs & f & H1 & H2 & H3 & H4 & _). exists fs, f. exact (conj H1 (conj H2 (conj H3 H4))).
Defined.

Lemma reel_head_best_witness :
  exists g', Insert 0 Demo.f3' (Demo.run [Demo.f0; Demo.f1; Demo.f2; Demo.f2']).2 = (Ok tt, g') /\ top g'.
Proof.
  destruct (reel_head_best (E := environment) ∅ (Demo.at0 [Demo.f0; Demo.f1; Demo.f2; Demo.f2']) 0 Demo.f3' Demo.cache_empty eq_refl
              ltac:(vm_compute; reflexivity)) as [_ Hlink].
  apply (Hlink ltac:(vm_compute; reflexivity) ltac:(by vm_compute) 3%nat (mk f2' (Some 1%nat) ∅ 2));
    [exists (ComputeFrameID Demo.f2')| |]; vm_compute; reflexivity.
Defined.

Lemma reel_nothing_waits_witness :
  let g := (Demo.run [Demo.f0; Demo.f2]).2 in
  pendingFrames g !! ParentSelector Demo.f2 = Some [GlobalPendingFrame.mk Demo.f2 (ParentSelector Demo.f2) 2] /\
  selectorOf Demo.f0 <> ParentSelector Demo.f2.
Proof.
  assert (pendingFrames (Demo.run [Demo.f0; Demo.f2]).2 !! ParentSelector Demo.f2 =
            Some [GlobalPendingFrame.mk Demo.f2 (ParentSelector Demo.f2) 2]) as Hp by (vm_compute; reflexivity).
  split; [exact Hp|].
  apply (reel_nothing_waits (E := environment) ∅ (Demo.at0 [Demo.f0; Demo.f2]) Demo.cache_empty (fun _ _ => eq_refl) ltac:(vm_compute; reflexivity)
           _ _ 0%nat (mk Demo.f0 None ∅ 0) Hp); [exists (ComputeFrameID Demo.f0)|]; vm_compute; reflexivity.
Defined.

Lemma reel_in_order_witness :
  exists g, Demo.run [Demo.f0; Demo.f1; Demo.f2] = ([Ok tt; Ok tt; Ok tt], g) /\ (GetHead g).1 = Ok Demo.f2 /\
    effects g = appliedTx Demo.f0 ++ appliedTx Demo.f1 ++ appliedTx Demo.f2.
Proof.
  destruct (reel_in_order (E := environment) ∅ 0 Demo.f0 (Demo.at0 [Demo.f1; Demo.f2]) (fun _ _ => eq_refl) Demo.cache_empty eq_refl eq_refl
              chain_apart chain_chained ltac:(vm_compute; reflexivity)) as (g & Er & Hh & He & _).
  exists g. split; [exact Er|]. split; [exact Hh|exact He].
Defined.

Lemma reel_restart_witness :
  let g := (Demo.run [Demo.f0; Demo.f1]).2 in
  exists g', bootstrapFromStore (Ok <$> last (stored (effects g))) (rangeOf (stored (effects g))) Demo.new = (Ok tt, g') /\
    effects g ++ effects (insertAll (Demo.at0 [Demo.f2]) g').2 = effects (Demo.run [Demo.f0; Demo.f1; Demo.f2]).2.
Proof.
  destruct (reel_restart (E := environment) ∅ ∅ 0 Demo.f0 (Demo.at0 [Demo.f1]) (Demo.at0 [Demo.f2]) (fun _ _ => eq_refl) Demo.cache_empty Demo.cache_empty
              eq_refl eq_refl chain_apart chain_chained ltac:(repeat constructor) ltac:(vm_compute; reflexivity)) as (g' & Eb & _ & _ & He).
  exists g'. split; [exact Eb|exact He].
Defined.

Lemma reorganise_reverts_ancestor_witness :
  let g := (Demo.run [Demo.f0; Demo.f1; Demo.f2; Demo.f2'; Demo.f3']).2 in
  exists g', reorganise 2 4 g = (Ok tt, g') /\ isAncestorNode (heap g') 1 4 = true /\
    effects g' = effects g ++ [NewTransaction; Revert 2 []; Revert 1 []; Commit] ++
      NewTransaction :: applied Demo.f2' ++ applied Demo.f3' ++ [Commit].
Proof.
  destruct (reorganise_reverts_ancestor (E := environment) ∅ (Demo.at0 [Demo.f0; Demo.f1; Demo.f2; Demo.f2'; Demo.f3']) 2 4 1 [2%nat] [4; 3]%nat [0%nat]
              Demo.cache_empty (fun _ _ => eq_refl) eq_refl ltac:(vm_compute; reflexivity)) as (g' & Er & He & _ & Ha).
  - exists (ComputeFrameID Demo.f2). vm_compute. reflexivity.
  - exists (ComputeFrameID Demo.f3'). vm_compute. reflexivity.
  - split; [vm_compute; reflexivity..|]. intros p Hp. set_solver.
  - done.
  - exists g'. split; [exact Er|]. split; [exact Ha|]. rewrite He. vm_compute. reflexivity.
Defined.

Lemma seniority_bounds_witness :
  computeFrameSeniority ∅ (Demo.frameOf 1 Byte.x01 Byte.x00 (replicate 8 Byte.xff)) = (2 ^ 58 - 1) * 64.
Proof.
  destruct (seniority_bounds ∅ (Demo.frameOf 1 Byte.x01 Byte.x00 (replicate 8 Byte.xff)) (replicate 8 Byte.xff) eq_refl) as [Hle _].
  rewrite Hle; vm_compute; [reflexivity|]. by repeat constructor.
Defined.
