(* ===== verification/FrameProver.v ===== *)
(** * Proving and verifying frame headers (vdf/wesolowski_frame_prover.go)

    WesolowskiFrameProver: the payload a header commits to, the headers it makes for app
    shards and for the global chain, and their verification.  The verifiable delay function,
    SHA3-256 and the BLS library are parameters; Poseidon is that of the time reel.  Byte
    slices are not nil, as the decoders and this prover leave them; an Output shorter than
    its 516 bytes has no spare capacity. *)

From S2P Require Import Prelude Wire Keys Frames Messages ForkChoice Stateful GlobalTimeReel.

(** ** Bit masks *)

Definition orBit (index : Z) (b : byte) : byte := Z_byte (Z.lor (byte_Z b) (Z.shiftl 1 (index mod 8))).

Definition SetBitAtIndex (mask : bytes) (index : Z) : bytes :=
  alter (orBit index) (Z.to_nat (index / 8)) (take 32 (mask ++ replicate 32 Byte.x00)).

(** The positions of the bits that are set, as uint8. *)
Definition GetSetBitIndices (mask : bytes) : list Z := u8 <$> signers mask.

(** ** The libraries *)

Inductive KeyType :=
| KeyTypeEd448
| KeyTypeX448
| KeyTypeBLS48581G1
| KeyTypeBLS48581G2
| KeyTypeDecaf448
| KeyTypeSecp256K1SHA256
| KeyTypeSecp256K1SHA3
| KeyTypeEd25519.

(** types/crypto.Signer *)
Record Signer := mkSigner {
  GetType : KeyType;
  Public : bytes;
  SignWithDomain : bytes -> bytes -> result bytes
}.

(** SHA3-256, the bindings of the delay function and types/crypto.BlsConstructor; New returns
    the public key of a fresh key pair and Aggregate the aggregate key and signature. *)
Class FrameCrypto := {
  sha3 : bytes -> bytes;
  WesolowskiSolve : bytes -> Z -> bytes;
  WesolowskiVerify : bytes -> Z -> bytes -> bool;
  VerifySignatureRaw : bytes -> bytes -> bytes -> bytes -> bool;
  New : result bytes;
  Aggregate : list bytes -> list bytes -> result (bytes * bytes)
}.

(** The lengths a commitment may have. *)
Definition rootLength (c : bytes) : bool := (length c =? 74)%nat || (length c =? 64)%nat.

Definition isBLS (t : KeyType) : bool :=
  match t with KeyTypeBLS48581G1 | KeyTypeBLS48581G2 => true | _ => false end.

Definition stringGlobal : bytes := [Byte.x67; Byte.x6c; Byte.x6f; Byte.x62; Byte.x61; Byte.x6c].
Definition stringShard : bytes := [Byte.x73; Byte.x68; Byte.x61; Byte.x72; Byte.x64].

Section prover.
Context `{Environment} `{FrameCrypto}.

(** The hash of the first 516 bytes of the output, which names the parent. *)
Definition previousSelector (output : bytes) : result bytes :=
  if (length output <? 516)%nat then Panic else Ok (computeGlobalPoseidonHash (take 516 output)).

(** The signature of the prover at its place in the mask. *)
Definition proverSignature (provingKey : Signer) (proverIndex : Z) (signature : bytes) : BLS48581AggregateSignature.t :=
  BLS48581AggregateSignature.mk signature (Some (BLS48581G2PublicKey.mk (Public provingKey)))
    (SetBitAtIndex (replicate 32 Byte.x00) proverIndex).

(** ** App shards *)

(** What the delay function of an app shard header is run on. *)
Definition frameInput (f : FrameHeader.t) : bytes :=
  FrameHeader.Address f ++ be 8 (FrameHeader.FrameNumber f) ++ be 8 (u64 (FrameHeader.Timestamp f))
  ++ be 4 (FrameHeader.Difficulty f) ++ be 8 (FrameHeader.FeeMultiplierVote f) ++ FrameHeader.ParentSelector f
  ++ FrameHeader.RequestsRoot f ++ concat (FrameHeader.StateRoots f) ++ FrameHeader.Prover f.

Definition ProveFrameHeaderGenesis (address : bytes) (difficulty : Z) (input : bytes) (feeMultiplierVote : Z)
    : FrameHeader.t :=
  let b := sha3 (input ++ address ++ be 8 0 ++ be 8 0 ++ be 4 difficulty ++ be 8 feeMultiplierVote
                 ++ replicate 32 Byte.x00) in
  FrameHeader.mk address 0 0 difficulty (WesolowskiSolve b difficulty) (replicate 32 Byte.x00)
    (replicate 74 Byte.x00) (replicate 4 (replicate 74 Byte.x00)) [] feeMultiplierVote None.

Definition ProveFrameHeader (previousFrame : option FrameHeader.t) (address requestsRoot : bytes)
    (stateRoots : list bytes) (prover : bytes) (provingKey : Signer) (timestamp difficulty feeMultiplierVote proverIndex : Z)
    : result FrameHeader.t :=
  match previousFrame with
  | None => Err "missing header"
  | Some previousFrame =>
    parent ← previousSelector (FrameHeader.Output previousFrame);
    let unsigned := FrameHeader.mk address (u64 (FrameHeader.FrameNumber previousFrame + 1)) timestamp difficulty []
                      parent requestsRoot stateRoots prover feeMultiplierVote None in
    let b := sha3 (frameInput unsigned) in
    let o := WesolowskiSolve b difficulty in
    signature ← SignWithDomain provingKey (b ++ o) (stringShard ++ address);
    if isBLS (GetType provingKey)
    then Ok (FrameHeader.mk address (u64 (FrameHeader.FrameNumber previousFrame + 1)) timestamp difficulty o parent
               requestsRoot stateRoots prover feeMultiplierVote (Some (proverSignature provingKey proverIndex signature)))
    else Err "unsupported proving key"
  end.

Definition GetFrameSignaturePayload (f : FrameHeader.t) : result bytes :=
  if negb (length (FrameHeader.ParentSelector f) =? 32)%nat then Err "invalid selector"
  else if negb (length (FrameHeader.Output f) =? 516)%nat then Err "invalid output"
  else Ok (sha3 (frameInput f) ++ FrameHeader.Output f).

(** The key is dereferenced. *)
Definition VerifyFrameHeaderSignature (f : FrameHeader.t) : result bool :=
  payload ← GetFrameSignaturePayload f;
  match FrameHeader.PublicKeySignatureBls48581 f with
  | Some sig =>
    match BLS48581AggregateSignature.PublicKey sig with
    | Some key =>
      if VerifySignatureRaw (BLS48581G2PublicKey.KeyValue key) (BLS48581AggregateSignature.Signature sig) payload
           (stringShard ++ FrameHeader.Address f)
      then Ok true else Err "invalid signature"
    | None => Panic
    end
  | None => Panic
  end.

Definition VerifyFrameHeader (f : FrameHeader.t) : result (list Z) :=
  if (length (FrameHeader.Address f) =? 0)%nat then Err "invalid address"
  else if negb (rootLength (FrameHeader.RequestsRoot f)) then Err "invalid requests root length"
  else if negb (length (FrameHeader.StateRoots f) =? 4)%nat then Err "invalid state roots count"
  else if negb (forallb rootLength (FrameHeader.StateRoots f)) then Err "invalid state root length"
  else if (length (FrameHeader.Prover f) =? 0)%nat then Err "invalid prover"
  else if FrameHeader.FrameNumber f =? 0 then Ok (replicate 32 255)
  else
    payload ← GetFrameSignaturePayload f;
    if negb (WesolowskiVerify (take 32 payload) (FrameHeader.Difficulty f) (drop 32 payload)) then Err "invalid proof"
    else
      match FrameHeader.PublicKeySignatureBls48581 f with
      | None => Ok []
      | Some sig =>
        valid ← VerifyFrameHeaderSignature f;
        if negb valid then Err "invalid signature"
        else Ok (GetSetBitIndices (BLS48581AggregateSignature.Bitmask sig))
      end.

(** ** The global chain *)

Definition globalInput (f : GlobalFrameHeader.t) : bytes :=
  be 8 (GlobalFrameHeader.FrameNumber f) ++ be 8 (u64 (GlobalFrameHeader.Timestamp f))
  ++ be 4 (GlobalFrameHeader.Difficulty f) ++ GlobalFrameHeader.ParentSelector f
  ++ concat (GlobalFrameHeader.GlobalCommitments f) ++ GlobalFrameHeader.ProverTreeCommitment f.

Definition ProveGlobalFrameHeader (previousFrame : option GlobalFrameHeader.t) (commitments : list bytes)
    (proverRoot : bytes) (provingKey : Signer) (timestamp difficulty proverIndex : Z) : result GlobalFrameHeader.t :=
  match previousFrame with
  | None => Err "missing header"
  | Some previousFrame =>
    parent ← previousSelector (GlobalFrameHeader.Output previousFrame);
    let unsigned := GlobalFrameHeader.mk (u64 (GlobalFrameHeader.FrameNumber previousFrame + 1)) timestamp difficulty []
                      parent commitments proverRoot None in
    let b := sha3 (globalInput unsigned) in
    let o := WesolowskiSolve b difficulty in
    signature ← SignWithDomain provingKey (b ++ o) stringGlobal;
    if isBLS (GetType provingKey)
    then Ok (GlobalFrameHeader.mk (u64 (GlobalFrameHeader.FrameNumber previousFrame + 1)) timestamp difficulty o parent
               commitments proverRoot (Some (proverSignature provingKey proverIndex signature)))
    else Err "unsupported proving key"
  end.

Definition GetGlobalFrameSignaturePayload (f : GlobalFrameHeader.t) : result bytes :=
  if negb (length (GlobalFrameHeader.ParentSelector f) =? 32)%nat then Err "invalid selector"
  else if negb (length (GlobalFrameHeader.Output f) =? 516)%nat then Err "invalid output"
  else Ok (sha3 (globalInput f) ++ GlobalFrameHeader.Output f).

(** The guard on the signature and the lengths of its parts. *)
Definition hasSignature (f : GlobalFrameHeader.t) : bool :=
  match GlobalFrameHeader.PublicKeySignatureBls48581 f with
  | Some sig =>
    match BLS48581AggregateSignature.PublicKey sig with
    | Some key => (length (BLS48581G2PublicKey.KeyValue key) =? 585)%nat
                  && (length (BLS48581AggregateSignature.Signature sig) =? 74)%nat
    | None => false
    end
  | None => false
  end.

Definition VerifyGlobalFrameHeader (f : GlobalFrameHeader.t) : result (list Z) :=
  if negb (hasSignature f) then Err "no valid signature provided"
  else if negb (length (GlobalFrameHeader.GlobalCommitments f) =? 256)%nat then Err "invalid global commitment length"
  else if negb (forallb rootLength (GlobalFrameHeader.GlobalCommitments f)) then Err "invalid global commitment length"
  else if negb (rootLength (GlobalFrameHeader.ProverTreeCommitment f)) then Err "invalid prover commitment length"
  else
    payload ← GetGlobalFrameSignaturePayload f;
    if negb (WesolowskiVerify (take 32 payload) (GlobalFrameHeader.Difficulty f) (drop 32 payload))
    then Err "invalid proof"
    else
      match GlobalFrameHeader.PublicKeySignatureBls48581 f with
      | Some sig => Ok (GetSetBitIndices (BLS48581AggregateSignature.Bitmask sig))
      | None => Panic
      end.

Definition VerifyGlobalHeaderSignature (f : GlobalFrameHeader.t) : result bool :=
  payload ← GetGlobalFrameSignaturePayload f;
  match GlobalFrameHeader.PublicKeySignatureBls48581 f with
  | Some sig =>
    match BLS48581AggregateSignature.PublicKey sig with
    | Some key =>
      if VerifySignatureRaw (BLS48581G2PublicKey.KeyValue key) (BLS48581AggregateSignature.Signature sig) payload
           stringGlobal
      then Ok true else Err "invalid signature"
    | None => Panic
    end
  | None => Panic
  end.
End prover.

(** What is assumed of the libraries: the lengths of their results, and that a solution of
    the delay function verifies. *)
Class FrameCryptoLaws `(F : FrameCrypto) : Prop := {
  sha3_length b : length (sha3 b) = 32%nat;
  solve_length b d : length (WesolowskiSolve b d) = 516%nat;
  solve_verifies b d : WesolowskiVerify b d (WesolowskiSolve b d) = true
}.

(** A single bit is read back. *)
Lemma set_bit_get i : 0 <= i < 256 -> GetSetBitIndices (SetBitAtIndex (replicate 32 Byte.x00) i) = [i].
Proof.
  intros Hi. assert (Forall (fun i => GetSetBitIndices (SetBitAtIndex (replicate 32 Byte.x00) i) = [i]) (seqZ 0 256)) as HF by by_decide.
  rewrite Forall_forall in HF. apply HF, elem_of_seqZ. lia.
Qed.

Section proved.
Context `{E : Environment} `{F : FrameCrypto} `{!FrameCryptoLaws F}.

(** The signer signs what it is given, and what it signs verifies under its key. *)
Definition signs (k : Signer) (message domain : bytes) : Prop :=
  exists s, SignWithDomain k message domain = Ok s /\ length s = 74%nat /\ VerifySignatureRaw (Public k) s message domain = true.

Lemma payload_parts (b o : bytes) : length b = 32%nat -> take 32 (b ++ o) = b /\ drop 32 (b ++ o) = o.
Proof. intros Hb. by rewrite take_app_length', drop_app_length' by lia. Qed.

(** What ProveGlobalFrameHeader returns. *)
Lemma prove_global_eq prev commitments proverRoot key timestamp difficulty i :
  (516 <= length (GlobalFrameHeader.Output prev))%nat -> isBLS (GetType key) = true ->
  (forall m, signs key m stringGlobal) ->
  exists o sig, let h := GlobalFrameHeader.mk (u64 (GlobalFrameHeader.FrameNumber prev + 1)) timestamp difficulty o
                           (computeGlobalPoseidonHash (take 516 (GlobalFrameHeader.Output prev))) commitments proverRoot
                           (Some (proverSignature key i sig)) in
    ProveGlobalFrameHeader (Some prev) commitments proverRoot key timestamp difficulty i = Ok h /\
    o = WesolowskiSolve (sha3 (globalInput h)) difficulty /\
    length sig = 74%nat /\ VerifySignatureRaw (Public key) sig (sha3 (globalInput h) ++ o) stringGlobal = true.
Proof.
  intros Ho Hk Hs. unfold ProveGlobalFrameHeader, previousSelector. rewrite (proj2 (Nat.ltb_ge _ _)) by done. cbn [mbind result_bind].
  set (u := GlobalFrameHeader.mk _ _ _ [] _ _ _ None). set (o := WesolowskiSolve (sha3 (globalInput u)) difficulty).
  destruct (Hs (sha3 (globalInput u) ++ o)) as (s & Es & Hlen & Hv). rewrite Es. cbn [mbind result_bind]. rewrite Hk.
  by exists o, s.
Qed.

Lemma prove_global_verifies prev commitments proverRoot key timestamp difficulty i :
  (516 <= length (GlobalFrameHeader.Output prev))%nat -> isBLS (GetType key) = true -> length (Public key) = 585%nat ->
  (forall m, signs key m stringGlobal) -> length commitments = 256%nat -> forallb rootLength commitments = true ->
  rootLength proverRoot = true -> 0 <= i < 256 ->
  exists h, ProveGlobalFrameHeader (Some prev) commitments proverRoot key timestamp difficulty i = Ok h /\
    VerifyGlobalFrameHeader h = Ok [i] /\ VerifyGlobalHeaderSignature h = Ok true /\
    GlobalFrameHeader.PublicKeySignatureBls48581 h <> None /\ length (GlobalFrameHeader.Output h) = 516%nat /\
    GlobalFrameHeader.FrameNumber h = u64 (GlobalFrameHeader.FrameNumber prev + 1) /\
    GlobalFrameHeader.ParentSelector h = computeGlobalPoseidonHash (take 516 (GlobalFrameHeader.Output prev)) /\
    forall sig, GlobalFrameHeader.PublicKeySignatureBls48581 h = Some sig ->
      BLS48581AggregateSignature.PublicKey sig = Some (BLS48581G2PublicKey.mk (Public key)).
Proof.
  intros Ho Hk Hpub Hs Hc Hcs Hr Hi.
  destruct (prove_global_eq prev commitments proverRoot key timestamp difficulty i Ho Hk Hs) as (o & sig & Ep & Eo & Hsig & Hv).
  set (h := GlobalFrameHeader.mk _ _ _ _ _ _ _ _) in *.
  assert (length o = 516%nat) as Hlen by (rewrite Eo; apply solve_length).
  assert (GetGlobalFrameSignaturePayload h = Ok (sha3 (globalInput h) ++ o)) as Epay.
  { unfold GetGlobalFrameSignaturePayload. cbn. unfold computeGlobalPoseidonHash. by rewrite be_length, Hlen. }
  exists h. split; [done|]. split; [|split; [|repeat split; [done..|by intros ? [= <-]]]].
  - unfold VerifyGlobalFrameHeader. rewrite Epay. cbn [hasSignature h GlobalFrameHeader.PublicKeySignatureBls48581 GlobalFrameHeader.Difficulty
      GlobalFrameHeader.GlobalCommitments GlobalFrameHeader.ProverTreeCommitment proverSignature BLS48581AggregateSignature.PublicKey
      BLS48581AggregateSignature.Signature BLS48581G2PublicKey.KeyValue].
    rewrite Hpub, Hsig, Hc, Hcs, Hr. cbn [Nat.eqb andb negb mbind result_bind].
    destruct (payload_parts (sha3 (globalInput h)) o (sha3_length _)) as [-> ->]. rewrite Eo, solve_verifies.
    transitivity (Ok (GetSetBitIndices (SetBitAtIndex (replicate 32 Byte.x00) i))); [done|]. by rewrite set_bit_get.
  - unfold VerifyGlobalHeaderSignature. rewrite Epay. cbn [mbind result_bind]. cbn. by rewrite Hv.
Qed.

(** The same for the headers of app shards, which verify only with their signature. *)
Lemma prove_app_verifies prev address requestsRoot stateRoots prover key timestamp difficulty vote i :
  (516 <= length (FrameHeader.Output prev))%nat -> isBLS (GetType key) = true ->
  (forall m, signs key m (stringShard ++ address)) -> address <> [] -> prover <> [] ->
  rootLength requestsRoot = true -> length stateRoots = 4%nat -> forallb rootLength stateRoots = true ->
  u64 (FrameHeader.FrameNumber prev + 1) <> 0 -> 0 <= i < 256 ->
  exists h, ProveFrameHeader (Some prev) address requestsRoot stateRoots prover key timestamp difficulty vote i = Ok h /\
    VerifyFrameHeader h = Ok [i] /\ VerifyFrameHeaderSignature h = Ok true.
Proof.
  intros Ho Hk Hs Ha Hp Hr Hn Hsr Hnum Hi.
  unfold ProveFrameHeader, previousSelector. rewrite (proj2 (Nat.ltb_ge _ _)) by done. cbn [mbind result_bind].
  set (u := FrameHeader.mk _ _ _ _ [] _ _ _ _ _ None). set (o := WesolowskiSolve (sha3 (frameInput u)) difficulty).
  destruct (Hs (sha3 (frameInput u) ++ o)) as (sig & Es & _ & Hv). rewrite Es. cbn [mbind result_bind]. rewrite Hk.
  eexists. split; [done|]. set (h := FrameHeader.mk _ _ _ _ o _ _ _ _ _ _).
  assert (length o = 516%nat) as Hlen by apply solve_length.
  assert (GetFrameSignaturePayload h = Ok (sha3 (frameInput u) ++ o)) as Epay.
  { unfold GetFrameSignaturePayload. cbn. unfold computeGlobalPoseidonHash. by rewrite be_length, Hlen. }
  assert (VerifyFrameHeaderSignature h = Ok true) as Esig.
  { unfold VerifyFrameHeaderSignature. rewrite Epay. cbn [mbind result_bind h FrameHeader.PublicKeySignatureBls48581 FrameHeader.Address proverSignature
      BLS48581AggregateSignature.PublicKey BLS48581AggregateSignature.Signature BLS48581G2PublicKey.KeyValue]. by rewrite Hv. }
  split; [|done]. unfold VerifyFrameHeader. rewrite Epay, Esig.
  cbn [h FrameHeader.Address FrameHeader.RequestsRoot FrameHeader.StateRoots FrameHeader.Prover FrameHeader.FrameNumber FrameHeader.Difficulty
    FrameHeader.PublicKeySignatureBls48581].
  rewrite Hr, Hn, Hsr, (proj2 (Z.eqb_neq _ _) Hnum). destruct address; [done|]. destruct prover; [done|]. cbn [length Nat.eqb negb mbind result_bind].
  destruct (payload_parts (sha3 (frameInput u)) o (sha3_length _)) as [-> ->]. unfold o at 1. rewrite solve_verifies.
  transitivity (Ok (GetSetBitIndices (SetBitAtIndex (replicate 32 Byte.x00) i))); [done|]. by rewrite set_bit_get.
Qed.

(** ** What the payload binds *)

Lemma concat_same_lengths (l l' : list bytes) r r' :
  length <$> l = length <$> l' -> concat l ++ r = concat l' ++ r' -> l = l' /\ r = r'.
Proof.
  revert l'. induction l as [|x l IH]; intros [|x' l'] Hlen Heq; try discriminate; [done|].
  rewrite !fmap_cons in Hlen. injection Hlen as Hx Hlen. cbn in Heq. rewrite <- !app_assoc in Heq.
  apply app_inj_1 in Heq as [-> Heq]; [|done]. by destruct (IH l' Hlen Heq) as [-> ->].
Qed.

(** The machine integers of a header are in range. *)
Definition headerTyped (f : GlobalFrameHeader.t) : Prop :=
  is_u 64 (GlobalFrameHeader.FrameNumber f) /\ is_i 64 (GlobalFrameHeader.Timestamp f) /\ is_u 32 (GlobalFrameHeader.Difficulty f).

(** The header without its signature. *)
Definition unsigned (f : GlobalFrameHeader.t) : GlobalFrameHeader.t :=
  GlobalFrameHeader.mk (GlobalFrameHeader.FrameNumber f) (GlobalFrameHeader.Timestamp f) (GlobalFrameHeader.Difficulty f)
    (GlobalFrameHeader.Output f) (GlobalFrameHeader.ParentSelector f) (GlobalFrameHeader.GlobalCommitments f)
    (GlobalFrameHeader.ProverTreeCommitment f) None.

Lemma payload_eq f p :
  GetGlobalFrameSignaturePayload f = Ok p ->
  p = sha3 (globalInput f) ++ GlobalFrameHeader.Output f /\ length (GlobalFrameHeader.ParentSelector f) = 32%nat.
Proof.
  unfold GetGlobalFrameSignaturePayload. destruct (Nat.eqb_spec (length (GlobalFrameHeader.ParentSelector f)) 32); [|done].
  destruct (_ =? 516)%nat; [|done]. by intros [= <-].
Qed.

Lemma u64_timestamp_inj x y : is_i 64 x -> is_i 64 y -> u64 x = u64 y -> x = y.
Proof.
  unfold is_i, u64, uwrap. intros Hx Hy Heq.
  assert (forall z, - 2 ^ 63 <= z < 2 ^ 63 -> z mod 2 ^ 64 = if z <? 0 then z + 2 ^ 64 else z) as Hm.
  { intros z Hz. destruct (Z.ltb_spec z 0); [|apply Z.mod_small; lia].
    rewrite <- (Z.mod_add z 1) by lia. rewrite Z.mul_1_l. apply Z.mod_small. lia. }
  cbn in Hx, Hy. rewrite !Hm in Heq by lia. destruct (Z.ltb_spec x 0), (Z.ltb_spec y 0); lia.
Qed.

(** The payload that provers sign determines the header, up to its signature, for headers
    whose commitments have the same lengths and on whose inputs SHA3 does not collide. *)
Lemma global_payload_binds f f' p :
  headerTyped f -> headerTyped f' ->
  length <$> GlobalFrameHeader.GlobalCommitments f = length <$> GlobalFrameHeader.GlobalCommitments f' ->
  (sha3 (globalInput f) = sha3 (globalInput f') -> globalInput f = globalInput f') ->
  GetGlobalFrameSignaturePayload f = Ok p -> GetGlobalFrameSignaturePayload f' = Ok p -> unsigned f = unsigned f'.
Proof.
  intros (Hn & Ht & Hd) (Hn' & Ht' & Hd') Hlen Hcoll [Ep Hsel]%payload_eq [Ep' Hsel']%payload_eq. rewrite Ep in Ep'.
  apply app_inj_1 in Ep' as [Eh Eo]; [|by rewrite !sha3_length]. apply Hcoll in Eh. unfold globalInput in Eh.
  apply app_inj_1 in Eh as [En Eh]; [|by rewrite !be_length]. apply app_inj_1 in Eh as [Et Eh]; [|by rewrite !be_length].
  apply app_inj_1 in Eh as [Ed Eh]; [|by rewrite !be_length]. apply app_inj_1 in Eh as [Es Eh]; [|congruence].
  apply concat_same_lengths in Eh as [Ec Er]; [|done].
  apply be_inj in En; [|unfold is_u in *; cbn in *; lia..]. apply be_inj in Ed; [|unfold is_u in *; cbn in *; lia..].
  apply be_inj in Et; [|pose proof (Z.mod_pos_bound (GlobalFrameHeader.Timestamp f) (2 ^ 64) ltac:(lia));
    pose proof (Z.mod_pos_bound (GlobalFrameHeader.Timestamp f') (2 ^ 64) ltac:(lia)); unfold u64, uwrap; cbn in *; lia..].
  apply u64_timestamp_inj in Et; [|done..]. unfold unsigned. congruence.
Qed.
End proved.

(** With commitments of different lengths, two headers that have both the lengths the
    verifier admits share their payload. *)
Example global_payload_ambiguous `{Environment} `{FrameCrypto} :
  let c64 := replicate 64 Byte.x00 in let c74 := replicate 74 Byte.x00 in
  let header cs := GlobalFrameHeader.mk 1 0 1 (replicate 516 Byte.x00) (replicate 32 Byte.x00) cs c64 None in
  let f := header (c74 :: c64 :: replicate 254 c64) in let f' := header (c64 :: c74 :: replicate 254 c64) in
  forallb rootLength (GlobalFrameHeader.GlobalCommitments f) = true /\
  forallb rootLength (GlobalFrameHeader.GlobalCommitments f') = true /\ f <> f' /\
  GetGlobalFrameSignaturePayload f = GetGlobalFrameSignaturePayload f'.
Proof.
  split_and!; [reflexivity..|discriminate|]. vm_compute. reflexivity.
Qed.
