(* ===== verification/FrameValidator.v ===== *)
(** * Validation of frames (node/consensus/validator)

    BLSGlobalFrameValidator and BLSAppFrameValidator, over the frame prover and the BLS
    library of FrameProver.  The answers of the prover registry are arguments.  Frames are
    not nil, their headers may be. *)

From S2P Require Import Prelude Wire Keys Frames Messages ForkChoice Stateful GlobalTimeReel FrameProver.

(** The part of types/consensus.ProverInfo that is used. *)
Module ProverInfo.
Record t := mk {
  PublicKey : bytes;
  Address : bytes
}.
End ProverInfo.

(** The keys of the provers whose index is among [bits]; the comparison is in uint8. *)
Definition memberKeys (bits : list Z) (provers : list ProverInfo.t) : list bytes :=
  concat (imap (fun i p => if bool_decide (u8 (Z.of_nat i) ∈ bits) then [ProverInfo.PublicKey p] else []) provers).

Section validators.
Context `{Environment} `{FrameCrypto}.

(** Whether [key] is the aggregate of the keys of the members. *)
Definition checkAggregate (bits : list Z) (provers : list ProverInfo.t) (throwaway : bytes) (key : bytes) : result bool :=
  let keys := memberKeys bits provers in
  aggregate ← Aggregate keys (replicate (length keys) throwaway);
  if bool_decide (aggregate.1 = key) then Ok true else Err "could not verify aggregated keys".

Definition GlobalValidate (activeProvers : result (list ProverInfo.t)) (frame : GlobalFrame.t) : result bool :=
  match GlobalFrame.Header frame with
  | None => Ok false
  | Some h =>
    if negb (length (GlobalFrameHeader.Output h) =? 516)%nat then Ok false
    else if GlobalFrameHeader.FrameNumber h =? 0 then Ok true
    else
      match GlobalFrameHeader.PublicKeySignatureBls48581 h with
      | None => Ok false
      | Some sig =>
        match BLS48581AggregateSignature.PublicKey sig with
        | None => Ok false
        | Some key =>
          bits ← VerifyGlobalFrameHeader h;
          throwaway ← New;
          provers ← activeProvers;
          checkAggregate bits provers throwaway (BLS48581G2PublicKey.KeyValue key)
        end
      end
  end.

Definition AppValidate (activeProvers : bytes -> result (list ProverInfo.t)) (frame : AppShardFrame.t) : result bool :=
  match AppShardFrame.Header frame with
  | None => Ok false
  | Some h =>
    if (length (FrameHeader.Address h) =? 0)%nat then Ok false
    else if negb (length (FrameHeader.StateRoots h) =? 4)%nat then Ok false
    else if negb (forallb rootLength (FrameHeader.StateRoots h)) then Ok false
    else
      match VerifyFrameHeader h with
      | Err _ => Ok false
      | Ok bits =>
        match FrameHeader.PublicKeySignatureBls48581 h with
        | None => Ok true
        | Some sig =>
          provers ← activeProvers (FrameHeader.Address h);
          throwaway ← New;
          match BLS48581AggregateSignature.PublicKey sig with
          | None => _ ← Aggregate (memberKeys bits provers) (replicate (length (memberKeys bits provers)) throwaway); Panic
          | Some key => checkAggregate bits provers throwaway (BLS48581G2PublicKey.KeyValue key)
          end
        end
      | Panic => Panic
      | Diverge => Diverge
      end
  end.
End validators.

(** ** Masks *)

Lemma land_bit v bit : 0 <= bit -> Z.land v (Z.shiftl 1 bit) <> 0 <-> Z.testbit v bit = true.
Proof.
  intros Hb. split.
  - intros Hne. destruct (Z.testbit v bit) eqn:Et; [done|]. destruct Hne. apply Z.bits_inj'. intros n Hn.
    rewrite Z.land_spec, Z.bits_0, Z.shiftl_1_l. destruct (decide (n = bit)) as [->|Hnb]; [by rewrite Et|].
    rewrite Z.pow2_bits_false by done. apply andb_false_r.
  - intros Ht E0. assert (Z.testbit (Z.land v (Z.shiftl 1 bit)) bit = true) as Hx.
    { rewrite Z.land_spec, Ht, Z.shiftl_1_l. by rewrite Z.pow2_bits_true. }
    by rewrite E0, Z.bits_0 in Hx.
Qed.

Lemma elem_bitsOf i v z : z ∈ bitsOf i v <-> exists bit, 0 <= bit < 8 /\ z = Z.of_nat i * 8 + bit /\ Z.testbit v bit = true.
Proof.
  unfold bitsOf. rewrite list_elem_of_fmap. split.
  - intros (bit & -> & Hb). apply list_elem_of_filter in Hb as [Hb Hr%elem_of_seqZ]. exists bit. split; [lia|].
    split; [done|]. apply land_bit; [lia|done].
  - intros (bit & Hr & -> & Hb). exists bit. split; [done|]. apply list_elem_of_filter. split; [apply land_bit; [lia|done]|].
    apply elem_of_seqZ. lia.
Qed.

(** The signers of a mask are the positions of its bits. *)
Lemma elem_signers m z : z ∈ signers m <-> 0 <= z /\ Z.testbit (byteAt m (Z.to_nat (z / 8))) (z mod 8) = true.
Proof.
  unfold signers. rewrite list_elem_of_In, in_concat. setoid_rewrite <- list_elem_of_In.
  assert (forall i bit, 0 <= bit < 8 -> (Z.of_nat i * 8 + bit) / 8 = Z.of_nat i /\ (Z.of_nat i * 8 + bit) mod 8 = bit) as Hdm.
  { intros i bit Hb. rewrite Z.add_comm, Z.div_add, Z.mod_add, Z.div_small, Z.mod_small by lia. lia. }
  split.
  - intros (l & Hl & Hz). apply elem_of_lookup_imap in Hl as (i & b & -> & Hi). apply elem_bitsOf in Hz as (bit & Hb & -> & Ht).
    destruct (Hdm i bit Hb) as [-> ->]. split; [lia|]. rewrite Nat2Z.id. unfold byteAt. by rewrite Hi.
  - intros [Hz Ht]. unfold byteAt in Ht. destruct (m !! Z.to_nat (z / 8)) as [b|] eqn:Eb; [|by rewrite Z.bits_0 in Ht].
    eexists. split; [apply elem_of_lookup_imap; exists (Z.to_nat (z / 8)), b; done|]. apply elem_bitsOf. exists (z mod 8).
    pose proof (Z.mod_pos_bound z 8 ltac:(lia)). pose proof (Z.div_mod z 8 ltac:(lia)). pose proof (Z.div_pos z 8 ltac:(lia) ltac:(lia)).
    split; [lia|]. split; [lia|done].
Qed.

(** ** What the validators accept *)

(** The frame with other signature bytes and other requests. *)
Definition resigned (s : bytes) (requests : list MessageBundle.t) (frame : GlobalFrame.t) : GlobalFrame.t :=
  GlobalFrame.mk
    ((fun h => GlobalFrameHeader.mk (GlobalFrameHeader.FrameNumber h) (GlobalFrameHeader.Timestamp h)
        (GlobalFrameHeader.Difficulty h) (GlobalFrameHeader.Output h) (GlobalFrameHeader.ParentSelector h)
        (GlobalFrameHeader.GlobalCommitments h) (GlobalFrameHeader.ProverTreeCommitment h)
        ((fun sig => BLS48581AggregateSignature.mk s (BLS48581AggregateSignature.PublicKey sig)
            (BLS48581AggregateSignature.Bitmask sig)) <$> GlobalFrameHeader.PublicKeySignatureBls48581 h))
     <$> GlobalFrame.Header frame) requests.

Section accepts.
Context `{E : Environment} `{F : FrameCrypto}.

Lemma verify_resigned h sig s bits :
  GlobalFrameHeader.PublicKeySignatureBls48581 h = Some sig -> length s = 74%nat -> VerifyGlobalFrameHeader h = Ok bits ->
  VerifyGlobalFrameHeader (GlobalFrameHeader.mk (GlobalFrameHeader.FrameNumber h) (GlobalFrameHeader.Timestamp h)
    (GlobalFrameHeader.Difficulty h) (GlobalFrameHeader.Output h) (GlobalFrameHeader.ParentSelector h)
    (GlobalFrameHeader.GlobalCommitments h) (GlobalFrameHeader.ProverTreeCommitment h)
    (Some (BLS48581AggregateSignature.mk s (BLS48581AggregateSignature.PublicKey sig) (BLS48581AggregateSignature.Bitmask sig)))) = Ok bits.
Proof.
  intros Hsig Hs. destruct h as [n t d o p cs r sg]. cbn in Hsig. subst sg. unfold VerifyGlobalFrameHeader. cbn.
  destruct (BLS48581AggregateSignature.PublicKey sig) as [key|]; [|done].
  destruct (length (BLS48581G2PublicKey.KeyValue key) =? 585)%nat; [|done]. rewrite Hs. cbn.
  by destruct (length (BLS48581AggregateSignature.Signature sig) =? 74)%nat.
Qed.

(** A frame that is accepted stays accepted, under the same ID, with any other signature of
    the right length and any other requests: the validator does not verify the signature, and
    the header does not commit to the requests. *)
Theorem global_signature_unchecked activeProvers frame s requests :
  length s = 74%nat -> GlobalValidate activeProvers frame = Ok true ->
  GlobalValidate activeProvers (resigned s requests frame) = Ok true /\
  forall h h', GlobalFrame.Header frame = Some h -> GlobalFrame.Header (resigned s requests frame) = Some h' ->
    ComputeFrameID (mkGlobalFrame h' requests) = ComputeFrameID (mkGlobalFrame h (GlobalFrame.Requests frame)).
Proof.
  intros Hs Hv. unfold GlobalValidate, resigned in *. cbn [GlobalFrame.Header]. destruct (GlobalFrame.Header frame) as [h|]; [|done].
  split; [|by intros h0 h' [= <-] [= <-]]. cbn [fmap option_fmap option_map GlobalFrameHeader.Output GlobalFrameHeader.FrameNumber
    GlobalFrameHeader.PublicKeySignatureBls48581].
  destruct (negb _); [done|]. destruct (_ =? 0); [done|].
  destruct (GlobalFrameHeader.PublicKeySignatureBls48581 h) as [sig|] eqn:Esig; [|done]. cbn [fmap option_fmap option_map BLS48581AggregateSignature.PublicKey].
  destruct (BLS48581AggregateSignature.PublicKey sig) as [key|] eqn:Ekey; [|done].
  apply result_bind_Ok in Hv as (bits & Hb & Hv). pose proof (verify_resigned h sig s bits Esig Hs Hb) as Hb'. rewrite Ekey in Hb'.
  rewrite Hb'. done.
Qed.

(** The lengths VerifyFrameHeader asks for. *)
Definition wellShapedHeader (h : FrameHeader.t) : Prop :=
  FrameHeader.Address h <> [] /\ FrameHeader.Prover h <> [] /\ rootLength (FrameHeader.RequestsRoot h) = true /\
  length (FrameHeader.StateRoots h) = 4%nat /\ forallb rootLength (FrameHeader.StateRoots h) = true.

Lemma length_zero {A} (l : list A) : (length l =? 0)%nat = true <-> l = [].
Proof. by destruct l. Qed.

Lemma verify_app_shape h bits : VerifyFrameHeader h = Ok bits -> wellShapedHeader h.
Proof.
  unfold VerifyFrameHeader. destruct (length (FrameHeader.Address h) =? 0)%nat eqn:E1; [done|].
  destruct (rootLength (FrameHeader.RequestsRoot h)) eqn:E2; [|done]. destruct (Nat.eqb_spec (length (FrameHeader.StateRoots h)) 4) as [E3|]; [|done].
  destruct (forallb rootLength (FrameHeader.StateRoots h)) eqn:E4; [|done].
  destruct (length (FrameHeader.Prover h) =? 0)%nat eqn:E5; [done|]. intros _.
  split_and!; try done; intros Hn; apply length_zero in Hn; congruence.
Qed.

Lemma verify_app_eq h :
  wellShapedHeader h -> FrameHeader.FrameNumber h <> 0 ->
  VerifyFrameHeader h =
    (payload ← GetFrameSignaturePayload h;
     if negb (WesolowskiVerify (take 32 payload) (FrameHeader.Difficulty h) (drop 32 payload)) then Err "invalid proof"
     else match FrameHeader.PublicKeySignatureBls48581 h with
          | None => Ok []
          | Some sig =>
            valid ← VerifyFrameHeaderSignature h;
            if negb valid then Err "invalid signature" else Ok (GetSetBitIndices (BLS48581AggregateSignature.Bitmask sig))
          end).
Proof.
  intros (Ha & Hp & Hr & Hn & Hs) Hnum. unfold VerifyFrameHeader. rewrite Hr, Hn, Hs, (proj2 (Z.eqb_neq _ _) Hnum).
  destruct (FrameHeader.Address h); [done|]. by destruct (FrameHeader.Prover h).
Qed.

Lemma verify_signature_Ok h sig payload :
  FrameHeader.PublicKeySignatureBls48581 h = Some sig -> GetFrameSignaturePayload h = Ok payload ->
  VerifyFrameHeaderSignature h = Ok true <->
  exists key, BLS48581AggregateSignature.PublicKey sig = Some key /\
    VerifySignatureRaw (BLS48581G2PublicKey.KeyValue key) (BLS48581AggregateSignature.Signature sig) payload
      (stringShard ++ FrameHeader.Address h) = true.
Proof.
  intros Hsig Hp. unfold VerifyFrameHeaderSignature. rewrite Hp, Hsig. cbn [mbind result_bind].
  destruct (BLS48581AggregateSignature.PublicKey sig) as [key|]; [|split; [done|]; by intros (? & ? & _)].
  destruct (VerifySignatureRaw _ _ _ _) eqn:Ev; (split; [intros ?|intros (k & [= <-] & Hk)]); try done; try congruence. by exists key.
Qed.

Lemma checkAggregate_Ok bits provers throwaway key :
  checkAggregate bits provers throwaway key = Ok true <->
  let keys := memberKeys bits provers in exists s, Aggregate keys (replicate (length keys) throwaway) = Ok (key, s).
Proof.
  unfold checkAggregate. cbn zeta. split.
  - intros Hc. apply result_bind_Ok in Hc as ([k s] & Ha & Hc). case_bool_decide as Ek; [|done]. cbn in Ek. subst. eauto.
  - intros (s & ->). cbn [mbind result_bind fst]. by rewrite bool_decide_true.
Qed.

(** An app shard frame after the first is accepted exactly if its parts have their lengths,
    the delay function verifies, and, unless it carries no signature at all, its signature
    verifies under a key that is the aggregate of the keys of the provers in its mask. *)
Theorem app_validate_iff activeProvers frame h :
  AppShardFrame.Header frame = Some h -> FrameHeader.FrameNumber h <> 0 ->
  AppValidate activeProvers frame = Ok true <->
  FrameHeader.Address h <> [] /\ FrameHeader.Prover h <> [] /\ rootLength (FrameHeader.RequestsRoot h) = true /\
  length (FrameHeader.StateRoots h) = 4%nat /\ forallb rootLength (FrameHeader.StateRoots h) = true /\
  exists payload, GetFrameSignaturePayload h = Ok payload /\
    WesolowskiVerify (take 32 payload) (FrameHeader.Difficulty h) (drop 32 payload) = true /\
    forall sig, FrameHeader.PublicKeySignatureBls48581 h = Some sig ->
    exists key provers throwaway aggregate, BLS48581AggregateSignature.PublicKey sig = Some key /\
      VerifySignatureRaw (BLS48581G2PublicKey.KeyValue key) (BLS48581AggregateSignature.Signature sig) payload
        (stringShard ++ FrameHeader.Address h) = true /\
      activeProvers (FrameHeader.Address h) = Ok provers /\ New = Ok throwaway /\
      let keys := memberKeys (GetSetBitIndices (BLS48581AggregateSignature.Bitmask sig)) provers in
      Aggregate keys (replicate (length keys) throwaway) = Ok (BLS48581G2PublicKey.KeyValue key, aggregate).
Proof.
  intros Hh Hnum. unfold AppValidate. rewrite Hh. split.
  - intros Hv. destruct (length (FrameHeader.Address h) =? 0)%nat; [done|]. destruct (negb (length _ =? 4)%nat); [done|]. destruct (negb (forallb _ _)); [done|].
    destruct (VerifyFrameHeader h) as [bits| | |] eqn:Eb; try done. pose proof (verify_app_shape h bits Eb) as Hshape.
    rewrite (verify_app_eq h Hshape Hnum) in Eb. apply result_bind_Ok in Eb as (payload & Hp & Eb).
    split_and!; [apply Hshape..|]. exists payload. split; [done|]. destruct (WesolowskiVerify _ _ _); [|done]. split; [done|].
    intros sig Hsig. rewrite Hsig in *. cbn [negb] in Eb. apply result_bind_Ok in Eb as (valid & Hvs & Eb). destruct valid; [|done]. injection Eb as <-.
    apply (verify_signature_Ok h sig payload Hsig Hp) in Hvs as (key & Hkey & Hvs). rewrite Hkey in Hv.
    apply result_bind_Ok in Hv as (provers & Hprov & Hv). apply result_bind_Ok in Hv as (throwaway & Ht & Hv).
    apply checkAggregate_Ok in Hv as (s & Ha). by exists key, provers, throwaway, s.
  - intros (Ha & Hp & Hr & Hn & Hs & payload & Hpay & Hw & Hsig).
    assert (wellShapedHeader h) as Hshape by done. rewrite (verify_app_eq h Hshape Hnum), Hpay, Hn, Hs. cbn [mbind result_bind]. rewrite Hw.
    destruct (FrameHeader.Address h) as [|a0 al] eqn:Ea; [done|]. cbn [length Nat.eqb negb].
    destruct (FrameHeader.PublicKeySignatureBls48581 h) as [sig|] eqn:Esig; [|done].
    destruct (Hsig sig eq_refl) as (key & provers & throwaway & s & Hkey & Hv & Hprov & Ht & Hagg).
    rewrite (proj2 (verify_signature_Ok h sig payload Esig Hpay)) by (exists key; by rewrite Ea). cbn [mbind result_bind negb].
    rewrite Hprov, Ht, Hkey. cbn [mbind result_bind]. apply checkAggregate_Ok. by exists s.
Qed.
End accepts.
