(* ===== verification/Voting.v ===== *)
(** * Votes on global frames (node/consensus/global/consensus_voting_provider.go)

    The quorum and the finalisation of GlobalVotingProvider, which turn the votes the state
    machine has counted into a frame with an aggregate signature.  The answer of the prover
    registry is an argument.  The maps of proposals and votes are lists in the order they are
    visited; proposals are visited twice, in orders that may differ.  Proposals and votes in
    the maps are not nil, nor are their byte slices.  The frames returned along with an error are left out. *)

From S2P Require Import Prelude Wire Keys Frames Messages ForkChoice Stateful GlobalTimeReel FrameProver FrameValidator.

(** minimumProvers of the engine (global_consensus_engine.go); network 99 is the devnet. *)
Definition minimumProvers (network : Z) (activeProvers : result (list ProverInfo.t)) : Z :=
  if network =? 99 then 1
  else
    match activeProvers with
    | Ok currentSet => if 6 <? Z.of_nat (length currentSet) then 6 else Z.of_nat (length currentSet)
    | _ => 1
    end.

Definition IsQuorum (network : Z) (activeProvers : result (list ProverInfo.t)) (votes : list FrameVote.t) : result bool :=
  provers ← activeProvers;
  let minVotes := Z.max (Z.of_nat (length provers) * 2 / 3) (minimumProvers network activeProvers) in
  Ok (minVotes <=? Z.of_nat (length votes)).

Section finalize.
Context `{Environment} `{FrameCrypto}.

Definition getAddressFromPublicKey (publicKey : bytes) : bytes := computeGlobalPoseidonHash publicKey.

(** The address of the key that signed the proposal; the pointers are dereferenced. *)
Definition proposerOf (proposal : GlobalFrame.t) : result bytes :=
  match GlobalFrame.Header proposal with
  | None => Panic
  | Some h =>
    match GlobalFrameHeader.PublicKeySignatureBls48581 h with
    | None => Panic
    | Some sig =>
      match BLS48581AggregateSignature.PublicKey sig with
      | None => Panic
      | Some key => Ok (getAddressFromPublicKey (BLS48581G2PublicKey.KeyValue key))
      end
    end
  end.

Definition voteCount (votes : list FrameVote.t) (proposer : bytes) : Z :=
  Z.of_nat (length (filter (fun v => FrameVote.Proposer v = proposer) votes)).

(** The first proposal with the most votes, with its proposer. *)
Fixpoint mostVotes (votes : list FrameVote.t) (winnerCount : Z) (chosen : option (GlobalFrame.t * bytes))
    (proposals : list GlobalFrame.t) : result (option (GlobalFrame.t * bytes)) :=
  match proposals with
  | [] => Ok chosen
  | proposal :: proposals =>
    proposer ← proposerOf proposal;
    let count := voteCount votes proposer in
    if winnerCount <? count then mostVotes votes count (Some (proposal, proposer)) proposals
    else mostVotes votes winnerCount chosen proposals
  end.

(** proverMap: the key of an address, nil if there is none. *)
Definition keyOf (provers : list ProverInfo.t) (address : bytes) : bytes :=
  foldl (fun key p => if bool_decide (ProverInfo.Address p = address) then ProverInfo.PublicKey p else key) [] provers.

(** The signatures of the votes for the chosen proposal. *)
Fixpoint votesFor (frameNumber : Z) (proposer : bytes) (votes : list FrameVote.t)
    : result (list BLS48581AddressedSignature.t) :=
  match votes with
  | [] => Ok []
  | vote :: votes =>
    if negb (FrameVote.FrameNumber vote =? frameNumber) || negb (bool_decide (FrameVote.Proposer vote = proposer))
    then votesFor frameNumber proposer votes
    else
      match FrameVote.PublicKeySignatureBls48581 vote with
      | None => Panic
      | Some sig => sigs ← votesFor frameNumber proposer votes; Ok (sig :: sigs)
      end
  end.

(** The bits of the provers whose address is among the voters. *)
Definition participants (provers : list ProverInfo.t) (voters : list bytes) : bytes :=
  foldl (fun mask '(i, p) =>
      if bool_decide (ProverInfo.Address p ∈ voters) then alter (orBit (Z.of_nat i)) (i / 8)%nat mask else mask)
    (replicate ((length provers + 7) / 8) Byte.x00) (imap pair provers).

Definition finalized (h : GlobalFrameHeader.t) (requests : list MessageBundle.t) (signature key mask : bytes) : GlobalFrame.t :=
  GlobalFrame.mk (Some (GlobalFrameHeader.mk (GlobalFrameHeader.FrameNumber h) (GlobalFrameHeader.Timestamp h)
      (GlobalFrameHeader.Difficulty h) (GlobalFrameHeader.Output h) (GlobalFrameHeader.ParentSelector h)
      (GlobalFrameHeader.GlobalCommitments h) (GlobalFrameHeader.ProverTreeCommitment h)
      (Some (BLS48581AggregateSignature.mk signature (Some (BLS48581G2PublicKey.mk key)) mask)))) requests.

Definition FinalizeVotes (activeProvers : result (list ProverInfo.t)) (proposals proposals' : list GlobalFrame.t)
    (votes : list FrameVote.t) : result (GlobalFrame.t * bytes) :=
  winner ← mostVotes votes 0 None proposals;
  match (match winner with Some w => Some w | None => (fun p => (p, [])) <$> last proposals' end) with
  | None => Err "no proposals to finalize"
  | Some (chosenProposal, chosenProposerID) =>
    provers ← activeProvers;
    match GlobalFrame.Header chosenProposal with
    | None => if bool_decide (votes = []) then Err "no signatures to aggregate" else Panic
    | Some h =>
      sigs ← votesFor (GlobalFrameHeader.FrameNumber h) chosenProposerID votes;
      if bool_decide (sigs = []) then Err "no signatures to aggregate"
      else
        aggregate ← Aggregate (keyOf provers ∘ BLS48581AddressedSignature.Address <$> sigs)
                      (BLS48581AddressedSignature.Signature <$> sigs);
        let mask := participants provers (BLS48581AddressedSignature.Address <$> sigs) in
        Ok (finalized h (GlobalFrame.Requests chosenProposal) aggregate.2 aggregate.1 mask, chosenProposerID)
    end
  end.
End finalize.

(** ** The mask of the participants *)

Lemma byte_lor (b : byte) bit : 0 <= bit < 8 -> byte_Z (Z_byte (Z.lor (byte_Z b) (Z.shiftl 1 bit))) = Z.lor (byte_Z b) (Z.shiftl 1 bit).
Proof.
  intros Hb. rewrite byte_Z_of. apply Z.mod_small. pose proof (byte_Z_range b) as Hr. rewrite Z.shiftl_1_l.
  pose proof (Z.pow_pos_nonneg 2 bit ltac:(lia) ltac:(lia)) as Hpos. split; [apply Z.lor_nonneg; lia|].
  apply (Z.log2_lt_cancel _ (2 ^ 8)). rewrite Z.log2_lor by lia. rewrite !Z.log2_pow2 by lia.
  apply Z.max_lub_lt; [|lia]. destruct (decide (byte_Z b = 0)) as [->|Hne]; [done|]. apply Z.log2_lt_pow2; lia.
Qed.

Lemma byteAt_alter (k : nat) i mask :
  (k < length mask)%nat -> 0 <= i -> forall j,
  byteAt (alter (orBit i) k mask) j = if decide (j = k) then Z.lor (byteAt mask k) (Z.shiftl 1 (i mod 8)) else byteAt mask j.
Proof.
  intros Hk Hi j. unfold byteAt. case_decide as E0.
  - subst j. rewrite list_lookup_alter_eq. destruct (lookup_lt_is_Some_2 mask k Hk) as [b ->]. cbn. apply byte_lor, Z.mod_pos_bound. lia.
  - by rewrite list_lookup_alter_ne.
Qed.

Lemma signers_alter i mask z :
  (i / 8 < length mask)%nat -> z ∈ signers (alter (orBit (Z.of_nat i)) (i / 8)%nat mask) <-> z ∈ signers mask \/ z = Z.of_nat i.
Proof.
  intros Hi. rewrite !elem_signers, byteAt_alter by lia. pose proof (Z.mod_pos_bound z 8 ltac:(lia)) as Hm.
  pose proof (Z.mod_pos_bound (Z.of_nat i) 8 ltac:(lia)) as Hmi. pose proof (Z.div_mod z 8 ltac:(lia)) as Hdz.
  pose proof (Z.div_mod (Z.of_nat i) 8 ltac:(lia)) as Hdi. pose proof (Nat2Z.inj_div i 8) as Hdn. change (Z.of_nat 8) with 8 in Hdn.
  case_decide as E0.
  - rewrite <- E0, Z.lor_spec, Z.shiftl_1_l, orb_true_iff. split.
    + intros [Hz [Ht|Ht]]; [by left|right]. destruct (decide (z mod 8 = Z.of_nat i mod 8)) as [Em|Hne]; [|by rewrite Z.pow2_bits_false in Ht by done].
      assert (z / 8 = Z.of_nat i / 8) by (pose proof (Z.div_pos z 8 Hz ltac:(lia)); lia). lia.
    + intros [[Hz Ht]| ->]; [by auto|]. split; [lia|]. right. by rewrite Z.pow2_bits_true by lia.
  - split; [by left|]. intros [?| ->]; [done|]. destruct E0. rewrite <- Hdn. by rewrite Nat2Z.id.
Qed.

Lemma participants_signers provers voters z :
  z ∈ signers (participants provers voters) <->
  exists i p, provers !! i = Some p /\ z = Z.of_nat i /\ ProverInfo.Address p ∈ voters.
Proof.
  unfold participants. set (f := fun (mask : bytes) '(i, p) => _).
  assert (forall l mask, (forall i p, (i, p) ∈ l -> (i / 8 < length mask)%nat) -> z ∈ signers (foldl f mask l) <->
            z ∈ signers mask \/ exists i p, (i, p) ∈ l /\ z = Z.of_nat i /\ ProverInfo.Address p ∈ voters) as Hf.
  { induction l as [|[i p] l IH]; intros mask Hl; cbn [foldl]; [set_solver|]. rewrite IH.
    - unfold f at 1. case_bool_decide as Hv.
      + rewrite signers_alter by (apply (Hl i p); left). set_solver.
      + set_solver.
    - intros j q Hj. unfold f. case_bool_decide; rewrite ?length_alter; apply (Hl j q); by right. }
  rewrite Hf.
  - split.
    + intros [Hz|(i & p & Hin & -> & Hv)].
      * exfalso. apply elem_signers in Hz as [_ Ht]. unfold byteAt in Ht.
        destruct (_ !! _) as [b|] eqn:Eb; [apply lookup_replicate in Eb as [-> _]|]; by rewrite Z.bits_0 in Ht.
      * apply elem_of_lookup_imap in Hin as (i' & p' & [= -> ->] & Hi). eauto.
    + intros (i & p & Hi & -> & Hv). right. exists i, p. split; [|done]. apply elem_of_lookup_imap. eauto.
  - intros i p Hin. apply elem_of_lookup_imap in Hin as (i' & p' & [= -> ->] & Hi). apply lookup_lt_Some in Hi.
    rewrite length_replicate. apply Nat.Div0.div_lt_upper_bound. pose proof (Nat.div_mod (length provers + 7) 8 ltac:(lia)).
    pose proof (Nat.mod_upper_bound (length provers + 7) 8 ltac:(lia)). lia.
Qed.

(** ** The keys of the participants *)

Lemma concat_imap_filter {A B} (f : A -> B) (P : A -> Prop) `{!forall x, Decision (P x)} (q : nat -> bool) l :
  (forall i x, l !! i = Some x -> q i = true <-> P x) ->
  concat (imap (fun i x => if q i then [f x] else []) l) = f <$> filter P l.
Proof.
  revert q. induction l as [|x l IH]; intros q Hq; [done|]. rewrite imap_cons. cbn [concat]. rewrite filter_cons.
  pose proof (Hq 0%nat x eq_refl) as H0. specialize (IH (q ∘ S) (fun i y => Hq (S i) y)). unfold compose in *. rewrite IH.
  case_decide as Hp; [rewrite (proj2 H0 Hp)|destruct (q 0%nat); [by destruct Hp; apply H0|]]; done.
Qed.

Lemma memberKeys_participants provers voters :
  (length provers <= 256)%nat ->
  memberKeys (GetSetBitIndices (participants provers voters)) provers =
  ProverInfo.PublicKey <$> filter (fun p => ProverInfo.Address p ∈ voters) provers.
Proof.
  intros Hlen. apply (concat_imap_filter ProverInfo.PublicKey (fun p => ProverInfo.Address p ∈ voters)
    (fun i => bool_decide (u8 (Z.of_nat i) ∈ GetSetBitIndices (participants provers voters)))).
  assert (forall i, (i < length provers)%nat -> u8 (Z.of_nat i) = Z.of_nat i) as Hu.
  { intros i Hi. apply uwrap_small. unfold is_u. lia. }
  intros i p Hi. rewrite bool_decide_eq_true. unfold GetSetBitIndices. rewrite list_elem_of_fmap. pose proof (lookup_lt_Some _ _ _ Hi) as Hlt.
  rewrite Hu by done. split.
  - intros (z & Ez & Hz). apply participants_signers in Hz as (j & p' & Hj & -> & Hv). rewrite Hu in Ez by (eapply lookup_lt_Some; exact Hj).
    assert (j = i) as -> by lia. congruence.
  - intros Hv. exists (Z.of_nat i). rewrite Hu by done. split; [done|]. apply participants_signers. eauto.
Qed.

Lemma keyOf_spec provers p :
  NoDup (ProverInfo.Address <$> provers) -> p ∈ provers -> keyOf provers (ProverInfo.Address p) = ProverInfo.PublicKey p.
Proof.
  unfold keyOf. generalize (@nil byte). induction provers as [|q provers IH]; intros acc Hnd Hp; [by apply elem_of_nil in Hp|].
  rewrite fmap_cons in Hnd. apply NoDup_cons in Hnd as [Hq Hnd]. cbn [foldl]. apply elem_of_cons in Hp as [->|Hp]; [|by apply IH].
  rewrite bool_decide_true by done. clear IH Hnd. induction provers as [|r provers IH]; [done|]. cbn [foldl].
  rewrite fmap_cons, not_elem_of_cons in Hq. destruct Hq as [Hne Hq]. rewrite bool_decide_false by congruence. by apply IH.
Qed.

Lemma NoDup_fmap_filter {A B} (f : A -> B) (P : A -> Prop) `{!forall x, Decision (P x)} l : NoDup (f <$> l) -> NoDup (f <$> filter P l).
Proof.
  induction l as [|x l IH]; [done|]. rewrite fmap_cons, NoDup_cons, filter_cons. intros [Hx Hnd]. case_decide; [|by apply IH].
  rewrite fmap_cons. constructor; [|by apply IH]. rewrite list_elem_of_fmap in *. intros (y & Ey & Hy%list_elem_of_filter). apply Hx. exists y. naive_solver.
Qed.

(** The keys of the voters are those of the participants, in another order. *)
Lemma voter_keys provers voters :
  NoDup (ProverInfo.Address <$> provers) -> NoDup voters -> (forall a, a ∈ voters -> a ∈ ProverInfo.Address <$> provers) ->
  keyOf provers <$> voters ≡ₚ ProverInfo.PublicKey <$> filter (fun p => ProverInfo.Address p ∈ voters) provers.
Proof.
  intros Hnd Hv Hin. assert (ProverInfo.Address <$> filter (fun p => ProverInfo.Address p ∈ voters) provers ≡ₚ voters) as Hperm.
  { apply NoDup_Permutation; [|done|].
    - by apply NoDup_fmap_filter.
    - intros a. rewrite list_elem_of_fmap. setoid_rewrite list_elem_of_filter. split; [by intros (p & -> & Hp & _)|].
      intros Ha. pose proof (Hin a Ha) as (p & -> & Hp)%list_elem_of_fmap. eauto. }
  rewrite <- Hperm at 1. rewrite <- list_fmap_compose. erewrite list_fmap_ext; [reflexivity|]. intros i p Hi. cbn.
  apply list_elem_of_lookup_2, list_elem_of_filter in Hi as [_ Hi]. by apply keyOf_spec.
Qed.

(** ** Which proposal wins *)

(** The address in the signature of a vote. *)
Definition voter (v : FrameVote.t) : option bytes :=
  BLS48581AddressedSignature.Address <$> FrameVote.PublicKeySignatureBls48581 v.

Section wins.
Context `{E : Environment} `{F : FrameCrypto}.

Lemma mostVotes_spec votes proposals winnerCount chosen r :
  0 <= winnerCount -> (forall c, chosen = Some c -> winnerCount = voteCount votes c.2) ->
  mostVotes votes winnerCount chosen proposals = Ok r ->
  (r = chosen \/ exists p a, r = Some (p, a) /\ p ∈ proposals /\ proposerOf p = Ok a /\ winnerCount < voteCount votes a) /\
  forall q b, q ∈ proposals -> proposerOf q = Ok b ->
    voteCount votes b <= from_option (voteCount votes ∘ snd) winnerCount r.
Proof.
  revert winnerCount chosen. induction proposals as [|p proposals IH]; intros w chosen Hw Hc; cbn [mostVotes].
  { intros [= <-]. split; [by left|]. by intros q b Hq%elem_of_nil. }
  intros Hm. apply result_bind_Ok in Hm as (a & Ha & Hm). destruct (Z.ltb_spec w (voteCount votes a)) as [Hlt|Hge].
  - apply IH in Hm as [Hr Hmax]; [|lia|by intros c [= <-]]. assert (voteCount votes a <= from_option (voteCount votes ∘ snd) w r) as Hp.
    { destruct Hr as [->|(p' & a' & -> & _ & _ & ?)]; cbn; lia. }
    split.
    + right. destruct Hr as [->|(p' & a' & -> & Hin & Ha' & ?)]; [exists p, a|exists p', a']; split_and!; try done; try set_solver; lia.
    + intros q b [->|Hq]%elem_of_cons Hb; [congruence|]. specialize (Hmax q b Hq Hb). destruct r; cbn in *; lia.
  - apply IH in Hm as [Hr Hmax]; [|done..]. split; [set_solver|]. intros q b [->|Hq]%elem_of_cons Hb; [|by eapply Hmax].
    assert (a = b) as <- by congruence. destruct Hr as [->|(p' & a' & -> & _ & _ & ?)]; [|cbn; lia].
    destruct chosen as [c|]; cbn; [|lia]. by rewrite <- Hc.
Qed.

(** The votes that count for a proposal. *)
Definition supports (frameNumber : Z) (proposer : bytes) (v : FrameVote.t) : Prop :=
  FrameVote.FrameNumber v = frameNumber /\ FrameVote.Proposer v = proposer.

#[export] Instance supports_dec n a v : Decision (supports n a v).
Proof. unfold supports. apply _. Defined.

Lemma votesFor_spec n a votes sigs :
  votesFor n a votes = Ok sigs -> FrameVote.PublicKeySignatureBls48581 <$> filter (supports n a) votes = Some <$> sigs.
Proof.
  revert sigs. induction votes as [|v votes IH]; intros sigs; cbn [votesFor]; [by intros [= <-]|]. rewrite filter_cons.
  destruct (Z.eqb_spec (FrameVote.FrameNumber v) n) as [En|Hn]; cbn [negb orb].
  - case_bool_decide as Ep; cbn [negb].
    + rewrite decide_True by done. destruct (FrameVote.PublicKeySignatureBls48581 v) as [sig|] eqn:Es; [|done]. intros Hs.
      apply result_bind_Ok in Hs as (sigs' & Hs & [= <-]). rewrite !fmap_cons, Es. f_equal. by apply IH.
    + rewrite decide_False by (intros []; done). apply IH.
  - rewrite decide_False by (intros []; done). apply IH.
Qed.

Lemma votesFor_voters n a votes sigs :
  votesFor n a votes = Ok sigs -> voter <$> filter (supports n a) votes = Some <$> (BLS48581AddressedSignature.Address <$> sigs).
Proof.
  intros Hs%votesFor_spec. apply (f_equal (fmap (fmap BLS48581AddressedSignature.Address))) in Hs.
  rewrite <- !list_fmap_compose in *. exact Hs.
Qed.

(** What FinalizeVotes returns, when the votes name their proposers. *)
Lemma finalize_Ok provers proposals proposals' votes frame proposer :
  (forall v, v ∈ votes -> FrameVote.Proposer v <> []) ->
  FinalizeVotes (Ok provers) proposals proposals' votes = Ok (frame, proposer) ->
  exists proposal h sigs s k, proposal ∈ proposals /\ GlobalFrame.Header proposal = Some h /\ proposerOf proposal = Ok proposer /\
    (forall q b, q ∈ proposals -> proposerOf q = Ok b -> voteCount votes b <= voteCount votes proposer) /\
    votesFor (GlobalFrameHeader.FrameNumber h) proposer votes = Ok sigs /\ sigs <> [] /\
    let voters := BLS48581AddressedSignature.Address <$> sigs in
    Aggregate (keyOf provers <$> voters) (BLS48581AddressedSignature.Signature <$> sigs) = Ok (k, s) /\
    frame = finalized h (GlobalFrame.Requests proposal) s k (participants provers voters).
Proof.
  intros Hne Hf. unfold FinalizeVotes in Hf. apply result_bind_Ok in Hf as (w & Hw & Hf).
  apply mostVotes_spec in Hw as [Hr Hmax]; [|done..]. destruct w as [[proposal a]|].
  - destruct Hr as [?|(p & b & [= <- <-] & Hin & Ha & _)]; [done|]. cbn [mbind result_bind] in Hf.
    destruct (GlobalFrame.Header proposal) as [h|] eqn:Eh; [|by case_bool_decide].
    apply result_bind_Ok in Hf as (sigs & Hs & Hf). case_bool_decide as Hnil; [done|].
    apply result_bind_Ok in Hf as ([k s] & Hagg & Hf). injection Hf as <- <-. rewrite list_fmap_compose in Hagg.
    exists proposal, h, sigs, s, k. split_and!; try done.
  - exfalso. destruct (last proposals') as [p|]; [|done]. cbn [fmap option_fmap option_map mbind result_bind] in Hf.
    destruct (GlobalFrame.Header p) as [h|]; [|by case_bool_decide]. apply result_bind_Ok in Hf as (sigs & Hs & Hf).
    apply votesFor_spec in Hs. destruct sigs as [|sig sigs]; [by rewrite bool_decide_true in Hf|].
    destruct (filter _ votes) as [|v l] eqn:Ev; [done|]. assert (v ∈ filter (supports (GlobalFrameHeader.FrameNumber h) []) votes) as Hv by (rewrite Ev; left).
    apply list_elem_of_filter in Hv as [[_ Hp] Hv]. by apply (Hne v).
Qed.
End wins.

(** What is assumed of the aggregation: the key does not depend on the signatures nor on the
    order of the keys, and the results have their lengths. *)
Class AggregateLaws `(F : FrameCrypto) : Prop := {
  aggregate_perm keys keys' sigs sigs' k s :
    keys ≡ₚ keys' -> length keys = length sigs -> length keys' = length sigs' ->
    Aggregate keys sigs = Ok (k, s) -> exists s', Aggregate keys' sigs' = Ok (k, s');
  aggregate_length keys sigs k s :
    keys <> [] -> length keys = length sigs -> Aggregate keys sigs = Ok (k, s) -> length k = 585%nat /\ length s = 74%nat
}.

(** ** A finalised frame is valid *)

Section valid.
Context `{E : Environment} `{F : FrameCrypto} `{!AggregateLaws F}.

Lemma finalized_aggregate provers voters sigs k s throwaway :
  NoDup (ProverInfo.Address <$> provers) -> (length provers <= 256)%nat -> NoDup voters ->
  (forall a, a ∈ voters -> a ∈ ProverInfo.Address <$> provers) -> length voters = length sigs ->
  Aggregate (keyOf provers <$> voters) sigs = Ok (k, s) ->
  checkAggregate (GetSetBitIndices (participants provers voters)) provers throwaway k = Ok true.
Proof.
  intros Hnd Hlen Hv Hin Hs Ha. apply checkAggregate_Ok. cbn zeta. rewrite memberKeys_participants by done.
  eapply aggregate_perm; [by apply voter_keys|by rewrite length_fmap|by rewrite length_replicate|exact Ha].
Qed.

(** A header keeps what was verified of it under another signature of the right lengths. *)
Lemma verify_finalized h requests k s mask bits :
  VerifyGlobalFrameHeader h = Ok bits -> length k = 585%nat -> length s = 74%nat ->
  exists h', GlobalFrame.Header (finalized h requests s k mask) = Some h' /\ VerifyGlobalFrameHeader h' = Ok (GetSetBitIndices mask).
Proof.
  intros Hv Hk Hs. eexists. split; [done|]. destruct h as [n t d o p cs r sg]. revert Hv. unfold VerifyGlobalFrameHeader.
  destruct (hasSignature _); [|done]. cbn. rewrite Hk, Hs. cbn.
  destruct (length cs =? 256)%nat; [|done]. destruct (forallb rootLength cs); [|done]. destruct (rootLength r); [|done]. cbn.
  intros Hv. apply result_bind_Ok in Hv as (payload & Hp & Hv). unfold GetGlobalFrameSignaturePayload, globalInput in *. cbn in *.
  rewrite Hp. cbn. by destruct (WesolowskiVerify _ _ _).
Qed.

Lemma global_validate_finalized provers proposal h s k mask :
  GlobalFrame.Header proposal = Some h -> GlobalValidate (Ok provers) proposal = Ok true -> length k = 585%nat -> length s = 74%nat ->
  (forall throwaway, checkAggregate (GetSetBitIndices mask) provers throwaway k = Ok true) ->
  GlobalValidate (Ok provers) (finalized h (GlobalFrame.Requests proposal) s k mask) = Ok true.
Proof.
  intros Hh Hv Hk Hs Hc. revert Hv. unfold GlobalValidate. rewrite Hh. unfold finalized. cbn [GlobalFrame.Header GlobalFrameHeader.Output GlobalFrameHeader.FrameNumber
    GlobalFrameHeader.PublicKeySignatureBls48581 BLS48581AggregateSignature.PublicKey BLS48581G2PublicKey.KeyValue].
  destruct (negb _); [done|]. destruct (_ =? 0); [done|]. destruct (GlobalFrameHeader.PublicKeySignatureBls48581 h) as [sig|]; [|done].
  destruct (BLS48581AggregateSignature.PublicKey sig) as [key|]; [|done]. intros Hv. apply result_bind_Ok in Hv as (bits & Hb & Hv).
  apply result_bind_Ok in Hv as (throwaway & Ht & _).
  destruct (verify_finalized h (GlobalFrame.Requests proposal) k s mask bits Hb Hk Hs) as (h' & [= Eh] & Hb'). rewrite Eh, Hb', Ht. cbn [mbind result_bind].
  apply Hc.
Qed.

(** C26: a frame that FinalizeVotes makes out of valid proposals passes the validation of the
    other provers, when the votes are from distinct active provers, of which there are at
    most 256.  It is one of the proposals up to its signature, no proposal has more votes,
    and the provers in its mask are those who voted for it. *)
Theorem finalized_validates provers proposals proposals' votes frame proposer :
  NoDup (ProverInfo.Address <$> provers) -> (length provers <= 256)%nat ->
  (forall p, p ∈ proposals -> GlobalValidate (Ok provers) p = Ok true) ->
  (forall v, v ∈ votes -> FrameVote.Proposer v <> [] /\ exists a, voter v = Some a /\ a ∈ ProverInfo.Address <$> provers) ->
  NoDup (voter <$> votes) ->
  FinalizeVotes (Ok provers) proposals proposals' votes = Ok (frame, proposer) ->
  GlobalValidate (Ok provers) frame = Ok true /\
  exists proposal h h' sig, proposal ∈ proposals /\ GlobalFrame.Header proposal = Some h /\ GlobalFrame.Header frame = Some h' /\
    unsigned h' = unsigned h /\ GlobalFrame.Requests frame = GlobalFrame.Requests proposal /\
    proposerOf proposal = Ok proposer /\
    (forall q b, q ∈ proposals -> proposerOf q = Ok b -> voteCount votes b <= voteCount votes proposer) /\
    GlobalFrameHeader.PublicKeySignatureBls48581 h' = Some sig /\
    forall z, z ∈ signers (BLS48581AggregateSignature.Bitmask sig) <->
      exists i p v, provers !! i = Some p /\ z = Z.of_nat i /\ v ∈ votes /\
        supports (GlobalFrameHeader.FrameNumber h) proposer v /\ voter v = Some (ProverInfo.Address p).
Proof.
  intros Hnd Hlen Hprop Hvotes Hvnd Hf.
  apply finalize_Ok in Hf as (proposal & h & sigs & s & k & Hin & Hh & Ha & Hmax & Hs & Hne & Hagg & ->); [|intros v Hv; by apply Hvotes].
  pose proof (votesFor_voters _ _ _ _ Hs) as Hvs. set (voters := BLS48581AddressedSignature.Address <$> sigs) in *.
  assert (forall a, a ∈ voters <-> exists v, v ∈ votes /\ supports (GlobalFrameHeader.FrameNumber h) proposer v /\ voter v = Some a) as Hmem.
  { intros a. transitivity (Some a ∈ Some <$> voters); [rewrite list_elem_of_fmap; naive_solver|]. rewrite <- Hvs, list_elem_of_fmap.
    setoid_rewrite list_elem_of_filter. naive_solver. }
  assert (NoDup voters) as Hndv.
  { apply (NoDup_fmap_1 Some). rewrite <- Hvs. by apply NoDup_fmap_filter. }
  destruct (aggregate_length (keyOf provers <$> voters) (BLS48581AddressedSignature.Signature <$> sigs) k s) as [Hk Hsl]; [|by unfold voters; rewrite !length_fmap|done|].
  { unfold voters. by destruct sigs. }
  split.
  - apply global_validate_finalized; try done; [by apply Hprop|]. intros throwaway.
    eapply (finalized_aggregate _ _ (BLS48581AddressedSignature.Signature <$> sigs)); [done..| |by unfold voters; rewrite !length_fmap|exact Hagg].
    intros a (v & Hv & _ & Hva)%Hmem. destruct (Hvotes v Hv) as (_ & a' & Ea' & Ha'). congruence.
  - eexists proposal, h, _, _. split_and!; try done. intros z. cbn [BLS48581AggregateSignature.Bitmask]. rewrite participants_signers. setoid_rewrite Hmem. naive_solver.
Qed.
End valid.
