(* ===== verification/GlobalMessages.v ===== *)
(** * Messages of the global engine (node/consensus/global/message_validation.go,
    message_processors.go and message_subscription.go)

    What the engine does with a gossip message: the validator of its topic decides whether it
    is accepted, and an accepted message is handled by the goroutine of its queue.  The state
    is the frames the engine keeps, the lock on them, the requests collected for execution and
    the calls made to the other components, in order; the results of these calls are only
    logged.  The registry's answers, the clock and the order in which the map of frames is
    visited are arguments.  A handler recovers from its panics, a validator does not.  Peer
    information is left out, as are the bounds of the queues.  Byte slices are not nil. *)

From S2P Require Import Prelude Wire CanonicalTypes Keys Frames Messages ForkChoice Stateful GlobalTimeReel FrameProver FrameValidator Voting.

Inductive ValidationResult := ValidationResultAccept | ValidationResultReject | ValidationResultIgnore.

(** The first four bytes, if there are that many. *)
Definition typePrefix (data : bytes) : option Z := if (length data <? 4)%nat then None else Some (be_val (take 4 data)).

(** Continues with a value, and rejects the message on an error. *)
Definition orReject {A} (r : result A) (k : A -> result ValidationResult) : result ValidationResult :=
  match r with
  | Ok a => k a
  | Err _ => Ok ValidationResultReject
  | Panic => Panic
  | Diverge => Diverge
  end.

(** time.Since(time.UnixMilli(timestamp)) exceeds 20 seconds; the clock is in nanoseconds. *)
Definition stale (now timestamp : Z) : bool := 20 * 10 ^ 9 <? now - timestamp * 10 ^ 6.

Section validation.
Context `{Environment} `{FrameCrypto}.
Context (activeProvers : result (list ProverInfo.t)) (shardProvers : bytes -> result (list ProverInfo.t)) (now : Z).
Context (ed448Verify : bytes -> bytes -> bytes -> bool) (alertPublicKey : bytes).

(** The checks on a decoded frame; its header is dereferenced. *)
Definition validateGlobalFrame (frame : GlobalFrame.t) (accepted : result ValidationResult) : result ValidationResult :=
  match GlobalFrame.Header frame with
  | None => Panic
  | Some h =>
    match GlobalFrameHeader.PublicKeySignatureBls48581 h with
    | None => Ok ValidationResultReject
    | Some sig =>
      match BLS48581AggregateSignature.PublicKey sig with
      | None => Ok ValidationResultReject
      | Some _ => orReject (GlobalValidate activeProvers frame) (fun valid => if valid then accepted else Ok ValidationResultReject)
      end
    end
  end.

Definition validateGlobalConsensusMessage (data : bytes) : result ValidationResult :=
  match typePrefix data with
  | None => Ok ValidationResultReject
  | Some t =>
    if t =? GlobalFrameType then
      orReject (GlobalFrame.FromCanonicalBytes data) (fun frame => validateGlobalFrame frame (Ok ValidationResultAccept))
    else if t =? ProverLivenessCheckType then
      orReject (ProverLivenessCheck.FromCanonicalBytes data) (fun check =>
      orReject (ProverLivenessCheck.Validate (Some check)) (fun _ => Ok ValidationResultAccept))
    else if t =? FrameVoteType then
      orReject (FrameVote.FromCanonicalBytes data) (fun vote =>
      orReject (FrameVote.Validate (Some vote)) (fun _ => Ok ValidationResultAccept))
    else if t =? FrameConfirmationType then
      orReject (FrameConfirmation.FromCanonicalBytes data) (fun confirmation =>
      orReject (FrameConfirmation.Validate (Some confirmation)) (fun _ => Ok ValidationResultAccept))
    else Ok ValidationResultIgnore
  end.

Definition validateProverMessage (data : bytes) : result ValidationResult :=
  match typePrefix data with
  | None => Ok ValidationResultReject
  | Some t =>
    if t =? MessageBundleType then
      orReject (MessageBundle.FromCanonicalBytes data) (fun bundle =>
      orReject (MessageBundle.Validate (Some bundle)) (fun _ =>
        let nowMillis := now / 10 ^ 6 in
        if (nowMillis + 5000 <? MessageBundle.Timestamp bundle) || (MessageBundle.Timestamp bundle <? nowMillis - 5000)
        then Ok ValidationResultIgnore else Ok ValidationResultAccept))
    else Ok ValidationResultIgnore
  end.

Definition validateAppFrameMessage (data : bytes) : result ValidationResult :=
  match typePrefix data with
  | None => Ok ValidationResultReject
  | Some t =>
    if t =? AppShardFrameType then
      orReject (AppShardFrame.FromCanonicalBytes data) (fun frame =>
        match AppShardFrame.Header frame with
        | None => Panic
        | Some h =>
          match FrameHeader.PublicKeySignatureBls48581 h with
          | None => Ok ValidationResultReject
          | Some sig =>
            match BLS48581AggregateSignature.PublicKey sig with
            | None => Ok ValidationResultReject
            | Some _ =>
              orReject (AppValidate shardProvers frame) (fun valid =>
                if negb valid then Ok ValidationResultReject
                else if stale now (FrameHeader.Timestamp h) then Ok ValidationResultIgnore
                else Ok ValidationResultAccept)
            end
          end
        end)
    else Ok ValidationResultReject
  end.

Definition validateFrameMessage (data : bytes) : result ValidationResult :=
  match typePrefix data with
  | None => Ok ValidationResultReject
  | Some t =>
    if t =? GlobalFrameType then
      orReject (GlobalFrame.FromCanonicalBytes data) (fun frame =>
        validateGlobalFrame frame
          (match GlobalFrame.Header frame with
           | None => Panic
           | Some h => if stale now (GlobalFrameHeader.Timestamp h) then Ok ValidationResultIgnore else Ok ValidationResultAccept
           end))
    else Ok ValidationResultIgnore
  end.

Definition stringAlert : bytes :=
  [Byte.x47; Byte.x4c; Byte.x4f; Byte.x42; Byte.x41; Byte.x4c; Byte.x5f; Byte.x41; Byte.x4c; Byte.x45; Byte.x52; Byte.x54].

Definition validateAlertMessage (data : bytes) : result ValidationResult :=
  match typePrefix data with
  | None => Ok ValidationResultReject
  | Some t =>
    if t =? GlobalAlertType then
      orReject (GlobalAlert.FromCanonicalBytes data) (fun alert =>
      orReject (GlobalAlert.Validate (Some alert)) (fun _ =>
        if ed448Verify alertPublicKey (stringAlert ++ GlobalAlert.Message alert) (GlobalAlert.Signature alert)
        then Ok ValidationResultAccept else Ok ValidationResultReject))
    else Ok ValidationResultIgnore
  end.
End validation.

(** ** The state *)

Record GlobalCollectedCommitments := mkCollected { frameNumber : Z; commitmentHash : bytes; prover : bytes }.

(** Calls to the state machine, the time reel and the event distributor. *)
Inductive call :=
| ReceiveProposal (peer : bytes) (frame : GlobalFrame.t)
| ReceiveLivenessCheck (peer : bytes) (commitment : GlobalCollectedCommitments)
| ReceiveVote (proposer voter : bytes) (vote : FrameVote.t)
| ReceiveConfirmation (peer : bytes) (frame : GlobalFrame.t)
| InsertFrame (frame : GlobalFrame.t)
| EmitAlert (message : bytes).

(** sync.RWMutex, as the goroutine that handles the messages sees it. *)
Record RWMutex := mkMutex { readers : nat; writer : bool }.

Record engine := mkEngine {
  frameStore : gmap bytes GlobalFrame.t;
  appFrameStore : gmap bytes AppShardFrame.t;
  pendingMessages : list bytes;
  frameStoreMu : RWMutex;
  calls : list call
}.

Definition set_frameStore x e := mkEngine x (appFrameStore e) (pendingMessages e) (frameStoreMu e) (calls e).
Definition set_appFrameStore x e := mkEngine (frameStore e) x (pendingMessages e) (frameStoreMu e) (calls e).
Definition set_pendingMessages x e := mkEngine (frameStore e) (appFrameStore e) x (frameStoreMu e) (calls e).
Definition set_frameStoreMu x e := mkEngine (frameStore e) (appFrameStore e) (pendingMessages e) x (calls e).
Definition set_calls x e := mkEngine (frameStore e) (appFrameStore e) (pendingMessages e) (frameStoreMu e) x.

Abbreviation handler := (M engine unit).

Definition perform (c : call) : handler := modify (fun e => set_calls (calls e ++ [c]) e).

(** Taking a lock that is never released does not return. *)
Definition RLock : handler := fun e =>
  if writer (frameStoreMu e) then (Diverge, e)
  else (Ok tt, set_frameStoreMu (mkMutex (S (readers (frameStoreMu e))) false) e).
Definition RUnlock : handler := modify (fun e => set_frameStoreMu (mkMutex (pred (readers (frameStoreMu e))) (writer (frameStoreMu e))) e).
Definition Lock : handler := fun e =>
  if writer (frameStoreMu e) || (0 <? readers (frameStoreMu e))%nat then (Diverge, e)
  else (Ok tt, set_frameStoreMu (mkMutex 0 true) e).
Definition Unlock : handler := modify (fun e => set_frameStoreMu (mkMutex (readers (frameStoreMu e)) false) e).

(** Lock and defer Unlock: the lock is released also by a panic. *)
Definition unlockAfter (m : handler) : handler := fun e => let '(r, e) := m e in (r, (Unlock e).2).
Definition locked (m : handler) : handler := _ ← Lock; unlockAfter m.

Definition recover (m : handler) : handler := fun e =>
  match m e with
  | (Panic, e) => (Ok tt, e)
  | r => r
  end.

(** Continues with a value; an error is logged and the handler returns. *)
Definition orReturn {A} (r : result A) (k : A -> handler) : handler :=
  match r with
  | Ok a => k a
  | Err _ => mret tt
  | Panic => lift Panic
  | Diverge => lift Diverge
  end.

Definition peekMessageType (data : bytes) : Z := default 0 (typePrefix data).

(** The difference of the numbers of bits that are set. *)
Definition compareBits (b1 b2 : bytes) : Z := Z.of_nat (length (signers b1)) - Z.of_nat (length (signers b2)).

(** The key of the first prover with the address. *)
Definition findProver (provers : list ProverInfo.t) (address : bytes) : option bytes :=
  ProverInfo.PublicKey <$> List.find (fun p => bool_decide (ProverInfo.Address p = address)) provers.

Definition stringLiveness : bytes := [Byte.x6c; Byte.x69; Byte.x76; Byte.x65; Byte.x6e; Byte.x65; Byte.x73; Byte.x73].

Definition withSignature (sig : option BLS48581AggregateSignature.t) (h : GlobalFrameHeader.t) : GlobalFrameHeader.t :=
  GlobalFrameHeader.mk (GlobalFrameHeader.FrameNumber h) (GlobalFrameHeader.Timestamp h) (GlobalFrameHeader.Difficulty h)
    (GlobalFrameHeader.Output h) (GlobalFrameHeader.ParentSelector h) (GlobalFrameHeader.GlobalCommitments h)
    (GlobalFrameHeader.ProverTreeCommitment h) sig.

(** More than one bit of the mask is set. *)
Definition exceeds (mask : bytes) : bool := (1 <? length (signers mask))%nat.

Section handlers.
Context `{Environment} `{FrameCrypto}.
Context (network : Z) (activeProvers : result (list ProverInfo.t)) (shardProvers : bytes -> result (list ProverInfo.t)).

(** Whether the node takes part in the global consensus. *)
Definition participates : bool := (network =? 99) || archiveMode.

(** The order in which the stored frames are visited. *)
Context (range : gmap bytes GlobalFrame.t -> list GlobalFrame.t).

Definition storeFrame (h : GlobalFrameHeader.t) (frame : GlobalFrame.t) : handler :=
  _ ← Lock;
  _ ← modify (fun e => set_frameStore (<[computeGlobalPoseidonHash (GlobalFrameHeader.Output h) := frame]> (frameStore e)) e);
  Unlock.

Definition handleProposal (data : bytes) : handler :=
  orReturn (GlobalFrame.FromCanonicalBytes data) (fun frame =>
    match GlobalFrame.Header frame with
    | None => lift Panic
    | Some h =>
      _ ← storeFrame h frame;
      proposerAddress ← lift (proposerOf frame);
      if (0 <? length proposerAddress)%nat then perform (ReceiveProposal proposerAddress frame) else mret tt
    end).

Definition handleLivenessCheck (data : bytes) : handler :=
  orReturn (ProverLivenessCheck.FromCanonicalBytes data) (fun check =>
  orReturn (ProverLivenessCheck.Validate (Some check)) (fun _ =>
  orReturn activeProvers (fun proverSet =>
    match ProverLivenessCheck.PublicKeySignatureBls48581 check with
    | None => lift Panic
    | Some sig =>
      let address := BLS48581AddressedSignature.Address sig in
      match findProver proverSet address with
      | None => mret tt
      | Some found =>
        let signatureData := replicate 32 Byte.x00 ++ be 8 (ProverLivenessCheck.FrameNumber check)
            ++ ProverLivenessCheck.CommitmentHash check ++ be 8 (u64 (ProverLivenessCheck.Timestamp check)) in
        if VerifySignatureRaw found (BLS48581AddressedSignature.Signature sig) signatureData stringLiveness
        then perform (ReceiveLivenessCheck address
               (mkCollected (ProverLivenessCheck.FrameNumber check) (ProverLivenessCheck.CommitmentHash check) address))
        else mret tt
      end
    end))).

(** The first stored frame with the number and the proposer of the vote. *)
Fixpoint findProposal (frames : list GlobalFrame.t) (vote : FrameVote.t) : result (option GlobalFrameHeader.t) :=
  match frames with
  | [] => Ok None
  | frame :: frames =>
    match GlobalFrame.Header frame with
    | None => findProposal frames vote
    | Some h =>
      if negb (GlobalFrameHeader.FrameNumber h =? FrameVote.FrameNumber vote) then findProposal frames vote
      else
        proposer ← proposerOf frame;
        if bool_decide (proposer = FrameVote.Proposer vote) then Ok (Some h) else findProposal frames vote
    end
  end.

Definition handleVote (data : bytes) : handler :=
  orReturn (FrameVote.FromCanonicalBytes data) (fun vote =>
  orReturn (FrameVote.Validate (Some vote)) (fun _ =>
    match FrameVote.PublicKeySignatureBls48581 vote with
    | None => mret tt
    | Some sig =>
      orReturn activeProvers (fun proverSet =>
        match findProver proverSet (BLS48581AddressedSignature.Address sig) with
        | None => mret tt
        | Some voterPublicKey =>
          _ ← RLock;
          store ← gets frameStore;
          proposal ← lift (findProposal (range store) vote);
          _ ← RUnlock;
          match proposal with
          | None => mret tt
          | Some h =>
            orReturn (GetGlobalFrameSignaturePayload h) (fun signatureData =>
              if VerifySignatureRaw voterPublicKey (BLS48581AddressedSignature.Signature sig) signatureData stringGlobal
              then perform (ReceiveVote (FrameVote.Proposer vote) (BLS48581AddressedSignature.Address sig) vote)
              else mret tt)
          end
        end)
    end)).

Definition handleMessageBundle (data : bytes) : handler :=
  modify (fun e => set_pendingMessages (pendingMessages e ++ [data]) e).

(** The address of the key of the signature, or of the first prover in its mask. *)
Definition confirmingProver (sig : BLS48581AggregateSignature.t) : bytes :=
  let inMask := fun '(i, _) => negb (Z.land (byteAt (BLS48581AggregateSignature.Bitmask sig) (i / 8)%nat) (Z.shiftl 1 (Z.of_nat (i mod 8))) =? 0) in
  let fromMask :=
    match activeProvers with
    | Ok provers => default [] (ProverInfo.Address ∘ snd <$> List.find inMask (imap pair provers))
    | _ => []
    end in
  match BLS48581AggregateSignature.PublicKey sig with
  | Some key => if (0 <? length (BLS48581G2PublicKey.KeyValue key))%nat then getAddressFromPublicKey (BLS48581G2PublicKey.KeyValue key) else fromMask
  | None => fromMask
  end.

(** What is done with the frame of the confirmation, once its signature has been replaced. *)
Definition confirm (confirmation : FrameConfirmation.t) (frame : GlobalFrame.t) : handler :=
  match GlobalValidate activeProvers frame, GlobalFrame.Header frame ≫= GlobalFrameHeader.PublicKeySignatureBls48581, FrameConfirmation.AggregateSignature confirmation with
  | Ok true, Some frameSignature, Some aggregate =>
    if exceeds (BLS48581AggregateSignature.Bitmask frameSignature) then mret tt
    else
      let proposerAddress := confirmingProver frameSignature in
      if bool_decide (BLS48581AggregateSignature.Signature frameSignature = BLS48581AggregateSignature.Signature aggregate)
      then mret tt
      else
        _ ← (if (0 <? length proposerAddress)%nat then perform (ReceiveConfirmation proposerAddress frame) else mret tt);
        perform (InsertFrame frame)
  | Ok true, _, _ => lift Panic
  | Ok false, _, _ => mret tt
  | Err _, _, _ => mret tt
  | Panic, _, _ => lift Panic
  | Diverge, _, _ => lift Diverge
  end.

(** The identifiers of the map are unique, so the search for the selector is a lookup. *)
Definition handleConfirmation (data : bytes) : handler :=
  orReturn (FrameConfirmation.FromCanonicalBytes data) (fun confirmation =>
  orReturn (FrameConfirmation.Validate (Some confirmation)) (fun _ =>
    _ ← RLock;
    store ← gets frameStore;
    _ ← RUnlock;
    match store !! FrameConfirmation.Selector confirmation with
    | None => mret tt
    | Some frame =>
      match GlobalFrame.Header frame with
      | None => mret tt
      | Some h =>
        if negb (GlobalFrameHeader.FrameNumber h =? FrameConfirmation.FrameNumber confirmation) then mret tt
        else
          let frame := GlobalFrame.mk (Some (withSignature (FrameConfirmation.AggregateSignature confirmation) h)) (GlobalFrame.Requests frame) in
          locked (
            _ ← modify (fun e => set_frameStore (<[FrameConfirmation.Selector confirmation := frame]> (frameStore e)) e);
            confirm confirmation frame)
      end
    end)).

Definition handleGlobalConsensusMessage (data : bytes) : handler :=
  recover (
    let t := peekMessageType data in
    if t =? GlobalFrameType then handleProposal data
    else if t =? ProverLivenessCheckType then handleLivenessCheck data
    else if t =? FrameVoteType then handleVote data
    else if t =? FrameConfirmationType then handleConfirmation data
    else if t =? MessageBundleType then handleMessageBundle data
    else mret tt).

Definition handleProverMessage (data : bytes) : handler :=
  recover (if peekMessageType data =? MessageBundleType then handleMessageBundle data else mret tt).

Definition handleFrameMessage (data : bytes) : handler :=
  recover (
    if peekMessageType data =? GlobalFrameType then
      orReturn (GlobalFrame.FromCanonicalBytes data) (fun frame =>
        match GlobalFrame.Header frame with
        | None => lift Panic
        | Some h => _ ← storeFrame h frame; perform (InsertFrame frame)
        end)
    else mret tt).

(** Whether the frame kept for the shard is at least as good as the new one. *)
Definition keepsOld (old : AppShardFrame.t) (h : FrameHeader.t) : result bool :=
  match AppShardFrame.Header old with
  | None => Panic
  | Some o =>
    if FrameHeader.FrameNumber h <? FrameHeader.FrameNumber o then Ok true
    else if negb (FrameHeader.FrameNumber o =? FrameHeader.FrameNumber h) then Ok false
    else
      match FrameHeader.PublicKeySignatureBls48581 o, FrameHeader.PublicKeySignatureBls48581 h with
      | Some s, Some s' => Ok (0 <=? compareBits (BLS48581AggregateSignature.Bitmask s) (BLS48581AggregateSignature.Bitmask s'))
      | _, _ => Panic
      end
  end.

(** The result of the validation is only logged. *)
Definition handleAppFrameMessage (data : bytes) : handler :=
  recover (
    if participates then mret tt
    else if peekMessageType data =? AppShardFrameType then
      orReturn (AppShardFrame.FromCanonicalBytes data) (fun frame =>
      orReturn (match AppValidate shardProvers frame with Err _ => Ok false | r => r end) (fun _ =>
        locked (
          match AppShardFrame.Header frame with
          | None => lift Panic
          | Some h =>
            store ← gets appFrameStore;
            kept ← lift (match store !! FrameHeader.Address h with Some old => keepsOld old h | None => Ok false end);
            if (kept : bool) then mret tt
            else modify (fun e => set_appFrameStore (<[FrameHeader.Address h := frame]> (appFrameStore e)) e)
          end)))
    else mret tt).

Definition handleAlertMessage (data : bytes) : handler :=
  recover (
    if peekMessageType data =? GlobalAlertType then
      orReturn (GlobalAlert.FromCanonicalBytes data) (fun alert => perform (EmitAlert (GlobalAlert.Message alert)))
    else mret tt).

(** ** Topics *)

(** The topics a message arrives on: GLOBAL_CONSENSUS_BITMASK, the bitmasks of the shards,
    GLOBAL_FRAME_BITMASK, GLOBAL_PROVER_BITMASK and GLOBAL_ALERT_BITMASK. *)
Inductive topic := TopicConsensus | TopicShard | TopicFrame | TopicProver | TopicAlert.

Context (now : Z) (ed448Verify : bytes -> bytes -> bytes -> bool) (alertPublicKey : bytes).

Definition validate (t : topic) (data : bytes) : result ValidationResult :=
  match t with
  | TopicConsensus => validateGlobalConsensusMessage activeProvers data
  | TopicShard => validateAppFrameMessage shardProvers now data
  | TopicFrame => validateFrameMessage activeProvers now data
  | TopicProver => validateProverMessage now data
  | TopicAlert => validateAlertMessage ed448Verify alertPublicKey data
  end.

Definition process (t : topic) (data : bytes) : handler :=
  match t with
  | TopicConsensus => handleGlobalConsensusMessage data
  | TopicShard => handleAppFrameMessage data
  | TopicFrame => handleFrameMessage data
  | TopicProver => handleProverMessage data
  | TopicAlert => handleAlertMessage data
  end.

(** Only a participant is subscribed to the consensus and to the shards, and only it
    processes the requests to provers. *)
Definition subscribed (t : topic) : bool :=
  match t with
  | TopicConsensus | TopicShard => participates
  | TopicFrame | TopicProver | TopicAlert => true
  end.

Definition queued (t : topic) : bool := match t with TopicProver => participates | _ => true end.

(** A message is validated, and handled if it is accepted. *)
Definition receive (t : topic) (data : bytes) : handler :=
  if negb (subscribed t) then mret tt
  else
    verdict ← lift (validate t data);
    match verdict with
    | ValidationResultAccept => if queued t then process t data else mret tt
    | _ => mret tt
    end.
End handlers.
