(* ===== verification/GlobalMessagesSpec.v ===== *)
(** * What the handlers of the global engine guarantee

    Every call to the other components is justified by the checks before it, in every state
    the engine reaches; the two ways in which a peer without a key stops a node; and the
    votes that reach the state machine. *)

From S2P Require Import Prelude Wire CanonicalTypes Keys Frames Messages ForkChoice Stateful GlobalTimeReel FrameProver FrameValidator Voting GlobalMessages.

(** ** Invariants of handlers *)

(** However [m] ends, it leaves a state with [I]. *)
Definition preserves {A} (I : engine -> Prop) (m : M engine A) : Prop :=
  forall e, I e -> I (m e).2.

Section preserves.
Context (I : engine -> Prop).

Lemma preserves_ret {A} (a : A) : preserves I (mret a).
Proof. by intros e. Qed.

Lemma preserves_lift {A} (r : result A) : preserves I (lift r).
Proof. by intros e. Qed.

Lemma preserves_gets {A} (f : engine -> A) : preserves I (gets f).
Proof. by intros e. Qed.

Lemma preserves_bind {A B} (m : M engine A) (f : A -> M engine B) :
  preserves I m -> (forall a, preserves I (f a)) -> preserves I (m ≫= f).
Proof.
  intros Hm Hf e He. unfold mbind, M_bind. specialize (Hm e He). destruct (m e) as [[a| | |] e']; try done. by apply Hf.
Qed.

(** A value that was read is that of a state with [I]. *)
Lemma preserves_gets_bind {A B} (f : engine -> A) (k : A -> M engine B) :
  (forall e, I e -> preserves I (k (f e))) -> preserves I (gets f ≫= k).
Proof. intros Hk e He. by apply (Hk e He). Qed.

(** A value that was computed satisfies what its computation implies. *)
Lemma preserves_lift_bind {A B} (r : result A) (f : A -> M engine B) :
  (forall a, r = Ok a -> preserves I (f a)) -> preserves I (lift r ≫= f).
Proof. intros Hf e He. unfold mbind, M_bind, lift. destruct r as [a| | |]; try done. by apply (Hf a). Qed.

Lemma preserves_orReturn {A} (r : result A) (k : A -> handler) :
  (forall a, r = Ok a -> preserves I (k a)) -> preserves I (orReturn r k).
Proof. destruct r as [a| | |]; intros Hk; [by apply Hk|apply preserves_ret|apply preserves_lift..]. Qed.

Lemma preserves_recover m : preserves I m -> preserves I (recover m).
Proof. intros Hm e He. unfold recover. specialize (Hm e He). by destruct (m e) as [[| | |] e']. Qed.

(** The invariants below do not speak of the lock. *)
Hypothesis Hmu : forall e mu, I e -> I (set_frameStoreMu mu e).

Lemma preserves_RLock : preserves I RLock.
Proof. intros e He. unfold RLock. destruct (writer _); [done|]. by apply Hmu. Qed.

Lemma preserves_RUnlock : preserves I RUnlock.
Proof. intros e He. by apply Hmu. Qed.

Lemma preserves_Lock : preserves I Lock.
Proof. intros e He. unfold Lock. destruct (_ || _); [done|]. by apply Hmu. Qed.

Lemma preserves_Unlock : preserves I Unlock.
Proof. intros e He. by apply Hmu. Qed.

Lemma preserves_locked m : preserves I m -> preserves I (locked m).
Proof.
  intros Hm. apply preserves_bind; [apply preserves_Lock|]. intros _ e He. unfold unlockAfter. specialize (Hm e He).
  destruct (m e) as [r e']. by apply Hmu.
Qed.
End preserves.

(** Runs through a handler up to the steps that matter for the invariant. *)
Ltac handler_step :=
  match goal with
  | |- preserves _ (mret _) => apply preserves_ret
  | |- preserves _ (gets _) => apply preserves_gets
  | |- preserves _ (orReturn _ _) => apply preserves_orReturn; intros ? ?
  | |- preserves _ (lift _ ≫= _) => apply preserves_lift_bind; intros ? ?
  | |- preserves _ (lift _) => apply preserves_lift
  | |- preserves _ (gets _ ≫= _) => let st := fresh "st" in apply preserves_gets_bind; intros st ?
  | |- preserves _ (_ ≫= _) => apply preserves_bind; [|intros ?]
  | |- preserves _ (recover _) => apply preserves_recover
  | |- preserves _ RLock => apply preserves_RLock; [assumption]
  | |- preserves _ RUnlock => apply preserves_RUnlock; [assumption]
  | |- preserves _ Lock => apply preserves_Lock; [assumption]
  | |- preserves _ Unlock => apply preserves_Unlock; [assumption]
  | |- preserves _ (locked _) => apply preserves_locked; [assumption|]
  | |- preserves _ (if ?b then _ else _) => let E := fresh "E" in destruct b eqn:E
  | |- preserves _ (match ?x with _ => _ end) => let E := fresh "E" in destruct x eqn:E
  end.

(** ** Justified calls *)

Section justified.
Context `{E : Environment} `{F : FrameCrypto}.
Context (network : Z) (ed448Verify : bytes -> bytes -> bytes -> bool) (alertPublicKey : bytes).

(** A message that arrives, with what the registry answers, the order in which the stored
    frames are visited and the clock at that time. *)
Record reception := mkReception {
  registered : result (list ProverInfo.t);
  registeredFor : bytes -> result (list ProverInfo.t);
  visits : gmap bytes GlobalFrame.t -> list GlobalFrame.t;
  clock : Z;
  arrivedOn : topic;
  payload : bytes
}.

Definition receives (r : reception) : handler :=
  receive network (registered r) (registeredFor r) (visits r) (clock r) ed448Verify alertPublicKey (arrivedOn r) (payload r).

(** A vote of one of the provers, signed for one of the frames, of the proposer it names. *)
Definition signedVote (provers : list ProverInfo.t) (frames : list GlobalFrame.t) (vote : FrameVote.t) : Prop :=
  exists p sig frame h signed, p ∈ provers /\ FrameVote.PublicKeySignatureBls48581 vote = Some sig /\
    BLS48581AddressedSignature.Address sig = ProverInfo.Address p /\
    frame ∈ frames /\ GlobalFrame.Header frame = Some h /\ GlobalFrameHeader.FrameNumber h = FrameVote.FrameNumber vote /\
    proposerOf frame = Ok (FrameVote.Proposer vote) /\ GetGlobalFrameSignaturePayload h = Ok signed /\
    VerifySignatureRaw (ProverInfo.PublicKey p) (BLS48581AddressedSignature.Signature sig) signed stringGlobal = true.

(** What the engine in the state [e] has found out about the message [r] when it makes the
    call [c]. *)
Definition justified (r : reception) (e : engine) (c : call) : Prop :=
  match c with
  | ReceiveProposal peer frame =>
    GlobalFrame.FromCanonicalBytes (payload r) = Ok frame /\ GlobalValidate (registered r) frame = Ok true /\ proposerOf frame = Ok peer
  | ReceiveLivenessCheck peer commitment =>
    exists check sig provers p, ProverLivenessCheck.FromCanonicalBytes (payload r) = Ok check /\
      ProverLivenessCheck.PublicKeySignatureBls48581 check = Some sig /\ registered r = Ok provers /\ p ∈ provers /\
      ProverInfo.Address p = peer /\ BLS48581AddressedSignature.Address sig = peer /\
      commitment = mkCollected (ProverLivenessCheck.FrameNumber check) (ProverLivenessCheck.CommitmentHash check) peer /\
      VerifySignatureRaw (ProverInfo.PublicKey p) (BLS48581AddressedSignature.Signature sig)
        (replicate 32 Byte.x00 ++ be 8 (ProverLivenessCheck.FrameNumber check) ++ ProverLivenessCheck.CommitmentHash check
         ++ be 8 (u64 (ProverLivenessCheck.Timestamp check))) stringLiveness = true
  | ReceiveVote proposer v vote =>
    FrameVote.FromCanonicalBytes (payload r) = Ok vote /\ FrameVote.Validate (Some vote) = Ok tt /\
    FrameVote.Proposer vote = proposer /\ voter vote = Some v /\
    exists provers, registered r = Ok provers /\ signedVote provers (visits r (frameStore e)) vote
  | ReceiveConfirmation _ _ => False
  | InsertFrame frame =>
    exists h, GlobalFrame.FromCanonicalBytes (payload r) = Ok frame /\ GlobalFrame.Header frame = Some h /\
      GlobalValidate (registered r) frame = Ok true /\ stale (clock r) (GlobalFrameHeader.Timestamp h) = false
  | EmitAlert message =>
    exists alert, GlobalAlert.FromCanonicalBytes (payload r) = Ok alert /\ GlobalAlert.Message alert = message /\
      ed448Verify alertPublicKey (stringAlert ++ message) (GlobalAlert.Signature alert) = true
  end.

Section reception.
Context (r : reception) (e0 : engine).

(** The message has led to justified calls only. *)
Definition callsJustified (e : engine) : Prop :=
  (exists cs, calls e = calls e0 ++ cs /\ Forall (justified r e0) cs) /\ appFrameStore e = ∅.

(** Nor has it changed the stored frames. *)
Definition looksUp (e : engine) : Prop := callsJustified e /\ frameStore e = frameStore e0.

Lemma justified_mu e mu : callsJustified e -> callsJustified (set_frameStoreMu mu e).
Proof. done. Qed.

Lemma looksUp_mu e mu : looksUp e -> looksUp (set_frameStoreMu mu e).
Proof. done. Qed.

Lemma justified_perform c : justified r e0 c -> preserves callsJustified (perform c).
Proof.
  intros Hc e [(cs & Ecs & He) Ha]. split; [|done]. exists (cs ++ [c]). cbn. rewrite Ecs, app_assoc.
  split; [done|]. apply Forall_app. by split; [|constructor].
Qed.

Lemma looksUp_perform c : justified r e0 c -> preserves looksUp (perform c).
Proof. intros Hc e [He Hs]. split; [by apply justified_perform|done]. Qed.

Lemma storeFrame_justified h frame : preserves callsJustified (storeFrame h frame).
Proof. pose proof justified_mu. unfold storeFrame. repeat handler_step. by intros e. Qed.

Lemma findProver_spec provers address key :
  findProver provers address = Some key -> exists p, p ∈ provers /\ ProverInfo.Address p = address /\ ProverInfo.PublicKey p = key.
Proof.
  unfold findProver. destruct (List.find _ _) as [p|] eqn:Ef; [|done]. intros [= <-]. apply find_some in Ef as [Hin Ha].
  apply bool_decide_eq_true in Ha. exists p. by rewrite list_elem_of_In.
Qed.

Lemma findProposal_spec frames vote h :
  findProposal frames vote = Ok (Some h) ->
  exists frame, frame ∈ frames /\ GlobalFrame.Header frame = Some h /\ GlobalFrameHeader.FrameNumber h = FrameVote.FrameNumber vote /\
    proposerOf frame = Ok (FrameVote.Proposer vote).
Proof.
  induction frames as [|f frames IH]; [done|]. cbn [findProposal]. intros Hf.
  assert (findProposal frames vote = Ok (Some h) -> exists frame, frame ∈ f :: frames /\ GlobalFrame.Header frame = Some h /\
    GlobalFrameHeader.FrameNumber h = FrameVote.FrameNumber vote /\ proposerOf frame = Ok (FrameVote.Proposer vote)) as Hnext.
  { intros (frame & Hin & Hrest)%IH. exists frame. split; [by right|done]. }
  destruct (GlobalFrame.Header f) as [h'|] eqn:Eh; [|by apply Hnext].
  destruct (Z.eqb_spec (GlobalFrameHeader.FrameNumber h') (FrameVote.FrameNumber vote)) as [En|]; [|by apply Hnext].
  cbn [negb] in Hf. apply result_bind_Ok in Hf as (proposer & Hp & Hf). case_bool_decide as Ep; [|by apply Hnext].
  injection Hf as ->. subst proposer. exists f. split; [left|done].
Qed.

Lemma handleVote_justified :
  preserves looksUp (handleVote (registered r) (visits r) (payload r)).
Proof.
  pose proof looksUp_mu. unfold handleVote. repeat handler_step. apply looksUp_perform. cbn.
  match goal with E' : findProver _ _ = _ |- _ => apply findProver_spec in E' as (p & Hp & Ha & Hk) end.
  match goal with E' : findProposal _ _ = _ |- _ => apply findProposal_spec in E' as (frame & Hin & Hh & Hn & Hprop) end.
  destruct a0. split_and!; [done..|unfold voter; by rewrite E0|]. eexists. split; [done|].
  match goal with He : looksUp _ |- _ => destruct He as [_ Hst]; rewrite Hst in Hin end.
  exists p. eexists _, frame, _, _. subst. by split_and!.
Qed.

Lemma handleLivenessCheck_justified : preserves callsJustified (handleLivenessCheck (registered r) (payload r)).
Proof.
  unfold handleLivenessCheck. repeat handler_step. apply justified_perform. cbn [justified].
  match goal with E' : findProver _ _ = _ |- _ => apply findProver_spec in E' as (p & Hp & Ha & Hk) end.
  subst. eexists _, _, _, p. by split_and!.
Qed.

(** The signature of the frame has just been replaced by that of the confirmation, so the two
    are equal and nothing is done. *)
Lemma confirm_silent activeProvers confirmation h requests e :
  let frame := GlobalFrame.mk (Some (withSignature (FrameConfirmation.AggregateSignature confirmation) h)) requests in
  (confirm activeProvers confirmation frame e).2 = e.
Proof.
  intros frame. unfold confirm. change (GlobalFrame.Header frame ≫= GlobalFrameHeader.PublicKeySignatureBls48581) with (FrameConfirmation.AggregateSignature confirmation).
  destruct (GlobalValidate activeProvers frame) as [[]| | |]; try done. destruct (FrameConfirmation.AggregateSignature confirmation) as [sig|]; [|done].
  destruct (exceeds _); [done|]. by rewrite bool_decide_true.
Qed.

Lemma handleConfirmation_justified activeProvers data : preserves callsJustified (handleConfirmation activeProvers data).
Proof.
  pose proof justified_mu. unfold handleConfirmation. repeat handler_step; [by intros ?|]. intros ? ?. by rewrite confirm_silent.
Qed.

Lemma peek_type data t : typePrefix data = Some t -> peekMessageType data = t.
Proof. unfold peekMessageType. by intros ->. Qed.

Lemma orReject_Accept {A} (res : result A) k : orReject res k = Ok ValidationResultAccept -> exists a, res = Ok a /\ k a = Ok ValidationResultAccept.
Proof. destruct res; cbn; try done. eauto. Qed.

Lemma validateGlobalFrame_Accept activeProvers frame accepted :
  validateGlobalFrame activeProvers frame accepted = Ok ValidationResultAccept ->
  GlobalValidate activeProvers frame = Ok true /\ accepted = Ok ValidationResultAccept /\ exists h, GlobalFrame.Header frame = Some h.
Proof.
  unfold validateGlobalFrame. destruct (GlobalFrame.Header frame) as [h|]; [|done]. destruct (GlobalFrameHeader.PublicKeySignatureBls48581 h) as [sig|]; [|done].
  destruct (BLS48581AggregateSignature.PublicKey sig); [|done]. intros ([] & Hv & Ha)%orReject_Accept; [|done]. eauto.
Qed.

(** A frame that is accepted on the consensus topic is valid. *)
Lemma consensus_accepts activeProvers data frame :
  validateGlobalConsensusMessage activeProvers data = Ok ValidationResultAccept -> peekMessageType data = GlobalFrameType ->
  GlobalFrame.FromCanonicalBytes data = Ok frame -> GlobalValidate activeProvers frame = Ok true /\ exists h, GlobalFrame.Header frame = Some h.
Proof.
  unfold validateGlobalConsensusMessage. destruct (typePrefix data) as [t|] eqn:Et; [|done]. intros Hv Hp Hf.
  apply peek_type in Et as Et'. rewrite <- Et', Hp, Z.eqb_refl in Hv. apply orReject_Accept in Hv as (frame' & Hf' & Hv).
  assert (frame' = frame) as -> by congruence. apply validateGlobalFrame_Accept in Hv as (? & _ & ?). eauto.
Qed.

Lemma frame_accepts activeProvers now data frame :
  validateFrameMessage activeProvers now data = Ok ValidationResultAccept -> peekMessageType data = GlobalFrameType ->
  GlobalFrame.FromCanonicalBytes data = Ok frame ->
  GlobalValidate activeProvers frame = Ok true /\ exists h, GlobalFrame.Header frame = Some h /\ stale now (GlobalFrameHeader.Timestamp h) = false.
Proof.
  unfold validateFrameMessage. destruct (typePrefix data) as [t|] eqn:Et; [|done]. intros Hv Hp Hf.
  apply peek_type in Et as Et'. rewrite <- Et', Hp, Z.eqb_refl in Hv. apply orReject_Accept in Hv as (frame' & Hf' & Hv).
  assert (frame' = frame) as -> by congruence. apply validateGlobalFrame_Accept in Hv as (? & Hs & h & Hh). rewrite Hh in Hs.
  destruct (stale now _) eqn:Est; [done|]. eauto.
Qed.

Lemma alert_accepts data alert :
  validateAlertMessage ed448Verify alertPublicKey data = Ok ValidationResultAccept -> peekMessageType data = GlobalAlertType ->
  GlobalAlert.FromCanonicalBytes data = Ok alert -> ed448Verify alertPublicKey (stringAlert ++ GlobalAlert.Message alert) (GlobalAlert.Signature alert) = true.
Proof.
  unfold validateAlertMessage. destruct (typePrefix data) as [t|] eqn:Et; [|done]. intros Hv Hp Hf.
  apply peek_type in Et as Et'. rewrite <- Et', Hp, Z.eqb_refl in Hv. apply orReject_Accept in Hv as (alert' & Hf' & Hv).
  assert (alert' = alert) as -> by congruence. apply orReject_Accept in Hv as (_ & _ & Hv). by destruct (ed448Verify _ _ _).
Qed.

(** What an accepted message leads to. *)
Lemma accepted_justified :
  validate (registered r) (registeredFor r) (clock r) ed448Verify alertPublicKey (arrivedOn r) (payload r) = Ok ValidationResultAccept ->
  participates network = true \/ arrivedOn r <> TopicShard -> looksUp e0 ->
  callsJustified (process network (registered r) (registeredFor r) (visits r) (arrivedOn r) (payload r) e0).2.
Proof.
  pose proof justified_mu. intros Hv Hsub H0. destruct (arrivedOn r); cbn [process validate] in *.
  - unfold handleGlobalConsensusMessage. destruct (Z.eqb_spec (peekMessageType (payload r)) GlobalFrameType) as [Ep|].
    + apply preserves_recover; [|apply H0]. unfold handleProposal. repeat handler_step; [apply storeFrame_justified|].
      apply justified_perform. cbn. split_and!; [done| |done]. by eapply consensus_accepts.
    + destruct (Z.eqb_spec (peekMessageType (payload r)) FrameVoteType) as [Ep|].
      * rewrite Ep. apply (preserves_recover looksUp _ handleVote_justified _ H0).
      * apply preserves_recover; [|apply H0].
        repeat handler_step; [apply handleLivenessCheck_justified|apply handleConfirmation_justified|by intros e].
  - destruct Hsub as [Hp|]; [|done]. unfold handleAppFrameMessage. rewrite Hp. apply H0.
  - apply (preserves_recover callsJustified); [|apply H0]. repeat handler_step; [apply storeFrame_justified|].
    apply justified_perform. cbn.
    match goal with Et : (_ =? GlobalFrameType) = true |- _ => apply Z.eqb_eq in Et; rename Et into Ht end.
    match goal with Ed : GlobalFrame.FromCanonicalBytes _ = _ |- _ => destruct (frame_accepts _ _ _ _ Hv Ht Ed) as (? & h & Hh & Hs) end. by exists h.
  - apply (preserves_recover callsJustified); [|apply H0]. repeat handler_step. by intros e.
  - apply (preserves_recover callsJustified); [|apply H0]. repeat handler_step. apply justified_perform. cbn.
    eexists. split; [done|]. split; [done|].
    match goal with Et : (_ =? GlobalAlertType) = true |- _ => apply Z.eqb_eq in Et end. by eapply alert_accepts.
Qed.

Lemma receives_justified : appFrameStore e0 = ∅ -> callsJustified (receives r e0).2.
Proof.
  intros Ha. assert (looksUp e0) as H0.
  { split; [|done]. split; [|done]. exists []. by rewrite app_nil_r. }
  unfold receives, receive. destruct (subscribed network (arrivedOn r)) eqn:Es; [|apply H0]. cbn [negb].
  unfold mbind, M_bind, lift. destruct (validate _ _ _ _ _ _ _) as [[]| | |] eqn:Ev; try apply H0.
  destruct (queued network (arrivedOn r)); [|apply H0]. apply accepted_justified; [done| |done].
  destruct (arrivedOn r); [by right|by left|by right..].
Qed.
End reception.

(** The states the engine reaches by receiving messages, with the messages and the states in
    which they arrived; the registry, the clock and the order of the stored frames may differ
    from one message to the next. *)
Inductive reachable : list (reception * engine) -> engine -> Prop :=
| reachable_start : reachable [] (mkEngine ∅ ∅ [] (mkMutex 0 false) [])
| reachable_receive history e r e' :
    reachable history e -> receives r e = (Ok tt, e') -> reachable (history ++ [(r, e)]) e'.

(** C27: in every state the engine reaches, each call it has made was justified by the message
    it was made for, in the state and with the registry's answer of that time.  A frame that
    is proposed to the state machine or inserted into the time reel is the one that arrived
    and valid for the provers that the registry lists, one that is inserted is also recent; a
    liveness check is signed by a prover that the registry lists; a vote is well formed and
    signed by such a prover for a stored frame of the proposer it names; an alert is signed
    with the alert key.  No confirmation is ever passed on, and no app shard frame is ever
    stored. *)
Theorem engine_calls_justified history e :
  reachable history e ->
  (exists made, calls e = concat made /\ Forall2 (fun '(r, e0) cs => Forall (justified r e0) cs) history made) /\
  appFrameStore e = ∅.
Proof.
  induction 1 as [|history e r e' _ [(made & Em & Hm) IH] Hr]; [by split; [exists []|]|].
  pose proof (receives_justified r e IH) as [(cs & Ec & Hc) Ha]. rewrite Hr in Ec, Ha. split; [|done].
  exists (made ++ [cs]). rewrite concat_app, <- Em. cbn in Ec |- *. rewrite app_nil_r. split; [done|].
  by apply Forall2_app; [|constructor].
Qed.
End justified.

(** ** Messages that stop a node *)

Section stops.
Context `{E : Environment} `{F : FrameCrypto}.
Context (network : Z) (activeProvers : result (list ProverInfo.t)) (shardProvers : bytes -> result (list ProverInfo.t)).
Context (range : gmap bytes GlobalFrame.t -> list GlobalFrame.t) (now : Z).
Context (ed448Verify : bytes -> bytes -> bytes -> bool) (alertPublicKey : bytes).

Abbreviation receives := (receive network activeProvers shardProvers range now ed448Verify alertPublicKey).

(** The type of a frame, no header and no requests. *)
Definition headerless (t : Z) : bytes := be 4 t ++ be 4 0 ++ be 4 0.

(** Twelve bytes from any peer stop the process.  A frame without a header is decoded
    without error, and the validator dereferences the header; unlike the handlers it does not
    recover.  Every node is subscribed to the topic of frames. *)
Theorem headerless_frame_crashes e : receives TopicFrame (headerless GlobalFrameType) e = (Panic, e).
Proof. reflexivity. Qed.

Lemma headerless_shard_crashes e : participates network = true -> receives TopicShard (headerless AppShardFrameType) e = (Panic, e).
Proof. intros Hp. unfold receive, subscribed. by rewrite Hp. Qed.

(** The search panics at a frame of the vote's number whose signature has no key. *)
Lemma findProposal_panics frames vote f h :
  f ∈ frames -> GlobalFrame.Header f = Some h -> GlobalFrameHeader.FrameNumber h = FrameVote.FrameNumber vote ->
  (forall f' h', f' ∈ frames -> GlobalFrame.Header f' = Some h' -> GlobalFrameHeader.FrameNumber h' = FrameVote.FrameNumber vote ->
    proposerOf f' = Panic) ->
  findProposal frames vote = Panic.
Proof.
  induction frames as [|g frames IH]; intros Hin Hh Hn Hall; [by apply elem_of_nil in Hin|]. cbn [findProposal].
  assert (f ∈ frames -> findProposal frames vote = Panic) as Hnext.
  { intros Hf. apply IH; [done..|]. intros f' h' Hf'. apply Hall. by right. }
  destruct (GlobalFrame.Header g) as [h'|] eqn:Eg.
  - destruct (Z.eqb_spec (GlobalFrameHeader.FrameNumber h') (FrameVote.FrameNumber vote)) as [En|Hne].
    + cbn [negb]. by rewrite (Hall g h') by (try done; left).
    + apply Hnext. apply elem_of_cons in Hin as [->|?]; [congruence|done].
  - apply Hnext. apply elem_of_cons in Hin as [->|?]; [congruence|done].
Qed.

Lemma findProver_elem provers p : p ∈ provers -> exists key, findProver provers (ProverInfo.Address p) = Some key.
Proof.
  intros Hp. unfold findProver. destruct (List.find _ _) as [q|] eqn:Ef; [by eexists|]. exfalso.
  apply list_elem_of_In in Hp. apply (find_none _ _ Ef) in Hp. by rewrite bool_decide_true in Hp.
Qed.

(** A confirmation whose signature has no key, and a vote whose signature is made up. *)
Definition keyless (h : GlobalFrameHeader.t) (selector : bytes) : FrameConfirmation.t :=
  FrameConfirmation.mk (GlobalFrameHeader.FrameNumber h) selector (Some (BLS48581AggregateSignature.mk [] None [])).
Definition madeUp (h : GlobalFrameHeader.t) (p : ProverInfo.t) : FrameVote.t :=
  FrameVote.mk (GlobalFrameHeader.FrameNumber h) (replicate 32 Byte.x00) true
    (Some (BLS48581AddressedSignature.mk (replicate 74 Byte.x00) (ProverInfo.Address p))).

Lemma typePrefix_write t rest : is_u 32 t -> typePrefix (writeU32 t ++ rest) = Some t.
Proof.
  intros Ht. unfold typePrefix, writeU32. rewrite length_app, be_length, (proj2 (Nat.ltb_ge _ _)) by lia.
  rewrite take_app_length' by (by rewrite be_length). rewrite be_val_be. f_equal. apply Z.mod_small. exact Ht.
Qed.

Lemma addressed_embeds s a : length s = 74%nat -> length a = 32%nat -> embeds (BLS48581AddressedSignature.mk s a).
Proof.
  intros Hs Ha. split; [cbn; unfold lenOk; rewrite Hs, Ha; lia|]. intros bs Eb.
  change (Ok (writeU32 BLS48581AddressedSignatureType ++ writeBytes s ++ writeBytes a) = Ok bs) in Eb.
  assert (bs = writeU32 BLS48581AddressedSignatureType ++ writeBytes s ++ writeBytes a) as -> by congruence.
  unfold lenOk, writeBytes, writeU32. rewrite !length_app, !be_length, Hs, Ha. lia.
Qed.

Lemma vote_encodes vote :
  fits vote -> exists bs, FrameVote.ToCanonicalBytes vote = Ok bs /\ FrameVote.FromCanonicalBytes bs = Ok vote /\ typePrefix bs = Some FrameVoteType.
Proof.
  intros Hf. destruct (canonical_encodes vote Hf) as [bs Eb]. exists bs. split; [done|]. split; [exact (canonical_exact vote bs Hf Eb)|].
  apply result_bind_Ok in Eb as (sig & _ & [= <-]). by apply typePrefix_write.
Qed.

Lemma confirmation_encodes c :
  fits c -> exists bs, FrameConfirmation.ToCanonicalBytes c = Ok bs /\ FrameConfirmation.FromCanonicalBytes bs = Ok c /\
    typePrefix bs = Some FrameConfirmationType.
Proof.
  intros Hf. destruct (canonical_encodes c Hf) as [bs Eb]. exists bs. split; [done|]. split; [exact (canonical_exact c bs Hf Eb)|].
  apply result_bind_Ok in Eb as (sig & _ & [= <-]). by apply typePrefix_write.
Qed.

Lemma read_locked (k : gmap bytes GlobalFrame.t -> handler) e :
  frameStoreMu e = mkMutex 0 false -> (_ ← RLock; store ← gets frameStore; _ ← RUnlock; k store) e = k (frameStore e) e.
Proof. destruct e. cbn. by intros ->. Qed.

Lemma read_panics {A} (r : gmap bytes GlobalFrame.t -> result A) (k : A -> handler) e :
  frameStoreMu e = mkMutex 0 false -> r (frameStore e) = Panic ->
  (_ ← RLock; store ← gets frameStore; a ← lift (r store); _ ← RUnlock; k a) e = (Panic, set_frameStoreMu (mkMutex 1 false) e).
Proof. destruct e. cbn. intros -> Hr. unfold mbind, M_bind, lift. cbn. by rewrite Hr. Qed.

(** The stored frame gets the signature without a key. *)
Lemma keyless_stored frame h selector data e :
  frameStoreMu e = mkMutex 0 false -> frameStore e !! selector = Some frame -> GlobalFrame.Header frame = Some h -> length selector = 32%nat ->
  FrameConfirmation.FromCanonicalBytes data = Ok (keyless h selector) ->
  handleConfirmation activeProvers data e =
    (Ok tt, set_frameStore (<[selector := GlobalFrame.mk (Some (withSignature (FrameConfirmation.AggregateSignature (keyless h selector)) h))
                                            (GlobalFrame.Requests frame)]> (frameStore e)) e).
Proof.
  intros Hmu Hs Hh Hl Hd. unfold handleConfirmation. rewrite Hd. cbn [orReturn].
  assert (FrameConfirmation.Validate (Some (keyless h selector)) = Ok tt) as -> by (unfold FrameConfirmation.Validate, lenIs; cbn; by rewrite Hl).
  cbn [orReturn]. rewrite read_locked by done. cbn [keyless FrameConfirmation.Selector FrameConfirmation.FrameNumber].
  rewrite Hs, Hh, Z.eqb_refl. cbn [negb]. destruct e as [fs as_ pm mu cs]. cbn in Hmu. subst mu.
  unfold locked, mbind, M_bind, unlockAfter. cbn [Lock frameStoreMu writer readers orb Nat.ltb Nat.leb modify].
  unfold confirm, GlobalValidate. cbn. destruct (negb _); [done|]. by destruct (_ =? 0).
Qed.

(** The lock that the search has taken is not released. *)
Lemma madeUp_panics provers h p f data e :
  activeProvers = Ok provers -> p ∈ provers -> length (ProverInfo.Address p) = 32%nat -> frameStoreMu e = mkMutex 0 false ->
  (forall m g, g ∈ range m <-> exists k, m !! k = Some g) ->
  GlobalFrame.Header f = Some (withSignature (Some (BLS48581AggregateSignature.mk [] None [])) h) ->
  (exists k, frameStore e !! k = Some f) ->
  (forall k g h', frameStore e !! k = Some g -> GlobalFrame.Header g = Some h' -> GlobalFrameHeader.FrameNumber h' = GlobalFrameHeader.FrameNumber h -> g = f) ->
  FrameVote.FromCanonicalBytes data = Ok (madeUp h p) ->
  handleVote activeProvers range data e = (Panic, set_frameStoreMu (mkMutex 1 false) e).
Proof.
  intros Ha Hp Hl Hmu Hrange Hf Hin Honly Hd. unfold handleVote. rewrite Hd. cbn [orReturn].
  assert (FrameVote.Validate (Some (madeUp h p)) = Ok tt) as -> by (unfold FrameVote.Validate, BLS48581AddressedSignature.Validate, lenIs; cbn; by rewrite Hl).
  rewrite Ha. cbn [orReturn madeUp FrameVote.PublicKeySignatureBls48581 BLS48581AddressedSignature.Address].
  destruct (findProver_elem provers p Hp) as [key ->]. apply (read_panics (fun store => findProposal (range store) (madeUp h p))); [done|].
  apply (findProposal_panics _ _ f (withSignature (Some (BLS48581AggregateSignature.mk [] None [])) h)); [by apply Hrange|done..|].
  intros f' h' Hf' Hh' Hn. apply Hrange in Hf' as [k Hk]. rewrite (Honly k f' h' Hk Hh' Hn). unfold proposerOf. by rewrite Hf.
Qed.

Lemma receive_consensus data e t :
  participates network = true -> typePrefix data = Some t -> validateGlobalConsensusMessage activeProvers data = Ok ValidationResultAccept ->
  receives TopicConsensus data e = handleGlobalConsensusMessage activeProvers range data e.
Proof. intros Hp Ht Hv. unfold receive, subscribed, queued, mbind, M_bind, lift, validate, process. by rewrite Hp, Hv. Qed.

Lemma dispatch_confirmation data :
  typePrefix data = Some FrameConfirmationType -> handleGlobalConsensusMessage activeProvers range data = recover (handleConfirmation activeProvers data).
Proof. intros Ht%peek_type. unfold handleGlobalConsensusMessage. by rewrite Ht. Qed.

Lemma dispatch_vote data :
  typePrefix data = Some FrameVoteType -> handleGlobalConsensusMessage activeProvers range data = recover (handleVote activeProvers range data).
Proof. intros Ht%peek_type. unfold handleGlobalConsensusMessage. by rewrite Ht. Qed.

(** A frame that arrives while the lock is not released is never stored. *)
Lemma proposal_blocks data e :
  participates network = true -> (0 < readers (frameStoreMu e))%nat -> peekMessageType data = GlobalFrameType ->
  validateGlobalConsensusMessage activeProvers data = Ok ValidationResultAccept -> (receives TopicConsensus data e).1 = Diverge.
Proof.
  intros Hp Hmu Hpeek Hv. assert (exists t, typePrefix data = Some t) as [t Ht].
  { unfold validateGlobalConsensusMessage in Hv. destruct (typePrefix data); [by eexists|done]. }
  rewrite (receive_consensus data e t) by done. unfold handleGlobalConsensusMessage, recover. rewrite Hpeek, Z.eqb_refl. cbn zeta.
  unfold validateGlobalConsensusMessage in Hv. pose proof (peek_type data t Ht) as Et. rewrite Ht in Hv. rewrite <- Et, Hpeek, Z.eqb_refl in Hv.
  apply orReject_Accept in Hv as (frame & Hf & Hv). apply validateGlobalFrame_Accept in Hv as (_ & _ & h & Hh).
  unfold handleProposal. rewrite Hf. cbn [orReturn]. rewrite Hh. unfold storeFrame, mbind, M_bind, Lock.
  by rewrite (proj2 (Nat.ltb_lt _ _) Hmu), orb_true_r.
Qed.

Lemma keyless_fits h selector : is_u 64 (GlobalFrameHeader.FrameNumber h) -> length selector = 32%nat -> fits (keyless h selector).
Proof. intros Hn Hs. split; [done|]. split; [cbn; unfold lenOk; rewrite Hs; lia|]. apply embeds_run; [done|reflexivity]. Qed.

Lemma madeUp_fits h p : is_u 64 (GlobalFrameHeader.FrameNumber h) -> length (ProverInfo.Address p) = 32%nat -> fits (madeUp h p).
Proof. intros Hn Hs. split; [done|]. split; [done|]. by apply addressed_embeds. Qed.

(** C32: two messages that carry no valid signature stop the consensus of a participant that
    holds a single proposal for a frame number.  The first, a confirmation whose signature
    has no key, is written into the stored frame before it is validated; the second, a vote
    in the name of any active prover, makes the search for its proposal panic while the read
    lock is held.  The panic is recovered and the lock is not released, so that the next
    frame that is accepted blocks the handler for ever. *)
Theorem keyless_confirmation_blocks provers frame h selector p e :
  participates network = true -> activeProvers = Ok provers -> (forall m f, f ∈ range m <-> exists k, m !! k = Some f) ->
  frameStoreMu e = mkMutex 0 false -> frameStore e !! selector = Some frame -> GlobalFrame.Header frame = Some h ->
  length selector = 32%nat -> is_u 64 (GlobalFrameHeader.FrameNumber h) ->
  (forall k f h', frameStore e !! k = Some f -> GlobalFrame.Header f = Some h' ->
    GlobalFrameHeader.FrameNumber h' = GlobalFrameHeader.FrameNumber h -> k = selector) ->
  p ∈ provers -> length (ProverInfo.Address p) = 32%nat ->
  exists confirmation vote e1 e2,
    FrameConfirmation.ToCanonicalBytes (keyless h selector) = Ok confirmation /\ FrameVote.ToCanonicalBytes (madeUp h p) = Ok vote /\
    receives TopicConsensus confirmation e = (Ok tt, e1) /\ receives TopicConsensus vote e1 = (Ok tt, e2) /\
    forall data, peekMessageType data = GlobalFrameType ->
      validateGlobalConsensusMessage activeProvers data = Ok ValidationResultAccept -> (receives TopicConsensus data e2).1 = Diverge.
Proof.
  intros Hpart Ha Hrange Hmu Hs Hh Hl Hn Honly Hp Hpl.
  destruct (confirmation_encodes _ (keyless_fits h selector Hn Hl)) as (cbs & Ec & Dc & Tc).
  destruct (vote_encodes _ (madeUp_fits h p Hn Hpl)) as (vbs & Ev & Dv & Tv).
  pose proof (keyless_stored frame h selector cbs e Hmu Hs Hh Hl Dc) as Hc. set (f := GlobalFrame.mk _ _) in Hc. set (e1 := set_frameStore _ e) in Hc.
  assert (handleVote activeProvers range vbs e1 = (Panic, set_frameStoreMu (mkMutex 1 false) e1)) as Hv.
  { apply (madeUp_panics provers h p f); try done; [exists selector; apply lookup_insert_eq|].
    intros k g h' Hk Hg Hgn. cbn [e1 frameStore set_frameStore] in Hk. destruct (decide (k = selector)) as [->|Hne].
    - rewrite lookup_insert_eq in Hk. congruence.
    - rewrite lookup_insert_ne in Hk by done. by destruct Hne; eapply Honly. }
  exists cbs, vbs, e1, (set_frameStoreMu (mkMutex 1 false) e1). split; [done|]. split; [done|]. split; [|split].
  - rewrite (receive_consensus cbs e _ Hpart Tc).
    + rewrite (dispatch_confirmation _ Tc). unfold recover. by rewrite Hc.
    + unfold validateGlobalConsensusMessage. rewrite Tc, Dc. cbn. unfold lenIs. by rewrite Hl.
  - rewrite (receive_consensus vbs e1 _ Hpart Tv).
    + rewrite (dispatch_vote _ Tv). unfold recover. by rewrite Hv.
    + unfold validateGlobalConsensusMessage. rewrite Tv, Dv. cbn. unfold lenIs. cbn. by rewrite Hpl.
  - intros data Hpeek Hval. by apply proposal_blocks; [|cbn; lia|..].
Qed.
End stops.
