(* ===== verification/HypergraphState.v ===== *)
(** * Pending changes to the hypergraph (node/execution/state/hypergraph/hypergraph_state.go)

    The state that operations of intrinsics work on: a list of changes on top of the
    hypergraph.  Trees are shared by pointer.  What Get returns for a changed entry is the
    tree of the change itself, which operations then update in place; what it returns from the
    hypergraph is a new tree.  The trees are therefore kept in a heap.  The hypergraph is the
    interface of types/hypergraph/hypergraph.go. *)

From S2P Require Import Prelude ProofTree ProofTreeWf ProofTreeOps ProofTreeMap ProofTreeCommit ProofTreeCanon Wire ProofTreeSerial Stateful.

(** A pointer to a vector commitment tree. *)
Definition ptr : Type := nat.

(** Hypergraph.Vertex: the addresses, the commitment to the data and its size. *)
Module Vertex.
Record t := mk { appAddress : bytes; dataAddress : bytes; commitment : bytes; size : Z }.
Definition GetID (v : t) : bytes := appAddress v ++ dataAddress v.
End Vertex.

(** Hypergraph.Hyperedge, with its extrinsic tree as [T]. *)
Module Hyperedge.
Record t (T : Type) := mk { appAddress : bytes; dataAddress : bytes; extTree : T }.
Arguments mk {T}. Arguments appAddress {T}. Arguments dataAddress {T}. Arguments extTree {T}.
Definition GetID {T} (h : t T) : bytes := appAddress h ++ dataAddress h.
End Hyperedge.

Inductive AtomType := VertexAtomType | HyperedgeAtomType.
Inductive PhaseType := AddsPhaseType | RemovesPhaseType.

#[export] Instance AtomType_eq : EqDecision AtomType.
Proof. solve_decision. Defined.
#[export] Instance PhaseType_eq : EqDecision PhaseType.
Proof. solve_decision. Defined.

Definition ErrRemoved : string := "removed".
Definition ErrInvalidDiscriminator : string := "invalid discriminator".

(** The hypergraph, with the transaction that writes to it.  Trees are passed by value: they
    are serialised when they are stored and read back into a new tree. *)
Class Hypergraph (G : Type) := {
  GetVertex : G -> bytes -> result Vertex.t;
  GetVertexData : G -> bytes -> result VectorCommitmentTree;
  GetHyperedge : G -> bytes -> result (Hyperedge.t VectorCommitmentTree);
  NewTransaction : M G unit;
  AbortTransaction : M G unit;
  CommitTransaction : M G unit;
  AddVertex : Vertex.t -> M G unit;
  SetVertexData : bytes -> VectorCommitmentTree -> M G unit;
  RemoveVertex : Vertex.t -> M G unit;
  AddHyperedge : Hyperedge.t VectorCommitmentTree -> M G unit;
  RemoveHyperedge : Hyperedge.t VectorCommitmentTree -> M G unit;
  TrackChange : bytes -> option VectorCommitmentTree -> Z -> PhaseType -> AtomType -> M G unit;
  CommitGraph : M G unit
}.

(** The four discriminators, which are hashes of different strings. *)
Inductive Discriminator := VertexAddsDiscriminator | VertexRemovesDiscriminator | HyperedgeAddsDiscriminator | HyperedgeRemovesDiscriminator.

#[export] Instance Discriminator_eq : EqDecision Discriminator.
Proof. solve_decision. Defined.

Inductive StateChangeEvent := CreateStateChangeEvent | UpdateStateChangeEvent | DeleteStateChangeEvent | InitializeStateChangeEvent.

(** The implementations of state.MaterializedState. *)
Inductive MaterializedState :=
| VertexAddMaterializedState (appAddress dataAddress : bytes) (frameNumber : Z) (prior : option ptr) (data : ptr)
| VertexRemoveMaterializedState (appAddress dataAddress : bytes) (deleteAt frameNumber : Z) (prior : option ptr) (commitment : bytes)
    (originalSize : Z)
| HyperedgeAddMaterializedState (frameNumber : Z) (prior : option ptr) (value : Hyperedge.t ptr)
| HyperedgeRemoveMaterializedState (frameNumber : Z) (prior : option ptr) (value : Hyperedge.t ptr).

Module StateChange.
Record t := mk { Domain : bytes; Address : bytes; Disc : Discriminator; Event : StateChangeEvent; Value : MaterializedState }.
End StateChange.

(** What Get returns: a tree, nil for a removal, or a hyperedge. *)
Inductive object := ObjTree (t : option ptr) | ObjHyperedge (h : Hyperedge.t ptr).

Definition DataValue (v : MaterializedState) : option ptr :=
  match v with
  | VertexAddMaterializedState _ _ _ _ data => Some data
  | VertexRemoveMaterializedState _ _ _ _ _ _ _ => None
  | HyperedgeAddMaterializedState _ _ value => Some (Hyperedge.extTree value)
  | HyperedgeRemoveMaterializedState _ _ _ => None
  end.

Record hypergraphState (G : Type) := mkState { hypergraph : G; changeset : list StateChange.t; heap : list VectorCommitmentTree }.
Arguments mkState {G}. Arguments hypergraph {G}. Arguments changeset {G}. Arguments heap {G}.

(** A variable of the interface type state.State: nil, or the state that is passed around. *)
Inductive stateRef := NilState | ThisState.

Definition VERTEX_DATA_DELETION_INTERVAL : Z := 10 * 60 * 1000.
Definition HYPERGRAPH_METADATA_ADDRESS : bytes := replicate 32 Byte.xff.

(** [copy] into an array of 32 bytes. *)
Definition copy32 (b : bytes) : bytes := take 32 (b ++ replicate 32 Byte.x00).

(** [[32]byte(b)], which panics on a shorter slice. *)
Definition array32 (b : bytes) : result bytes := if (length b <? 32)%nat then Panic else Ok (take 32 b).

Definition fullAddress (domain address : bytes) : bytes := copy32 domain ++ copy32 address.

Section state.
Context {G : Type} `{Hypergraph G} `{TreeCrypto}.

Abbreviation S := (hypergraphState G).

Definition set_hypergraph g (s : S) : S := mkState g (changeset s) (heap s).
Definition set_changeset c (s : S) : S := mkState (hypergraph s) c (heap s).
Definition set_heap h (s : S) : S := mkState (hypergraph s) (changeset s) h.

(** ** The heap *)

Definition new (t : VectorCommitmentTree) : M S ptr := fun s => (Ok (length (heap s)), set_heap (heap s ++ [t]) s).

(** Pointers are never nil here, and always allocated. *)
Definition deref (p : ptr) : M S VectorCommitmentTree := fun s =>
  (match heap s !! p with Some t => Ok t | None => Panic end, s).

(** An update in place that may fail on the way. *)
Definition update {A} (p : ptr) (f : VectorCommitmentTree -> result A * VectorCommitmentTree) : M S A :=
  t ← deref p;
  _ ← modify (fun s => set_heap (<[p := (f t).2]> (heap s)) s);
  lift (f t).1.

(** An operation of the hypergraph. *)
Definition onGraph {A} (m : M G A) : M S A := fun s => let '(r, g) := m (hypergraph s) in (r, set_hypergraph g s).

(** ** The operations *)

Definition NewHypergraphState (g : G) : S := mkState g [] [].

(** The last change of an entry. *)
Definition changeOf (domain address : bytes) (discriminator : Discriminator) (cs : list StateChange.t) : option StateChange.t :=
  list_find (fun c => StateChange.Address c = address /\ StateChange.Domain c = domain /\ StateChange.Disc c = discriminator)
    (reverse cs) ≫= fun x => Some x.2.

Definition Get (domain address : bytes) (discriminator : Discriminator) : M S object :=
  s ← gets id;
  match changeOf domain address discriminator (changeset s) with
  | Some c => mret (ObjTree (DataValue (StateChange.Value c)))
  | None =>
    let id := fullAddress domain address in
    match discriminator with
    | VertexAddsDiscriminator => data ← lift (GetVertexData (hypergraph s) id); p ← new data; mret (ObjTree (Some p))
    | HyperedgeAddsDiscriminator =>
      he ← lift (GetHyperedge (hypergraph s) id);
      p ← new (Hyperedge.extTree he);
      mret (ObjHyperedge (Hyperedge.mk (Hyperedge.appAddress he) (Hyperedge.dataAddress he) p))
    | _ => lift (Err ErrInvalidDiscriminator)
    end
  end.

(** Whether an entry is in the hypergraph; a removed one is an error. *)
Definition present {A} (r : result A) : result bool :=
  match r with
  | Ok _ => Ok true
  | Err e => if decide (e = ErrRemoved) then Err e else Ok false
  | Panic => Panic
  | Diverge => Diverge
  end.

Definition addChange (c : StateChange.t) : M S unit := modify (fun s => set_changeset (changeset s ++ [c]) s).

Definition Set_ (domain address : bytes) (discriminator : Discriminator) (frameNumber : Z) (value : MaterializedState) : M S unit :=
  s ← gets id;
  let id := fullAddress domain address in
  previousValue ← lift (match discriminator, value with
    | VertexAddsDiscriminator, VertexAddMaterializedState _ _ _ _ _ => present (GetVertex (hypergraph s) id)
    | HyperedgeAddsDiscriminator, HyperedgeAddMaterializedState _ _ _ => present (GetHyperedge (hypergraph s) id)
    | _, _ => Err ErrInvalidDiscriminator
    end);
  addChange (StateChange.mk domain address discriminator
    (if (previousValue : bool) then UpdateStateChangeEvent else CreateStateChangeEvent) value).

Definition Delete (now : Z) (domain address : bytes) (discriminator : Discriminator) (frameNumber : Z) : M S unit :=
  s ← gets id;
  let id := fullAddress domain address in
  value ← match discriminator with
    | VertexRemovesDiscriminator =>
      vertex ← lift (GetVertex (hypergraph s) id);
      data ← lift (GetVertexData (hypergraph s) id);
      app ← lift (array32 domain);
      addr ← lift (array32 address);
      prior ← new data;
      mret (VertexRemoveMaterializedState app addr (now + VERTEX_DATA_DELETION_INTERVAL) frameNumber (Some prior)
              (Vertex.commitment vertex) (Vertex.size vertex))
    | HyperedgeRemovesDiscriminator =>
      he ← lift (GetHyperedge (hypergraph s) id);
      p ← new (Hyperedge.extTree he);
      mret (HyperedgeRemoveMaterializedState frameNumber (Some p)
              (Hyperedge.mk (Hyperedge.appAddress he) (Hyperedge.dataAddress he) p))
    | _ => lift (Err ErrInvalidDiscriminator)
    end;
  addChange (StateChange.mk domain address discriminator DeleteStateChangeEvent value).

(** The tree of a prior value, nil if there is none. *)
Definition derefPrior (p : option ptr) : M S (option VectorCommitmentTree) :=
  match p with None => mret None | Some p => t ← deref p; mret (Some t) end.

(** GetVertex of a vertex addition, which commits to the data. *)
Definition vertexOf (appAddress dataAddress : bytes) (data : ptr) : M S Vertex.t :=
  commitment ← update data (fun t => let '(c, t) := ProofTreeCommit.Commit t false in (Ok c, t));
  t ← deref data;
  mret (Vertex.mk appAddress dataAddress commitment (GetSize t)).

Definition edgeOf (value : Hyperedge.t ptr) : M S (Hyperedge.t VectorCommitmentTree) :=
  t ← deref (Hyperedge.extTree value);
  mret (Hyperedge.mk (Hyperedge.appAddress value) (Hyperedge.dataAddress value) t).

(** The Commit methods of the four kinds of change. *)
Definition commitChange (v : MaterializedState) : M S unit :=
  match v with
  | VertexAddMaterializedState appAddress dataAddress frameNumber prior data =>
    vertex ← vertexOf appAddress dataAddress data;
    _ ← onGraph (AddVertex vertex);
    t ← deref data;
    _ ← onGraph (SetVertexData (appAddress ++ dataAddress) t);
    old ← derefPrior prior;
    onGraph (TrackChange (appAddress ++ dataAddress) old frameNumber AddsPhaseType VertexAtomType)
  | VertexRemoveMaterializedState appAddress dataAddress _ frameNumber prior commitment originalSize =>
    _ ← onGraph (RemoveVertex (Vertex.mk appAddress dataAddress commitment originalSize));
    old ← derefPrior prior;
    onGraph (TrackChange (appAddress ++ dataAddress) old frameNumber RemovesPhaseType VertexAtomType)
  | HyperedgeAddMaterializedState frameNumber prior value =>
    he ← edgeOf value;
    _ ← onGraph (AddHyperedge he);
    old ← derefPrior prior;
    onGraph (TrackChange (Hyperedge.GetID value) old frameNumber AddsPhaseType HyperedgeAtomType)
  | HyperedgeRemoveMaterializedState frameNumber prior value =>
    he ← edgeOf value;
    _ ← onGraph (RemoveHyperedge he);
    old ← derefPrior prior;
    onGraph (TrackChange (Hyperedge.GetID value) old frameNumber RemovesPhaseType HyperedgeAtomType)
  end.

(** The changes stay in the changeset. *)
Definition Commit : M S unit :=
  s ← gets id;
  _ ← onGraph NewTransaction;
  r ← attempt (each (fun c => commitChange (StateChange.Value c)) (changeset s));
  match r with
  | Ok _ => _ ← onGraph CommitTransaction; onGraph CommitGraph
  | r => _ ← onGraph AbortTransaction; lift r
  end.

Definition Abort : M S unit := modify (set_changeset []).
End state.
