(* ===== verification/GlobalCollect.v ===== *)
(** * Collecting requests and commitments (node/consensus/global/consensus_liveness_provider.go
    and GetCost of node/execution/manager/execution_manager.go)

    Before it proves or votes, a participant executes the requests it has collected, and folds
    the roots of all shards into 256 vector commitment trees, whose commitments go into the
    header of the next frame.  The execution engines, the mixnet and the hypergraph are
    arguments; the map of the hypergraph's roots is a list in the order it is visited. *)

From S2P Require Import Prelude ProofTree ProofTreeWf ProofTreeMap ProofTreeCommit ProofTreeCanon Wire CanonicalTypes Keys Frames.
From S2P Require Import Messages RewardIssuance ForkChoice Stateful HypergraphState GlobalTimeReel FrameProver FrameValidator Voting GlobalMessages.
From S2P Require Import GlobalMessagesSpec.

(** tries.ShardKey: arrays of 3 and of 32 bytes. *)
Module ShardKey.
Record t := mk { L1 : bytes; L2 : bytes }.
End ShardKey.

#[export] Instance ShardKey_eq_dec : EqDecision ShardKey.t.
Proof. solve_decision. Defined.

(** The part of protobufs.Message that is used. *)
Module Message.
Record t := mk { Address : bytes; Payload : bytes }.
End Message.

(** ** The cost of requests *)

Inductive executionEngine := EngineToken | EngineHypergraph | EngineCompute.

Section cost.
Context (engineCost : executionEngine -> bytes -> result Z).

(** A nil request is dereferenced by its encoder. *)
Definition getRequestCost (request : option MessageRequest.t) : result Z :=
  match request with
  | None => Panic
  | Some request =>
    requestBytes ← MessageRequest.ToCanonicalBytes request;
    match MessageRequest.Request request with
    | Some (MessageRequest.MessageRequest_TokenDeploy _)
    | Some (MessageRequest.MessageRequest_TokenUpdate _)
    | Some (MessageRequest.MessageRequest_Transaction _)
    | Some (MessageRequest.MessageRequest_PendingTransaction _)
    | Some (MessageRequest.MessageRequest_MintTransaction _) => engineCost EngineToken requestBytes
    | Some (MessageRequest.MessageRequest_HypergraphDeploy _)
    | Some (MessageRequest.MessageRequest_HypergraphUpdate _)
    | Some (MessageRequest.MessageRequest_VertexAdd _)
    | Some (MessageRequest.MessageRequest_VertexRemove _)
    | Some (MessageRequest.MessageRequest_HyperedgeAdd _)
    | Some (MessageRequest.MessageRequest_HyperedgeRemove _) => engineCost EngineHypergraph requestBytes
    | Some (MessageRequest.MessageRequest_ComputeDeploy _)
    | Some (MessageRequest.MessageRequest_ComputeUpdate _)
    | Some (MessageRequest.MessageRequest_CodeDeploy _)
    | Some (MessageRequest.MessageRequest_CodeExecute _)
    | Some (MessageRequest.MessageRequest_CodeFinalize _) => engineCost EngineCompute requestBytes
    | _ => Ok 0
    end
  end.

Fixpoint sumCosts (requests : list (option MessageRequest.t)) (sum : Z) : result Z :=
  match requests with
  | [] => Ok sum
  | r :: requests => cost ← getRequestCost r; sumCosts requests (sum + cost)
  end.

Definition GetCost (message : bytes) : result Z :=
  match typePrefix message with
  | None => Err "invalid message"
  | Some t =>
    if t =? MessageBundleType then bundle ← MessageBundle.FromCanonicalBytes message; sumCosts (MessageBundle.Requests bundle) 0
    else if t =? MessageRequestType then request ← MessageRequest.FromCanonicalBytes message; getRequestCost (Some request)
    else Err "invalid message type"
  end.
End cost.

(** ** Folding the roots of the shards *)

(** The phase goes into the upper two bits of the key. *)
Definition foldedShardKey (l2 : bytes) (phaseSet : nat) : bytes :=
  match l2 with
  | [] => []
  | b :: l2 => Z_byte (Z.lor (byte_Z b) (Z.shiftl (Z.of_nat phaseSet) 6)) :: l2
  end.

Definition proverShard (sk : ShardKey.t) : bool := bool_decide (ShardKey.L1 sk = [Byte.x00; Byte.x00; Byte.x00]).

(** Inserts into the tree at an index of the list. *)
Definition insertAt (ts : list VectorCommitmentTree) (i : nat) (key commit : bytes) : result (list VectorCommitmentTree) :=
  match ts !! i with
  | None => Panic
  | Some t => t' ← ProofTree.Insert t key (Some commit) [] (Z.of_nat (length commit)); Ok (<[i := t']> ts)
  end.

Fixpoint insertEach (key commit : bytes) (indices : bytes) (ts : list VectorCommitmentTree) : result (list VectorCommitmentTree) :=
  match indices with
  | [] => Ok ts
  | b :: indices => ts ← insertAt ts (Z.to_nat (byte_Z b)) key commit; insertEach key commit indices ts
  end.

Fixpoint insertPhases (sk : ShardKey.t) (s : list bytes) (phases : list nat) (ts : list VectorCommitmentTree) : result (list VectorCommitmentTree) :=
  match phases with
  | [] => Ok ts
  | phaseSet :: phases =>
    match s !! phaseSet with
    | None => Panic
    | Some commit =>
      ts ← insertEach (foldedShardKey (ShardKey.L2 sk) phaseSet) commit (ShardKey.L1 sk) ts;
      insertPhases sk s phases ts
    end
  end.

(** The trees, and the root of the provers: that of the last visited key of the prover shard. *)
Fixpoint foldShards (commitSet : list (ShardKey.t * list bytes)) (ts : list VectorCommitmentTree) (proverRoot : bytes)
    : result (list VectorCommitmentTree * bytes) :=
  match commitSet with
  | [] => Ok (ts, proverRoot)
  | (sk, s) :: commitSet =>
    if proverShard sk then
      match s !! 0%nat with
      | None => Panic
      | Some root => foldShards commitSet ts root
      end
    else ts ← insertPhases sk s [0; 1; 2; 3]%nat ts; foldShards commitSet ts proverRoot
  end.

(** ** Collect *)

(** The fields of the engine that Collect changes. *)
Record collector := mkCollector {
  pending : list bytes;
  shardCommitments : list bytes;
  proverRoot : bytes;
  engineCommitmentHash : bytes;
  collectedMessages : list bytes
}.

Definition globalAddress : bytes := replicate 32 Byte.xff.

Section collect.
Context `{TreeCrypto} `{FrameCrypto} {D : Type} `{!Decimal D} {W : Type}.
Context (engineCost : executionEngine -> bytes -> result Z) (processMessage : Z -> Z -> bytes -> bytes -> stateRef -> M W stateRef).
Context (currentDifficulty : Z) (worldSize : W -> Z).

(** The fee for a unit of cost, in a world of the present size. *)
Definition unitFee (costBasis : Z) : M W Z :=
  size ← gets worldSize;
  baseline ← lift (GetBaselineFee (D := D) currentDifficulty size (u64 costBasis) 8000000000);
  if costBasis =? 0 then lift Panic else mret (Z.quot baseline costBasis).

(** Executes one message; it is left out if this fails.  What it has changed until then
    stays. *)
Definition acceptMessage (frameNumber : Z) (acc : stateRef * list Message.t) (message : Message.t) : M W (stateRef * list Message.t) :=
  match GetCost engineCost (Message.Payload message) with
  | Ok costBasis =>
    fee ← unitFee costBasis;
    r ← attempt (processMessage frameNumber fee (Message.Address message) (Message.Payload message) acc.1);
    mret (match r with Ok state => (state, acc.2 ++ [message]) | _ => acc end)
  | Err _ => mret acc
  | Panic => lift Panic
  | Diverge => lift Diverge
  end.

Fixpoint acceptMessages (frameNumber : Z) (acc : stateRef * list Message.t) (messages : list Message.t) : M W (stateRef * list Message.t) :=
  match messages with
  | [] => mret acc
  | m :: messages => acc ← acceptMessage frameNumber acc m; acceptMessages frameNumber acc messages
  end.

(** ** Materialising a frame *)

(** One request of a frame (global_consensus_engine.go); unlike in Collect a request that
    fails is an error. *)
Definition materializeRequest (frameNumber : Z) (state : stateRef) (request : MessageBundle.t) : M W stateRef :=
  requestBytes ← lift (MessageBundle.ToCanonicalBytes request);
  if (length requestBytes =? 0)%nat then lift (Err "empty request")
  else
    match GetCost engineCost requestBytes with
    | Ok costBasis => fee ← unitFee costBasis; processMessage frameNumber fee globalAddress requestBytes state
    | Err _ => mret state
    | Panic => lift Panic
    | Diverge => lift Diverge
    end.

Fixpoint materializeAll (frameNumber : Z) (state : stateRef) (requests : list MessageBundle.t) : M W stateRef :=
  match requests with
  | [] => mret state
  | r :: requests => state ← materializeRequest frameNumber state r; materializeAll frameNumber state requests
  end.

(** [transition] and [commit] are the calls to the prover registry and of the state at the
    end, which panic on nil. *)
Definition materialize (transition : Z -> M W unit) (commit : M W unit) (frameNumber : Z) (requests : list MessageBundle.t) : M W unit :=
  state ← materializeAll frameNumber ThisState requests;
  match state with
  | NilState => lift Panic
  | ThisState => _ ← transition frameNumber; commit
  end.

(** The commitments of the trees; their caches are not kept. *)
Definition commitTrees (ts : list VectorCommitmentTree) : list bytes := (fun t => (ProofTreeCommit.Commit t false).1) <$> ts.

(** The engine and the world outside it. *)
Definition onWorld {A} (m : M W A) : M (collector * W) A := fun s => let '(r, w) := m s.2 in (r, (s.1, w)).

Definition takePending : M (collector * W) (list bytes) := fun s =>
  let c := s.1 in
  (Ok (pending c), (mkCollector [] (shardCommitments c) (proverRoot c) (engineCommitmentHash c) (collectedMessages c), s.2)).

(** [mixnetMessages] is empty below nine active provers, [head] the number of the head of the
    time reel; [commitSet] are the roots of the hypergraph, in some order. *)
Definition Collect (mixnetMessages : list Message.t) (head : option Z) (commitSet : W -> list (ShardKey.t * list bytes))
    (proverAddress : bytes) : M (collector * W) GlobalCollectedCommitments :=
  pendingMessages ← takePending;
  let messages := mixnetMessages ++ (Message.mk globalAddress <$> pendingMessages) in
  let frameNumber := u64 (default 0 head + 1) in
  accepted ← onWorld (acceptMessages frameNumber (ThisState, []) messages);
  roots ← onWorld (gets commitSet);
  folded ← lift (foldShards roots (replicate 256 emptyTree) (replicate 64 Byte.x00));
  let commitments := commitTrees folded.1 in
  let hash := sha3 (concat commitments ++ folded.2) in
  _ ← modify (fun s => (mkCollector (pending s.1) commitments folded.2 hash (Message.Payload <$> accepted.2), s.2));
  mret (mkCollected frameNumber hash proverAddress).
End collect.

(** ** The commitments do not depend on the order of the shards *)

(** The inserts of a shard: the index of the tree, the key and the commitment. *)
Definition phaseInserts (sk : ShardKey.t) (s : list bytes) (phaseSet : nat) : list (nat * bytes * bytes) :=
  match s !! phaseSet with
  | None => []
  | Some commit => (fun b => (Z.to_nat (byte_Z b), foldedShardKey (ShardKey.L2 sk) phaseSet, commit)) <$> ShardKey.L1 sk
  end.
Definition shardInserts (shard : ShardKey.t * list bytes) : list (nat * bytes * bytes) :=
  if proverShard shard.1 then [] else [0; 1; 2; 3]%nat ≫= phaseInserts shard.1 shard.2.

Fixpoint insertAll (l : list (nat * bytes * bytes)) (ts : list VectorCommitmentTree) : result (list VectorCommitmentTree) :=
  match l with
  | [] => Ok ts
  | (i, key, commit) :: l => ts ← insertAt ts i key commit; insertAll l ts
  end.

Definition lastRoot (cs : list (ShardKey.t * list bytes)) (root : bytes) : bytes :=
  foldl (fun root shard => default root (shard.2 !! 0%nat)) root (filter (fun shard => proverShard shard.1 = true) cs).

(** The shapes of the keys and roots: the key of a shard other than that of the provers is
    below the modulus of Poseidon. *)
Definition wellShaped (shard : ShardKey.t * list bytes) : Prop :=
  length (ShardKey.L2 shard.1) = 32%nat /\ (4 <= length shard.2)%nat /\
  (proverShard shard.1 = false -> forall b l, ShardKey.L2 shard.1 = b :: l -> byte_Z b < 64).

Lemma insertAll_app l l' ts : insertAll (l ++ l') ts = (ts ← insertAll l ts; insertAll l' ts).
Proof.
  revert ts. induction l as [|[[i key] commit] l IH]; intros ts; [done|]. cbn [app insertAll].
  destruct (insertAt ts i key commit); [apply IH|done..].
Qed.

Lemma insertEach_eq key commit indices ts :
  insertEach key commit indices ts = insertAll ((fun b => (Z.to_nat (byte_Z b), key, commit)) <$> indices) ts.
Proof. revert ts. induction indices as [|b indices IH]; intros ts; [done|]. cbn. destruct (insertAt _ _ _ _); [apply IH|done..]. Qed.

Lemma insertPhases_eq sk s phases ts :
  (forall phaseSet, phaseSet ∈ phases -> (phaseSet < length s)%nat) -> insertPhases sk s phases ts = insertAll (phases ≫= phaseInserts sk s) ts.
Proof.
  revert ts. induction phases as [|i phases IH]; intros ts Hp; [done|]. rewrite bind_cons, insertAll_app. cbn [insertPhases].
  destruct (lookup_lt_is_Some_2 s i) as [commit Hc]; [apply Hp; left|]. rewrite Hc, insertEach_eq.
  assert (phaseInserts sk s i = (fun b => (Z.to_nat (byte_Z b), foldedShardKey (ShardKey.L2 sk) i, commit)) <$> ShardKey.L1 sk) as -> by (unfold phaseInserts; by rewrite Hc).
  destruct (insertAll _ ts); [|done..]. cbn [mbind result_bind]. apply IH. intros j Hj. apply Hp. by right.
Qed.

Lemma foldShards_eq cs ts root :
  Forall wellShaped cs -> foldShards cs ts root = (ts ← insertAll (cs ≫= shardInserts) ts; Ok (ts, lastRoot cs root)).
Proof.
  intros Hcs. revert ts root. induction Hcs as [|[sk s] cs (_ & Hs & _) _ IH]; intros ts root; [done|].
  rewrite bind_cons, insertAll_app. cbn [foldShards fst snd] in *. unfold lastRoot. rewrite filter_cons. cbn [fst snd].
  assert (shardInserts (sk, s) = if proverShard sk then [] else [0; 1; 2; 3]%nat ≫= phaseInserts sk s) as -> by done.
  destruct (proverShard sk) eqn:Ep.
  - destruct (lookup_lt_is_Some_2 s 0) as [r Hr]; [lia|]. rewrite Hr, decide_True by done. cbn [insertAll mbind result_bind foldl snd]. rewrite Hr.
    by rewrite IH.
  - rewrite decide_False by done. rewrite insertPhases_eq; [|intros i Hi; repeat (apply elem_of_cons in Hi as [->|Hi]; [lia|]); by apply elem_of_nil in Hi].
    cbn [fst snd]. destruct (insertAll _ ts); [|done..]. cbn [mbind result_bind]. by rewrite IH.
Qed.

(** The map that the inserts into one tree leave. *)
Definition treeMap (j : nat) (l : list (nat * bytes * bytes)) (m : gmap bytes entry) : gmap bytes entry :=
  foldl (fun m '(i, key, commit) => if decide (i = j) then <[key := (Some commit, [], Z.of_nat (length commit))]> m else m) m l.

Section trees.
Context `{TreeCrypto}.

(** The trees are sound and hold the maps. *)
Definition treesHold (ts : list VectorCommitmentTree) (ms : nat -> gmap bytes entry) : Prop :=
  forall j t, ts !! j = Some t -> wf_tree t /\ coherentTree t /\ keysOfLength 32 (contents t) /\ contents t = ms j.

Lemma insertAt_spec ts ms i key commit :
  treesHold ts ms -> (i < length ts)%nat -> length key = 32%nat ->
  exists ts', insertAt ts i key commit = Ok ts' /\ length ts' = length ts /\
    treesHold ts' (fun j => treeMap j [(i, key, commit)] (ms j)).
Proof.
  intros Hts Hi Hk. destruct (lookup_lt_is_Some_2 ts i Hi) as [t Ht]. destruct (Hts i t Ht) as (Hwf & Hco & Hkl & Hc).
  set (o := OpInsert key (Some commit) [] (Z.of_nat (length commit))).
  assert (keyFits (contents t) (opKey o)) as Hfit by (apply keysOfLength_fits with 32%nat; [done..|intros En; change (key = []) in En; by subst key]).
  destruct (applyOp_spec t o Hwf Hfit) as (t' & Eo & Hwf' & Hc'). pose proof (applyOp_coherent t o t' Hwf Hfit Hco Eo) as Hco'.
  unfold insertAt. rewrite Ht. cbn [applyOp o] in Eo. rewrite Eo. eexists. split; [done|]. split; [by rewrite length_insert|].
  intros j u Hj. cbn [treeMap foldl]. destruct (decide (i = j)) as [<-|Hne].
  - rewrite list_lookup_insert_eq in Hj by done. injection Hj as <-. split_and!; [done..| |by rewrite Hc', Hc].
    rewrite Hc'. by apply keysOfLength_op.
  - rewrite list_lookup_insert_ne in Hj by done. by apply Hts.
Qed.

Lemma insertAll_spec l ts ms :
  treesHold ts ms -> Forall (fun x => (x.1.1 < length ts)%nat /\ length x.1.2 = 32%nat) l ->
  exists ts', insertAll l ts = Ok ts' /\ length ts' = length ts /\ treesHold ts' (fun j => treeMap j l (ms j)).
Proof.
  revert ts ms. induction l as [|[[i key] commit] l IH]; intros ts ms Hts Hl; [by exists ts|].
  apply Forall_cons_1 in Hl as [[Hi Hk] Hl]. destruct (insertAt_spec ts ms i key commit Hts Hi Hk) as (ts1 & E1 & Hlen1 & Hts1).
  cbn [insertAll]. rewrite E1. cbn [mbind result_bind].
  destruct (IH ts1 _ Hts1) as (ts2 & E2 & Hlen2 & Hts2); [by rewrite Hlen1|]. exists ts2. split; [done|]. split; [congruence|]. exact Hts2.
Qed.
End trees.

(** Inserts that agree on their keys. *)
Definition functional (l : list (nat * bytes * bytes)) : Prop :=
  forall i key c c', (i, key, c) ∈ l -> (i, key, c') ∈ l -> c = c'.

Lemma treeMap_lookup j l m k :
  functional l -> treeMap j l m !! k = (match List.find (fun x => bool_decide (x.1 = (j, k))) l with
                                        | Some x => Some (Some x.2, [], Z.of_nat (length x.2)) | None => m !! k end).
Proof.
  revert m. induction l as [|[[i key] c] l IH]; intros m Hf; [done|]. cbn [List.find fst].
  assert (functional l) as Hfl by (intros a b d d' Hd Hd'; eapply Hf; right; eassumption).
  unfold treeMap in *. cbn [foldl]. rewrite IH by done. case_bool_decide as Ex.
  - injection Ex as -> ->. destruct (List.find _ l) as [[[i' k'] c']|] eqn:Ef.
    + apply find_some in Ef as [Hin Heq]. apply bool_decide_eq_true in Heq. injection Heq as -> ->.
      apply list_elem_of_In in Hin. assert (c = c') as -> by (apply (Hf j k); [left|by right]). done.
    + rewrite decide_True by done. by rewrite lookup_insert_eq.
  - destruct (List.find _ l); [done|]. case_decide as Ej; [|done]. rewrite lookup_insert_ne; [done|]. congruence.
Qed.

(** The maps depend on the set of the inserts only. *)
Lemma treeMap_perm j l l' : l ≡ₚ l' -> functional l -> treeMap j l ∅ = treeMap j l' ∅.
Proof.
  intros Hp Hf. assert (functional l') as Hf' by (intros i k c c'; rewrite <- Hp; apply Hf).
  apply map_eq. intros k. rewrite !treeMap_lookup by done.
  destruct (List.find _ l) as [[ik c]|] eqn:E1, (List.find _ l') as [[ik' c']|] eqn:E2; [|exfalso|exfalso|done].
  - apply find_some in E1 as [H1 Eq1], E2 as [H2 Eq2]. apply bool_decide_eq_true in Eq1, Eq2. cbn [fst] in *. subst.
    apply list_elem_of_In in H1, H2. rewrite <- Hp in H2. cbn [snd]. by rewrite (Hf j k c c').
  - apply find_some in E1 as [H1 Eq1]. apply list_elem_of_In in H1. rewrite Hp in H1. apply list_elem_of_In in H1.
    pose proof (find_none _ _ E2 _ H1). cbn beta in *. congruence.
  - apply find_some in E2 as [H1 Eq1]. apply list_elem_of_In in H1. rewrite <- Hp in H1. apply list_elem_of_In in H1.
    pose proof (find_none _ _ E1 _ H1). cbn beta in *. congruence.
Qed.

Lemma folded_byte (b : byte) (phaseSet : nat) :
  byte_Z b < 64 -> (phaseSet < 4)%nat -> byte_Z (Z_byte (Z.lor (byte_Z b) (Z.shiftl (Z.of_nat phaseSet) 6))) = byte_Z b + 64 * Z.of_nat phaseSet.
Proof.
  intros Hb Hp. assert (Forall (fun p => Forall (fun b => byte_Z (Z_byte (Z.lor b (Z.shiftl (Z.of_nat p) 6))) = b + 64 * Z.of_nat p) (seqZ 0 64)) [0; 1; 2; 3]%nat) as HF by by_decide.
  rewrite Forall_forall in HF. specialize (HF phaseSet). rewrite Forall_forall in HF. pose proof (byte_Z_range b).
  apply HF; [|apply elem_of_seqZ; lia]. destruct phaseSet as [|[|[|[|]]]]; [repeat constructor..|lia].
Qed.

Lemma folded_inj l2 l2' (i i' : nat) :
  length l2 = 32%nat -> length l2' = 32%nat -> (forall b l, l2 = b :: l -> byte_Z b < 64) -> (forall b l, l2' = b :: l -> byte_Z b < 64) ->
  (i < 4)%nat -> (i' < 4)%nat -> foldedShardKey l2 i = foldedShardKey l2' i' -> l2 = l2' /\ i = i'.
Proof.
  intros Hl Hl' Hb Hb' Hi Hi' Heq. destruct l2 as [|b l], l2' as [|b' l']; try done. cbn [foldedShardKey] in Heq. injection Heq as Hbyte ->.
  apply (f_equal byte_Z) in Hbyte. specialize (Hb b _ eq_refl). specialize (Hb' b' _ eq_refl). rewrite !folded_byte in Hbyte by done.
  pose proof (byte_Z_range b). pose proof (byte_Z_range b'). assert (byte_Z b = byte_Z b' /\ i = i') as [Ez ->] by lia.
  split; [|done]. f_equal. rewrite <- (Z_byte_of b), <- (Z_byte_of b'). by rewrite Ez.
Qed.

(** Where an insert comes from. *)
Lemma elem_inserts cs i key c :
  (i, key, c) ∈ cs ≫= shardInserts ->
  exists shard phaseSet b, shard ∈ cs /\ proverShard shard.1 = false /\ (phaseSet < 4)%nat /\ shard.2 !! phaseSet = Some c /\
    i = Z.to_nat (byte_Z b) /\ key = foldedShardKey (ShardKey.L2 shard.1) phaseSet.
Proof.
  intros (shard & Hx & Hs)%list_elem_of_bind. unfold shardInserts in Hx. destruct (proverShard shard.1) eqn:Ep; [by apply elem_of_nil in Hx|].
  apply list_elem_of_bind in Hx as (p & Hx & Hp). unfold phaseInserts in Hx. destruct (shard.2 !! p) as [c'|] eqn:Ec; [|by apply elem_of_nil in Hx].
  apply list_elem_of_fmap in Hx as (b & [= -> -> ->] & _). exists shard, p, b. split_and!; try done.
  repeat (apply elem_of_cons in Hp as [->|Hp]; [lia|]). by apply elem_of_nil in Hp.
Qed.

(** The keys of a set of shards: different, and determined by their second part. *)
Definition keysDiffer (cs : list (ShardKey.t * list bytes)) : Prop :=
  NoDup cs.*1 /\ forall sk sk', sk ∈ cs.*1 -> sk' ∈ cs.*1 -> ShardKey.L2 sk = ShardKey.L2 sk' -> sk = sk'.

Lemma elem_unique {A B} (l : list (A * B)) x y : NoDup l.*1 -> x ∈ l -> y ∈ l -> x.1 = y.1 -> x = y.
Proof.
  destruct x as [a b], y as [a' b']. cbn. intros Hnd Hx Hy <-. f_equal. induction l as [|[a'' b''] l IH]; [by apply elem_of_nil in Hx|].
  rewrite fmap_cons in Hnd. apply NoDup_cons in Hnd as [Hn Hnd]. cbn [fst] in Hn.
  rewrite elem_of_cons in Hx, Hy. destruct Hx as [[= -> ->]|Hx], Hy as [Hy|Hy].
  - by injection Hy as ->.
  - destruct Hn. apply list_elem_of_fmap. by exists (a'', b').
  - injection Hy as -> ->. destruct Hn. apply list_elem_of_fmap. by exists (a'', b).
  - by apply IH.
Qed.

Lemma inserts_functional cs : Forall wellShaped cs -> keysDiffer cs -> functional (cs ≫= shardInserts).
Proof.
  rewrite Forall_forall. intros Hs [Hnd Hdet] i key c c' (x & p & b & Hx & Ex & Hp & Hc & _ & ->)%elem_inserts (y & q & b' & Hy & Ey & Hq & Hc' & _ & Heq)%elem_inserts.
  destruct (Hs x Hx) as (Hlx & _ & Hbx), (Hs y Hy) as (Hly & _ & Hby).
  destruct (folded_inj _ _ _ _ Hlx Hly (Hbx Ex) (Hby Ey) Hp Hq Heq) as [Hl2 <-].
  assert (x = y) as <- by (apply (elem_unique cs); [done..|]; apply Hdet; [by apply list_elem_of_fmap_2..|done]). congruence.
Qed.

Lemma foldedShardKey_length l2 i : length (foldedShardKey l2 i) = length l2.
Proof. by destruct l2. Qed.

Lemma perm_singleton {A} (l l' : list A) : l ≡ₚ l' -> (forall x y, x ∈ l -> y ∈ l -> x = y) -> NoDup l -> l = l'.
Proof.
  intros Hp Hu Hnd. destruct l as [|x [|y l]].
  - by apply Permutation_nil_l in Hp.
  - by apply Permutation_singleton_l in Hp.
  - exfalso. apply NoDup_cons in Hnd as [Hx _]. rewrite (Hu x y) in Hx by set_solver. by destruct Hx; left.
Qed.

Lemma lastRoot_perm cs cs' root :
  cs ≡ₚ cs' -> NoDup cs.*1 -> (forall sk sk', sk ∈ cs.*1 -> sk' ∈ cs.*1 -> proverShard sk = true -> proverShard sk' = true -> sk = sk') ->
  lastRoot cs root = lastRoot cs' root.
Proof.
  intros Hp Hnd Hone. unfold lastRoot. f_equal. apply perm_singleton; [by rewrite Hp| |apply NoDup_filter; by eapply NoDup_fmap_1].
  intros x y [Ex Hx]%list_elem_of_filter [Ey Hy]%list_elem_of_filter. apply (elem_unique cs); [done..|].
  apply Hone; [by apply list_elem_of_fmap_2..|done|done].
Qed.

Section order.
Context `{TreeCrypto}.

Lemma foldShards_spec cs root :
  Forall wellShaped cs -> exists ts, foldShards cs (replicate 256 emptyTree) root = Ok (ts, lastRoot cs root) /\ length ts = 256%nat /\
    treesHold ts (fun j => treeMap j (cs ≫= shardInserts) ∅).
Proof.
  intros Hcs. rewrite foldShards_eq by done. destruct (insertAll_spec (cs ≫= shardInserts) (replicate 256 emptyTree) (fun _ => ∅)) as (ts & Ei & Hlen & Hts).
  - intros j t Hj. apply lookup_replicate in Hj as [-> _]. split_and!; try done. intros k [e He]. done.
  - apply Forall_forall. intros [[i key] c] (shard & p & b & Hs & _ & _ & _ & -> & ->)%elem_inserts. cbn [fst snd].
    rewrite length_replicate, foldedShardKey_length. rewrite Forall_forall in Hcs. destruct (Hcs shard Hs) as (Hl & _). pose proof (byte_Z_range b). split; [lia|done].
  - rewrite length_replicate in Hlen. rewrite Ei. by exists ts.
Qed.

Lemma commitTrees_eq ts ts' ms :
  length ts = length ts' -> treesHold ts ms -> treesHold ts' ms -> commitTrees ts = commitTrees ts'.
Proof.
  intros Hlen Hts Hts'. unfold commitTrees. apply list_eq_same_length with (length ts); [by rewrite length_fmap|by rewrite length_fmap|].
  intros i x y _ Hx Hy. rewrite list_lookup_fmap in Hx, Hy. destruct (ts !! i) as [t|] eqn:Et; [|done]. destruct (ts' !! i) as [t'|] eqn:Et'; [|done].
  injection Hx as <-. injection Hy as <-. destruct (Hts i t Et) as (Hwf & Hco & _ & Hc), (Hts' i t' Et') as (Hwf' & Hco' & _ & Hc').
  destruct (Commit_spec t false Hwf Hco) as [-> _]. destruct (Commit_spec t' false Hwf' Hco') as [-> _]. apply rootOf_canonical; [done..|]. by rewrite Hc, Hc'.
Qed.

(** The commitments have the lengths that a header admits. *)
Lemma commitTrees_lengths ts ms :
  (forall d, length (sha512 d) = 64%nat) -> (forall d, slotVector d -> rootLength (CommitRaw d 64) = true) -> treesHold ts ms ->
  forallb rootLength (commitTrees ts) = true.
Proof.
  intros Hs Hc Hts. apply forallb_forall. intros x Hx. apply list_elem_of_In, list_elem_of_fmap in Hx as (t & -> & Ht).
  apply list_elem_of_lookup in Ht as [i Hi]. destruct (Hts i t Hi) as (Hwf & Hco & _). destruct (Commit_spec t false Hwf Hco) as [-> _].
  unfold rootOf, wf_tree in *. destruct (Root t) as [[l|b]|]; [| |done].
  - unfold rootLength. cbn [commitOf]. unfold leafHash. rewrite Hs. done.
  - rewrite commitOf_branch. apply Hc. by eapply (vector_wf Hs).
Qed.
End order.

Section collected.
Context `{T : TreeCrypto} `{F : FrameCrypto} {D : Type} `{!Decimal D} {W : Type}.
Context (engineCost : executionEngine -> bytes -> result Z) (processMessage : Z -> Z -> bytes -> bytes -> stateRef -> M W stateRef).
Context (currentDifficulty : Z) (worldSize : W -> Z).

Abbreviation collects := (Collect (D := D) engineCost processMessage currentDifficulty worldSize).
Abbreviation accepts := (acceptMessages (D := D) engineCost processMessage currentDifficulty worldSize).

(** The messages that are executed. *)
Definition allMessages (mixnetMessages : list Message.t) (c : collector) : list Message.t :=
  mixnetMessages ++ (Message.mk globalAddress <$> pending c).

Lemma Collect_eq mixnetMessages head cs proverAddress c w accepted w' ts root :
  accepts (u64 (default 0 head + 1)) (ThisState, []) (allMessages mixnetMessages c) w = (Ok accepted, w') ->
  foldShards (cs w') (replicate 256 emptyTree) (replicate 64 Byte.x00) = Ok (ts, root) ->
  collects mixnetMessages head cs proverAddress (c, w) =
    (Ok (mkCollected (u64 (default 0 head + 1)) (sha3 (concat (commitTrees ts) ++ root)) proverAddress),
     (mkCollector [] (commitTrees ts) root (sha3 (concat (commitTrees ts) ++ root)) (Message.Payload <$> accepted.2), w')).
Proof.
  intros Ha Hf. unfold Collect, takePending, onWorld, gets, mbind, M_bind, lift, modify. cbn [fst snd]. fold (allMessages mixnetMessages c).
  rewrite Ha. cbn [fst snd]. by rewrite Hf.
Qed.

(** The roots of a hypergraph: the keys differ, and there is one shard of provers. *)
Definition rootsOk (cs : list (ShardKey.t * list bytes)) : Prop :=
  Forall wellShaped cs /\ keysDiffer cs /\
  (forall sk sk', sk ∈ cs.*1 -> sk' ∈ cs.*1 -> proverShard sk = true -> proverShard sk' = true -> sk = sk').

Lemma foldShards_order cs cs' :
  rootsOk cs -> cs ≡ₚ cs' ->
  exists ts ts' root, foldShards cs (replicate 256 emptyTree) (replicate 64 Byte.x00) = Ok (ts, root) /\
    foldShards cs' (replicate 256 emptyTree) (replicate 64 Byte.x00) = Ok (ts', root) /\ commitTrees ts = commitTrees ts' /\
    length ts = 256%nat /\
    ((forall d, length (sha512 d) = 64%nat) -> (forall d, slotVector d -> rootLength (CommitRaw d 64) = true) -> forallb rootLength (commitTrees ts) = true).
Proof.
  intros (Hcs & Hkeys & Hone) Hp. assert (Forall wellShaped cs') as Hcs' by (by rewrite <- Hp).
  destruct (foldShards_spec cs (replicate 64 Byte.x00) Hcs) as (ts & Ef & Hlen & Hts).
  destruct (foldShards_spec cs' (replicate 64 Byte.x00) Hcs') as (ts' & Ef' & Hlen' & Hts').
  destruct Hkeys as [Hnd Hdet]. rewrite <- (lastRoot_perm cs cs' _ Hp Hnd Hone) in Ef'.
  exists ts, ts', (lastRoot cs (replicate 64 Byte.x00)). split_and!; [done..| |done|by intros; eapply commitTrees_lengths].
  apply (commitTrees_eq _ _ (fun j => treeMap j (cs ≫= shardInserts) ∅)); [congruence|done|]. intros j t Hj.
  destruct (Hts' j t Hj) as (? & ? & ? & Hcn). split; [done|]. split; [done|]. split; [done|]. rewrite Hcn. symmetry.
  apply treeMap_perm; [by rewrite Hp|by apply inserts_functional].
Qed.

(** C30: the commitments do not depend on the order in which Go visits the map of shards, so
    that the participants agree on them: Collect gives the same result and leaves the same
    state for every order.  It fails only if a request makes it fail; otherwise it takes all
    pending requests and leaves 256 commitments of the lengths that a header admits. *)
Theorem collect_order_independent mixnetMessages head cs cs' proverAddress c w :
  (forall w, rootsOk (cs w) /\ cs w ≡ₚ cs' w) -> (forall d, length (sha512 d) = 64%nat) -> (forall d, slotVector d -> rootLength (CommitRaw d 64) = true) ->
  collects mixnetMessages head cs proverAddress (c, w) = collects mixnetMessages head cs' proverAddress (c, w) /\
  forall accepted w', accepts (u64 (default 0 head + 1)) (ThisState, []) (allMessages mixnetMessages c) w = (Ok accepted, w') ->
  exists collected c', collects mixnetMessages head cs proverAddress (c, w) = (Ok collected, (c', w')) /\ pending c' = [] /\
    length (shardCommitments c') = 256%nat /\ forallb rootLength (shardCommitments c') = true /\
    collectedMessages c' = Message.Payload <$> accepted.2 /\
    commitmentHash collected = sha3 (concat (shardCommitments c') ++ proverRoot c').
Proof.
  intros Hcs Hs Hc. split.
  - unfold Collect, mbind, M_bind, lift, takePending, onWorld, gets. cbn [fst snd].
    destruct (acceptMessages _ _ _ _ _ _ _ _) as [[accepted| | |] w']; try done. cbn [fst snd].
    destruct (Hcs w') as [Hok Hp]. destruct (foldShards_order _ _ Hok Hp) as (ts & ts' & root & -> & -> & Ec & _). cbn [fst snd]. by rewrite Ec.
  - intros accepted w' Ha. destruct (Hcs w') as [Hok Hp]. destruct (foldShards_order _ _ Hok Hp) as (ts & ts' & root & Ef & _ & _ & Hlen & Hroot).
    eexists _, _. split; [by eapply Collect_eq|]. cbn. split_and!; try done; [by unfold commitTrees; rewrite length_fmap|by apply Hroot].
Qed.

(** ** Requests without a cost *)

Lemma PomwBasis_total difficulty w units : (exists z, PomwBasis (D := D) difficulty w units = Ok z) \/ PomwBasis (D := D) difficulty w units = Panic.
Proof.
  unfold PomwBasis, div. destruct (IsZero (ofInt w)); [by right|]. cbn [mbind result_bind]. destruct (IsZero _); [by right|]. cbn [mbind result_bind].
  destruct (PowWithPrecision _ _ _); eauto.
Qed.

Lemma GetBaselineFee_total difficulty w added units :
  (exists z, GetBaselineFee (D := D) difficulty w added units = Ok z) \/ GetBaselineFee (D := D) difficulty w added units = Panic.
Proof.
  unfold GetBaselineFee. destruct (PomwBasis_total difficulty w units) as [[a ->]| ->]; [|by right]. cbn [mbind result_bind].
  destruct (PomwBasis_total difficulty (u64 (w + added)) units) as [[b ->]| ->]; [|by right]. cbn [mbind result_bind]. destruct (_ =? 0); [by right|]. cbn. eauto.
Qed.

(** The fee per unit of a message without a cost is a division by zero. *)
Lemma free_message_panics n acc m w : GetCost engineCost (Message.Payload m) = Ok 0 ->
  acceptMessage (D := D) engineCost processMessage currentDifficulty worldSize n acc m w = (Panic, w).
Proof.
  intros Hc. unfold acceptMessage. rewrite Hc. unfold unitFee, mbind, M_bind, gets, lift.
  by destruct (GetBaselineFee_total currentDifficulty (worldSize w) (u64 0) 8000000000) as [[z ->]| ->].
Qed.

Lemma accepts_app n acc l l' w : accepts n acc (l ++ l') w = (acc ← accepts n acc l; accepts n acc l') w.
Proof.
  revert acc w. induction l as [|m l IH]; intros acc w; [done|]. cbn [app acceptMessages]. unfold mbind, M_bind in *.
  destruct (acceptMessage _ _ _ _ _ _ _ _) as [[acc'| | |] w']; [apply IH|done..].
Qed.

Lemma materializes_app n ref l l' w :
  materializeAll (D := D) engineCost processMessage currentDifficulty worldSize n ref (l ++ l') w
  = (ref ← materializeAll (D := D) engineCost processMessage currentDifficulty worldSize n ref l;
     materializeAll (D := D) engineCost processMessage currentDifficulty worldSize n ref l') w.
Proof.
  revert ref w. induction l as [|r l IH]; intros ref w; [done|]. cbn [app materializeAll]. unfold mbind, M_bind in *.
  destruct (materializeRequest _ _ _ _ _ _ _ _) as [[ref'| | |] w']; [apply IH|done..].
Qed.

(** A message that Collect accepts materialises to the same state. *)
Lemma accept_materializes n ref ref' l l' data request w w' :
  MessageBundle.ToCanonicalBytes request = Ok data ->
  acceptMessage (D := D) engineCost processMessage currentDifficulty worldSize n (ref, l) (Message.mk globalAddress data) w = (Ok (ref', l'), w') ->
  (l' = l /\ ref' = ref) \/
  (l' = l ++ [Message.mk globalAddress data] /\
   materializeRequest (D := D) engineCost processMessage currentDifficulty worldSize n ref request w = (Ok ref', w')).
Proof.
  intros Hr Ha. unfold acceptMessage in Ha. unfold materializeRequest, mbind, M_bind, lift. rewrite Hr.
  cbn [Message.Payload Message.Address fst snd] in *.
  assert ((length data =? 0)%nat = false) as ->.
  { pose proof (canonical_nonempty request data Hr). by destruct data. }
  destruct (GetCost engineCost data) as [cost| | |]; [|by injection Ha as <- <- <-; left|done..].
  unfold mbind, M_bind in Ha. destruct (unitFee _ _ _ _) as [[fee| | |] w1] eqn:Ef; try done.
  assert (w1 = w) as ->.
  { unfold unitFee, mbind, M_bind, gets, lift in Ef. destruct (GetBaselineFee _ _ _ _); try done. destruct (cost =? 0); [done|]. by injection Ef as _ <-. }
  unfold attempt in Ha. destruct (processMessage _ _ _ _ _ _) as [[r1| | |] w1] eqn:Ep; try done; injection Ha as <- <- <-; [by right|by left].
Qed.

(** The encoding of a bundle without requests. *)
Definition emptyBundle (timestamp : Z) : bytes := writeU32 MessageBundleType ++ writeU32 0 ++ writeU64 timestamp.

Lemma emptyBundle_decodes timestamp :
  is_i 64 timestamp -> typePrefix (emptyBundle timestamp) = Some MessageBundleType /\
  MessageBundle.FromCanonicalBytes (emptyBundle timestamp) = Ok (MessageBundle.mk [] timestamp).
Proof.
  intros Ht. split; [by apply typePrefix_write|]. assert (fits (MessageBundle.mk [] timestamp)) as Hf by by split_and!.
  exact (canonical_exact (MessageBundle.mk [] timestamp) (emptyBundle timestamp) Hf eq_refl).
Qed.

(** C33: sixteen bytes from any peer stop the consensus of a participant.  A bundle without
    requests is accepted and collected; its cost is zero, as is that of every request to join,
    leave or confirm a prover, and Collect, which divides the baseline fee by the cost,
    panics, whatever else it has collected. *)
Theorem empty_bundle_stops_collect `{Environment} network activeProvers shardProvers range now ed448Verify alertPublicKey timestamp e :
  participates network = true -> is_i 64 timestamp -> timestamp <> 0 -> now / 10 ^ 6 - 5000 <= timestamp <= now / 10 ^ 6 + 5000 ->
  length (emptyBundle timestamp) = 16%nat /\
  receive network activeProvers shardProvers range now ed448Verify alertPublicKey TopicProver (emptyBundle timestamp) e =
    (Ok tt, set_pendingMessages (pendingMessages e ++ [emptyBundle timestamp]) e) /\
  forall mixnetMessages head cs proverAddress c w accepted w',
    pending c = pendingMessages e ++ [emptyBundle timestamp] ->
    accepts (u64 (default 0 head + 1)) (ThisState, []) (mixnetMessages ++ (Message.mk globalAddress <$> pendingMessages e)) w = (Ok accepted, w') ->
    (collects mixnetMessages head cs proverAddress (c, w)).1 = Panic.
Proof.
  intros Hpart Ht Hne Hnow. destruct (emptyBundle_decodes timestamp Ht) as [Hty Hd]. split; [done|]. split.
  - unfold receive, subscribed, queued, mbind, M_bind, lift, validate, process, validateProverMessage. cbn [negb]. rewrite Hty, Hd.
    cbn [Z.eqb orReject MessageBundle.Validate MessageBundle.Requests MessageBundle.Timestamp validateEach].
    rewrite Z.eqb_refl. cbn [orReject]. rewrite (proj2 (Z.eqb_neq _ _) Hne). cbn [mbind result_bind orReject].
    rewrite !(proj2 (Z.ltb_ge _ _)) by lia. cbn [orb]. rewrite Hpart. unfold handleProverMessage. rewrite (peek_type _ _ Hty), Z.eqb_refl. done.
  - intros mix head cs addr c w accepted w' Hpend Ha. unfold Collect, takePending, onWorld, mbind, M_bind, lift. cbn [fst snd].
    rewrite Hpend, fmap_app, app_assoc, accepts_app. unfold mbind, M_bind. rewrite Ha. cbn [fmap list_fmap acceptMessages].
    unfold mbind, M_bind. rewrite free_message_panics; [done|]. cbn [Message.Payload]. unfold GetCost. by rewrite Hty, Hd.
Qed.
End collected.
