(* ===== verification/GlobalIntrinsic.v ===== *)
(** * The global intrinsic (node/execution/intrinsics/global)

    The operations by which provers join, confirm or reject, leave, pause, resume and update
    their allocations to shards, and are kicked.  Each has Verify, which reads the hypergraph,
    Materialize, which changes the pending state, and Prove, which signs.  Provers and
    allocations are vertices whose data follow GLOBAL_RDF_SCHEMA; a hyperedge of the address of
    the prover holds its allocations.  The tags of the schema are parsed once; that the cache of
    the multiprover does not change them is shown in RdfMultiprover. *)

From S2P Require Import Prelude ProofTree ProofTreeWf ProofTreeOps ProofTreeMap ProofTreeCommit ProofTreeProve ProofTreeCanon Wire ProofTreeSerial.
From S2P Require Import CanonicalTypes Keys KeyRegistry Global Frames OrderEncoding RdfMultiprover Messages ForkChoice Stateful GlobalTimeReel.
From S2P Require Import FrameProver FrameValidator GlobalMessages HypergraphState.

Definition GLOBAL_RDF_SCHEMA : string := "BASE <https://types.quilibrium.com/schema-repository/>
PREFIX rdf: <http://www.w3.org/1999/02/22-rdf-syntax-ns#>
PREFIX rdfs: <http://www.w3.org/2000/01/rdf-schema#>
PREFIX qcl: <https://types.quilibrium.com/qcl/>
PREFIX prover: <https://types.quilibrium.com/schema-repository/global/prover/>
PREFIX allocation: <https://types.quilibrium.com/schema-repository/global/allocation/>
PREFIX reward: <https://types.quilibrium.com/schema-repository/global/reward/>

prover:Prover a rdfs:Class.
prover:PublicKey a rdfs:Property;
  rdfs:domain qcl:ByteArray;
  qcl:size 585;
  qcl:order 0;
  rdfs:range prover:Prover.
prover:Status a rdfs:Property;
  rdfs:domain qcl:Uint;
  qcl:size 1;
  qcl:order 1;
  rdfs:range prover:Prover.
prover:AvailableStorage a rdfs:Property;
  rdfs:domain qcl:Uint;
	qcl:size 8;
	qcl:order 2;
	rdfs:range prover:Prover.
prover:Seniority a rdfs:Property;
	rdfs:domain qcl:Uint;
	qcl:size 8;
	qcl:order 3;
	rdfs:range prover:Prover.
prover:KickFrameNumber a rdfs:Property;
	rdfs:domain qcl:Uint;
	qcl:size 8;
	qcl:order 4;
	rdfs:range prover:Prover.

allocation:ProverAllocation a rdfs:Class.
allocation:Prover a rdfs:Property;
  rdfs:domain prover:Prover;
	qcl:order 0;
	rdfs:range allocation:ProverAllocation.
allocation:Status a rdfs:Property;
  rdfs:domain qcl:Uint;
  qcl:size 1;
  qcl:order 1;
  rdfs:range allocation:ProverAllocation.
allocation:ConfirmationFilter a rdfs:Property;
  rdfs:domain qcl:ByteArray;
  qcl:size 64;
  qcl:order 2;
  rdfs:range allocation:ProverAllocation.
allocation:RejectionFilter a rdfs:Property;
  rdfs:domain qcl:ByteArray;
  qcl:size 64;
  qcl:order 3;
  rdfs:range allocation:ProverAllocation.
allocation:JoinFrameNumber a rdfs:Property;
  rdfs:domain qcl:Uint;
  qcl:size 8;
  qcl:order 4;
  rdfs:range allocation:ProverAllocation.
allocation:LeaveFrameNumber a rdfs:Property;
  rdfs:domain qcl:Uint;
  qcl:size 8;
  qcl:order 5;
  rdfs:range allocation:ProverAllocation.
allocation:PauseFrameNumber a rdfs:Property;
  rdfs:domain qcl:Uint;
  qcl:size 8;
  qcl:order 6;
  rdfs:range allocation:ProverAllocation.
allocation:ResumeFrameNumber a rdfs:Property;
  rdfs:domain qcl:Uint;
  qcl:size 8;
  qcl:order 7;
  rdfs:range allocation:ProverAllocation.
allocation:KickFrameNumber a rdfs:Property;
  rdfs:domain qcl:Uint;
  qcl:size 8;
  qcl:order 8;
  rdfs:range allocation:ProverAllocation.
allocation:JoinConfirmFrameNumber a rdfs:Property;
  rdfs:domain qcl:Uint;
  qcl:size 8;
  qcl:order 9;
  rdfs:range allocation:ProverAllocation.
allocation:JoinRejectFrameNumber a rdfs:Property;
  rdfs:domain qcl:Uint;
  qcl:size 8;
  qcl:order 10;
  rdfs:range allocation:ProverAllocation.
allocation:LeaveConfirmFrameNumber a rdfs:Property;
  rdfs:domain qcl:Uint;
  qcl:size 8;
  qcl:order 11;
  rdfs:range allocation:ProverAllocation.
allocation:LeaveRejectFrameNumber a rdfs:Property;
  rdfs:domain qcl:Uint;
  qcl:size 8;
  qcl:order 12;
  rdfs:range allocation:ProverAllocation.
allocation:LastActiveFrameNumber a rdfs:Property;
  rdfs:domain qcl:Uint;
	qcl:size 8;
	qcl:order 13;
	rdfs:range allocation:ProverAllocation.

reward:ProverReward a rdfs:Class.
reward:DelegateAddress a rdfs:Property;
  rdfs:domain qcl:ByteArray;
  qcl:size 32;
  qcl:order 0;
  rdfs:range reward:ProverReward.
reward:Balance a rdfs:Property;
  rdfs:domain qcl:ByteArray;
  qcl:size 32;
  qcl:order 1;
  rdfs:range reward:ProverReward.
".

Definition GLOBAL_INTRINSIC_ADDRESS : bytes := replicate 32 Byte.xff.
Definition QUIL_TOKEN_ADDRESS : bytes :=
  [Byte.x11; Byte.x55; Byte.x85; Byte.x84; Byte.xaf; Byte.x70; Byte.x17; Byte.xa9; Byte.xbf; Byte.xd1; Byte.xff; Byte.x18; Byte.x64; Byte.x30; Byte.x2d; Byte.x64;
   Byte.x3f; Byte.xbe; Byte.x58; Byte.xc6; Byte.x2d; Byte.xcf; Byte.x90; Byte.xcb; Byte.xcd; Byte.x8f; Byte.xde; Byte.x74; Byte.xa2; Byte.x67; Byte.x94; Byte.xd9].

(** ** The libraries *)

(** keys.KeyManager, as far as operations are verified: the type of the key, the key, the
    message, the signature and its domain. *)
Class KeyManager := { ValidateSignature : Z -> bytes -> bytes -> bytes -> bytes -> result bool }.

(** Peer identities of go-libp2p, and the seniorities of compat/. *)
Class Seniorities := { peerIdOf : bytes -> result string; GetAggregatedSeniority : list string -> Z }.

Definition keyTypeEd448 : Z := 0.
Definition keyTypeBLS48581G1 : Z := 2.

(** ** The operations as Go structures *)

(** ProverConfirm, ProverReject, ProverPause and ProverResume, which have the same fields. *)
Module FilterOp.
Record t := mk { Filter : bytes; FrameNumber : Z; Signature : BLS48581AddressedSignature.t }.
End FilterOp.

Module LeaveOp.
Record t := mk { Filters : list bytes; FrameNumber : Z; Signature : BLS48581AddressedSignature.t }.
End LeaveOp.

Module JoinOp.
Record t := mk {
  Filters : list bytes;
  FrameNumber : Z;
  PublicKey : bytes;
  Signature : bytes;
  PopSignature : bytes;
  MergeTargets : list SeniorityMerge.t;
  DelegateAddress : bytes
}.
End JoinOp.

(** ** Reading and writing fields *)

Definition prover : string := "prover:Prover".
Definition allocation : string := "allocation:ProverAllocation".
Definition reward : string := "reward:ProverReward".

Section operations.
Context {G : Type} `{Hypergraph G} `{TreeCrypto} `{PoseidonHash} `{RDFParser} `{KeyManager} `{Seniorities}.

Abbreviation S := (hypergraphState G).

(** rdfMultiprover.Get on a tree. *)
Definition fieldOf (class field : string) (t : VectorCommitmentTree) : result bytes :=
  tags ← GetTagsByClass GLOBAL_RDF_SCHEMA; getIn tags class field t.

Definition rdfGet (class field : string) (p : ptr) : M S bytes := t ← deref p; lift (fieldOf class field t).

Definition rdfSet (domain : bytes) (class field : string) (value : bytes) (p : ptr) : M S unit :=
  tags ← lift (GetTagsByClass GLOBAL_RDF_SCHEMA);
  update p (setIn tags domain class field (Some value)).

Definition setAllocation (field : string) (value : bytes) (p : ptr) : M S unit :=
  rdfSet GLOBAL_INTRINSIC_ADDRESS allocation field value p.

(** The status of an allocation; an empty field is zero. *)
Definition statusByte (b : bytes) : Z := match b with [] => 0 | b :: _ => byte_Z b end.

Definition allocationAddress (publicKey filter : bytes) : result bytes :=
  h ← HashBytes (stringBytes "PROVER_ALLOCATION" ++ publicKey ++ filter); FillBytes32 h.

Definition addressOf (publicKey : bytes) : result bytes := h ← HashBytes publicKey; FillBytes32 h.

(** A vertex that has to be there; [missing] is the error if it is not. *)
Definition getTree (missing : string) (domain address : bytes) : M S ptr :=
  r ← attempt (Get domain address VertexAddsDiscriminator);
  match r with
  | Ok (ObjTree (Some p)) => mret p
  | Ok _ => lift (Err "invalid object returned for vertex")
  | _ => lift (Err missing)
  end.

(** The value recorded as the prior one; the type assertion panics on a hyperedge. *)
Definition getPrior (domain address : bytes) : M S (option ptr) :=
  r ← attempt (Get domain address VertexAddsDiscriminator);
  match r with
  | Ok (ObjTree t) => mret t
  | Ok (ObjHyperedge _) => lift Panic
  | _ => mret None
  end.

Definition setVertex (domain address : bytes) (frameNumber : Z) (prior : option ptr) (data : ptr) : M S unit :=
  app ← lift (array32 domain);
  addr ← lift (array32 address);
  Set_ domain address VertexAddsDiscriminator frameNumber (VertexAddMaterializedState app addr frameNumber prior data).

(** ** UpdateAggregateProverStatus *)

(** The statuses of the allocations of a hyperedge, in the order of its leaves. *)
Fixpoint allocationStatuses (vertices : list leaf) : M S (list Z) :=
  match vertices with
  | [] => mret []
  | v :: vertices =>
    if (length (Key v) <? 32)%nat then lift Panic
    else if negb (bool_decide (take 32 (Key v) = GLOBAL_INTRINSIC_ADDRESS)) then
      lift (Err "hyperedge includes non prover allocation vertex")
    else
      r ← attempt (Get (take 32 (Key v)) (drop 32 (Key v)) VertexAddsDiscriminator);
      match r with
      | Ok (ObjTree (Some tree)) =>
        status ← attempt (rdfGet allocation "Status" tree);
        rest ← allocationStatuses vertices;
        mret (match status with Ok (b :: _) => byte_Z b :: rest | _ => rest end)
      | Ok _ => lift (Err "invalid object returned for vertex")
      | _ => allocationStatuses vertices
      end
  end.

Definition aggregateStatus (statuses : list Z) : Z :=
  if bool_decide (1 ∈ statuses) then 1
  else if bool_decide (0 ∈ statuses) then 0
  else if bool_decide (3 ∈ statuses) then 3
  else if bool_decide (2 ∈ statuses) then 2
  else 4.

Definition setProverStatus (status : Z) (proverTree : ptr) : M S unit :=
  rdfSet GLOBAL_INTRINSIC_ADDRESS prover "Status" [Z_byte status] proverTree.

Definition UpdateAggregateProverStatus (proverAddress : bytes) (frameNumber : Z) (proverTree : ptr) : M S unit :=
  r ← attempt (Get GLOBAL_INTRINSIC_ADDRESS (copy32 proverAddress) HyperedgeAddsDiscriminator);
  match r with
  | Ok (ObjHyperedge he) =>
    t ← deref (Hyperedge.extTree he);
    statuses ← allocationStatuses (leaves_opt (Root t));
    _ ← setProverStatus (aggregateStatus statuses) proverTree;
    existing ← attempt (Get GLOBAL_INTRINSIC_ADDRESS proverAddress VertexAddsDiscriminator);
    match existing with
    | Ok _ => setVertex GLOBAL_INTRINSIC_ADDRESS proverAddress frameNumber None proverTree
    | _ => lift Panic
    end
  | Ok (ObjTree _) => lift (Err "invalid object returned for hyperedge")
  | _ => setProverStatus 4 proverTree
  end.

(** ** Confirm, reject, pause and resume *)

(** The prover and the allocation an operation is about: the tree of the prover, the address
    and the tree of the allocation. *)
Definition loadAllocation (op : FilterOp.t) : M S (ptr * bytes * ptr) :=
  proverTree ← getTree "prover not found" GLOBAL_INTRINSIC_ADDRESS (copy32 (BLS48581AddressedSignature.Address (FilterOp.Signature op)));
  publicKey ← rdfGet prover "PublicKey" proverTree;
  address ← lift (allocationAddress publicKey (FilterOp.Filter op));
  allocationTree ← getTree "allocation not found" GLOBAL_INTRINSIC_ADDRESS address;
  mret (proverTree, address, allocationTree).

(** The end of the four Materialize methods. *)
Definition storeAllocation (op : FilterOp.t) (frameNumber : Z) (proverTree : ptr) (address : bytes) (allocationTree : ptr) : M S unit :=
  prior ← getPrior GLOBAL_INTRINSIC_ADDRESS address;
  _ ← setVertex GLOBAL_INTRINSIC_ADDRESS address frameNumber prior allocationTree;
  UpdateAggregateProverStatus (BLS48581AddressedSignature.Address (FilterOp.Signature op)) frameNumber proverTree.

(** A new status and the frame number of the operation. *)
Definition setStatus (status : Z) (frameField : string) (op : FilterOp.t) (allocationTree : ptr) : M S unit :=
  _ ← setAllocation "Status" [Z_byte status] allocationTree;
  setAllocation frameField (be 8 (FilterOp.FrameNumber op)) allocationTree.

Definition Confirm_Materialize (op : FilterOp.t) (frameNumber : Z) : M S unit :=
  '(proverTree, address, allocationTree) ← loadAllocation op;
  statusBytes ← rdfGet allocation "Status" allocationTree;
  let status := statusByte statusBytes in
  _ ← (if status =? 0 then setStatus 1 "JoinConfirmFrameNumber" op allocationTree
       else if status =? 3 then setStatus 4 "LeaveConfirmFrameNumber" op allocationTree
       else mret tt);
  storeAllocation op frameNumber proverTree address allocationTree.

Definition Reject_Materialize (op : FilterOp.t) (frameNumber : Z) : M S unit :=
  '(proverTree, address, allocationTree) ← loadAllocation op;
  statusBytes ← rdfGet allocation "Status" allocationTree;
  let status := statusByte statusBytes in
  _ ← (if status =? 0 then setStatus 4 "JoinRejectFrameNumber" op allocationTree
       else if status =? 3 then setStatus 1 "LeaveRejectFrameNumber" op allocationTree
       else mret tt);
  storeAllocation op frameNumber proverTree address allocationTree.

Definition Pause_Materialize (op : FilterOp.t) (frameNumber : Z) : M S unit :=
  '(proverTree, address, allocationTree) ← loadAllocation op;
  _ ← setStatus 2 "PauseFrameNumber" op allocationTree;
  storeAllocation op frameNumber proverTree address allocationTree.

Definition Resume_Materialize (op : FilterOp.t) (frameNumber : Z) : M S unit :=
  '(proverTree, address, allocationTree) ← loadAllocation op;
  _ ← setStatus 1 "ResumeFrameNumber" op allocationTree;
  storeAllocation op frameNumber proverTree address allocationTree.

(** ** Leave *)

Definition leaveFilter (frameNumber opFrame : Z) (publicKey filter : bytes) : M S unit :=
  address ← lift (allocationAddress publicKey filter);
  r ← attempt (Get GLOBAL_INTRINSIC_ADDRESS address VertexAddsDiscriminator);
  match r with
  | Ok (ObjTree (Some allocationTree)) =>
    _ ← setAllocation "Status" [Z_byte 3] allocationTree;
    _ ← setAllocation "LeaveFrameNumber" (be 8 opFrame) allocationTree;
    prior ← getPrior GLOBAL_INTRINSIC_ADDRESS address;
    setVertex GLOBAL_INTRINSIC_ADDRESS address frameNumber prior allocationTree
  | _ => mret tt
  end.

Definition Leave_Materialize (op : LeaveOp.t) (frameNumber : Z) : M S unit :=
  let proverAddress := BLS48581AddressedSignature.Address (LeaveOp.Signature op) in
  proverTree ← getTree "prover not found" GLOBAL_INTRINSIC_ADDRESS (copy32 proverAddress);
  publicKey ← rdfGet prover "PublicKey" proverTree;
  _ ← each (leaveFilter frameNumber (LeaveOp.FrameNumber op) publicKey) (LeaveOp.Filters op);
  UpdateAggregateProverStatus proverAddress frameNumber proverTree.

(** ** Join *)

(** The peer identities of the Ed448 keys among the merge targets. *)
Fixpoint mergePeers (targets : list SeniorityMerge.t) : result (list string) :=
  match targets with
  | [] => Ok []
  | t :: targets =>
    if SeniorityMerge.KeyType t =? keyTypeEd448 then
      peer ← peerIdOf (SeniorityMerge.ProverPublicKey t); peers ← mergePeers targets; Ok (peer :: peers)
    else mergePeers targets
  end.

Definition seniorityOf (op : JoinOp.t) : result Z :=
  peers ← mergePeers (JoinOp.MergeTargets op);
  if bool_decide (peers = []) then Ok 0
  else let seniority := GetAggregatedSeniority peers in
    Ok (if bool_decide (is_u 64 seniority) then seniority else 0).

(** The vertices of a prover that is new. *)
Definition createProver (op : JoinOp.t) (proverAddress : bytes) (frameNumber : Z) : M S unit :=
  proverTree ← new (mkTree None);
  let set := fun field value => rdfSet GLOBAL_INTRINSIC_ADDRESS prover field value proverTree in
  _ ← set "PublicKey" (JoinOp.PublicKey op);
  _ ← set "Status" [Byte.x00];
  _ ← set "AvailableStorage" (be 8 0);
  seniority ← lift (seniorityOf op);
  _ ← set "Seniority" (be 8 seniority);
  _ ← setVertex GLOBAL_INTRINSIC_ADDRESS proverAddress frameNumber None proverTree;
  rewardTree ← new (mkTree None);
  let delegateAddress := if (length (JoinOp.DelegateAddress op) =? 32)%nat then JoinOp.DelegateAddress op else proverAddress in
  _ ← rdfSet QUIL_TOKEN_ADDRESS reward "DelegateAddress" delegateAddress rewardTree;
  _ ← rdfSet QUIL_TOKEN_ADDRESS reward "Balance" (replicate 32 Byte.x00) rewardTree;
  setVertex QUIL_TOKEN_ADDRESS proverAddress frameNumber None rewardTree.

(** vertex.ToBytes *)
Definition vertexBytes (v : Vertex.t) : result bytes :=
  size ← FillBytes32 (Z.abs (Vertex.size v));
  Ok ([Byte.x00] ++ Vertex.appAddress v ++ Vertex.dataAddress v ++ Vertex.commitment v ++ size).

(** hyperedge.AddExtrinsic, which drops the error of Insert. *)
Definition AddExtrinsic (he : Hyperedge.t ptr) (v : Vertex.t) : M S unit :=
  b ← lift (vertexBytes v);
  ignore (update (Hyperedge.extTree he) (fun t => updated t (ProofTree.Insert t (Vertex.GetID v) (Some b) [] (Vertex.size v)))).

Definition joinFilter (op : JoinOp.t) (proverAddress : bytes) (frameNumber : Z) (he : Hyperedge.t ptr) (filter : bytes) : M S unit :=
  address ← lift (allocationAddress (JoinOp.PublicKey op) filter);
  allocationTree ← new (mkTree None);
  _ ← setAllocation "Prover" (GLOBAL_INTRINSIC_ADDRESS ++ proverAddress) allocationTree;
  _ ← setAllocation "Status" [Byte.x00] allocationTree;
  _ ← setAllocation "ConfirmationFilter" filter allocationTree;
  _ ← setAllocation "JoinFrameNumber" (be 8 (JoinOp.FrameNumber op)) allocationTree;
  prior ← getPrior GLOBAL_INTRINSIC_ADDRESS address;
  _ ← setVertex GLOBAL_INTRINSIC_ADDRESS address frameNumber prior allocationTree;
  v ← vertexOf GLOBAL_INTRINSIC_ADDRESS address allocationTree;
  AddExtrinsic he v.

Definition Join_Materialize (op : JoinOp.t) (frameNumber : Z) : M S unit :=
  r ← lift (match addressOf (JoinOp.PublicKey op) with Err _ => Err "invalid address" | r => r end);
  let proverAddress := r in
  vertex ← attempt (Get GLOBAL_INTRINSIC_ADDRESS proverAddress VertexAddsDiscriminator);
  _ ← match vertex with
      | Ok (ObjTree (Some _)) => mret tt
      | Ok _ => lift (Err "invalid object returned for vertex")
      | _ => createProver op proverAddress frameNumber
      end;
  fresh ← new (mkTree None);
  existing ← attempt (Get GLOBAL_INTRINSIC_ADDRESS proverAddress HyperedgeAddsDiscriminator);
  he ← match existing with
       | Ok (ObjHyperedge he) => mret he
       | Ok (ObjTree _) => lift (Err "invalid object returned for hyperedge")
       | _ => mret (Hyperedge.mk GLOBAL_INTRINSIC_ADDRESS proverAddress fresh)
       end;
  _ ← each (joinFilter op proverAddress frameNumber he) (JoinOp.Filters op);
  previous ← attempt (Get GLOBAL_INTRINSIC_ADDRESS proverAddress HyperedgeAddsDiscriminator);
  prior ← match previous with
          | Ok (ObjHyperedge he) => mret (Some (Hyperedge.extTree he))
          | Ok (ObjTree _) => lift (Err "invalid object returned for hyperedge")
          | _ => mret None
          end;
  Set_ GLOBAL_INTRINSIC_ADDRESS proverAddress HyperedgeAddsDiscriminator frameNumber (HyperedgeAddMaterializedState frameNumber prior he).

(** ** Kick *)

(** The allocations of a prover that is kicked. *)
Definition kickAllocation (frameNumber opFrame : Z) (v : leaf) : M S unit :=
  if (length (Key v) <? 32)%nat then lift Panic
  else if negb (bool_decide (take 32 (Key v) = GLOBAL_INTRINSIC_ADDRESS)) then
    lift (Err "hyperedge includes non prover allocation vertex")
  else
    let address := drop 32 (Key v) in
    r ← attempt (Get GLOBAL_INTRINSIC_ADDRESS address VertexAddsDiscriminator);
    match r with
    | Ok (ObjTree (Some allocTree)) =>
      _ ← setAllocation "Status" [Z_byte 4] allocTree;
      _ ← setAllocation "KickFrameNumber" (be 8 opFrame) allocTree;
      prior ← getPrior GLOBAL_INTRINSIC_ADDRESS address;
      setVertex GLOBAL_INTRINSIC_ADDRESS address frameNumber prior allocTree
    | Ok _ => lift (Err "invalid object returned for vertex")
    | _ => mret tt
    end.

Definition Kick_Materialize (op : ProverKick.t) (frameNumber : Z) : M S unit :=
  kickedAddress ← lift (addressOf (ProverKick.KickedProverPublicKey op));
  tree ← getTree "prover not found" GLOBAL_INTRINSIC_ADDRESS kickedAddress;
  _ ← setProverStatus 4 tree;
  _ ← rdfSet GLOBAL_INTRINSIC_ADDRESS prover "KickFrameNumber" (be 8 (ProverKick.FrameNumber op)) tree;
  prior ← getPrior GLOBAL_INTRINSIC_ADDRESS kickedAddress;
  _ ← setVertex GLOBAL_INTRINSIC_ADDRESS kickedAddress frameNumber prior tree;
  r ← attempt (Get GLOBAL_INTRINSIC_ADDRESS kickedAddress HyperedgeAddsDiscriminator);
  match r with
  | Ok (ObjHyperedge he) =>
    t ← deref (Hyperedge.extTree he);
    each (kickAllocation frameNumber (ProverKick.FrameNumber op)) (leaves_opt (Root t))
  | Ok (ObjTree _) => lift (Err "invalid object returned for hyperedge")
  | _ => mret tt
  end.

(** ** Update *)

(** The dependencies are set and the addressed signature is not nil. *)
Definition Update_Materialize (op : ProverUpdate.t) (frameNumber : Z) : M S unit :=
  match ProverUpdate.PublicKeySignatureBls48581 op with
  | None => lift (Err "missing addressed signature")
  | Some sig =>
    if (length (ProverUpdate.DelegateAddress op) =? 0)%nat then lift (Err "missing delegate address")
    else
    let proverAddress := BLS48581AddressedSignature.Address sig in
    if negb (length proverAddress =? 32)%nat then lift (Err "invalid prover address length")
    else
      proverTree ← getTree "prover not found" GLOBAL_INTRINSIC_ADDRESS proverAddress;
      key ← attempt (rdfGet prover "PublicKey" proverTree);
      match key with
      | Ok (b :: pubKey) =>
        addrCheck ← lift (addressOf (b :: pubKey));
        if negb (bool_decide (addrCheck = proverAddress)) then lift (Err "address mismatch with registered pubkey")
        else
          r ← attempt (Get QUIL_TOKEN_ADDRESS proverAddress VertexAddsDiscriminator);
          rewardTree ← match r with
                       | Ok (ObjTree (Some p)) => mret p
                       | Ok (ObjTree None) => new (mkTree None)
                       | Ok (ObjHyperedge _) => lift (Err "invalid reward vertex prior")
                       | _ => lift (Err "prover not found")
                       end;
          _ ← rdfSet QUIL_TOKEN_ADDRESS reward "DelegateAddress" (ProverUpdate.DelegateAddress op) rewardTree;
          prior ← attempt (Get QUIL_TOKEN_ADDRESS proverAddress VertexAddsDiscriminator);
          unmodified ← match prior with
                       | Ok (ObjTree t) => mret t
                       | Ok (ObjHyperedge _) => lift (Err "invalid reward vertex prior")
                       | _ => mret None
                       end;
          setVertex QUIL_TOKEN_ADDRESS proverAddress frameNumber unmodified rewardTree
      | _ => lift (Err "prover public key missing")
      end
  end.

(** ** Verify *)

(** [[64]byte(slices.Concat(GLOBAL_INTRINSIC_ADDRESS[:], address))] *)
Definition vertexId (address : bytes) : result bytes :=
  if (length address <? 32)%nat then Panic else Ok (GLOBAL_INTRINSIC_ADDRESS ++ take 32 address).

(** The domain of the signatures of an operation, [HashBytes(..).Bytes()]. *)
Definition signatureDomain (name : string) : result bytes :=
  h ← HashBytes (GLOBAL_INTRINSIC_ADDRESS ++ stringBytes name); Ok (bigBytes h).

Definition checkSignature (keyType : Z) (publicKey message signature domain : bytes) (msg : string) : result unit :=
  match ValidateSignature keyType publicKey message signature domain with
  | Ok true => Ok tt
  | Panic => Panic
  | Diverge => Diverge
  | _ => Err msg
  end.

(** The key that the prover has registered. *)
Definition registeredKey (g : G) (address : bytes) : result bytes :=
  id ← vertexId address;
  _ ← GetVertex g id;
  tree ← GetVertexData g id;
  fieldOf prover "PublicKey" tree.

(** The allocation of the prover to a filter. *)
Definition allocationTree (g : G) (publicKey filter : bytes) : result VectorCommitmentTree :=
  address ← allocationAddress publicKey filter;
  match GetVertexData g (GLOBAL_INTRINSIC_ADDRESS ++ address) with
  | Err _ => Err "allocation not found"
  | r => r
  end.

(** A frame number of an allocation. *)
Definition frameOf (field missing : string) (tree : VectorCommitmentTree) : result Z :=
  match fieldOf allocation field tree with
  | Ok b => if (length b =? 8)%nat then Ok (be_val b) else Err missing
  | Err _ => Err missing
  | Panic => Panic
  | Diverge => Diverge
  end.

(** What Confirm, Reject, Pause and Resume sign. *)
Definition filterMessage (op : FilterOp.t) : bytes := FilterOp.Filter op ++ be 8 (FilterOp.FrameNumber op).

(** The timing constraints, all on 64-bit frame numbers. *)
Definition confirmJoinWindow (frameNumber joinFrame : Z) : result unit :=
  if (joinFrame <? 252840) && (frameNumber <? 252840) then Err "cannot confirm before frame 252840"
  else
    let joinFrame := if (joinFrame <? 252840) && (joinFrame <? 252480) then 252480 else joinFrame in
    if 252480 <=? joinFrame then
      let framesSinceJoin := u64 (frameNumber - joinFrame) in
      if framesSinceJoin <? 360 then Err "must wait 360 frames after join to confirm"
      else if 720 <? framesSinceJoin then Err "confirmation window expired (720 frames)"
      else Ok tt
    else Ok tt.

Definition confirmLeaveWindow (frameNumber leaveFrame : Z) : result unit :=
  let framesSinceLeave := u64 (frameNumber - leaveFrame) in
  if framesSinceLeave <? 360 then Err "must wait 360 frames after leave to confirm"
  else if 720 <? framesSinceLeave then Err "leave confirmation window expired (720 frames)"
  else Ok tt.

Definition rejectJoinWindow (frameNumber joinFrame : Z) : result unit :=
  if 252840 <=? joinFrame then
    if 720 <? u64 (frameNumber - joinFrame) then Err "join already implicitly rejected after 720 frames" else Ok tt
  else Ok tt.

Definition rejectLeaveWindow (frameNumber leaveFrame : Z) : result unit :=
  let framesSinceLeave := u64 (frameNumber - leaveFrame) in
  if framesSinceLeave <? 360 then Err "must wait 360 frames after leave to reject"
  else if 720 <? framesSinceLeave then Err "leave already implicitly confirmed after 720 frames"
  else Ok tt.

Definition resumeWindow (frameNumber pauseFrame : Z) : result unit :=
  if 360 <? u64 (frameNumber - pauseFrame) then Err "pause timeout exceeded, allocation has implicitly left" else Ok tt.

(** The part that the four Verify methods share; [check] is the rule on the status. *)
Definition verifyFilterOp (name : string) (check : Z -> VectorCommitmentTree -> result unit) (g : G) (op : FilterOp.t) : result bool :=
  domain ← signatureDomain name;
  pubkey ← registeredKey g (BLS48581AddressedSignature.Address (FilterOp.Signature op));
  tree ← allocationTree g pubkey (FilterOp.Filter op);
  statusBytes ← fieldOf allocation "Status" tree;
  _ ← check (statusByte statusBytes) tree;
  _ ← checkSignature keyTypeBLS48581G1 pubkey (filterMessage op) (BLS48581AddressedSignature.Signature (FilterOp.Signature op)) domain
        "invalid signature";
  Ok true.

Definition confirmCheck (frameNumber status : Z) (tree : VectorCommitmentTree) : result unit :=
  if status =? 0 then joinFrame ← frameOf "JoinFrameNumber" "missing join frame" tree; confirmJoinWindow frameNumber joinFrame
  else if status =? 3 then leaveFrame ← frameOf "LeaveFrameNumber" "missing leave frame" tree; confirmLeaveWindow frameNumber leaveFrame
  else Err "invalid allocation state for confirmation".

Definition rejectCheck (frameNumber status : Z) (tree : VectorCommitmentTree) : result unit :=
  if status =? 0 then joinFrame ← frameOf "JoinFrameNumber" "missing join frame" tree; rejectJoinWindow frameNumber joinFrame
  else if status =? 3 then leaveFrame ← frameOf "LeaveFrameNumber" "missing leave frame" tree; rejectLeaveWindow frameNumber leaveFrame
  else Err "invalid allocation state for rejection".

Definition pauseCheck (status : Z) (tree : VectorCommitmentTree) : result unit :=
  if status =? 1 then Ok tt else Err "can only pause when allocation is active".

Definition resumeCheck (frameNumber status : Z) (tree : VectorCommitmentTree) : result unit :=
  if status =? 2 then pauseFrame ← frameOf "PauseFrameNumber" "missing pause frame" tree; resumeWindow frameNumber pauseFrame
  else Err "can only resume when allocation is paused".

Definition Confirm_Verify (g : G) (op : FilterOp.t) (frameNumber : Z) : result bool :=
  verifyFilterOp "PROVER_CONFIRM" (confirmCheck frameNumber) g op.

Definition Reject_Verify (g : G) (op : FilterOp.t) (frameNumber : Z) : result bool :=
  verifyFilterOp "PROVER_REJECT" (rejectCheck frameNumber) g op.

Definition Pause_Verify (g : G) (op : FilterOp.t) (frameNumber : Z) : result bool :=
  verifyFilterOp "PROVER_PAUSE" pauseCheck g op.

Definition Resume_Verify (g : G) (op : FilterOp.t) (frameNumber : Z) : result bool :=
  verifyFilterOp "PROVER_RESUME" (resumeCheck frameNumber) g op.

Definition leaveMessage (op : LeaveOp.t) : bytes :=
  be 4 (Z.of_nat (length (LeaveOp.Filters op))) ++ concat ((fun f => be 4 (Z.of_nat (length f)) ++ f) <$> LeaveOp.Filters op) ++
  be 8 (LeaveOp.FrameNumber op).

(** Whether one of the allocations is active; those that cannot be read are passed over. *)
Fixpoint hasActiveAllocation (g : G) (pubkey : bytes) (filters : list bytes) : result bool :=
  match filters with
  | [] => Ok false
  | f :: filters =>
    match (tree ← allocationTree g pubkey f; fieldOf allocation "Status" tree) with
    | Ok (b :: _) => if byte_Z b =? 1 then Ok true else hasActiveAllocation g pubkey filters
    | Panic => Panic
    | Diverge => Diverge
    | _ => hasActiveAllocation g pubkey filters
    end
  end.

Definition Leave_Verify (g : G) (op : LeaveOp.t) (frameNumber : Z) : result bool :=
  domain ← signatureDomain "PROVER_LEAVE";
  pubkey ← registeredKey g (BLS48581AddressedSignature.Address (LeaveOp.Signature op));
  active ← hasActiveAllocation g pubkey (LeaveOp.Filters op);
  if negb active then Err "no active allocations found for specified filters"
  else
    _ ← checkSignature keyTypeBLS48581G1 pubkey (leaveMessage op) (BLS48581AddressedSignature.Signature (LeaveOp.Signature op)) domain
          "invalid signature";
    Ok true.

(** ToProtobuf of a join without its signature, which is what is signed; the delegate address
    is not converted. *)
Definition joinMessage (op : JoinOp.t) : result bytes :=
  ProverJoin.ToCanonicalBytes (ProverJoin.mk (JoinOp.Filters op) (JoinOp.FrameNumber op) None [] (JoinOp.MergeTargets op)).

Definition popDomain : bytes := stringBytes "BLS48_POP_SK".
Definition mergeDomain : bytes := stringBytes "PROVER_JOIN_MERGE".

Fixpoint checkMerges (publicKey : bytes) (targets : list SeniorityMerge.t) : result unit :=
  match targets with
  | [] => Ok tt
  | t :: targets =>
    _ ← checkSignature (SeniorityMerge.KeyType t) (SeniorityMerge.ProverPublicKey t) publicKey (SeniorityMerge.Signature t) mergeDomain
          "invalid merge signature";
    checkMerges publicKey targets
  end.

(** A prover may join if it is not there or has left; data that cannot be read count as not
    there. *)
Definition canJoin (g : G) (address : bytes) : result unit :=
  match (tree ← GetVertexData g (GLOBAL_INTRINSIC_ADDRESS ++ address); fieldOf prover "Status" tree) with
  | Ok (b :: _) => if byte_Z b =? 4 then Ok tt else Err "prover already exists in non-left state"
  | Panic => Panic
  | Diverge => Diverge
  | _ => Ok tt
  end.

Definition Join_Verify (g : G) (op : JoinOp.t) (frameNumber : Z) : result bool :=
  address ← addressOf (JoinOp.PublicKey op);
  if existsb (fun f => (length f <? 32)%nat) (JoinOp.Filters op) then Err "invalid filter size"
  else
    _ ← canJoin g address;
    message ← joinMessage op;
    domain ← signatureDomain "PROVER_JOIN";
    _ ← checkSignature keyTypeBLS48581G1 (JoinOp.PublicKey op) message (JoinOp.Signature op) domain "invalid signature";
    _ ← checkSignature keyTypeBLS48581G1 (JoinOp.PublicKey op) (JoinOp.PublicKey op) (JoinOp.PopSignature op) popDomain
          "invalid pop signature";
    _ ← checkMerges (JoinOp.PublicKey op) (JoinOp.MergeTargets op);
    Ok true.

Definition Update_Verify (g : G) (op : ProverUpdate.t) (frameNumber : Z) : result bool :=
  match ProverUpdate.PublicKeySignatureBls48581 op with
  | None => Err "missing signature"
  | Some sig =>
    let address := BLS48581AddressedSignature.Address sig in
    if negb (length (ProverUpdate.DelegateAddress op) =? 32)%nat then Err "missing delegate address"
    else if negb (length address =? 32)%nat then Err "invalid addressed prover address"
    else
      match GetVertexData g (GLOBAL_INTRINSIC_ADDRESS ++ address) with
      | Err _ => Err "prover not found"
      | r =>
        tree ← r;
        match fieldOf prover "PublicKey" tree with
        | Ok (b :: pubKey) =>
          addrCheck ← addressOf (b :: pubKey);
          if negb (bool_decide (addrCheck = address)) then Err "address does not match registered pubkey"
          else
            domain ← signatureDomain "PROVER_UPDATE";
            _ ← checkSignature keyTypeBLS48581G1 (b :: pubKey) (ProverUpdate.DelegateAddress op)
                  (BLS48581AddressedSignature.Signature sig) domain "invalid update signature";
            Ok true
        | Panic => Panic
        | Diverge => Diverge
        | _ => Err "prover public key missing"
        end
      end
  end.

(** ** Prove *)

(** The signature of an addressed operation; [signingKey] is what the key manager returns for
    the key of the prover. *)
Definition addressedSignature (signingKey : result Signer) (name : string) (message : bytes) : result BLS48581AddressedSignature.t :=
  key ← signingKey;
  address ← addressOf (Public key);
  domain ← signatureDomain name;
  signature ← SignWithDomain key message domain;
  Ok (BLS48581AddressedSignature.mk signature address).

Definition proveFilterOp (name : string) (signingKey : result Signer) (op : FilterOp.t) : result FilterOp.t :=
  sig ← addressedSignature signingKey name (filterMessage op);
  Ok (FilterOp.mk (FilterOp.Filter op) (FilterOp.FrameNumber op) sig).

Definition Confirm_Prove : result Signer -> FilterOp.t -> result FilterOp.t := proveFilterOp "PROVER_CONFIRM".
Definition Reject_Prove : result Signer -> FilterOp.t -> result FilterOp.t := proveFilterOp "PROVER_REJECT".
Definition Pause_Prove : result Signer -> FilterOp.t -> result FilterOp.t := proveFilterOp "PROVER_PAUSE".
Definition Resume_Prove : result Signer -> FilterOp.t -> result FilterOp.t := proveFilterOp "PROVER_RESUME".

Definition Leave_Prove (signingKey : result Signer) (op : LeaveOp.t) : result LeaveOp.t :=
  sig ← addressedSignature signingKey "PROVER_LEAVE" (leaveMessage op);
  Ok (LeaveOp.mk (LeaveOp.Filters op) (LeaveOp.FrameNumber op) sig).

Definition Update_Prove (signingKey : result Signer) (op : ProverUpdate.t) : result ProverUpdate.t :=
  sig ← addressedSignature signingKey "PROVER_UPDATE" (ProverUpdate.DelegateAddress op);
  Ok (ProverUpdate.mk (ProverUpdate.DelegateAddress op) (Some sig)).

(** The merge targets of a join, with their signers where they have one: they sign the public
    key that the operation has before it is proved. *)
Fixpoint signMerges (publicKey : bytes) (targets : list (SeniorityMerge.t * option Signer)) : result (list SeniorityMerge.t) :=
  match targets with
  | [] => Ok []
  | (t, signer) :: targets =>
    signature ← match signer with
                | Some key => SignWithDomain key publicKey mergeDomain
                | None => Ok (SeniorityMerge.Signature t)
                end;
    ts ← signMerges publicKey targets;
    Ok (SeniorityMerge.mk signature (SeniorityMerge.KeyType t) (SeniorityMerge.ProverPublicKey t) :: ts)
  end.

(** The join is signed in the domain [FillBytes(make([]byte, 32))] of the hash. *)
Definition Join_Prove (signingKey : result Signer) (signers : list (option Signer)) (op : JoinOp.t) : result JoinOp.t :=
  key ← signingKey;
  targets ← signMerges (JoinOp.PublicKey op) (zip (JoinOp.MergeTargets op) signers);
  let op' := JoinOp.mk (JoinOp.Filters op) (JoinOp.FrameNumber op) (JoinOp.PublicKey op) (JoinOp.Signature op) (JoinOp.PopSignature op)
               targets (JoinOp.DelegateAddress op) in
  message ← joinMessage op';
  h ← HashBytes (GLOBAL_INTRINSIC_ADDRESS ++ stringBytes "PROVER_JOIN");
  domain ← FillBytes32 h;
  signature ← SignWithDomain key message domain;
  popSignature ← SignWithDomain key (Public key) popDomain;
  Ok (JoinOp.mk (JoinOp.Filters op) (JoinOp.FrameNumber op) (Public key) signature popSignature targets (JoinOp.DelegateAddress op)).
End operations.

(** ** Equivocation *)

Section kick.
Context {G : Type} `{Hypergraph G} `{TreeCrypto} `{PoseidonHash} `{Environment} `{FrameCrypto}.

(** The frame prover, the BLS constructor and the registry of an operation, which are nil
    unless they have been injected. *)
Record kickDeps := mkKickDeps { activeProvers : bytes -> result (list ProverInfo.t) }.

(** Frame number, filter, output and signature of a header. *)
Record conflict := mkConflict { number : Z; filter : bytes; output : bytes; mask : bytes }.

Definition ifValid (r : result bool) (c : conflict) : result (option conflict) :=
  match r with
  | Ok true => Ok (Some c)
  | Panic => Panic
  | Diverge => Diverge
  | _ => Ok None
  end.

Definition shardConflict (deps : option kickDeps) (h : FrameHeader.t) (sig : BLS48581AggregateSignature.t) : result (option conflict) :=
  match deps with
  | None => Panic
  | Some _ => ifValid (VerifyFrameHeaderSignature h)
      (mkConflict (FrameHeader.FrameNumber h) (FrameHeader.Address h) (FrameHeader.Output h) (BLS48581AggregateSignature.Bitmask sig))
  end.

Definition globalConflict (deps : option kickDeps) (h : GlobalFrameHeader.t) (sig : BLS48581AggregateSignature.t) : result (option conflict) :=
  match deps with
  | None => Panic
  | Some _ => ifValid (VerifyGlobalHeaderSignature h)
      (mkConflict (GlobalFrameHeader.FrameNumber h) [] (GlobalFrameHeader.Output h) (BLS48581AggregateSignature.Bitmask sig))
  end.

(** Both headers of the first two components, if they decode, are signed and their signatures
    are valid; [None] is the result false of the method. *)
Definition conflictsOf (deps : option kickDeps) (frame1 frame2 : bytes) : result (option (conflict * conflict)) :=
  let type := be_val (take 4 frame1) in
  if type =? FrameHeaderType then
    match FrameHeader.FromCanonicalBytes frame1, FrameHeader.FromCanonicalBytes frame2 with
    | Ok h1, Ok h2 =>
      match FrameHeader.PublicKeySignatureBls48581 h1, FrameHeader.PublicKeySignatureBls48581 h2 with
      | Some s1, Some s2 =>
        c1 ← shardConflict deps h1 s1;
        match c1 with
        | None => Ok None
        | Some c1 => c2 ← shardConflict deps h2 s2; Ok (match c2 with Some c2 => Some (c1, c2) | None => None end)
        end
      | _, _ => Ok None
      end
    | Panic, _ | Ok _, Panic => Panic
    | Diverge, _ | Ok _, Diverge => Diverge
    | _, _ => Ok None
    end
  else if type =? GlobalFrameHeaderType then
    match GlobalFrameHeader.FromCanonicalBytes frame1, GlobalFrameHeader.FromCanonicalBytes frame2 with
    | Ok h1, Ok h2 =>
      match GlobalFrameHeader.PublicKeySignatureBls48581 h1, GlobalFrameHeader.PublicKeySignatureBls48581 h2 with
      | Some s1, Some s2 =>
        c1 ← globalConflict deps h1 s1;
        match c1 with
        | None => Ok None
        | Some c1 => c2 ← globalConflict deps h2 s2; Ok (match c2 with Some c2 => Some (c1, c2) | None => None end)
        end
      | _, _ => Ok None
      end
    | Panic, _ | Ok _, Panic => Panic
    | Diverge, _ | Ok _, Diverge => Diverge
    | _, _ => Ok None
    end
  else Ok None. (* other types leave both outputs empty, hence equal *)

(** Whether the bit of the prover of an index is set; a byte beyond the mask is zero. *)
Definition signedBy (index : nat) (mask : bytes) : bool :=
  Z.testbit (byte_Z (default Byte.x00 (mask !! (index / 8)%nat))) (Z.of_nat (index mod 8)).

Definition verifyEquivocation (deps : option kickDeps) (op : ProverKick.t) : result bool :=
  let frame1 := ProverKick.ConflictingFrame_1 op in
  let frame2 := ProverKick.ConflictingFrame_2 op in
  if (length frame1 <? 4)%nat || (length frame2 <? 4)%nat then Ok false
  else if negb (be_val (take 4 frame1) =? be_val (take 4 frame2)) then Ok false
  else if bool_decide (frame1 = frame2) then Ok false
  else
    cs ← conflictsOf deps frame1 frame2;
    match cs with
    | None => Ok false
    | Some (c1, c2) =>
      if negb (number c1 =? number c2) then Ok false
      else if negb (bool_decide (filter c1 = filter c2)) then Ok false
      else if bool_decide (output c1 = output c2) then Ok false
      else
        h ← match HashBytes (ProverKick.KickedProverPublicKey op) with Err _ => Panic | r => r end;
        proverAddr ← FillBytes32 h;
        match deps with
        | None => Panic
        | Some deps =>
          match activeProvers deps (filter c1) with
          | Ok info =>
            match list_find (fun i => ProverInfo.Address i = proverAddr) info with
            | None => Ok false
            | Some (index, _) => Ok (signedBy index (mask c1) && signedBy index (mask c2))
            end
          | Err _ => Ok false
          | Panic => Panic
          | Diverge => Diverge
          end
        end
    end.

(** [verifyProofs] stands for the traversal proof and the proof of the fields, which the
    hypergraph and the multiprover check. *)
Definition Kick_Verify (deps : option kickDeps) (verifyProofs : G -> ProverKick.t -> result bool) (g : G) (op : ProverKick.t)
    (frameNumber : Z) : result bool :=
  equivocated ← verifyEquivocation deps op;
  if negb equivocated then Err "no equivocation detected" else verifyProofs g op.
End kick.
