(* ===== verification/GlobalExecution.v ===== *)
(** * The global execution engine (node/execution/engines/global_execution_engine.go)

    Execution of the operations on provers: the conversion of requests (global_conversions.go),
    Validate and InvokeStep of the global intrinsic (global_intrinsic.go), the engine that
    validates, executes and commits each request of a bundle, and the routing of the execution
    manager to it. *)

From S2P Require Import Prelude ProofTree ProofTreeWf ProofTreeOps ProofTreeMap ProofTreeCommit ProofTreeProve ProofTreeCanon Wire ProofTreeSerial.
From S2P Require Import CanonicalTypes Keys KeyRegistry Global Frames OrderEncoding RdfMultiprover Messages ForkChoice Stateful GlobalTimeReel.
From S2P Require Import FrameProver FrameValidator GlobalMessages HypergraphState GlobalIntrinsic.

(** ** Conversions *)

(** Operations as InvokeStep decodes them. *)
Inductive operation :=
| OpJoin (op : JoinOp.t)
| OpLeave (op : LeaveOp.t)
| OpPause (op : FilterOp.t)
| OpResume (op : FilterOp.t)
| OpConfirm (op : FilterOp.t)
| OpReject (op : FilterOp.t)
| OpKick (op : ProverKick.t).

(** The conversions dereference the signature, which is nil if the message has none. *)
Definition addressed (sig : option BLS48581AddressedSignature.t) : result BLS48581AddressedSignature.t :=
  match sig with Some sig => Ok sig | None => Panic end.

Definition ProverLeaveFromProtobuf (pb : ProverLeave.t) : result LeaveOp.t :=
  sig ← addressed (ProverLeave.PublicKeySignatureBls48581 pb); Ok (LeaveOp.mk (ProverLeave.Filters pb) (ProverLeave.FrameNumber pb) sig).

Definition ProverPauseFromProtobuf (pb : ProverPause.t) : result FilterOp.t :=
  sig ← addressed (ProverPause.PublicKeySignatureBls48581 pb); Ok (FilterOp.mk (ProverPause.Filter pb) (ProverPause.FrameNumber pb) sig).

Definition ProverResumeFromProtobuf (pb : ProverResume.t) : result FilterOp.t :=
  sig ← addressed (ProverResume.PublicKeySignatureBls48581 pb); Ok (FilterOp.mk (ProverResume.Filter pb) (ProverResume.FrameNumber pb) sig).

Definition ProverConfirmFromProtobuf (pb : ProverConfirm.t) : result FilterOp.t :=
  sig ← addressed (ProverConfirm.PublicKeySignatureBls48581 pb);
  Ok (FilterOp.mk (ProverConfirm.Filter pb) (ProverConfirm.FrameNumber pb) sig).

Definition ProverRejectFromProtobuf (pb : ProverReject.t) : result FilterOp.t :=
  sig ← addressed (ProverReject.PublicKeySignatureBls48581 pb); Ok (FilterOp.mk (ProverReject.Filter pb) (ProverReject.FrameNumber pb) sig).

(** The delegate address is not converted. *)
Definition ProverJoinFromProtobuf (pb : ProverJoin.t) : result JoinOp.t :=
  match ProverJoin.PublicKeySignatureBls48581 pb with
  | None => Panic
  | Some sig =>
    let publicKey := match BLS48581SignatureWithProofOfPossession.PublicKey sig with
                     | Some key => BLS48581G2PublicKey.KeyValue key
                     | None => []
                     end in
    if negb (length publicKey =? 585)%nat then Err "invalid public key length"
    else if negb (length (BLS48581SignatureWithProofOfPossession.Signature sig) =? 74)%nat then Err "invalid signature length"
    else if negb (length (BLS48581SignatureWithProofOfPossession.PopSignature sig) =? 74)%nat then Err "invalid pop signature length"
    else Ok (JoinOp.mk (ProverJoin.Filters pb) (ProverJoin.FrameNumber pb) publicKey (BLS48581SignatureWithProofOfPossession.Signature sig)
               (BLS48581SignatureWithProofOfPossession.PopSignature sig) (ProverJoin.MergeTargets pb) [])
  end.

(** The first step of Validate and InvokeStep. *)
Definition decodeOperation (input : bytes) : result operation :=
  match typePrefix input with
  | None => Err "input too short"
  | Some t =>
    if t =? ProverJoinType then pb ← ProverJoin.FromCanonicalBytes input; op ← ProverJoinFromProtobuf pb; Ok (OpJoin op)
    else if t =? ProverLeaveType then pb ← ProverLeave.FromCanonicalBytes input; op ← ProverLeaveFromProtobuf pb; Ok (OpLeave op)
    else if t =? ProverPauseType then pb ← ProverPause.FromCanonicalBytes input; op ← ProverPauseFromProtobuf pb; Ok (OpPause op)
    else if t =? ProverResumeType then pb ← ProverResume.FromCanonicalBytes input; op ← ProverResumeFromProtobuf pb; Ok (OpResume op)
    else if t =? ProverConfirmType then pb ← ProverConfirm.FromCanonicalBytes input; op ← ProverConfirmFromProtobuf pb; Ok (OpConfirm op)
    else if t =? ProverRejectType then pb ← ProverReject.FromCanonicalBytes input; op ← ProverRejectFromProtobuf pb; Ok (OpReject op)
    else if t =? ProverKickType then pb ← ProverKick.FromCanonicalBytes input; Ok (OpKick pb)
    else Err "unknown global request type"
  end.

Section engine.
Context {G : Type} `{Hypergraph G} `{TreeCrypto} `{PoseidonHash} `{RDFParser} `{KeyManager} `{Seniorities} `{Environment} `{FrameCrypto}.
(** The proofs of a kick, and the paths of the app shards that the shard store knows below a
    key. *)
Context (verifyProofs : G -> ProverKick.t -> result bool) (GetAppShards : bytes -> list Z -> result (list (list Z))).

Abbreviation S := (hypergraphState G).

(** ** The intrinsic *)

(** The dependencies of a kick stay nil. *)
Definition verifyOperation (g : G) (op : operation) (frameNumber : Z) : result bool :=
  match op with
  | OpJoin op => Join_Verify g op frameNumber
  | OpLeave op => Leave_Verify g op frameNumber
  | OpPause op => Pause_Verify g op frameNumber
  | OpResume op => Resume_Verify g op frameNumber
  | OpConfirm op => Confirm_Verify g op frameNumber
  | OpReject op => Reject_Verify g op frameNumber
  | OpKick op => Kick_Verify None verifyProofs g op frameNumber
  end.

Definition materializeOperation (op : operation) (frameNumber : Z) : M S unit :=
  match op with
  | OpJoin op => Join_Materialize op frameNumber
  | OpLeave op => Leave_Materialize op frameNumber
  | OpPause op => Pause_Materialize op frameNumber
  | OpResume op => Resume_Materialize op frameNumber
  | OpConfirm op => Confirm_Materialize op frameNumber
  | OpReject op => Reject_Materialize op frameNumber
  | OpKick op => Kick_Materialize op frameNumber
  end.

(** Validate and the first half of InvokeStep, which read the hypergraph. *)
Definition Validate (g : G) (frameNumber : Z) (input : bytes) : result operation :=
  op ← decodeOperation input;
  valid ← verifyOperation g op frameNumber;
  if (valid : bool) then Ok op else Err "invalid operation".

(** The type assertion of Materialize panics on a nil state. *)
Definition InvokeStep (frameNumber : Z) (input : bytes) (state : stateRef) : M S unit :=
  s ← gets id;
  op ← lift (Validate (hypergraph s) frameNumber input);
  match state with
  | NilState => lift Panic
  | ThisState => materializeOperation op frameNumber
  end.

(** ** The engine *)

(** The requests on provers; the others are skipped. *)
Definition isGlobalOp (r : MessageRequest.t) : bool :=
  match MessageRequest.Request r with
  | Some (MessageRequest.MessageRequest_Join _) | Some (MessageRequest.MessageRequest_Leave _) | Some (MessageRequest.MessageRequest_Pause _)
  | Some (MessageRequest.MessageRequest_Resume _) | Some (MessageRequest.MessageRequest_Confirm _) | Some (MessageRequest.MessageRequest_Reject _)
  | Some (MessageRequest.MessageRequest_Kick _) | Some (MessageRequest.MessageRequest_Update _) => true
  | _ => false
  end.

Definition payloadOf (r : MessageRequest.t) : result bytes :=
  match MessageRequest.Request r with
  | Some r' => if isGlobalOp r then MessageRequest.innerBytes r' else Err "unsupported message type"
  | None => Err "unsupported message type"
  end.

(** The filters of a join have to be shards; [bloom] is GetBloomFilterIndices. *)
Definition checkShard (bloom : bytes -> bytes) (f : bytes) : result unit :=
  if (length f <? 32)%nat then Ok tt
  else
    let path := byte_Z <$> drop 32 f in
    shards ← GetAppShards (bloom (take 32 f) ++ take 32 f) path;
    if bool_decide (shards = [path]) then Ok tt else Err "invalid shard".

Fixpoint checkShards (bloom : bytes -> bytes) (fs : list bytes) : result unit :=
  match fs with
  | [] => Ok tt
  | f :: fs => _ ← checkShard bloom f; checkShards bloom fs
  end.

Context (bloom : bytes -> bytes).

Definition validateIndividualMessage (g : G) (frameNumber : Z) (address : bytes) (message : MessageRequest.t) : result unit :=
  _ ← match MessageRequest.Request message with
      | Some (MessageRequest.MessageRequest_Join j) => checkShards bloom (ProverJoin.Filters j)
      | _ => Ok tt
      end;
  if negb (isGlobalOp message) then Err "invalid type"
  else if negb (bool_decide (address = GLOBAL_INTRINSIC_ADDRESS)) then Err "invalid address for global execution engine"
  else payload ← payloadOf message; _ ← Validate g frameNumber payload; Ok tt.

(** The state is committed to the hypergraph after every request. *)
Definition processIndividualMessage (frameNumber : Z) (address : bytes) (message : MessageRequest.t) (state : stateRef) : M S unit :=
  payload ← lift (payloadOf message);
  if negb (bool_decide (address = GLOBAL_INTRINSIC_ADDRESS)) then lift (Err "invalid address for global execution engine")
  else
    s ← gets id;
    _ ← lift (validateIndividualMessage (hypergraph s) frameNumber address message);
    _ ← InvokeStep frameNumber payload state;
    Commit.

(** The state of the result is nil unless a request of the bundle has been executed. *)
Fixpoint handleRequests (frameNumber : Z) (address : bytes) (requests : list (option MessageRequest.t)) (state answer : stateRef) : M S stateRef :=
  match requests with
  | [] => mret answer
  | None :: _ => lift Panic
  | Some op :: requests =>
    if isGlobalOp op then
      _ ← processIndividualMessage frameNumber address op state;
      handleRequests frameNumber address requests state state
    else handleRequests frameNumber address requests state answer
  end.

Definition handleBundle (frameNumber : Z) (address payload : bytes) (state : stateRef) : M S stateRef :=
  bundle ← lift (MessageBundle.FromCanonicalBytes payload);
  handleRequests frameNumber address (MessageBundle.Requests bundle) state NilState.

Definition ProcessMessage (frameNumber feeMultiplier : Z) (address message : bytes) (state : stateRef) : M S stateRef :=
  match typePrefix message with
  | None => lift (Err "invalid message")
  | Some t =>
    if t =? MessageBundleType then handleBundle frameNumber address message state
    else if negb (t =? MessageRequestType) then lift (Err "unsupported message type")
    else
      request ← lift (MessageRequest.FromCanonicalBytes message);
      _ ← processIndividualMessage frameNumber address request state;
      mret ThisState
  end.

(** ExecutionEngineManager.ProcessMessage; messages for other addresses go to [otherEngines]. *)
Definition ManagerProcessMessage (otherEngines : Z -> Z -> bytes -> bytes -> stateRef -> M S stateRef) (frameNumber feeMultiplier : Z)
    (address message : bytes) (state : stateRef) : M S stateRef :=
  if bool_decide (address = GLOBAL_INTRINSIC_ADDRESS) then ProcessMessage frameNumber feeMultiplier address message state
  else otherEngines frameNumber feeMultiplier address message state.

(** ** Validation of a message *)

Definition FRAME_2_1_EXTENDED_ENROLL_CONFIRM_END : Z := 253200.

Fixpoint validateRequests (network : Z) (g : G) (frameNumber : Z) (address : bytes) (requests : list (option MessageRequest.t)) : result unit :=
  match requests with
  | [] => Ok tt
  | r :: requests =>
    _ ← match r with
        | Some op =>
          if isGlobalOp op then validateIndividualMessage g frameNumber address op
          else if (network =? 0) && (frameNumber <=? FRAME_2_1_EXTENDED_ENROLL_CONFIRM_END) then Err "enrollment period has not ended"
          else Ok tt
        | None =>
          if (network =? 0) && (frameNumber <=? FRAME_2_1_EXTENDED_ENROLL_CONFIRM_END) then Err "enrollment period has not ended" else Ok tt
        end;
    validateRequests network g frameNumber address requests
  end.

Definition ValidateMessage (network : Z) (g : G) (frameNumber : Z) (address message : bytes) : result unit :=
  match typePrefix message with
  | None => Err "invalid message"
  | Some t =>
    if t =? MessageBundleType then
      bundle ← MessageBundle.FromCanonicalBytes message; validateRequests network g frameNumber address (MessageBundle.Requests bundle)
    else if negb (t =? MessageRequestType) then Err "unsupported message type"
    else request ← MessageRequest.FromCanonicalBytes message; validateIndividualMessage g frameNumber address request
  end.
End engine.
