(* ===== verification/IntrinsicFields.v ===== *)
(** * Fields of provers, allocations and rewards

    The trees of the global intrinsic as records: [holds domain class t F] says that the tree
    [t] is a well-formed vector commitment tree of the class whose fields are [F], a map from
    the names of fields to their values.  Setting and getting a field of GLOBAL_RDF_SCHEMA act
    on [F] as insertion and lookup. *)

From S2P Require Import Prelude ProofTree ProofTreeWf ProofTreeOps ProofTreeMap ProofTreeCommit ProofTreeProve ProofTreeCanon ProofTreeProveSpec.
From S2P Require Import ProofTreeMeta Wire ProofTreeSerial CanonicalTypes Keys KeyRegistry Global OrderEncoding RdfMultiprover RdfSpec Stateful HypergraphState GlobalIntrinsic.

(** The orders that GLOBAL_RDF_SCHEMA gives to the fields of its classes. *)
Definition fieldOrders : list (string * string * Z) :=
  [("prover:Prover", "PublicKey", 0);
   ("prover:Prover", "Status", 1);
   ("prover:Prover", "AvailableStorage", 2);
   ("prover:Prover", "Seniority", 3);
   ("prover:Prover", "KickFrameNumber", 4);
   ("allocation:ProverAllocation", "Prover", 0);
   ("allocation:ProverAllocation", "Status", 1);
   ("allocation:ProverAllocation", "ConfirmationFilter", 2);
   ("allocation:ProverAllocation", "RejectionFilter", 3);
   ("allocation:ProverAllocation", "JoinFrameNumber", 4);
   ("allocation:ProverAllocation", "LeaveFrameNumber", 5);
   ("allocation:ProverAllocation", "PauseFrameNumber", 6);
   ("allocation:ProverAllocation", "ResumeFrameNumber", 7);
   ("allocation:ProverAllocation", "KickFrameNumber", 8);
   ("allocation:ProverAllocation", "JoinConfirmFrameNumber", 9);
   ("allocation:ProverAllocation", "JoinRejectFrameNumber", 10);
   ("allocation:ProverAllocation", "LeaveConfirmFrameNumber", 11);
   ("allocation:ProverAllocation", "LeaveRejectFrameNumber", 12);
   ("allocation:ProverAllocation", "LastActiveFrameNumber", 13);
   ("reward:ProverReward", "DelegateAddress", 0);
   ("reward:ProverReward", "Balance", 1)].

(** Finds a field in the table. *)
Ltac order_of := unfold fieldOrders; first [apply list_elem_of_here | apply list_elem_of_further; order_of].

(** What is assumed of the parser: it reads the orders that the document gives. *)
Record schemaParsed `{RDFParser} (tags : TagsByClass) : Prop := {
  parsed_document : GetTagsByClass GLOBAL_RDF_SCHEMA = Ok tags;
  parsed_orders : forall class f o, (class, f, o) ∈ fieldOrders <-> exists tag, classTag tags class f = Some tag /\ Order tag = o;
  parsed_max : GetMaxOrderForDocument tags = 13
}.

(** What is assumed of the hash: it is a number of 256 bits. *)
Class PoseidonLaws `(P : PoseidonHash) : Prop := {
  HashBytes_total : forall b, b <> [] -> exists h, HashBytes b = Ok h /\ is_u 256 h
}.

(** The 32 bytes of a hash. *)
Definition hashAddress `{PoseidonHash} (b : bytes) : bytes :=
  match HashBytes b with Ok h => be 32 h | _ => [] end.

Lemma fieldOrders_small class f o : (class, f, o) ∈ fieldOrders -> 0 <= o < 64.
Proof.
  assert (Forall (fun x => 0 <= x.2 < 64) fieldOrders) as HF by (repeat constructor; cbn; lia).
  intros Hx. by apply (proj1 (Forall_forall _ _) HF) in Hx.
Qed.

Lemma fieldOrders_inj class f f' o : (class, f, o) ∈ fieldOrders -> (class, f', o) ∈ fieldOrders -> f = f'.
Proof.
  assert (Forall (fun x => Forall (fun y => (x.1.1, x.2) = (y.1.1, y.2) -> x.1.2 = y.1.2) fieldOrders) fieldOrders) as HF
    by (by apply (bool_decide_unpack _); vm_compute).
  intros Hx Hy. eapply Forall_forall in HF; [|exact Hx]. eapply Forall_forall in HF; [|exact Hy]. by apply HF.
Qed.

Section fields.
Context `{TreeCrypto} `{PoseidonHash} `{RDFParser} {HL : PoseidonLaws _} (tags : TagsByClass).

Lemma hashAddress_spec b : b <> [] -> exists h, HashBytes b = Ok h /\ is_u 256 h /\ hashAddress b = be 32 h.
Proof using HL. intros (h & E & Hu)%HashBytes_total. exists h. unfold hashAddress. by rewrite E. Qed.

Lemma hashAddress_length b : b <> [] -> length (hashAddress b) = 32%nat.
Proof using HL. intros (h & _ & _ & ->)%hashAddress_spec. apply be_length. Qed.

Lemma FillBytes32_hash b : b <> [] -> (h ← HashBytes b; FillBytes32 h) = Ok (hashAddress b).
Proof using HL.
  intros (h & E & Hu & ->)%hashAddress_spec. rewrite E. cbn [mbind result_bind]. unfold FillBytes32. by rewrite decide_True.
Qed.

Local Abbreviation k := (keyWidth (GetMaxOrderForDocument tags)).

Definition typeOf (domain : bytes) (class : string) : bytes := hashAddress (domain ++ stringBytes class).

(** The tree [t] holds the fields [F] of a class. *)
Record holds (domain : bytes) (class : string) (t : VectorCommitmentTree) (F : gmap string bytes) : Prop := {
  holds_good : goodTree t;
  holds_typed : typedKeys k (typeOf domain class) (contents t);
  holds_fields : forall f o, (class, f, o) ∈ fieldOrders -> contents t !! orderKey k o = fieldEntry <$> F !! f
}.

Context (Hs : schemaParsed tags).

Lemma max_small : GetMaxOrderForDocument tags <= MaxOrderThreeByte.
Proof using Hs. rewrite (parsed_max tags Hs). unfold MaxOrderThreeByte. lia. Qed.

Lemma order_range class f o : (class, f, o) ∈ fieldOrders -> 0 <= o < 64 ^ Z.of_nat k.
Proof using Hs. intros Ho%fieldOrders_small. rewrite (parsed_max tags Hs). change (64 ^ _) with 64. lia. Qed.

Lemma field_tag class f o :
  (class, f, o) ∈ fieldOrders -> exists tag, classTag tags class f = Some tag /\ Order tag = o.
Proof using Hs. apply (parsed_orders tags Hs). Qed.

Lemma tag_nonneg class f tag : classTag tags class f = Some tag -> 0 <= Order tag.
Proof using Hs. intros E. eapply fieldOrders_small, (parsed_orders tags Hs). eauto. Qed.

Lemma holds_empty domain class : holds domain class emptyTree ∅.
Proof using Type. split; [apply emptyTree_good|split; [intros key [e He]; done|by left]|done]. Qed.

Lemma fieldOf_holds domain class t F f o :
  holds domain class t F -> (class, f, o) ∈ fieldOrders ->
  fieldOf class f t = match F !! f with Some v => Ok v | None => Err errKeyNotFound end.
Proof using Hs.
  intros [Hg [Hk _] HF] Ho. unfold fieldOf. rewrite (parsed_document tags Hs). cbn [mbind result_bind]. unfold getIn.
  destruct (field_tag class f o Ho) as (tag & Et & <-).
  destruct (classTag_in tags class max_small (tag_nonneg class) f tag Et) as (-> & E & _).
  cbn [mbind result_bind]. rewrite E. cbn [mbind result_bind].
  rewrite Get_spec; [|apply Hg|eapply schemaKey_fits; [apply keyWidth_range|done|right; eauto using order_range]].
  rewrite (HF f _ Ho). by destruct (F !! f).
Qed.

Lemma setIn_holds domain class t F f o v :
  domain ++ stringBytes class <> [] -> holds domain class t F -> (class, f, o) ∈ fieldOrders ->
  exists t', setIn tags domain class f (Some v) t = (Ok tt, t') /\ holds domain class t' (<[f := v]> F).
Proof using HL Hs.
  intros Hne [Hg Ht HF] Ho. destruct (hashAddress_spec _ Hne) as (h & Eh & Hu & Ety).
  destruct (field_tag class f o Ho) as (tag & Et & <-).
  unfold typeOf in Ht. rewrite Ety in Ht.
  destruct (setIn_spec tags domain class h Eh Hu max_small (tag_nonneg class) f tag v t Et Hg Ht)
    as (t' & E & Hg' & Ec).
  exists t'. split; [done|]. split; [done| |].
  - rewrite Ec. unfold typeOf. rewrite Ety. apply specSet_typed; [apply keyWidth_range|by eapply order_range|done].
  - intros f' o' Ho'. rewrite Ec. unfold specSet. cbn [fst snd].
    destruct (decide (f = f')) as [<-|Hf].
    + assert (o' = Order tag) as ->.
      { destruct (field_tag class f o' Ho') as (tag' & Et' & <-). congruence. }
      by rewrite !lookup_insert_eq.
    + rewrite (lookup_insert_ne F) by done. rewrite lookup_insert_ne, lookup_insert_ne; [by apply HF| |].
      * apply typeKey_not_order, keyWidth_range.
      * intros E'. apply orderKey_inj in E'; [|apply keyWidth_range|by eapply order_range..]. subst o'.
        apply Hf. by eapply fieldOrders_inj.
Qed.

(** ** Sizes *)

(** The sizes that a tree keeps are right, and they sum up to [B] at most. *)
Record light (t : VectorCommitmentTree) (B : Z) : Prop := {
  light_sizes : everyBranchOpt sizeOk (Root t);
  light_bound : 0 <= mapSize (contents t) <= B
}.

Lemma light_empty : light emptyTree 0.
Proof using Type. split; [done|]. change (contents emptyTree) with (∅ : gmap bytes entry). unfold mapSize. rewrite map_fold_empty. lia. Qed.

Lemma light_GetSize t B : wf_tree t -> light t B -> 0 <= GetSize t <= B.
Proof using Type.
  intros Hw [Hs' Hb]. rewrite (sum_contents t Hw) in Hb. unfold GetSize. destruct (Root t) as [n|] eqn:E; [|done]. by rewrite nodeSize_ok by (by apply Hs').
Qed.

Lemma mapSize_insert (m : gmap bytes entry) key e : m !! key = None -> mapSize (<[key := e]> m) = e.2 + mapSize m.
Proof using Type. intros E. apply (map_fold_insert_L (fun _ (e : entry) z => e.2 + z)); [intros; lia|done]. Qed.

Lemma Insert_light t key v h s t' B :
  wf_tree t -> keyFits (contents t) key -> contents t !! key = None -> 0 <= s -> light t B ->
  Insert t key v h s = Ok t' -> light t' (B + s).
Proof using Type.
  intros Hw Hf En Hs' [Hz Hb] E. split.
  - eapply (applyOp_size t (OpInsert key v h s)); [done|done| |done|exact E]. intros e Ee. simpl in Ee. congruence.
  - destruct (Insert_spec t key v h s Hw Hf) as (t2 & E2 & _ & Ec). assert (t2 = t') as -> by congruence.
    rewrite Ec, mapSize_insert by done. cbn [snd]. lia.
Qed.

Lemma light_weaken t B B' : B <= B' -> light t B -> light t B'.
Proof using Type. intros HB [Hz Hb]. split; [done|lia]. Qed.

Lemma setIn_light domain class t F f o v t' B :
  domain ++ stringBytes class <> [] -> holds domain class t F -> (class, f, o) ∈ fieldOrders -> F !! f = None -> light t B ->
  setIn tags domain class f (Some v) t = (Ok tt, t') -> light t' (B + 32 + Z.of_nat (length v)).
Proof using HL Hs.
  intros Hne [Hg [Hk Hty] HF] Ho Ef Hlt. destruct (hashAddress_spec _ Hne) as (h & Eh & Hu & Ety).
  pose proof (keyWidth_range (GetMaxOrderForDocument tags)) as Hkw. pose proof (order_range class f o Ho) as Hor.
  destruct (field_tag class f o Ho) as (tag & Et & Eo). destruct (classTag_in tags class max_small (tag_nonneg class) f tag Et) as (Etag & Ekey & _).
  assert (keyFits (contents t) typeKey) as Hft by (eapply schemaKey_fits; [done..|by left]).
  assert (forall u t2 B', goodTree u -> schemaKeys k (contents u) -> contents u !! orderKey k o = None -> light u B' ->
    setField tags class f (Some v) u = (Ok tt, t2) -> light t2 (B' + Z.of_nat (length v))) as Hfield.
  { intros u t2 B' Hgu Hku Enu Hlu Eu. unfold setField in Eu. rewrite Etag in Eu. cbn [mbind result_bind] in Eu. rewrite Ekey, Eo in Eu.
    cbn [mbind result_bind default id] in Eu. destruct (Insert u _ _ _ _) as [t3| | |] eqn:Ei; try done. injection Eu as ->.
    eapply Insert_light; [apply Hgu|eapply schemaKey_fits; [done|done|right; eauto]|done|lia|done|exact Ei]. }
  pose proof (HF f o Ho) as Eno. rewrite Ef in Eno. unfold setIn. rewrite (Get_spec t typeKey (proj1 Hg) Hft), (typeBytes_class domain class h Eh Hu).
  unfold typeOf in Hty. rewrite Ety in Hty. cbn [mbind result_bind]. destruct Hty as [Hty|Hty]; rewrite Hty; cbn [typeEntry].
  - destruct (Insert_good t typeKey (Some (be 32 h)) [] 32 Hg Hft) as (t1 & Ei & Hg1 & Ec1). rewrite Ei. apply Hfield; [done| | |].
    + rewrite Ec1. apply schemaKeys_insert; [done|by left].
    + rewrite Ec1, lookup_insert_ne; [done|]. by apply typeKey_not_order.
    + eapply Insert_light; [apply Hg|done|done|lia|done|exact Ei].
  - rewrite decide_True by done. apply Hfield; [done|done|done|]. eapply light_weaken; [|exact Hlt]. lia.
Qed.
End fields.

(** Commit keeps the fields and the size of a tree. *)
Section committed.
Context `{TreeCrypto} `{PoseidonHash} (tags : TagsByClass).
Hypothesis sha512_length : forall b, length (sha512 b) = 64%nat.
Hypothesis CommitRaw_nonempty : forall b, slotVector b -> CommitRaw b 64 <> [].

Lemma Commit_holds domain class t F r : holds tags domain class t F -> holds tags domain class (ProofTreeCommit.Commit t r).2 F.
Proof using sha512_length CommitRaw_nonempty.
  intros [Hg Hty HF]. destruct (Commit_good sha512_length CommitRaw_nonempty t r Hg) as [Hg' Ec]. split; [done|by rewrite Ec|]. intros f o Ho. rewrite Ec. by apply HF.
Qed.

Lemma Commit_GetSize t r : GetSize (ProofTreeCommit.Commit t r).2 = GetSize t.
Proof using Type.
  unfold ProofTreeCommit.Commit, GetSize. destruct (Root t) as [[l|b]|] eqn:Er; [| |cbn [snd]; by rewrite Er]; cbn [Root snd].
  - cbn [commitNode snd]. unfold leafCommit. by destruct (_ || r).
  - destruct (committedNode_Children r b) as [cm E]. unfold committedNode in E. by rewrite E.
Qed.
End committed.
