(* ===== verification/GlobalRegistry.v ===== *)
(** * The registry of provers (node/execution/intrinsics/global)

    A registry is what the operations of the global intrinsic are about, without trees, heap
    and changes: provers, allocations and rewards with their fields, and the allocations of
    each prover.  [registryStep] is the effect of an operation on it.  [represents] relates it
    to the pending state of the hypergraph, and [materialize_refines] shows that every
    Materialize method that changes allocations has the effect of its step. *)

From S2P Require Import Prelude ProofTree ProofTreeWf ProofTreeOps ProofTreeMap ProofTreeCommit ProofTreeProve ProofTreeCanon ProofTreeProveSpec.
From S2P Require Import Wire ProofTreeSerial CanonicalTypes Keys KeyRegistry Global Frames OrderEncoding RdfMultiprover RdfSpec Messages ForkChoice.
From S2P Require Import Stateful GlobalTimeReel FrameProver FrameValidator GlobalMessages HypergraphState GlobalIntrinsic GlobalExecution IntrinsicFields.

(** ** Registries *)

(** A vertex: its class and its fields. *)
Record item := mkItem { class : string; fields : gmap string bytes }.

(** The hyperedge of a prover: stored in the hypergraph, with the addresses of the allocations,
    or changed by a join, in which case other operations cannot read it before it is stored. *)
Inductive edge := Stored (ks : list bytes) | Joined.

(** The vertices by domain and address, and the hyperedges by the addresses of provers. *)
Record registry := mkRegistry { vertices : gmap (bytes * bytes) item; edges : gmap bytes edge }.

Definition storedEdge (a : bytes) (r : registry) : option (list bytes) :=
  match edges r !! a with Some (Stored ks) => Some ks | _ => None end.

Lemma storedEdge_eq a r r' : edges r' = edges r -> storedEdge a r' = storedEdge a r.
Proof. intros E. unfold storedEdge. by rewrite E. Qed.

(** A vertex of the global intrinsic. *)
Definition vid (address : bytes) : bytes * bytes := (GLOBAL_INTRINSIC_ADDRESS, address).

Definition setItem (id : bytes * bytes) (n : item) (r : registry) : registry := mkRegistry (<[id := n]> (vertices r)) (edges r).

(** The item at an identity, if it has the class. *)
Definition itemOf (c : string) (id : bytes * bytes) (r : registry) : option (gmap string bytes) :=
  n ← vertices r !! id; if decide (class n = c) then Some (fields n) else None.

(** The statuses of allocations; those without a status are passed over. *)
Definition statusesOf (r : registry) (ks : list bytes) : list Z :=
  omap (fun a => n ← vertices r !! vid a; b ← fields n !! "Status"; byte_Z <$> b !! 0%nat) ks.

(** The status of a prover: the first of active, joining, leaving and paused that one of its
    allocations has, and left if there is none. *)
Definition leading (statuses : list Z) : Z :=
  match list_find (fun x => x ∈ statuses) [1; 0; 3; 2] with Some (_, x) => x | None => 4 end.

Lemma aggregateStatus_leading l : aggregateStatus l = leading l.
Proof. unfold aggregateStatus, leading. cbn [list_find]. by repeat (case_bool_decide || case_decide; try done). Qed.

(** The prover gets the status that follows from its allocations. *)
Definition aggregate (a : bytes) (r : registry) : option registry :=
  F ← itemOf prover (vid a) r;
  ks ← storedEdge a r;
  Some (setItem (vid a) (mkItem prover (<["Status" := [Z_byte (leading (statusesOf r ks))]]> F)) r).

(** A status and the frame number of the change. *)
Definition stamp (status : Z) (frameField : string) (frame : Z) (F : gmap string bytes) : gmap string bytes :=
  <[frameField := be 8 frame]> (<["Status" := [Z_byte status]]> F).

Definition confirmFields (frame status : Z) (F : gmap string bytes) : gmap string bytes :=
  if status =? 0 then stamp 1 "JoinConfirmFrameNumber" frame F
  else if status =? 3 then stamp 4 "LeaveConfirmFrameNumber" frame F else F.

Definition rejectFields (frame status : Z) (F : gmap string bytes) : gmap string bytes :=
  if status =? 0 then stamp 4 "JoinRejectFrameNumber" frame F
  else if status =? 3 then stamp 1 "LeaveRejectFrameNumber" frame F else F.

Definition pauseFields (frame status : Z) (F : gmap string bytes) : gmap string bytes := stamp 2 "PauseFrameNumber" frame F.
Definition resumeFields (frame status : Z) (F : gmap string bytes) : gmap string bytes := stamp 1 "ResumeFrameNumber" frame F.

Section steps.
Context `{PoseidonHash} `{Seniorities}.

Definition allocationAt (publicKey filter : bytes) : bytes := hashAddress (stringBytes "PROVER_ALLOCATION" ++ publicKey ++ filter).

Definition filterStep (change : Z -> Z -> gmap string bytes -> gmap string bytes) (op : FilterOp.t) (r : registry) : option registry :=
  let a := BLS48581AddressedSignature.Address (FilterOp.Signature op) in
  P ← itemOf prover (vid a) r;
  publicKey ← P !! "PublicKey";
  let id := vid (allocationAt publicKey (FilterOp.Filter op)) in
  F ← itemOf allocation id r;
  status ← F !! "Status";
  aggregate a (setItem id (mkItem allocation (change (FilterOp.FrameNumber op) (statusByte status) F)) r).

(** An allocation that is there gets a status. *)
Definition stampItem (status : Z) (frameField : string) (frame : Z) (a : bytes) (r : registry) : option registry :=
  match vertices r !! vid a with
  | None => Some r
  | Some n => if decide (class n = allocation) then Some (setItem (vid a) (mkItem allocation (stamp status frameField frame (fields n))) r) else None
  end.

Fixpoint stampItems (status : Z) (frameField : string) (frame : Z) (ks : list bytes) (r : registry) : option registry :=
  match ks with
  | [] => Some r
  | a :: ks => r ← stampItem status frameField frame a r; stampItems status frameField frame ks r
  end.

Definition leaveStep (op : LeaveOp.t) (r : registry) : option registry :=
  let a := BLS48581AddressedSignature.Address (LeaveOp.Signature op) in
  P ← itemOf prover (vid a) r;
  publicKey ← P !! "PublicKey";
  r ← stampItems 3 "LeaveFrameNumber" (LeaveOp.FrameNumber op) (allocationAt publicKey <$> LeaveOp.Filters op) r;
  aggregate a r.

Definition kickStep (op : ProverKick.t) (r : registry) : option registry :=
  if decide (ProverKick.KickedProverPublicKey op = []) then None
  else
    let a := hashAddress (ProverKick.KickedProverPublicKey op) in
    P ← itemOf prover (vid a) r;
    ks ← storedEdge a r;
    stampItems 4 "KickFrameNumber" (ProverKick.FrameNumber op) ks
      (setItem (vid a) (mkItem prover (stamp 4 "KickFrameNumber" (ProverKick.FrameNumber op) P)) r).

(** The fields of the vertices that a join makes. *)
Definition joinFields (op : JoinOp.t) (a filter : bytes) : gmap string bytes :=
  <["JoinFrameNumber" := be 8 (JoinOp.FrameNumber op)]> (<["ConfirmationFilter" := filter]> (<["Status" := [Byte.x00]]>
    (<["Prover" := GLOBAL_INTRINSIC_ADDRESS ++ a]> ∅))).

Definition proverFields (op : JoinOp.t) (seniority : Z) : gmap string bytes :=
  <["Seniority" := be 8 seniority]> (<["AvailableStorage" := be 8 0]> (<["Status" := [Byte.x00]]> (<["PublicKey" := JoinOp.PublicKey op]> ∅))).

Definition rewardFields (op : JoinOp.t) (a : bytes) : gmap string bytes :=
  <["Balance" := replicate 32 Byte.x00]> (<["DelegateAddress" :=
    if (length (JoinOp.DelegateAddress op) =? 32)%nat then JoinOp.DelegateAddress op else a]> ∅).

(** A prover that is there is left as it is. *)
Definition enrol (op : JoinOp.t) (a : bytes) (r : registry) : option registry :=
  match vertices r !! vid a with
  | Some _ => Some r
  | None =>
    match seniorityOf op with
    | Ok seniority => Some (setItem (QUIL_TOKEN_ADDRESS, a) (mkItem reward (rewardFields op a))
        (setItem (vid a) (mkItem prover (proverFields op seniority)) r))
    | _ => None
    end
  end.

Definition joinAllocation (op : JoinOp.t) (a : bytes) (r : registry) (filter : bytes) : registry :=
  setItem (vid (allocationAt (JoinOp.PublicKey op) filter)) (mkItem allocation (joinFields op a filter)) r.

Definition setEdge (a : bytes) (e : edge) (r : registry) : registry := mkRegistry (vertices r) (<[a := e]> (edges r)).

(** Slices have a length of 64 bits. *)
Definition joinStep (op : JoinOp.t) (r : registry) : option registry :=
  let a := hashAddress (JoinOp.PublicKey op) in
  if decide (JoinOp.PublicKey op <> [] /\ Forall (fun f => Z.of_nat (length f) < 2 ^ 64) (JoinOp.Filters op)) then
    match edges r !! a with
    | Some Joined => None
    | _ => r ← enrol op a r; Some (setEdge a Joined (foldl (joinAllocation op a) r (JoinOp.Filters op)))
    end
  else None.

Definition registryStep (op : operation) (r : registry) : option registry :=
  match op with
  | OpJoin op => joinStep op r
  | OpLeave op => leaveStep op r
  | OpPause op => filterStep pauseFields op r
  | OpResume op => filterStep resumeFields op r
  | OpConfirm op => filterStep confirmFields op r
  | OpReject op => filterStep rejectFields op r
  | OpKick op => kickStep op r
  end.

Fixpoint registrySteps (ops : list operation) (r : registry) : option registry :=
  match ops with
  | [] => Some r
  | op :: ops => r ← registryStep op r; registrySteps ops r
  end.
End steps.

Section names.
Context `{PoseidonHash}.

(** The vertices of the registry: those of the global intrinsic, which are provers and
    allocations, and in the domain of the token the rewards, at the addresses of provers. *)
Definition ownVertex (d a : bytes) : Prop :=
  length a = 32%nat /\ (d = GLOBAL_INTRINSIC_ADDRESS \/ d = QUIL_TOKEN_ADDRESS /\ exists publicKey, a = hashAddress publicKey).

(** Addresses have 32 bytes, and hyperedges lead to allocations. *)
Record wfRegistry (r : registry) : Prop := {
  wf_names : forall d a n, vertices r !! (d, a) = Some n -> ownVertex d a;
  wf_edges : forall a ks, storedEdge a r = Some ks ->
    length a = 32%nat /\ Forall (fun k => length k = 32%nat /\ forall n, vertices r !! vid k = Some n -> class n = allocation) ks;
  wf_filled : forall a ks k, storedEdge a r = Some ks -> k ∈ ks -> is_Some (vertices r !! vid k)
}.

Lemma ownVertex_length d a : ownVertex d a -> length d = 32%nat.
Proof. by intros (_ & [-> | [-> _]]). Qed.

Lemma own_global a : length a = 32%nat -> ownVertex GLOBAL_INTRINSIC_ADDRESS a.
Proof. intros Ha. split; [done|by left]. Qed.

Lemma wf_ids r d a n : wfRegistry r -> vertices r !! (d, a) = Some n -> length d = 32%nat /\ length a = 32%nat.
Proof. intros W E. pose proof (wf_names r W d a n E) as Ho. split; [by eapply ownVertex_length|apply Ho]. Qed.
End names.

(** ** Representation *)

Section refinement.
Context {G : Type} `{Hypergraph G} `{TreeCrypto} `{PoseidonHash} `{RDFParser} `{KeyManager} `{Seniorities} {HL : PoseidonLaws _}.
Context (tags : TagsByClass) (Hs : schemaParsed tags).

Abbreviation S := (hypergraphState G).
Local Abbreviation holds := (holds tags).

(** The tree of the last change of a vertex. *)
Definition cell (s : S) (id : bytes * bytes) : option (option ptr) :=
  (fun c => DataValue (StateChange.Value c)) <$> changeOf id.1 id.2 VertexAddsDiscriminator (changeset s).

(** The pending state [s] is the registry [r], up to the vertices [X] that an operation has
    begun to change: vertices without a change are in the hypergraph, the others are in the
    heap, each in a tree of its own. *)
Record represents (X : gset (bytes * bytes)) (s : S) (r : registry) : Prop := {
  rep_wf : wfRegistry r;
  rep_graph : forall d a, ownVertex d a -> cell s (d, a) = None ->
    match vertices r !! (d, a) with
    | Some n => exists t, GetVertexData (hypergraph s) (d ++ a) = Ok t /\ holds d (class n) t (fields n)
    | None => exists e, GetVertexData (hypergraph s) (d ++ a) = Err e
    end;
  rep_present : forall d a, ownVertex d a -> exists b, present (GetVertex (hypergraph s) (d ++ a)) = Ok b;
  rep_cell : forall id o, cell s id = Some o -> exists p, o = Some p /\ (p < length (heap s))%nat /\ is_Some (vertices r !! id);
  rep_heap : forall id p n, cell s id = Some (Some p) -> id ∉ X -> vertices r !! id = Some n ->
    exists t, heap s !! p = Some t /\ holds id.1 (class n) t (fields n);
  rep_sep : forall id id' p, cell s id = Some (Some p) -> cell s id' = Some (Some p) -> id = id';
  rep_edges : forall a, length a = 32%nat ->
    let change := changeOf GLOBAL_INTRINSIC_ADDRESS a HyperedgeAddsDiscriminator (changeset s) in
    let he := GetHyperedge (hypergraph s) (GLOBAL_INTRINSIC_ADDRESS ++ a) in
    match edges r !! a with
    | None => change = None /\ exists e, he = Err e /\ e <> ErrRemoved
    | Some (Stored ks) => change = None /\ exists h, he = Ok h /\ wf_tree (Hyperedge.extTree h)
        /\ Key <$> leaves_opt (Root (Hyperedge.extTree h)) = app GLOBAL_INTRINSIC_ADDRESS <$> ks
    | Some Joined => is_Some change
    end
}.

(** The pointer [p] to the tree [t] of a vertex is not the tree of another one. *)
Record handle (s : S) (p : ptr) (id : bytes * bytes) (t : VectorCommitmentTree) : Prop := {
  handle_heap : heap s !! p = Some t;
  handle_other : forall id', cell s id' = Some (Some p) -> id' = id
}.

(** Reading only adds trees to the heap. *)
Record extends (s s' : S) : Prop := {
  ext_graph : hypergraph s' = hypergraph s;
  ext_changes : changeset s' = changeset s;
  ext_heap : heap s `prefix_of` heap s'
}.

#[local] Instance extends_refl : Reflexive extends.
Proof. intros s. by split. Qed.
#[local] Instance extends_trans : Transitive extends.
Proof. intros s1 s2 s3 [] []. split; [congruence..|by etrans]. Qed.

Lemma extends_cell s s' id : extends s s' -> cell s' id = cell s id.
Proof. intros [_ E _]. unfold cell. by rewrite E. Qed.

Lemma extends_lookup s s' p t : extends s s' -> heap s !! p = Some t -> heap s' !! p = Some t.
Proof. intros [_ _ Hp] E. by eapply prefix_lookup_Some. Qed.

Lemma represents_extends X s s' r : represents X s r -> extends s s' -> represents X s' r.
Proof.
  intros [W Gr Pr Ce Hp Se Ed] He. pose proof (fun id => extends_cell s s' id He) as Ec. pose proof (ext_graph s s' He) as Eg.
  pose proof (prefix_length _ _ (ext_heap s s' He)) as Hl.
  split; [done|..]; intros *; rewrite ?Ec, ?Eg, ?(ext_changes s s' He).
  - apply Gr.
  - apply Pr.
  - intros (p & ? & ? & ?)%Ce. exists p. split_and!; [done|lia|done].
  - intros E1 E2 E3. destruct (Hp id p n E1 E2 E3) as (t & ? & ?). exists t. eauto using extends_lookup.
  - apply Se.
  - apply Ed.
Qed.

Lemma handle_extends s s' p id t : handle s p id t -> extends s s' -> handle s' p id t.
Proof.
  intros [] He. split; [by eapply extends_lookup|..]; intros *; rewrite (extends_cell s s') by done; eauto.
Qed.

(** Handles of different vertices are different, also if one of them is new. *)
Lemma handle_ne s p q id id' t :
  handle s p id t -> id <> id' -> cell s id' = Some (Some q) \/ (length (heap s) <= q)%nat -> p <> q.
Proof.
  intros [Eh Ho] Hne [E|Hq] ->; [by apply Ho in E|]. apply lookup_lt_Some in Eh. lia.
Qed.

Lemma new_extends t s : extends s (set_heap (heap s ++ [t]) s).
Proof. split; [done..|]. by exists [t]. Qed.

(** A new tree is not that of a vertex. *)
Lemma new_handle X s r t id : represents X s r -> handle (set_heap (heap s ++ [t]) s) (length (heap s)) id t.
Proof.
  intros Hr. split; [by apply list_lookup_middle|]. intros id' E'. change (cell s id' = Some (Some (length (heap s)))) in E'.
  destruct (rep_cell _ _ _ Hr _ _ E') as (p & [= <-] & Hp & _). lia.
Qed.

Lemma fullAddress_32 d a : length d = 32%nat -> length a = 32%nat -> fullAddress d a = d ++ a.
Proof. intros Hd Ha. unfold fullAddress, copy32. by rewrite !take_app_length' by done. Qed.

(** ** Reading *)

(** The pointer of a vertex: that of its change, or a new one. *)
Definition pointerOf (s : S) (id : bytes * bytes) (q : ptr) : Prop :=
  cell s id = Some (Some q) \/ (length (heap s) <= q)%nat.

Lemma Get_item X s r d a n :
  represents X s r -> vertices r !! (d, a) = Some n ->
  succeeds (Get d a VertexAddsDiscriminator) s (fun o s' => exists p, o = ObjTree (Some p) /\ extends s s' /\ pointerOf s (d, a) p
    /\ ((d, a) ∉ X -> exists t, handle s' p (d, a) t /\ holds d (class n) t (fields n))).
Proof using Type.
  intros Hr En. destruct (wf_ids r d a n (rep_wf _ _ _ Hr) En) as [Hd Ha]. unfold Get. m_steps. change (id s) with s.
  destruct (changeOf d a VertexAddsDiscriminator (changeset s)) as [c|] eqn:Ec.
  - assert (cell s (d, a) = Some (DataValue (StateChange.Value c))) as Ecell by (unfold cell; cbn [fst snd]; by rewrite Ec).
    destruct (rep_cell _ _ _ Hr _ _ Ecell) as (p & Ep & _ & _). rewrite Ep in *. m_steps.
    exists p. split_and!; [done|reflexivity|by left|]. intros HX.
    destruct (rep_heap _ _ _ Hr _ p n Ecell HX En) as (t & Et & Ht). exists t. split; [|done].
    split; [done|intros id' E'; by eapply (rep_sep _ _ _ Hr)].
  - assert (cell s (d, a) = None) as Ecell by (unfold cell; cbn [fst snd]; by rewrite Ec).
    pose proof (rep_graph _ _ _ Hr d a (wf_names r (rep_wf _ _ _ Hr) d a n En) Ecell) as Hg. rewrite En in Hg. destruct Hg as (t & Et & Ht).
    rewrite (fullAddress_32 d a Hd Ha), Et. m_steps.
    exists (length (heap s)). split_and!; [done|apply new_extends|by right|]. intros _. exists t. split; [by eapply new_handle|done].
Qed.

Lemma Get_missing X s r d a :
  represents X s r -> ownVertex d a -> vertices r !! (d, a) = None ->
  exists e, Get d a VertexAddsDiscriminator s = (Err e, s).
Proof using Type.
  intros Hr Ho En. pose proof (ownVertex_length d a Ho) as Hd. pose proof (proj1 Ho) as Ha. unfold Get, mbind, M_bind, gets. cbn [id].
  destruct (changeOf d a VertexAddsDiscriminator (changeset s)) as [c|] eqn:Ec.
  - assert (cell s (d, a) = Some (DataValue (StateChange.Value c))) as Ecell by (unfold cell; cbn [fst snd]; by rewrite Ec).
    destruct (rep_cell _ _ _ Hr _ _ Ecell) as (p & _ & _ & [n En']). congruence.
  - assert (cell s (d, a) = None) as Ecell by (unfold cell; cbn [fst snd]; by rewrite Ec).
    pose proof (rep_graph _ _ _ Hr d a Ho Ecell) as Hg. rewrite En in Hg. destruct Hg as (e & Ee).
    exists e. by rewrite (fullAddress_32 d a Hd Ha), Ee.
Qed.

Lemma Get_edge X s r a ks :
  represents X s r -> storedEdge a r = Some ks ->
  succeeds (Get GLOBAL_INTRINSIC_ADDRESS a HyperedgeAddsDiscriminator) s (fun o s' => exists he t, o = ObjHyperedge he /\ extends s s'
    /\ (forall id, handle s' (Hyperedge.extTree he) id t) /\ wf_tree t /\ Key <$> leaves_opt (Root t) = app GLOBAL_INTRINSIC_ADDRESS <$> ks).
Proof using Type.
  intros Hr Ea. destruct (wf_edges r (rep_wf _ _ _ Hr) a ks Ea) as [Ha _]. pose proof (rep_edges _ _ _ Hr a Ha) as He. unfold storedEdge in Ea.
  destruct (edges r !! a) as [[ks'|]|]; [injection Ea as ->|done..]. destruct He as (Ec & he & Eh & Hwf & Ek). unfold Get. m_steps. change (id s) with s. rewrite Ec.
  rewrite (fullAddress_32 GLOBAL_INTRINSIC_ADDRESS a eq_refl Ha), Eh. m_steps.
  eexists _, (Hyperedge.extTree he). split_and!; [done|apply new_extends| |done|done]. intros id; by eapply new_handle.
Qed.

Lemma getTree_item X s r missing d a n :
  represents X s r -> vertices r !! (d, a) = Some n -> (d, a) ∉ X ->
  succeeds (getTree missing d a) s (fun p s' => extends s s' /\ pointerOf s (d, a) p
    /\ exists t, handle s' p (d, a) t /\ holds d (class n) t (fields n)).
Proof using Type.
  intros Hr En HX. unfold getTree. m_step. apply succeeds_attempt.
  eapply succeeds_mono; [by eapply Get_item|]. intros o s' (p & -> & He & Hp & Ht). m_steps. auto.
Qed.

Lemma getPrior_item X s r d a n :
  represents X s r -> vertices r !! (d, a) = Some n -> succeeds (getPrior d a) s (fun _ s' => extends s s').
Proof using Type.
  intros Hr En. unfold getPrior. m_step. apply succeeds_attempt.
  eapply succeeds_mono; [by eapply Get_item|]. intros o s' (p & -> & He & _). by m_steps.
Qed.

Lemma rdfGet_handle s p id t d c F f o v :
  handle s p id t -> holds d c t F -> (c, f, o) ∈ fieldOrders -> F !! f = Some v -> rdfGet c f p s = (Ok v, s).
Proof using Hs.
  intros Hh Ht Ho Ev. unfold rdfGet, deref, mbind, M_bind, lift. rewrite (handle_heap _ _ _ _ Hh).
  by rewrite (fieldOf_holds tags Hs d c t F f o Ht Ho), Ev.
Qed.

(** ** Writing *)

Lemma update_handle {A} X s r p id t (f : VectorCommitmentTree -> result A * VectorCommitmentTree) x t' :
  represents X s r -> handle s p id t -> f t = (Ok x, t') ->
  succeeds (update p f) s (fun y s' => y = x /\ represents ({[id]} ∪ X) s' r /\ handle s' p id t' /\ hypergraph s' = hypergraph s
    /\ (forall id', cell s' id' = cell s id') /\ forall q id' u, q <> p -> handle s q id' u -> handle s' q id' u).
Proof using HL Hs.
  intros Hr Hh Ef. unfold update, deref. m_steps. exists t, s. split; [by rewrite (handle_heap _ _ _ _ Hh)|]. m_steps. rewrite Ef. cbn [fst snd]. m_steps.
  assert (p < length (heap s))%nat as Hp by eapply lookup_lt_Some, Hh. split_and!; [done| |..].
  - destruct Hr as [W Gr Pr Ce He Se Ed]. split; [done..| | |done|done].
    + intros id' o' Eo. destruct (Ce id' o' Eo) as (q & ? & ? & ?). exists q. cbn. by rewrite length_insert.
    + intros id' q n Eq Hx En. assert (id' <> id) as Hid by set_solver.
      destruct (He id' q n Eq ltac:(set_solver) En) as (u & Eu & Hu). exists u. split; [|done]. cbn.
      rewrite list_lookup_insert_ne; [done|]. intros <-. by apply Hid, (handle_other _ _ _ _ Hh).
  - split; [by apply list_lookup_insert_eq|apply Hh].
  - done.
  - done.
  - intros q id' u Hq [? ?]. split; [|done]. cbn. by rewrite list_lookup_insert_ne.
Qed.

Lemma rdfSet_handle X s r p id t d c F f o v :
  represents X s r -> handle s p id t -> holds d c t F -> (c, f, o) ∈ fieldOrders -> d <> [] ->
  succeeds (rdfSet d c f v p) s (fun _ s' => represents ({[id]} ∪ X) s' r
    /\ (exists t', setIn tags d c f (Some v) t = (Ok tt, t') /\ handle s' p id t' /\ holds d c t' (<[f := v]> F)) /\ hypergraph s' = hypergraph s
    /\ forall q id' u, q <> p -> handle s q id' u -> handle s' q id' u).
Proof using HL Hs.
  intros Hr Hh Ht Ho Hd. unfold rdfSet. m_step. rewrite (parsed_document tags Hs). apply succeeds_lift.
  destruct (setIn_holds tags Hs d c t F f o v) as (t' & E & Ht'); [by destruct d|done..|].
  eapply succeeds_mono; [by eapply update_handle|]. cbn beta. intros _ s' (_ & Hr' & Hh' & Eg & _ & Hoth). split_and!; [done|by exists t'|done|done].
Qed.

Lemma changeOf_snoc d a disc cs c :
  changeOf d a disc (cs ++ [c]) =
  if decide (StateChange.Address c = a /\ StateChange.Domain c = d /\ StateChange.Disc c = disc) then Some c else changeOf d a disc cs.
Proof using Type.
  unfold changeOf. rewrite reverse_snoc. cbn [list_find]. case_decide; [done|].
  by destruct (list_find _ (reverse cs)) as [[]|].
Qed.

Lemma setItem_wf id n n' r : wfRegistry r -> vertices r !! id = Some n -> class n' = class n -> wfRegistry (setItem id n' r).
Proof using Type.
  intros [Wi We Wf] En Ec. destruct id as [d0 a0]. split.
  - intros d a m Em. cbn [vertices setItem] in Em. apply lookup_insert_Some in Em as [[[= <- <-] _]|[_ Em]]; [by eapply Wi|by eapply Wi].
  - intros a ks Ea. destruct (We a ks Ea) as [Ha Hk]. split; [done|]. eapply Forall_impl; [exact Hk|].
    intros k [Hl Hc]. split; [done|]. intros m Em. cbn [vertices setItem] in Em. apply lookup_insert_Some in Em as [[Eid <-]|[_ Em]]; [|by apply Hc].
    rewrite Ec. apply Hc. by rewrite <- Eid.
  - intros a ks k Ea Hk. cbn [vertices setItem]. destruct (decide ((d0, a0) = vid k)) as [<-|]; [by rewrite lookup_insert_eq|].
    rewrite lookup_insert_ne by done. by eapply Wf.
Qed.

(** The vertex may be a new one. *)
Lemma setVertex_item X s r p d a t c F frameNumber prior :
  represents X s r -> handle s p (d, a) t -> length d = 32%nat -> length a = 32%nat ->
  (exists b, present (GetVertex (hypergraph s) (d ++ a)) = Ok b) -> wfRegistry (setItem (d, a) (mkItem c F) r) -> holds d c t F ->
  succeeds (setVertex d a frameNumber prior p) s (fun _ s' => represents (X ∖ {[(d, a)]}) s' (setItem (d, a) (mkItem c F) r)
    /\ handle s' p (d, a) t /\ cell s' (d, a) = Some (Some p) /\ hypergraph s' = hypergraph s
    /\ forall q id' t', q <> p -> handle s q id' t' -> handle s' q id' t').
Proof using HL Hs.
  intros Hr Hh Hd Ha Hpres W' Ht. unfold setVertex, array32.
  rewrite Hd, Ha. cbn [Nat.ltb Nat.leb]. m_steps. unfold Set_. m_steps. change (id s) with s.
  rewrite (fullAddress_32 d a Hd Ha). destruct Hpres as [b Eb]. rewrite Eb. m_steps. unfold addChange. m_steps.
  match goal with |- context [set_changeset ?cs s] => set (s' := set_changeset cs s) end.
  assert (forall id', cell s' id' = if decide (id' = (d, a)) then Some (Some p) else cell s id') as Ecell.
  { intros [d' a']. unfold cell, s'. cbn [changeset set_changeset fst snd]. rewrite changeOf_snoc. cbn [StateChange.Address StateChange.Domain StateChange.Disc].
    destruct (decide ((d', a') = (d, a))) as [[= -> ->]|Hne]; [by rewrite decide_True by done|].
    rewrite decide_False; [done|]. intros (-> & -> & _). done. }
  split_and!; [|split; [apply Hh|intros id'; rewrite Ecell; case_decide; [done|apply Hh]]|by rewrite Ecell, decide_True|done|].
  - destruct Hr as [W Gr Pr Ce He Se Ed]. split; [done|..].
    + intros d' a' Ho'. rewrite Ecell. case_decide as E; [done|]. intros E'. cbn [vertices setItem].
      rewrite lookup_insert_ne by done. by apply Gr.
    + apply Pr.
    + intros id' o. rewrite Ecell. cbn [vertices setItem]. case_decide as E.
      * intros [= <-]. exists p. split_and!; [done|eapply lookup_lt_Some, Hh|]. subst. rewrite lookup_insert_eq. eauto.
      * intros (q & ? & ? & ?)%Ce. exists q. by rewrite lookup_insert_ne.
    + intros id' q m. rewrite Ecell. cbn [vertices setItem]. case_decide as E.
      * subst id'. intros [= <-] _. rewrite lookup_insert_eq. intros [= <-]. exists t. split; [apply Hh|done].
      * intros E' Hx. rewrite lookup_insert_ne by done. intros Em. apply (He id' q m); [done|set_solver|done].
    + intros id1 id2 q. rewrite !Ecell. do 2 case_decide; intros E1 E2; [congruence| | |by eapply Se].
      * injection E1 as <-. by apply (handle_other _ _ _ _ Hh) in E2.
      * injection E2 as <-. by apply (handle_other _ _ _ _ Hh) in E1.
    + intros a' Ha'. pose proof (Ed a' Ha') as Ea. unfold s'. cbn [changeset set_changeset edges setItem hypergraph].
      rewrite changeOf_snoc, decide_False; [exact Ea|]. by intros (_ & _ & ?).
  - intros q id' t' Hq [Eh Ho]. split; [done|]. intros id''. rewrite Ecell. case_decide; [congruence|apply Ho].
Qed.

Lemma setVertex_handle X s r p d a t n c F frameNumber prior :
  represents X s r -> handle s p (d, a) t -> vertices r !! (d, a) = Some n -> class n = c -> holds d c t F ->
  succeeds (setVertex d a frameNumber prior p) s (fun _ s' => represents (X ∖ {[(d, a)]}) s' (setItem (d, a) (mkItem c F) r)
    /\ handle s' p (d, a) t /\ cell s' (d, a) = Some (Some p) /\ hypergraph s' = hypergraph s
    /\ forall q id' t', q <> p -> handle s q id' t' -> handle s' q id' t').
Proof using HL Hs.
  intros Hr Hh En Ec Ht. destruct (wf_ids r d a n (rep_wf _ _ _ Hr) En) as [Hd Ha].
  apply setVertex_item; [done..|apply (rep_present _ _ _ Hr); by eapply (wf_names r (rep_wf _ _ _ Hr))| |done]. eapply setItem_wf; [apply Hr|exact En|done].
Qed.

(** ** The status of the prover *)

Lemma status_order_allocation : (allocation, "Status", 1) ∈ fieldOrders.
Proof using Type. order_of. Qed.
Lemma status_order_prover : (prover, "Status", 1) ∈ fieldOrders.
Proof using Type. order_of. Qed.
Lemma key_order_prover : (prover, "PublicKey", 0) ∈ fieldOrders.
Proof using Type. order_of. Qed.

Lemma attempt_rdfGet s p id t d c F f o (Q : result bytes -> S -> Prop) :
  handle s p id t -> holds d c t F -> (c, f, o) ∈ fieldOrders ->
  Q (match F !! f with Some v => Ok v | None => Err errKeyNotFound end) s -> succeeds (attempt (rdfGet c f p)) s Q.
Proof using Hs.
  intros Hh Ht Ho HQ. assert (rdfGet c f p s = (match F !! f with Some v => Ok v | None => Err errKeyNotFound end, s)) as E.
  { unfold rdfGet, deref, mbind, M_bind, lift. rewrite (handle_heap _ _ _ _ Hh). by rewrite (fieldOf_holds tags Hs d c t F f o Ht Ho). }
  unfold attempt, succeeds. rewrite E. destruct (F !! f); eauto.
Qed.

Lemma cons_split {A} (x y : A) l l' : x :: l = y :: l' -> x = y /\ l = l'.
Proof using Type. by intros [= -> ->]. Qed.

Lemma allocationStatuses_spec s r ls ks :
  represents ∅ s r -> Key <$> ls = app GLOBAL_INTRINSIC_ADDRESS <$> ks ->
  Forall (fun k => length k = 32%nat /\ forall n, vertices r !! vid k = Some n -> class n = allocation) ks ->
  succeeds (allocationStatuses ls) s (fun st s' => st = statusesOf r ks /\ extends s s').
Proof using HL Hs.
  revert s ks. induction ls as [|l ls IH]; intros s [|k ks] Hr E Hk; try discriminate E; [by apply succeeds_ret|].
  apply cons_split in E as [El E]. apply Forall_cons in Hk as [[Hl Hc] Hk]. cbn [allocationStatuses].
  rewrite El, length_app. change (length GLOBAL_INTRINSIC_ADDRESS) with 32%nat. cbn [Nat.ltb Nat.leb].
  rewrite take_app_length' by done. rewrite drop_app_length' by done. rewrite bool_decide_true by done. cbn [negb]. m_step.
  cbn [statusesOf omap list_omap]. fold (statusesOf r ks).
  destruct (vertices r !! vid k) as [n|] eqn:En.
  - apply succeeds_attempt. eapply succeeds_mono; [by eapply Get_item|]. intros o s1 (p & -> & He & _ & Ht).
    destruct Ht as (t & Hh & Ht); [set_solver|]. rewrite (Hc n eq_refl) in Ht. m_step.
    eapply attempt_rdfGet; [done..|apply status_order_allocation|]. m_step.
    eapply succeeds_mono; [by eapply (IH s1 ks); [eapply represents_extends|..]|]. intros st s2 [-> He2]. m_steps.
    split; [|by etrans]. cbn [mbind option_bind]. destruct (fields n !! "Status") as [[|b v]|]; done.
  - destruct (Get_missing ∅ s r GLOBAL_INTRINSIC_ADDRESS k Hr (own_global k Hl) En) as [e Ee].
    eapply attempt_Err; [exact Ee|]. cbn [mbind option_bind]. by apply IH.
Qed.

Lemma itemOf_Some c id r F : itemOf c id r = Some F <-> vertices r !! id = Some (mkItem c F).
Proof using Type.
  unfold itemOf. destruct (vertices r !! id) as [[c' F']|]; cbn; [|naive_solver]. case_decide; naive_solver.
Qed.

(** The tree of the prover is up to date but for its status. *)
Lemma aggregate_spec s r r' p a t F frameNumber :
  represents ∅ s r -> handle s p (vid a) t -> holds GLOBAL_INTRINSIC_ADDRESS prover t F ->
  itemOf prover (vid a) r = Some F -> aggregate a r = Some r' ->
  succeeds (UpdateAggregateProverStatus a frameNumber p) s (fun _ s' => represents ∅ s' r').
Proof using HL Hs.
  intros Hr Hh Ht EF Ea. unfold aggregate in Ea. rewrite EF in Ea. cbn [mbind option_bind] in Ea.
  destruct (storedEdge a r) as [ks|] eqn:Ek; [|done]. injection Ea as <-. rewrite <- aggregateStatus_leading. apply itemOf_Some in EF.
  destruct (wf_edges r (rep_wf _ _ _ Hr) a ks Ek) as [Ha Hk]. unfold UpdateAggregateProverStatus.
  assert (copy32 a = a) as -> by (unfold copy32; by apply take_app_length').
  m_step. apply succeeds_attempt. eapply succeeds_mono; [by eapply Get_edge|]. intros o s1 (he & te & -> & He1 & Hte & _ & Ekeys).
  m_step. exists te, s1. split; [unfold deref; by rewrite (handle_heap _ _ _ _ (Hte (vid a)))|]. m_step.
  eapply succeeds_mono; [by eapply (allocationStatuses_spec s1 r); [eapply represents_extends| |]|]. intros st s2 [-> He2].
  assert (extends s s2) as He by (by etrans). m_step.
  eapply succeeds_mono;
    [eapply (rdfSet_handle ∅ s2 r p (vid a) t); [by eapply represents_extends|by eapply handle_extends|done|apply status_order_prover|done]|].
  cbn beta. intros _ s3 (Hr3 & (t3 & _ & Hh3 & Ht3) & _). m_step. apply succeeds_attempt.
  eapply succeeds_mono; [by eapply Get_item|]. intros o s4 (q & -> & He4 & _).
  eapply succeeds_mono;
    [eapply setVertex_handle; [by eapply represents_extends|by eapply handle_extends|done|done|done]|].
  cbn beta. intros _ s5 (Hr5 & _). cbn [class] in Hr5.
  replace (({[vid a]} ∪ ∅) ∖ {[(GLOBAL_INTRINSIC_ADDRESS, a)]} : gset (bytes * bytes)) with (∅ : gset (bytes * bytes)) in Hr5; [done|].
  apply leibniz_equiv. unfold vid. set_solver.
Qed.

(** ** Operations on one allocation *)

Lemma represents_weaken X Y s r : X ⊆ Y -> represents X s r -> represents Y s r.
Proof using HL Hs. intros HX []. split; [done..| |done|done]. intros id p n E Hx. apply rep_heap0; [done|set_solver]. Qed.

(** A tree [q] of the allocation [x] that an operation is changing, beside that of its prover. *)
Record working (s : S) (r : registry) (p : ptr) (a : bytes) (P : gmap string bytes) (q : ptr) (x : bytes) (F : gmap string bytes) : Prop := {
  work_rep : represents {[vid x]} s r;
  work_prover : exists t, handle s p (vid a) t /\ holds GLOBAL_INTRINSIC_ADDRESS prover t P;
  work_allocation : exists t, handle s q (vid x) t /\ holds GLOBAL_INTRINSIC_ADDRESS allocation t F;
  work_ne : p <> q
}.

Lemma allocationAddress_spec pk f : allocationAddress pk f = Ok (allocationAt pk f).
Proof using HL. unfold allocationAddress. by rewrite FillBytes32_hash. Qed.

Lemma item_ne c c' id id' r F F' : c <> c' -> itemOf c id r = Some F -> itemOf c' id' r = Some F' -> id <> id'.
Proof using Type. rewrite !itemOf_Some. intros Hc E E' ->. rewrite E in E'. injection E' as ? _. done. Qed.

Lemma loadAllocation_spec s r op P pk F :
  let a := BLS48581AddressedSignature.Address (FilterOp.Signature op) in
  let x := allocationAt pk (FilterOp.Filter op) in
  represents ∅ s r -> itemOf prover (vid a) r = Some P -> P !! "PublicKey" = Some pk -> itemOf allocation (vid x) r = Some F ->
  succeeds (loadAllocation op) s (fun res s' => exists p q, res = (p, x, q) /\ working s' r p a P q x F).
Proof using HL Hs.
  intros a x Hr EP Epk EF. pose proof (item_ne prover allocation _ _ _ _ _ ltac:(done) EP EF) as Hne. unfold loadAllocation. fold a.
  apply itemOf_Some in EP, EF. destruct (wf_ids r _ _ _ (rep_wf _ _ _ Hr) EP) as [_ Ha].
  assert (copy32 a = a) as -> by (unfold copy32; by apply take_app_length'). m_step.
  eapply succeeds_mono; [by eapply getTree_item|]. cbn beta. intros p s1 (He1 & _ & t1 & Hh1 & Ht1). m_step.
  exists pk, s1. split; [by eapply rdfGet_handle; [..|apply key_order_prover|]|]. m_step. rewrite allocationAddress_spec. apply succeeds_lift, succeeds_bind.
  eapply succeeds_mono; [eapply getTree_item; [by eapply represents_extends|exact EF|set_solver]|].
  cbn beta. intros q s2 (He2 & Hq & t2 & Hh2 & Ht2). m_steps. exists p, q. split; [done|]. split.
  - eapply represents_weaken; [|eapply represents_extends; [by eapply represents_extends|done]]. set_solver.
  - exists t1. split; [by eapply handle_extends|done].
  - exists t2. by split.
  - by eapply handle_ne.
Qed.

Lemma setAllocation_spec s r p a P q x F f o v :
  working s r p a P q x F -> (allocation, f, o) ∈ fieldOrders ->
  succeeds (setAllocation f v q) s (fun _ s' => working s' r p a P q x (<[f := v]> F)).
Proof using HL Hs.
  intros [Hr (tp & Hp & Htp) (tq & Hq & Htq) Hne] Ho. unfold setAllocation.
  eapply succeeds_mono; [by eapply rdfSet_handle|]. cbn beta. intros _ s' (Hr' & (t' & _ & Hh' & Ht') & _ & Hoth). split; [|eauto..|done].
  eapply represents_weaken; [|exact Hr']. set_solver.
Qed.

Lemma setStatus_spec s r p a P q x F op status frameField o :
  working s r p a P q x F -> (allocation, frameField, o) ∈ fieldOrders ->
  succeeds (setStatus status frameField op q) s (fun _ s' => working s' r p a P q x (stamp status frameField (FilterOp.FrameNumber op) F)).
Proof using HL Hs.
  intros Hw Ho. unfold setStatus. m_step. eapply succeeds_mono; [eapply setAllocation_spec; [done|apply status_order_allocation]|].
  cbn beta. intros _ s' Hw'. by eapply setAllocation_spec.
Qed.

Lemma storeAllocation_spec s r r' op frameNumber p P q x F F' :
  let a := BLS48581AddressedSignature.Address (FilterOp.Signature op) in
  working s r p a P q x F -> itemOf prover (vid a) r = Some P -> itemOf allocation (vid x) r = Some F' ->
  aggregate a (setItem (vid x) (mkItem allocation F) r) = Some r' ->
  succeeds (storeAllocation op frameNumber p x q) s (fun _ s' => represents ∅ s' r').
Proof using HL Hs.
  intros a [Hr (tp & Hp & Htp) (tq & Hq & Htq) Hne] EP EF Eag. unfold storeAllocation. fold a.
  pose proof (item_ne prover allocation _ _ _ _ _ ltac:(done) EP EF) as Hid. apply itemOf_Some in EP, EF. m_step.
  eapply succeeds_mono; [by eapply getPrior_item|]. cbn beta. intros prior s1 He1. m_step.
  eapply succeeds_mono; [eapply setVertex_handle; [by eapply represents_extends|by eapply handle_extends|exact EF|done|exact Htq]|].
  cbn beta. intros _ s2 (Hr2 & _ & _ & _ & Hoth). eapply (aggregate_spec s2 _ r' p a tp P).
  - eapply represents_weaken; [|exact Hr2]. unfold vid. set_solver.
  - apply Hoth; [done|by eapply handle_extends].
  - done.
  - apply itemOf_Some. cbn [vertices setItem]. by rewrite lookup_insert_ne.
  - done.
Qed.

(** The frame of the four methods: what comes between loading and storing the allocation has to
    make the change of the step. *)
Lemma filterStep_spec change op frameNumber s r r' (body : ptr * bytes * ptr -> M S unit) :
  let a := BLS48581AddressedSignature.Address (FilterOp.Signature op) in
  filterStep change op r = Some r' -> represents ∅ s r ->
  (forall s1 p x q P F status, working s1 r p a P q x F -> F !! "Status" = Some status ->
     (forall s2, working s2 r p a P q x (change (FilterOp.FrameNumber op) (statusByte status) F) ->
        succeeds (storeAllocation op frameNumber p x q) s2 (fun _ s' => represents ∅ s' r')) ->
     succeeds (body (p, x, q)) s1 (fun _ s' => represents ∅ s' r')) ->
  succeeds (loadAllocation op ≫= body) s (fun _ s' => represents ∅ s' r').
Proof using HL Hs.
  intros a Hstep Hr Hbody. unfold filterStep in Hstep. fold a in Hstep.
  apply bind_Some in Hstep as (P & EP & Hstep). apply bind_Some in Hstep as (pk & Epk & Hstep).
  apply bind_Some in Hstep as (F & EF & Hstep). apply bind_Some in Hstep as (status & Est & Eag). m_step.
  eapply succeeds_mono; [by eapply loadAllocation_spec|]. cbn beta. intros res s1 (p & q & -> & Hw).
  eapply Hbody; [exact Hw|exact Est|]. intros s2 Hw2. by eapply storeAllocation_spec.
Qed.

(** The middle of Confirm and Reject. *)
Lemma choose_status s r p a P q x F op st1 f1 o1 st2 f2 o2 status (k : unit -> M S unit) Q :
  working s r p a P q x F -> (allocation, f1, o1) ∈ fieldOrders -> (allocation, f2, o2) ∈ fieldOrders ->
  (forall s2, working s2 r p a P q x
     (if status =? 0 then stamp st1 f1 (FilterOp.FrameNumber op) F else if status =? 3 then stamp st2 f2 (FilterOp.FrameNumber op) F else F) ->
     succeeds (k tt) s2 Q) ->
  succeeds ((if status =? 0 then setStatus st1 f1 op q else if status =? 3 then setStatus st2 f2 op q else mret tt) ≫= k) s Q.
Proof using HL Hs.
  intros Hw Ho1 Ho2 Hk. m_step. destruct (status =? 0); [|destruct (status =? 3)].
  - eapply succeeds_mono; [by eapply setStatus_spec|]. cbn beta. intros [] s2. apply Hk.
  - eapply succeeds_mono; [by eapply setStatus_spec|]. cbn beta. intros [] s2. apply Hk.
  - m_step. by apply Hk.
Qed.

Lemma Confirm_refines op frameNumber s r r' :
  filterStep confirmFields op r = Some r' -> represents ∅ s r -> succeeds (Confirm_Materialize op frameNumber) s (fun _ s' => represents ∅ s' r').
Proof using HL Hs.
  intros Hstep Hr. eapply filterStep_spec; [done..|]. intros s1 p x q P F status Hw Est Hstore.
  destruct (work_allocation _ _ _ _ _ _ _ _ Hw) as (t & Hh & Ht). m_step. exists status, s1.
  split; [by eapply rdfGet_handle; [..|apply status_order_allocation|]|]. cbv zeta.
  by eapply choose_status; [done|order_of..|].
Qed.

Lemma Reject_refines op frameNumber s r r' :
  filterStep rejectFields op r = Some r' -> represents ∅ s r -> succeeds (Reject_Materialize op frameNumber) s (fun _ s' => represents ∅ s' r').
Proof using HL Hs.
  intros Hstep Hr. eapply filterStep_spec; [done..|]. intros s1 p x q P F status Hw Est Hstore.
  destruct (work_allocation _ _ _ _ _ _ _ _ Hw) as (t & Hh & Ht). m_step. exists status, s1.
  split; [by eapply rdfGet_handle; [..|apply status_order_allocation|]|]. cbv zeta.
  by eapply choose_status; [done|order_of..|].
Qed.

Lemma Pause_refines op frameNumber s r r' :
  filterStep pauseFields op r = Some r' -> represents ∅ s r -> succeeds (Pause_Materialize op frameNumber) s (fun _ s' => represents ∅ s' r').
Proof using HL Hs.
  intros Hstep Hr. eapply filterStep_spec; [done..|]. intros s1 p x q P F status Hw Est Hstore. m_step.
  eapply succeeds_mono; [eapply setStatus_spec; [done|order_of]|]. cbn beta. intros _ s2. apply Hstore.
Qed.

Lemma Resume_refines op frameNumber s r r' :
  filterStep resumeFields op r = Some r' -> represents ∅ s r -> succeeds (Resume_Materialize op frameNumber) s (fun _ s' => represents ∅ s' r').
Proof using HL Hs.
  intros Hstep Hr. eapply filterStep_spec; [done..|]. intros s1 p x q P F status Hw Est Hstore. m_step.
  eapply succeeds_mono; [eapply setStatus_spec; [done|order_of]|]. cbn beta. intros _ s2. apply Hstore.
Qed.

(** ** Operations on several allocations *)

(** Nothing is being changed, and [p] is the tree of the prover. *)
Record ready (s : S) (r : registry) (p : ptr) (a : bytes) (P : gmap string bytes) : Prop := {
  ready_rep : represents ∅ s r;
  ready_prover : exists t, handle s p (vid a) t /\ holds GLOBAL_INTRINSIC_ADDRESS prover t P;
  ready_item : itemOf prover (vid a) r = Some P
}.

Lemma ready_load s r p a P x F :
  ready s r p a P -> itemOf allocation (vid x) r = Some F ->
  succeeds (attempt (Get GLOBAL_INTRINSIC_ADDRESS x VertexAddsDiscriminator)) s (fun o s' => exists q, o = Ok (ObjTree (Some q)) /\ working s' r p a P q x F).
Proof using HL Hs.
  intros [Hr (t & Hh & Ht) EP] EF. pose proof (item_ne prover allocation _ _ _ _ _ ltac:(done) EP EF) as Hne.
  apply itemOf_Some in EF. apply succeeds_attempt. eapply succeeds_mono; [by eapply Get_item|].
  cbn beta. intros o s1 (q & -> & He & Hq & Hx). destruct Hx as (t2 & Hh2 & Ht2); [set_solver|]. exists q. split; [done|]. split.
  - eapply represents_weaken; [|by eapply represents_extends]. set_solver.
  - exists t. split; [by eapply handle_extends|done].
  - exists t2. by split.
  - by eapply handle_ne.
Qed.

Lemma working_store s r p a P q x F F' frameNumber :
  working s r p a P q x F -> itemOf prover (vid a) r = Some P -> itemOf allocation (vid x) r = Some F' ->
  succeeds (prior ← getPrior GLOBAL_INTRINSIC_ADDRESS x; setVertex GLOBAL_INTRINSIC_ADDRESS x frameNumber prior q) s
    (fun _ s' => ready s' (setItem (vid x) (mkItem allocation F) r) p a P).
Proof using HL Hs.
  intros [Hr (tp & Hp & Htp) (tq & Hq & Htq) Hne] EP EF.
  pose proof (item_ne prover allocation _ _ _ _ _ ltac:(done) EP EF) as Hid. apply itemOf_Some in EF. m_step.
  eapply succeeds_mono; [by eapply getPrior_item|]. cbn beta. intros prior s1 He1.
  eapply succeeds_mono; [eapply setVertex_handle; [by eapply represents_extends|by eapply handle_extends|exact EF|done|exact Htq]|].
  cbn beta. intros _ s2 (Hr2 & _ & _ & _ & Hoth). split.
  - eapply represents_weaken; [|exact Hr2]. unfold vid. set_solver.
  - exists tp. split; [|done]. apply Hoth; [done|by eapply handle_extends].
  - apply itemOf_Some in EP. apply itemOf_Some. cbn [vertices setItem]. by rewrite lookup_insert_ne.
Qed.

(** The change of one allocation in Leave and Kick. *)
Lemma stamp_store s r p a P q x F frameNumber status frameField o frame :
  working s r p a P q x F -> itemOf prover (vid a) r = Some P -> itemOf allocation (vid x) r = Some F ->
  (allocation, frameField, o) ∈ fieldOrders ->
  succeeds (_ ← setAllocation "Status" [Z_byte status] q;
            _ ← setAllocation frameField (be 8 frame) q;
            prior ← getPrior GLOBAL_INTRINSIC_ADDRESS x;
            setVertex GLOBAL_INTRINSIC_ADDRESS x frameNumber prior q) s
    (fun _ s' => ready s' (setItem (vid x) (mkItem allocation (stamp status frameField frame F)) r) p a P).
Proof using HL Hs.
  intros Hw EP EF Ho. m_step. eapply succeeds_mono; [eapply setAllocation_spec; [done|apply status_order_allocation]|]. cbn beta. intros _ s1 Hw1.
  m_step. eapply succeeds_mono; [by eapply setAllocation_spec|]. cbn beta. intros _ s2 Hw2. by eapply working_store.
Qed.

Lemma stampItem_inv status f frame x r r' :
  stampItem status f frame x r = Some r' ->
  (vertices r !! vid x = None /\ r' = r)
  \/ exists F, itemOf allocation (vid x) r = Some F /\ r' = setItem (vid x) (mkItem allocation (stamp status f frame F)) r.
Proof using Type.
  unfold stampItem, itemOf. destruct (vertices r !! vid x) as [n|]; [|intros [= <-]; by left].
  case_decide; intros [= <-]. right. exists (fields n). cbn. by rewrite decide_True.
Qed.

Lemma leaveFilter_spec s r r' p a P frameNumber frame pk f :
  ready s r p a P -> stampItem 3 "LeaveFrameNumber" frame (allocationAt pk f) r = Some r' ->
  succeeds (leaveFilter frameNumber frame pk f) s (fun _ s' => ready s' r' p a P).
Proof using HL Hs.
  intros Hr Hst. unfold leaveFilter. m_step. rewrite allocationAddress_spec. apply succeeds_lift, succeeds_bind.
  destruct (stampItem_inv _ _ _ _ _ _ Hst) as [[En ->]|(F & EF & ->)].
  - destruct (Get_missing ∅ s r GLOBAL_INTRINSIC_ADDRESS (allocationAt pk f) (ready_rep _ _ _ _ _ Hr)) as [e Ee];
      [by apply own_global, hashAddress_length|done|]. eapply attempt_Err; [exact Ee|]. by m_step.
  - eapply succeeds_mono; [by eapply ready_load|]. cbn beta. intros o s1 (q & -> & Hw).
    eapply stamp_store; [done|by eapply ready_item|done|order_of].
Qed.

Lemma each_stamp {A} (act : A -> M S unit) (key : A -> bytes) status f frame p a P l s r r' :
  (forall y s r r', y ∈ l -> ready s r p a P -> stampItem status f frame (key y) r = Some r' -> succeeds (act y) s (fun _ s' => ready s' r' p a P)) ->
  ready s r p a P -> stampItems status f frame (key <$> l) r = Some r' ->
  succeeds (each act l) s (fun _ s' => ready s' r' p a P).
Proof using Type.
  intros Hact. revert s r. induction l as [|y l IH]; intros s r Hr Hst; cbn [each].
  - injection Hst as <-. by apply succeeds_ret.
  - rewrite fmap_cons in Hst. cbn [stampItems] in Hst. apply bind_Some in Hst as (r1 & E1 & Hst). m_step.
    eapply succeeds_mono; [eapply Hact; [by left|done|exact E1]|]. cbn beta. intros _ s1 Hr1.
    apply (IH ltac:(intros; eapply Hact; [by right|done..]) s1 r1 Hr1 Hst).
Qed.

Lemma Leave_refines op frameNumber s r r' :
  leaveStep op r = Some r' -> represents ∅ s r -> succeeds (Leave_Materialize op frameNumber) s (fun _ s' => represents ∅ s' r').
Proof using HL Hs.
  intros Hstep Hr. unfold leaveStep in Hstep. apply bind_Some in Hstep as (P & EP & Hstep). apply bind_Some in Hstep as (pk & Epk & Hstep).
  apply bind_Some in Hstep as (r1 & E1 & Eag). pose proof EP as EP'. apply itemOf_Some in EP'.
  destruct (wf_ids r _ _ _ (rep_wf _ _ _ Hr) EP') as [_ Ha]. unfold Leave_Materialize.
  set (a := BLS48581AddressedSignature.Address (LeaveOp.Signature op)) in *. cbv zeta.
  assert (copy32 a = a) as -> by (unfold copy32; by apply take_app_length'). m_step.
  eapply succeeds_mono; [by eapply getTree_item|]. cbn beta. intros p s1 (He1 & _ & t1 & Hh1 & Ht1). m_step.
  exists pk, s1. split; [by eapply rdfGet_handle; [..|apply key_order_prover|]|]. m_step.
  eapply succeeds_mono;
    [eapply (each_stamp _ (allocationAt pk)); [intros; by eapply leaveFilter_spec| |exact E1]; split; [by eapply represents_extends|by exists t1|done]|].
  cbn beta. intros _ s2 [Hr2 (t2 & Hh2 & Ht2) EP2]. by eapply aggregate_spec.
Qed.

Lemma kickAllocation_spec s r r' p a P frameNumber frame l k :
  ready s r p a P -> Key l = GLOBAL_INTRINSIC_ADDRESS ++ k -> length k = 32%nat ->
  stampItem 4 "KickFrameNumber" frame k r = Some r' ->
  succeeds (kickAllocation frameNumber frame l) s (fun _ s' => ready s' r' p a P).
Proof using HL Hs.
  intros Hr El Hk Hst. unfold kickAllocation. rewrite El, length_app. change (length GLOBAL_INTRINSIC_ADDRESS) with 32%nat. cbn [Nat.ltb Nat.leb].
  rewrite take_app_length' by done. rewrite drop_app_length' by done. rewrite bool_decide_true by done. cbn [negb]. cbv zeta. m_step.
  destruct (stampItem_inv _ _ _ _ _ _ Hst) as [[En ->]|(F & EF & ->)].
  - destruct (Get_missing ∅ s r GLOBAL_INTRINSIC_ADDRESS k (ready_rep _ _ _ _ _ Hr) (own_global k Hk) En) as [e Ee].
    eapply attempt_Err; [exact Ee|]. by m_step.
  - eapply succeeds_mono; [by eapply ready_load|]. cbn beta. intros o s1 (q & -> & Hw).
    eapply stamp_store; [done|by eapply ready_item|done|order_of].
Qed.

(** The tree of the prover is stored before the allocations are changed. *)
Lemma kickProver_spec s r p t P a frame frameNumber (k : M S unit) Q :
  let P' := stamp 4 "KickFrameNumber" frame P in
  represents ∅ s r -> handle s p (vid a) t -> holds GLOBAL_INTRINSIC_ADDRESS prover t P -> itemOf prover (vid a) r = Some P ->
  (forall s', ready s' (setItem (vid a) (mkItem prover P') r) p a P' -> succeeds k s' Q) ->
  succeeds (_ ← setProverStatus 4 p;
            _ ← rdfSet GLOBAL_INTRINSIC_ADDRESS prover "KickFrameNumber" (be 8 frame) p;
            prior ← getPrior GLOBAL_INTRINSIC_ADDRESS a;
            _ ← setVertex GLOBAL_INTRINSIC_ADDRESS a frameNumber prior p; k) s Q.
Proof using HL Hs.
  intros P' Hr Hh Ht EP Hk. apply itemOf_Some in EP. m_step.
  eapply succeeds_mono; [eapply rdfSet_handle; [done..|apply status_order_prover|done]|]. cbn beta. intros _ s1 (Hr1 & (t1 & _ & Hh1 & Ht1) & _). m_step.
  eapply succeeds_mono; [eapply rdfSet_handle; [done..|order_of|done]|]. cbn beta. intros _ s2 (Hr2 & (t2 & _ & Hh2 & Ht2) & _). m_step.
  eapply succeeds_mono; [by eapply getPrior_item|]. cbn beta. intros prior s3 He3. m_step.
  eapply succeeds_mono; [eapply setVertex_handle; [by eapply represents_extends|by eapply handle_extends|exact EP|done|exact Ht2]|].
  cbn beta. intros _ s4 (Hr4 & Hh4 & _). apply Hk. split.
  - eapply represents_weaken; [|exact Hr4]. unfold vid. set_solver.
  - by exists t2.
  - apply itemOf_Some. cbn [vertices setItem]. by rewrite lookup_insert_eq.
Qed.

Lemma Kick_refines op frameNumber s r r' :
  kickStep op r = Some r' -> represents ∅ s r -> succeeds (Kick_Materialize op frameNumber) s (fun _ s' => represents ∅ s' r').
Proof using HL Hs.
  intros Hstep Hr. unfold kickStep in Hstep. case_decide as Hpk; [done|]. apply bind_Some in Hstep as (P & EP & Hstep).
  apply bind_Some in Hstep as (ks & Ek & Hst). set (a := hashAddress (ProverKick.KickedProverPublicKey op)) in *.
  pose proof EP as EP'. apply itemOf_Some in EP'. unfold Kick_Materialize, addressOf. m_step. rewrite (FillBytes32_hash _ Hpk). fold a.
  apply succeeds_lift, succeeds_bind. eapply succeeds_mono; [by eapply getTree_item|]. cbn beta. intros p s1 (He1 & _ & t1 & Hh1 & Ht1).
  eapply kickProver_spec; [by eapply represents_extends|done..|]. intros s2 Hr2. m_step. apply succeeds_attempt.
  eapply succeeds_mono; [eapply Get_edge; [by eapply ready_rep|exact Ek]|]. cbn beta. intros o s3 (he & te & -> & He3 & Hte & _ & Ekeys).
  m_step. exists te, s3. split; [unfold deref; by rewrite (handle_heap _ _ _ _ (Hte (vid a)))|]. destruct (wf_edges r (rep_wf _ _ _ Hr) a ks Ek) as [_ Hks].
  eapply succeeds_mono; [eapply (each_stamp _ (fun l => drop 32 (Key l)))|]; cycle -1.
  - cbn beta. intros _ s4 Hr4. by eapply ready_rep.
  - intros l s4 r4 r4' Hl Hr4. assert (Key l ∈ app GLOBAL_INTRINSIC_ADDRESS <$> ks) as Hin by (rewrite <- Ekeys; by apply list_elem_of_fmap_2).
    apply list_elem_of_fmap in Hin as (k & E & Hin). rewrite E, drop_app_length' by done.
    pose proof (proj1 (Forall_forall _ _) Hks k Hin) as [Hk _]. by apply kickAllocation_spec.
  - destruct Hr2 as [Hr2 (t2 & Hh2 & Ht2) EP2]. split; [by eapply represents_extends|exists t2; split; [by eapply handle_extends|done]|done].
  - change (stampItems 4 "KickFrameNumber" (ProverKick.FrameNumber op) (drop 32 ∘ Key <$> leaves_opt (Root te))
      (setItem (vid a) (mkItem prover (stamp 4 "KickFrameNumber" (ProverKick.FrameNumber op) P)) r) = Some r').
    rewrite list_fmap_compose, Ekeys, <- list_fmap_compose, (list_fmap_ext _ id), list_fmap_id; [exact Hst|].
    intros i k _. by apply (drop_app_length' GLOBAL_INTRINSIC_ADDRESS).
Qed.
End refinement.
