(* ===== verification/GlobalRegistryJoin.v ===== *)
(** * Joins, and the refinement of the registry

    A join makes the vertices of the prover and of its allocations and changes its hyperedge.
    With it all Materialize methods that the engine runs are steps of the registry:
    [materialize_refines]. *)

From S2P Require Import Prelude ProofTree ProofTreeWf ProofTreeOps ProofTreeMap ProofTreeCommit ProofTreeProve ProofTreeCanon ProofTreeProveSpec.
From S2P Require Import Wire ProofTreeSerial CanonicalTypes Keys KeyRegistry Global Frames OrderEncoding RdfMultiprover RdfSpec Messages ForkChoice.
From S2P Require Import Stateful GlobalTimeReel FrameProver FrameValidator GlobalMessages HypergraphState GlobalIntrinsic GlobalExecution IntrinsicFields.
From S2P Require Import GlobalRegistry.

Section refinement.
Context {G : Type} `{Hypergraph G} `{TreeCrypto} `{PoseidonHash} `{RDFParser} `{KeyManager} `{Seniorities} {HL : PoseidonLaws _}.
Context (tags : TagsByClass) (Hs : schemaParsed tags).
Context (sha512_length : forall b, length (sha512 b) = 64%nat) (CommitRaw_nonempty : forall b, slotVector b -> CommitRaw b 64 <> []).

Abbreviation S := (hypergraphState G).
Local Abbreviation holds := (holds tags).
Local Abbreviation represents := (represents tags).

(** ** Parts of the state *)

Lemma getPrior_any X s r d a :
  represents X s r -> ownVertex d a -> succeeds (getPrior d a) s (fun _ s' => extends s s').
Proof.
  intros Hr Ho. destruct (vertices r !! (d, a)) as [n|] eqn:En; [by eapply getPrior_item|].
  destruct (Get_missing tags X s r d a Hr Ho En) as [e Ee]. unfold getPrior. m_step.
  eapply attempt_Err; [exact Ee|]. by m_steps.
Qed.

(** Changing a tree of a vertex without changing its fields. *)
Lemma represents_restore X s r id p t n :
  represents ({[id]} ∪ X) s r -> heap s !! p = Some t -> cell s id = Some (Some p) -> vertices r !! id = Some n ->
  holds id.1 (class n) t (fields n) -> represents X s r.
Proof.
  intros [W Gr Pr Ce He Se Ed] Et Ecell En Ht. split; [done..| |done|done]. intros id' q n' Eq Hx En'.
  destruct (decide (id' = id)) as [->|Hne]; [|apply (He id'); [done|set_solver|done]].
  assert (q = p) as -> by congruence. assert (n' = n) as -> by congruence. by exists t.
Qed.

(** Changing a tree that is not that of a vertex. *)
Lemma represents_loose X s r p t : represents X s r -> (forall id, cell s id <> Some (Some p)) -> represents X (set_heap (<[p := t]> (heap s)) s) r.
Proof.
  intros [W Gr Pr Ce He Se Ed] Hc. split; [done..| | |done|done].
  - intros id o Eo. destruct (Ce id o Eo) as (q & ? & ? & ?). exists q. cbn. by rewrite length_insert.
  - intros id q n Eq Hx En. destruct (He id q n Eq Hx En) as (u & Eu & Hu). exists u. split; [|done]. cbn.
    rewrite list_lookup_insert_ne; [done|]. intros ->. by apply (Hc id).
Qed.

Lemma loose_cell (s : S) p t : (forall id, handle s p id t) -> forall id, cell s id <> Some (Some p).
Proof.
  intros Hh id E. pose proof (handle_other _ _ _ _ (Hh ([], [])) id E) as E1. pose proof (handle_other _ _ _ _ (Hh ([], [Byte.x00])) id E) as E2. congruence.
Qed.

(** ** One filter *)

(** The tree [e] of the hyperedge being changed has the allocations [ks]. *)
Record joining (s : S) (r : registry) (e : ptr) (ks : list bytes) : Prop := {
  joining_rep : represents ∅ s r;
  joining_tree : exists te, (forall id, handle s e id te) /\ wf_tree te
    /\ forall key, is_Some (contents te !! key) <-> key ∈ app GLOBAL_INTRINSIC_ADDRESS <$> ks;
  joining_keys : Forall (fun k => length k = 32%nat) ks
}.

(** A new tree [q] for the vertex [id], whose fields are being set, since the state [s0]. *)
Record filling (s0 s : S) (r : registry) (q : ptr) (id : bytes * bytes) (c : string) (F : gmap string bytes) (B : Z) : Prop := {
  fill_rep : represents {[id]} s r;
  fill_tree : exists t, handle s q id t /\ holds id.1 c t F /\ light t B;
  fill_graph : hypergraph s = hypergraph s0;
  fill_new : (length (heap s0) <= q)%nat;
  fill_keeps : forall p id' u, p <> q -> handle s0 p id' u -> handle s p id' u
}.

Lemma filling_start s r id c : represents ∅ s r -> succeeds (new (mkTree None)) s (fun q s' => filling s s' r q id c ∅ 0).
Proof.
  intros Hr. exists (length (heap s)), (set_heap (heap s ++ [mkTree None]) s). split; [done|]. split.
  - eapply (represents_weaken tags Hs); [|by eapply represents_extends, new_extends]. set_solver.
  - exists emptyTree. split_and!; [by eapply new_handle|apply holds_empty|apply light_empty].
  - done.
  - done.
  - intros p id' u _ Hh. by eapply handle_extends, new_extends.
Qed.

Lemma filling_set s0 s r q id c F B f o v :
  filling s0 s r q id c F B -> (c, f, o) ∈ fieldOrders -> F !! f = None -> id.1 <> [] ->
  succeeds (rdfSet id.1 c f v q) s (fun _ s' => filling s0 s' r q id c (<[f := v]> F) (B + 32 + Z.of_nat (length v))).
Proof.
  intros [Hr (t & Hh & Ht & Hl) Eg Hn Hk] Ho Ef Hd.
  eapply succeeds_mono; [by eapply rdfSet_handle|]. cbn beta. intros _ s' (Hr' & (t' & E & Hh' & Ht') & Eg' & Hoth). split.
  - eapply (represents_weaken tags Hs); [|exact Hr']. set_solver.
  - exists t'. split_and!; [done..|]. eapply (setIn_light tags Hs); [|exact Ht|done|done|done|exact E]. by destruct id.1.
  - congruence.
  - done.
  - intros p id' u Hp Hu. by apply Hoth, Hk.
Qed.

(** Sets the next field of a tree. *)
Ltac fill_field id := eapply succeeds_mono; [eapply (filling_set _ _ _ _ id); [done|order_of|done|done]|]; cbn beta.

(** The vertex is stored; what the tree of the registry is afterwards. *)
Lemma filling_store s0 s r q d a c F B frameNumber prior :
  filling s0 s r q (d, a) c F B -> ownVertex d a -> wfRegistry (setItem (d, a) (mkItem c F) r) ->
  succeeds (setVertex d a frameNumber prior q) s (fun _ s' => represents ∅ s' (setItem (d, a) (mkItem c F) r)
    /\ (exists t, handle s' q (d, a) t /\ holds d c t F /\ light t B) /\ cell s' (d, a) = Some (Some q)
    /\ forall p id' u, p <> q -> handle s0 p id' u -> handle s' p id' u).
Proof.
  intros [Hr (t & Hh & Ht & Hl) Eg Hn Hk] Ho W.
  eapply succeeds_mono; [eapply (setVertex_item tags Hs); [done|done|by eapply ownVertex_length|apply Ho|by apply (rep_present _ _ _ _ Hr)|done|done]|].
  cbn beta. intros _ s' (Hr' & Hh' & Ec' & _ & Hoth). split_and!.
  - eapply (represents_weaken tags Hs); [|exact Hr']. set_solver.
  - by exists t.
  - done.
  - intros p id' u Hp Hu. by apply Hoth, Hk.
Qed.

Lemma filling_extends s0 s s' r q id c F B : filling s0 s r q id c F B -> extends s s' -> filling s0 s' r q id c F B.
Proof.
  intros [Hr (t & Hh & Ht & Hl) Eg Hn Hk] He. split; [by eapply represents_extends| | |done|].
  - exists t. split; [by eapply handle_extends|done].
  - rewrite <- Eg. apply He.
  - intros p id' u Hp Hu. eapply handle_extends; [by apply Hk|done].
Qed.

Lemma setItem_allocation_wf x F r : wfRegistry r -> length x = 32%nat -> wfRegistry (setItem (vid x) (mkItem allocation F) r).
Proof.
  intros [Wi We Wf] Hx. split.
  - intros d a n En. cbn [vertices setItem] in En. apply lookup_insert_Some in En as [[[= <- <-] _]|[_ En]]; [by apply own_global|by eapply Wi].
  - intros a ks Ea. destruct (We a ks Ea) as [Ha Hk]. split; [done|]. eapply Forall_impl; [exact Hk|]. intros k [Hl Hc]. split; [done|].
    intros n En. cbn [vertices setItem] in En. apply lookup_insert_Some in En as [[_ <-]|[_ En]]; [done|by apply Hc].
  - intros a ks k Ea Hk. cbn [vertices setItem]. destruct (decide (vid x = vid k)) as [<-|]; [by rewrite lookup_insert_eq|].
    rewrite lookup_insert_ne by done. by eapply Wf.
Qed.

(** The commitment of the vertex is computed in place. *)
Lemma vertexOf_spec s r q d a t n B :
  represents ∅ s r -> handle s q (d, a) t -> cell s (d, a) = Some (Some q) -> vertices r !! (d, a) = Some n ->
  holds d (class n) t (fields n) -> light t B ->
  succeeds (vertexOf d a q) s (fun v s' => Vertex.GetID v = d ++ a /\ 0 <= Vertex.size v <= B /\ represents ∅ s' r
    /\ forall p id' u, p <> q -> handle s p id' u -> handle s' p id' u).
Proof.
  intros Hr Hh Ec En Ht Hl. unfold vertexOf. m_step. destruct (ProofTreeCommit.Commit t false) as [cm t'] eqn:Et.
  assert (t' = (ProofTreeCommit.Commit t false).2) as Et' by (by rewrite Et).
  eapply succeeds_mono; [eapply (update_handle tags Hs _ s r q (d, a) t _ cm t'); [done|done|by rewrite Et]|].
  cbn beta. intros y s' (_ & Hr' & Hh' & _ & Ecell & Hoth). m_step. exists t', s'. split; [unfold deref; by rewrite (handle_heap _ _ _ _ Hh')|]. m_steps.
  cbn [Vertex.GetID Vertex.size Vertex.appAddress Vertex.dataAddress]. split_and!; [done|..].
  - rewrite Et', Commit_GetSize. by eapply light_GetSize; [apply Ht|].
  - rewrite Et', Commit_GetSize. eapply light_GetSize; [apply Ht|done].
  - eapply represents_restore; [exact Hr'|apply (handle_heap _ _ _ _ Hh')|by rewrite Ecell|exact En|]. cbn [fst]. rewrite Et'.
    by apply Commit_holds.
  - done.
Qed.

Lemma AddExtrinsic_spec s r he v ks x :
  joining s r (Hyperedge.extTree he) ks -> Vertex.GetID v = GLOBAL_INTRINSIC_ADDRESS ++ x -> length x = 32%nat -> 0 <= Vertex.size v < 2 ^ 256 ->
  succeeds (AddExtrinsic he v) s (fun _ s' => joining s' r (Hyperedge.extTree he) (ks ++ [x])).
Proof.
  intros [Hr (te & Hh & Hwf & Hk) Hlen] Eid Hx Hsz. unfold AddExtrinsic. m_step. unfold vertexBytes, FillBytes32.
  rewrite decide_True by (unfold is_u; lia). cbn [mbind result_bind]. apply succeeds_lift. set (e := Hyperedge.extTree he) in *. rewrite Eid.
  assert (keysOfLength 64 (contents te)) as Hkl.
  { intros key (k & -> & Hin)%Hk%list_elem_of_fmap. rewrite length_app. rewrite Forall_forall in Hlen. by rewrite (Hlen k Hin). }
  match goal with |- context [ProofTree.Insert _ ?k ?b ?h ?z] => destruct (Insert_spec te k b h z Hwf) as (te' & Ei & Hwf' & Ec) end.
  { apply keysOfLength_fits with 64%nat; [done|by rewrite length_app, Hx|done]. }
  exists tt, (set_heap (<[e := te']> (heap s)) s). split.
  { unfold ignore, update, deref, mbind, M_bind, modify, lift. rewrite (handle_heap _ _ _ _ (Hh (vid x))). by rewrite Ei. }
  pose proof (loose_cell _ _ _ Hh) as Hloose. split.
  - by apply represents_loose.
  - exists te'. split_and!; [|done|].
    + intros id. split; [cbn; apply list_lookup_insert_eq; eapply lookup_lt_Some, (Hh id)|]. intros id' E'. by destruct (Hloose id').
    + intros key. rewrite Ec, lookup_insert_is_Some', fmap_app, elem_of_app, Hk. rewrite list_fmap_singleton, list_elem_of_singleton. clear. intuition congruence.
  - apply Forall_app. split; [done|by constructor].
Qed.

Lemma joinFilter_spec op a frameNumber he s r ks f :
  joining s r (Hyperedge.extTree he) ks -> length a = 32%nat -> Z.of_nat (length f) < 2 ^ 64 ->
  succeeds (joinFilter op a frameNumber he f) s
    (fun _ s' => joining s' (joinAllocation op a r f) (Hyperedge.extTree he) (ks ++ [allocationAt (JoinOp.PublicKey op) f])).
Proof.
  intros [Hr (te & Hh & Hwf & Hk) Hlen] Ha Hf. unfold joinFilter, joinAllocation. m_step. rewrite allocationAddress_spec. apply succeeds_lift, succeeds_bind.
  set (x := allocationAt (JoinOp.PublicKey op) f). assert (length x = 32%nat) as Hx by (by apply hashAddress_length).
  eapply succeeds_mono; [by eapply (filling_start s r (vid x) allocation)|]. cbn beta. intros q s1 H1'. m_step.
  fill_field (vid x). intros _ s2 H2'. m_step.
  fill_field (vid x). intros _ s3 H3'. m_step.
  fill_field (vid x). intros _ s4 H4'. m_step.
  fill_field (vid x). intros _ s5 H5'. m_step.
  eapply succeeds_mono; [eapply getPrior_any; [by eapply fill_rep|by apply own_global]|]. cbn beta. intros prior s6 He6. m_step.
  eapply succeeds_mono; [eapply filling_store; [by eapply filling_extends|by apply own_global|apply setItem_allocation_wf; [apply Hr|done]]|].
  cbn beta. intros _ s7 (Hr7 & (t & Hq & Ht & Hl) & Ec & Hkeep). m_step. fold (joinFields op a f) in *.
  eapply succeeds_mono; [eapply vertexOf_spec; [exact Hr7|exact Hq|exact Ec|cbn [vertices setItem]; by rewrite lookup_insert_eq|exact Ht|exact Hl]|].
  cbn beta. intros v s8 (Eid & Hsz & Hr8 & Hkeep8). assert (Hyperedge.extTree he <> q) as Hne.
  { pose proof (fill_new _ _ _ _ _ _ _ _ H1') as Hq'. pose proof (lookup_lt_Some _ _ _ (handle_heap _ _ _ _ (Hh (vid x)))). lia. }
  eapply AddExtrinsic_spec; [|exact Eid|done|].
  - split; [done| |done]. exists te. split; [|done]. intros id. by apply Hkeep8, Hkeep.
  - split; [lia|]. eapply Z.le_lt_trans; [apply Hsz|]. rewrite length_app, be_length, Ha. cbn [length]. change (length GLOBAL_INTRINSIC_ADDRESS) with 32%nat. lia.
Qed.

Lemma joinFilters_spec op a frameNumber he fs s r ks :
  joining s r (Hyperedge.extTree he) ks -> length a = 32%nat -> Forall (fun f => Z.of_nat (length f) < 2 ^ 64) fs ->
  succeeds (each (joinFilter op a frameNumber he) fs) s
    (fun _ s' => joining s' (foldl (joinAllocation op a) r fs) (Hyperedge.extTree he) (ks ++ (allocationAt (JoinOp.PublicKey op) <$> fs))).
Proof.
  intros Hj Ha Hf. revert s r ks Hj. induction Hf as [|f fs Hf _ IH]; intros s r ks Hj; cbn [each foldl].
  - rewrite fmap_nil, app_nil_r. by apply succeeds_ret.
  - m_step. eapply succeeds_mono; [by eapply joinFilter_spec|]. cbn beta. intros _ s1 Hj1. rewrite fmap_cons.
    rewrite (cons_middle _ ks), app_assoc. by apply IH.
Qed.

(** ** The prover *)

Lemma setItem_new_wf d a c F r :
  wfRegistry r -> ownVertex d a -> vertices r !! (d, a) = None \/ d = QUIL_TOKEN_ADDRESS -> wfRegistry (setItem (d, a) (mkItem c F) r).
Proof.
  intros [Wi We Wf] Ho Hnew. assert (forall b ks k, storedEdge b r = Some ks -> k ∈ ks -> vid k <> (d, a)) as Hk.
  { intros b ks k Eb Hk E. destruct Hnew as [En| ->]; [|done]. destruct (Wf b ks k Eb Hk) as [n En']. rewrite E in En'. congruence. }
  split.
  - intros d' a' n En. cbn [vertices setItem] in En. apply lookup_insert_Some in En as [[[= <- <-] _]|[_ En]]; [done|by eapply Wi].
  - intros b ks Eb. destruct (We b ks Eb) as [Hb Hks]. split; [done|]. apply Forall_forall. intros k Hin. rewrite Forall_forall in Hks.
    destruct (Hks k Hin) as [Hl Hc]. split; [done|]. intros n En. cbn [vertices setItem] in En. rewrite lookup_insert_ne in En by (by symmetry; eapply Hk).
    by apply Hc.
  - intros b ks k Eb Hin. cbn [vertices setItem]. rewrite lookup_insert_ne by (by symmetry; eapply Hk). by eapply Wf.
Qed.

Lemma createProver_spec op a frameNumber s r seniority :
  represents ∅ s r -> ownVertex QUIL_TOKEN_ADDRESS a -> vertices r !! vid a = None -> seniorityOf op = Ok seniority ->
  succeeds (createProver op a frameNumber) s (fun _ s' => represents ∅ s'
    (setItem (QUIL_TOKEN_ADDRESS, a) (mkItem reward (rewardFields op a)) (setItem (vid a) (mkItem prover (proverFields op seniority)) r))).
Proof.
  intros Hr Ho En Es. pose proof (own_global a (proj1 Ho)) as Hg. unfold createProver. m_step. eapply succeeds_mono; [by eapply (filling_start s r (vid a) prover)|].
  cbn beta zeta. intros p s1 H1'. m_step.
  fill_field (vid a). intros _ s2 H2'. m_step.
  fill_field (vid a). intros _ s3 H3'. m_step.
  fill_field (vid a). intros _ s4 H4'. m_step.
  rewrite Es. apply succeeds_lift, succeeds_bind.
  fill_field (vid a). intros _ s5 H5'. m_step.
  fold (proverFields op seniority) in *.
  eapply succeeds_mono; [eapply filling_store; [exact H5'|done|apply setItem_new_wf; [apply Hr|done|by left]]|].
  cbn beta. intros _ s6 (Hr6 & _). m_step. set (id := (QUIL_TOKEN_ADDRESS, a)).
  eapply succeeds_mono; [by eapply (filling_start s6 _ id reward)|]. cbn beta zeta. intros q s7 H7'. m_step.
  fill_field id. intros _ s8 H8'. m_step.
  fill_field id. intros _ s9 H9'. fold (rewardFields op a) in *.
  eapply succeeds_mono; [eapply filling_store; [exact H9'|done|apply setItem_new_wf; [apply Hr6|done|by right]]|]. cbn beta. by intros _ s10 [? _].
Qed.

(** ** The hyperedge *)

Lemma setEdge_wf a r : wfRegistry r -> wfRegistry (setEdge a Joined r).
Proof.
  intros [Wi We Wf]. assert (forall b ks, storedEdge b (setEdge a Joined r) = Some ks -> storedEdge b r = Some ks) as Hst.
  { intros b ks. unfold storedEdge. cbn [edges setEdge]. destruct (decide (a = b)) as [<-|]; [by rewrite lookup_insert_eq|by rewrite lookup_insert_ne]. }
  split; [done|..].
  - intros b ks Eb. by apply We, Hst.
  - intros b ks k Eb. by eapply Wf, Hst.
Qed.

Lemma setEdge_spec s r a he frameNumber prior :
  represents ∅ s r -> length a = 32%nat -> edges r !! a <> Some Joined ->
  succeeds (Set_ GLOBAL_INTRINSIC_ADDRESS a HyperedgeAddsDiscriminator frameNumber (HyperedgeAddMaterializedState frameNumber prior he)) s
    (fun _ s' => represents ∅ s' (setEdge a Joined r) /\ heap s' = heap s /\ exists c,
       changeOf GLOBAL_INTRINSIC_ADDRESS a HyperedgeAddsDiscriminator (changeset s') = Some c /\ StateChange.Value c = HyperedgeAddMaterializedState frameNumber prior he).
Proof.
  intros Hr Ha Hne. unfold Set_. m_steps. change (id s) with s. rewrite (fullAddress_32 GLOBAL_INTRINSIC_ADDRESS a eq_refl Ha).
  assert (exists b, present (GetHyperedge (hypergraph s) (GLOBAL_INTRINSIC_ADDRESS ++ a)) = Ok b) as [b ->].
  { pose proof (rep_edges _ _ _ _ Hr a Ha) as He. cbv zeta in He. destruct (edges r !! a) as [[ks|]|]; [|done|].
    - destruct He as (_ & h & -> & _). by eexists.
    - destruct He as (_ & e & -> & He). cbn [present]. rewrite decide_False by done. by eexists. }
  m_steps. unfold addChange. m_steps. match goal with |- context [set_changeset ?cs s] => set (s' := set_changeset cs s) end.
  assert (forall id, cell s' id = cell s id) as Ecell.
  { intros id. unfold cell, s'. cbn [changeset set_changeset]. rewrite changeOf_snoc, decide_False; [done|]. by intros (_ & _ & ?). }
  split_and!; [|done|eexists; split; [unfold s'; cbn [changeset set_changeset]; rewrite changeOf_snoc, decide_True by done; done|done]].
  destruct Hr as [W Gr Pr Ce He Se Ed]. split; [by apply setEdge_wf|..]; try (intros *; rewrite ?Ecell; first [apply Gr|apply Pr|apply Ce|apply He|apply Se]).
  intros b' Hb'. cbv zeta. unfold s'. cbn [edges setEdge changeset set_changeset hypergraph]. rewrite changeOf_snoc.
  destruct (decide (a = b')) as [<-|Hab]; [rewrite lookup_insert_eq, decide_True by done; by eexists|].
  rewrite lookup_insert_ne, decide_False; [by apply Ed| |done]. cbn. naive_solver.
Qed.

Lemma Get_no_edge X s r a :
  represents X s r -> length a = 32%nat -> edges r !! a = None ->
  exists e, Get GLOBAL_INTRINSIC_ADDRESS a HyperedgeAddsDiscriminator s = (Err e, s).
Proof.
  intros Hr Ha Ea. pose proof (rep_edges _ _ _ _ Hr a Ha) as He. cbv zeta in He. rewrite Ea in He. destruct He as (Ec & e & Eg & _).
  exists e. unfold Get, mbind, M_bind, gets. change (id s) with s. by rewrite Ec, (fullAddress_32 GLOBAL_INTRINSIC_ADDRESS a eq_refl Ha), Eg.
Qed.

Lemma joining_extends s s' r e ks : joining s r e ks -> extends s s' -> joining s' r e ks.
Proof.
  intros [Hr (te & Hh & Hte) Hlen] He. split; [by eapply represents_extends| |done]. exists te. split; [|done]. intros id. by eapply handle_extends.
Qed.

(** The hyperedge that a join starts from: the stored one or an empty one. *)
Definition startEdge (a : bytes) (fresh : ptr) (existing : result object) : M S (Hyperedge.t ptr) :=
  match existing with
  | Ok (ObjHyperedge he) => mret he
  | Ok (ObjTree _) => lift (Err "invalid object returned for hyperedge")
  | _ => mret (Hyperedge.mk GLOBAL_INTRINSIC_ADDRESS a fresh)
  end.

Lemma startEdge_spec s r a fresh :
  represents ∅ s r -> length a = 32%nat -> edges r !! a <> Some Joined -> (forall id, handle s fresh id (mkTree None)) ->
  succeeds (existing ← attempt (Get GLOBAL_INTRINSIC_ADDRESS a HyperedgeAddsDiscriminator); startEdge a fresh existing) s
    (fun he s' => joining s' r (Hyperedge.extTree he) (default [] (storedEdge a r))).
Proof.
  intros Hr Ha Hne Hh. m_step. unfold storedEdge. destruct (edges r !! a) as [[ks|]|] eqn:Ea; [|done|].
  - assert (storedEdge a r = Some ks) as Est by (unfold storedEdge; by rewrite Ea). apply succeeds_attempt.
    eapply succeeds_mono; [by eapply Get_edge|]. cbn beta. intros o s' (he & te & -> & He & Hte & Hwf & Ek). cbn [startEdge]. m_steps. cbn [default id].
    split; [by eapply represents_extends| |].
    + exists te. split_and!; [done..|]. intros key. rewrite <- Ek, list_elem_of_fmap. unfold contents. rewrite contents_of_dom. naive_solver.
    + destruct (wf_edges r (rep_wf _ _ _ _ Hr) a ks Est) as [_ Hks]. eapply Forall_impl; [exact Hks|]. by intros k [? _].
  - destruct (Get_no_edge ∅ s r a Hr Ha Ea) as [e Ee]. eapply attempt_Err; [exact Ee|]. cbn [startEdge]. m_steps. cbn [default id].
    split; [done| |done]. exists emptyTree. split_and!; [done|apply emptyTree_good|]. intros key. rewrite fmap_nil, elem_of_nil. split; [|done].
    by intros [x Ex].
Qed.

Lemma enrol_spec op a frameNumber s r r1 :
  represents ∅ s r -> ownVertex QUIL_TOKEN_ADDRESS a -> enrol op a r = Some r1 ->
  succeeds (vertex ← attempt (Get GLOBAL_INTRINSIC_ADDRESS a VertexAddsDiscriminator);
            match vertex with
            | Ok (ObjTree (Some _)) => mret tt
            | Ok _ => lift (Err "invalid object returned for vertex")
            | _ => createProver op a frameNumber
            end) s (fun _ s' => represents ∅ s' r1).
Proof.
  intros Hr Ho Een. unfold enrol in Een. m_step. destruct (vertices r !! vid a) as [n|] eqn:En.
  - injection Een as <-. apply succeeds_attempt. eapply succeeds_mono; [by eapply Get_item|]. cbn beta. intros o s' (p & -> & He & _). m_steps.
    by eapply represents_extends.
  - destruct (seniorityOf op) as [z| | |] eqn:Ez; try done. injection Een as <-.
    destruct (Get_missing tags ∅ s r GLOBAL_INTRINSIC_ADDRESS a Hr (own_global a (proj1 Ho)) En) as [e Ee]. eapply attempt_Err; [exact Ee|]. by apply createProver_spec.
Qed.

Lemma enrol_edges op a r r1 : enrol op a r = Some r1 -> edges r1 = edges r.
Proof. unfold enrol. destruct (vertices r !! vid a); [by intros [= <-]|]. destruct (seniorityOf op); try done. by intros [= <-]. Qed.

Lemma joinAllocations_edges op a fs r : edges (foldl (joinAllocation op a) r fs) = edges r.
Proof. revert r. induction fs as [|f fs IH]; intros r; [done|]. cbn [foldl]. by rewrite IH. Qed.

(** The value that the change records as the prior one. *)
Lemma priorEdge_spec s r a e ks :
  joining s r e ks -> length a = 32%nat -> edges r !! a <> Some Joined ->
  succeeds (previous ← attempt (Get GLOBAL_INTRINSIC_ADDRESS a HyperedgeAddsDiscriminator);
            match previous with
            | Ok (ObjHyperedge he) => mret (Some (Hyperedge.extTree he))
            | Ok (ObjTree _) => lift (Err "invalid object returned for hyperedge")
            | _ => mret None
            end) s (fun _ s' => joining s' r e ks).
Proof.
  intros Hj Ha Hne. m_step. pose proof (joining_rep _ _ _ _ Hj) as Hr. destruct (edges r !! a) as [[ks'|]|] eqn:Ea; [|done|].
  - apply succeeds_attempt. eapply succeeds_mono; [eapply Get_edge; [exact Hr|unfold storedEdge; by rewrite Ea]|]. cbn beta.
    intros o s' (he & te & -> & He & _). m_steps. by eapply joining_extends.
  - destruct (Get_no_edge ∅ s r a Hr Ha Ea) as [x Ex]. eapply attempt_Err; [exact Ex|]. by m_steps.
Qed.

Lemma Join_refines op frameNumber s r r' :
  let a := hashAddress (JoinOp.PublicKey op) in
  joinStep op r = Some r' -> represents ∅ s r ->
  succeeds (Join_Materialize op frameNumber) s (fun _ s' => represents ∅ s' r' /\ exists c prior he te,
    changeOf GLOBAL_INTRINSIC_ADDRESS a HyperedgeAddsDiscriminator (changeset s') = Some c
    /\ StateChange.Value c = HyperedgeAddMaterializedState frameNumber prior he /\ heap s' !! Hyperedge.extTree he = Some te
    /\ forall key, is_Some (contents te !! key) <->
         key ∈ app GLOBAL_INTRINSIC_ADDRESS <$> default [] (storedEdge a r) ++ (allocationAt (JoinOp.PublicKey op) <$> JoinOp.Filters op)).
Proof.
  intros a Hstep Hr. unfold joinStep in Hstep. fold a in Hstep. case_decide as Hpk; [|done]. destruct Hpk as [Hpk Hfs].
  assert (edges r !! a <> Some Joined /\ exists r1, enrol op a r = Some r1 /\ r' = setEdge a Joined (foldl (joinAllocation op a) r1 (JoinOp.Filters op)))
    as (Hnj & r1 & Een & ->).
  { destruct (edges r !! a) as [[ks|]|]; try done; (split; [done|]); apply bind_Some in Hstep as (r1 & E & [= <-]); eauto. }
  assert (length a = 32%nat) as Ha by (by apply hashAddress_length).
  assert (ownVertex QUIL_TOKEN_ADDRESS a) as Ho by (split; [done|right; split; [done|by eexists]]). pose proof (enrol_edges _ _ _ _ Een) as Ee1.
  unfold Join_Materialize, addressOf. m_step. rewrite (FillBytes32_hash _ Hpk). fold a. apply succeeds_lift, succeeds_first.
  eapply succeeds_mono; [by eapply enrol_spec|]. cbn beta. intros _ s1 Hr1. m_step.
  exists (length (heap s1)), (set_heap (heap s1 ++ [mkTree None]) s1). split; [done|]. set (s2 := set_heap _ s1).
  assert (represents ∅ s2 r1) as Hr2 by (by eapply represents_extends, new_extends). apply succeeds_first.
  eapply succeeds_mono; [eapply (startEdge_spec s2 r1 a (length (heap s1))); [done|done|by rewrite Ee1|intros id; by eapply new_handle]|].
  cbn beta. intros he s3 Hj3. m_step. eapply succeeds_mono; [by eapply joinFilters_spec|]. cbn beta. intros _ s4 Hj4.
  set (r2 := foldl (joinAllocation op a) r1 (JoinOp.Filters op)) in *. assert (edges r2 !! a <> Some Joined) as Hn2.
  { unfold r2. by rewrite joinAllocations_edges, Ee1. }
  apply succeeds_first. eapply succeeds_mono; [by eapply priorEdge_spec|]. cbn beta. intros prior s5 [Hr5 (te & Hh & Hwf & Hk) _].
  eapply succeeds_mono; [by eapply setEdge_spec|]. cbn beta. intros _ s6 (Hr6 & Eh & c & Ec & Ev). split; [done|].
  exists c, prior, he, te. split_and!; [done|done|rewrite Eh; apply (handle_heap _ _ _ _ (Hh (vid a)))|]. intros key. rewrite Hk.
  by rewrite (storedEdge_eq a r r1 Ee1).
Qed.

Lemma step_refines op frameNumber s r r' :
  registryStep op r = Some r' -> represents ∅ s r -> succeeds (materializeOperation op frameNumber) s (fun _ s' => represents ∅ s' r').
Proof.
  destruct op as [op|op|op|op|op|op|op]; cbn [registryStep materializeOperation];
    [|by apply Leave_refines|by apply Pause_refines|by apply Resume_refines|by apply Confirm_refines|by apply Reject_refines|by apply Kick_refines].
  intros Hstep Hr. eapply succeeds_mono; [by eapply Join_refines|]. cbn beta. by intros _ s' [? _].
Qed.

Lemma steps_refine ops frameNumber s r r' :
  registrySteps ops r = Some r' -> represents ∅ s r ->
  succeeds (each (fun op => materializeOperation op frameNumber) ops) s (fun _ s' => represents ∅ s' r').
Proof.
  revert s r. induction ops as [|op ops IH]; intros s r Hsteps Hr; cbn [each].
  - injection Hsteps as <-. by apply succeeds_ret.
  - apply bind_Some in Hsteps as (r1 & E1 & Hsteps). m_step.
    eapply succeeds_mono; [by eapply step_refines|]. cbn beta. intros _ s1 Hr1. by eapply IH.
Qed.

(** C19: Refinement of the registry of provers: Materialize of every sequence of joins, leaves,
    pauses, resumptions, confirmations, rejections and kicks, run on a pending state that represents a
    registry, succeeds and ends in a pending state that represents the registry after the same
    sequence of steps.  Trees that are shared between the changes and the operations, changes
    that are made in place and fields of the RDF trees are all accounted for. *)
Theorem materialize_refines (ops : list operation) (frameNumber : Z) (s : S) (r r' : registry) :
  registrySteps ops r = Some r' -> represents ∅ s r ->
  succeeds (each (fun op => materializeOperation op frameNumber) ops) s (fun _ s' => represents ∅ s' r').
Proof. apply steps_refine. Qed.
End refinement.
