(* ===== verification/GlobalRegistrySpec.v ===== *)
(** * What the operations on provers are allowed to do, and do

    [permitted] says on the registry when an operation is valid, with the timing windows in
    closed form; [verify_iff] shows that the Verify methods check exactly this on the
    hypergraph.  An operation that is validated then executes, and the status of every prover
    stays the aggregate of the statuses of its allocations. *)

From S2P Require Import Prelude ProofTree ProofTreeWf ProofTreeOps ProofTreeMap ProofTreeCommit ProofTreeProve ProofTreeCanon ProofTreeProveSpec.
From S2P Require Import Wire ProofTreeSerial CanonicalTypes Keys KeyRegistry Global Frames OrderEncoding RdfMultiprover RdfSpec Messages ForkChoice.
From S2P Require Import Stateful GlobalTimeReel FrameProver FrameValidator GlobalMessages HypergraphState GlobalIntrinsic GlobalExecution IntrinsicFields.
From S2P Require Import GlobalRegistry GlobalRegistryJoin.

(** ** Windows *)

(** Frames since another one, on 64 bits without sign. *)
Definition since (frame start : Z) : Z := u64 (frame - start).

Definition joinWindow (frame join : Z) : Prop :=
  (252840 <= join \/ 252840 <= frame) /\ 360 <= since frame (Z.max join 252480) <= 720.
Definition leaveWindow (frame leave : Z) : Prop := 360 <= since frame leave <= 720.
Definition joinRejectWindow (frame join : Z) : Prop := join < 252840 \/ since frame join <= 720.
Definition pauseWindow (frame pause : Z) : Prop := since frame pause <= 360.

Lemma confirmJoinWindow_iff frame join : confirmJoinWindow frame join = Ok tt <-> joinWindow frame join.
Proof.
  unfold confirmJoinWindow, joinWindow, since.
  destruct (Z.ltb_spec join 252840), (Z.ltb_spec frame 252840), (Z.ltb_spec join 252480); cbn [andb]; try lia;
    repeat match goal with
    | |- context [if ?a <=? ?b then _ else _] => destruct (Z.leb_spec a b)
    | |- context [if ?a <? ?b then _ else _] => destruct (Z.ltb_spec a b)
    end;
    try (rewrite Z.max_r in * by lia); try (rewrite Z.max_l in * by lia); split; try done; try lia.
Qed.

Lemma confirmLeaveWindow_iff frame leave : confirmLeaveWindow frame leave = Ok tt <-> leaveWindow frame leave.
Proof.
  unfold confirmLeaveWindow, leaveWindow. fold (since frame leave).
  destruct (Z.ltb_spec (since frame leave) 360), (Z.ltb_spec 720 (since frame leave)); split; try done; lia.
Qed.

Lemma rejectJoinWindow_iff frame join : rejectJoinWindow frame join = Ok tt <-> joinRejectWindow frame join.
Proof.
  unfold rejectJoinWindow, joinRejectWindow. fold (since frame join).
  destruct (Z.leb_spec 252840 join), (Z.ltb_spec 720 (since frame join)); split; try done; lia.
Qed.

Lemma rejectLeaveWindow_iff frame leave : rejectLeaveWindow frame leave = Ok tt <-> leaveWindow frame leave.
Proof.
  unfold rejectLeaveWindow, leaveWindow. fold (since frame leave).
  destruct (Z.ltb_spec (since frame leave) 360), (Z.ltb_spec 720 (since frame leave)); split; try done; lia.
Qed.

Lemma resumeWindow_iff frame pause : resumeWindow frame pause = Ok tt <-> pauseWindow frame pause.
Proof.
  unfold resumeWindow, pauseWindow. fold (since frame pause). destruct (Z.ltb_spec 360 (since frame pause)); split; try done; lia.
Qed.

(** ** Permissions *)

(** A frame number of an allocation that lies in a window. *)
Definition frameRule (field : string) (window : Z -> Prop) (F : gmap string bytes) : Prop :=
  exists b, F !! field = Some b /\ length b = 8%nat /\ window (be_val b).

Definition confirmRule (frame status : Z) (F : gmap string bytes) : Prop :=
  status = 0 /\ frameRule "JoinFrameNumber" (joinWindow frame) F \/ status = 3 /\ frameRule "LeaveFrameNumber" (leaveWindow frame) F.
Definition rejectRule (frame status : Z) (F : gmap string bytes) : Prop :=
  status = 0 /\ frameRule "JoinFrameNumber" (joinRejectWindow frame) F \/ status = 3 /\ frameRule "LeaveFrameNumber" (leaveWindow frame) F.
Definition pauseRule (frame status : Z) (F : gmap string bytes) : Prop := status = 1.
Definition resumeRule (frame status : Z) (F : gmap string bytes) : Prop :=
  status = 2 /\ frameRule "PauseFrameNumber" (pauseWindow frame) F.

Section permissions.
Context `{PoseidonHash} `{KeyManager}.

Definition domainOf (name : string) : bytes := match signatureDomain name with Ok d => d | _ => [] end.

(** The key of the prover that an address, cut to 32 bytes, leads to. *)
Definition keyAt (address : bytes) (r : registry) : option bytes :=
  if decide (32 <= length address)%nat then P ← itemOf prover (vid (take 32 address)) r; P !! "PublicKey" else None.

Definition filterPermitted (name : string) (rule : Z -> gmap string bytes -> Prop) (op : FilterOp.t) (r : registry) : Prop :=
  exists publicKey F status,
    keyAt (BLS48581AddressedSignature.Address (FilterOp.Signature op)) r = Some publicKey
    /\ itemOf allocation (vid (allocationAt publicKey (FilterOp.Filter op))) r = Some F /\ F !! "Status" = Some status
    /\ rule (statusByte status) F
    /\ ValidateSignature keyTypeBLS48581G1 publicKey (filterMessage op) (BLS48581AddressedSignature.Signature (FilterOp.Signature op))
         (domainOf name) = Ok true.

(** One of the allocations is active. *)
Definition leavePermitted (op : LeaveOp.t) (r : registry) : Prop :=
  exists publicKey, keyAt (BLS48581AddressedSignature.Address (LeaveOp.Signature op)) r = Some publicKey
    /\ Exists (fun f => exists F b bs, itemOf allocation (vid (allocationAt publicKey f)) r = Some F
                          /\ F !! "Status" = Some (b :: bs) /\ byte_Z b = 1) (LeaveOp.Filters op)
    /\ ValidateSignature keyTypeBLS48581G1 publicKey (leaveMessage op) (BLS48581AddressedSignature.Signature (LeaveOp.Signature op))
         (domainOf "PROVER_LEAVE") = Ok true.

(** The frame number of the join is not compared with the current one. *)
Definition joinPermitted (op : JoinOp.t) (r : registry) : Prop :=
  Forall (fun f => 32 <= length f)%nat (JoinOp.Filters op)
  /\ (forall P b bs, itemOf prover (vid (hashAddress (JoinOp.PublicKey op))) r = Some P -> P !! "Status" = Some (b :: bs) -> byte_Z b = 4)
  /\ (exists message, joinMessage op = Ok message
        /\ ValidateSignature keyTypeBLS48581G1 (JoinOp.PublicKey op) message (JoinOp.Signature op) (domainOf "PROVER_JOIN") = Ok true)
  /\ ValidateSignature keyTypeBLS48581G1 (JoinOp.PublicKey op) (JoinOp.PublicKey op) (JoinOp.PopSignature op) popDomain = Ok true
  /\ Forall (fun t => ValidateSignature (SeniorityMerge.KeyType t) (SeniorityMerge.ProverPublicKey t) (JoinOp.PublicKey op)
                        (SeniorityMerge.Signature t) mergeDomain = Ok true) (JoinOp.MergeTargets op).

(** Kicks are treated apart. *)
Definition permitted (op : operation) (frame : Z) (r : registry) : Prop :=
  match op with
  | OpJoin op => joinPermitted op r
  | OpLeave op => leavePermitted op r
  | OpPause op => filterPermitted "PROVER_PAUSE" (pauseRule frame) op r
  | OpResume op => filterPermitted "PROVER_RESUME" (resumeRule frame) op r
  | OpConfirm op => filterPermitted "PROVER_CONFIRM" (confirmRule frame) op r
  | OpReject op => filterPermitted "PROVER_REJECT" (rejectRule frame) op r
  | OpKick _ => False
  end.
End permissions.

(** What the methods take for granted: an address computed for an allocation holds an
    allocation, and the address that an operation names holds a prover. *)
Definition typedRegistry `{PoseidonHash} (r : registry) : Prop :=
  forall publicKey filter n, vertices r !! vid (allocationAt publicKey filter) = Some n -> class n = allocation.

Definition holdsProver (address : bytes) (r : registry) : Prop := forall n, vertices r !! vid address = Some n -> class n = prover.

Definition namesProver `{PoseidonHash} (op : operation) (r : registry) : Prop :=
  match op with
  | OpJoin op => JoinOp.PublicKey op <> [] /\ holdsProver (hashAddress (JoinOp.PublicKey op)) r
  | OpLeave op => holdsProver (take 32 (BLS48581AddressedSignature.Address (LeaveOp.Signature op))) r
  | OpPause op | OpResume op | OpConfirm op | OpReject op =>
    holdsProver (take 32 (BLS48581AddressedSignature.Address (FilterOp.Signature op))) r
  | OpKick op => ProverKick.KickedProverPublicKey op <> [] /\ holdsProver (hashAddress (ProverKick.KickedProverPublicKey op)) r
  end.

(** ** Verify *)

Section verify.
Context {G : Type} `{Hypergraph G} `{TreeCrypto} `{PoseidonHash} `{RDFParser} `{KeyManager} `{Seniorities} `{Environment} `{FrameCrypto} {HL : PoseidonLaws _}.
Context (tags : TagsByClass) (Hs : schemaParsed tags).

Local Abbreviation holds := (holds tags).

(** The hypergraph has the vertices of the registry. *)
Definition synced (g : G) (r : registry) : Prop :=
  forall d a, ownVertex d a ->
    match vertices r !! (d, a) with
    | Some n => (exists v, GetVertex g (d ++ a) = Ok v) /\ exists t, GetVertexData g (d ++ a) = Ok t /\ holds d (class n) t (fields n)
    | None => (exists e, GetVertex g (d ++ a) = Err e) /\ exists e, GetVertexData g (d ++ a) = Err e
    end.

(** The hypergraph holds the registry, and has had nothing of it removed. *)
Record opened (g : G) (r : registry) : Prop := {
  opened_wf : wfRegistry r;
  opened_synced : synced g r;
  opened_present : forall d a, ownVertex d a -> exists b, present (GetVertex g (d ++ a)) = Ok b;
  opened_edges : forall a, length a = 32%nat ->
    match edges r !! a with
    | None => exists e, GetHyperedge g (GLOBAL_INTRINSIC_ADDRESS ++ a) = Err e /\ e <> ErrRemoved
    | Some (Stored ks) => exists h, GetHyperedge g (GLOBAL_INTRINSIC_ADDRESS ++ a) = Ok h /\ wf_tree (Hyperedge.extTree h)
        /\ Key <$> leaves_opt (Root (Hyperedge.extTree h)) = app GLOBAL_INTRINSIC_ADDRESS <$> ks
    | Some Joined => False
    end
}.

(** A new pending state represents what the hypergraph holds. *)
Lemma opened_represents g r : opened g r -> represents tags ∅ (NewHypergraphState g) r.
Proof using Type.
  intros [W Hy Hp He]. split; [done| |done|done|done|done|].
  - intros d a Ho _. pose proof (Hy d a Ho) as Hx. destruct (vertices r !! (d, a)); by destruct Hx.
  - intros a Ha. cbv zeta. pose proof (He a Ha) as Hx. destruct (edges r !! a) as [[ks|]|]; [by split|done|by split].
Qed.

Lemma signatureDomain_spec name : signatureDomain name = Ok (domainOf name).
Proof using HL.
  unfold domainOf, signatureDomain. destruct (HashBytes_total (GLOBAL_INTRINSIC_ADDRESS ++ stringBytes name)) as (h & -> & _); done.
Qed.

Lemma checkSignature_iff ty pk m sig d msg : checkSignature ty pk m sig d msg = Ok tt <-> ValidateSignature ty pk m sig d = Ok true.
Proof using Type. unfold checkSignature. by destruct (ValidateSignature ty pk m sig d) as [[]| | |]. Qed.

Lemma item_data g r a :
  synced g r -> length a = 32%nat ->
  match vertices r !! vid a with
  | Some n => exists t, GetVertexData g (GLOBAL_INTRINSIC_ADDRESS ++ a) = Ok t /\ holds GLOBAL_INTRINSIC_ADDRESS (class n) t (fields n)
  | None => exists e, GetVertexData g (GLOBAL_INTRINSIC_ADDRESS ++ a) = Err e
  end.
Proof using Type.
  intros Hy Ha. pose proof (Hy GLOBAL_INTRINSIC_ADDRESS a (own_global a Ha)) as Hx. unfold vid. destruct (vertices r !! _); by destruct Hx.
Qed.

Lemma registeredKey_iff g r address pk :
  synced g r -> holdsProver (take 32 address) r -> registeredKey g address = Ok pk <-> keyAt address r = Some pk.
Proof using Hs.
  intros Hy Hc. unfold registeredKey, keyAt, vertexId. destruct (Nat.ltb_spec (length address) 32) as [Hl|Hl].
  - rewrite decide_False by lia. done.
  - rewrite decide_True by lia. cbn [mbind result_bind]. assert (length (take 32 address) = 32%nat) as Ht by (rewrite length_take; lia).
    pose proof (Hy GLOBAL_INTRINSIC_ADDRESS _ (own_global _ Ht)) as Hx. unfold itemOf, holdsProver, vid in *.
    destruct (vertices r !! (GLOBAL_INTRINSIC_ADDRESS, take 32 address)) as [n|].
    + destruct Hx as ([v ->] & t & -> & Hh). cbn [mbind result_bind option_bind]. rewrite (Hc n eq_refl) in *. rewrite decide_True by done.
      rewrite (fieldOf_holds tags Hs _ _ _ _ _ _ Hh key_order_prover). cbn. destruct (fields n !! "PublicKey"); split; congruence.
    + destruct Hx as ([e ->] & _). done.
Qed.

Lemma allocationAt_length pk f : length (allocationAt pk f) = 32%nat.
Proof using HL. by apply hashAddress_length. Qed.

Lemma allocationTree_spec g r pk f :
  synced g r -> typedRegistry r ->
  match itemOf allocation (vid (allocationAt pk f)) r with
  | Some F => exists t, allocationTree g pk f = Ok t /\ holds GLOBAL_INTRINSIC_ADDRESS allocation t F
  | None => exists e, allocationTree g pk f = Err e
  end.
Proof using HL.
  intros Hy Hty. unfold allocationTree. rewrite allocationAddress_spec. cbn [mbind result_bind].
  pose proof (item_data g r (allocationAt pk f) Hy (allocationAt_length pk f)) as Hx. unfold itemOf.
  destruct (vertices r !! vid (allocationAt pk f)) as [n|] eqn:En; cbn [mbind option_bind].
  - destruct Hx as (t & -> & Hh). rewrite (Hty _ _ _ En) in *. rewrite decide_True by done. eauto.
  - destruct Hx as (e & ->). eauto.
Qed.

(** The rule on the status, as a check on the tree. *)
Definition checks (check : Z -> VectorCommitmentTree -> result unit) (rule : Z -> gmap string bytes -> Prop) : Prop :=
  forall status t F, holds GLOBAL_INTRINSIC_ADDRESS allocation t F -> check status t = Ok tt <-> rule status F.

Lemma verifyFilterOp_iff name check rule g r op :
  checks check rule -> synced g r -> typedRegistry r ->
  holdsProver (take 32 (BLS48581AddressedSignature.Address (FilterOp.Signature op))) r ->
  verifyFilterOp name check g op = Ok true <-> filterPermitted name rule op r.
Proof using HL Hs.
  intros Hck Hy Hty Hc. unfold verifyFilterOp, filterPermitted. rewrite signatureDomain_spec. cbn [mbind result_bind].
  set (address := BLS48581AddressedSignature.Address (FilterOp.Signature op)) in *.
  destruct (registeredKey g address) as [pk|e| |] eqn:Ek; cbn [mbind result_bind].
  2-4: split; [done|]; intros (pk & F & st & Epk & _); apply (registeredKey_iff g r address pk Hy Hc) in Epk; congruence.
  apply (registeredKey_iff g r address pk Hy Hc) in Ek. rewrite Ek. pose proof (allocationTree_spec g r pk (FilterOp.Filter op) Hy Hty) as Ha.
  destruct (itemOf allocation (vid (allocationAt pk (FilterOp.Filter op))) r) as [F|] eqn:EF.
  2: { destruct Ha as [e ->]. split; [done|]. intros (pk' & F & st & [= <-] & E & _). congruence. }
  destruct Ha as (t & -> & Ht). cbn [mbind result_bind]. rewrite (fieldOf_holds tags Hs _ _ _ _ _ _ Ht status_order_allocation).
  destruct (F !! "Status") as [st|] eqn:Est; cbn [mbind result_bind].
  2: { split; [done|]. intros (pk' & F' & st & [= <-] & E & E' & _). congruence. }
  pose proof (Hck (statusByte st) t F Ht) as Hr.
  pose proof (checkSignature_iff keyTypeBLS48581G1 pk (filterMessage op) (BLS48581AddressedSignature.Signature (FilterOp.Signature op))
    (domainOf name) "invalid signature") as Hsig. split.
  - destruct (check _ t) as [[]|e| |] eqn:Ec; cbn [mbind result_bind]; try done.
    destruct (checkSignature _ _ _ _ _ _) as [[]|e| |]; cbn [mbind result_bind]; try done. intros _.
    exists pk, F, st. split_and!; [done..|by apply Hr|by apply Hsig].
  - intros (pk' & F' & st' & [= <-] & E & E' & Hrule & Hv). assert (F' = F) as -> by congruence. assert (st' = st) as -> by congruence.
    apply Hr in Hrule. rewrite Hrule. cbn [mbind result_bind]. apply Hsig in Hv. by rewrite Hv.
Qed.

Lemma frameOf_iff t F field o missing (W : Z -> result unit) window :
  holds GLOBAL_INTRINSIC_ADDRESS allocation t F -> (allocation, field, o) ∈ fieldOrders -> (forall n, W n = Ok tt <-> window n) ->
  (n ← frameOf field missing t; W n) = Ok tt <-> frameRule field window F.
Proof using Hs.
  intros Ht Ho HW. unfold frameOf, frameRule. rewrite (fieldOf_holds tags Hs _ _ _ _ _ _ Ht Ho). destruct (F !! field) as [b|]; cbn [mbind result_bind].
  - destruct (Nat.eqb_spec (length b) 8) as [Hl|Hl]; cbn [mbind result_bind].
    + rewrite HW. split; [eauto|]. by intros (b' & [= <-] & _ & ?).
    + split; [done|]. by intros (b' & [= <-] & ? & _).
  - split; [done|]. by intros (b' & ? & _).
Qed.

Lemma two_rules (status : Z) (r0 r3 : result unit) msg P0 P3 :
  (r0 = Ok tt <-> P0) -> (r3 = Ok tt <-> P3) ->
  (if status =? 0 then r0 else if status =? 3 then r3 else Err msg) = Ok tt <-> status = 0 /\ P0 \/ status = 3 /\ P3.
Proof using Type.
  intros E0 E3. destruct (Z.eqb_spec status 0); [rewrite E0; split; [by left|intros [[_ ?]|[? _]]; [done|lia]]|].
  destruct (Z.eqb_spec status 3); [rewrite E3; split; [by right|intros [[? _]|[_ ?]]; [lia|done]]|]. split; [done|by intros [[]|[]]].
Qed.

Lemma confirm_checks frame : checks (confirmCheck frame) (confirmRule frame).
Proof using Hs.
  intros status t F Ht. apply two_rules; (eapply frameOf_iff; [exact Ht|order_of|]).
  - apply confirmJoinWindow_iff.
  - apply confirmLeaveWindow_iff.
Qed.

Lemma reject_checks frame : checks (rejectCheck frame) (rejectRule frame).
Proof using Hs.
  intros status t F Ht. apply two_rules; (eapply frameOf_iff; [exact Ht|order_of|]).
  - apply rejectJoinWindow_iff.
  - apply rejectLeaveWindow_iff.
Qed.

Lemma pause_checks frame : checks pauseCheck (pauseRule frame).
Proof using Type. intros status t F Ht. unfold pauseCheck, pauseRule. by destruct (Z.eqb_spec status 1). Qed.

Lemma resume_checks frame : checks (resumeCheck frame) (resumeRule frame).
Proof using Hs.
  intros status t F Ht. unfold resumeCheck, resumeRule. destruct (Z.eqb_spec status 2); [|by split; [|intros []]].
  rewrite (frameOf_iff t F "PauseFrameNumber" 6 _ _ (pauseWindow frame) Ht); [|order_of|apply resumeWindow_iff]. naive_solver.
Qed.

Lemma hasActive_iff g r pk fs :
  synced g r -> typedRegistry r ->
  exists b, hasActiveAllocation g pk fs = Ok b
    /\ (b = true <-> Exists (fun f => exists F x xs, itemOf allocation (vid (allocationAt pk f)) r = Some F
                                 /\ F !! "Status" = Some (x :: xs) /\ byte_Z x = 1) fs).
Proof using HL Hs.
  intros Hy Hty. induction fs as [|f fs (b & Eb & IH)]; [exists false; split; [done|]; split; [done|by intros ?%Exists_nil]|]. cbn [hasActiveAllocation].
  pose proof (allocationTree_spec g r pk f Hy Hty) as Ha. setoid_rewrite Exists_cons.
  destruct (itemOf allocation (vid (allocationAt pk f)) r) as [F|].
  - destruct Ha as (t & -> & Ht). cbn [mbind result_bind]. rewrite (fieldOf_holds tags Hs _ _ _ _ _ _ Ht status_order_allocation).
    destruct (F !! "Status") as [[|x xs]|] eqn:Est; [exists b; naive_solver| |exists b; naive_solver].
    destruct (Z.eqb_spec (byte_Z x) 1); [exists true|exists b]; (split; [done|]); naive_solver.
  - destruct Ha as (e & ->). exists b. split; [done|]. naive_solver.
Qed.

Lemma Leave_Verify_iff g r op frame :
  synced g r -> typedRegistry r -> holdsProver (take 32 (BLS48581AddressedSignature.Address (LeaveOp.Signature op))) r ->
  Leave_Verify g op frame = Ok true <-> leavePermitted op r.
Proof using HL Hs.
  intros Hy Hty Hc. unfold Leave_Verify, leavePermitted. rewrite signatureDomain_spec. cbn [mbind result_bind].
  set (address := BLS48581AddressedSignature.Address (LeaveOp.Signature op)) in *.
  destruct (registeredKey g address) as [pk|e| |] eqn:Ek; cbn [mbind result_bind].
  2-4: split; [done|]; intros (pk & Epk & _); apply (registeredKey_iff g r address pk Hy Hc) in Epk; congruence.
  apply (registeredKey_iff g r address pk Hy Hc) in Ek. rewrite Ek.
  destruct (hasActive_iff g r pk (LeaveOp.Filters op) Hy Hty) as (b & -> & Hb). cbn [mbind result_bind].
  pose proof (checkSignature_iff keyTypeBLS48581G1 pk (leaveMessage op) (BLS48581AddressedSignature.Signature (LeaveOp.Signature op))
    (domainOf "PROVER_LEAVE") "invalid signature") as Hsig. split.
  - destruct b; cbn [negb]; [|done]. destruct (checkSignature _ _ _ _ _ _) as [[]|e| |]; cbn [mbind result_bind]; try done. intros _.
    exists pk. split_and!; [done|by apply Hb|by apply Hsig].
  - intros (pk' & [= <-] & Hx & Hv). apply Hb in Hx. subst b. cbn [negb]. apply Hsig in Hv. by rewrite Hv.
Qed.

Lemma canJoin_iff g r a :
  synced g r -> length a = 32%nat -> holdsProver a r ->
  canJoin g a = Ok tt <-> forall P b bs, itemOf prover (vid a) r = Some P -> P !! "Status" = Some (b :: bs) -> byte_Z b = 4.
Proof using Hs.
  intros Hy Ha Hc. unfold canJoin, itemOf. pose proof (item_data g r a Hy Ha) as Hx. unfold holdsProver in Hc.
  destruct (vertices r !! vid a) as [n|]; cbn [mbind option_bind].
  - destruct Hx as (t & -> & Ht). rewrite (Hc n eq_refl) in *. rewrite decide_True by done. cbn [mbind result_bind].
    rewrite (fieldOf_holds tags Hs _ _ _ _ _ _ Ht status_order_prover). destruct (fields n !! "Status") as [[|b bs]|] eqn:E.
    + split; [|done]. intros _ P b bs [= <-]. congruence.
    + destruct (Z.eqb_spec (byte_Z b) 4); split; try done; [|intros Hall; by destruct (n0 (Hall _ _ _ eq_refl E))].
      intros _ P b' bs' [= <-]. congruence.
    + split; [|done]. intros _ P b bs [= <-]. congruence.
  - destruct Hx as (e & ->). by split.
Qed.

Lemma checkMerges_iff pk ts :
  checkMerges pk ts = Ok tt <->
  Forall (fun t => ValidateSignature (SeniorityMerge.KeyType t) (SeniorityMerge.ProverPublicKey t) pk (SeniorityMerge.Signature t) mergeDomain = Ok true) ts.
Proof using Type.
  induction ts as [|t ts IH]; [by split|]. cbn [checkMerges]. rewrite Forall_cons, <- IH, <- (checkSignature_iff _ _ _ _ _ "invalid merge signature").
  destruct (checkSignature _ _ _ _ _ _) as [[]|e| |]; cbn [mbind result_bind]; naive_solver.
Qed.

Lemma existsb_short fs : existsb (fun f : bytes => (length f <? 32)%nat) fs = false <-> Forall (fun f => 32 <= length f)%nat fs.
Proof using Type.
  induction fs as [|f fs IH]; [by split|]. cbn [existsb]. rewrite Forall_cons, orb_false_iff, IH, Nat.ltb_ge. done.
Qed.

Lemma Join_Verify_iff g r op frame :
  synced g r -> JoinOp.PublicKey op <> [] -> holdsProver (hashAddress (JoinOp.PublicKey op)) r ->
  Join_Verify g op frame = Ok true <-> joinPermitted op r.
Proof using HL Hs.
  intros Hy Hpk Hc. unfold Join_Verify, joinPermitted, addressOf. rewrite (FillBytes32_hash _ Hpk). cbn [mbind result_bind].
  rewrite <- (canJoin_iff g r _ Hy (hashAddress_length _ Hpk) Hc), <- existsb_short, <- checkMerges_iff.
  rewrite <- (checkSignature_iff _ _ _ _ popDomain "invalid pop signature"). setoid_rewrite <- (checkSignature_iff _ _ _ _ (domainOf "PROVER_JOIN") "invalid signature").
  split.
  - destruct (existsb _ (JoinOp.Filters op)); [done|]. destruct (canJoin _ _) as [[]|e| |]; cbn [mbind result_bind]; try done.
    destruct (joinMessage op) as [m|e| |]; cbn [mbind result_bind]; try done. rewrite signatureDomain_spec. cbn [mbind result_bind].
    destruct (checkSignature _ _ m _ _ _) as [[]|e| |] eqn:E1; cbn [mbind result_bind]; try done.
    destruct (checkSignature _ _ _ (JoinOp.PopSignature op) _ _) as [[]|e| |] eqn:E2; cbn [mbind result_bind]; try done.
    destruct (checkMerges _ _) as [[]|e| |]; cbn [mbind result_bind]; try done. eauto 10.
  - intros (-> & -> & (m & -> & E1) & E2 & E3). cbn [mbind result_bind]. rewrite signatureDomain_spec. cbn [mbind result_bind].
    rewrite E1. cbn [mbind result_bind]. rewrite E2. cbn [mbind result_bind]. by rewrite E3.
Qed.

Context (verifyProofs : G -> ProverKick.t -> result bool).

Lemma verify_permitted g r op frame :
  synced g r -> typedRegistry r -> namesProver op r -> (forall k, op <> OpKick k) ->
  verifyOperation verifyProofs g op frame = Ok true <-> permitted op frame r.
Proof using HL Hs.
  intros Hy Hty Hn Hk. destruct op as [op|op|op|op|op|op|op]; cbn [verifyOperation permitted namesProver] in *.
  - destruct Hn. by apply Join_Verify_iff.
  - by apply Leave_Verify_iff.
  - by apply verifyFilterOp_iff; [apply pause_checks|..].
  - by apply verifyFilterOp_iff; [apply resume_checks|..].
  - by apply verifyFilterOp_iff; [apply confirm_checks|..].
  - by apply verifyFilterOp_iff; [apply reject_checks|..].
  - by destruct (Hk op).
Qed.

(** C20: Verify of joins, leaves, pauses, resumptions, confirmations and rejections accepts
    exactly the permitted operations, on a hypergraph that holds the registry, in which the
    addresses of allocations and of the signer hold no vertex of another class: the filters of
    a join and the absence of its prover, whose status may be left; the registered signer and
    the status of an allocation for the others; the signatures and their domains, and the
    timing windows in closed form (a join is confirmed 360 to 720 frames after it, with the
    enrolment rule around frame 252840, a leave is confirmed or rejected 360 to 720 frames after
    it, a pause is ended within 360 frames), all frame differences on 64 bits. *)
Theorem verify_iff (g : G) (r : registry) (op : operation) (frame : Z) :
  synced g r -> typedRegistry r -> namesProver op r -> (forall k, op <> OpKick k) ->
  verifyOperation verifyProofs g op frame = Ok true <-> permitted op frame r.
Proof using HL Hs. apply verify_permitted. Qed.
End verify.

(** ** Steps *)

Section steps.
Context `{PoseidonHash} `{KeyManager} `{Seniorities}.

(** Every prover has a hyperedge in the hypergraph. *)
Definition enrolled (r : registry) : Prop := forall a P, itemOf prover (vid a) r = Some P -> is_Some (storedEdge a r).

(** Signed operations whose address has 32 bytes. *)
Definition wellAddressed (op : operation) : Prop :=
  match op with
  | OpLeave op => length (BLS48581AddressedSignature.Address (LeaveOp.Signature op)) = 32%nat
  | OpPause op | OpResume op | OpConfirm op | OpReject op => length (BLS48581AddressedSignature.Address (FilterOp.Signature op)) = 32%nat
  | OpJoin _ | OpKick _ => False
  end.

(** Provers, hyperedges and classes are kept. *)
Record preserves (r r' : registry) : Prop := {
  kept_edges : edges r' = edges r;
  kept_classes : forall id, class <$> vertices r' !! id = class <$> vertices r !! id;
  kept_provers : forall a P, itemOf prover (vid a) r = Some P -> itemOf prover (vid a) r' = Some P
}.

#[local] Instance preserves_refl : Reflexive preserves.
Proof. intros r. by split. Qed.
#[local] Instance preserves_trans : Transitive preserves.
Proof. intros r1 r2 r3 [E1 C1 P1] [E2 C2 P2]. split; [congruence|intros id; by rewrite C2|auto]. Qed.

Lemma setItem_preserves x F F' r :
  itemOf allocation (vid x) r = Some F -> preserves r (setItem (vid x) (mkItem allocation F') r).
Proof using Type.
  intros E. pose proof E as Ex. apply itemOf_Some in Ex. split; [done| |].
  - intros id. cbn [vertices setItem]. destruct (decide (vid x = id)) as [<-|]; [by rewrite lookup_insert_eq, Ex|by rewrite lookup_insert_ne].
  - intros a P EP. pose proof (item_ne prover allocation _ _ _ _ _ ltac:(done) EP E) as Hne. rewrite itemOf_Some in *.
    cbn [vertices setItem]. by rewrite lookup_insert_ne.
Qed.

Lemma stampItem_preserves status f frame x r r' : stampItem status f frame x r = Some r' -> preserves r r'.
Proof using Type. intros [[_ ->]|(F & EF & ->)]%stampItem_inv; [done|by eapply setItem_preserves]. Qed.

Lemma stampItems_preserves status f frame ks r r' : stampItems status f frame ks r = Some r' -> preserves r r'.
Proof using Type.
  revert r. induction ks as [|k ks IH]; intros r; cbn [stampItems]; [by intros [= <-]|].
  intros (r1 & E1 & E2)%bind_Some. etrans; [by eapply stampItem_preserves|by apply IH].
Qed.

Lemma stampItems_total status f frame ks r :
  (forall k n, k ∈ ks -> vertices r !! vid k = Some n -> class n = allocation) -> exists r', stampItems status f frame ks r = Some r'.
Proof using Type.
  revert r. induction ks as [|k ks IH]; intros r Hc; [by exists r|]. cbn [stampItems].
  assert (exists r1, stampItem status f frame k r = Some r1) as [r1 E1].
  { unfold stampItem. destruct (vertices r !! vid k) as [n|] eqn:E; [|eauto]. rewrite decide_True; [eauto|]. by eapply Hc; [left|]. }
  rewrite E1. cbn [mbind option_bind]. apply IH. intros k' n' Hin En'.
  pose proof (kept_classes _ _ (stampItem_preserves _ _ _ _ _ _ E1) (vid k')) as Ec. rewrite En' in Ec.
  destruct (vertices r !! vid k') as [n|] eqn:En; [|done]. injection Ec as ->. eapply Hc; [by right|exact En].
Qed.

Lemma aggregate_total a r P : enrolled r -> itemOf prover (vid a) r = Some P -> exists r', aggregate a r = Some r'.
Proof using Type. intros He EP. unfold aggregate. rewrite EP. destruct (He a P EP) as [ks ->]. cbn. eauto. Qed.

Lemma preserves_enrolled r r' : preserves r r' -> enrolled r -> enrolled r'.
Proof using Type.
  intros [Ee Ec Ep] He a P' EP'. rewrite (storedEdge_eq a r r' Ee). apply itemOf_Some in EP'. pose proof (Ec (vid a)) as E. rewrite EP' in E.
  destruct (vertices r !! vid a) as [[c F]|] eqn:En; [|done]. injection E as <-. apply (He a F). by apply itemOf_Some.
Qed.

Lemma aggregate_enrolled a r r' : aggregate a r = Some r' -> enrolled r -> enrolled r'.
Proof using Type.
  unfold aggregate. intros (P & EP & Hag)%bind_Some He. apply bind_Some in Hag as (ks & Ek & [= <-]). intros b Q EQ. apply itemOf_Some in EQ.
  cbn [vertices edges setItem] in *. apply lookup_insert_Some in EQ as [[Eid _]|[_ EQ]].
  - injection Eid as <-. exists ks. by rewrite (storedEdge_eq a r).
  - rewrite (storedEdge_eq b r) by done. apply (He b Q). by apply itemOf_Some.
Qed.

Lemma keyAt_Some address r pk :
  length address = 32%nat -> keyAt address r = Some pk -> exists P, itemOf prover (vid address) r = Some P /\ P !! "PublicKey" = Some pk.
Proof using Type.
  intros Hl. unfold keyAt. rewrite decide_True by lia. rewrite take_ge by lia. intros (P & ? & ?)%bind_Some. eauto.
Qed.

Lemma filterPermitted_step name rule change op r :
  enrolled r -> length (BLS48581AddressedSignature.Address (FilterOp.Signature op)) = 32%nat -> filterPermitted name rule op r ->
  exists r', filterStep change op r = Some r'.
Proof using Type.
  intros He Hl (pk & F & st & (P & EP & Epk)%keyAt_Some & EF & Est & _); [|done]. unfold filterStep.
  rewrite EP. cbn [mbind option_bind]. rewrite Epk. cbn [mbind option_bind]. rewrite EF. cbn [mbind option_bind]. rewrite Est. cbn [mbind option_bind].
  assert (preserves r (setItem (vid (allocationAt pk (FilterOp.Filter op)))
    (mkItem allocation (change (FilterOp.FrameNumber op) (statusByte st) F)) r)) as Hp by (by eapply setItem_preserves).
  eapply aggregate_total; [by eapply preserves_enrolled|by eapply kept_provers].
Qed.

Lemma permitted_step op frame r :
  enrolled r -> typedRegistry r -> wellAddressed op -> permitted op frame r -> exists r', registryStep op r = Some r'.
Proof using Type.
  intros He Hty Hl Hp. destruct op as [op|op|op|op|op|op|op]; cbn [registryStep permitted wellAddressed] in *;
    [done| |by eapply filterPermitted_step..|done].
  destruct Hp as (pk & (P & EP & Epk)%keyAt_Some & _); [|done]. unfold leaveStep. rewrite EP. cbn [mbind option_bind]. rewrite Epk. cbn [mbind option_bind].
  destruct (stampItems_total 3 "LeaveFrameNumber" (LeaveOp.FrameNumber op) (allocationAt pk <$> LeaveOp.Filters op) r) as [r1 E1].
  { intros k n (f & -> & _)%list_elem_of_fmap. apply Hty. }
  rewrite E1. cbn [mbind option_bind]. apply stampItems_preserves in E1.
  eapply aggregate_total; [by eapply preserves_enrolled|by eapply kept_provers].
Qed.
End steps.

Section execution.
Context {G : Type} `{Hypergraph G} `{TreeCrypto} `{PoseidonHash} `{RDFParser} `{KeyManager} `{Seniorities} `{Environment} `{FrameCrypto} {HL : PoseidonLaws _}.
Context (tags : TagsByClass) (Hs : schemaParsed tags) (verifyProofs : G -> ProverKick.t -> result bool).
Context (sha512_length : forall b, length (sha512 b) = 64%nat) (CommitRaw_nonempty : forall b, slotVector b -> CommitRaw b 64 <> []).

(** C21: What is validated executes: if the bytes of a leave, pause, resumption, confirmation or
    rejection, signed with an address of 32 bytes, pass Validate against the hypergraph, then
    InvokeStep on a pending state over this hypergraph succeeds, and the pending state after it
    represents the registry after the step of the operation.  The hypergraph and the pending
    state hold the same registry, in which addresses hold vertices of their class and every
    prover has a hyperedge. *)
Theorem validated_executes (s : hypergraphState G) (r : registry) (frameNumber : Z) (input : bytes) (op : operation) :
  represents tags ∅ s r -> synced tags (hypergraph s) r -> typedRegistry r -> enrolled r ->
  Validate verifyProofs (hypergraph s) frameNumber input = Ok op -> namesProver op r -> wellAddressed op ->
  exists r', registryStep op r = Some r'
  /\ succeeds (InvokeStep verifyProofs frameNumber input ThisState) s (fun _ s' => represents tags ∅ s' r').
Proof.
  intros Hr Hy Hty He Hv Hn Hw. pose proof Hv as Hv'. unfold Validate in Hv'. destruct (decodeOperation input) as [op'| | |]; try done.
  cbn [mbind result_bind] in Hv'. destruct (verifyOperation verifyProofs (hypergraph s) op' frameNumber) as [[]| | |] eqn:Ev; try done.
  injection Hv' as ->. apply (verify_permitted tags Hs verifyProofs (hypergraph s) r op frameNumber Hy Hty Hn) in Ev; [|by intros k ->].
  destruct (permitted_step op frameNumber r He Hty Hw Ev) as [r' Er]. exists r'. split; [done|]. unfold InvokeStep.
  apply succeeds_bind, succeeds_gets, succeeds_bind. change (id s) with s. rewrite Hv. apply succeeds_lift. by eapply step_refines.
Qed.
End execution.

(** ** The status of provers *)

Section accounts.
Context `{PoseidonHash} `{Seniorities}.

(** Only the prover of an address has the allocation. *)
Definition owns (a : bytes) (r : registry) (x : bytes) : Prop := forall b ks, storedEdge b r = Some ks -> x ∈ ks -> b = a.

(** No two provers share an allocation, and the status of each is that of its allocations. *)
Record accounts (r : registry) : Prop := {
  acc_wf : wfRegistry r;
  acc_key : forall a P pk f, itemOf prover (vid a) r = Some P -> P !! "PublicKey" = Some pk -> owns a r (allocationAt pk f);
  acc_edge : forall a ks x, storedEdge a r = Some ks -> x ∈ ks -> owns a r x;
  acc_status : forall a P ks, itemOf prover (vid a) r = Some P -> storedEdge a r = Some ks ->
    P !! "Status" = Some [Z_byte (leading (statusesOf r ks))]
}.

(** A change that concerns the prover [a] only. *)
Record touches (a : bytes) (r r' : registry) : Prop := {
  touch_edges : edges r' = edges r;
  touch_classes : forall id, class <$> vertices r' !! id = class <$> vertices r !! id;
  touch_keys : forall b P', itemOf prover (vid b) r' = Some P' -> exists P, itemOf prover (vid b) r = Some P /\ P' !! "PublicKey" = P !! "PublicKey";
  touch_only : forall id, id <> vid a -> (forall x, id = vid x -> owns a r x -> class <$> vertices r !! id <> Some allocation) ->
    vertices r' !! id = vertices r !! id
}.

#[local] Instance touches_refl a : Reflexive (touches a).
Proof. intros r. split; eauto. Qed.
#[local] Instance touches_trans a : Transitive (touches a).
Proof.
  intros r1 r2 r3 [E1 C1 K1 O1] [E2 C2 K2 O2]. split.
  - congruence.
  - intros id. by rewrite C2.
  - intros b P3 (P2 & EP2 & Ek2)%K2. destruct (K1 b P2 EP2) as (P1 & EP1 & Ek1). exists P1. split; [done|congruence].
  - intros id Hid Hx. rewrite O2; [by apply O1|done|]. intros x -> Ho. rewrite C1. apply (Hx x eq_refl). unfold owns, storedEdge in *. by rewrite E1 in Ho.
Qed.

Lemma touches_wf a r r' : touches a r r' -> wfRegistry r -> wfRegistry r'.
Proof using Type.
  intros [Ee Ec _ _] [Wi We Wf].
  assert (forall id n', vertices r' !! id = Some n' -> exists n, vertices r !! id = Some n /\ class n = class n') as Hback.
  { intros id n' En. pose proof (Ec id) as E. rewrite En in E. destruct (vertices r !! id) as [n|]; [|done]. injection E as E. by exists n. }
  split.
  - intros d x n' (n & En & _)%Hback. by eapply Wi.
  - intros b ks Eb. rewrite (storedEdge_eq b r r' Ee) in Eb. destruct (We b ks Eb) as [Hb Hk]. split; [done|]. eapply Forall_impl; [exact Hk|].
    intros k [Hl Hc]. split; [done|]. intros n' (n & En & <-)%Hback. by apply Hc.
  - intros b ks k Eb Hk. rewrite (storedEdge_eq b r r' Ee) in Eb. destruct (Wf b ks k Eb Hk) as [n En]. pose proof (Ec (vid k)) as E. rewrite En in E.
    destruct (vertices r' !! vid k); [by eexists|done].
Qed.

Lemma statusesOf_ext r r' ks : (forall k, k ∈ ks -> vertices r' !! vid k = vertices r !! vid k) -> statusesOf r' ks = statusesOf r ks.
Proof using Type. intros Hk. apply list_omap_ext, Forall2_same_length_lookup_2; [done|]. intros i k k' E E'. rewrite Hk; [congruence|by eapply list_elem_of_lookup_2]. Qed.

Lemma edge_not_prover r a b ks P k : wfRegistry r -> itemOf prover (vid a) r = Some P -> storedEdge b r = Some ks -> k ∈ ks -> vid k <> vid a.
Proof using Type.
  intros W EP Eb Hk E. apply itemOf_Some in EP. destruct (wf_edges r W b ks Eb) as [_ Hks]. eapply Forall_forall in Hks; [|exact Hk].
  destruct Hks as [_ Hc]. rewrite <- E in EP. apply Hc in EP. done.
Qed.

(** It suffices to look at the status of this prover. *)
Lemma touches_accounts a r r' P0 :
  touches a r r' -> accounts r -> itemOf prover (vid a) r = Some P0 ->
  (forall P ks, itemOf prover (vid a) r' = Some P -> storedEdge a r' = Some ks -> P !! "Status" = Some [Z_byte (leading (statusesOf r' ks))]) ->
  accounts r'.
Proof using Type.
  intros Ht [W Hk He Hst] EP0 Ha. pose proof Ht as [Ee Ec Ekeys Eo]. split.
  - by eapply touches_wf.
  - intros b P' pk f EP' Epk. destruct (Ekeys b P' EP') as (P & EP & E). unfold owns, storedEdge. rewrite Ee. apply (Hk b P pk f EP). congruence.
  - intros b ks x. unfold owns, storedEdge. rewrite Ee. apply He.
  - intros b P' ks EP' Eb. destruct (decide (b = a)) as [->|Hba]; [by apply Ha|]. rewrite (storedEdge_eq b r r' Ee) in Eb.
    destruct (Ekeys b P' EP') as (P & EP & _). pose proof EP as EPi. apply itemOf_Some in EPi.
    assert (vertices r' !! vid b = vertices r !! vid b) as Ebi.
    { apply Eo; [unfold vid; congruence|]. intros x Ex _. by rewrite EPi. }
    assert (P' = P) as ->. { apply itemOf_Some in EP'. congruence. }
    rewrite (statusesOf_ext r r' ks); [by apply Hst with b|]. intros k Hkin. apply Eo.
    + by eapply edge_not_prover.
    + intros x [= <-] Hox. by destruct (Hba (Hox b ks Eb Hkin)).
Qed.

Lemma setAllocation_touches a x F F' r :
  itemOf allocation (vid x) r = Some F -> owns a r x -> touches a r (setItem (vid x) (mkItem allocation F') r).
Proof using Type.
  intros E Ho. pose proof E as Ex. apply itemOf_Some in Ex. destruct (setItem_preserves x F F' r E) as [Ee Ec _]. split; [done|done| |].
  - intros b P' EP'. apply itemOf_Some in EP'. cbn [vertices setItem] in EP'. apply lookup_insert_Some in EP' as [[_ E']|[_ EP']]; [discriminate E'|].
    exists P'. by rewrite itemOf_Some.
  - intros id Hid Hx. cbn [vertices setItem]. destruct (decide (vid x = id)) as [<-|]; [|by rewrite lookup_insert_ne].
    destruct (Hx x eq_refl Ho). by rewrite Ex.
Qed.

Lemma setProver_touches a P P' r :
  itemOf prover (vid a) r = Some P -> P' !! "PublicKey" = P !! "PublicKey" -> touches a r (setItem (vid a) (mkItem prover P') r).
Proof using Type.
  intros E Ek. pose proof E as Ex. apply itemOf_Some in Ex. split; [done| | |].
  - intros id. cbn [vertices setItem]. destruct (decide (vid a = id)) as [<-|]; [by rewrite lookup_insert_eq, Ex|by rewrite lookup_insert_ne].
  - intros b Q EQ. apply itemOf_Some in EQ. cbn [vertices setItem] in EQ. apply lookup_insert_Some in EQ as [[Eid [= <-]]|[_ EQ]].
    + exists P. by rewrite <- Eid.
    + exists Q. by rewrite itemOf_Some.
  - intros id Hid _. cbn [vertices setItem]. by rewrite lookup_insert_ne.
Qed.

Lemma stampItems_touches a status f frame ks r r' :
  Forall (owns a r) ks -> stampItems status f frame ks r = Some r' -> touches a r r'.
Proof using Type.
  revert r. induction ks as [|k ks IH]; intros r Ho; cbn [stampItems]; [by intros [= <-]|]. apply Forall_cons in Ho as [Hk Ho].
  intros (r1 & E1 & E2)%bind_Some. assert (touches a r r1) as H1'.
  { apply stampItem_inv in E1 as [[_ ->]|(F & EF & ->)]; [done|by eapply setAllocation_touches]. }
  etrans; [exact H1'|]. apply IH; [|done]. unfold owns, storedEdge in *. by rewrite (touch_edges _ _ _ H1').
Qed.

(** A change of allocations of one prover, followed by the aggregation. *)
Lemma aggregate_accounts a r r1 r' P :
  touches a r r1 -> accounts r -> itemOf prover (vid a) r = Some P -> aggregate a r1 = Some r' -> accounts r'.
Proof using Type.
  intros Ht Hacc EP Eag. unfold aggregate in Eag. apply bind_Some in Eag as (P1 & EP1 & Eag). apply bind_Some in Eag as (ks & Ek & [= <-]).
  assert (wfRegistry r1) as W1 by (eapply touches_wf; [done|apply Hacc]).
  eapply touches_accounts; [etrans; [exact Ht|by eapply setProver_touches; [|rewrite lookup_insert_ne]]|done|done|].
  intros P2 ks2 EP2 Ek2. rewrite (storedEdge_eq a r1) in Ek2 by done. assert (ks2 = ks) as -> by congruence. apply itemOf_Some in EP2. cbn [vertices setItem] in EP2.
  rewrite lookup_insert_eq in EP2. injection EP2 as <-. rewrite lookup_insert_eq. do 4 f_equal. symmetry. apply statusesOf_ext.
  intros k Hk. cbn [vertices setItem]. rewrite lookup_insert_ne; [done|]. intros E. by eapply (edge_not_prover r1 a a ks P1 k).
Qed.

Lemma filterStep_accounts change op r r' : filterStep change op r = Some r' -> accounts r -> accounts r'.
Proof using Type.
  unfold filterStep. intros (P & EP & Hstep)%bind_Some Hacc. apply bind_Some in Hstep as (pk & Epk & Hstep).
  apply bind_Some in Hstep as (F & EF & Hstep). apply bind_Some in Hstep as (st & Est & Eag).
  eapply aggregate_accounts; [|done|exact EP|exact Eag]. eapply setAllocation_touches; [done|]. by eapply acc_key.
Qed.

Lemma leaveStep_accounts op r r' : leaveStep op r = Some r' -> accounts r -> accounts r'.
Proof using Type.
  unfold leaveStep. intros (P & EP & Hstep)%bind_Some Hacc. apply bind_Some in Hstep as (pk & Epk & Hstep). apply bind_Some in Hstep as (r1 & E1 & Eag).
  eapply aggregate_accounts; [|done|exact EP|exact Eag]. eapply stampItems_touches; [|exact E1].
  apply Forall_forall. intros x (f & -> & _)%list_elem_of_fmap. by eapply acc_key.
Qed.

Lemma stampItems_other status f frame ks r r' id :
  (forall k, k ∈ ks -> vid k <> id) -> stampItems status f frame ks r = Some r' -> vertices r' !! id = vertices r !! id.
Proof using Type.
  revert r. induction ks as [|k ks IH]; intros r Hk; cbn [stampItems]; [by intros [= <-]|]. intros (r1 & E1 & E2)%bind_Some.
  rewrite (IH r1); [|intros k' Hk'; apply Hk; by right|done].
  apply stampItem_inv in E1 as [[_ ->]|(F & _ & ->)]; [done|]. cbn [vertices setItem]. rewrite lookup_insert_ne; [done|]. apply Hk. by left.
Qed.

Lemma stampItems_stamped status f frame ks r r' k n :
  stampItems status f frame ks r = Some r' -> k ∈ ks -> vertices r' !! vid k = Some n -> exists F, fields n = stamp status f frame F.
Proof using Type.
  revert r. induction ks as [|k' ks IH]; intros r; [by intros _ ?%not_elem_of_nil|]. cbn [stampItems]. intros (r1 & E1 & E2)%bind_Some Hk En.
  destruct (decide (k ∈ ks)) as [Hin|Hout]; [by eapply IH|]. apply elem_of_cons in Hk as [->|]; [|done].
  rewrite (stampItems_other _ _ _ _ _ _ (vid k') ltac:(by intros k0 Hk0 [= ->]) E2) in En.
  apply stampItem_inv in E1 as [[Eno ->]|(F & _ & ->)]; [congruence|]. cbn [vertices setItem] in En. rewrite lookup_insert_eq in En.
  injection En as <-. by exists F.
Qed.

Lemma stamp_status status f frame F : f <> "Status" -> stamp status f frame F !! "Status" = Some [Z_byte status].
Proof using Type. intros Hf. unfold stamp. by rewrite lookup_insert_ne, lookup_insert_eq. Qed.

Lemma leading_left l : Forall (eq 4) l -> leading l = 4.
Proof using Type.
  intros Hl. unfold leading. assert (forall x, x <> 4 -> x ∉ l) as Hx.
  { intros x Hx Hin. rewrite Forall_forall in Hl. by apply Hx; rewrite (Hl x Hin). }
  cbn [list_find]. by rewrite !decide_False by (by apply Hx).
Qed.

Lemma kickStep_accounts op r r' : kickStep op r = Some r' -> accounts r -> accounts r'.
Proof using Type.
  unfold kickStep. case_decide; [by intros|]. set (a := hashAddress _). intros (P & EP & Hstep)%bind_Some Hacc.
  apply bind_Some in Hstep as (ks & Ek & Hst). set (r1 := setItem _ _ r) in Hst.
  assert (touches a r r1) as Ht1 by (eapply setProver_touches; [done|]; unfold stamp; by rewrite !lookup_insert_ne).
  assert (touches a r1 r') as Ht2.
  { eapply stampItems_touches; [|exact Hst]. apply Forall_forall. intros x Hx. by apply (acc_edge r Hacc a ks x). }
  apply (touches_accounts a r r' P); [by transitivity r1|done|done|]. intros P' ks' EP' Ek'. rewrite (storedEdge_eq a r1 r' (touch_edges _ _ _ Ht2)), (storedEdge_eq a r) in Ek' by done.
  assert (ks' = ks) as -> by congruence. apply itemOf_Some in EP'.
  rewrite (stampItems_other _ _ _ ks r1 r' (vid a)) in EP' by (done || intros k; by eapply edge_not_prover; [apply Hacc|..]).
  unfold r1 in EP'. cbn [vertices setItem] in EP'. rewrite lookup_insert_eq in EP'. injection EP' as <-.
  rewrite stamp_status by done. do 3 f_equal. symmetry. apply leading_left.
  apply Forall_forall. intros x Hx. apply list_elem_of_omap in Hx as (k & Hk & Ex). destruct (vertices r' !! vid k) as [n|] eqn:En; [|done].
  destruct (stampItems_stamped _ _ _ ks _ r' k n Hst Hk En) as [F EF]. cbn [mbind option_bind] in Ex. rewrite EF, stamp_status in Ex by done.
  by injection Ex as <-.
Qed.

Definition isJoin (op : operation) : bool := match op with OpJoin _ => true | _ => false end.

Lemma registryStep_accounts op r r' : isJoin op = false -> registryStep op r = Some r' -> accounts r -> accounts r'.
Proof using Type.
  destruct op; intros Hj; cbn [registryStep]; [done|apply leaveStep_accounts|apply filterStep_accounts..|apply kickStep_accounts].
Qed.

Lemma registrySteps_accounts ops r r' : Forall (fun op => isJoin op = false) ops -> registrySteps ops r = Some r' -> accounts r -> accounts r'.
Proof using Type.
  intros Hj. revert r. induction Hj as [|op ops Hop _ IH]; intros r; cbn [registrySteps]; [by intros [= <-]|].
  intros (r1 & E1 & E2)%bind_Some Hacc. eapply IH; [exact E2|]. by eapply registryStep_accounts.
Qed.
End accounts.

Section status.
Context {G : Type} `{Hypergraph G} `{TreeCrypto} `{PoseidonHash} `{RDFParser} `{KeyManager} `{Seniorities} {HL : PoseidonLaws _}.
Context (tags : TagsByClass) (Hs : schemaParsed tags).
Context (sha512_length : forall b, length (sha512 b) = 64%nat) (CommitRaw_nonempty : forall b, slotVector b -> CommitRaw b 64 <> []).

(** C22: The status of every prover stays the aggregate of the statuses of its allocations
    (active if one is active, else joining, leaving or paused, in this order, and left if none of
    these), and no two provers share an allocation, when leaves, pauses, resumptions,
    confirmations, rejections and kicks are materialised in any order: this is so in the trees
    that the pending state has for the prover and for its allocations at the end. *)
Theorem statuses_aggregate (ops : list operation) (frameNumber : Z) (s : hypergraphState G) (r r' : registry) :
  represents tags ∅ s r -> accounts r -> Forall (fun op => isJoin op = false) ops -> registrySteps ops r = Some r' ->
  succeeds (each (fun op => materializeOperation op frameNumber) ops) s (fun _ s' => accounts r' /\
    forall a P ks, itemOf prover (vid a) r' = Some P -> storedEdge a r' = Some ks ->
      succeeds (getTree "prover not found" GLOBAL_INTRINSIC_ADDRESS a) s' (fun p s'' =>
        rdfGet prover "Status" p s'' = (Ok [Z_byte (leading (statusesOf r' ks))], s'') /\ represents tags ∅ s'' r')).
Proof.
  intros Hr Hacc Hj Hsteps. eapply succeeds_mono; [by eapply steps_refine|]. cbn beta. intros _ s' Hr'.
  pose proof (registrySteps_accounts _ _ _ Hj Hsteps Hacc) as Hacc'. split; [done|]. intros a P ks EP Ek.
  pose proof (acc_status r' Hacc' a P ks EP Ek) as Est. apply itemOf_Some in EP.
  eapply succeeds_mono; [by eapply getTree_item|]. cbn beta. intros p s'' (He & _ & t & Hh & Ht). split; [|by eapply represents_extends].
  by eapply rdfGet_handle; [..|apply status_order_prover|].
Qed.
End status.
