(* ===== verification/GlobalExecutionSpec.v ===== *)
(** * What the global execution engine does with messages

    Operations that are signed with Prove are accepted by Verify.  Some messages have effects
    that are not intended: an update of a prover is never executed, the validation of a kick
    with two signed headers panics, a bundle without an operation on provers makes every node
    that materialises its frame panic, and a leave that is rejected revives allocations that
    had been left long before. *)

From S2P Require Import Prelude ProofTree ProofTreeWf ProofTreeOps ProofTreeMap ProofTreeCommit ProofTreeProve ProofTreeCanon ProofTreeProveSpec.
From S2P Require Import Wire ProofTreeSerial CanonicalTypes Keys KeyRegistry Global Frames OrderEncoding RdfMultiprover RdfSpec Messages RewardIssuance ForkChoice.
From S2P Require Import Stateful GlobalTimeReel FrameProver FrameValidator GlobalMessages GlobalMessagesSpec HypergraphState GlobalCollect GlobalIntrinsic GlobalExecution.
From S2P Require Import IntrinsicFields GlobalRegistry GlobalRegistryJoin GlobalRegistrySpec.

Section engine.
Context {G : Type} `{Hypergraph G} `{TreeCrypto} `{PoseidonHash} `{RDFParser} `{KeyManager} `{Seniorities} `{Environment} `{FrameCrypto}.
Context (verifyProofs : G -> ProverKick.t -> result bool) (GetAppShards : bytes -> list Z -> result (list (list Z))) (bloom : bytes -> bytes).

Abbreviation S := (hypergraphState G).
Local Abbreviation ValidateMessage := (ValidateMessage verifyProofs GetAppShards bloom).
Local Abbreviation ProcessMessage := (ProcessMessage verifyProofs GetAppShards bloom).

(** ** Kicks *)

Lemma frame_prefix h f : FrameHeader.ToCanonicalBytes h = Ok f -> exists rest, f = writeU32 FrameHeaderType ++ rest.
Proof using Type. intros E. apply result_bind_Ok in E as (sig & _ & [= <-]). eauto. Qed.

Lemma equivocation_panics op h1 h2 f1 f2 s1 s2 :
  fits h1 -> fits h2 -> FrameHeader.ToCanonicalBytes h1 = Ok f1 -> FrameHeader.ToCanonicalBytes h2 = Ok f2 -> f1 <> f2 ->
  FrameHeader.PublicKeySignatureBls48581 h1 = Some s1 -> FrameHeader.PublicKeySignatureBls48581 h2 = Some s2 ->
  ProverKick.ConflictingFrame_1 op = f1 -> ProverKick.ConflictingFrame_2 op = f2 -> verifyEquivocation None op = Panic.
Proof using Type.
  intros Hf1 Hf2 E1 E2 Hne Es1 Es2 Ec1 Ec2. pose proof (canonical_exact h1 f1 Hf1 E1) as D1. pose proof (canonical_exact h2 f2 Hf2 E2) as D2.
  change (FrameHeader.FromCanonicalBytes f1 = Ok h1) in D1. change (FrameHeader.FromCanonicalBytes f2 = Ok h2) in D2.
  unfold verifyEquivocation. rewrite Ec1, Ec2. destruct (frame_prefix _ _ E1) as [r1 Er1], (frame_prefix _ _ E2) as [r2 Er2].
  assert (forall f r, f = writeU32 FrameHeaderType ++ r -> (length f <? 4)%nat = false /\ be_val (take 4 f) = FrameHeaderType) as Hp.
  { intros f r ->. split; [apply Nat.ltb_ge; rewrite length_app; unfold writeU32; rewrite be_length; lia|]. by rewrite take_app_length'. }
  destruct (Hp _ _ Er1) as [-> T1], (Hp _ _ Er2) as [-> T2]. cbn [orb]. rewrite T1, T2, Z.eqb_refl. cbn [negb]. rewrite bool_decide_false by done.
  unfold conflictsOf. rewrite T1, Z.eqb_refl, D1, D2, Es1, Es2. done.
Qed.

Lemma request_prefix r message : MessageRequest.ToCanonicalBytes r = Ok message -> typePrefix message = Some MessageRequestType.
Proof using Type.
  unfold MessageRequest.ToCanonicalBytes. destruct (MessageRequest.Request r); [|done]. intros E. apply result_bind_Ok in E as (inner & _ & [= <-]).
  by apply typePrefix_write.
Qed.

(** C35: The validation of a request to kick a prover panics on two encoded frame headers that
    are signed by anyone and differ, because the frame prover of the operation is nil: any peer
    that sends such a request stops the nodes that validate it. *)
Theorem kick_validation_panics (network : Z) (g : G) (n : Z) (op : ProverKick.t) (h1 h2 : FrameHeader.t) (f1 f2 message : bytes)
    (s1 s2 : BLS48581AggregateSignature.t) :
  fits h1 -> fits h2 -> FrameHeader.ToCanonicalBytes h1 = Ok f1 -> FrameHeader.ToCanonicalBytes h2 = Ok f2 -> f1 <> f2 ->
  FrameHeader.PublicKeySignatureBls48581 h1 = Some s1 -> FrameHeader.PublicKeySignatureBls48581 h2 = Some s2 ->
  ProverKick.ConflictingFrame_1 op = f1 -> ProverKick.ConflictingFrame_2 op = f2 ->
  embeds op -> MessageRequest.ToCanonicalBytes (MessageRequest.mk (Some (MessageRequest.MessageRequest_Kick op)) 0) = Ok message ->
  ValidateMessage network g n GLOBAL_INTRINSIC_ADDRESS message = Panic.
Proof using Type.
  intros Hf1 Hf2 E1 E2 Hne Es1 Es2 Ec1 Ec2 He Em.
  pose proof (MessageRequest.FromCanonicalBytes_exact (MessageRequest.MessageRequest_Kick op) 0 message [] He Em) as Hd. rewrite app_nil_r in Hd.
  unfold GlobalExecution.ValidateMessage. rewrite (request_prefix _ _ Em). change (MessageRequestType =? MessageBundleType) with false.
  rewrite Z.eqb_refl. cbn [negb]. rewrite Hd. cbn [mbind result_bind]. unfold validateIndividualMessage, payloadOf, isGlobalOp.
  cbn [MessageRequest.Request negb mbind result_bind]. rewrite bool_decide_true by done. cbn [negb].
  destruct (MessageRequest.innerBytes_encodes (MessageRequest.MessageRequest_Kick op) He) as [payload Ep]. rewrite Ep. cbn [mbind result_bind]. unfold Validate, decodeOperation.
  destruct (MessageRequest.innerBytes_typed _ _ Ep) as [tl Et]. rewrite Et at 1. rewrite typePrefix_write by apply MessageRequest.typeOf_u32.
  cbn [MessageRequest.typeOf]. MessageRequest.run_switch.
  pose proof (canonical_exact op payload (proj1 He) Ep) as Dk. change (ProverKick.FromCanonicalBytes payload = Ok op) in Dk. rewrite Dk.
  cbn [mbind result_bind verifyOperation]. unfold Kick_Verify. by rewrite (equivocation_panics op h1 h2 f1 f2 s1 s2).
Qed.

(** ** Updates *)

(** An update of a prover is never executed: whatever its signature, the engine returns the
    error of an unknown type, and the state is as before. *)
Theorem update_never_executes (n : Z) (u : ProverUpdate.t) (timestamp : Z) (payload : bytes) (state : stateRef) (s : S) :
  ProverUpdate.ToCanonicalBytes u = Ok payload ->
  processIndividualMessage verifyProofs GetAppShards bloom n GLOBAL_INTRINSIC_ADDRESS
    (MessageRequest.mk (Some (MessageRequest.MessageRequest_Update u)) timestamp) state s = (Err "unknown global request type", s).
Proof using Type.
  intros E. assert (MessageRequest.innerBytes (MessageRequest.MessageRequest_Update u) = Ok payload) as Ei by exact E.
  destruct (MessageRequest.innerBytes_typed _ _ Ei) as [tl Et].
  assert (decodeOperation payload = Err "unknown global request type") as Ed.
  { unfold decodeOperation. rewrite Et, typePrefix_write by apply MessageRequest.typeOf_u32. cbn [MessageRequest.typeOf]. by MessageRequest.run_switch. }
  unfold processIndividualMessage, payloadOf, isGlobalOp. cbn [MessageRequest.Request]. rewrite Ei. unfold mbind at 1, M_bind, lift.
  rewrite bool_decide_true by done. cbn [negb]. unfold mbind, M_bind, gets, lift, validateIndividualMessage, payloadOf, isGlobalOp.
  cbn [MessageRequest.Request negb result_bind id]. rewrite bool_decide_true by done. cbn [negb mbind result_bind]. rewrite Ei. cbn [mbind result_bind]. unfold Validate. by rewrite Ed.
Qed.

(** ** Bundles without an operation on provers *)

Context (otherEngines : Z -> Z -> bytes -> bytes -> stateRef -> M S stateRef) (engineCost : executionEngine -> bytes -> result Z).
Context {D : Type} `{!Decimal D} (currentDifficulty : Z) (worldSize : S -> Z).

Local Abbreviation process := (ManagerProcessMessage verifyProofs GetAppShards bloom otherEngines).

Definition foreign (request : MessageBundle.t) : Prop :=
  Forall (fun q => exists r, q = Some r /\ isGlobalOp r = false) (MessageBundle.Requests request).

Lemma foreign_requests n address requests s :
  Forall (fun q => exists r, q = Some r /\ isGlobalOp r = false) requests ->
  handleRequests verifyProofs GetAppShards bloom n address requests ThisState NilState s = (Ok NilState, s).
Proof using Type. induction 1 as [|q requests (r & -> & Er) _ IH]; [done|]. cbn [handleRequests]. by rewrite Er. Qed.

Lemma foreign_process n fee request data s :
  fits request -> MessageBundle.ToCanonicalBytes request = Ok data -> foreign request ->
  process n fee globalAddress data ThisState s = (Ok NilState, s).
Proof using Type.
  intros Hf Ed Hfo. unfold ManagerProcessMessage. rewrite bool_decide_true by done. unfold GlobalExecution.ProcessMessage.
  assert (typePrefix data = Some MessageBundleType) as ->.
  { pose proof Ed as Ed'. apply result_bind_Ok in Ed' as (x & _ & [= <-]). by apply typePrefix_write. }
  rewrite Z.eqb_refl. unfold handleBundle, mbind, M_bind, lift.
  pose proof (canonical_exact request data Hf Ed) as Hd. change (MessageBundle.FromCanonicalBytes data = Ok request) in Hd. rewrite Hd.
  by apply foreign_requests.
Qed.

(** C34: A frame whose last request is a bundle without an operation on provers, for example
    with a transaction of a token, makes every node that materialises it panic: the engine
    skips all requests of the bundle and returns a nil state, which is then used. *)
Theorem foreign_bundle_panics (transition : Z -> M S unit) (commit : M S unit) (n costBasis fee : Z) (requests : list MessageBundle.t)
    (request : MessageBundle.t) (data : bytes) (s s1 : S) :
  fits request -> MessageBundle.ToCanonicalBytes request = Ok data -> foreign request ->
  materializeAll (D := D) engineCost process currentDifficulty worldSize n ThisState requests s = (Ok ThisState, s1) ->
  GetCost engineCost data = Ok costBasis -> unitFee (D := D) currentDifficulty worldSize costBasis s1 = (Ok fee, s1) ->
  materialize (D := D) engineCost process currentDifficulty worldSize transition commit n (requests ++ [request]) s = (Panic, s1).
Proof using Type.
  intros Hf Ed Hfo Hall Hc Hfee. unfold materialize.
  unfold mbind at 1, M_bind. rewrite materializes_app. unfold mbind at 1, M_bind. rewrite Hall. cbn [materializeAll]. unfold mbind at 1, M_bind.
  unfold materializeRequest, mbind, M_bind, lift. rewrite Ed.
  assert ((length data =? 0)%nat = false) as -> by (pose proof (canonical_nonempty request data Ed); by destruct data).
  rewrite Hc, Hfee. by rewrite (foreign_process n fee request data s1 Hf Ed Hfo).
Qed.
End engine.

(** ** Signing and verifying *)

Section proved.
Context {G : Type} `{Hypergraph G} `{TreeCrypto} `{PoseidonHash} `{RDFParser} `{KeyManager} {HL : PoseidonLaws _}.
Context (tags : TagsByClass) (Hs : schemaParsed tags).

(** A key whose signatures the key manager accepts. *)
Definition accepted (key : Signer) : Prop :=
  Public key <> [] /\ forall message domain, exists signature, SignWithDomain key message domain = Ok signature
    /\ ValidateSignature keyTypeBLS48581G1 (Public key) message signature domain = Ok true.

Lemma proveFilterOp_verifies name check rule key op g r P F status :
  checks tags check rule -> accepted key -> synced tags g r -> typedRegistry r ->
  itemOf prover (vid (hashAddress (Public key))) r = Some P -> P !! "PublicKey" = Some (Public key) ->
  itemOf allocation (vid (allocationAt (Public key) (FilterOp.Filter op))) r = Some F -> F !! "Status" = Some status ->
  exists op', proveFilterOp name (Ok key) op = Ok op'
    /\ (verifyFilterOp name check g op' = Ok true <-> rule (statusByte status) F).
Proof using HL Hs.
  intros Hck [Hne Hsig] Hy Hty EP Epk EF Est. destruct (Hsig (filterMessage op) (domainOf name)) as (sig & Esig & Hval).
  exists (FilterOp.mk (FilterOp.Filter op) (FilterOp.FrameNumber op) (BLS48581AddressedSignature.mk sig (hashAddress (Public key)))). split.
  - unfold proveFilterOp, addressedSignature, addressOf. cbn [mbind result_bind]. rewrite (FillBytes32_hash _ Hne). cbn [mbind result_bind].
    rewrite signatureDomain_spec. cbn [mbind result_bind]. by rewrite Esig.
  - assert (length (hashAddress (Public key)) = 32%nat) as Hl by (by apply hashAddress_length). pose proof EP as EPi. apply itemOf_Some in EPi.
    rewrite (verifyFilterOp_iff tags Hs name check rule g r _ Hck Hy Hty).
    + unfold filterPermitted, keyAt. cbn [FilterOp.Signature FilterOp.Filter BLS48581AddressedSignature.Address BLS48581AddressedSignature.Signature].
      rewrite decide_True by lia. rewrite take_ge by lia. rewrite EP. cbn [mbind option_bind]. rewrite Epk. split.
      * intros (pk & F' & st' & [= <-] & E & E' & Hr & _). congruence.
      * intros Hr. exists (Public key), F, status. by split_and!.
    + intros n. cbn. rewrite take_ge by lia. rewrite EPi. by intros [= <-].
Qed.

(** C24: Operations signed with Prove pass Verify: a pause, a resumption, a confirmation or a
    rejection that a registered key signs is accepted exactly if the status of its allocation
    and the timing windows allow it. *)
Theorem proved_operation_verifies (key : Signer) (op : FilterOp.t) (g : G) (r : registry) (n : Z) (P F : gmap string bytes) (status : bytes) :
  accepted key -> synced tags g r -> typedRegistry r ->
  itemOf prover (vid (hashAddress (Public key))) r = Some P -> P !! "PublicKey" = Some (Public key) ->
  itemOf allocation (vid (allocationAt (Public key) (FilterOp.Filter op))) r = Some F -> F !! "Status" = Some status ->
  (exists op', Confirm_Prove (Ok key) op = Ok op' /\ (Confirm_Verify g op' n = Ok true <-> confirmRule n (statusByte status) F))
  /\ (exists op', Reject_Prove (Ok key) op = Ok op' /\ (Reject_Verify g op' n = Ok true <-> rejectRule n (statusByte status) F))
  /\ (exists op', Pause_Prove (Ok key) op = Ok op' /\ (Pause_Verify g op' n = Ok true <-> statusByte status = 1))
  /\ (exists op', Resume_Prove (Ok key) op = Ok op' /\ (Resume_Verify g op' n = Ok true <-> resumeRule n (statusByte status) F)).
Proof using HL Hs.
  intros Hk Hy Hty EP Epk EF Est. split_and!.
  - eapply proveFilterOp_verifies; [by apply confirm_checks|done..].
  - eapply proveFilterOp_verifies; [by apply reject_checks|done..].
  - eapply (proveFilterOp_verifies "PROVER_PAUSE" pauseCheck (pauseRule n)); [apply pause_checks|done..].
  - eapply proveFilterOp_verifies; [by apply resume_checks|done..].
Qed.
End proved.

(** ** Leaving and rejecting *)

Section revival.
Context `{PoseidonHash} `{KeyManager} `{Seniorities} {HL : PoseidonLaws _}.

(** What a leave does: stamps, and a new status of the prover. *)
Lemma leaveStep_inv op r r1 P pk :
  let a := BLS48581AddressedSignature.Address (LeaveOp.Signature op) in
  leaveStep op r = Some r1 -> itemOf prover (vid a) r = Some P -> P !! "PublicKey" = Some pk ->
  exists r0 status, stampItems 3 "LeaveFrameNumber" (LeaveOp.FrameNumber op) (allocationAt pk <$> LeaveOp.Filters op) r = Some r0
    /\ itemOf prover (vid a) r0 = Some P /\ aggregate a r0 = Some r1 /\ r1 = setItem (vid a) (mkItem prover (<["Status" := status]> P)) r0.
Proof using Type.
  intros a Hstep EP Epk. unfold leaveStep in Hstep. fold a in Hstep. rewrite EP in Hstep. cbn [mbind option_bind] in Hstep.
  rewrite Epk in Hstep. cbn [mbind option_bind] in Hstep. apply bind_Some in Hstep as (r0 & E0 & Eag).
  pose proof (kept_provers _ _ (stampItems_preserves _ _ _ _ _ _ E0) a P EP) as EP0. pose proof Eag as Eag'.
  unfold aggregate in Eag'. rewrite EP0 in Eag'. cbn [mbind option_bind] in Eag'. apply bind_Some in Eag' as (ks & _ & [= <-]). eauto 10.
Qed.

Lemma leave_stamps op r r1 P pk F f :
  let a := BLS48581AddressedSignature.Address (LeaveOp.Signature op) in
  leaveStep op r = Some r1 -> itemOf prover (vid a) r = Some P -> P !! "PublicKey" = Some pk ->
  f ∈ LeaveOp.Filters op -> itemOf allocation (vid (allocationAt pk f)) r = Some F ->
  exists F', itemOf allocation (vid (allocationAt pk f)) r1 = Some (stamp 3 "LeaveFrameNumber" (LeaveOp.FrameNumber op) F').
Proof using Type.
  intros a Hstep EP Epk Hf EF. destruct (leaveStep_inv op r r1 P pk Hstep EP Epk) as (r0 & status & E0 & EP0 & _ & ->). fold a in EP0 |- *.
  set (id := vid (allocationAt pk f)) in *. pose proof (kept_classes _ _ (stampItems_preserves _ _ _ _ _ _ E0) id) as Eid.
  apply itemOf_Some in EF. rewrite EF in Eid. destruct (vertices r0 !! id) as [[c F0]|] eqn:En; [|done]. injection Eid as ->.
  destruct (stampItems_stamped _ _ _ _ _ _ (allocationAt pk f) _ E0 ltac:(by apply list_elem_of_fmap_2) En) as [F' EF']. cbn in EF'. subst F0. exists F'.
  apply itemOf_Some in En. apply itemOf_Some. cbn [vertices setItem].
  rewrite lookup_insert_ne; [by apply itemOf_Some|by eapply (item_ne prover allocation)].
Qed.

Lemma reject_leaving op r F st :
  let a := BLS48581AddressedSignature.Address (FilterOp.Signature op) in
  forall P pk, enrolled r -> itemOf prover (vid a) r = Some P -> P !! "PublicKey" = Some pk ->
  itemOf allocation (vid (allocationAt pk (FilterOp.Filter op))) r = Some F -> F !! "Status" = Some st -> statusByte st = 3 ->
  exists r' F', filterStep rejectFields op r = Some r'
    /\ itemOf allocation (vid (allocationAt pk (FilterOp.Filter op))) r' = Some F' /\ F' !! "Status" = Some [Z_byte 1].
Proof using Type.
  intros a P pk He EP Epk EF Est H3. pose proof (item_ne prover allocation _ _ _ _ _ ltac:(done) EP EF) as Hne. unfold filterStep. fold a.
  rewrite EP. cbn [mbind option_bind]. rewrite Epk. cbn [mbind option_bind]. rewrite EF. cbn [mbind option_bind]. rewrite Est. cbn [mbind option_bind].
  rewrite H3. change (rejectFields _ 3 F) with (stamp 1 "LeaveRejectFrameNumber" (FilterOp.FrameNumber op) F).
  set (r1 := setItem _ _ r). assert (preserves r r1) as Hp by (by eapply setItem_preserves).
  destruct (aggregate_total a r1 P) as [r' Er']; [by eapply preserves_enrolled|by eapply kept_provers|].
  exists r', (stamp 1 "LeaveRejectFrameNumber" (FilterOp.FrameNumber op) F). split; [done|]. split; [|by apply stamp_status].
  unfold aggregate in Er'. apply bind_Some in Er' as (P1 & _ & Er'). apply bind_Some in Er' as (ks & _ & [= <-]).
  apply itemOf_Some. cbn [vertices setItem r1]. rewrite lookup_insert_ne by done. by rewrite lookup_insert_eq.
Qed.

(** A rejected leave makes the allocations that it names active. *)
Lemma leave_revives (leave : LeaveOp.t) (reject : FilterOp.t) (frame : Z) (r r1 : registry) (P F : gmap string bytes) (pk : bytes) :
  let a := BLS48581AddressedSignature.Address (LeaveOp.Signature leave) in
  let id := vid (allocationAt pk (FilterOp.Filter reject)) in
  enrolled r -> length a = 32%nat -> itemOf prover (vid a) r = Some P -> P !! "PublicKey" = Some pk ->
  FilterOp.Filter reject ∈ LeaveOp.Filters leave -> itemOf allocation id r = Some F ->
  registryStep (OpLeave leave) r = Some r1 ->
  BLS48581AddressedSignature.Address (FilterOp.Signature reject) = a -> is_u 64 (LeaveOp.FrameNumber leave) ->
  leaveWindow frame (LeaveOp.FrameNumber leave) ->
  ValidateSignature keyTypeBLS48581G1 pk (filterMessage reject) (BLS48581AddressedSignature.Signature (FilterOp.Signature reject))
    (domainOf "PROVER_REJECT") = Ok true ->
  permitted (OpReject reject) frame r1
  /\ exists r2 F2, registryStep (OpReject reject) r1 = Some r2 /\ itemOf allocation id r2 = Some F2 /\ F2 !! "Status" = Some [Z_byte 1].
Proof using Type.
  intros a id He Ha EP Epk Hin EF Hstep Ea Hu Hw Hsig. cbn [registryStep permitted] in *.
  destruct (leave_stamps leave r r1 P pk F _ Hstep EP Epk Hin EF) as [F1 EF1]. fold id in EF1.
  destruct (leaveStep_inv leave r r1 P pk Hstep EP Epk) as (r0 & status & E0 & EP0 & Eag & Er1). fold a in Er1.
  assert (exists P1, itemOf prover (vid a) r1 = Some P1 /\ P1 !! "PublicKey" = Some pk) as (P1 & EP1 & Epk1).
  { eexists. rewrite itemOf_Some, Er1. cbn [vertices setItem]. rewrite lookup_insert_eq. split; [done|]. by rewrite lookup_insert_ne. }
  assert (enrolled r1) as He1.
  { eapply aggregate_enrolled; [exact Eag|]. eapply preserves_enrolled; [by eapply stampItems_preserves|done]. }
  split.
  - exists pk, (stamp 3 "LeaveFrameNumber" (LeaveOp.FrameNumber leave) F1), [Z_byte 3]. rewrite Ea. split_and!; [| |by apply stamp_status| |done].
    + unfold keyAt. rewrite decide_True by lia. rewrite take_ge by lia. by rewrite EP1.
    + done.
    + right. split; [done|]. exists (be 8 (LeaveOp.FrameNumber leave)). unfold stamp. rewrite lookup_insert_eq, be_length. split_and!; [done..|].
      rewrite be_val_be. rewrite Z.mod_small; done.
  - eapply reject_leaving; [exact He1|by rewrite Ea|exact Epk1|exact EF1|by apply stamp_status|done].
Qed.
Lemma leave_typed op r r1 P pk :
  let a := BLS48581AddressedSignature.Address (LeaveOp.Signature op) in
  typedRegistry r -> leaveStep op r = Some r1 -> itemOf prover (vid a) r = Some P -> P !! "PublicKey" = Some pk ->
  typedRegistry r1 /\ holdsProver a r1.
Proof using Type.
  intros a Hty Hstep EP Epk. destruct (leaveStep_inv op r r1 P pk Hstep EP Epk) as (r0 & status & E0 & _ & _ & ->). fold a. split.
  - intros key f n En. cbn [vertices setItem] in En. apply itemOf_Some in EP. apply lookup_insert_Some in En as [[Eid _]|[_ En]].
    + rewrite Eid in EP. by apply Hty in EP.
    + pose proof (kept_classes _ _ (stampItems_preserves _ _ _ _ _ _ E0) (vid (allocationAt key f))) as Ec. rewrite En in Ec.
      destruct (vertices r !! vid (allocationAt key f)) as [n0|] eqn:E; [|done]. injection Ec as ->. by eapply Hty.
  - intros n En. cbn [vertices setItem] in En. rewrite lookup_insert_eq in En. by injection En as <-.
Qed.
End revival.

(** ** After a join *)

Section joined.
Context {G : Type} `{Hypergraph G} `{TreeCrypto} `{PoseidonHash} `{RDFParser} `{KeyManager} `{Seniorities} {HL : PoseidonLaws _}.
Context (tags : TagsByClass) (Hs : schemaParsed tags).
Context (sha512_length : forall b, length (sha512 b) = 64%nat) (CommitRaw_nonempty : forall b, slotVector b -> CommitRaw b 64 <> []).

(** C23: A join registers its prover: on a pending state that represents a registry, Join makes
    the vertices of the prover (unless it is there) with status joining, of its reward and of
    one allocation for each filter, and ends in a state that represents the registry with them.
    The changed hyperedge of the prover holds exactly its former allocations and the new ones. *)
Theorem join_registers (op : JoinOp.t) (frameNumber : Z) (s : hypergraphState G) (r r' : registry) :
  let a := hashAddress (JoinOp.PublicKey op) in
  joinStep op r = Some r' -> represents tags ∅ s r ->
  succeeds (Join_Materialize op frameNumber) s (fun _ s' => represents tags ∅ s' r' /\ exists c prior he te,
    changeOf GLOBAL_INTRINSIC_ADDRESS a HyperedgeAddsDiscriminator (changeset s') = Some c
    /\ StateChange.Value c = HyperedgeAddMaterializedState frameNumber prior he /\ heap s' !! Hyperedge.extTree he = Some te
    /\ forall key, is_Some (contents te !! key) <->
         key ∈ app GLOBAL_INTRINSIC_ADDRESS <$> default [] (storedEdge a r) ++ (allocationAt (JoinOp.PublicKey op) <$> JoinOp.Filters op)).
Proof. by apply Join_refines. Qed.

Lemma aggregate_joined X s r a frameNumber p :
  represents tags X s r -> length a = 32%nat -> edges r !! a = Some Joined ->
  UpdateAggregateProverStatus a frameNumber p s = (Err "invalid object returned for hyperedge", s).
Proof.
  intros Hr Ha Ej. pose proof (rep_edges _ _ _ _ Hr a Ha) as Hc. cbv zeta in Hc. rewrite Ej in Hc. destruct Hc as [c Ec].
  unfold UpdateAggregateProverStatus. assert (copy32 a = a) as -> by (unfold copy32; by apply take_app_length').
  unfold mbind, M_bind, attempt, Get, gets, mbind, M_bind. change (id s) with s. by rewrite Ec.
Qed.

(** Operations are not atomic: after a join of a prover in a frame, a pause of one of its
    allocations fails, because the changed hyperedge is read as a tree, but the allocation is
    paused in the pending state all the same, and the status of the prover is not updated. *)
Theorem pause_after_join_half_done (op : FilterOp.t) (frameNumber : Z) (s : hypergraphState G) (r : registry) (P F : gmap string bytes) (pk : bytes) :
  let a := BLS48581AddressedSignature.Address (FilterOp.Signature op) in
  let x := allocationAt pk (FilterOp.Filter op) in
  represents tags ∅ s r -> edges r !! a = Some Joined -> itemOf prover (vid a) r = Some P -> P !! "PublicKey" = Some pk ->
  itemOf allocation (vid x) r = Some F ->
  exists s', Pause_Materialize op frameNumber s = (Err "invalid object returned for hyperedge", s')
    /\ represents tags ∅ s' (setItem (vid x) (mkItem allocation (stamp 2 "PauseFrameNumber" (FilterOp.FrameNumber op) F)) r).
Proof.
  intros a x Hr Ej EP Epk EF. pose proof EP as EPi. apply itemOf_Some in EPi. destruct (wf_ids r _ _ _ (rep_wf _ _ _ _ Hr) EPi) as [_ Ha].
  destruct (loadAllocation_spec tags Hs s r op P pk F Hr EP Epk EF) as (res & s1 & E1 & p & q & -> & Hw1). fold a x in Hw1.
  assert (succeeds (setStatus 2 "PauseFrameNumber" op q) s1 (fun _ s2 =>
    working tags s2 r p a P q x (stamp 2 "PauseFrameNumber" (FilterOp.FrameNumber op) F))) as ([] & s2 & E2 & Hw2).
  { eapply (setStatus_spec tags Hs); [done|order_of]. }
  destruct (working_store tags Hs s2 r p a P q x _ F frameNumber Hw2 EP EF) as ([] & s3 & E3 & Hr3). exists s3. split; [|apply Hr3].
  unfold Pause_Materialize. rewrite (bind_Ok _ _ _ _ _ E1), (bind_Ok _ _ _ _ _ E2). unfold storeAllocation. fold x.
  unfold mbind at 1, M_bind in E3. unfold mbind at 1, M_bind at 1. destruct (getPrior GLOBAL_INTRINSIC_ADDRESS x s2) as [[prior| | |] s4]; try done.
  rewrite (bind_Ok _ _ _ _ _ E3). fold a. by apply (aggregate_joined ∅ s3 _ a frameNumber p (ready_rep _ _ _ _ _ _ Hr3)).
Qed.
(** C36: A rejected leave makes every named allocation active, whatever its status was before.  A
    leave that Verify accepts because of one active allocation may name others that have been
    left, rejected, kicked or never confirmed.  Verify then accepts the rejection 360 to 720
    frames later, and Materialize of both makes these allocations active without a
    confirmation. *)
Theorem left_allocation_revived (leave : LeaveOp.t) (reject : FilterOp.t) (n frame : Z) (g : G) (r : registry) (P F : gmap string bytes) (pk : bytes) :
  let a := BLS48581AddressedSignature.Address (LeaveOp.Signature leave) in
  let id := vid (allocationAt pk (FilterOp.Filter reject)) in
  opened tags g r -> typedRegistry r -> enrolled r -> length a = 32%nat -> itemOf prover (vid a) r = Some P -> P !! "PublicKey" = Some pk ->
  FilterOp.Filter reject ∈ LeaveOp.Filters leave -> itemOf allocation id r = Some F -> Leave_Verify g leave n = Ok true ->
  BLS48581AddressedSignature.Address (FilterOp.Signature reject) = a -> is_u 64 (LeaveOp.FrameNumber leave) ->
  leaveWindow frame (LeaveOp.FrameNumber leave) ->
  ValidateSignature keyTypeBLS48581G1 pk (filterMessage reject) (BLS48581AddressedSignature.Signature (FilterOp.Signature reject))
    (domainOf "PROVER_REJECT") = Ok true ->
  exists r1 r2 F2, registryStep (OpLeave leave) r = Some r1 /\ (forall g1, synced tags g1 r1 -> Reject_Verify g1 reject frame = Ok true)
    /\ succeeds (_ ← Leave_Materialize leave n; Reject_Materialize reject frame) (NewHypergraphState g) (fun _ s' => represents tags ∅ s' r2)
    /\ itemOf allocation id r2 = Some F2 /\ F2 !! "Status" = Some [Z_byte 1].
Proof.
  intros a id Ho Hty He Ha EP Epk Hin EF Hv Ea Hu Hw Hsig.
  assert (forall b r0 Q, length b = 32%nat -> itemOf prover (vid b) r0 = Some Q -> holdsProver (take 32 b) r0) as Hn.
  { intros b r0 Q Hb EQ m Em. rewrite take_ge in Em by lia. apply itemOf_Some in EQ. rewrite EQ in Em. by injection Em as <-. }
  assert (leavePermitted leave r) as Hp by (eapply (Leave_Verify_iff tags Hs); [by eapply opened_synced|done|by eapply Hn|exact Hv]).
  destruct (permitted_step (OpLeave leave) n r He Hty Ha Hp) as [r1 E1].
  destruct (leave_revives leave reject frame r r1 P F pk He Ha EP Epk Hin EF E1 Ea Hu Hw Hsig) as (Hpr & r2 & F2 & E2 & EF2 & Est).
  destruct (leave_typed leave r r1 P pk Hty E1 EP Epk) as [Hty1 Hh1]. fold a in Hh1.
  exists r1, r2, F2. split_and!; [done| | |done|done].
  - intros g1 Hy. eapply (verifyFilterOp_iff tags Hs); [by apply reject_checks|done|done| |exact Hpr]. rewrite Ea, take_ge by lia. exact Hh1.
  - m_step. eapply succeeds_mono; [by eapply (Leave_refines tags Hs); [|apply opened_represents]|]. cbn beta. intros _ s1 Hr1.
    by eapply (Reject_refines tags Hs).
Qed.
End joined.
