(* ===== verification/GlobalProviders.v ===== *)
(** * The providers of the global consensus (node/consensus/global/consensus_leader_provider.go,
    the sends of consensus_voting_provider.go and consensus_liveness_provider.go)

    What a participant sends in a round: its liveness check, the frame it proposes, its vote
    and the confirmation of the finalised frame.  The theorems follow a message to the
    handlers of a peer.  The key manager, the registry, the head of the time reel and the
    clocks are arguments; identities, which are hexadecimal, are the bytes they spell. *)

From S2P Require Import Prelude Wire CanonicalTypes Keys Frames Messages Difficulty ForkChoice Stateful GlobalTimeReel FrameProver.
From S2P Require Import FrameValidator RewardIssuance ProofTreeCommit HypergraphState Voting GlobalMessages GlobalMessagesSpec GlobalCollect.

Record provider := mkProvider {
  engineOf : engine;
  published : list (topic * bytes);
  proposalVotes : gmap bytes (gmap bytes FrameVote.t);
  engineDifficulty : Z
}.

Definition set_engineOf x p := mkProvider x (published p) (proposalVotes p) (engineDifficulty p).
Definition set_published x p := mkProvider (engineOf p) x (proposalVotes p) (engineDifficulty p).
Definition set_proposalVotes x p := mkProvider (engineOf p) (published p) x (engineDifficulty p).
Definition set_engineDifficulty x p := mkProvider (engineOf p) (published p) (proposalVotes p) x.

(** A step of the engine. *)
Definition inEngine (m : handler) : M provider unit := fun p =>
  let '(r, e) := m (engineOf p) in (r, set_engineOf e p).

Section providers.
Context `{Environment} `{FrameCrypto}.
Context (publishFails : topic -> bytes -> option string).

Definition PublishToBitmask (t : topic) (data : bytes) : M provider unit :=
  match publishFails t data with
  | Some e => lift (Err e)
  | None => modify (fun p => set_published (published p ++ [(t, data)]) p)
  end.

(** The signing key, if GetProvingKey finds one. *)
Context (provingKey : option Signer).

(** getProverAddress and the address GetProvingKey returns. *)
Definition proverAddress : bytes := match provingKey with Some key => getAddressFromPublicKey (Public key) | None => [] end.

(** ** Leader *)

Definition GetNextLeaders (orderedProvers : bytes -> result (list bytes)) (prior : option GlobalFrame.t) : result (list bytes) :=
  match prior ≫= GlobalFrame.Header with
  | None => Err "no prior frame"
  | Some h =>
    if negb (length (GlobalFrameHeader.Output h) =? 516)%nat then Err "no prior frame"
    else orderedProvers (computeGlobalPoseidonHash (GlobalFrameHeader.Output h))
  end.

(** The requests of the frame; messages that are not bundles are left out. *)
Fixpoint bundlesOf (now : Z) (messages : list bytes) : result (list MessageBundle.t) :=
  match messages with
  | [] => Ok []
  | data :: messages =>
    if negb (bool_decide (typePrefix data = Some MessageBundleType)) then bundlesOf now messages
    else
      match MessageBundle.FromCanonicalBytes data with
      | Ok bundle =>
        bundles ← bundlesOf now messages;
        Ok ((if MessageBundle.Timestamp bundle =? 0 then MessageBundle.mk (MessageBundle.Requests bundle) now else bundle) :: bundles)
      | Err _ => bundlesOf now messages
      | Panic => Panic
      | Diverge => Diverge
      end
  end.

(** The index of the prover, zero if it is not active. *)
Definition proverIndex (provers : list ProverInfo.t) : Z :=
  default 0 ((fun ip : nat * ProverInfo.t => u8 (Z.of_nat ip.1)) <$>
    List.find (fun ip : nat * ProverInfo.t => bool_decide (ProverInfo.Address ip.2 = proverAddress)) (imap pair provers)).

(** [now] and [later] are the times at the start and when the requests are converted. *)
Definition ProveNextState (adjuster : AsertDifficultyAdjuster) (activeProvers : result (list ProverInfo.t)) (c : collector)
    (now later : Z) (prior : option GlobalFrame.t) : M provider GlobalFrame.t :=
  match prior with
  | None => lift (Err "nil prior frame")
  | Some prior =>
    match GlobalFrame.Header prior with
    | None => lift Panic
    | Some h =>
      match provingKey with
      | None => lift (Err "no proving key available")
      | Some key =>
        let difficulty := GetNextDifficulty adjuster (GlobalFrameHeader.FrameNumber h) now in
        _ ← modify (set_engineDifficulty (u32 difficulty));
        provers ← lift activeProvers;
        newHeader ← lift (ProveGlobalFrameHeader (Some h) (shardCommitments c) (proverRoot c) key now (u32 difficulty) (proverIndex provers));
        requests ← lift (bundlesOf later (collectedMessages c));
        mret (GlobalFrame.mk (Some newHeader) requests)
      end
    end
  end.

(** ** Liveness *)

Definition SendLiveness (now : Z) (collected : GlobalCollectedCommitments) : M provider unit :=
  match provingKey with
  | None => lift (Err "no proving key available for liveness check")
  | Some key =>
    let signatureData := replicate 32 Byte.x00 ++ be 8 (frameNumber collected) ++ commitmentHash collected ++ be 8 (u64 now) in
    sig ← lift (SignWithDomain key signatureData stringLiveness);
    data ← lift (ProverLivenessCheck.ToCanonicalBytes (ProverLivenessCheck.mk [] (frameNumber collected) now (commitmentHash collected)
             (Some (BLS48581AddressedSignature.mk sig (getAddressFromPublicKey (Public key))))));
    PublishToBitmask TopicConsensus data
  end.

(** ** Voting *)

(** The frame is stored under the identifier of the time reel. *)
Definition SendProposal (proposal : GlobalFrame.t) : M provider unit :=
  match GlobalFrame.Header proposal with
  | None => lift (Err "invalid proposal")
  | Some h =>
    let frameID := ComputeFrameID (mkGlobalFrame h (GlobalFrame.Requests proposal)) in
    _ ← inEngine (_ ← Lock; _ ← modify (fun e => set_frameStore (<[frameID := proposal]> (frameStore e)) e); Unlock);
    frameData ← lift (GlobalFrame.ToCanonicalBytes proposal);
    PublishToBitmask TopicConsensus frameData
  end.

(** Whether a proposal is valid and extends the head. *)
Definition acceptable (activeProvers : result (list ProverInfo.t)) (parentSelector : bytes) (prop : GlobalFrame.t) : result bool :=
  match GlobalValidate activeProvers prop with
  | Ok valid =>
    match GlobalFrame.Header prop with
    | None => Panic
    | Some h => Ok (bool_decide (GlobalFrameHeader.ParentSelector h = parentSelector) && valid)
    end
  | Err _ => Ok false
  | Panic => Panic
  | Diverge => Diverge
  end.

(** The first prover, in their order, with an acceptable proposal. *)
Fixpoint choose (activeProvers : result (list ProverInfo.t)) (parentSelector : bytes) (proposals : gmap bytes GlobalFrame.t) (provers : list bytes)
    : result (option (bytes * GlobalFrame.t)) :=
  match provers with
  | [] => Ok None
  | proverID :: provers =>
    match proposals !! proverID with
    | None => choose activeProvers parentSelector proposals provers
    | Some prop =>
      accepted ← acceptable activeProvers parentSelector prop;
      if (accepted : bool) then Ok (Some (proverID, prop)) else choose activeProvers parentSelector proposals provers
    end
  end.

(** Without a head the conversion of the selector to an array panics.  An error of the
    network is only logged. *)
Definition DecideAndSendVote (activeProvers : result (list ProverInfo.t)) (orderedProvers : bytes -> result (list bytes))
    (head : option GlobalFrame.t) (proposals : gmap bytes GlobalFrame.t) : M provider (bytes * FrameVote.t) :=
  match head ≫= GlobalFrame.Header with
  | None => lift Panic
  | Some parent =>
    let parentSelector := computeGlobalPoseidonHash (GlobalFrameHeader.Output parent) in
    provers ← lift (orderedProvers parentSelector);
    chosen ← lift (choose activeProvers parentSelector proposals provers);
    match chosen with
    | None => lift (Err "no valid proposals to vote on")
    | Some (proposerID, proposal) =>
      match GlobalFrame.Header proposal with
      | None => lift Panic
      | Some h =>
        match provingKey with
        | None => lift (Err "no proving key available for voting")
        | Some key =>
          signatureData ← lift (GetGlobalFrameSignaturePayload h);
          sig ← lift (SignWithDomain key signatureData stringGlobal);
          let vote := FrameVote.mk (GlobalFrameHeader.FrameNumber h) proposerID true
                        (Some (BLS48581AddressedSignature.mk sig (getAddressFromPublicKey (Public key)))) in
          data ← lift (FrameVote.ToCanonicalBytes vote);
          _ ← ignore (PublishToBitmask TopicConsensus data);
          _ ← modify (fun p => set_proposalVotes (<[proposerID := <[proverAddress := vote]> (default ∅ (proposalVotes p !! proposerID))]> (proposalVotes p)) p);
          mret (proposerID, vote)
        end
      end
    end
  end.

(** [insertFails] is the error of the time reel. *)
Definition SendConfirmation (insertFails : GlobalFrame.t -> option string) (finalized : GlobalFrame.t) : M provider unit :=
  match GlobalFrame.Header finalized with
  | None => lift (Err "invalid finalized frame")
  | Some h =>
    let selector := computeGlobalPoseidonHash (GlobalFrameHeader.Output h) in
    data ← lift (FrameConfirmation.ToCanonicalBytes (FrameConfirmation.mk (GlobalFrameHeader.FrameNumber h) selector
             (GlobalFrameHeader.PublicKeySignatureBls48581 h)));
    _ ← PublishToBitmask TopicConsensus data;
    frameData ← lift (GlobalFrame.ToCanonicalBytes finalized);
    _ ← PublishToBitmask TopicFrame frameData;
    _ ← inEngine (perform (InsertFrame finalized));
    match insertFails finalized with
    | None => mret tt
    | Some err =>
      _ ← inEngine (_ ← Lock; _ ← modify (fun e => set_frameStore (delete selector (frameStore e)) e); Unlock);
      lift (Err err)
    end
  end.
End providers.

(** ** A leader's frame is accepted *)

Section leads.
Context `{E : Environment} `{F : FrameCrypto} `{!FrameCryptoLaws F}.
Context (publishFails : topic -> bytes -> option string) (key : Signer).

Lemma find_imap (f : ProverInfo.t -> bool) (l : list ProverInfo.t) i x (k : nat -> nat) :
  l !! i = Some x -> f x = true -> (forall j y, (j < i)%nat -> l !! j = Some y -> f y = false) ->
  List.find (fun ip : nat * ProverInfo.t => f ip.2) (imap (fun j y => (k j, y)) l) = Some (k i, x).
Proof.
  revert i k. induction l as [|y l IH]; intros i k Hi Hx Hbefore; [done|]. rewrite imap_cons. cbn [List.find snd]. destruct i as [|i].
  - injection Hi as ->. by rewrite Hx.
  - rewrite (Hbefore 0%nat y) by (done || lia). apply (IH i (k ∘ S)); [done..|]. intros j z Hj Hz. apply (Hbefore (S j)); [lia|done].
Qed.

Lemma proverIndex_spec provers i p :
  NoDup (ProverInfo.Address <$> provers) -> provers !! i = Some p -> (i < 256)%nat -> ProverInfo.Address p = getAddressFromPublicKey (Public key) ->
  proverIndex (Some key) provers = Z.of_nat i.
Proof.
  intros Hnd Hi Hlt Ha. unfold proverIndex.
  assert (List.find (fun ip : nat * ProverInfo.t => bool_decide (ProverInfo.Address ip.2 = proverAddress (Some key))) (imap pair provers) = Some (i, p)) as ->.
  { pose (own := fun q : ProverInfo.t => bool_decide (ProverInfo.Address q = proverAddress (Some key))).
    apply (find_imap own provers i p (fun j => j)); [done|by apply bool_decide_eq_true|].
    intros j q Hj Hq. apply bool_decide_eq_false. cbn. rewrite <- Ha. intros Heq. assert (j = i); [|lia].
    eapply NoDup_lookup; [exact Hnd|by rewrite list_lookup_fmap, Hq|]. rewrite list_lookup_fmap, Hi. cbn. by rewrite Heq. }
  apply uwrap_small. unfold is_u. lia.
Qed.

Lemma filter_unique {A} (f : A -> bytes) l x : NoDup (f <$> l) -> x ∈ l -> filter (fun y => f y = f x) l = [x].
Proof.
  induction l as [|y l IH]; intros Hnd Hx; [by apply elem_of_nil in Hx|]. rewrite fmap_cons in Hnd. apply NoDup_cons in Hnd as [Hy Hnd].
  rewrite filter_cons. apply elem_of_cons in Hx as [->|Hx].
  - rewrite decide_True by done. f_equal. destruct (filter _ l) as [|z l'] eqn:Ef; [done|]. exfalso.
    assert (z ∈ filter (fun z => f z = f y) l) as Hz by (rewrite Ef; left). apply list_elem_of_filter in Hz as [Hz Hin]. destruct Hy.
    rewrite <- Hz. by apply list_elem_of_fmap_2.
  - rewrite decide_False by (intros Hf; destruct Hy; rewrite Hf; by apply list_elem_of_fmap_2). by apply IH.
Qed.

(** The members of a mask with a single bit. *)
Lemma memberKeys_single provers i p :
  NoDup (ProverInfo.Address <$> provers) -> provers !! i = Some p -> (length provers <= 256)%nat -> memberKeys [Z.of_nat i] provers = [ProverInfo.PublicKey p].
Proof.
  intros Hnd Hi Hlen. unfold memberKeys.
  rewrite (concat_imap_filter ProverInfo.PublicKey (fun q => ProverInfo.Address q = ProverInfo.Address p) (fun j => bool_decide (u8 (Z.of_nat j) ∈ [Z.of_nat i]))).
  - by rewrite filter_unique by (done || by eapply list_elem_of_lookup_2).
  - intros j q Hj. rewrite bool_decide_eq_true, list_elem_of_singleton. pose proof (lookup_lt_Some _ _ _ Hj). unfold u8. rewrite uwrap_small by (unfold is_u; lia).
    split; [intros Heq; assert (j = i) as -> by lia; congruence|]. intros Ha. f_equal. eapply NoDup_lookup; [exact Hnd| |by rewrite list_lookup_fmap, Hi].
    rewrite list_lookup_fmap, Hj. cbn. by rewrite Ha.
Qed.

Lemma choose_first activeProvers selector proposals before own after f :
  proposals !! own = Some f -> (forall q, q ∈ before -> proposals !! q = None) -> acceptable activeProvers selector f = Ok true ->
  choose activeProvers selector proposals (before ++ own :: after) = Ok (Some (own, f)).
Proof.
  intros Hf Hb Ha. induction before as [|q before IH]; cbn [app choose].
  - rewrite Hf, Ha. done.
  - rewrite Hb by left. apply IH. intros r Hr. apply Hb. by right.
Qed.

(** A header whose only signer is an active prover is valid. *)
Lemma global_validate_single provers i p throwaway s h requests :
  NoDup (ProverInfo.Address <$> provers) -> provers !! i = Some p -> (length provers <= 256)%nat ->
  New = Ok throwaway -> Aggregate [ProverInfo.PublicKey p] [throwaway] = Ok (ProverInfo.PublicKey p, s) ->
  VerifyGlobalFrameHeader h = Ok [Z.of_nat i] -> length (GlobalFrameHeader.Output h) = 516%nat ->
  (exists sig, GlobalFrameHeader.PublicKeySignatureBls48581 h = Some sig /\
    BLS48581AggregateSignature.PublicKey sig = Some (BLS48581G2PublicKey.mk (ProverInfo.PublicKey p))) ->
  GlobalValidate (Ok provers) (GlobalFrame.mk (Some h) requests) = Ok true.
Proof.
  intros Hnd Hi Hlen Hnew Hagg Hv Ho (sig & Hsig & Hkey). unfold GlobalValidate. cbn [GlobalFrame.Header]. rewrite Ho. cbn [Nat.eqb negb].
  destruct (_ =? 0); [done|]. rewrite Hsig, Hkey, Hv, Hnew. cbn [mbind result_bind BLS48581G2PublicKey.KeyValue].
  apply checkAggregate_Ok. cbn zeta. rewrite (memberKeys_single provers i p) by done. by exists s.
Qed.

(** C25: the frame a leader proves is accepted.  If the leader is an active prover, its key signs
    and the collected commitments have their lengths, then ProveNextState succeeds; the frame
    has the next number, carries the collected requests, names the leader and the head, and
    is valid on every node with the same provers.  A node with the same head votes for it
    if no prover ordered before the leader has made a proposal. *)
Theorem leader_frame_accepted adjuster provers i p throwaway s c now later prior h requests st :
  isBLS (GetType key) = true -> length (Public key) = 585%nat -> (forall m, signs key m stringGlobal) ->
  NoDup (ProverInfo.Address <$> provers) -> provers !! i = Some p -> (length provers <= 256)%nat ->
  ProverInfo.PublicKey p = Public key -> ProverInfo.Address p = getAddressFromPublicKey (Public key) ->
  New = Ok throwaway -> Aggregate [Public key] [throwaway] = Ok (Public key, s) ->
  length (shardCommitments c) = 256%nat -> forallb rootLength (shardCommitments c) = true -> rootLength (proverRoot c) = true ->
  GlobalFrame.Header prior = Some h -> length (GlobalFrameHeader.Output h) = 516%nat -> bundlesOf later (collectedMessages c) = Ok requests ->
  exists frame h' st', ProveNextState (Some key) adjuster (Ok provers) c now later (Some prior) st = (Ok frame, st') /\
    frame = GlobalFrame.mk (Some h') requests /\ GlobalFrameHeader.FrameNumber h' = u64 (GlobalFrameHeader.FrameNumber h + 1) /\
    proposerOf frame = Ok (proverAddress (Some key)) /\ GlobalValidate (Ok provers) frame = Ok true /\
    VerifyGlobalHeaderSignature h' = Ok true /\
    forall proposals before after, proposals !! proverAddress (Some key) = Some frame -> (forall q, q ∈ before -> proposals !! q = None) ->
      choose (Ok provers) (computeGlobalPoseidonHash (GlobalFrameHeader.Output h)) proposals (before ++ proverAddress (Some key) :: after) =
        Ok (Some (proverAddress (Some key), frame)).
Proof.
  intros Hbls Hpub Hsigns Hnd Hi Hlen Hkey Haddr Hnew Hagg Hc Hcs Hr Hh Ho Hreq.
  assert (i < 256)%nat as Hi256 by (apply lookup_lt_Some in Hi; lia).
  destruct (prove_global_verifies h (shardCommitments c) (proverRoot c) key now
              (u32 (GetNextDifficulty adjuster (GlobalFrameHeader.FrameNumber h) now)) (Z.of_nat i)) as (h' & Ep & Hv & Hvs & Hsome & Ho' & Hn & Hsel & Hsig);
    [lia|done..|lia|].
  destruct (GlobalFrameHeader.PublicKeySignatureBls48581 h') as [sig|] eqn:Esig; [|done]. specialize (Hsig sig eq_refl).
  assert (GlobalValidate (Ok provers) (GlobalFrame.mk (Some h') requests) = Ok true) as Hval.
  { rewrite <- Hkey in *. eapply global_validate_single; try done. by exists sig. }
  eexists (GlobalFrame.mk (Some h') requests), h', _. split; [|split_and!; try done].
  - unfold ProveNextState. rewrite Hh. unfold mbind, M_bind, lift, modify. rewrite (proverIndex_spec provers i p) by done. by rewrite Ep, Hreq.
  - unfold proposerOf. cbn [GlobalFrame.Header]. by rewrite Esig, Hsig.
  - intros proposals before after Hf Hb. apply choose_first; [done..|]. unfold acceptable. rewrite Hval. cbn [GlobalFrame.Header].
    rewrite Hsel, take_ge by lia. by rewrite bool_decide_true.
Qed.
End leads.

(** ** What is sent arrives *)

Section arrives.
Context `{E : Environment} `{F : FrameCrypto}.
Context (key : Signer) (Hsigns : forall m d, signs key m d).

Lemma findProver_unique provers p :
  NoDup (ProverInfo.Address <$> provers) -> p ∈ provers -> findProver provers (ProverInfo.Address p) = Some (ProverInfo.PublicKey p).
Proof.
  intros Hnd Hp. destruct (findProver_elem provers p Hp) as [k Hk]. destruct (findProver_spec _ _ _ Hk) as (q & Hq & Ha & Hkey).
  rewrite Hk, <- Hkey. f_equal. apply list_elem_of_lookup in Hp as [i Hi], Hq as [j Hj].
  assert (i = j) as ->; [|congruence]. eapply NoDup_lookup; [exact Hnd|by rewrite list_lookup_fmap, Hi|]. rewrite list_lookup_fmap, Hj. cbn. by rewrite Ha.
Qed.

Lemma payload_unsigned h h' : unsigned h = unsigned h' -> GetGlobalFrameSignaturePayload h = GetGlobalFrameSignaturePayload h'.
Proof. destruct h, h'. unfold unsigned. cbn. by intros [= -> -> -> -> -> -> ->]. Qed.

Lemma choose_Ok activeProvers selector proposals provers q f :
  choose activeProvers selector proposals provers = Ok (Some (q, f)) ->
  q ∈ provers /\ proposals !! q = Some f /\ GlobalValidate activeProvers f = Ok true /\
  exists h, GlobalFrame.Header f = Some h /\ GlobalFrameHeader.ParentSelector h = selector.
Proof.
  induction provers as [|r provers IH]; [done|]. cbn [choose]. intros Hc.
  assert (choose activeProvers selector proposals provers = Ok (Some (q, f)) -> q ∈ r :: provers /\ proposals !! q = Some f /\ GlobalValidate activeProvers f = Ok true /\
    exists h, GlobalFrame.Header f = Some h /\ GlobalFrameHeader.ParentSelector h = selector) as Hnext.
  { intros (? & ? & ? & ?)%IH. split_and!; try done. by right. }
  destruct (proposals !! r) as [g|] eqn:Eg; [|by apply Hnext]. apply result_bind_Ok in Hc as (b & Hb & Hc). destruct b; [|by apply Hnext].
  injection Hc as -> ->. unfold acceptable in Hb. destruct (GlobalValidate activeProvers f) as [valid| | |] eqn:Ev; try done.
  destruct (GlobalFrame.Header f) as [h|] eqn:Eh; [|done]. injection Hb as [Hs%bool_decide_eq_true ->]%andb_prop.
  split_and!; [left|done|done|]. by exists h.
Qed.

(** What DecideAndSendVote has done when it returns a vote, on a network that delivers. *)
Lemma decide_Ok activeProvers ordered head proposals st proposer vote st' :
  DecideAndSendVote (fun _ _ => None) (Some key) activeProvers ordered head proposals st = (Ok (proposer, vote), st') ->
  exists parent f h payload sig data, head ≫= GlobalFrame.Header = Some parent /\ proposals !! proposer = Some f /\ GlobalFrame.Header f = Some h /\
    GlobalValidate activeProvers f = Ok true /\ GlobalFrameHeader.ParentSelector h = computeGlobalPoseidonHash (GlobalFrameHeader.Output parent) /\
    GetGlobalFrameSignaturePayload h = Ok payload /\ length sig = 74%nat /\ VerifySignatureRaw (Public key) sig payload stringGlobal = true /\
    vote = FrameVote.mk (GlobalFrameHeader.FrameNumber h) proposer true (Some (BLS48581AddressedSignature.mk sig (getAddressFromPublicKey (Public key)))) /\
    FrameVote.ToCanonicalBytes vote = Ok data /\ published st' = published st ++ [(TopicConsensus, data)].
Proof.
  intros Hd. unfold DecideAndSendVote in Hd. destruct (head ≫= GlobalFrame.Header) as [parent|]; [|done].
  unfold mbind at 1, M_bind at 1, lift at 1 in Hd. destruct (ordered _) as [provers| | |]; try done.
  unfold mbind at 1, M_bind at 1, lift at 1 in Hd. destruct (choose _ _ _ _) as [[[q f]|]| | |] eqn:Ec; try done.
  apply choose_Ok in Ec as (_ & Hf & Hv & h & Hh & Hs). rewrite Hh in Hd.
  unfold mbind at 1, M_bind at 1, lift at 1 in Hd. destruct (GetGlobalFrameSignaturePayload h) as [payload| | |] eqn:Ep; try done.
  destruct (Hsigns payload stringGlobal) as (sig & Es & Hl & Hvs). unfold mbind at 1, M_bind at 1, lift at 1 in Hd. rewrite Es in Hd. cbn zeta in Hd.
  set (v := FrameVote.mk _ _ _ _) in Hd. unfold mbind at 1, M_bind at 1, lift at 1 in Hd. destruct (FrameVote.ToCanonicalBytes v) as [data| | |] eqn:Ed; try done.
  injection Hd as <- <- <-. exists parent, f, h, payload, sig, data. by split_and!.
Qed.

Context (network : Z) (shardProvers : bytes -> result (list ProverInfo.t)) (range : gmap bytes GlobalFrame.t -> list GlobalFrame.t) (now : Z).
Context (ed448Verify : bytes -> bytes -> bytes -> bool) (alertPublicKey : bytes).

Abbreviation receives provers := (receive network (Ok provers) shardProvers range now ed448Verify alertPublicKey).

Lemma vote_validates vote : length (FrameVote.Proposer vote) = 32%nat ->
  (exists sig, FrameVote.PublicKeySignatureBls48581 vote = Some sig /\ length (BLS48581AddressedSignature.Signature sig) = 74%nat /\
    length (BLS48581AddressedSignature.Address sig) = 32%nat) -> FrameVote.Validate (Some vote) = Ok tt.
Proof.
  intros Hp (sig & Hs & Hl & Ha). unfold FrameVote.Validate, BLS48581AddressedSignature.Validate, lenIs. by rewrite Hp, Hs, Hl, Ha.
Qed.

(** Handling a vote for a stored proposal. *)
Lemma vote_handled provers p vote sig h payload data e :
  NoDup (ProverInfo.Address <$> provers) -> p ∈ provers -> frameStoreMu e = mkMutex 0 false ->
  FrameVote.FromCanonicalBytes data = Ok vote -> FrameVote.Validate (Some vote) = Ok tt ->
  FrameVote.PublicKeySignatureBls48581 vote = Some sig -> BLS48581AddressedSignature.Address sig = ProverInfo.Address p ->
  findProposal (range (frameStore e)) vote = Ok (Some h) -> GetGlobalFrameSignaturePayload h = Ok payload ->
  VerifySignatureRaw (ProverInfo.PublicKey p) (BLS48581AddressedSignature.Signature sig) payload stringGlobal = true ->
  handleVote (Ok provers) range data e = (Ok tt, set_calls (calls e ++ [ReceiveVote (FrameVote.Proposer vote) (ProverInfo.Address p) vote]) e).
Proof.
  intros Hnd Hp Hmu Hd Hv Hs Ha Hf Hpay Hver. unfold handleVote. rewrite Hd. cbn [orReturn]. rewrite Hv. cbn [orReturn]. rewrite Hs. cbn [orReturn].
  rewrite Ha, findProver_unique by done. destruct e as [fs as_ pm mu cs]. cbn in Hmu, Hf. subst mu.
  unfold mbind, M_bind, RLock, gets, lift, RUnlock, modify. cbn [frameStoreMu writer readers set_frameStoreMu frameStore]. rewrite Hf. cbn [orReturn].
  rewrite Hpay. cbn [orReturn]. rewrite Hver. done.
Qed.

(** C28: a vote arrives.  The vote that DecideAndSendVote sends is for a valid proposal that
    extends the head of the sender; a participant that has the sender among its provers and
    finds the same proposal among its frames, up to its signature, passes it on. *)
Theorem sent_vote_delivered activeProvers ordered head proposals st proposer vote st' provers p e h' :
  DecideAndSendVote (fun _ _ => None) (Some key) activeProvers ordered head proposals st = (Ok (proposer, vote), st') ->
  length proposer = 32%nat -> is_u 64 (FrameVote.FrameNumber vote) -> participates network = true ->
  NoDup (ProverInfo.Address <$> provers) -> p ∈ provers -> ProverInfo.Address p = getAddressFromPublicKey (Public key) ->
  ProverInfo.PublicKey p = Public key -> frameStoreMu e = mkMutex 0 false -> findProposal (range (frameStore e)) vote = Ok (Some h') ->
  (forall f h, proposals !! proposer = Some f -> GlobalFrame.Header f = Some h -> unsigned h' = unsigned h) ->
  exists parent f h data, head ≫= GlobalFrame.Header = Some parent /\ proposals !! proposer = Some f /\ GlobalFrame.Header f = Some h /\
    GlobalValidate activeProvers f = Ok true /\ GlobalFrameHeader.ParentSelector h = computeGlobalPoseidonHash (GlobalFrameHeader.Output parent) /\
    published st' = published st ++ [(TopicConsensus, data)] /\
    receives provers TopicConsensus data e = (Ok tt, set_calls (calls e ++ [ReceiveVote proposer (ProverInfo.Address p) vote]) e).
Proof.
  intros Hd Hl Hn Hpart Hnd Hp Ha Hk Hmu Hfind Hsame.
  apply decide_Ok in Hd as (parent & f & h & payload & sig & data & Hhead & Hf & Hh & Hval & Hsel & Hpay & Hsig & Hver & Hvote & Hdata & Hpub).
  exists parent, f, h, data. split_and!; try done. assert (length (getAddressFromPublicKey (Public key)) = 32%nat) as Hal by apply be_length.
  assert (FrameVote.Validate (Some vote) = Ok tt) as Hvalid by (apply vote_validates; rewrite Hvote; [done|]; by eexists).
  assert (fits vote) as Hfits.
  { rewrite Hvote in *. split; [exact Hn|]. split; [unfold lenOk; cbn; rewrite Hl; lia|]. by apply addressed_embeds. }
  destruct (vote_encodes vote Hfits) as (data' & Hdata' & Hdec & Hty). assert (data' = data) as -> by congruence.
  rewrite (receive_consensus _ _ _ _ _ _ _ data e _ Hpart Hty).
  - rewrite (dispatch_vote _ _ data Hty). unfold recover.
    rewrite (vote_handled provers p vote (BLS48581AddressedSignature.mk sig (getAddressFromPublicKey (Public key))) h' payload); try done; try (by rewrite Hvote); [|by rewrite Hk].
    by rewrite (payload_unsigned h' h) by (by eapply Hsame).
  - unfold validateGlobalConsensusMessage. rewrite Hty, Hdec. cbn [orReject]. by rewrite Hvalid.
Qed.

(** A confirmation makes no calls. *)
Lemma handleConfirmation_calls activeProvers data e : calls (handleConfirmation activeProvers data e).2 = calls e.
Proof.
  revert e. assert (forall cs, preserves (fun e => calls e = cs) (handleConfirmation activeProvers data)) as Hp.
  { intros cs. assert (forall e mu, calls e = cs -> calls (set_frameStoreMu mu e) = cs) by done. unfold handleConfirmation.
    repeat handler_step; [by intros e|]. intros e He. by rewrite confirm_silent. }
  intros e. by apply (Hp (calls e)).
Qed.

Lemma storeFrame_eq h frame e :
  frameStoreMu e = mkMutex 0 false ->
  storeFrame h frame e = (Ok tt, set_frameStore (<[computeGlobalPoseidonHash (GlobalFrameHeader.Output h) := frame]> (frameStore e)) e).
Proof. destruct e. cbn. by intros ->. Qed.

Lemma frame_encodes frame :
  fits frame -> exists bs, GlobalFrame.ToCanonicalBytes frame = Ok bs /\ GlobalFrame.FromCanonicalBytes bs = Ok frame /\ typePrefix bs = Some GlobalFrameType.
Proof.
  intros Hf. destruct (canonical_encodes frame Hf) as [bs Eb]. exists bs. split; [done|]. split; [exact (canonical_exact frame bs Hf Eb)|].
  apply result_bind_Ok in Eb as (header & _ & Eb). apply result_bind_Ok in Eb as (requests & _ & [= <-]). by apply typePrefix_write.
Qed.

(** C29: a finalised frame arrives through the topic of frames.  SendConfirmation publishes a
    confirmation and the frame, and inserts the frame into the time reel.  A node for whose
    provers the frame is valid, and that receives it within twenty seconds of its timestamp,
    stores it and inserts it into its own time reel; the confirmation has no effect on
    anything but the stored frames. *)
Theorem confirmed_frame_inserted provers finalized h sig k st st' e :
  SendConfirmation (fun _ _ => None) (fun _ => None) finalized st = (Ok tt, st') ->
  GlobalFrame.Header finalized = Some h -> GlobalFrameHeader.PublicKeySignatureBls48581 h = Some sig ->
  BLS48581AggregateSignature.PublicKey sig = Some k -> fits finalized ->
  GlobalValidate (Ok provers) finalized = Ok true -> stale now (GlobalFrameHeader.Timestamp h) = false -> frameStoreMu e = mkMutex 0 false ->
  exists confirmation data, published st' = published st ++ [(TopicConsensus, confirmation); (TopicFrame, data)] /\
    calls (engineOf st') = calls (engineOf st) ++ [InsertFrame finalized] /\
    calls (handleConfirmation (Ok provers) confirmation e).2 = calls e /\
    exists e', receives provers TopicFrame data e = (Ok tt, e') /\ calls e' = calls e ++ [InsertFrame finalized] /\
      frameStore e' = <[computeGlobalPoseidonHash (GlobalFrameHeader.Output h) := finalized]> (frameStore e).
Proof.
  intros Hs Hh Hsig Hk Hfits Hval Hstale Hmu. destruct (frame_encodes finalized Hfits) as (data & Hd & Hdec & Hty).
  unfold SendConfirmation in Hs. rewrite Hh in Hs. unfold mbind at 1, M_bind at 1, lift at 1 in Hs.
  destruct (FrameConfirmation.ToCanonicalBytes _) as [confirmation| | |]; try done. rewrite Hd in Hs. injection Hs as <-.
  exists confirmation, data. split; [cbn; by rewrite <- app_assoc|]. split; [done|]. split; [apply handleConfirmation_calls|].
  eexists. split.
  - unfold receive, subscribed, queued, mbind, M_bind, lift, validate, process, validateFrameMessage. cbn [negb]. rewrite Hty, Z.eqb_refl, Hdec. cbn [orReject].
    unfold validateGlobalFrame. rewrite Hh, Hsig, Hk, Hval. cbn [orReject]. rewrite Hstale. unfold handleFrameMessage, recover.
    rewrite (peek_type _ _ Hty), Z.eqb_refl, Hdec. cbn [orReturn]. rewrite Hh. unfold mbind, M_bind. rewrite storeFrame_eq by done. reflexivity.
  - done.
Qed.

(** A liveness check arrives.  What SendLiveness publishes passes the validation of a
    participant that has the sender among its provers, and reaches its state machine with
    the commitments the sender has collected. *)
Theorem sent_liveness_delivered provers p sent collected st st' e :
  SendLiveness (fun _ _ => None) (Some key) sent collected st = (Ok tt, st') ->
  length (commitmentHash collected) = 32%nat -> is_u 64 (frameNumber collected) -> is_i 64 sent -> participates network = true ->
  NoDup (ProverInfo.Address <$> provers) -> p ∈ provers -> ProverInfo.Address p = getAddressFromPublicKey (Public key) -> ProverInfo.PublicKey p = Public key ->
  exists data, published st' = published st ++ [(TopicConsensus, data)] /\
    receives provers TopicConsensus data e = (Ok tt, set_calls (calls e ++ [ReceiveLivenessCheck (ProverInfo.Address p)
      (mkCollected (frameNumber collected) (commitmentHash collected) (ProverInfo.Address p))]) e).
Proof.
  intros Hs Hl Hn Ht Hpart Hnd Hp Ha Hk. unfold SendLiveness in Hs. set (m := replicate 32 _ ++ _) in Hs.
  destruct (Hsigns m stringLiveness) as (sig & Es & Hsl & Hver). unfold mbind at 1, M_bind at 1, lift at 1 in Hs. rewrite Es in Hs.
  set (check := ProverLivenessCheck.mk _ _ _ _ _) in Hs. assert (length (getAddressFromPublicKey (Public key)) = 32%nat) as Hal by apply be_length.
  assert (fits check) as Hfits by (split_and!; [done..|unfold lenOk; cbn; rewrite Hl; lia|by apply addressed_embeds]).
  destruct (canonical_encodes check Hfits) as [data Hd]. change (ProverLivenessCheck.ToCanonicalBytes check = Ok data) in Hd.
  pose proof (canonical_exact check data Hfits Hd) as Hdec. change (ProverLivenessCheck.FromCanonicalBytes data = Ok check) in Hdec.
  assert (typePrefix data = Some ProverLivenessCheckType) as Hty.
  { pose proof Hd as Hd'. apply result_bind_Ok in Hd' as (x & _ & [= <-]). by apply typePrefix_write. }
  assert (ProverLivenessCheck.Validate (Some check) = Ok tt) as Hv.
  { unfold ProverLivenessCheck.Validate, BLS48581AddressedSignature.Validate, lenIs. cbn. by rewrite Hl, Hal, Hsl. }
  unfold mbind at 1, M_bind at 1, lift at 1 in Hs. rewrite Hd in Hs. injection Hs as <-. exists data. split; [done|].
  rewrite (receive_consensus _ _ _ _ _ _ _ data e _ Hpart Hty).
  - unfold handleGlobalConsensusMessage, recover. rewrite (peek_type _ _ Hty). change (ProverLivenessCheckType =? GlobalFrameType) with false. rewrite Z.eqb_refl. cbn zeta.
    unfold handleLivenessCheck. rewrite Hdec. cbn [orReturn]. rewrite Hv. cbn [orReturn check ProverLivenessCheck.PublicKeySignatureBls48581 BLS48581AddressedSignature.Address].
    rewrite <- Ha, findProver_unique, Hk by done. cbn zeta.
    cbn [check ProverLivenessCheck.FrameNumber ProverLivenessCheck.CommitmentHash ProverLivenessCheck.Timestamp BLS48581AddressedSignature.Signature].
    unfold m in Hver. by rewrite Hver.
  - unfold validateGlobalConsensusMessage. rewrite Hty. change (ProverLivenessCheckType =? GlobalFrameType) with false. rewrite Z.eqb_refl, Hdec. cbn [orReject]. by rewrite Hv.
Qed.
End arrives.

(** ** What is collected is what is materialised *)

Section materialises.
Context `{T : TreeCrypto} `{F : FrameCrypto} {D : Type} `{!Decimal D} {W : Type}.
Context (engineCost : executionEngine -> bytes -> result Z) (processMessage : Z -> Z -> bytes -> bytes -> stateRef -> M W stateRef).
Context (currentDifficulty : Z) (worldSize : W -> Z).

Abbreviation accepts := (acceptMessages (D := D) engineCost processMessage currentDifficulty worldSize).
Abbreviation materializes := (materializeAll (D := D) engineCost processMessage currentDifficulty worldSize).

(** The bytes of a bundle of requests that carries its time. *)
Definition isBundle (data : bytes) : Prop :=
  exists r : MessageBundle.t, fits r /\ MessageBundle.Timestamp r <> 0 /\ MessageBundle.ToCanonicalBytes r = Ok data.

Lemma bundlesOf_app now l l' bs bs' : bundlesOf now l = Ok bs -> bundlesOf now l' = Ok bs' -> bundlesOf now (l ++ l') = Ok (bs ++ bs').
Proof.
  revert bs. induction l as [|d l IH]; intros bs Hl Hl'; [by injection Hl as <-|]. cbn [app bundlesOf] in *.
  destruct (negb _); [by apply IH|]. destruct (MessageBundle.FromCanonicalBytes d); try done; [|by apply IH].
  apply result_bind_Ok in Hl as (bs1 & Hl & [= <-]). by rewrite (IH bs1 Hl Hl').
Qed.

Lemma bundlesOf_one now data r :
  fits r -> MessageBundle.Timestamp r <> 0 -> MessageBundle.ToCanonicalBytes r = Ok data -> bundlesOf now [data] = Ok [r].
Proof.
  intros Hf Ht Hr. pose proof (canonical_exact r data Hf Hr) as Hd. change (MessageBundle.FromCanonicalBytes data = Ok r) in Hd.
  assert (typePrefix data = Some MessageBundleType) as Hty.
  { pose proof Hr as Hr'. apply result_bind_Ok in Hr' as (x & _ & [= <-]). by apply typePrefix_write. }
  cbn [bundlesOf]. rewrite bool_decide_true by done. cbn [negb]. rewrite Hd. cbn [mbind result_bind]. by rewrite (proj2 (Z.eqb_neq _ _) Ht).
Qed.

(** In a run of Collect the messages that are left out have changed nothing. *)
Fixpoint undisturbed (n : Z) (acc : stateRef * list Message.t) (messages : list Message.t) (w : W) : Prop :=
  match messages with
  | [] => True
  | m :: messages =>
    match acceptMessage (D := D) engineCost processMessage currentDifficulty worldSize n acc m w with
    | (Ok acc', w') => (acc'.2 = acc.2 -> w' = w) /\ undisturbed n acc' messages w'
    | _ => True
    end
  end.

Lemma accepts_materializes n later messages :
  Forall (fun m => Message.Address m = globalAddress /\ isBundle (Message.Payload m)) messages ->
  forall w ref l requests w1 ref1 accepted w',
  bundlesOf later (Message.Payload <$> l) = Ok requests -> materializes n ThisState requests w = (Ok ref1, w1) ->
  undisturbed n (ref1, l) messages w1 -> accepts n (ref1, l) messages w1 = (Ok (ref, accepted), w') ->
  exists requests, bundlesOf later (Message.Payload <$> accepted) = Ok requests /\ materializes n ThisState requests w = (Ok ref, w').
Proof.
  induction 1 as [|[addr data] messages [Haddr (r & Hf & Ht & Hr)] _ IH]; intros w ref l requests w1 ref1 accepted w' Hl Hm Hu Ha;
    [injection Ha as <- <- <-; by exists requests|].
  cbn [Message.Address Message.Payload] in *. subst addr. cbn [acceptMessages undisturbed] in *. unfold mbind, M_bind in Ha.
  destruct (acceptMessage _ _ _ _ _ _ _ _) as [[[ref2 l2]| | |] w2] eqn:Hone; try done. destruct Hu as [Hsame Hu]. cbn [snd] in Hsame.
  destruct (accept_materializes _ _ _ _ _ _ _ _ _ _ _ _ _ Hr Hone) as [[-> ->]|[-> Hreq]].
  - rewrite Hsame in Hu, Ha by done. by eapply IH.
  - eapply (IH w ref _ (requests ++ [r])); [| |exact Hu|exact Ha].
    + rewrite fmap_app. eapply bundlesOf_app; [done|]. by eapply bundlesOf_one.
    + rewrite materializes_app. unfold mbind, M_bind. rewrite Hm. cbn [materializeAll]. unfold mbind, M_bind. by rewrite Hreq.
Qed.

(** C31: what a leader has executed is what the frame materialises.  If Collect returns, its
    messages are bundles that carry their time and are addressed to the global shard, and
    those among them that it left out have changed nothing in this run, then the requests
    that the leader puts into the frame are materialised without error by a node that starts
    from the same world, with the same difficulty: materialize comes to the world that
    Collect has left, in which it makes the registry's transition and the commit (or panics,
    if the last bundle has returned no state). *)
Theorem collected_requests_materialise mixnetMessages head cs proverAddress c w out c' w' later transition commit :
  let n := u64 (default 0 head + 1) in
  let messages := allMessages mixnetMessages c in
  Forall (fun m => Message.Address m = globalAddress /\ isBundle (Message.Payload m)) messages ->
  undisturbed n (ThisState, []) messages w ->
  Collect (D := D) engineCost processMessage currentDifficulty worldSize mixnetMessages head cs proverAddress (c, w) = (Ok out, (c', w')) ->
  exists requests ref, bundlesOf later (collectedMessages c') = Ok requests /\ materializes n ThisState requests w = (Ok ref, w') /\
    materialize (D := D) engineCost processMessage currentDifficulty worldSize transition commit n requests w =
      match ref with ThisState => (_ ← transition n; commit) w' | NilState => (Panic, w') end.
Proof.
  intros n messages Hb Hu Hc. unfold Collect, takePending, onWorld, gets, mbind, M_bind, lift in Hc. cbn [fst snd] in Hc.
  fold (allMessages mixnetMessages c) in Hc. fold messages n in Hc.
  destruct (accepts n (ThisState, []) messages w) as [[[ref accepted]| | |] w1] eqn:Ha; try done. cbn [fst snd] in Hc.
  destruct (foldShards _ _ _) as [[ts root]| | |]; try done. injection Hc as <- <- <-. cbn [collectedMessages fst snd].
  destruct (accepts_materializes n later messages Hb w ref [] [] w ThisState accepted w1) as (requests & Hr & Hm); [done..|].
  exists requests, ref. split; [done|]. split; [done|]. unfold materialize, mbind, M_bind. rewrite Hm. by destruct ref.
Qed.
End materialises.
