(* ===== verification/GlobalDemo.v ===== *)
(** * A small network

    Concrete libraries, provers and frames at which the theorems on the global consensus are
    applied.  Signatures are all-zero bytes and keys are numbers; aggregation adds them. *)

From Stdlib Require Import QArith.
From S2P Require Import Prelude ProofTree ProofTreeWf ProofTreeMap ProofTreeCommit ProofTreeCanon Wire CanonicalTypes Keys Frames.
From S2P Require Import Messages Difficulty RewardIssuance ForkChoice Stateful HypergraphState GlobalTimeReel GlobalTimeReelClaims FrameProver.
From S2P Require Import FrameValidator Voting GlobalMessages GlobalMessagesSpec GlobalCollect GlobalProviders.

Module Network.

#[export] Existing Instance Demo.environment.

Definition zeros (n : nat) : bytes := replicate n Byte.x00.

#[export] Instance crypto : FrameCrypto := {
  sha3 _ := zeros 32;
  WesolowskiSolve _ _ := zeros 516;
  WesolowskiVerify _ _ o := bool_decide (o = zeros 516);
  VerifySignatureRaw _ s _ _ := bool_decide (s = zeros 74);
  New := Ok (zeros 585);
  Aggregate keys sigs := Ok (be 585 (foldr Z.add 0 (be_val <$> keys)), be 74 (foldr Z.add 0 (be_val <$> sigs)))
}.

#[export] Instance crypto_laws : FrameCryptoLaws crypto.
Proof. split; intros; [done..|]. by apply bool_decide_eq_true. Qed.

Lemma sum_perm (l l' : list Z) : l ≡ₚ l' -> foldr Z.add 0 l = foldr Z.add 0 l'.
Proof. induction 1; cbn; lia. Qed.

#[export] Instance aggregate_laws : AggregateLaws crypto.
Proof.
  split.
  - intros keys keys' sigs sigs' k s Hp _ _ Ha. injection Ha as <- _. eexists. cbn. by rewrite (sum_perm (be_val <$> keys) (be_val <$> keys')) by (by rewrite Hp).
  - intros keys sigs k s _ _ Ha. injection Ha as <- <-. by rewrite !be_length.
Qed.

Definition keyOf (n : Z) : bytes := zeros 584 ++ [Z_byte n].
Definition signer (n : Z) : Signer := mkSigner KeyTypeBLS48581G1 (keyOf n) (fun _ _ => Ok (zeros 74)).

Lemma signer_signs n m d : signs (signer n) m d.
Proof. exists (zeros 74). split; [done|]. split; [done|]. by apply bool_decide_eq_true. Qed.

Definition address (n : Z) : bytes := getAddressFromPublicKey (keyOf n).
Definition proverOf (n : Z) : ProverInfo.t := ProverInfo.mk (keyOf n) (address n).
Definition provers : list ProverInfo.t := [proverOf 1; proverOf 2].

Lemma proverOf_address n : ProverInfo.Address (proverOf n) = getAddressFromPublicKey (Public (signer n)).
Proof. reflexivity. Qed.

(** The header number [n] after [parent], proposed by prover [k]. *)
Definition headerOf (n : Z) (parent : bytes) (k : Z) : GlobalFrameHeader.t :=
  GlobalFrameHeader.mk n 0 50000 (zeros 516) (be 32 (Demo.hash parent)) (replicate 256 (zeros 64)) (zeros 64)
    (Some (BLS48581AggregateSignature.mk (zeros 74) (Some (BLS48581G2PublicKey.mk (keyOf k))) [Z_byte (2 ^ (k - 1))])).

Definition prior : GlobalFrame.t := GlobalFrame.mk (Some (headerOf 1 [] 1)) [].
Definition proposal : GlobalFrame.t := GlobalFrame.mk (Some (headerOf 2 (zeros 516) 1)) [].

Definition voteOf (n : Z) (proposer : Z) : FrameVote.t :=
  FrameVote.mk 2 (address proposer) true (Some (BLS48581AddressedSignature.mk (zeros 74) (address n))).
Definition votes : list FrameVote.t := [voteOf 1 1; voteOf 2 1].

Definition finalFrame : GlobalFrame.t * bytes :=
  match (FinalizeVotes (Ok provers) [proposal] [proposal] votes : result (GlobalFrame.t * bytes)) with Ok r => r | _ => (prior, []) end.

Definition isOk {A} (r : result A) : bool := match r with Ok _ => true | _ => false end.

Lemma finalFrame_eq : FinalizeVotes (Ok provers) [proposal] [proposal] votes = Ok (finalFrame.1, finalFrame.2).
Proof.
  assert (isOk (FinalizeVotes (Ok provers) [proposal] [proposal] votes) = true) as Hok by (vm_compute; reflexivity).
  unfold finalFrame. by destruct (FinalizeVotes (Ok provers) [proposal] [proposal] votes) as [[f p]| | |].
Qed.

(** The signers of the mask of a finalised frame. *)
Definition finalSigners (r : result (GlobalFrame.t * bytes)) : option (list Z) :=
  match r with
  | Ok (f, _) => h ← GlobalFrame.Header f; sig ← GlobalFrameHeader.PublicKeySignatureBls48581 h; Some (signers (BLS48581AggregateSignature.Bitmask sig))
  | _ => None
  end.

Definition values (m : gmap bytes GlobalFrame.t) : list GlobalFrame.t := snd <$> map_to_list m.

Lemma values_spec m f : f ∈ values m <-> exists k, m !! k = Some f.
Proof.
  unfold values. rewrite list_elem_of_fmap. split.
  - intros ([k x] & -> & Hk). exists k. by apply elem_of_map_to_list.
  - intros [k Hk]. exists (k, f). split; [done|]. by apply elem_of_map_to_list.
Qed.

Definition noShards (_ : bytes) : result (list ProverInfo.t) := Ok [].
Definition noAlerts (_ _ _ : bytes) : bool := false.

(** An engine that has stored the proposal. *)
Definition start : engine := mkEngine ∅ ∅ [] (mkMutex 0 false) [].
Definition selector : bytes := be 32 (Demo.hash (zeros 516)).
Definition holding : engine := set_frameStore {[ selector := proposal ]} start.

Lemma proposal_valid : GlobalValidate (Ok provers) proposal = Ok true.
Proof. vm_compute. reflexivity. Qed.

Lemma provers_differ : NoDup (ProverInfo.Address <$> provers).
Proof. by_decide. Qed.
End Network.
Import Network.

(** ** The theorems at this network *)

Lemma finalized_validates_witness :
  FinalizeVotes (Ok provers) [proposal] [proposal] votes = Ok (finalFrame.1, finalFrame.2) /\ GlobalValidate (Ok provers) finalFrame.1 = Ok true.
Proof.
  split; [exact finalFrame_eq|].
  refine (proj1 (finalized_validates provers [proposal] [proposal] votes finalFrame.1 finalFrame.2 provers_differ _ _ _ _ finalFrame_eq)).
  - cbn. lia.
  - intros p ->%list_elem_of_singleton. exact proposal_valid.
  - intros v Hv. unfold votes in Hv. rewrite !elem_of_cons, elem_of_nil in Hv.
    destruct Hv as [->|[->|[]]]; (split; [by vm_compute|]; eexists; split; [reflexivity|]; by_decide).
  - by_decide.
Defined.

(** Three proposals with three votes each reach a quorum of nine provers, and the first one
    visited is finalised with three signatures. *)
Example split_votes_finalise :
  let nine := proverOf <$> [1; 2; 3; 4; 5; 6; 7; 8; 9] in
  let proposals := (fun k => GlobalFrame.mk (Some (headerOf 2 (zeros 516) k)) []) <$> [1; 2; 3] in
  let split := (fun n => voteOf n ((n - 1) / 3 + 1)) <$> [1; 2; 3; 4; 5; 6; 7; 8; 9] in
  IsQuorum 0 (Ok nine) split = Ok true /\ finalSigners (FinalizeVotes (Ok nine) proposals proposals split) = Some [0; 1; 2].
Proof. split; vm_compute; reflexivity. Qed.

Lemma global_signature_unchecked_witness :
  GlobalValidate (Ok provers) (resigned (replicate 74 Byte.xff) [] proposal) = Ok true.
Proof. exact (proj1 (global_signature_unchecked (Ok provers) proposal (replicate 74 Byte.xff) [] eq_refl proposal_valid)). Defined.

(** An app shard frame with the signature of prover 2. *)
Definition appHeader : FrameHeader.t :=
  FrameHeader.mk [Byte.x01] 1 0 50000 (zeros 516) (zeros 32) (zeros 64) (replicate 4 (zeros 64)) [Byte.x02] 0
    (Some (BLS48581AggregateSignature.mk (zeros 74) (Some (BLS48581G2PublicKey.mk (keyOf 2))) [Byte.x02])).

Lemma app_validate_iff_witness : AppValidate (fun _ => Ok provers) (AppShardFrame.mk (Some appHeader) []) = Ok true.
Proof.
  apply (app_validate_iff (fun _ => Ok provers) (AppShardFrame.mk (Some appHeader) []) appHeader eq_refl); [done|].
  split_and!; try done. eexists. split; [reflexivity|]. split; [by vm_compute|]. intros sig [= <-].
  eexists _, provers, (zeros 585), _. split; [reflexivity|]. split; [by vm_compute|]. split; [reflexivity|]. split; [reflexivity|].
  vm_compute. reflexivity.
Defined.

(** A proposal and a vote for it, which the engine passes on to the state machine. *)
Definition bytesOf (r : result bytes) : bytes := match r with Ok b => b | _ => [] end.
Definition proposalMessage : reception :=
  mkReception (Ok provers) noShards values 0 TopicConsensus (bytesOf (GlobalFrame.ToCanonicalBytes proposal)).
Definition voteMessage : reception :=
  mkReception (Ok provers) noShards values 0 TopicConsensus (bytesOf (FrameVote.ToCanonicalBytes (voteOf 2 1))).
Definition proposed : engine := (receives 99 noAlerts [] proposalMessage start).2.
Definition afterVote : engine := (receives 99 noAlerts [] voteMessage proposed).2.

Lemma engine_calls_justified_witness :
  calls afterVote = [ReceiveProposal (address 1) proposal; ReceiveVote (address 1) (address 2) (voteOf 2 1)] /\
  (exists made, calls afterVote = concat made /\
     Forall2 (fun '(r, e0) cs => Forall (justified noAlerts [] r e0) cs) [(proposalMessage, start); (voteMessage, proposed)] made) /\
  appFrameStore afterVote = ∅.
Proof.
  split; [vm_compute; reflexivity|]. apply (engine_calls_justified 99 noAlerts []).
  apply (reachable_receive 99 noAlerts [] [(proposalMessage, start)] proposed voteMessage afterVote); [|vm_compute; reflexivity].
  apply (reachable_receive 99 noAlerts [] [] start proposalMessage proposed); [apply reachable_start|vm_compute; reflexivity].
Defined.

Lemma keyless_confirmation_blocks_witness :
  exists confirmation vote e1 e2,
    receive 99 (Ok provers) noShards values 0 noAlerts [] TopicConsensus confirmation holding = (Ok tt, e1) /\
    receive 99 (Ok provers) noShards values 0 noAlerts [] TopicConsensus vote e1 = (Ok tt, e2).
Proof.
  destruct (keyless_confirmation_blocks 99 (Ok provers) noShards values 0 noAlerts [] provers proposal (headerOf 2 (zeros 516) 1) selector (proverOf 1) holding)
    as (confirmation & vote & e1 & e2 & _ & _ & H1 & H2 & _).
  - reflexivity.
  - reflexivity.
  - intros m f. apply values_spec.
  - reflexivity.
  - apply lookup_singleton_eq.
  - reflexivity.
  - reflexivity.
  - split; cbn; lia.
  - intros k f h' Hk _ _. change (({[ selector := proposal ]} : gmap bytes GlobalFrame.t) !! k = Some f) in Hk. apply lookup_singleton_Some in Hk as [<- _]. reflexivity.
  - left.
  - reflexivity.
  - exact (ex_intro _ confirmation (ex_intro _ vote (ex_intro _ e1 (ex_intro _ e2 (conj H1 H2))))).
Defined.

(** ** Collecting *)

#[local] Instance trees : TreeCrypto := {| sha512 _ := zeros 64; CommitRaw _ _ := zeros 74 |}.

#[local] Instance rationals : Decimal Q := {|
  ofInt z := inject_Z z;
  Div := Qdiv;
  Mul := Qmult;
  Add := Qplus;
  Zero := inject_Z 0;
  IsZero q := Qnum q =? 0;
  PowWithPrecision q _ _ := Some q;
  NewFromBigRat a b _ := Qdiv (inject_Z a) (inject_Z b);
  BigInt q := Z.quot (Qnum q) (Zpos (Qden q))
|}.

Definition free (_ : executionEngine) (_ : bytes) : result Z := Ok 0.
Definition execute (_ _ : Z) (_ _ : bytes) (ref : stateRef) : M unit stateRef := mret ref.
Definition worldSize (_ : unit) : Z := 2 ^ 40.

(** The roots of the provers and of two shards. *)
Definition shard (b : byte) (l1 : bytes) : ShardKey.t * list bytes := (ShardKey.mk l1 (b :: zeros 31), replicate 4 (zeros 64)).
Definition shards : list (ShardKey.t * list bytes) :=
  [shard Byte.xff (zeros 3); shard Byte.x01 [Byte.x01; Byte.x02; Byte.x03]; shard Byte.x02 [Byte.x01; Byte.x02; Byte.x04]].
Definition idle : collector := mkCollector [] [] [] [] [].

Lemma shards_ok : rootsOk shards.
Proof.
  split_and!.
  - repeat constructor; try (cbn; lia); try done; intros _ b l [= <- _]; by vm_compute.
  - split; [by_decide|]. intros sk sk' H1 H2 Heq. cbn in H1, H2. rewrite !elem_of_cons, elem_of_nil in H1, H2.
    destruct H1 as [->|[->|[->|[]]]], H2 as [->|[->|[->|[]]]]; by (reflexivity || discriminate Heq).
  - intros sk sk' H1 H2 Hp Hp'. cbn in H1, H2. rewrite !elem_of_cons, elem_of_nil in H1, H2.
    destruct H1 as [->|[->|[->|[]]]], H2 as [->|[->|[->|[]]]]; by (reflexivity || discriminate Hp || discriminate Hp').
Qed.

Lemma collect_order_independent_witness :
  Collect (D := Q) free execute 1 worldSize [] None (fun _ => shards) (address 1) (idle, tt) =
  Collect (D := Q) free execute 1 worldSize [] None (fun _ => reverse shards) (address 1) (idle, tt).
Proof.
  refine (proj1 (collect_order_independent free execute 1 worldSize [] None (fun _ => shards) (fun _ => reverse shards) (address 1) idle tt _ _ _)).
  - intros _. split; [exact shards_ok|]. symmetry. apply reverse_Permutation.
  - reflexivity.
  - reflexivity.
Defined.

Lemma empty_bundle_stops_collect_witness :
  (Collect (D := Q) free execute 1 worldSize [] None (fun _ => []) (address 1) (mkCollector [emptyBundle 1000] [] [] [] [], tt)).1 = Panic.
Proof.
  refine (proj2 (proj2 (empty_bundle_stops_collect (D := Q) free execute 1 worldSize 99 (Ok provers) noShards values (10 ^ 9) noAlerts [] 1000 start _ _ _ _))
    [] None (fun _ => []) (address 1) (mkCollector [emptyBundle 1000] [] [] [] []) tt (ThisState, []) tt _ _);
    [reflexivity|split; vm_compute; discriminate || reflexivity|discriminate|split; vm_compute; discriminate|reflexivity..].
Defined.

(** Two bundles that add a vertex; the engine of the hypergraph executes one of them. *)
Definition priced (_ : executionEngine) (_ : bytes) : result Z := Ok 10.
Definition once (_ _ : Z) (_ _ : bytes) (ref : stateRef) : M bool stateRef := fun s => if s then (Err "vertex exists", s) else (Ok ref, true).
Definition addition : MessageBundle.t := MessageBundle.mk [Some (MessageRequest.mk (Some demoAlloc) 0)] 1000.
Definition additionBytes : bytes := match MessageBundle.ToCanonicalBytes addition with Ok b => b | _ => [] end.

Lemma addition_isBundle : isBundle additionBytes.
Proof.
  exists addition. split; [|by split; [discriminate|vm_compute; reflexivity]].
  split_and!; try by_decide. constructor; [|constructor]. apply embeds_run; [|vm_compute; reflexivity]. split; [exact demoAlloc_embeds|reflexivity].
Qed.

Definition waiting : collector := mkCollector [additionBytes; additionBytes] [] [] [] [].
Definition collectedRun : result GlobalCollectedCommitments * (collector * bool) :=
  Collect (D := Q) priced once 1 (fun _ => 2 ^ 40) [] (Some 6) (fun _ => []) (address 1) (waiting, false).

Lemma collected_requests_materialise_witness :
  exists requests ref, bundlesOf 2000 (collectedMessages collectedRun.2.1) = Ok requests /\
    materializeAll (D := Q) priced once 1 (fun _ => 2 ^ 40) 7 ThisState requests false = (Ok ref, true) /\
    materialize (D := Q) priced once 1 (fun _ => 2 ^ 40) (fun _ => mret tt) (mret tt) 7 requests false =
      match ref with ThisState => (Ok tt, true) | NilState => (Panic, true) end.
Proof.
  destruct (collected_requests_materialise (D := Q) priced once 1 (fun _ => 2 ^ 40) [] (Some 6) (fun _ => []) (address 1) waiting false
           (mkCollected 7 (zeros 32) (address 1)) collectedRun.2.1 true 2000 (fun _ => mret tt) (mret tt))
    as (requests & ref & Hb & Hm & Hz).
  - repeat constructor; exact addition_isBundle.
  - vm_compute. split; [discriminate|]. split; [reflexivity|exact I].
  - vm_compute. reflexivity.
  - exists requests, ref. split; [exact Hb|]. split; [exact Hm|]. destruct ref; exact Hz.
Defined.

(** ** Sending *)

(** The collector of a leader, and a provider that has sent nothing. *)
Definition collectedState : collector := mkCollector [] (replicate 256 (zeros 64)) (zeros 64) (zeros 32) [].
Definition silent : provider := mkProvider start [] ∅ 0.
Definition adjuster : AsertDifficultyAdjuster := mkAdjuster 0 0 50000.

Lemma leader_frame_accepted_witness :
  exists frame st', ProveNextState (Some (signer 1)) adjuster (Ok provers) collectedState 0 0 (Some prior) silent = (Ok frame, st') /\
    GlobalValidate (Ok provers) frame = Ok true.
Proof.
  destruct (leader_frame_accepted (signer 1) adjuster provers 0 (proverOf 1) (zeros 585) (be 74 0) collectedState 0 0 prior (headerOf 1 [] 1) [] silent)
    as (frame & h' & st' & Hp & _ & _ & _ & Hv & _).
  - reflexivity.
  - reflexivity.
  - intros m. apply signer_signs.
  - exact provers_differ.
  - reflexivity.
  - cbn. lia.
  - reflexivity.
  - exact (proverOf_address 1).
  - reflexivity.
  - vm_compute. reflexivity.
  - reflexivity.
  - vm_compute. reflexivity.
  - reflexivity.
  - reflexivity.
  - reflexivity.
  - reflexivity.
  - exact (ex_intro _ frame (ex_intro _ st' (conj Hp Hv))).
Defined.

Definition proposals : gmap bytes GlobalFrame.t := {[ address 1 := proposal ]}.
Definition ordered (_ : bytes) : result (list bytes) := Ok [address 1; address 2].

(** The vote of prover 2, and the provider that has sent it. *)
Definition voted : provider :=
  (DecideAndSendVote (fun _ _ => None) (Some (signer 2)) (Ok provers) ordered (Some prior) proposals silent).2.

Lemma voted_eq : DecideAndSendVote (fun _ _ => None) (Some (signer 2)) (Ok provers) ordered (Some prior) proposals silent = (Ok (address 1, voteOf 2 1), voted).
Proof.
  assert ((DecideAndSendVote (fun _ _ => None) (Some (signer 2)) (Ok provers) ordered (Some prior) proposals silent).1 = Ok (address 1, voteOf 2 1)) as Hv
    by (vm_compute; reflexivity).
  unfold voted. destruct (DecideAndSendVote _ _ _ _ _ _ _) as [r st]. cbn in *. by subst.
Qed.

Lemma holding_proposal : findProposal (values (frameStore holding)) (voteOf 2 1) = Ok (Some (headerOf 2 (zeros 516) 1)).
Proof.
  unfold values, holding, set_frameStore. cbn [frameStore]. rewrite map_to_list_singleton. cbn [fmap list_fmap snd].
  assert (proposerOf proposal = Ok (address 1)) as Hp by (vm_compute; reflexivity).
  unfold findProposal. rewrite Hp. cbn [proposal GlobalFrame.Header headerOf GlobalFrameHeader.FrameNumber voteOf FrameVote.FrameNumber Z.eqb Pos.eqb negb mbind result_bind].
  by rewrite bool_decide_true.
Qed.

Lemma sent_vote_delivered_witness :
  exists data, receive 99 (Ok provers) noShards values 0 noAlerts [] TopicConsensus data holding =
    (Ok tt, set_calls (calls holding ++ [ReceiveVote (address 1) (address 2) (voteOf 2 1)]) holding).
Proof.
  destruct (sent_vote_delivered (signer 2) (signer_signs 2) 99 noShards values 0 noAlerts [] (Ok provers) ordered (Some prior) proposals silent
              (address 1) (voteOf 2 1) voted provers (proverOf 2) holding (headerOf 2 (zeros 516) 1) voted_eq)
    as (parent & f & h & data & _ & _ & _ & _ & _ & _ & Hr).
  - reflexivity.
  - split; vm_compute; discriminate || reflexivity.
  - reflexivity.
  - exact provers_differ.
  - right. left.
  - exact (proverOf_address 2).
  - reflexivity.
  - reflexivity.
  - exact holding_proposal.
  - intros f h Hf Hh. change (({[ address 1 := proposal ]} : gmap bytes GlobalFrame.t) !! address 1 = Some f) in Hf. apply lookup_singleton_Some in Hf as [_ <-]. injection Hh as <-. reflexivity.
  - exact (ex_intro _ data Hr).
Defined.

(** The provider after the proposal has been confirmed. *)
Definition confirmed : provider := (SendConfirmation (fun _ _ => None) (fun _ => None) proposal silent).2.

Lemma confirmed_eq : SendConfirmation (fun _ _ => None) (fun _ => None) proposal silent = (Ok tt, confirmed).
Proof.
  assert ((SendConfirmation (fun _ _ => None) (fun _ => None) proposal silent).1 = Ok tt) as Hc by (vm_compute; reflexivity).
  unfold confirmed. destruct (SendConfirmation _ _ _ _) as [r st]. cbn in *. by subst.
Qed.

Lemma proposal_fits : fits proposal.
Proof.
  split; [|by split]. apply embeds_run; [|vm_compute; reflexivity].
  assert (embeds (BLS48581G2PublicKey.mk (keyOf 1))) as Hk by (apply embeds_run; by vm_compute).
  do 3 (split; [split; vm_compute; (discriminate || reflexivity)|]). do 3 (split; [vm_compute; reflexivity|]).
  split; [apply Forall_replicate; vm_compute; reflexivity|]. split; [vm_compute; reflexivity|].
  apply embeds_run; [|vm_compute; reflexivity]. split; [vm_compute; reflexivity|]. split; [exact Hk|vm_compute; reflexivity].
Qed.

Lemma confirmed_frame_inserted_witness :
  exists data e', receive 99 (Ok provers) noShards values 0 noAlerts [] TopicFrame data start = (Ok tt, e') /\ calls e' = [InsertFrame proposal].
Proof.
  destruct (confirmed_frame_inserted 99 noShards values 0 noAlerts [] provers proposal (headerOf 2 (zeros 516) 1)
              (BLS48581AggregateSignature.mk (zeros 74) (Some (BLS48581G2PublicKey.mk (keyOf 1))) [Byte.x01]) (BLS48581G2PublicKey.mk (keyOf 1))
              silent confirmed start confirmed_eq) as (confirmation & data & _ & _ & _ & e' & Hr & Hc & _).
  - reflexivity.
  - reflexivity.
  - reflexivity.
  - exact proposal_fits.
  - exact proposal_valid.
  - reflexivity.
  - reflexivity.
  - exact (ex_intro _ data (ex_intro _ e' (conj Hr Hc))).
Defined.

(** The provider after it has sent a liveness check. *)
Definition live : provider := (SendLiveness (fun _ _ => None) (Some (signer 2)) 0 (mkCollected 2 (zeros 32) (address 2)) silent).2.

Lemma live_eq : SendLiveness (fun _ _ => None) (Some (signer 2)) 0 (mkCollected 2 (zeros 32) (address 2)) silent = (Ok tt, live).
Proof.
  assert ((SendLiveness (fun _ _ => None) (Some (signer 2)) 0 (mkCollected 2 (zeros 32) (address 2)) silent).1 = Ok tt) as Hc by (vm_compute; reflexivity).
  unfold live. destruct (SendLiveness _ _ _ _ _) as [r st]. cbn in *. by subst.
Qed.

Lemma sent_liveness_delivered_witness :
  exists data, receive 99 (Ok provers) noShards values 0 noAlerts [] TopicConsensus data start =
    (Ok tt, set_calls [ReceiveLivenessCheck (address 2) (mkCollected 2 (zeros 32) (address 2))] start).
Proof.
  destruct (sent_liveness_delivered (signer 2) (signer_signs 2) 99 noShards values 0 noAlerts [] provers (proverOf 2) 0
              (mkCollected 2 (zeros 32) (address 2)) silent live start live_eq) as (data & _ & Hr).
  - reflexivity.
  - split; vm_compute; discriminate || reflexivity.
  - split; vm_compute; discriminate || reflexivity.
  - reflexivity.
  - exact provers_differ.
  - right. left.
  - exact (proverOf_address 2).
  - reflexivity.
  - exact (ex_intro _ data Hr).
Defined.
