(* ===== verification/IntrinsicDemo.v ===== *)
(** * Instances of the theorems on the global intrinsic

    A small hypergraph of given vertices, a hash, a parser and a key manager, on which the
    theorems on the registry of provers and on the execution engine are applied. *)

From Stdlib Require Import QArith.
From S2P Require Import Prelude ProofTree ProofTreeWf ProofTreeOps ProofTreeMap ProofTreeCommit ProofTreeProve ProofTreeCanon ProofTreeProveSpec.
From S2P Require Import Wire ProofTreeSerial CanonicalTypes Keys KeyRegistry Global Frames OrderEncoding RdfMultiprover RdfSpec Messages RewardIssuance ForkChoice.
From S2P Require Import Stateful GlobalTimeReel GlobalTimeReelClaims FrameProver FrameValidator GlobalMessages GlobalMessagesSpec HypergraphState GlobalCollect GlobalIntrinsic GlobalExecution.
From S2P Require Import IntrinsicFields GlobalRegistry GlobalRegistryJoin GlobalRegistrySpec GlobalExecutionSpec GlobalProviders GlobalDemo.

#[local] Existing Instance demoCrypto.
#[local] Existing Instance Demo.environment.
#[local] Existing Instance Network.crypto.

(** ** The libraries *)

(** Hashes of the inputs for allocations start with a bit that others do not have. *)
Definition hashOf (b : bytes) : Z :=
  if decide (take 17 b = stringBytes "PROVER_ALLOCATION") then 2 ^ 255 + be_val b mod 2 ^ 255 else be_val b mod 2 ^ 255.

#[export] Instance hash : PoseidonHash := {| HashBytes b := Ok (hashOf b) |}.

#[export] Instance hash_laws : PoseidonLaws hash.
Proof.
  split. intros b _. exists (hashOf b). split; [done|]. unfold hashOf, is_u. pose proof (Z.mod_pos_bound (be_val b) (2 ^ 255) ltac:(lia)).
  case_decide; lia.
Qed.

Definition tagOf (o : Z) : RDFTag := mkTag EmptyString EmptyString o None EmptyString QCLByteArray 0.

Definition addTag (x : string * string * Z) (m : TagsByClass) : TagsByClass :=
  <[x.1.1 := <[x.1.2 := tagOf x.2]> (default ∅ (m !! x.1.1))]> m.

Definition parsed : TagsByClass := foldr addTag ∅ fieldOrders.

#[export] Instance parser : RDFParser := {| GetTagsByClass _ := Ok parsed |}.

Lemma classTag_add x m class f :
  classTag (addTag x m) class f = if decide (x.1 = (class, f)) then Some (tagOf x.2) else classTag m class f.
Proof.
  destruct x as [[c g] o]. unfold classTag, addTag, TagsByClass in *. cbn [fst snd]. destruct (decide (c = class)) as [<-|Hc].
  - rewrite lookup_insert_eq. cbn [mbind option_bind]. destruct (decide (g = f)) as [<-|Hg].
    + rewrite decide_True by done. by rewrite lookup_insert_eq.
    + rewrite decide_False by congruence. rewrite lookup_insert_ne by done. by destruct (m !! c).
  - rewrite decide_False by congruence. by rewrite lookup_insert_ne.
Qed.

Lemma classTag_parsed l class f o :
  NoDup l.*1 -> (class, f, o) ∈ l <-> exists tag, classTag (foldr addTag ∅ l) class f = Some tag /\ Order tag = o.
Proof.
  induction l as [|x l IH]; intros Hnd.
  - split; [by intros ?%not_elem_of_nil|]. by intros (tag & ? & _).
  - rewrite fmap_cons in Hnd. apply NoDup_cons in Hnd as [Hx Hnd]. cbn [foldr]. rewrite elem_of_cons, (classTag_add x). case_decide as E.
    + split.
      * intros [<-|Hin]; [by eexists|]. destruct Hx. apply list_elem_of_fmap. by exists (class, f, o).
      * intros (tag & [= <-] & Eo). left. destruct x as [[] z]. cbn in *. congruence.
    + rewrite (IH Hnd). split; [|by right]. intros [<-|?]; [done|done].
Qed.

Lemma parsed_schema : schemaParsed parsed.
Proof.
  split; [done| |by vm_compute]. intros class f o. apply classTag_parsed. apply (bool_decide_unpack _). by vm_compute.
Qed.

(** The signature of a key is the same for all messages. *)
Definition signatureOf (publicKey : bytes) : bytes := take 74 (publicKey ++ replicate 74 Byte.x00).

#[export] Instance manager : KeyManager := {|
  ValidateSignature _ publicKey _ signature _ := Ok (bool_decide (signature = signatureOf publicKey))
|}.

#[export] Instance nobody : Seniorities := {| peerIdOf _ := Err "no peers"; GetAggregatedSeniority _ := 0 |}.

(** ** The hypergraph *)

Record vertexSpec := mkVertex { vDomain : bytes; vAddress : bytes; vClass : string; vSets : list (string * bytes) }.

Definition vId (v : vertexSpec) : bytes * bytes := (vDomain v, vAddress v).

Definition treeOf (v : vertexSpec) : VectorCommitmentTree :=
  foldl (fun t fx => (setIn parsed (vDomain v) (vClass v) fx.1 (Some fx.2) t).2) emptyTree (vSets v).

Definition fieldsOf (sets : list (string * bytes)) : gmap string bytes := foldl (fun F fx => <[fx.1 := fx.2]> F) ∅ sets.

Definition goodVertex (v : vertexSpec) : Prop :=
  ownVertex (vDomain v) (vAddress v) /\ Forall (fun fx => exists o, (vClass v, fx.1, o) ∈ fieldOrders) (vSets v).

Lemma treeOf_holds v : goodVertex v -> holds parsed (vDomain v) (vClass v) (treeOf v) (fieldsOf (vSets v)).
Proof.
  intros (Hd & Hsets). unfold treeOf, fieldsOf. induction (vSets v) as [|fx sets IH] using rev_ind; [apply holds_empty|].
  apply Forall_app in Hsets as [Hsets Hx]. apply Forall_singleton in Hx as [o Ho]. rewrite !foldl_app. cbn [foldl].
  destruct (setIn_holds parsed parsed_schema (vDomain v) (vClass v) _ _ fx.1 o fx.2 ltac:(by destruct Hd as (_ & [-> | [-> _]])) (IH Hsets) Ho) as (t' & -> & Ht').
  exact Ht'.
Qed.

Definition graph : Type := list vertexSpec * list (bytes * VectorCommitmentTree).

Definition findVertex (vs : list vertexSpec) (id : bytes) : option vertexSpec :=
  snd <$> list_find (fun v => vDomain v ++ vAddress v = id) vs.

#[export] Instance stored : Hypergraph graph := {|
  GetVertex g id := match findVertex g.1 id with Some v => Ok (Vertex.mk (vDomain v) (vAddress v) [] 0) | None => Err "not found" end;
  GetVertexData g id := match findVertex g.1 id with Some v => Ok (treeOf v) | None => Err "not found" end;
  GetHyperedge g id :=
    match list_find (fun e => GLOBAL_INTRINSIC_ADDRESS ++ e.1 = id) g.2 with
    | Some (_, e) => Ok (Hyperedge.mk GLOBAL_INTRINSIC_ADDRESS e.1 e.2)
    | None => Err "not found"
    end;
  NewTransaction := mret tt; AbortTransaction := mret tt; CommitTransaction := mret tt;
  AddVertex _ := mret tt; SetVertexData _ _ := mret tt; RemoveVertex _ := mret tt; AddHyperedge _ := mret tt; RemoveHyperedge _ := mret tt;
  TrackChange _ _ _ _ _ := mret tt; CommitGraph := mret tt
|}.

(** The registry of the vertices, with the hyperedge of one prover. *)
Definition itemOfSpec (v : vertexSpec) : item := mkItem (vClass v) (fieldsOf (vSets v)).

Definition registryOf (vs : list vertexSpec) (a : bytes) (ks : list bytes) : registry :=
  mkRegistry (list_to_map ((fun v => (vId v, itemOfSpec v)) <$> vs)) {[ a := Stored ks ]}.

Lemma registry_vertices vs a ks d x :
  Forall goodVertex vs -> length d = 32%nat -> length x = 32%nat ->
  vertices (registryOf vs a ks) !! (d, x) = itemOfSpec <$> findVertex vs (d ++ x).
Proof.
  intros Hvs Hd Hx. unfold findVertex. cbn [vertices registryOf]. induction Hvs as [|v vs (Hvo & _) _ IH]; [done|].
  rewrite fmap_cons, list_to_map_cons. cbn [list_find]. assert (vId v = (d, x) <-> vDomain v ++ vAddress v = d ++ x) as Hiff.
  { unfold vId. split; [congruence|]. intros [-> ->]%app_inj_1; [done|]. by rewrite Hd, (ownVertex_length _ _ Hvo). }
  case_decide as E.
  - apply Hiff in E. rewrite E, lookup_insert_eq. done.
  - rewrite lookup_insert_ne by tauto. rewrite IH. by destruct (list_find _ vs) as [[]|].
Qed.

Lemma findVertex_good vs id v : Forall goodVertex vs -> findVertex vs id = Some v -> goodVertex v.
Proof.
  intros Hvs. unfold findVertex. destruct (list_find _ vs) as [[i w]|] eqn:E; [|done]. intros [= <-]. apply list_find_Some in E as (E & _).
  rewrite Forall_forall in Hvs. by eapply Hvs, list_elem_of_lookup_2.
Qed.

Lemma registry_good vs a ks d x n : Forall goodVertex vs -> vertices (registryOf vs a ks) !! (d, x) = Some n -> ownVertex d x.
Proof.
  intros Hvs En. cbn [vertices registryOf] in En. apply elem_of_list_to_map_2, list_elem_of_fmap in En as (v & [= -> -> _] & Hv).
  rewrite Forall_forall in Hvs. by destruct (Hvs v Hv) as (? & _).
Qed.

Lemma graph_opened vs a te ks :
  Forall goodVertex vs -> length a = 32%nat -> wf_tree te -> Key <$> leaves_opt (Root te) = app GLOBAL_INTRINSIC_ADDRESS <$> ks ->
  Forall (fun k => length k = 32%nat /\ exists v, findVertex vs (GLOBAL_INTRINSIC_ADDRESS ++ k) = Some v /\ vClass v = allocation) ks ->
  opened parsed (vs, [(a, te)]) (registryOf vs a ks).
Proof.
  intros Hvs Ha Hte Ekeys Hks. assert (forall b l, storedEdge b (registryOf vs a ks) = Some l -> b = a /\ l = ks) as Hedge.
  { intros b l. unfold storedEdge. cbn [edges registryOf]. destruct (decide (a = b)) as [<-|]; [rewrite lookup_singleton_eq; by intros [= ->]|].
    by rewrite lookup_singleton_ne. }
  rewrite Forall_forall in Hks. split.
  - split.
    + intros d x n. by apply registry_good.
    + intros b l [-> ->]%Hedge. split; [done|]. apply Forall_forall. intros k Hk. destruct (Hks k Hk) as (Hl & v & Ev & Ec). split; [done|].
      intros n En. unfold vid in En. rewrite (registry_vertices vs a ks GLOBAL_INTRINSIC_ADDRESS k Hvs eq_refl Hl), Ev in En. by injection En as <-.
    + intros b l k [-> ->]%Hedge Hk. destruct (Hks k Hk) as (Hl & v & Ev & Ec). unfold vid.
      rewrite (registry_vertices vs a ks GLOBAL_INTRINSIC_ADDRESS k Hvs eq_refl Hl), Ev. by eexists.
  - intros d x Ho. pose proof (ownVertex_length d x Ho) as Hd. pose proof (proj1 Ho) as Hx. rewrite (registry_vertices vs a ks d x Hvs Hd Hx). cbn [GetVertex GetVertexData stored fst].
    destruct (findVertex vs (d ++ x)) as [v|] eqn:Ev; cbn [fmap option_fmap option_map]; [|by eauto]. split; [by eexists|]. exists (treeOf v). split; [done|].
    pose proof (findVertex_good _ _ _ Hvs Ev) as Hg. assert (vDomain v = d) as <-; [|by apply treeOf_holds].
    unfold findVertex in Ev. destruct (list_find _ vs) as [[i w]|] eqn:E; [|done]. injection Ev as <-. apply list_find_Some in E as (_ & E & _).
    apply app_inj_1 in E as [-> _]; [done|]. destruct Hg as (Hd' & _). by rewrite Hd, (ownVertex_length _ _ Hd').
  - intros d x _. cbn [GetVertex stored]. destruct (findVertex _ _); cbn; [by eexists|]. by eexists.
  - intros b Hb. cbn [edges registryOf GetHyperedge stored list_find snd fst]. destruct (decide (a = b)) as [<-|Hab].
    + rewrite lookup_singleton_eq, decide_True by done. eexists. split; [done|]. by split.
    + rewrite lookup_singleton_ne by done. rewrite decide_False by (intros E; apply app_inv_head in E; done). by eexists.
Qed.

(** ** A prover with an active and a left allocation *)

Definition proverKey : bytes := [Byte.x07].
Definition proverAddress : bytes := Eval vm_compute in hashAddress proverKey.
Definition filter1 : bytes := replicate 32 Byte.x01.
Definition filter2 : bytes := replicate 32 Byte.x02.
Definition allocation1 : bytes := Eval vm_compute in allocationAt proverKey filter1.
Definition allocation2 : bytes := Eval vm_compute in allocationAt proverKey filter2.

Definition specs : list vertexSpec :=
  [mkVertex GLOBAL_INTRINSIC_ADDRESS proverAddress prover [("PublicKey", proverKey); ("Status", [Byte.x01])];
   mkVertex GLOBAL_INTRINSIC_ADDRESS allocation1 allocation [("Status", [Byte.x01]); ("ConfirmationFilter", filter1)];
   mkVertex GLOBAL_INTRINSIC_ADDRESS allocation2 allocation [("Status", [Byte.x04]); ("ConfirmationFilter", filter2)]].

Definition edgeTree : VectorCommitmentTree :=
  match (t ← ProofTree.Insert emptyTree (GLOBAL_INTRINSIC_ADDRESS ++ allocation1) (Some [Byte.x00]) [] 1;
         ProofTree.Insert t (GLOBAL_INTRINSIC_ADDRESS ++ allocation2) (Some [Byte.x00]) [] 1) with
  | Ok t => t
  | _ => emptyTree
  end.

Definition world : graph := (specs, [(proverAddress, edgeTree)]).
Definition provers0 : registry := registryOf specs proverAddress [allocation1; allocation2].

Lemma specs_good : Forall goodVertex specs.
Proof. repeat (constructor; [split; [by apply own_global|repeat constructor; eexists; order_of]|]). constructor. Qed.

Lemma edgeTree_wf : wf_tree edgeTree.
Proof.
  unfold edgeTree. set (k1 := GLOBAL_INTRINSIC_ADDRESS ++ allocation1). set (k2 := GLOBAL_INTRINSIC_ADDRESS ++ allocation2).
  assert (keysOfLength 64 (contents emptyTree)) as H0 by (by intros k [e E]).
  destruct (Insert_spec emptyTree k1 (Some [Byte.x00]) [] 1) as (t1 & -> & W1 & E1); [apply emptyTree_good|by apply (keysOfLength_fits 64)|].
  cbn [mbind result_bind]. destruct (Insert_spec t1 k2 (Some [Byte.x00]) [] 1) as (t2 & -> & W2 & _); [done| |done].
  apply (keysOfLength_fits 64); [|done|done]. rewrite E1. intros k [e E]. apply lookup_insert_Some in E as [[<- _]|[_ E]]; [done|by apply H0; eexists].
Qed.

Lemma world_opened : opened parsed world provers0.
Proof.
  apply graph_opened; [apply specs_good|done|apply edgeTree_wf|by vm_compute|].
  repeat (constructor; [split; [done|eexists; split; [by vm_compute|done]]|]). constructor.
Qed.

Lemma world_represents : represents parsed ∅ (NewHypergraphState world) provers0.
Proof. apply opened_represents, world_opened. Qed.

Definition signed (filter : bytes) (frame : Z) : FilterOp.t :=
  FilterOp.mk filter frame (BLS48581AddressedSignature.mk (signatureOf proverKey) proverAddress).

Lemma demo_sha512 (b : bytes) : length (sha512 b) = 64%nat.
Proof. apply padded_length. Qed.
Lemma demo_CommitRaw (b : bytes) : slotVector b -> CommitRaw b 64 <> [].
Proof. intros _ E. assert (length (CommitRaw b 64) = 74%nat) as Hl by apply padded_length. by rewrite E in Hl. Qed.

(** ** Verification *)

Lemma allocationAt_high publicKey f : 2 ^ 255 <= be_val (allocationAt publicKey f).
Proof.
  unfold allocationAt, hashAddress. cbn [HashBytes hash]. unfold hashOf. rewrite decide_True by (by rewrite take_app_length').
  rewrite be_val_be. set (z := be_val _). pose proof (Z.mod_pos_bound z (2 ^ 255) ltac:(lia)) as Hz. change (8 * Z.of_nat 32) with 256.
  rewrite (Z.mod_small (2 ^ 255 + _)); [lia|]. split; [lia|]. change (2 ^ 256) with (2 ^ 255 + 2 ^ 255). lia.
Qed.

Lemma registry_inv vs a ks id n : vertices (registryOf vs a ks) !! id = Some n -> exists v, v ∈ vs /\ id = vId v /\ n = itemOfSpec v.
Proof. intros E. apply elem_of_list_to_map_2, list_elem_of_fmap in E as (v & [= -> ->] & Hv). by exists v. Qed.

Lemma provers0_inv x n : vertices provers0 !! vid x = Some n -> x = proverAddress /\ class n = prover \/ class n = allocation.
Proof.
  intros (v & Hv & Ex & ->)%registry_inv. apply (f_equal snd) in Ex. cbn in Ex. subst x. unfold specs in Hv. rewrite !elem_of_cons, elem_of_nil in Hv.
  destruct Hv as [->|[->|[->|[]]]]; [by left|by right..].
Qed.

Lemma provers0_typed : typedRegistry provers0.
Proof.
  intros pk f n [[E _]|Hc]%provers0_inv; [|done]. pose proof (allocationAt_high pk f) as Hh. rewrite E in Hh.
  change (be_val proverAddress) with 7 in Hh. lia.
Qed.

Definition noProofs (_ : graph) (_ : ProverKick.t) : result bool := Ok false.

(** The vertices of the registry. *)
Lemma provers0_at x v : length x = 32%nat -> findVertex specs (GLOBAL_INTRINSIC_ADDRESS ++ x) = Some v -> vertices provers0 !! vid x = Some (itemOfSpec v).
Proof. intros Hx Ev. unfold vid, provers0. by rewrite (registry_vertices specs _ _ GLOBAL_INTRINSIC_ADDRESS x specs_good eq_refl Hx), Ev. Qed.

Definition proverItem : gmap string bytes := fieldsOf [("PublicKey", proverKey); ("Status", [Byte.x01])].
Definition allocationItem1 : gmap string bytes := fieldsOf [("Status", [Byte.x01]); ("ConfirmationFilter", filter1)].
Definition allocationItem2 : gmap string bytes := fieldsOf [("Status", [Byte.x04]); ("ConfirmationFilter", filter2)].

Lemma provers0_prover : itemOf prover (vid proverAddress) provers0 = Some proverItem.
Proof. by apply itemOf_Some, (provers0_at proverAddress (mkVertex GLOBAL_INTRINSIC_ADDRESS proverAddress prover [("PublicKey", proverKey); ("Status", [Byte.x01])])). Qed.

Lemma provers0_allocation1 : itemOf allocation (vid (allocationAt proverKey filter1)) provers0 = Some allocationItem1.
Proof.
  change (allocationAt proverKey filter1) with allocation1.
  by apply itemOf_Some, (provers0_at allocation1 (mkVertex GLOBAL_INTRINSIC_ADDRESS allocation1 allocation [("Status", [Byte.x01]); ("ConfirmationFilter", filter1)])).
Qed.

Lemma provers0_allocation2 : itemOf allocation (vid (allocationAt proverKey filter2)) provers0 = Some allocationItem2.
Proof.
  change (allocationAt proverKey filter2) with allocation2.
  by apply itemOf_Some, (provers0_at allocation2 (mkVertex GLOBAL_INTRINSIC_ADDRESS allocation2 allocation [("Status", [Byte.x04]); ("ConfirmationFilter", filter2)])).
Qed.

Lemma provers0_key : keyAt proverAddress provers0 = Some proverKey.
Proof. unfold keyAt. rewrite decide_True by (cbn; lia). change (take 32 proverAddress) with proverAddress. by rewrite provers0_prover. Qed.

Lemma provers0_named : holdsProver proverAddress provers0.
Proof. pose proof provers0_prover as E. apply itemOf_Some in E. intros n En. rewrite E in En. by injection En as <-. Qed.

Lemma pause_permitted : permitted (OpPause (signed filter1 1000)) 1000 provers0.
Proof. exists proverKey, allocationItem1, [Byte.x01]. exact (conj provers0_key (conj provers0_allocation1 (conj eq_refl (conj eq_refl eq_refl)))). Qed.

Lemma verify_iff_witness : verifyOperation noProofs world (OpPause (signed filter1 1000)) 1000 = Ok true.
Proof.
  refine (proj2 (verify_iff parsed parsed_schema noProofs world provers0 (OpPause (signed filter1 1000)) 1000
    (opened_synced _ _ _ world_opened) provers0_typed provers0_named _) pause_permitted). intros k. discriminate.
Defined.

(** The bytes of the pause. *)
Definition pauseMessage : ProverPause.t := ProverPause.mk filter1 1000 (Some (BLS48581AddressedSignature.mk (signatureOf proverKey) proverAddress)).
Definition pauseBytes : bytes := match ProverPause.ToCanonicalBytes pauseMessage with Ok b => b | _ => [] end.

Lemma pause_decodes : decodeOperation pauseBytes = Ok (OpPause (signed filter1 1000)).
Proof.
  assert (fits pauseMessage) as Hf.
  { split_and!; try by_decide. by apply addressed_embeds. }
  destruct (canonical_encodes pauseMessage Hf) as [b Eb]. change (ProverPause.ToCanonicalBytes pauseMessage = Ok b) in Eb.
  unfold pauseBytes. rewrite Eb. pose proof (canonical_exact pauseMessage b Hf Eb) as Hd. change (ProverPause.FromCanonicalBytes b = Ok pauseMessage) in Hd.
  assert (typePrefix b = Some ProverPauseType) as Et by (apply result_bind_Ok in Eb as (x & _ & [= <-]); by apply typePrefix_write).
  unfold decodeOperation. rewrite Et. MessageRequest.run_switch. by rewrite Hd.
Qed.

Lemma provers0_enrolled : enrolled provers0.
Proof.
  intros a P EP. apply itemOf_Some, provers0_inv in EP as [[-> _]|Hc]; [by eexists|done].
Qed.

Definition pauseOp : operation := OpPause (signed filter1 1000).

Lemma Validate_Ok (g : graph) frame input op :
  decodeOperation input = Ok op -> verifyOperation noProofs g op frame = Ok true -> Validate noProofs g frame input = Ok op.
Proof. intros Ed Ev. unfold Validate. rewrite Ed. cbn [mbind result_bind]. by rewrite Ev. Qed.

Lemma pause_validates : Validate noProofs world 1000 pauseBytes = Ok pauseOp.
Proof.
  apply Validate_Ok; [exact pause_decodes|].
  apply (verify_permitted parsed parsed_schema noProofs world provers0 pauseOp 1000 (opened_synced _ _ _ world_opened) provers0_typed provers0_named);
    [discriminate|exact pause_permitted].
Qed.

Lemma validated_executes_witness :
  exists r', registryStep pauseOp provers0 = Some r'
  /\ succeeds (InvokeStep noProofs 1000 pauseBytes ThisState) (NewHypergraphState world) (fun _ s' => represents parsed ∅ s' r').
Proof.
  exact (validated_executes parsed parsed_schema noProofs demo_sha512 demo_CommitRaw (NewHypergraphState world) provers0 1000 pauseBytes
    pauseOp world_represents (opened_synced _ _ _ world_opened) provers0_typed provers0_enrolled pause_validates provers0_named eq_refl).
Defined.

(** ** Execution *)

Lemma pause_steps : exists r', registrySteps [pauseOp] provers0 = Some r'.
Proof.
  destruct (permitted_step pauseOp 1000 provers0 provers0_enrolled provers0_typed eq_refl pause_permitted) as [r' Er]. exists r'.
  cbn [registrySteps]. by rewrite Er.
Qed.

Lemma materialize_refines_witness : exists r', registrySteps [pauseOp] provers0 = Some r' /\
  succeeds (each (fun op => materializeOperation op 1200) [pauseOp]) (NewHypergraphState world) (fun _ s' => represents parsed ∅ s' r').
Proof.
  destruct pause_steps as [r' Er]. exists r'. split; [exact Er|].
  exact (materialize_refines parsed parsed_schema demo_sha512 demo_CommitRaw [pauseOp] 1200 (NewHypergraphState world) provers0 r' Er world_represents).
Defined.

Lemma provers0_edge b ks : storedEdge b provers0 = Some ks -> b = proverAddress /\ ks = [allocation1; allocation2].
Proof.
  unfold storedEdge, provers0. cbn [edges registryOf]. destruct (decide (proverAddress = b)) as [<-|Hb].
  - rewrite lookup_singleton_eq. by intros [= <-].
  - by rewrite lookup_singleton_ne.
Qed.

Lemma provers0_accounts : accounts provers0.
Proof.
  split; [apply world_opened|..].
  - intros a P pk f EP _ b ks [-> _]%provers0_edge _. apply itemOf_Some, provers0_inv in EP as [[-> _]|Hc]; [done|done].
  - intros a ks x [-> _]%provers0_edge _ b ks' [-> _]%provers0_edge _. done.
  - intros a P ks EP [-> ->]%provers0_edge. rewrite provers0_prover in EP. injection EP as <-.
    pose proof provers0_allocation1 as E1. pose proof provers0_allocation2 as E2. apply itemOf_Some in E1, E2. unfold statusesOf. cbn [omap list_omap].
    change (vertices provers0 !! vid allocation1 = Some (mkItem allocation allocationItem1)) in E1.
    change (vertices provers0 !! vid allocation2 = Some (mkItem allocation allocationItem2)) in E2. rewrite E1, E2. reflexivity.
Qed.

Lemma statuses_aggregate_witness : exists r', registrySteps [pauseOp] provers0 = Some r' /\
  succeeds (each (fun op => materializeOperation op 1200) [pauseOp]) (NewHypergraphState world) (fun _ s' => accounts r' /\
    forall a P ks, itemOf prover (vid a) r' = Some P -> storedEdge a r' = Some ks ->
      succeeds (getTree "prover not found" GLOBAL_INTRINSIC_ADDRESS a) s' (fun p s'' =>
        rdfGet prover "Status" p s'' = (Ok [Z_byte (leading (statusesOf r' ks))], s'') /\ represents parsed ∅ s'' r')).
Proof.
  destruct pause_steps as [r' Er]. exists r'. split; [exact Er|].
  refine (statuses_aggregate parsed parsed_schema demo_sha512 demo_CommitRaw [pauseOp] 1200 (NewHypergraphState world) provers0 r' world_represents
    provers0_accounts _ Er). repeat constructor.
Defined.

Definition key : Signer := mkSigner KeyTypeBLS48581G1 proverKey (fun _ _ => Ok (signatureOf proverKey)).

Lemma key_accepted : accepted key.
Proof.
  split; [done|]. intros m d. exists (signatureOf proverKey). split; [done|].
  change (Ok (bool_decide (signatureOf proverKey = signatureOf proverKey)) = Ok true). by rewrite bool_decide_true.
Qed.

Lemma proved_operation_verifies_witness : exists op', Pause_Prove (Ok key) (signed filter1 1000) = Ok op' /\ Pause_Verify world op' 1000 = Ok true.
Proof.
  destruct (proved_operation_verifies parsed parsed_schema key (signed filter1 1000) world provers0 1000 proverItem allocationItem1 [Byte.x01]
    key_accepted (opened_synced _ _ _ world_opened) provers0_typed provers0_prover eq_refl provers0_allocation1 eq_refl)
    as (_ & _ & (op' & E & Hv) & _).
  exists op'. split; [exact E|]. apply Hv. reflexivity.
Defined.

(** ** Joining *)

Definition filter3 : bytes := replicate 32 Byte.x03.

(** A new prover, and a further allocation of the one that is there. *)
Definition newcomer : JoinOp.t := JoinOp.mk [filter1] 1000 [Byte.x09] (signatureOf [Byte.x09]) [] [] [].
Definition rejoin : JoinOp.t := JoinOp.mk [filter3] 1000 proverKey (signatureOf proverKey) [] [] [].

Definition rejoined : registry := setEdge proverAddress Joined (joinAllocation rejoin proverAddress provers0 filter3).

Lemma newcomer_joins : exists r', joinStep newcomer provers0 = Some r'.
Proof.
  unfold joinStep. rewrite decide_True by (split; [done|repeat constructor]). change (hashAddress (JoinOp.PublicKey newcomer)) with (be 32 9).
  assert (edges provers0 !! be 32 9 = None) as -> by (by apply lookup_singleton_ne).
  unfold enrol. assert (vertices provers0 !! vid (be 32 9) = None) as ->; [|by eexists].
  unfold vid, provers0. by rewrite (registry_vertices specs _ _ GLOBAL_INTRINSIC_ADDRESS (be 32 9) specs_good eq_refl eq_refl).
Qed.

Lemma join_registers_witness : exists r', joinStep newcomer provers0 = Some r' /\
  succeeds (Join_Materialize newcomer 1000) (NewHypergraphState world) (fun _ s' => represents parsed ∅ s' r').
Proof.
  destruct newcomer_joins as [r' Er]. exists r'. split; [exact Er|].
  destruct (join_registers parsed parsed_schema demo_sha512 demo_CommitRaw newcomer 1000 (NewHypergraphState world) provers0 r' Er world_represents)
    as (x & s' & E & Hr & _).
  exact (ex_intro _ x (ex_intro _ s' (conj E Hr))).
Defined.

Lemma rejoin_joins : joinStep rejoin provers0 = Some rejoined.
Proof.
  unfold joinStep. rewrite decide_True by (split; [done|repeat constructor]). change (hashAddress (JoinOp.PublicKey rejoin)) with proverAddress.
  assert (edges provers0 !! proverAddress = Some (Stored [allocation1; allocation2])) as -> by apply lookup_singleton_eq.
  unfold enrol. pose proof provers0_prover as E. apply itemOf_Some in E. by rewrite E.
Qed.

(** The pending state after it. *)
Definition rejoinedState : hypergraphState graph := (Join_Materialize rejoin 1000 (NewHypergraphState world)).2.

Lemma rejoinedState_represents : represents parsed ∅ rejoinedState rejoined.
Proof.
  destruct (Join_refines parsed parsed_schema demo_sha512 demo_CommitRaw rejoin 1000 (NewHypergraphState world) provers0 rejoined rejoin_joins world_represents)
    as (x & s' & E & Hr & _).
  unfold rejoinedState. by rewrite E.
Qed.

Lemma rejoined_other c x n :
  x <> allocationAt proverKey filter3 -> itemOf c (vid x) provers0 = Some n -> itemOf c (vid x) rejoined = Some n.
Proof.
  intros Hne E. apply itemOf_Some in E. apply itemOf_Some. unfold rejoined, joinAllocation.
  change (JoinOp.PublicKey rejoin) with proverKey. cbn [setEdge setItem vertices]. rewrite lookup_insert_ne; [exact E|].
  intros Ev. apply (f_equal snd) in Ev. by symmetry in Ev.
Qed.

Lemma pause_after_join_half_done_witness : exists s',
  Pause_Materialize (signed filter1 1000) 1000 rejoinedState = (Err "invalid object returned for hyperedge", s')
  /\ represents parsed ∅ s' (setItem (vid (allocationAt proverKey filter1)) (mkItem allocation (stamp 2 "PauseFrameNumber" 1000 allocationItem1)) rejoined).
Proof.
  refine (pause_after_join_half_done parsed parsed_schema (signed filter1 1000) 1000 rejoinedState rejoined proverItem
    allocationItem1 proverKey rejoinedState_represents (lookup_insert_eq _ _ _) (rejoined_other _ _ _ _ provers0_prover) eq_refl
    (rejoined_other _ _ _ _ provers0_allocation1)); by vm_compute.
Defined.

(** ** Leaving and rejecting *)

Definition leaveBoth : LeaveOp.t := LeaveOp.mk [filter1; filter2] 1000 (BLS48581AddressedSignature.mk (signatureOf proverKey) proverAddress).

Lemma leave_permitted : leavePermitted leaveBoth provers0.
Proof.
  exists proverKey. refine (conj provers0_key (conj _ eq_refl)). apply Exists_cons_hd.
  exists allocationItem1, Byte.x01, []. exact (conj provers0_allocation1 (conj eq_refl eq_refl)).
Qed.

Lemma leave_verifies : Leave_Verify world leaveBoth 1000 = Ok true.
Proof.
  apply (Leave_Verify_iff parsed parsed_schema world provers0 leaveBoth 1000 (opened_synced _ _ _ world_opened) provers0_typed provers0_named).
  exact leave_permitted.
Qed.

Lemma left_allocation_revived_witness : exists r1 r2 F2, registryStep (OpLeave leaveBoth) provers0 = Some r1
  /\ (forall g1, synced parsed g1 r1 -> Reject_Verify g1 (signed filter2 1400) 1400 = Ok true)
  /\ succeeds (_ ← Leave_Materialize leaveBoth 1000; Reject_Materialize (signed filter2 1400) 1400) (NewHypergraphState world)
       (fun _ s' => represents parsed ∅ s' r2)
  /\ itemOf allocation (vid (allocationAt proverKey filter2)) r2 = Some F2 /\ F2 !! "Status" = Some [Z_byte 1].
Proof.
  assert (filter2 ∈ LeaveOp.Filters leaveBoth) as Hin by (apply list_elem_of_further, list_elem_of_here).
  refine (left_allocation_revived parsed parsed_schema leaveBoth (signed filter2 1400) 1000 1400 world provers0 proverItem allocationItem2 proverKey
    world_opened provers0_typed provers0_enrolled eq_refl provers0_prover eq_refl Hin provers0_allocation2 leave_verifies eq_refl _ _ eq_refl).
  - split; [discriminate|reflexivity].
  - split; discriminate.
Defined.

(** ** Messages of the engine *)

Definition noShardInfo (_ : bytes) (_ : list Z) : result (list (list Z)) := Ok [].
Definition noBloom (b : bytes) : bytes := b.

Definition update : ProverUpdate.t := ProverUpdate.mk [] None.
Definition updateBytes : bytes := match ProverUpdate.ToCanonicalBytes update with Ok b => b | _ => [] end.

Lemma update_never_executes_witness :
  processIndividualMessage noProofs noShardInfo noBloom 1000 GLOBAL_INTRINSIC_ADDRESS
    (MessageRequest.mk (Some (MessageRequest.MessageRequest_Update update)) 0) ThisState (NewHypergraphState world)
  = (Err "unknown global request type", NewHypergraphState world).
Proof. exact (update_never_executes noProofs noShardInfo noBloom 1000 update 0 updateBytes ThisState (NewHypergraphState world) eq_refl). Defined.

(** Two signed headers with different outputs. *)
Definition signature1 : BLS48581AggregateSignature.t := BLS48581AggregateSignature.mk (signatureOf proverKey) None [].
Definition headerWith (output : byte) : FrameHeader.t := FrameHeader.mk [Byte.x01] 1 0 50000 [output] [] [] [] [] 0 (Some signature1).
Definition headerBytes (output : byte) : bytes := match FrameHeader.ToCanonicalBytes (headerWith output) with Ok b => b | _ => [] end.
Definition kick : ProverKick.t := ProverKick.mk 1000 proverKey (headerBytes Byte.x01) (headerBytes Byte.x02) [] [] None.
Definition kickBytes : bytes :=
  match MessageRequest.ToCanonicalBytes (MessageRequest.mk (Some (MessageRequest.MessageRequest_Kick kick)) 0) with Ok b => b | _ => [] end.

Lemma header_fits output : fits (headerWith output).
Proof.
  split_and!; try by_decide; try done. apply embeds_run; [|vm_compute; reflexivity]. split_and!; try by_decide; done.
Qed.

Lemma kick_embeds : embeds kick.
Proof. apply embeds_run; [|vm_compute; reflexivity]. split_and!; try by_decide; done. Qed.

Lemma kick_validation_panics_witness :
  GlobalExecution.ValidateMessage noProofs noShardInfo noBloom 0 world 1000 GLOBAL_INTRINSIC_ADDRESS kickBytes = Panic.
Proof.
  refine (kick_validation_panics noProofs noShardInfo noBloom 0 world 1000 kick (headerWith Byte.x01) (headerWith Byte.x02) (headerBytes Byte.x01)
    (headerBytes Byte.x02) kickBytes signature1 signature1 (header_fits _) (header_fits _) eq_refl eq_refl _ eq_refl eq_refl eq_refl eq_refl kick_embeds eq_refl).
  vm_compute. discriminate.
Defined.

(** The bundle that adds a vertex, in a frame. *)
#[local] Existing Instance rationals.

Definition skip (_ _ : Z) (_ _ : bytes) (ref : stateRef) : M (hypergraphState graph) stateRef := mret ref.

Lemma addition_fits : fits addition.
Proof.
  split_and!; try by_decide. constructor; [|constructor]. apply embeds_run; [|vm_compute; reflexivity]. split; [exact demoAlloc_embeds|reflexivity].
Qed.

Definition process : Z -> Z -> bytes -> bytes -> stateRef -> M (hypergraphState graph) stateRef :=
  ManagerProcessMessage noProofs noShardInfo noBloom skip.
Definition size40 (_ : hypergraphState graph) : Z := 2 ^ 40.
Definition additionFee : Z := match (unitFee (D := Q) 1 size40 10 (NewHypergraphState world)).1 with Ok fee => fee | _ => 0 end.

Lemma foreign_bundle_panics_witness :
  materialize (D := Q) priced process 1 size40 (fun _ => mret tt) (mret tt) 7 [addition] (NewHypergraphState world) = (Panic, NewHypergraphState world).
Proof.
  refine (foreign_bundle_panics (D := Q) noProofs noShardInfo noBloom skip priced 1 size40 (fun _ => mret tt) (mret tt) 7 10 additionFee [] addition additionBytes
    (NewHypergraphState world) (NewHypergraphState world) addition_fits _ _ eq_refl _ _).
  - vm_compute. reflexivity.
  - constructor; [by eexists|constructor].
  - vm_compute. reflexivity.
  - unfold additionFee. vm_compute. reflexivity.
Defined.
